(* ===== verification/_CoqProject ===== *)
-Q . S2P
Prelude.v
TextSpec.v
Utf8.v
StringBuffer.v
PieceTree.v
PieceTreeInv.v
PieceTreeEdit.v
PieceTreeQuery.v
PieceTreeLines.v
PieceTreeMeta.v
PieceTreeBulk.v
MarkerTree.v
MarkerTreeInv.v
MarkerTreeOps.v
MarkerTreeEdit.v
MarkerTreeQuery.v
MarkerTreeBulk.v
MarkerStore.v
MarkerList.v
MarkerListInv.v
CoordMap.v
Cursor.v
CursorInv.v
BufferFormat.v
Encodings.v
PieceTreeDiff.v
Persistence.v
TextBuffer.v
TextBufferInv.v
TextBufferSession.v
TextBufferLoad.v
TextBufferLoadInv.v
TextBufferLimits.v
BufferSave.v
BufferSaveInv.v
BufferOpen.v
RecoveryChunks.v
RecoveryChunksInv.v
Event.v
EventText.v
EventLog.v
EventLogInv.v
InputKeys.v
InputMouse.v
InputParser.v
InputParserInv.v
InputReports.v
LineDiff.v
LineDiffInv.v
LineDiffText.v
CompositeBuffer.v
CompositeInv.v
PathEncode.v
WrapMachine.v
WrapInv.v
WrapKeeps.v
WrapRun.v
WrapResume.v
GlobMatch.v
GlobPath.v
TextEdit.v
TextEditInv.v
TextEditOps.v
TextEditSession.v
TextEditUndo.v
BufferSearch.v
BufferSearchInv.v
BufferSearchLoop.v
BufferSearchTop.v
TextBufferNav.v
TextBufferLineScan.v
VirtualSpace.v
FileUri.v
Snippet.v
SplitTree.v
SplitManager.v
SplitPanes.v
SplitView.v
ScrollSync.v
