(* ===== verification/Prelude.v ===== *)
(** * Fresh: the document core of the Fresh editor

    Fresh is a text editor.  Its core crate, crates/fresh-editor-core, keeps a document as
    a piece tree over immutable buffers, which a text buffer opens from files, loads on
    demand, edits, saves and recovers; the positions that decorate the document are in a
    marker tree, the cursors of the views in a collection of their own; every edit is an
    event in a log that undoes and redoes it.  Input reaches the editor through the
    terminal parser of crates/fresh-input-parser.  This library models these components
    and proves what each of them promises.

    ** Files, components and sources

    Sources are under src/crates/fresh-editor-core/src/model/ unless another crate is named.

    Foundations.
    - Prelude (this file): panicking computations ([res]), slices and the standard-library
      searches the code uses, tactics and the hint databases [fresh].
    - TextSpec: flat text, the reference for everything else: splicing, newlines, the
      start of a line, the position of an offset.
    - Utf8: what the code uses of the standard library's UTF-8 and UTF-16 functions.

    The document.
    - StringBuffer: [BufferData] and [StringBuffer] of piece_tree.rs.
    - PieceTree: [PieceTreeNode], [PieceTree], [PieceRangeIter] of piece_tree.rs, one
      definition per method under the method's name; a method whose name exists twice has a
      prefix ([node_], [tree_]).  Loops inside a method are definitions of their own
      (e.g. [merge_deletes], [take_inserts], [apply_edits_to_leaves] for apply_bulk_edits).
    - PieceTreeInv, PieceTreeEdit, PieceTreeQuery, PieceTreeLines, PieceTreeMeta,
      PieceTreeBulk: the document of a tree as a list of cells (buffer, offset), its text
      through a [content] function that the loaded buffers agree with, the invariant
      [tree_inv] (exact byte and line-feed summaries, pieces inside their buffers), and the
      theorems on edits and editing sessions, lookups and reads, line conversions,
      metadata updates, and bulk edits.
    - PieceTreeDiff: piece_tree_diff.rs, the structural comparison of two trees.

    The text buffer (buffer/ and encoding.rs, encoding_heuristics.rs).
    - BufferFormat: buffer/format.rs, line endings and encodings of a buffer.
    - Encodings: detection of a file's encoding and conversion from and to UTF-8.
    - Persistence: buffer/persistence.rs, dirty flags and the comparison with the saved text.
    - TextBuffer: construction, edits, bulk edits, snapshots and consolidation of
      buffer/mod.rs.  TextBufferInv: the invariant [tb_inv] and each edit's effect on the
      text.  TextBufferSession: sessions refine a flat text with remembered snapshots.
    - TextBufferLoad, TextBufferLoadInv: chunks loaded on demand, the line-feed scan,
      streamed files, and that reads through them return the text.  TextBufferLimits: inputs
      on which the conditions of these theorems fail.
    - TextBufferNav: positions of language servers and character boundaries in a buffer.
      TextBufferLineScan: the bounded searches for line starts.
    - BufferSave, BufferSaveInv: the write recipes of buffer/save.rs and what they write.
    - BufferOpen: the loaders of buffer/mod.rs, and opening composed with saving.
    - RecoveryChunks, RecoveryChunksInv: buffer/recovery_chunks.rs with the reconstruction
      of crates/fresh-editor/src/services/recovery/storage.rs.

    Searching.
    - BufferSearch: buffer/search.rs, the search of a buffer in windows ([RegexSearch]), the
      search in time slices ([BufferSearch]) and replacement templates, on anything that reads
      its text (the class [TextSource]).  BufferSearchInv: what is assumed of an engine, the
      matches of a text as [find_iter] gives them, lines and context of a match.
      BufferSearchLoop: the scan of a window, what a source promises (the class
      [TextSourceLaws]) and the windows of a step.  BufferSearchTop: whole searches, plain
      text as an engine, the text buffer as a source, a search of a file loaded on demand,
      and an engine that windows are not exact for.

    Positions.
    - MarkerTree: [Node] and [IntervalTree] of marker_tree.rs: the AVL tree with lazy
      deltas.  MarkerTreeInv, MarkerTreeOps, MarkerTreeEdit, MarkerTreeQuery, MarkerTreeBulk:
      the contents of a tree as the ordered list of markers with every pending delta applied,
      the invariant [it_inv] (balance, statistics, order by position, distinct ids, id map),
      and the theorems on insertion, deletion, edits, queries and batches.
    - MarkerStore: what the marker tree promises its client, as the classes [MarkerStore]
      (operations) and [MarkerStoreLaws] (laws over a map from ids to positions), with the
      instances of the interval tree.
    - MarkerList, MarkerListInv: [MarkerList] of marker.rs on any marker store, and its
      refinement of a map from ids to positions.
    - CoordMap: [CoordMap] of coord_map.rs, the ring of edits that maps stale coordinates
      forward, and its refinement of the unbounded history.
    - Cursor, CursorInv: [Cursor] and [Cursors] of cursor.rs; the step relation of a
      collection, its invariant, positions through an edit, normalisation.
    - VirtualSpace: virtual_space.rs, cursors beyond the end of a line, with the columns of
      primitives/display_width.rs.

    Undo.
    - Event: the events of event.rs with their inverses, and [apply_to_buffer] from
      state.rs.  EventText: what an event does to a flat text.
    - EventLog, EventLogInv: the log, undo, redo, groups and the saved position, and the
      sessions of edits, undo and redo on a buffer with its log.

    Differences between texts, and file names.
    - LineDiff: crates/fresh-core/src/diff.rs, the patience diff of two texts, the mapping
      of offsets through it and the comparison in bytes.  LineDiffInv: scripts (what a diff
      is), the longest chains and common subsequences.  LineDiffText: what a diff means for
      the texts.
    - CompositeBuffer, CompositeInv: composite_buffer.rs, side-by-side views and the
      alignment of their lines, composed with the diff.
    - PathEncode: path_encode.rs of the core crate and
      [decode_filename_to_path] of crates/fresh-editor/src/workspace.rs.
    - FileUri: crates/fresh-core/src/file_uri.rs, paths as file URIs, as built for Unix.

    Visual rows.
    - WrapMachine: wrap_machine.rs of the core crate, which cuts a stream of view tokens into
      visual rows under the word, grid and chop rules, with the widths and the string driver
      of primitives/visual_layout.rs and the escape state of primitives/ansi.rs.  WrapInv:
      what a stream shows, rows as the cut of the output.  WrapKeeps: every rule's step.
      WrapRun: whole runs.  WrapResume: runs resumed at a line.

    Panes (crates/fresh-editor/src/view/split.rs).
    - SplitTree: [SplitNode], the tree of panes, and the rule that divides a rectangle
      between two of them.  SplitManager: [SplitManager], which splits, closes, focuses and
      maximizes panes.  SplitPanes: its contract, a list of panes, and the refinement.
      SplitView: [SplitViewState], the tabs of a pane and the view states it keeps.
    - ScrollSync: view/scroll_sync.rs of the editor crate, panes that scroll together: the map
      of lines through anchors, the row at which two panes of one buffer are lined up, and the
      groups of panes.

    Input fields and patterns (primitives/ of the core crate).
    - TextEdit: text_edit.rs, the editing state of prompts and input fields, with the
      byte-level words of word_navigation.rs and the clusters of grapheme.rs.  TextEditInv:
      positions as offsets of the value, the invariant [te_ok], insertion as a splice.
      TextEditOps: insertion of texts and the deletions.  TextEditSession: movements and the
      reachable states.  TextEditUndo: undo and redo refine a history;
      sample sessions, and sessions outside the conditions.
    - Snippet: snippet.rs, the expansion of snippets.
    - GlobMatch: glob_match.rs, patterns for file names and paths.  GlobPath: the
      relations they decide, and the documented meaning of path patterns.

    Terminal input (crates/fresh-input-parser/src/).
    - InputKeys: the data of key and mouse events, keypad.rs, media_modifier.rs.
    - InputMouse: mouse reports, the report scanner and motion coalescing of lib.rs.
    - InputParser: the state machine [InputParser] of lib.rs.  InputParserInv: its
      invariant, and what typed text, pastes and replies become.  InputReports: the
      encoder of encode.rs, and mouse reports end to end.

    ** How state is modelled

    - A [usize] is a [nat].  Where the code saturates, the bound is a parameter
      ([usize_max]); unsigned subtractions that can go below zero and slice indices are
      checked ([usub], [slice]) and give [Panic], and the theorems show it does not occur.
      Positions of the marker tree are [Z] with the wrap-around of the casts between [u64]
      and [i64] written out ([to_u64], [to_i64], [add_i64]); theorems about edits assume
      that positions stay below 2^63.
    - [Arc], [Rc] and [RefCell] nodes are values; operations that mutate through a shared
      reference (a query pushes deltas) return the new tree.  Parent pointers of the marker
      tree are the path of the recursion, and its id map is the set of its keys.  Where the
      code compares nodes by address, the comparison is a parameter that implies equality.
    - A [u16] of the split layout is a [Z] with saturation and overflow written out, an
      [f32] a binary32 number of the standard library's specification of floating point.
    - A [HashMap] is a finite map; the order in which it is visited is a parameter that
      ranges over all enumerations of its entries.
    - Assertions that only debug builds check are [Panic] too.
    - A method that returns [Result] and may have changed its receiver before the error
      gives the receiver in both cases.

    Parameters: the file system (reading a range or a file, its size and existence, counting
    line feeds), the codecs of encoding_rs and the guess of chardetng, the sizes of load
    chunks and their alignment, the case mapping of characters, the clock, the
    cluster and word segmentation and the widths of characters, the regex crate, the view
    states of buffers that a pane stores.  What is
    assumed of them is
    a named hypothesis: a file system returns the bytes of the file, a codec decodes
    well-formed UTF-16, the clusters of a text are non-empty and make up the text, a cluster
    boundary next to an offset is on its side of it and between characters, an escaped text,
    compiled by the regex crate, matches that text, leftmost first ([escape_is_literal]).

    ** What the theorems show

    - Piece tree: insertions, deletions, sessions of both and bulk edits never panic, keep
      the invariant, make exactly the splices of the flat text, and keep the depth
      logarithmic; lookups, reads, line counts and the conversions between offsets and
      positions are those of the flat text wherever the pieces are cut; metadata updates and
      splits keep the document.  A diff reports equality exactly for equal documents when no
      subtree is shared.
    - Buffers: appending never moves existing bytes; a chunk of an unloaded buffer loads the
      slice of the bytes the buffer loads.
    - Text buffer: a session of edits, saves, snapshots and restores refines a flat text;
      reads of unloaded text whose pieces are still loadable load what they need, end, and
      return the text; a save writes
      the text, large files included; opening and saving a file unchanged gives its bytes
      back; recovery rebuilds the unsaved text.  Positions of language servers convert back to
      the character they are of; characters are stepped over whole; the bounded searches for
      line starts end and find the line starts of the text.  Detection recognises UTF-8, and converting
      line endings there and back is the identity.
    - Search: a search for a plain text in windows of any size ends and finds the occurrences
      of the text, in order and up to the limit, whether the text is loaded or not; a search in
      time slices is always of the buffer as it is and gives every match its line and column.
      The lemmas hold for every engine that windows suit ([windowed_engine]).
    - Marker tree: insertion, deletion, moving, edits and batches keep the invariant and
      have the effect of the operation on the list of markers; rank queries are exact; the
      height is logarithmic; the batched adjustment equals the edits one by one.
    - Marker list: every session whose bulk edits come from the highest position down refines
      the map of positions, and both paths of a bulk adjustment agree.
    - Coordinate map: an answer is the replay of the whole newer history, eviction and
      barriers only make it refuse.
    - Cursors: the primary cursor always exists, positions follow the text, normalisation
      neither invents nor loses a cursor.
    - Virtual space: the text inserted for a cursor beyond the end of its line makes its column
      the width of the line.
    - Undo log: in sessions of events that fit the text and can be undone, undo followed by
      redo restores the text, undo takes back a whole group, and a log that was not cleared
      and is at its saved position has the saved text.
    - Input parser: no byte panics or loops, the buffers are bounded, every state can be
      left; typed text, pastes and mouse reports arrive as what they are, replies of the
      terminal are silent, the report scanner agrees with the parser on decoded reports.
    - Line diff: the diff of any two texts never panics, its hunks are ordered and separated,
      and carrying them out gives the new text; anchors are a longest chain of unique lines
      and the fallback keeps a longest common subsequence; offsets keep their place in
      common lines and are mapped to character boundaries; a comparison's byte ranges turn
      one text into the other.  A side-by-side view of it shows every line once.
    - File names: safe, at most 255 bytes, distinct for distinct canonical paths, reversible
      for ASCII paths; shortening never cuts an escape.  The URI of a path leads back to it.
    - Snippets: the expansion of any snippet ends with a cursor between characters; a template
      expands to the texts of its parts.
    - Wrap machine: a run under any rule, from a row it can resume at, ends and shows its input, with only breaks and
      indents added; its rows are the output cut behind every break and newline and start at
      ascending source offsets; behind a newline a run can be resumed from the recorded
      carry; the ranges of a wrapped string tile it.
    - Panes: whatever is done to the panes of a window, the tree of splits shows the list of
      panes the operations promise, with distinct identifiers and the focus on one of them,
      and nothing panics as long as identifiers are used for what they were handed out for;
      dividing a pane tiles it; a pane always has a view state for the buffer it shows.
      Panes that scroll together through anchors stay together: the map of lines is monotone
      and leads back; two panes of one buffer stay on one curve when the partner is the
      taller one row by row.
    - Text edit: typing, pasting and every deletion is one splice of the value; the states
      reachable by its operations are sound and no further operation panics, with ASCII lines
      where the code counts bytes and no anchor left at the cursor by a deletion; undo and
      redo move in a history of values.
    - Glob patterns: the backtracking loops decide a declarative meaning of a pattern, names
      where no literal star meets a star, paths always; for paths it is the documented meaning
      but for double stars with a separator, which match at least what is documented; a list
      matches when one of its entries does.
    - Where the code departs from its intention, a closed evaluation shows it: columns of
      [position_to_offset] in a line of several pieces, ends of intervals that span an edit,
      queries with stale maximal ends, duplicates that survive normalisation, and the
      theorems of TextBufferLimits and at the ends of BufferSaveInv, RecoveryChunksInv,
      Encodings, EventLogInv, InputReports, PathEncode, WrapResume, GlobPath, TextEditUndo,
      BufferSearchTop, Snippet, SplitPanes and ScrollSync.

    ** Fuel and bounds

    Recursions are structural or by a measure, with these exceptions.  [split_leaf] has as
    many steps as the piece has bytes; [split_leaves_to_chunk_size_bounds] shows that this is
    enough for every positive chunk size (with size 0 the loop of the code does not end).
    The loops of a diff have as many steps as there are spans, and lemmas show that more
    steps change nothing.  The loop that reads with loading has two steps per byte; running
    out would be a [Panic], which the theorem on it excludes.  A byte is fed to the input
    parser at most twice: the invariant shows that the second time consumes it.  The
    recursion of the line diff has the depth bound of the code, its backtracking one step
    per line and its chain of backpointers one per pair; the loop that splits a text
    over rows has two steps per cluster; the theorems show that each is enough.  The
    matching loops of a pattern have the product of the lengths of pattern and text as
    steps (for paths once more the length of the text), which their theorems show enough.
    The scan of a window has a step per byte and a search the square of the bytes as windows
    (a window that finds nothing to move past is read again, bigger).
    A search back for a line start has one pass more than it has bytes: every pass that does
    not reach its end has loaded some.  The expansion of a snippet has a step per character.
    The rebalancing test of [check_and_rebalance] compares with the rounded-up binary
    logarithm, which the code computes in floating point.

    ** What is not modelled

    The word and cluster boundaries of the main buffer, which classify clusters by Unicode
    tables, and its line iterators; the Windows build of file URIs; the files, temporary
    names and privileges of a save, the storage of recovery data and the streaming of the
    event log, which are file I/O; overlays, popups and highlighting of the editor state; the
    view states of buffers in panes, which the tabs of a pane store unseen; the rest of the
    user interface, plugins, language servers, terminals and front ends of the other
    crates. *)
From stdpp Require Import base numbers list option.
From Stdlib Require Import ssreflect Strings.Byte Lia.
#[global] Open Scope general_if_scope.

(** ** Panicking computations

    Rust code that indexes a slice or subtracts unsigned integers aborts when
    the index is out of range or the difference is negative.  [res] makes that
    outcome a value: a function that contains such an operation returns [Panic]
    where the code panics (in a build with overflow checks). *)
Inductive res (A : Type) : Type :=
| Ok (a : A)
| Panic.
Arguments Ok {A} a.
Arguments Panic {A}.

#[export] Instance res_ret : MRet res := fun A a => Ok a.
#[export] Instance res_bind : MBind res := fun A B f m =>
  match m with Ok a => f a | Panic => Panic end.
#[export] Instance res_fmap : FMap res := fun A B f m =>
  match m with Ok a => Ok (f a) | Panic => Panic end.
#[export] Instance res_eq_dec {A} `{EqDecision A} : EqDecision (res A).
Proof. solve_decision. Defined.

(** Checked subtraction: [a - b] on unsigned integers. *)
Definition usub (a b : nat) : res nat :=
  if decide (b <= a) then Ok (a - b) else Panic.

(** [&data[start..end]]: panics unless [start <= end <= len]. *)
Definition slice {A} (data : list A) (start end_ : nat) : res (list A) :=
  if decide (start <= end_ /\ end_ <= length data)
  then Ok (take (end_ - start) (drop start data)) else Panic.

(** [data.get(start..end)]: [None] where indexing would panic. *)
Definition slice_get {A} (data : list A) (start end_ : nat) : option (list A) :=
  if decide (start <= end_ /\ end_ <= length data)
  then Some (take (end_ - start) (drop start data)) else None.

(** ** Slices as ordered sequences

    [partition_point] and [binary_search] of the Rust standard library, on the
    inputs they are documented for (a slice partitioned by the predicate, a
    sorted slice): the first index where the predicate fails, and the position
    of an element or of the gap it would fill. *)
Fixpoint partition_point {A} (p : A -> bool) (l : list A) : nat :=
  match l with
  | [] => 0
  | x :: l => if p x then S (partition_point p l) else 0
  end.

Definition binary_search (l : list nat) (x : nat) : nat + nat :=
  let i := partition_point (fun y => bool_decide (y < x)) l in
  if decide (l !! i = Some x) then inl i else inr i.

(** [iter().rposition(p)]: the last index where [p] holds. *)
Fixpoint rposition {A} (p : A -> bool) (l : list A) : option nat :=
  match l with
  | [] => None
  | x :: l =>
      match rposition p l with
      | Some i => Some (S i)
      | None => if p x then Some 0 else None
      end
  end.

(** [Vec::dedup]: drop every element equal to the one before it. *)
Fixpoint dedup {A} `{EqDecision A} (l : list A) : list A :=
  match l with
  | x :: ((y :: _) as k) => if decide (x = y) then dedup k else x :: dedup k
  | _ => l
  end.

(** The derived [Ord] on pairs: lexicographic. *)
Definition pair_le (a b : nat * nat) : Prop :=
  a.1 < b.1 \/ a.1 = b.1 /\ a.2 <= b.2.
#[export] Instance pair_le_dec a b : Decision (pair_le a b) := _.

(** [Option] addition as the line-feed summaries use it: unknown as soon as one
    side is unknown. *)
Definition opt_add (a b : option nat) : option nat :=
  match a, b with
  | Some a, Some b => Some (a + b)
  | _, _ => None
  end.

Arguments opt_add !a !b / : simpl nomatch.

(** ** Automation *)
Create HintDb fresh.
Create Rewrite HintDb fresh.

(** Split a goal on every [decide] and comparison it contains. *)
Ltac case_cmp :=
  repeat (case_decide || case_bool_decide || case_match); simplify_eq/=.

(** [Forall] over a literal list, from hypotheses. *)
Ltac solve_Forall := repeat apply Forall_cons_2; try apply Forall_nil_2; auto with fresh.

(** Peel an [Ok] result off the bind of a hypothesis. *)
Ltac inv_res :=
  repeat match goal with
  | H : Ok _ = Ok _ |- _ => injection H as H; subst
  | H : Panic = Ok _ |- _ => discriminate H
  | H : mbind _ ?m = Ok _ |- _ => destruct m eqn:?; simpl in H; [|discriminate H]
  end.

Lemma opt_add_Some a b c :
  opt_add a b = Some c <-> exists x y, a = Some x /\ b = Some y /\ c = x + y.
Proof.
  unfold opt_add. destruct a, b; split; intros H; simplify_eq; eauto;
    by destruct H as (? & ? & ? & ? & ?); simplify_eq.
Qed.

Lemma opt_add_assoc a b c : opt_add a (opt_add b c) = opt_add (opt_add a b) c.
Proof. destruct a, b, c; simpl; try done. f_equal; lia. Qed.

Lemma opt_add_0_l a : opt_add (Some 0) a = a.
Proof. by destruct a. Qed.

Lemma opt_add_0_r a : opt_add a (Some 0) = a.
Proof. destruct a; simpl; [f_equal; lia | done]. Qed.

Lemma usub_Ok a b : b <= a -> usub a b = Ok (a - b).
Proof. intros. unfold usub. by rw decide_True. Qed.

Lemma slice_Ok {A} (d : list A) s e :
  s <= e -> e <= length d -> slice d s e = Ok (take (e - s) (drop s d)).
Proof. intros. unfold slice. by rw decide_True. Qed.

Lemma slice_get_Some {A} (d : list A) s e :
  s <= e -> e <= length d -> slice_get d s e = Some (take (e - s) (drop s d)).
Proof. intros. unfold slice_get. by rw decide_True. Qed.

Lemma partition_point_le {A} (p : A -> bool) l : partition_point p l <= length l.
Proof. induction l as [|x l IH]; simpl; [lia|]. destruct (p x); simpl; lia. Qed.

(** The position of a split inside an append. *)
Lemma take_drop_app_mid {A} (l k : list A) n :
  n <= length l -> take n (l ++ k) = take n l /\ drop n (l ++ k) = drop n l ++ k.
Proof.
  intros. split; [by rw take_app_le | by rw drop_app_le].
Qed.

#[export] Hint Rewrite @length_app @length_take @length_drop : fresh.
#[export] Hint Rewrite opt_add_0_l opt_add_0_r : fresh.
