(* ===== verification/TextSpec.v ===== *)
(** * Reference semantics of flat text

    What a document is, independently of how it is stored: a list of bytes,
    edited by splicing and addressed by byte offsets or by lines.  The piece
    tree, the string buffers and the clients are specified against these
    definitions. *)
From stdpp Require Import base numbers list option.
From Stdlib Require Import ssreflect Strings.Byte.
From S2P Require Import Prelude.

#[export] Instance byte_eq_dec : EqDecision byte := Byte.byte_eq_dec.

Definition is_nl (b : byte) : bool := Byte.eqb b x0a.

Definition count_newlines (t : list byte) : nat := length (List.filter is_nl t).

(** Offset of the first byte of line [k] (0-based), [None] past the last line. *)
Fixpoint nth_line_start (t : list byte) (k : nat) : option nat :=
  match k, t with
  | 0, _ => Some 0
  | S _, [] => None
  | S k', b :: t' => S <$> (if is_nl b then nth_line_start t' k' else nth_line_start t' k)
  end.

(** Line and byte column of an offset. *)
Definition line_of (t : list byte) (off : nat) : nat := count_newlines (take off t).

Definition position_of (t : list byte) (off : nat) : nat * nat :=
  let line := line_of t off in
  (line, off - default 0 (nth_line_start t line)).

(** Replace [del] elements at [pos] by [ins]. *)
Definition splice {A} (t : list A) (pos del : nat) (ins : list A) : list A :=
  take pos t ++ ins ++ drop (pos + del) t.

(** ** Lemmas *)
Lemma count_newlines_app t u :
  count_newlines (t ++ u) = count_newlines t + count_newlines u.
Proof. unfold count_newlines. rw List.filter_app. by rw length_app. Qed.

Lemma count_newlines_cons b t :
  count_newlines (b :: t) = (if is_nl b then 1 else 0) + count_newlines t.
Proof. unfold count_newlines. simpl. by destruct (is_nl b). Qed.

Lemma count_newlines_split n t :
  count_newlines t = count_newlines (take n t) + count_newlines (drop n t).
Proof. by rw -count_newlines_app take_drop. Qed.

Lemma count_newlines_le_length t : count_newlines t <= length t.
Proof. induction t as [|b t IH]; [done|]. rw count_newlines_cons. simpl. destruct (is_nl b); lia. Qed.

Lemma nth_line_start_is_Some t k :
  is_Some (nth_line_start t k) <-> k <= count_newlines t.
Proof.
  revert k. induction t as [|b t IH]; intros [|k]; simpl.
  - split; [lia | eauto].
  - split; [intros [? [=]] | unfold count_newlines; simpl; lia].
  - split; [lia | eauto].
  - rw fmap_is_Some count_newlines_cons. destruct (is_nl b); rw IH; lia.
Qed.

Lemma nth_line_start_spec t k s :
  nth_line_start t k = Some s -> s <= length t /\ count_newlines (take s t) = k.
Proof.
  revert k s. induction t as [|b t IH]; intros [|k] s; simpl; intros H; simplify_eq/=; try done.
  - split; [lia | done].
  - apply fmap_Some in H as (s' & H & ->). simpl. rw count_newlines_cons.
    destruct (is_nl b); apply IH in H as [? ?]; lia.
Qed.

Lemma nth_line_start_S_pos t k s : nth_line_start t (S k) = Some s -> 0 < s.
Proof. destruct t; simpl; intros H; [done|]. apply fmap_Some in H as (? & _ & ->). lia. Qed.

(** A line starts either at offset 0 or right after a newline. *)
Lemma nth_line_start_prev_nl t k s :
  nth_line_start t (S k) = Some s -> exists b, t !! (s - 1) = Some b /\ is_nl b = true.
Proof.
  revert k s. induction t as [|b t IH]; intros k s; simpl; [done|].
  intros (s' & H & ->)%fmap_Some. rw Nat.sub_succ Nat.sub_0_r.
  destruct (is_nl b) eqn:E.
  - destruct k as [|k].
    + assert (s' = 0) as -> by (destruct t; by simplify_eq/=). by exists b.
    + pose proof (nth_line_start_S_pos _ _ _ H). destruct s' as [|s']; [lia|].
      apply IH in H. simpl in *. by rw Nat.sub_0_r in H.
  - pose proof (nth_line_start_S_pos _ _ _ H). destruct s' as [|s']; [lia|].
    apply IH in H. simpl in *. by rw Nat.sub_0_r in H.
Qed.

(** The start of the line an offset is on lies at or before the offset. *)
Lemma nth_line_start_line_of t off s :
  nth_line_start t (line_of t off) = Some s -> s <= off.
Proof.
  unfold line_of. revert off s. induction t as [|b t IH]; intros off s; simpl.
  - destruct off; simpl; unfold count_newlines; simpl; intros; simplify_eq; lia.
  - destruct off as [|off]; simpl; [by intros; simplify_eq|].
    rw count_newlines_cons. destruct (is_nl b); simpl.
    + intros (s' & H & ->)%fmap_Some. apply IH in H. lia.
    + destruct (count_newlines (take off t)) eqn:E; [intros; simplify_eq; lia|].
      intros (s' & H & ->)%fmap_Some. rw -E in H. apply IH in H. lia.
Qed.

Lemma nth_line_start_app_l t u k :
  k <= count_newlines t -> nth_line_start (t ++ u) k = nth_line_start t k.
Proof.
  revert k. induction t as [|b t IH]; intros k; simpl.
  - unfold count_newlines. simpl. intros. replace k with 0 by lia. by destruct u.
  - rw count_newlines_cons. destruct k as [|k]; [done|].
    destruct (is_nl b); intros; rw IH; try done; lia.
Qed.

Lemma nth_line_start_app_r t u k :
  count_newlines t < k ->
  nth_line_start (t ++ u) k = Nat.add (length t) <$> nth_line_start u (k - count_newlines t).
Proof.
  revert k. induction t as [|b t IH]; intros k; simpl.
  - unfold count_newlines. simpl. intros. rw Nat.sub_0_r.
    destruct (nth_line_start u k); done.
  - rw count_newlines_cons. destruct k as [|k]; [lia|]. intros.
    destruct (is_nl b); rw IH; try lia; simpl.
    + by destruct (nth_line_start u _).
    + destruct (nth_line_start u _); done.
Qed.

Lemma length_splice {A} (t : list A) pos del ins :
  pos + del <= length t -> length (splice t pos del ins) + del = length t + length ins.
Proof. intros. unfold splice. autorewrite with fresh. lia. Qed.

Lemma position_of_line_start t k s :
  nth_line_start t k = Some s -> position_of t s = (k, 0).
Proof.
  intros H. unfold position_of, line_of.
  destruct (nth_line_start_spec _ _ _ H) as [_ ->]. rw H. simpl. f_equal. lia.
Qed.

(** A newline at [p] makes the next line start at [p + 1]. *)
Lemma nth_line_start_after_nl t p b :
  t !! p = Some b -> is_nl b = true -> nth_line_start t (S (line_of t p)) = Some (S p).
Proof.
  unfold line_of. revert p. induction t as [|c t IH]; intros p H Hb; [done|].
  destruct p as [|p]; simpl in *.
  - simplify_eq. rw Hb. by destruct t.
  - rw count_newlines_cons. specialize (IH _ H Hb).
    destruct (is_nl c); simpl; by rw IH.
Qed.

Lemma line_of_S t p :
  line_of t (S p) = line_of t p + (if default false (is_nl <$> t !! p) then 1 else 0).
Proof.
  unfold line_of. destruct (t !! p) as [b|] eqn:E; simpl.
  - rw (take_S_r _ _ _ E) count_newlines_app count_newlines_cons.
    change (count_newlines []) with 0. lia.
  - apply lookup_ge_None in E. rw !take_ge; lia.
Qed.

Lemma line_of_le t a b : a <= b -> line_of t a <= line_of t b.
Proof.
  intros. unfold line_of. rw (count_newlines_split a (take b t)).
  rw take_take Nat.min_l; lia.
Qed.
