(* ===== verification/Utf8.v ===== *)
(** * UTF-8 and UTF-16

    The part of the Rust standard library that the editor decodes and encodes text
    with: [str::from_utf8] with the place and kind of its error, the characters of
    [String::from_utf8_lossy], [char::encode_utf8] and [char::encode_utf16].  A
    character is its code point, an [N].

    The lemmas: encoding then decoding gives the character back, whatever follows;
    a text is valid exactly when it is the encoding of scalar values; and a prefix
    of a valid text is valid up to at most three bytes before its end. *)
From stdpp Require Import base numbers list option.
From Stdlib Require Import ssreflect Strings.Byte NArith.
From S2P Require Import Prelude TextSpec.

Definition code (b : byte) : N := Byte.to_N b.
Definition byte_of (n : N) : byte := default x00 (Byte.of_N (n mod 256)).

Definition in_range (lo hi x : N) : bool := (lo <=? x)%N && (x <=? hi)%N.

Definition is_scalar (c : N) : bool := (c <? 0xD800)%N || in_range 0xE000 0x10FFFF c.

Definition replacement : N := 0xFFFD.

(** ** Decoding *)

(** What starts at a byte: a character and its width, an invalid sequence and how
    much of it is skipped, or a sequence cut off by the end of the input. *)
Inductive utf8_item : Type :=
| UChar (c : N) (width : nat)
| UBad (width : nat)
| UCut.

Definition is_cont (b : byte) : bool := in_range 0x80 0xBF (code b).

(** The second byte a three- or four-byte sequence may have, by its first. *)
Definition second_ok (b0 b1 : byte) : bool :=
  let x0 := code b0 in
  let lo := (if x0 =? 0xE0 then 0xA0 else if x0 =? 0xF0 then 0x90 else 0x80)%N in
  let hi := (if x0 =? 0xED then 0x9F else if x0 =? 0xF4 then 0x8F else 0xBF)%N in
  in_range lo hi (code b1).

Definition utf8_next (b0 : byte) (bs : list byte) : utf8_item :=
  let x0 := code b0 in
  if (x0 <? 0x80)%N then UChar x0 1
  else if in_range 0xC2 0xDF x0 then
    match bs with
    | [] => UCut
    | b1 :: _ =>
        if is_cont b1 then UChar ((x0 - 0xC0) * 64 + (code b1 - 0x80))%N 2 else UBad 1
    end
  else if in_range 0xE0 0xEF x0 then
    match bs with
    | [] => UCut
    | b1 :: bs =>
        if second_ok b0 b1 then
          match bs with
          | [] => UCut
          | b2 :: _ =>
              if is_cont b2
              then UChar (((x0 - 0xE0) * 64 + (code b1 - 0x80)) * 64 + (code b2 - 0x80))%N 3
              else UBad 2
          end
        else UBad 1
    end
  else if in_range 0xF0 0xF4 x0 then
    match bs with
    | [] => UCut
    | b1 :: bs =>
        if second_ok b0 b1 then
          match bs with
          | [] => UCut
          | b2 :: bs =>
              if is_cont b2 then
                match bs with
                | [] => UCut
                | b3 :: _ =>
                    if is_cont b3
                    then UChar ((((x0 - 0xF0) * 64 + (code b1 - 0x80)) * 64
                                 + (code b2 - 0x80)) * 64 + (code b3 - 0x80))%N 4
                    else UBad 3
                end
              else UBad 2
          end
        else UBad 1
    end
  else UBad 1.

(** [str::from_utf8]: [None] for valid, else [valid_up_to] and [error_len].  [skip]
    is the rest of the current character. *)
Fixpoint utf8_scan (skip pos : nat) (bs : list byte) : option (nat * option nat) :=
  match bs with
  | [] => None
  | b :: bs =>
      match skip with
      | S skip => utf8_scan skip (S pos) bs
      | 0 =>
          match utf8_next b bs with
          | UChar _ w => utf8_scan (w - 1) (S pos) bs
          | UBad w => Some (pos, Some w)
          | UCut => Some (pos, None)
          end
      end
  end.

Definition from_utf8 (bs : list byte) : option (nat * option nat) := utf8_scan 0 0 bs.

(** The characters of [String::from_utf8_lossy]. *)
Fixpoint lossy_chars (skip : nat) (bs : list byte) : list N :=
  match bs with
  | [] => []
  | b :: bs =>
      match skip with
      | S skip => lossy_chars skip bs
      | 0 =>
          match utf8_next b bs with
          | UChar c w => c :: lossy_chars (w - 1) bs
          | UBad w => replacement :: lossy_chars (w - 1) bs
          | UCut => [replacement]
          end
      end
  end.

Definition from_utf8_lossy (bs : list byte) : list N := lossy_chars 0 bs.

(** ** Encoding *)
Definition encode_utf8 (c : N) : list byte :=
  byte_of <$>
  (if c <? 0x80 then [c]
   else if c <? 0x800 then [0xC0 + c / 64; 0x80 + c mod 64]
   else if c <? 0x10000 then [0xE0 + c / 4096; 0x80 + c / 64 mod 64; 0x80 + c mod 64]
   else [0xF0 + c / 262144; 0x80 + c / 4096 mod 64; 0x80 + c / 64 mod 64; 0x80 + c mod 64])%N.

Definition encode_all (cs : list N) : list byte := cs ≫= encode_utf8.

Definition encode_utf16 (c : N) : list N :=
  if (c <? 0x10000)%N then [c]
  else [(0xD800 + (c - 0x10000) / 1024)%N; (0xDC00 + (c - 0x10000) mod 1024)%N].

(** Decoding UTF-16: a high and a low surrogate make one character, a surrogate on
    its own is replaced. *)
Fixpoint decode_utf16 (us : list N) : list N :=
  match us with
  | [] => []
  | u :: us' =>
      if in_range 0xD800 0xDBFF u then
        match us' with
        | v :: us'' =>
            if in_range 0xDC00 0xDFFF v
            then (0x10000 + (u - 0xD800) * 1024 + (v - 0xDC00))%N :: decode_utf16 us''
            else replacement :: decode_utf16 us'
        | [] => [replacement]
        end
      else if in_range 0xDC00 0xDFFF u then replacement :: decode_utf16 us'
      else u :: decode_utf16 us'
  end.

(** ** Lemmas *)
Ltac Zify.zify_post_hook ::= Z.to_euclidean_division_equations.

Lemma code_lt b : (code b < 256)%N.
Proof. pose proof (Byte.to_N_bounded b). unfold code. lia. Qed.

Lemma byte_of_code b : byte_of (code b) = b.
Proof.
  unfold byte_of. pose proof (code_lt b). rw N.mod_small //. unfold code. by rw Byte.of_to_N.
Qed.

Lemma byte_of_eq n b : n = code b -> byte_of n = b.
Proof. intros ->. apply byte_of_code. Qed.

Lemma code_byte_of n : (n < 256)%N -> code (byte_of n) = n.
Proof.
  intros Hn. unfold byte_of, code. rw N.mod_small //.
  destruct (Byte.of_N n) as [b|] eqn:E; [by apply Byte.to_of_N|].
  apply Byte.of_N_None_iff in E. lia.
Qed.

Lemma in_range_true lo hi x : (lo <= x <= hi)%N -> in_range lo hi x = true.
Proof. unfold in_range. intros. apply andb_true_iff. rw !N.leb_le. lia. Qed.

Lemma in_range_false lo hi x : (x < lo \/ hi < x)%N -> in_range lo hi x = false.
Proof. unfold in_range. intros. apply andb_false_iff. rw !N.leb_gt. lia. Qed.

Lemma in_range_spec lo hi x : in_range lo hi x = true <-> (lo <= x <= hi)%N.
Proof. unfold in_range. rw andb_true_iff !N.leb_le. lia. Qed.

(** Decide every comparison of code points in the goal by arithmetic. *)
Ltac decide_codes :=
  repeat match goal with
  | |- context [in_range ?a ?b ?x] =>
      first [rw (in_range_true a b x); [lia|] | rw (in_range_false a b x); [lia|]]
  | |- context [(?a <? ?b)%N] =>
      first [rw (proj2 (N.ltb_lt a b)); [lia|] | rw (proj2 (N.ltb_ge a b)); [lia|]]
  | |- context [(?a =? ?b)%N] =>
      first [rw (proj2 (N.eqb_eq a b)); [lia|] | rw (proj2 (N.eqb_neq a b)); [lia|]]
  end.

Lemma is_scalar_spec c : is_scalar c = true <-> (c < 0xD800 \/ 0xE000 <= c <= 0x10FFFF)%N.
Proof. unfold is_scalar. rw orb_true_iff N.ltb_lt in_range_spec. done. Qed.

Lemma second_ok_spec b0 b1 :
  second_ok b0 b1 = true <->
  (0x80 <= code b1 <= 0xBF)%N
  /\ (code b0 = 0xE0 -> 0xA0 <= code b1)%N /\ (code b0 = 0xF0 -> 0x90 <= code b1)%N
  /\ (code b0 = 0xED -> code b1 <= 0x9F)%N /\ (code b0 = 0xF4 -> code b1 <= 0x8F)%N.
Proof.
  unfold second_ok. rw in_range_spec.
  repeat match goal with |- context [(?a =? ?b)%N] => destruct (N.eqb_spec a b) end; lia.
Qed.

Lemma code_ascii b bs : (code b < 0x80)%N -> utf8_next b bs = UChar (code b) 1.
Proof. intros. unfold utf8_next. by decide_codes. Qed.

(** Encoding then decoding, whatever follows. *)
Lemma utf8_next_encode c rest :
  is_scalar c = true ->
  exists b0 bs, encode_utf8 c = b0 :: bs /\ utf8_next b0 (bs ++ rest) = UChar c (S (length bs)).
Proof.
  intros Hc%is_scalar_spec. unfold encode_utf8.
  destruct (N.ltb_spec c 0x80); [|destruct (N.ltb_spec c 0x800); [|destruct (N.ltb_spec c 0x10000)]];
    cbn [fmap list_fmap]; eexists _, _; (split; [done|]); cbn [app length].
  - rw code_ascii !code_byte_of //; lia.
  - unfold utf8_next, is_cont. rw !code_byte_of; [lia..|]. decide_codes. f_equal. lia.
  - unfold utf8_next, is_cont. rw (proj2 (second_ok_spec _ _)) !code_byte_of; [lia..|].
    decide_codes. f_equal. lia.
  - unfold utf8_next, is_cont. rw (proj2 (second_ok_spec _ _)) !code_byte_of; [lia..|].
    decide_codes. f_equal. lia.
Qed.

(** The code points of the bytes of a character. *)
Ltac split_codes :=
  repeat match goal with
  | H : context [if in_range ?a ?b ?x then _ else _] |- _ =>
      let E := fresh "E" in destruct (in_range a b x) eqn:E; [apply in_range_spec in E|]
  | H : context [if (?a <? ?b)%N then _ else _] |- _ => destruct (N.ltb_spec a b)
  | H : context [if second_ok ?a ?b then _ else _] |- _ =>
      let E := fresh "E" in destruct (second_ok a b) eqn:E; [apply second_ok_spec in E|]
  | H : context [match ?l with [] => _ | _ :: _ => _ end] |- _ => is_var l; destruct l
  end.

(** Decoding then encoding. *)
Lemma utf8_next_sound b0 bs c w :
  utf8_next b0 bs = UChar c w ->
  is_scalar c = true /\ encode_utf8 c = take w (b0 :: bs) /\ 1 <= w <= S (length bs).
Proof.
  unfold utf8_next, is_cont. intros H. split_codes; simplify_eq; (split; [apply is_scalar_spec; lia|]);
    cbn [length take]; (split; [|lia]); unfold encode_utf8; decide_codes; cbn [fmap list_fmap];
    rw ?take_0; repeat (apply (f_equal2 cons); [apply byte_of_eq; lia|]); done.
Qed.

(** A character cut short. *)
Lemma utf8_next_cut c b0 bs q :
  is_scalar c = true -> encode_utf8 c = b0 :: bs ++ q -> q <> [] -> utf8_next b0 bs = UCut.
Proof.
  intros Hc He Hq. destruct (utf8_next_encode c [] Hc) as (b0' & bs' & He' & Hn).
  rw He in He'. injection He' as <- <-. rw app_nil_r in Hn.
  destruct q as [|x q]; [done|]. clear Hq He Hc. revert Hn. rw length_app /=.
  unfold utf8_next, is_cont. intros H.
  destruct bs as [|b1 [|b2 [|b3 bs]]]; simpl in H |- *; split_codes; simplify_eq/=; try lia; try done.
Qed.

(** ** Texts *)
Lemma utf8_scan_skip skip pos bs :
  skip <= length bs -> utf8_scan skip pos bs = utf8_scan 0 (pos + skip) (drop skip bs).
Proof.
  revert skip pos. induction bs as [|b bs IH]; intros [|skip] pos H; simpl in H |- *; try done; try lia.
  - by rw Nat.add_0_r.
  - rw IH; [lia|]. f_equal. lia.
Qed.

Lemma lossy_chars_skip skip bs : lossy_chars skip bs = lossy_chars 0 (drop skip bs).
Proof. revert skip. induction bs as [|b bs IH]; intros [|skip]; [done..|]. apply IH. Qed.

Lemma encode_all_cons c cs : encode_all (c :: cs) = encode_utf8 c ++ encode_all cs.
Proof. done. Qed.

Lemma encode_all_app cs ds : encode_all (cs ++ ds) = encode_all cs ++ encode_all ds.
Proof. apply bind_app. Qed.

(** Scanning and decoding pass over an encoded character. *)
Lemma utf8_scan_char c pos rest :
  is_scalar c = true ->
  utf8_scan 0 pos (encode_utf8 c ++ rest) = utf8_scan 0 (pos + length (encode_utf8 c)) rest.
Proof.
  intros Hc. destruct (utf8_next_encode c rest Hc) as (b0 & bs & -> & Hn). simpl. rw Hn.
  simpl. rw Nat.sub_0_r utf8_scan_skip; [rw length_app; lia|]. rw drop_app_length. f_equal. lia.
Qed.

Lemma lossy_chars_char c rest :
  is_scalar c = true -> lossy_chars 0 (encode_utf8 c ++ rest) = c :: lossy_chars 0 rest.
Proof.
  intros Hc. destruct (utf8_next_encode c rest Hc) as (b0 & bs & -> & Hn). simpl. rw Hn.
  simpl. by rw Nat.sub_0_r lossy_chars_skip drop_app_length.
Qed.

Lemma utf8_scan_encoded cs pos rest :
  Forall (fun c => is_scalar c = true) cs ->
  utf8_scan 0 pos (encode_all cs ++ rest) = utf8_scan 0 (pos + length (encode_all cs)) rest.
Proof.
  intros Hcs. revert pos. induction Hcs as [|c cs Hc _ IH]; intros pos; [by rw Nat.add_0_r|].
  rw encode_all_cons -app_assoc utf8_scan_char // IH length_app. f_equal. lia.
Qed.

(** The encoding of scalar values is valid and decodes to them. *)
Lemma from_utf8_encoded cs :
  Forall (fun c => is_scalar c = true) cs ->
  from_utf8 (encode_all cs) = None /\ from_utf8_lossy (encode_all cs) = cs.
Proof.
  intros Hcs. split.
  - unfold from_utf8. by rw -(app_nil_r (encode_all cs)) utf8_scan_encoded.
  - unfold from_utf8_lossy. induction Hcs as [|c cs Hc _ IH]; [done|].
    by rw encode_all_cons lossy_chars_char // IH.
Qed.

(** A valid text is the encoding of its characters. *)
Lemma from_utf8_valid bs :
  from_utf8 bs = None ->
  bs = encode_all (from_utf8_lossy bs) /\ Forall (fun c => is_scalar c = true) (from_utf8_lossy bs).
Proof.
  unfold from_utf8, from_utf8_lossy. generalize 0 at 2. remember (length bs) as n eqn:Hn.
  revert bs Hn. induction n as [n IH] using lt_wf_ind. intros [|b bs] -> pos; [done|].
  simpl. destruct (utf8_next b bs) as [c w|w|] eqn:E; try done.
  apply utf8_next_sound in E as (Hc & He & Hw).
  rw utf8_scan_skip; [lia|]. rw lossy_chars_skip. intros Hs.
  apply (IH (length (drop (w - 1) bs))) in Hs as [Hd Hall]; [|rw length_drop /=; lia|done].
  split; [|by constructor]. rw encode_all_cons He -Hd. destruct w as [|w]; [lia|].
  simpl. by rw Nat.sub_0_r take_drop.
Qed.

(** An encoded character has one to four bytes. *)
Lemma length_encode_utf8 c : 1 <= length (encode_utf8 c) <= 4.
Proof. unfold encode_utf8. rw length_fmap. repeat case_match; simpl; lia. Qed.

(** A prefix of a valid text ends with at most three bytes of a cut character. *)
Lemma utf8_prefix_split cs n :
  n <= length (encode_all cs) ->
  exists cs1 p, take n (encode_all cs) = encode_all cs1 ++ p /\ cs1 `prefix_of` cs
  /\ (p = [] \/ exists c q, c ∈ cs /\ encode_utf8 c = p ++ q /\ p <> [] /\ q <> []).
Proof.
  revert n. induction cs as [|c cs IH]; intros n Hn.
  { exists [], []. split_and!; [by rw take_nil|done|by left]. }
  rw encode_all_cons length_app in Hn. rw encode_all_cons.
  destruct (decide (n < length (encode_utf8 c))) as [Hlt|Hge].
  - exists [], (take n (encode_utf8 c)). split; [by rw take_app_le; [lia|]|]. split; [apply prefix_nil|].
    destruct n as [|n]; [by left|]. right.
    exists c, (drop (S n) (encode_utf8 c)). rw take_drop. split_and!; [constructor|done| |].
    + intros H%(f_equal length). rw length_take length_nil in H. lia.
    + intros H%(f_equal length). rw length_drop length_nil in H. lia.
  - destruct (IH (n - length (encode_utf8 c))) as (cs1 & p & Hp & Hpre & Hc); [lia|].
    exists (c :: cs1), p. split; [rw take_app_ge; [lia|]; by rw Hp encode_all_cons app_assoc|].
    split; [by apply prefix_cons|]. destruct Hc as [->|(c' & q & ? & ?)]; [by left|right].
    exists c', q. split; [by right|done].
Qed.

Lemma from_utf8_prefix cs n :
  Forall (fun c => is_scalar c = true) cs -> n <= length (encode_all cs) ->
  let p := take n (encode_all cs) in
  from_utf8 p = None \/ exists k, from_utf8 p = Some (k, None) /\ n - 3 <= k < n.
Proof.
  intros Hcs Hn p. unfold p. destruct (utf8_prefix_split cs n Hn) as (cs1 & r & Hp & Hpre & Hr).
  assert (Forall (fun c => is_scalar c = true) cs1) as Hcs1.
  { destruct Hpre as [k ->]. by apply Forall_app in Hcs as [? _]. }
  assert (n = length (encode_all cs1) + length r) as Hlen.
  { rw -length_app -Hp length_take. lia. }
  rw Hp. unfold from_utf8. rw utf8_scan_encoded //. simpl.
  destruct Hr as [->|(c & q & Hin & He & Hr & Hq)]; [by left|right].
  destruct r as [|b0 bs]; [done|]. simpl. pose proof (proj1 (list.Forall_forall _ _) Hcs) as Hsc.
  rw (utf8_next_cut c b0 bs q (Hsc c Hin) He Hq). eexists. split; [done|].
  pose proof (length_encode_utf8 c). rw He length_app in H. simpl in *.
  destruct q; [done|]. simpl in H. lia.
Qed.

(** ** UTF-16 *)
Lemma decode_encode_utf16 cs :
  Forall (fun c => is_scalar c = true) cs -> decode_utf16 (cs ≫= encode_utf16) = cs.
Proof.
  induction 1 as [|c cs Hc _ IH]; [done|]. apply is_scalar_spec in Hc. cbn [mbind list_bind].
  unfold encode_utf16 at 1. destruct (N.ltb_spec c 0x10000); cbn [app decode_utf16]; decide_codes.
  - f_equal. exact IH.
  - f_equal; [lia|exact IH].
Qed.

Lemma encode_utf16_units cs :
  Forall (fun c => is_scalar c = true) cs -> Forall (fun u => (u < 65536)%N) (cs ≫= encode_utf16).
Proof.
  induction 1 as [|c cs Hc _ IH]; [done|]. apply is_scalar_spec in Hc. cbn [mbind list_bind].
  apply Forall_app. split; [|exact IH]. unfold encode_utf16.
  destruct (N.ltb_spec c 0x10000); repeat constructor; lia.
Qed.

(** ASCII text is valid. *)
Lemma utf8_scan_ascii pos bs :
  forallb (fun b => (code b <? 128)%N) bs = true -> utf8_scan 0 pos bs = None.
Proof.
  revert pos. induction bs as [|b bs IH]; intros pos; [done|]. simpl.
  intros [Hb%N.ltb_lt Hbs]%andb_true_iff. rw code_ascii //. by apply IH.
Qed.

(** Lossy decoding gives scalar values only. *)
Lemma lossy_chars_scalar skip bs : Forall (fun c => is_scalar c = true) (lossy_chars skip bs).
Proof.
  revert skip. induction bs as [|b bs IH]; intros skip; [by constructor|]. simpl.
  destruct skip; [|apply IH]. destruct (utf8_next b bs) as [c w|w|] eqn:E; constructor; try done;
    try apply IH. by apply utf8_next_sound in E as (? & _).
Qed.
