(* ===== verification/StringBuffer.v ===== *)
(** * String buffers

    Models [StringBuffer] and [BufferData] of
    crates/fresh-editor-core/src/model/piece_tree.rs: the append-only byte pools
    the piece tree points into, each either loaded (with an optional index of
    line starts) or a reference to a region of a file.

    The file system is a parameter of [load]: [read_range path offset len] gives
    the bytes or an I/O error. *)
From stdpp Require Import base numbers list option strings.
From Stdlib Require Import ssreflect Strings.Byte.
From S2P Require Import Prelude TextSpec.

Inductive BufferData : Type :=
| Loaded (data : list byte) (line_starts : option (list nat))
| Unloaded (file_path : string) (file_offset : nat) (bytes : nat).

Record StringBuffer : Type := mkStringBuffer {
  sb_id : nat;
  sb_data : BufferData;
  stored_file_offset : option nat;
}.

(** The loop of [compute_line_starts], also the one of [append]: [i] is the
    offset of the head of [data]. *)
Fixpoint line_starts_from (i : nat) (data : list byte) : list nat :=
  match data with
  | [] => []
  | b :: data =>
      if is_nl b then S i :: line_starts_from (S i) data else line_starts_from (S i) data
  end.

Definition compute_line_starts (data : list byte) : list nat := 0 :: line_starts_from 0 data.

Definition sb_new (id : nat) (data : list byte) : StringBuffer :=
  mkStringBuffer id (Loaded data (Some (compute_line_starts data))) None.

Definition new_loaded (id : nat) (data : list byte) (compute_lines : bool) : StringBuffer :=
  mkStringBuffer id
    (Loaded data (if compute_lines then Some (compute_line_starts data) else None)) None.

Definition new_unloaded (id : nat) (file_path : string) (file_offset bytes : nat)
    : StringBuffer :=
  mkStringBuffer id (Unloaded file_path file_offset bytes) None.

Definition is_loaded (b : StringBuffer) : bool :=
  match sb_data b with Loaded _ _ => true | Unloaded _ _ _ => false end.

Definition resident_bytes (b : StringBuffer) : nat :=
  match sb_data b with Loaded data _ => length data | Unloaded _ _ _ => 0 end.

Definition unloaded_bytes (b : StringBuffer) : option nat :=
  match sb_data b with Loaded _ _ => None | Unloaded _ _ bytes => Some bytes end.

Definition get_data (b : StringBuffer) : option (list byte) :=
  match sb_data b with Loaded data _ => Some data | Unloaded _ _ _ => None end.

Definition get_line_starts (b : StringBuffer) : option (list nat) :=
  match sb_data b with Loaded _ line_starts => line_starts | Unloaded _ _ _ => None end.

Definition line_feed_count (b : StringBuffer) : option nat :=
  match sb_data b with
  | Loaded _ line_starts => (fun starts => length starts - 1) <$> line_starts
  | Unloaded _ _ _ => None
  end.

Definition nth_line_start_in_piece (b : StringBuffer)
    (piece_start piece_end line_in_piece : nat) : option nat :=
  if decide (line_in_piece = 0) then Some piece_start else
  line_starts ← get_line_starts b;
  let start_idx := partition_point (fun ls => bool_decide (ls <= piece_start)) line_starts in
  let target_idx := start_idx + line_in_piece - 1 in
  ls ← line_starts !! target_idx;
  if decide (ls < piece_end) then Some ls else None.

Definition create_chunk_buffer (b : StringBuffer) (new_id chunk_offset chunk_bytes : nat)
    : option StringBuffer :=
  match sb_data b with
  | Unloaded file_path file_offset bytes =>
      if decide (bytes < chunk_offset + chunk_bytes) then None else
      let absolute_file_offset := file_offset + chunk_offset in
      Some (mkStringBuffer new_id
              (Unloaded file_path absolute_file_offset chunk_bytes)
              (Some absolute_file_offset))
  | Loaded _ _ => None
  end.

(** [append] returns the updated buffer and the offset the data starts at.
    [Arc::make_mut] copies the bytes when a snapshot still shares them, so other
    holders never see the change: the model's buffers are values. *)
Definition append (b : StringBuffer) (data_to_append : list byte) : StringBuffer * nat :=
  match sb_data b with
  | Loaded data line_starts =>
      let start_offset := length data in
      (mkStringBuffer (sb_id b)
         (Loaded (data ++ data_to_append)
            ((fun ls => ls ++ line_starts_from start_offset data_to_append) <$> line_starts))
         (stored_file_offset b),
       start_offset)
  | Unloaded _ _ _ => (b, 0)
  end.

Section load.
Context {io_error : Type}.
Context (read_range : string -> nat -> nat -> io_error + list byte).

(** [load]: the buffer afterwards, or the I/O error; the [assert_eq!] on the
    length of what was read is a [Panic]. *)
Definition load (b : StringBuffer) : res (io_error + StringBuffer) :=
  match sb_data b with
  | Loaded _ _ => Ok (inr b)
  | Unloaded file_path file_offset bytes =>
      match read_range file_path file_offset bytes with
      | inl e => Ok (inl e)
      | inr buffer =>
          if decide (length buffer = bytes) then
            Ok (inr (mkStringBuffer (sb_id b)
                       (Loaded buffer (Some (compute_line_starts buffer)))
                       (stored_file_offset b)))
          else Panic
      end
  end.
End load.

(** The length of a buffer's data, loaded or not. *)
Definition sb_len (b : StringBuffer) : nat :=
  match sb_data b with Loaded data _ => length data | Unloaded _ _ bytes => bytes end.

Lemma get_data_len b d : get_data b = Some d -> sb_len b = length d.
Proof. unfold get_data, sb_len. destruct (sb_data b); intros; by simplify_eq. Qed.

(** ** Invariant

    The line index of a loaded buffer, when there is one, is the index of its
    data. *)
Definition buffer_wf (b : StringBuffer) : Prop :=
  forall ls data, get_line_starts b = Some ls -> get_data b = Some data ->
  ls = compute_line_starts data.

(** ** The line index *)
Lemma length_line_starts_from i data :
  length (line_starts_from i data) = count_newlines data.
Proof.
  revert i. induction data as [|b data IH]; intros i; simpl; [done|].
  rw count_newlines_cons. by destruct (is_nl b); simpl; rw IH.
Qed.

Lemma line_starts_from_app i t u :
  line_starts_from i (t ++ u) = line_starts_from i t ++ line_starts_from (i + length t) u.
Proof.
  revert i. induction t as [|b t IH]; intros i; simpl.
  - by rw Nat.add_0_r.
  - rw !IH. replace (S i + length t) with (i + S (length t)) by lia. by destruct (is_nl b).
Qed.

Lemma lookup_line_starts_from i data k :
  line_starts_from i data !! k = Nat.add i <$> nth_line_start data (S k).
Proof.
  revert i k. induction data as [|b data IH]; intros i k; simpl; [done|].
  assert (forall o : option nat, Nat.add i <$> (S <$> o) = Nat.add (S i) <$> o) as Hs.
  { intros [n|]; simpl; [f_equal; lia | done]. }
  rw Hs. destruct (is_nl b); [destruct k as [|k]|]; simpl; [|apply IH..].
  destruct data; simpl; f_equal; lia.
Qed.

Lemma lookup_compute_line_starts data k :
  compute_line_starts data !! k = nth_line_start data k.
Proof.
  destruct k as [|k]; [by destruct data|].
  unfold compute_line_starts. simpl. rw lookup_line_starts_from.
  by destruct (nth_line_start data (S k)).
Qed.

Lemma length_compute_line_starts data :
  length (compute_line_starts data) = S (count_newlines data).
Proof. unfold compute_line_starts. simpl. by rw length_line_starts_from. Qed.

Lemma partition_point_line_starts_from i data x :
  i <= x ->
  partition_point (fun ls => bool_decide (ls <= x)) (line_starts_from i data)
  = count_newlines (take (x - i) data).
Proof.
  revert i. induction data as [|b data IH]; intros i Hi; [by rw take_nil|]; simpl.
  destruct (decide (i = x)) as [->|].
  - rw Nat.sub_diag. simpl. destruct (is_nl b); simpl; [by rw bool_decide_eq_false_2; [lia|]|].
    clear IH. assert (x < S x) as Hlt by lia. revert Hlt. generalize (S x) as j. revert Hi.
    induction data as [|c data IH]; intros Hi j Hj; simpl; [done|].
    destruct (is_nl c); [by simpl; rw bool_decide_eq_false_2; [lia|]|]. apply IH; lia.
  - replace (x - i) with (S (x - S i)) by lia. simpl. rw count_newlines_cons.
    destruct (is_nl b); cbn [partition_point]; [rw bool_decide_eq_true_2; [lia|]|];
      rw IH; lia.
Qed.

(** The number of line starts at or before an offset is one more than the number
    of newlines before it. *)
Lemma partition_point_line_starts data x :
  partition_point (fun ls => bool_decide (ls <= x)) (compute_line_starts data)
  = S (count_newlines (take x data)).
Proof.
  unfold compute_line_starts. cbn [partition_point]. rw bool_decide_eq_true_2; [lia|].
  rw partition_point_line_starts_from; [lia|]. by rw Nat.sub_0_r.
Qed.

(** [binary_search(&x).unwrap_or_else(|i| i.saturating_sub(1))] on a line index:
    the line a byte of the buffer is on. *)
Definition line_index (line_starts : list nat) (x : nat) : nat :=
  match binary_search line_starts x with inl i => i | inr i => i - 1 end.

Lemma line_index_correct data x : line_index (compute_line_starts data) x = line_of data x.
Proof.
  unfold line_index, binary_search. destruct x as [|x]; [by destruct data|].
  assert (partition_point (fun y => bool_decide (y < S x)) (compute_line_starts data)
          = S (line_of data x)) as ->.
  { unfold line_of. rw -partition_point_line_starts.
    assert (forall l, partition_point (fun y => bool_decide (y < S x)) l
                      = partition_point (fun ls => bool_decide (ls <= x)) l) as H;
      [|apply H].
    induction l as [|y l IH]; cbn [partition_point]; [done|]. rw IH.
    rw (bool_decide_ext (y < S x) (y <= x)) //; lia. }
  rw lookup_compute_line_starts line_of_S. case_decide as H.
  - rw -line_of_S. unfold line_of.
    by destruct (nth_line_start_spec _ _ _ H) as [_ ->].
  - destruct (data !! x) as [b|] eqn:E; simpl; [|lia].
    destruct (is_nl b) eqn:Hb; [|lia]. by rw (nth_line_start_after_nl _ _ _ E Hb) in H.
Qed.

(** The line starts of a buffer restricted to a piece are those of the piece's
    bytes, the one at the very end of the piece left to the next piece. *)
Lemma nth_line_start_in_piece_correct b data ls ps pe k :
  get_data b = Some data -> get_line_starts b = Some ls -> buffer_wf b ->
  ps <= pe -> pe <= length data ->
  nth_line_start_in_piece b ps pe k =
  match nth_line_start (take (pe - ps) (drop ps data)) k with
  | Some s => if decide (k = 0 \/ ps + s < pe) then Some (ps + s) else None
  | None => None
  end.
Proof.
  intros Hd Hls Hwf ? ?. unfold nth_line_start_in_piece.
  destruct k as [|k]; simpl.
  { destruct (take _ _); simpl; f_equal; lia. }
  rw Hls /=. rw (Hwf _ _ Hls Hd) partition_point_line_starts lookup_compute_line_starts.
  set (piece := take (pe - ps) (drop ps data)).
  assert (length piece = pe - ps) as Hlen by (unfold piece; rw length_take length_drop; lia).
  pose proof (nth_line_start_app_r (take ps data) (drop ps data)
    (S (count_newlines (take ps data)) + S k - 1)) as Happ.
  rw take_drop length_take Nat.min_l in Happ; [lia|].
  replace (S (count_newlines (take ps data)) + S k - 1 - count_newlines (take ps data))
    with (S k) in Happ by lia.
  rw Happ; [lia|]. rw -(take_drop (pe - ps) (drop ps data)) -/piece.
  destruct (decide (S k <= count_newlines piece)).
  - rw nth_line_start_app_l; [done|].
    destruct (nth_line_start piece (S k)); [|done]. cbn [mbind option_bind fmap option_fmap option_map].
    case_decide; case_decide; try done; lia.
  - rw nth_line_start_app_r; [lia|].
    destruct (nth_line_start piece (S k)) eqn:E.
    { pose proof (proj1 (nth_line_start_is_Some piece (S k)) (mk_is_Some _ _ E)). lia. }
    destruct (nth_line_start (drop (pe - ps) (drop ps data)) _); [|done]. cbn [mbind option_bind fmap option_fmap option_map].
    case_decide; [lia | done].
Qed.

(** ** Properties *)

(** Appending to a loaded buffer puts the new bytes after the old ones and
    returns where they start, and keeps the line index exact: the bytes that
    existing pieces refer to never change. *)
Theorem append_extends b data more :
  get_data b = Some data -> buffer_wf b ->
  let '(b', start) := append b more in
  get_data b' = Some (data ++ more) /\ start = length data /\ buffer_wf b'
  /\ line_feed_count b' = (fun n => n + count_newlines more) <$> line_feed_count b.
Proof.
  intros Hd Hwf. unfold append, buffer_wf, get_data, get_line_starts, line_feed_count in *.
  destruct b as [id [data' ls|] sfo]; simpl in *; simplify_eq. split_and!; [done..| |].
  - intros starts d Hs [= <-]. destruct ls as [ls|]; simplify_eq/=.
    rw (Hwf ls data) //. unfold compute_line_starts. simpl. f_equal.
    by rw line_starts_from_app.
  - destruct ls as [ls|]; [|done]. simpl. f_equal. rw (Hwf ls data) // length_app.
    rw length_line_starts_from. unfold compute_line_starts. simpl. lia.
Qed.

Lemma append_extends_witness :
  let b := sb_new 0 [x61; x0a] in
  let '(b', start) := append b [x0a; x62] in
  get_data b' = Some [x61; x0a; x0a; x62] /\ start = 2 /\ buffer_wf b'
  /\ line_feed_count b' = Some 2.
Proof.
  apply (append_extends (sb_new 0 [x61; x0a]) [x61; x0a] [x0a; x62]).
  - reflexivity.
  - by intros ls data [= <-] [= <-].
Defined.

(** When [read_range] keeps its contract (exactly the bytes of the file's
    region, or an error), loading never panics, and loading a chunk cut out of an
    unloaded buffer gives the slice of the bytes that loading the whole buffer
    gives, with an exact line index. *)
Theorem load_chunk_slices {E} (read_range : string -> nat -> nat -> E + list byte)
    (file : string -> list byte) b chunk b' chunk' id offset bytes :
  (forall path off n d, read_range path off n = inr d ->
     d = take n (drop off (file path)) /\ length d = n) ->
  create_chunk_buffer b id offset bytes = Some chunk ->
  load read_range b = Ok (inr b') -> load read_range chunk = Ok (inr chunk') ->
  (forall b, load read_range b <> Panic)
  /\ exists data, get_data b' = Some data
      /\ get_data chunk' = Some (take bytes (drop offset data)) /\ buffer_wf chunk'.
Proof.
  intros Hread Hc Hb Hch. split.
  { intros [i [?|path off n] sfo]; unfold load; simpl; [done|].
    destruct (read_range path off n) eqn:E'; [done|]. apply Hread in E' as [_ E'].
    by rw decide_True. }
  unfold create_chunk_buffer in Hc. destruct b as [i [?|path off n] sfo]; simpl in Hc; [done|].
  case_decide; simplify_eq. unfold load in Hb, Hch. simpl in Hb, Hch.
  destruct (read_range path off n) eqn:E1; [done|]. case_decide; simplify_eq.
  destruct (read_range path (off + offset) bytes) eqn:E2; [done|]. case_decide; simplify_eq.
  apply Hread in E1 as [E1 _]. apply Hread in E2 as [E2 _].
  eexists. split_and!; [done| |].
  - unfold get_data. simpl. f_equal. rw {1}E1 skipn_firstn_comm drop_drop take_take Nat.min_l; [lia|done].
  - by intros ls d [= <-] [= <-].
Qed.

Lemma load_chunk_slices_witness :
  let file := fun _ : string => [x61; x0a; x62; x63] in
  let read_range := fun path off n =>
    if decide (off + n <= 4) then inr (take n (drop off (file path))) else inl tt in
  exists data, get_data (sb_new 0 [x0a; x62; x63]) = Some data
    /\ get_data (mkStringBuffer 1 (Loaded [x62; x63] (Some [0])) (Some 2))
       = Some (take 2 (drop 1 data)).
Proof.
  intros file read_range.
  destruct (load_chunk_slices read_range file (new_unloaded 0 EmptyString 1 3)
              (mkStringBuffer 1 (Unloaded EmptyString 2 2) (Some 2))
              (sb_new 0 [x0a; x62; x63]) (mkStringBuffer 1 (Loaded [x62; x63] (Some [0])) (Some 2)) 1 1 2)
    as (_ & data & H1 & H2 & _).
  - unfold read_range. intros path off n d. case_decide; [|done]. intros [= <-].
    rw length_take length_drop. cbn. split; [done|lia].
  - reflexivity.
  - reflexivity.
  - reflexivity.
  - by exists data.
Defined.
