(* ===== verification/PieceTree.v ===== *)
(** * The piece tree

    Models [PieceTreeNode], [PieceTree] and [PieceRangeIter] of
    crates/fresh-editor-core/src/model/piece_tree.rs: a persistent binary tree
    whose leaves are slices of string buffers and whose internal nodes carry the
    byte count and the line-feed count of their left subtree.

    [Arc] is erased: nodes are immutable, so sharing a subtree and copying it
    are the same value.  [usize] quantities are natural numbers; the target's
    [usize::MAX], which [saturating_add] of the bulk edit refers to, is the
    parameter [usize_max].  Slice indexing and subtractions that no adjacent
    test guards are checked operations of [res]. *)
From stdpp Require Import base numbers list option sorting.
From Stdlib Require Import ssreflect Strings.Byte.
From Equations Require Import Equations.
From S2P Require Import Prelude TextSpec StringBuffer.

Inductive BufferLocation : Type :=
| Stored (id : nat)
| Added (id : nat).

#[export] Instance BufferLocation_eq_dec : EqDecision BufferLocation.
Proof. solve_decision. Defined.

Definition buffer_id (l : BufferLocation) : nat :=
  match l with Stored id | Added id => id end.

Inductive PieceTreeNode : Type :=
| Internal (left_bytes : nat) (lf_left : option nat) (lft rgt : PieceTreeNode)
| Leaf (location : BufferLocation) (offset bytes : nat) (line_feed_cnt : option nat).

Record PieceInfo : Type := mkPieceInfo {
  pi_location : BufferLocation;
  pi_offset : nat;
  pi_bytes : nat;
  pi_offset_in_piece : option nat;
  pi_line_feeds : option nat;
}.

Record OffsetFindResult : Type := mkFound { info : PieceInfo; bytes_before : nat }.

Record PTCursor : Type := mkPTCursor { byte_offset : nat; pt_line : nat; pt_col : nat }.

Record LeafData : Type := mkLeaf {
  l_location : BufferLocation;
  l_offset : nat;
  l_bytes : nat;
  l_line_feed_cnt : option nat;
}.

Record TreeStats : Type := mkStats {
  st_total_bytes : nat; st_depth : nat; st_leaf_count : nat; st_line_feed_count : option nat
}.

Definition leaf_node (l : LeafData) : PieceTreeNode :=
  Leaf (l_location l) (l_offset l) (l_bytes l) (l_line_feed_cnt l).

(** The empty leaf the code uses for an empty document. *)
Definition empty_leaf : PieceTreeNode := Leaf (Stored 0) 0 0 (Some 0).

(** ** Nodes *)
Fixpoint node_find_by_offset (n : PieceTreeNode) (offset : nat) : option OffsetFindResult :=
  match n with
  | Internal left_bytes _ lft rgt =>
      if decide (offset < left_bytes) then node_find_by_offset lft offset
      else (fun r => mkFound (info r) (bytes_before r + left_bytes))
             <$> node_find_by_offset rgt (offset - left_bytes)
  | Leaf location piece_offset bytes line_feed_cnt =>
      if decide (offset < bytes) then
        Some (mkFound (mkPieceInfo location piece_offset bytes (Some offset) line_feed_cnt) 0)
      else None
  end.

Fixpoint node_total_bytes (n : PieceTreeNode) : nat :=
  match n with
  | Internal left_bytes _ _ rgt => left_bytes + node_total_bytes rgt
  | Leaf _ _ bytes _ => bytes
  end.

Fixpoint total_line_feeds (n : PieceTreeNode) : option nat :=
  match n with
  | Internal _ lf_left _ rgt => opt_add lf_left (total_line_feeds rgt)
  | Leaf _ _ _ line_feed_cnt => line_feed_cnt
  end.

Fixpoint depth (n : PieceTreeNode) : nat :=
  match n with
  | Internal _ _ lft rgt => 1 + Nat.max (depth lft) (depth rgt)
  | Leaf _ _ _ _ => 1
  end.

Fixpoint count_leaves (n : PieceTreeNode) : nat :=
  match n with
  | Internal _ _ lft rgt => count_leaves lft + count_leaves rgt
  | Leaf _ _ _ _ => 1
  end.

Fixpoint update_leaf_lf_by_index (n : PieceTreeNode) (leaf_index lf_count : nat)
    : PieceTreeNode * bool :=
  match n with
  | Leaf location offset bytes _ =>
      if decide (leaf_index = 0) then (Leaf location offset bytes (Some lf_count), true)
      else (n, false)
  | Internal left_bytes lf_left lft rgt =>
      let left_leaf_count := count_leaves lft in
      if decide (leaf_index < left_leaf_count) then
        let '(new_left, found) := update_leaf_lf_by_index lft leaf_index lf_count in
        if found : bool then (Internal left_bytes (total_line_feeds new_left) new_left rgt, true)
        else (n, false)
      else
        let '(new_right, found) :=
          update_leaf_lf_by_index rgt (leaf_index - left_leaf_count) lf_count in
        if found : bool then (Internal left_bytes lf_left lft new_right, true) else (n, false)
  end.

Fixpoint set_leaf_lf_at (n : PieceTreeNode) (doc_offset bytes lf_count : nat)
    : PieceTreeNode * bool :=
  match n with
  | Leaf location offset leaf_bytes line_feed_cnt =>
      if decide (doc_offset <> 0 \/ leaf_bytes <> bytes) then (n, false)
      else if decide (line_feed_cnt = Some lf_count) then (n, false)
      else (Leaf location offset leaf_bytes (Some lf_count), true)
  | Internal left_bytes lf_left lft rgt =>
      if decide (doc_offset < left_bytes) then
        let '(new_left, found) := set_leaf_lf_at lft doc_offset bytes lf_count in
        if found : bool then (Internal left_bytes (total_line_feeds new_left) new_left rgt, true)
        else (n, false)
      else
        let '(new_right, found) := set_leaf_lf_at rgt (doc_offset - left_bytes) bytes lf_count in
        if found : bool then (Internal left_bytes lf_left lft new_right, true) else (n, false)
  end.

(** [collect_leaves] pushes onto a vector: the leaves in order after the ones
    already collected. *)
Fixpoint collect_leaves (n : PieceTreeNode) (leaves : list LeafData) : list LeafData :=
  match n with
  | Internal _ _ lft rgt => collect_leaves rgt (collect_leaves lft leaves)
  | Leaf location offset bytes line_feed_cnt =>
      leaves ++ [mkLeaf location offset bytes line_feed_cnt]
  end.

Fixpoint count_lines_in_byte_range (n : PieceTreeNode) (current_offset start end_ : nat)
    : option nat :=
  match n with
  | Internal left_bytes _ lft rgt =>
      let left_end := current_offset + left_bytes in
      if decide (end_ <= current_offset \/ current_offset + node_total_bytes n <= start) then Some 0
      else if decide (start <= current_offset /\ current_offset + node_total_bytes n <= end_) then
        total_line_feeds n
      else if decide (end_ <= left_end) then
        count_lines_in_byte_range lft current_offset start end_
      else if decide (left_end <= start) then
        count_lines_in_byte_range rgt left_end start end_
      else
        left_count ← count_lines_in_byte_range lft current_offset start end_;
        right_count ← count_lines_in_byte_range rgt left_end start end_;
        Some (left_count + right_count)
  | Leaf _ _ bytes line_feed_cnt =>
      let node_end := current_offset + bytes in
      if decide (end_ <= current_offset \/ node_end <= start) then Some 0
      else if decide (start <= current_offset /\ node_end <= end_) then line_feed_cnt
      else line_feed_cnt
  end.

(** [?] on an [Option] inside a function that may also panic. *)
Notation "x <-? o ; k" := (match o with Some x => k | None => Ok None end)
  (at level 100, o at next level, k at level 200, only parsing).

(** The end of the leaf case of [find_byte_offset_for_line], after the test of
    the piece's last byte. *)
Definition line_offset_in_leaf (location : BufferLocation) (offset bytes lines_in_piece : nat)
    (current_offset lines_before target_line column : nat) (buffers : list StringBuffer)
    : res (option nat) :=
  if decide (target_line < lines_before \/ lines_in_piece < target_line) then Ok None else
  buffer <-? buffers !! buffer_id location;
  let line_in_piece := target_line - lines_before in
  line_start_in_buffer <-? nth_line_start_in_piece buffer offset (offset + bytes) line_in_piece;
  let target_offset_in_buffer := line_start_in_buffer + column in
  let offset_in_piece := target_offset_in_buffer - offset in
  Ok (Some (current_offset + Nat.min offset_in_piece bytes)).

Fixpoint find_byte_offset_for_line (n : PieceTreeNode)
    (current_offset lines_before target_line column : nat) (buffers : list StringBuffer)
    : res (option nat) :=
  match n with
  | Internal left_bytes lf_left lft rgt =>
      lf_left <-? lf_left;
      let lines_after_left := lines_before + lf_left in
      let go_left := if decide (column = 0) then bool_decide (target_line <= lines_after_left)
                     else bool_decide (target_line < lines_after_left) in
      if go_left : bool then
        result ← find_byte_offset_for_line lft current_offset lines_before target_line column
                   buffers;
        match result with
        | Some o => Ok (Some o)
        | None => find_byte_offset_for_line rgt (current_offset + left_bytes) lines_after_left
                    target_line column buffers
        end
      else find_byte_offset_for_line rgt (current_offset + left_bytes) lines_after_left
             target_line column buffers
  | Leaf location offset bytes line_feed_cnt =>
      line_feed_cnt <-? line_feed_cnt;
      let lines_in_piece := lines_before + line_feed_cnt in
      let tail := line_offset_in_leaf location offset bytes lines_in_piece current_offset
                    lines_before target_line column buffers in
      if decide (column = 0 /\ target_line = lines_in_piece /\ lines_before < target_line) then
        buffer <-? buffers !! buffer_id location;
        data <-? get_data buffer;
        last_byte_offset ← usub (offset + bytes) 1;
        last_byte <-? data !! last_byte_offset;
        if is_nl last_byte then Ok None else tail
      else tail
  end.

(** [(doc_byte_offset, buffer_id, piece_offset, piece_bytes, lines_before)] *)
Fixpoint find_piece_for_line (n : PieceTreeNode) (current_offset lines_before target_line : nat)
    : option (nat * nat * nat * nat * nat) :=
  match n with
  | Internal left_bytes lf_left lft rgt =>
      lf_left ← lf_left;
      let lines_after_left := lines_before + lf_left in
      if decide (target_line <= lines_after_left) then
        match find_piece_for_line lft current_offset lines_before target_line with
        | Some r => Some r
        | None => find_piece_for_line rgt (current_offset + left_bytes) lines_after_left
                    target_line
        end
      else find_piece_for_line rgt (current_offset + left_bytes) lines_after_left target_line
  | Leaf location offset bytes line_feed_cnt =>
      line_feed_cnt ← line_feed_cnt;
      let lines_in_piece := lines_before + line_feed_cnt in
      if decide (lines_before <= target_line /\ target_line <= lines_in_piece) then
        Some (current_offset, buffer_id location, offset, bytes, lines_before)
      else None
  end.

(** ** The tree *)
Record PieceTree : Type := mkTree { root : PieceTreeNode; total_bytes : nat }.

Definition tree_new (location : BufferLocation) (offset bytes : nat) (line_feed_cnt : option nat)
    : PieceTree :=
  mkTree (Leaf location offset bytes line_feed_cnt) bytes.

Definition tree_empty : PieceTree := mkTree empty_leaf 0.

Definition from_root (root : PieceTreeNode) : PieceTree := mkTree root (node_total_bytes root).

(** Recursive midpoint split of the leaf list. *)
Equations? build_balanced (leaves : list LeafData) : PieceTreeNode by wf (length leaves) lt :=
  build_balanced [] := empty_leaf;
  build_balanced [leaf] := leaf_node leaf;
  build_balanced (x :: y :: leaves) :=
    let mid := length (x :: y :: leaves) / 2 in
    let lft := build_balanced (take mid (x :: y :: leaves)) in
    let rgt := build_balanced (drop mid (x :: y :: leaves)) in
    Internal (node_total_bytes lft) (total_line_feeds lft) lft rgt.
Proof.
  all: change mid with (S (S (length leaves)) / 2).
  - rw length_take. simpl length. pose proof (Nat.div_lt (S (S (length leaves))) 2). lia.
  - rw length_drop. simpl length. pose proof (Nat.div_str_pos (S (S (length leaves))) 2). lia.
Qed.

Definition from_leaves (leaves : list LeafData) : PieceTree :=
  mkTree (build_balanced leaves) (list_sum (l_bytes <$> leaves)).

Definition compute_line_feeds_static (buffers : list StringBuffer) (location : BufferLocation)
    (offset bytes : nat) : res (option nat) :=
  match buffers !! buffer_id location with
  | Some buffer =>
      match get_data buffer with
      | Some data =>
          let end_ := Nat.min (offset + bytes) (length data) in
          part ← slice data offset end_;
          Ok (Some (count_newlines part))
      | None => Ok None
      end
  | None => Ok None
  end.

Fixpoint path_copy_insert (node : PieceTreeNode) (current_offset insert_offset : nat)
    (insert_leaf : LeafData) (buffers : list StringBuffer) : res PieceTreeNode :=
  match node with
  | Internal left_bytes lf_left lft rgt =>
      let left_end := current_offset + left_bytes in
      if decide (insert_offset < left_end) then
        new_left ← path_copy_insert lft current_offset insert_offset insert_leaf buffers;
        Ok (Internal (node_total_bytes new_left) (total_line_feeds new_left) new_left rgt)
      else if decide (left_end < insert_offset) then
        new_right ← path_copy_insert rgt left_end insert_offset insert_leaf buffers;
        Ok (Internal left_bytes lf_left lft new_right)
      else
        new_right ← path_copy_insert rgt left_end insert_offset insert_leaf buffers;
        Ok (Internal left_bytes lf_left lft new_right)
  | Leaf location offset bytes line_feed_cnt =>
      let piece_end := current_offset + bytes in
      let offset_in_piece := insert_offset - current_offset in
      if decide (0 < offset_in_piece /\ insert_offset < piece_end) then
        let before_bytes := offset_in_piece in
        let after_bytes := bytes - offset_in_piece in
        lf_before ← compute_line_feeds_static buffers location offset before_bytes;
        lf_after ← compute_line_feeds_static buffers location (offset + before_bytes) after_bytes;
        let leaf_before := mkLeaf location offset before_bytes lf_before in
        let leaf_after := mkLeaf location (offset + before_bytes) after_bytes lf_after in
        Ok (build_balanced [leaf_before; insert_leaf; leaf_after])
      else if decide (insert_offset <= current_offset) then
        if decide (bytes = 0) then Ok (leaf_node insert_leaf)
        else Ok (build_balanced [insert_leaf; mkLeaf location offset bytes line_feed_cnt])
      else Ok (build_balanced [mkLeaf location offset bytes line_feed_cnt; insert_leaf])
  end.

Fixpoint path_copy_delete (node : PieceTreeNode) (current_offset delete_start delete_end : nat)
    (buffers : list StringBuffer) : res PieceTreeNode :=
  match node with
  | Internal left_bytes lf_left lft rgt =>
      let left_end := current_offset + left_bytes in
      if decide (delete_end <= left_end) then
        new_left ← path_copy_delete lft current_offset delete_start delete_end buffers;
        let new_left_bytes := node_total_bytes new_left in
        if decide (new_left_bytes = 0) then Ok rgt
        else Ok (Internal new_left_bytes (total_line_feeds new_left) new_left rgt)
      else if decide (left_end <= delete_start) then
        new_right ← path_copy_delete rgt left_end delete_start delete_end buffers;
        if decide (node_total_bytes new_right = 0) then Ok lft
        else Ok (Internal left_bytes lf_left lft new_right)
      else
        new_left ← path_copy_delete lft current_offset delete_start
                     (Nat.min left_end delete_end) buffers;
        new_right ← path_copy_delete rgt left_end (Nat.max left_end delete_start) delete_end
                      buffers;
        let new_left_bytes := node_total_bytes new_left in
        let new_right_bytes := node_total_bytes new_right in
        if decide (new_left_bytes = 0 /\ new_right_bytes = 0) then Ok empty_leaf
        else if decide (new_left_bytes = 0) then Ok new_right
        else if decide (new_right_bytes = 0) then Ok new_left
        else Ok (Internal new_left_bytes (total_line_feeds new_left) new_left new_right)
  | Leaf location offset bytes _ =>
      let piece_start := current_offset in
      let piece_end := current_offset + bytes in
      if decide (piece_end <= delete_start \/ delete_end <= piece_start) then Ok node
      else if decide (delete_start <= piece_start /\ piece_end <= delete_end) then Ok empty_leaf
      else
        let before_bytes := delete_start - piece_start in
        let after_bytes := piece_end - delete_end in
        if decide (0 < before_bytes /\ 0 < after_bytes) then
          lf_before ← compute_line_feeds_static buffers location offset before_bytes;
          lf_after ← compute_line_feeds_static buffers location (offset + bytes - after_bytes)
                       after_bytes;
          Ok (build_balanced
                [mkLeaf location offset before_bytes lf_before;
                 mkLeaf location (offset + bytes - after_bytes) after_bytes lf_after])
        else if decide (0 < before_bytes) then
          lf_cnt ← compute_line_feeds_static buffers location offset before_bytes;
          Ok (Leaf location offset before_bytes lf_cnt)
        else
          skip ← usub delete_end piece_start;
          lf_cnt ← compute_line_feeds_static buffers location (offset + skip) after_bytes;
          Ok (Leaf location (offset + skip) after_bytes lf_cnt)
  end.

Definition get_leaves (t : PieceTree) : list LeafData := collect_leaves (root t) [].

Definition rebalance (t : PieceTree) : PieceTree :=
  mkTree (build_balanced (get_leaves t)) (total_bytes t).

(** [(count as f64).log2().ceil() as usize] is the rounded-up binary logarithm
    (exactly, for any leaf count below 2^48). *)
Definition check_and_rebalance (t : PieceTree) : PieceTree :=
  let count := count_leaves (root t) in
  if decide (count < 2) then t else
  let max_depth := 2 * Nat.log2_up count in
  if decide (max_depth < depth (root t)) then rebalance t else t.

Definition tree_find_by_offset (t : PieceTree) (offset : nat) : option PieceInfo :=
  if decide (total_bytes t <= offset) then None
  else info <$> node_find_by_offset (root t) offset.

Definition cursor_at_offset (t : PieceTree) (offset : nat) : PTCursor :=
  mkPTCursor (Nat.min offset (total_bytes t)) 0 0.

Definition tree_insert (t : PieceTree) (offset : nat) (location : BufferLocation)
    (buffer_offset bytes : nat) (line_feed_cnt : option nat) (buffers : list StringBuffer)
    : res (PieceTree * PTCursor) :=
  if decide (bytes = 0) then Ok (t, cursor_at_offset t offset) else
  let insert_leaf := mkLeaf location buffer_offset bytes line_feed_cnt in
  new_root ← path_copy_insert (root t) 0 offset insert_leaf buffers;
  let t := check_and_rebalance (mkTree new_root (total_bytes t + bytes)) in
  Ok (t, cursor_at_offset t (offset + bytes)).

Definition tree_delete (t : PieceTree) (offset delete_bytes : nat) (buffers : list StringBuffer)
    : res PieceTree :=
  if decide (delete_bytes = 0 \/ total_bytes t <= offset) then Ok t else
  let delete_bytes := Nat.min delete_bytes (total_bytes t - offset) in
  let end_offset := offset + delete_bytes in
  new_root ← path_copy_delete (root t) 0 offset end_offset buffers;
  Ok (check_and_rebalance (mkTree new_root (total_bytes t - delete_bytes))).

(** ** Splitting, replacing, metadata *)
Fixpoint collect_leaves_with_split (node : PieceTreeNode) (current_offset split_offset : nat)
    (insert : option LeafData) (leaves : list LeafData) (buffers : list StringBuffer)
    : res (list LeafData) :=
  match node with
  | Internal left_bytes _ lft rgt =>
      if decide (split_offset < current_offset + left_bytes) then
        leaves ← collect_leaves_with_split lft current_offset split_offset insert leaves buffers;
        collect_leaves_with_split rgt (current_offset + left_bytes) split_offset None leaves buffers
      else
        leaves ← collect_leaves_with_split lft current_offset split_offset None leaves buffers;
        collect_leaves_with_split rgt (current_offset + left_bytes) split_offset insert leaves
          buffers
  | Leaf location offset bytes line_feed_cnt =>
      let piece_end := current_offset + bytes in
      let whole := mkLeaf location offset bytes line_feed_cnt in
      let inserted := match insert with Some insert_leaf => [insert_leaf] | None => [] end in
      if decide (current_offset < split_offset /\ split_offset < piece_end) then
        let offset_in_piece := split_offset - current_offset in
        first ← (if decide (0 < offset_in_piece) then
                   lf_cnt ← compute_line_feeds_static buffers location offset offset_in_piece;
                   Ok [mkLeaf location offset offset_in_piece lf_cnt]
                 else Ok []);
        let remaining := bytes - offset_in_piece in
        second ← (if decide (0 < remaining) then
                    lf_cnt ← compute_line_feeds_static buffers location (offset + offset_in_piece)
                               remaining;
                    Ok [mkLeaf location (offset + offset_in_piece) remaining lf_cnt]
                  else Ok []);
        Ok (leaves ++ first ++ inserted ++ second)
      else if decide (split_offset = current_offset) then Ok (leaves ++ inserted ++ [whole])
      else Ok (leaves ++ [whole])
  end.

Definition split_at_offset (t : PieceTree) (offset : nat) (buffers : list StringBuffer)
    : res PieceTree :=
  if decide (offset = 0 \/ total_bytes t <= offset) then Ok t else
  match node_find_by_offset (root t) offset with
  | Some _ =>
      leaves ← collect_leaves_with_split (root t) 0 offset None [] buffers;
      Ok (check_and_rebalance (mkTree (build_balanced leaves) (total_bytes t)))
  | None => Ok t
  end.

Definition replace_matches (old_buffer_id old_buffer_offset old_buffer_bytes : nat)
    (l : LeafData) : bool :=
  bool_decide (buffer_id (l_location l) = old_buffer_id /\ l_offset l = old_buffer_offset
               /\ l_bytes l = old_buffer_bytes).

Definition replace_buffer_reference (t : PieceTree)
    (old_buffer_id old_buffer_offset old_buffer_bytes : nat)
    (new_buffer_location : BufferLocation) : PieceTree :=
  let leaves := get_leaves t in
  let matches := replace_matches old_buffer_id old_buffer_offset old_buffer_bytes in
  let new_leaves := (fun l => if matches l
                              then mkLeaf new_buffer_location 0 (l_bytes l) (l_line_feed_cnt l)
                              else l) <$> leaves in
  if existsb matches leaves then
    check_and_rebalance (mkTree (build_balanced new_leaves) (total_bytes t))
  else t.

Definition line_count (t : PieceTree) : option nat :=
  (fun lf => lf + 1) <$> total_line_feeds (root t).

Definition piece_info_for_line (t : PieceTree) (target_line : nat)
    : option (nat * nat * nat * nat * nat) :=
  find_piece_for_line (root t) 0 0 target_line.

(** [if let Some(leaf) = leaves.get_mut(idx) { leaf.line_feed_cnt = Some(lf) }] *)
Definition set_leaf_lf (leaves : list LeafData) (upd : nat * nat) : list LeafData :=
  alter (fun l => mkLeaf (l_location l) (l_offset l) (l_bytes l) (Some upd.2)) upd.1 leaves.

Definition update_leaf_line_feeds (t : PieceTree) (updates : list (nat * nat)) : PieceTree :=
  match updates with
  | [] => t
  | _ => mkTree (build_balanced (foldl set_leaf_lf (get_leaves t) updates)) (total_bytes t)
  end.

Definition update_leaf_line_feeds_path_copy (t : PieceTree) (updates : list (nat * nat))
    : PieceTree :=
  foldl (fun t upd =>
           mkTree (update_leaf_lf_by_index (root t) upd.1 upd.2).1 (total_bytes t)) t updates.

Definition set_leaf_line_feeds_at (t : PieceTree) (doc_offset bytes lf_count : nat)
    : PieceTree * bool :=
  if decide (bytes = 0 \/ total_bytes t <= doc_offset) then (t, false) else
  let '(new_root, found) := set_leaf_lf_at (root t) doc_offset bytes lf_count in
  (if found : bool then mkTree new_root (total_bytes t) else t, found).

Definition stats (t : PieceTree) : TreeStats :=
  mkStats (total_bytes t) (depth (root t)) (count_leaves (root t)) (total_line_feeds (root t)).

(** The [while off < leaf.bytes] loop of [split_leaves_to_chunk_size].  [None]:
    [fuel] iterations were not enough. *)
Fixpoint split_leaf (fuel : nat) (leaf : LeafData) (max_bytes off : nat)
    : option (list LeafData) :=
  if decide (off < l_bytes leaf) then
    match fuel with
    | 0 => None
    | S fuel =>
        let len := Nat.min max_bytes (l_bytes leaf - off) in
        rest ← split_leaf fuel leaf max_bytes (off + len);
        Some (mkLeaf (l_location leaf) (l_offset leaf + off) len None :: rest)
    end
  else Some [].

Fixpoint split_leaves (leaves : list LeafData) (max_bytes : nat) : option (list LeafData) :=
  match leaves with
  | [] => Some []
  | leaf :: leaves =>
      here ← (if decide (l_bytes leaf <= max_bytes) then Some [leaf]
              else split_leaf (l_bytes leaf) leaf max_bytes 0);
      rest ← split_leaves leaves max_bytes;
      Some (here ++ rest)
  end.

Definition split_leaves_to_chunk_size (t : PieceTree) (max_bytes : nat) : option PieceTree :=
  let old_leaves := get_leaves t in
  new_leaves ← split_leaves old_leaves max_bytes;
  if existsb (fun l => bool_decide (max_bytes < l_bytes l)) old_leaves
  then Some (mkTree (build_balanced new_leaves) (total_bytes t)) else Some t.

(** ** Ranges of pieces *)
Record PieceView : Type := mkPieceView {
  pv_location : BufferLocation;
  pv_buffer_offset : nat;
  pv_bytes : nat;
  pv_doc_offset : nat;
  pv_line_feed_cnt : option nat;
}.

Record PieceRangeIter : Type := mkIter { pieces : list PieceView; current_index : nat }.

Fixpoint collect_pieces (node : PieceTreeNode) (doc_offset range_start range_end : nat)
    (pieces : list PieceView) : list PieceView :=
  match node with
  | Internal left_bytes _ lft rgt =>
      let left_end := doc_offset + left_bytes in
      let pieces := if decide (range_start < left_end)
                    then collect_pieces lft doc_offset range_start range_end pieces
                    else pieces in
      if decide (left_end < range_end)
      then collect_pieces rgt left_end range_start range_end pieces else pieces
  | Leaf location offset bytes line_feed_cnt =>
      let piece_end := doc_offset + bytes in
      if decide (doc_offset < range_end /\ range_start < piece_end)
      then pieces ++ [mkPieceView location offset bytes doc_offset line_feed_cnt] else pieces
  end.

Definition iter_new (node : PieceTreeNode) (start end_ : nat) : PieceRangeIter :=
  mkIter (collect_pieces node 0 start end_ []) 0.

Definition iter_next (it : PieceRangeIter) : PieceRangeIter * option PieceView :=
  match pieces it !! current_index it with
  | Some piece => (mkIter (pieces it) (S (current_index it)), Some piece)
  | None => (it, None)
  end.

(** What a [for] loop over the iterator visits. *)
Fixpoint iter_drain (fuel : nat) (it : PieceRangeIter) : list PieceView :=
  match fuel with
  | 0 => []
  | S fuel =>
      match iter_next it with
      | (it, Some piece) => piece :: iter_drain fuel it
      | (_, None) => []
      end
  end.

Definition iter_pieces_in_range (t : PieceTree) (start end_ : nat) : list PieceView :=
  let it := iter_new (root t) start end_ in
  iter_drain (S (length (pieces it))) it.

Definition range_line_feed_free (t : PieceTree) (start end_ : nat) : bool :=
  let end_ := Nat.min end_ (total_bytes t) in
  if decide (end_ <= start) then true
  else forallb (fun p => bool_decide (pv_line_feed_cnt p = Some 0))
         (iter_pieces_in_range t start end_).

(** The loop of [read_range]. *)
Fixpoint read_pieces (ps : list PieceView) (buffers : list StringBuffer)
    (offset end_offset : nat) (result : list byte) : option (list byte) :=
  match ps with
  | [] => Some result
  | piece :: ps =>
      let read_start := Nat.max offset (pv_doc_offset piece) in
      let read_end := Nat.min end_offset (pv_doc_offset piece + pv_bytes piece) in
      if decide (read_end <= read_start) then read_pieces ps buffers offset end_offset result
      else
        let start := pv_buffer_offset piece + (read_start - pv_doc_offset piece) in
        buffer ← buffers !! buffer_id (pv_location piece);
        data ← get_data buffer;
        part ← slice_get data start (start + (read_end - read_start));
        read_pieces ps buffers offset end_offset (result ++ part)
  end.

Definition read_range (t : PieceTree) (buffers : list StringBuffer) (offset bytes : nat)
    : option (list byte) :=
  let end_offset := offset + bytes in
  read_pieces (iter_pieces_in_range t offset end_offset) buffers offset end_offset [].

(** ** Lines *)
Definition count_lines_in_range (t : PieceTree) (start end_ : nat) : option nat :=
  if decide (end_ <= start) then Some 0
  else count_lines_in_byte_range (root t) 0 start end_.

Definition count_lines_before_offset (t : PieceTree) (byte_offset : nat) : option nat :=
  count_lines_in_range t 0 byte_offset.

Definition find_offset_for_line (t : PieceTree) (target_line column : nat)
    (buffers : list StringBuffer) : res (option nat) :=
  find_byte_offset_for_line (root t) 0 0 target_line column buffers.

Definition position_to_offset (t : PieceTree) (line column : nat) (buffers : list StringBuffer)
    : res nat :=
  if decide (line = 0 /\ column = 0) then Ok 0 else
  r ← find_offset_for_line t line column buffers;
  Ok (default (total_bytes t) r).

(** The three ways [offset_to_position] reads a position off the piece the
    offset falls in: through the line index of its buffer, ... *)
Definition indexed_position (t : PieceTree) (offset : nat) (piece_info : PieceInfo)
    (bytes_before lines_before offset_in_piece : nat) (buffer : StringBuffer)
    (line_starts : list nat) (buffers : list StringBuffer) : res (option (nat * nat)) :=
  let byte_offset_in_buffer := pi_offset piece_info + offset_in_piece in
  let line_in_buffer := line_index line_starts byte_offset_in_buffer in
  let piece_start_line := line_index line_starts (pi_offset piece_info) in
  line_in_piece ← usub line_in_buffer piece_start_line;
  let doc_line := lines_before + line_in_piece in
  column ←
    (if decide (line_in_piece = 0 /\ bytes_before = 0) then Ok offset_in_piece
     else if decide (line_in_piece = 0) then
       line_start ← position_to_offset t doc_line 0 buffers;
       Ok (offset - line_start)
     else
       let line_start_in_buf :=
         default (pi_offset piece_info)
           (nth_line_start_in_piece buffer (pi_offset piece_info)
              (pi_offset piece_info + pi_bytes piece_info) line_in_piece) in
       line_start_offset_in_piece ← usub line_start_in_buf (pi_offset piece_info);
       usub offset_in_piece line_start_offset_in_piece);
  Ok (Some (doc_line, column)).

(** ... by scanning its bytes, ... *)
Definition scanned_position (t : PieceTree) (offset : nat) (piece_info : PieceInfo)
    (bytes_before lines_before offset_in_piece : nat) (data : list byte)
    (buffers : list StringBuffer) : res (option (nat * nat)) :=
  let piece_start := pi_offset piece_info in
  let scan_end := Nat.min (piece_start + offset_in_piece) (length data) in
  scanned ← slice data piece_start scan_end;
  let line_in_piece := count_newlines scanned in
  let doc_line := lines_before + line_in_piece in
  column ←
    (if decide (line_in_piece = 0) then
       if decide (bytes_before = 0) then Ok offset_in_piece
       else
         line_start ← position_to_offset t doc_line 0 buffers;
         Ok (offset - line_start)
     else
       let last_nl := default 0 (rposition is_nl scanned) in
       c ← usub offset_in_piece last_nl;
       usub c 1);
  Ok (Some (doc_line, column)).

(** ... or, when it is not loaded, in proportion to its line-feed count. *)
Definition estimated_position (piece_info : PieceInfo) (lines_before offset_in_piece : nat)
    (lf_count : nat) : res (nat * nat) :=
  let piece_bytes := pi_bytes piece_info in
  lines_in_partial ←
    (if decide (0 < piece_bytes) then
       (* the product is a [u64] *)
       if decide (Z.of_nat offset_in_piece * Z.of_nat lf_count < 2 ^ 64)%Z
       then Ok (offset_in_piece * lf_count / piece_bytes) else Panic
     else Ok 0);
  let doc_line := lines_before + lines_in_partial in
  let avg_bytes_per_line := if decide (lf_count = 0) then 80 else piece_bytes / lf_count in
  let column :=
    if decide (0 < avg_bytes_per_line) then offset_in_piece mod avg_bytes_per_line else 0 in
  Ok (doc_line, column).

Definition offset_to_position (t : PieceTree) (offset : nat) (buffers : list StringBuffer)
    : res (option (nat * nat)) :=
  if decide (offset = 0) then Ok (Some (0, 0)) else
  let offset := Nat.min offset (total_bytes t) in
  (* end of document or no metadata *)
  let fallback :=
    if decide (total_bytes t <= offset) then
      match line_count t with
      | Some line_count =>
          let last_line := line_count - 1 in
          line_start ← position_to_offset t last_line 0 buffers;
          Ok (Some (last_line, total_bytes t - line_start))
      | None => Ok None
      end
    else Ok None in
  match node_find_by_offset (root t) offset with
  | None => fallback
  | Some result =>
      let piece_info := info result in
      let bytes_before := bytes_before result in
      match count_lines_before_offset t bytes_before with
      | None => Ok None
      | Some lines_before =>
      match buffers !! buffer_id (pi_location piece_info) with
      | None => fallback
      | Some buffer =>
      let offset_in_piece := default 0 (pi_offset_in_piece piece_info) in
      match get_line_starts buffer with
      | Some line_starts =>
          indexed_position t offset piece_info bytes_before lines_before offset_in_piece buffer
            line_starts buffers
      | None =>
      match get_data buffer with
      | Some data =>
          scanned_position t offset piece_info bytes_before lines_before offset_in_piece data
            buffers
      | None =>
      match pi_line_feeds piece_info with
      | Some lf_count =>
          Some <$> estimated_position piece_info lines_before offset_in_piece lf_count
      | None => fallback
      end end end end end
  end.

Definition line_range (t : PieceTree) (line : nat) (buffers : list StringBuffer)
    : res (option (nat * option nat)) :=
  match line_count t with
  | None => Ok None
  | Some line_count =>
      if decide (line_count <= line) then Ok None else
      start ← position_to_offset t line 0 buffers;
      end_ ← (if decide (line + 1 < line_count) then
                e ← position_to_offset t (line + 1) 0 buffers;
                Ok (Some e)
              else Ok None);
      Ok (Some (start, end_))
  end.

Definition insert_at_position (t : PieceTree) (line column : nat) (location : BufferLocation)
    (buffer_offset bytes line_feed_cnt : nat) (buffers : list StringBuffer)
    : res (PieceTree * PTCursor) :=
  offset ← position_to_offset t line column buffers;
  tree_insert t offset location buffer_offset bytes (Some line_feed_cnt) buffers.

Definition delete_position_range (t : PieceTree)
    (start_line start_column end_line end_column : nat) (buffers : list StringBuffer)
    : res PieceTree :=
  if decide (start_line = end_line /\ start_column = end_column) then Ok t else
  start_offset ← position_to_offset t start_line start_column buffers;
  end_offset ← position_to_offset t end_line end_column buffers;
  if decide (start_offset < end_offset)
  then tree_delete t start_offset (end_offset - start_offset) buffers
  else Ok t.

(** ** Bulk edits *)

(** The loop over the split points inside one piece; the arguments are the
    offsets still to visit and the previous one. *)
Fixpoint split_piece (buffers : list StringBuffer) (location : BufferLocation)
    (offset bytes : nat) (split_offsets : list nat) (prev_offset : nat)
    : res (list LeafData) :=
  match split_offsets with
  | split_offset :: split_offsets =>
      here ← (if decide (prev_offset < split_offset) then
                let chunk_bytes := split_offset - prev_offset in
                lf_cnt ← compute_line_feeds_static buffers location (offset + prev_offset)
                           chunk_bytes;
                Ok [mkLeaf location (offset + prev_offset) chunk_bytes lf_cnt]
              else Ok []);
      rest ← split_piece buffers location offset bytes split_offsets split_offset;
      Ok (here ++ rest)
  | [] =>
      if decide (prev_offset < bytes) then
        let remaining := bytes - prev_offset in
        lf_cnt ← compute_line_feeds_static buffers location (offset + prev_offset) remaining;
        Ok [mkLeaf location (offset + prev_offset) remaining lf_cnt]
      else Ok []
  end.

Fixpoint collect_leaves_with_multi_split (node : PieceTreeNode) (current_offset : nat)
    (split_points : list nat) (leaves : list LeafData) (buffers : list StringBuffer)
    : res (list LeafData) :=
  match node with
  | Internal left_bytes _ lft rgt =>
      leaves ← collect_leaves_with_multi_split lft current_offset split_points leaves buffers;
      collect_leaves_with_multi_split rgt (current_offset + left_bytes) split_points leaves buffers
  | Leaf location offset bytes line_feed_cnt =>
      if decide (bytes = 0) then Ok leaves else
      let piece_start := current_offset in
      let piece_end := current_offset + bytes in
      let first := partition_point (fun sp => bool_decide (sp <= piece_start)) split_points in
      let past := partition_point (fun sp => bool_decide (sp < piece_end)) split_points in
      inside ← slice split_points first past;
      let split_offsets := (fun sp => sp - piece_start) <$> inside in
      match split_offsets with
      | [] => Ok (leaves ++ [mkLeaf location offset bytes line_feed_cnt])
      | _ =>
          parts ← split_piece buffers location offset bytes split_offsets 0;
          Ok (leaves ++ parts)
      end
  end.

(** An edit [(position, delete_len, text)] and its range with the leaf to insert. *)
Abbreviation Edit := (nat * nat * list byte)%type.
Abbreviation EditRange := (nat * nat * option LeafData)%type.

(** Merging the ascending delete ranges; [acc] is the output vector reversed. *)
Fixpoint merge_deletes (acc ranges : list (nat * nat)) : list (nat * nat) :=
  match ranges with
  | [] => rev acc
  | (start, end_) :: ranges =>
      match acc with
      | (ls, le) :: acc' =>
          if decide (start <= le) then merge_deletes ((ls, Nat.max le end_) :: acc') ranges
          else merge_deletes ((start, end_) :: acc) ranges
      | [] => merge_deletes [(start, end_)] ranges
      end
  end.

(** The inserts at or before [leaf_start], and the edits left; [edits] is the
    tail of the ranges still to visit, smallest position first. *)
Fixpoint take_inserts (edits : list EditRange) (leaf_start : nat)
    : list LeafData * list EditRange :=
  match edits with
  | (edit_start, edit_end, insert_leaf) :: rest =>
      if decide (leaf_start < edit_start) then ([], edits)
      else let '(ins, left_over) := take_inserts rest leaf_start in
           (match insert_leaf with Some l => l :: ins | None => ins end, left_over)
  | [] => ([], [])
  end.

Fixpoint skip_deletes (deletes : list (nat * nat)) (leaf_start : nat) : list (nat * nat) :=
  match deletes with
  | (ds, de) :: rest => if decide (de <= leaf_start) then skip_deletes rest leaf_start else deletes
  | [] => []
  end.

Fixpoint apply_edits_to_leaves (leaves : list LeafData) (current_offset : nat)
    (edits : list EditRange) (deletes : list (nat * nat)) : list LeafData :=
  match leaves with
  | [] => omap snd edits
  | leaf :: leaves =>
      let leaf_start := current_offset in
      let leaf_end := current_offset + l_bytes leaf in
      let '(ins, edits) := take_inserts edits leaf_start in
      let deletes := skip_deletes deletes leaf_start in
      let keep_leaf :=
        match deletes with
        | (del_start, del_end) :: _ =>
            negb (bool_decide (del_start <= leaf_start /\ leaf_end <= del_end))
        | [] => true
        end in
      ins ++ (if keep_leaf : bool then [leaf] else [])
          ++ apply_edits_to_leaves leaves leaf_end edits deletes
  end.

Section bulk.
Context (usize_max : nat).

Definition saturating_add (a b : nat) : nat := Nat.min (a + b) usize_max.

Definition edit_split_points (total : nat) (e : Edit) : list nat :=
  let '(pos, del_len, _) := e in
  pos :: (if decide (0 < del_len) then
            let end_ := Nat.min (saturating_add pos del_len) total in
            if decide (pos < end_) then [end_] else []
          else []).

Context {S : Type} (add_text_fn : S -> list byte -> S * LeafData).

(** Step 3: the ranges in the order of the edits, the texts added on the way. *)
Fixpoint edit_ranges (total : nat) (s : S) (edits : list Edit) : S * list EditRange :=
  match edits with
  | [] => (s, [])
  | (pos, del_len, text) :: edits =>
      let del_end := Nat.min (saturating_add pos del_len) total in
      let '(s, insert_leaf) :=
        match text with
        | [] => (s, None)
        | _ => let '(s, l) := add_text_fn s text in (s, Some l)
        end in
      let '(s, rest) := edit_ranges total s edits in
      (s, (pos, del_end, insert_leaf) :: rest)
  end.

(** The tree and the text store afterwards, and the change in total bytes. *)
Definition apply_bulk_edits (t : PieceTree) (edits : list Edit) (buffers : list StringBuffer)
    (s : S) : res (PieceTree * S * Z) :=
  match edits with
  | [] => Ok (t, s, 0%Z)
  | _ =>
      let split_points :=
        dedup (merge_sort le (concat (edit_split_points (total_bytes t) <$> edits))) in
      leaves ← collect_leaves_with_multi_split (root t) 0 split_points [] buffers;
      let '(s, ranges) := edit_ranges (total_bytes t) s edits in
      let sorted_deletes :=
        merge_sort pair_le
          (fst <$> List.filter (fun e => bool_decide (e.1.1 < e.1.2)) ranges) in
      let delete_ranges := merge_deletes [] sorted_deletes in
      let new_leaves := apply_edits_to_leaves leaves 0 (rev ranges) delete_ranges in
      let new_bytes := list_sum (l_bytes <$> new_leaves) in
      let delta := (Z.of_nat new_bytes - Z.of_nat (total_bytes t))%Z in
      Ok (mkTree (build_balanced new_leaves) new_bytes, s, delta)
  end.
End bulk.
