(* ===== verification/PieceTreeInv.v ===== *)
(** * Piece tree: abstract document, invariant, balanced builds

    The document of a tree is the list of its cells: one pair (buffer location,
    position in the buffer) per byte, in order.  It does not depend on which
    buffers are loaded.  The text is the image of the cells under [content], the
    bytes of every buffer, loaded or still on disk. *)
From stdpp Require Import base numbers list option sorting.
From Stdlib Require Import ssreflect Strings.Byte.
From Equations Require Import Equations.
From S2P Require Import Prelude TextSpec StringBuffer PieceTree.

Abbreviation cell := (BufferLocation * nat)%type.

Definition leaf_cells (l : LeafData) : list cell :=
  (fun p => (l_location l, p)) <$> seq (l_offset l) (l_bytes l).

Definition cells_of (ls : list LeafData) : list cell := ls ≫= leaf_cells.

Fixpoint node_leaves (n : PieceTreeNode) : list LeafData :=
  match n with
  | Internal _ _ lft rgt => node_leaves lft ++ node_leaves rgt
  | Leaf location offset bytes line_feed_cnt => [mkLeaf location offset bytes line_feed_cnt]
  end.

Definition node_cells (n : PieceTreeNode) : list cell := cells_of (node_leaves n).

(** The document. *)
Definition doc (t : PieceTree) : list cell := node_cells (root t).

Definition lf_sum (ls : list LeafData) : option nat :=
  foldr (fun l acc => opt_add (l_line_feed_cnt l) acc) (Some 0) ls.

(** Structural invariant: the summaries of an internal node are those of its
    left subtree. *)
Fixpoint node_wf (n : PieceTreeNode) : Prop :=
  match n with
  | Internal left_bytes lf_left lft rgt =>
      left_bytes = length (node_cells lft) /\ lf_left = lf_sum (node_leaves lft)
      /\ node_wf lft /\ node_wf rgt
  | Leaf _ _ _ _ => True
  end.

Definition tree_wf (t : PieceTree) : Prop :=
  node_wf (root t) /\ total_bytes t = length (doc t).

(** ** Contents *)
Section content.
Context (content : nat -> nat -> byte).

Definition cell_byte (c : cell) : byte := content (buffer_id c.1) c.2.

Definition leaf_text (l : LeafData) : list byte := cell_byte <$> leaf_cells l.
Definition text_of (ls : list LeafData) : list byte := cell_byte <$> cells_of ls.
Definition node_text (n : PieceTreeNode) : list byte := cell_byte <$> node_cells n.
Definition text (t : PieceTree) : list byte := cell_byte <$> doc t.

Context (buffers : list StringBuffer).

(** Loaded buffers hold the bytes [content] says. *)
Definition buffers_agree : Prop :=
  forall id b d i x, buffers !! id = Some b -> get_data b = Some d -> d !! i = Some x ->
  content id i = x.

(** A leaf is a slice of its buffer (only an empty leaf may have none) and its
    line-feed count, when known, is the number of newlines of its text. *)
Definition leaf_bounded (l : LeafData) : Prop :=
  match buffers !! buffer_id (l_location l) with
  | Some b => l_offset l + l_bytes l <= sb_len b
  | None => l_offset l = 0 /\ l_bytes l = 0
  end.

Definition leaf_counted (l : LeafData) : Prop :=
  forall c, l_line_feed_cnt l = Some c -> c = count_newlines (leaf_text l).

Definition leaf_ok (l : LeafData) : Prop := leaf_bounded l /\ leaf_counted l.

(** The invariant of a tree over its buffers. *)
Definition tree_inv (t : PieceTree) : Prop :=
  tree_wf t /\ Forall leaf_ok (node_leaves (root t)).
End content.

Arguments leaf_cells : simpl never.
Arguments cells_of : simpl never.
Arguments node_cells : simpl never.

Lemma leaf_bounded_data buffers l b d :
  leaf_bounded buffers l -> buffers !! buffer_id (l_location l) = Some b -> get_data b = Some d ->
  l_offset l + l_bytes l <= length d.
Proof. unfold leaf_bounded. intros H Hb Hd. rw -(get_data_len b d Hd). by rw Hb in H. Qed.

(** ** Cells and leaves *)
Lemma cells_of_app ls ks : cells_of (ls ++ ks) = cells_of ls ++ cells_of ks.
Proof. apply bind_app. Qed.

Lemma cells_of_cons l ls : cells_of (l :: ls) = leaf_cells l ++ cells_of ls.
Proof. done. Qed.

Lemma length_leaf_cells l : length (leaf_cells l) = l_bytes l.
Proof. unfold leaf_cells. by rw length_fmap length_seq. Qed.

Lemma length_cells_of ls : length (cells_of ls) = list_sum (l_bytes <$> ls).
Proof.
  induction ls as [|l ls IH]; simpl; [done|].
  by rw cells_of_cons length_app length_leaf_cells IH.
Qed.

Lemma leaf_cells_split loc off a b c c1 c2 :
  leaf_cells (mkLeaf loc off (a + b) c)
  = leaf_cells (mkLeaf loc off a c1) ++ leaf_cells (mkLeaf loc (off + a) b c2).
Proof. unfold leaf_cells. simpl. by rw seq_app fmap_app. Qed.

Lemma take_leaf_cells k l :
  take k (leaf_cells l)
  = leaf_cells (mkLeaf (l_location l) (l_offset l) (Nat.min k (l_bytes l)) None).
Proof. unfold leaf_cells. simpl. by rw -fmap_take take_seq. Qed.

Lemma drop_leaf_cells k l :
  drop k (leaf_cells l)
  = leaf_cells (mkLeaf (l_location l) (l_offset l + k) (l_bytes l - k) None).
Proof. unfold leaf_cells. simpl. by rw -fmap_drop drop_seq. Qed.

(** The line-feed count of a leaf does not enter its cells. *)
Lemma leaf_cells_lf loc off n c c' :
  leaf_cells (mkLeaf loc off n c) = leaf_cells (mkLeaf loc off n c').
Proof. done. Qed.

Lemma collect_leaves_eq n acc : collect_leaves n acc = acc ++ node_leaves n.
Proof.
  revert acc. induction n as [lb lf l IHl r IHr|]; intros acc; simpl; [|done].
  by rw IHr IHl -app_assoc.
Qed.

Lemma get_leaves_eq t : get_leaves t = node_leaves (root t).
Proof. unfold get_leaves. by rw collect_leaves_eq. Qed.

Lemma count_leaves_eq n : count_leaves n = length (node_leaves n).
Proof. induction n as [lb lf l IHl r IHr|]; simpl; [|done]. by rw length_app IHl IHr. Qed.

Lemma node_leaves_nonempty n : 0 < length (node_leaves n).
Proof. induction n; simpl; [rw length_app; lia | lia]. Qed.

Lemma node_cells_Internal lb lf l r :
  node_cells (Internal lb lf l r) = node_cells l ++ node_cells r.
Proof. unfold node_cells. simpl. by rw cells_of_app. Qed.

Lemma node_cells_Leaf loc off n c : node_cells (Leaf loc off n c) = leaf_cells (mkLeaf loc off n c).
Proof. unfold node_cells, cells_of. simpl. by rw app_nil_r. Qed.

Lemma node_cells_leaf_node l : node_cells (leaf_node l) = leaf_cells l.
Proof. destruct l. apply node_cells_Leaf. Qed.

Lemma lf_sum_app ls ks : lf_sum (ls ++ ks) = opt_add (lf_sum ls) (lf_sum ks).
Proof.
  induction ls as [|l ls IH]; simpl; [by rw opt_add_0_l|].
  by rw IH opt_add_assoc.
Qed.

Lemma node_total_bytes_eq n : node_wf n -> node_total_bytes n = length (node_cells n).
Proof.
  induction n as [lb lf l IHl r IHr|]; simpl.
  - intros (-> & _ & _ & Hr). rw node_cells_Internal length_app IHr; done.
  - intros _. by rw node_cells_Leaf length_leaf_cells.
Qed.

Lemma total_line_feeds_eq n : node_wf n -> total_line_feeds n = lf_sum (node_leaves n).
Proof.
  induction n as [lb lf l IHl r IHr|]; simpl.
  - intros (_ & -> & _ & Hr). by rw lf_sum_app IHr.
  - intros _. by rw opt_add_0_r.
Qed.

(** An internal node over well-formed children with recomputed summaries. *)
Lemma node_wf_Internal l r :
  node_wf l -> node_wf r -> node_wf (Internal (node_total_bytes l) (total_line_feeds l) l r).
Proof. intros. simpl. rw node_total_bytes_eq // total_line_feeds_eq //. Qed.

Lemma node_wf_leaf_node l : node_wf (leaf_node l).
Proof. done. Qed.

#[export] Hint Resolve node_wf_Internal node_wf_leaf_node : fresh.

(** ** Balanced builds *)
Lemma build_balanced_wf ls : node_wf (build_balanced ls).
Proof.
  funelim (build_balanced ls); simp build_balanced; [done..|].
  by apply node_wf_Internal.
Qed.

Lemma build_balanced_leaves ls :
  ls <> [] -> node_leaves (build_balanced ls) = ls.
Proof.
  funelim (build_balanced ls); simp build_balanced; intros Hne; [done|by destruct leaf|].
  cbn [node_leaves].
  assert (forall m, 0 < m -> m < length (x :: y :: leaves) ->
    take m (x :: y :: leaves) <> [] /\ drop m (x :: y :: leaves) <> []) as Hm.
  { intros m ? ?. split; intros E; apply (f_equal length) in E;
      rw ?length_take ?length_drop in E; simpl in *; lia. }
  destruct (Hm (length (x :: y :: leaves) / 2)).
  { apply Nat.div_str_pos. simpl; lia. }
  { apply Nat.div_lt; simpl; lia. }
  by rw H // H0 // take_drop.
Qed.

Lemma build_balanced_cells ls : node_cells (build_balanced ls) = cells_of ls.
Proof.
  destruct ls as [|l ls]; [by simp build_balanced|].
  unfold node_cells. by rw build_balanced_leaves.
Qed.

Lemma build_balanced_Forall (P : LeafData -> Prop) ls :
  P (mkLeaf (Stored 0) 0 0 (Some 0)) -> Forall P ls ->
  Forall P (node_leaves (build_balanced ls)).
Proof.
  intros H0 Hls. destruct ls as [|l ls]; [simp build_balanced; by repeat constructor|].
  by rw build_balanced_leaves.
Qed.

Lemma build_balanced_total_bytes ls :
  node_total_bytes (build_balanced ls) = list_sum (l_bytes <$> ls).
Proof.
  rw node_total_bytes_eq; [apply build_balanced_wf|].
  by rw build_balanced_cells length_cells_of.
Qed.

#[export] Hint Resolve build_balanced_wf : fresh.

Lemma log2_up_half n : 2 <= n -> Nat.max (Nat.log2_up (n / 2)) (Nat.log2_up (n - n / 2)) < Nat.log2_up n.
Proof.
  intros Hn. pose proof (Nat.div_mod_eq n 2). pose proof (Nat.mod_upper_bound n 2).
  assert (Nat.log2_up n = S (Nat.log2_up (n - n / 2))) as ->.
  { apply Nat.log2_up_unique; [lia|].
    destruct (decide (n - n / 2 = 1)) as [E|].
    - rw E. replace (Nat.log2_up 1) with 0 by done. simpl. lia.
    - pose proof (Nat.log2_up_spec (n - n / 2)).
      split; [|rw Nat.pow_succ_r'; lia].
      destruct (Nat.log2_up (n - n / 2)) as [|k] eqn:E.
      + pose proof (Nat.log2_up_pos (n - n / 2)). lia.
      + simpl in *. lia. }
  pose proof (Nat.log2_up_le_mono (n / 2) (n - n / 2)). lia.
Qed.

Lemma build_balanced_depth ls : depth (build_balanced ls) <= S (Nat.log2_up (length ls)).
Proof.
  funelim (build_balanced ls); simp build_balanced; [simpl; lia..|].
  cbn [depth]. rw length_take length_drop in H H0 |- *.
  set (n := length (x :: y :: leaves)) in *.
  assert (2 <= n) as Hn by (unfold n; simpl; lia).
  pose proof (log2_up_half n Hn). pose proof (Nat.div_lt n 2).
  rw Nat.min_l in H; lia.
Qed.
