(* ===== verification/PieceTreeEdit.v ===== *)
(** * Piece tree: insertions and deletions

    [path_copy_insert] and [path_copy_delete] splice the document, never panic
    on trees that satisfy the invariant, and preserve it. *)
From stdpp Require Import base numbers list option sorting.
From Stdlib Require Import ssreflect Strings.Byte.
From S2P Require Import Prelude TextSpec StringBuffer PieceTree PieceTreeInv.

(** ** Splices of appended lists *)
Lemma splice_app_l {A} (l k ins : list A) pos del :
  pos + del <= length l -> splice (l ++ k) pos del ins = splice l pos del ins ++ k.
Proof.
  intros. unfold splice. rw take_app_le; [lia|]. rw drop_app_le; [lia|]. by rw -!app_assoc.
Qed.

Lemma splice_app_r {A} (l k ins : list A) pos del :
  length l <= pos -> splice (l ++ k) pos del ins = l ++ splice k (pos - length l) del ins.
Proof.
  intros. unfold splice. rw take_app_ge; [done|]. rw drop_app_ge; [lia|].
  rw -app_assoc. by replace (pos + del - length l) with (pos - length l + del) by lia.
Qed.

(** A deletion that spans the boundary. *)
Lemma splice_app_span {A} (l k : list A) pos del :
  pos <= length l -> length l <= pos + del ->
  splice (l ++ k) pos del [] = splice l pos (length l - pos) []
                               ++ splice k 0 (pos + del - length l) [].
Proof.
  intros. unfold splice. simpl. rw take_app_le; [lia|]. rw drop_app_ge; [lia|].
  rw (drop_ge l); [lia|]. by rw app_nil_r.
Qed.

Section edit.
Context (content : nat -> nat -> byte) (buffers : list StringBuffer).
Hypothesis Hagree : buffers_agree content buffers.

Local Abbreviation leaf_ok := (leaf_ok content buffers).
Local Abbreviation leaf_text := (leaf_text content).
Local Abbreviation tree_inv := (tree_inv content buffers).

(** ** Leaves *)
Lemma data_slice_text loc off n c b d :
  buffers !! buffer_id loc = Some b -> get_data b = Some d -> off + n <= length d ->
  take n (drop off d) = leaf_text (mkLeaf loc off n c).
Proof.
  intros Hb Hd Hlen. unfold leaf_text, leaf_cells. apply list_eq. intros i. simpl.
  destruct (decide (i < n)) as [Hi|Hi].
  - rw lookup_take_lt // lookup_drop !list_lookup_fmap lookup_seq_lt //.
    destruct (lookup_lt_is_Some_2 d (off + i)) as [x Hx]; [lia|].
    rw Hx. simpl. unfold cell_byte. simpl. by rw (Hagree _ _ _ _ _ Hb Hd Hx).
  - rw !lookup_ge_None_2 //; rw ?length_fmap ?length_seq ?length_take; lia.
Qed.

Lemma leaf_bounded_sub loc off n c off' n' c' :
  leaf_bounded buffers (mkLeaf loc off n c) -> off <= off' -> off' + n' <= off + n ->
  leaf_bounded buffers (mkLeaf loc off' n' c').
Proof. unfold leaf_bounded. simpl. intros. destruct (buffers !! _); lia. Qed.

Lemma leaf_ok_empty : leaf_ok (mkLeaf (Stored 0) 0 0 (Some 0)).
Proof. split; [|intros c [= <-]; done]. unfold leaf_bounded. simpl. destruct (buffers !! 0); lia. Qed.

(** Recounting the newlines of part of a piece. *)
Lemma compute_line_feeds_ok loc off n :
  leaf_bounded buffers (mkLeaf loc off n None) ->
  exists r, compute_line_feeds_static buffers loc off n = Ok r /\ leaf_ok (mkLeaf loc off n r).
Proof.
  intros Hbd. unfold compute_line_feeds_static.
  destruct (buffers !! buffer_id loc) as [b|] eqn:Hb; simpl.
  2: { by exists None. }
  destruct (get_data b) as [d|] eqn:Hd; simpl; [|by exists None].
  pose proof (leaf_bounded_data _ _ _ _ Hbd Hb Hd) as Hlen. simpl in Hlen.
  rw Nat.min_l; [lia|]. rw slice_Ok; [lia..|]. simpl.
  replace (off + n - off) with n by lia.
  eexists; split; [done|]. split; [by eapply leaf_bounded_sub; [exact Hbd|..]|].
  intros c [= <-]. by rw (data_slice_text loc off n (Some 0) b d).
Qed.

Hint Resolve leaf_ok_empty : fresh.

Lemma build_balanced_ok ls :
  Forall leaf_ok ls -> Forall leaf_ok (node_leaves (build_balanced ls)).
Proof. apply build_balanced_Forall, leaf_ok_empty. Qed.

(** ** Insertion *)
Lemma path_copy_insert_Leaf loc off bytes c cur pos ins :
  leaf_ok (mkLeaf loc off bytes c) -> leaf_ok ins -> cur <= pos ->
  exists n', path_copy_insert (Leaf loc off bytes c) cur pos ins buffers = Ok n'
    /\ node_wf n' /\ Forall leaf_ok (node_leaves n')
    /\ node_cells n' = splice (leaf_cells (mkLeaf loc off bytes c)) (pos - cur) 0 (leaf_cells ins).
Proof.
  intros [Hb Hc] Hins Hpos. simpl. unfold splice. rw Nat.add_0_r.
  case_decide as H1; [|case_decide as H2; [case_decide as H3|]].
  - destruct (compute_line_feeds_ok loc off (pos - cur)) as (r1 & -> & Hr1).
    { eapply leaf_bounded_sub; [exact Hb|lia..]. }
    destruct (compute_line_feeds_ok loc (off + (pos - cur)) (bytes - (pos - cur)))
      as (r2 & -> & Hr2).
    { eapply leaf_bounded_sub; [exact Hb|lia..]. }
    simpl. eexists; split; [done|]. split; [apply build_balanced_wf|]. split.
    + apply build_balanced_ok. solve_Forall.
    + rw build_balanced_cells !cells_of_cons take_leaf_cells drop_leaf_cells /=.
      rw Nat.min_l; [lia|]. by rw app_nil_r.
  - eexists; split; [done|]. split; [done|]. split; [destruct ins; solve_Forall|].
    rw node_cells_leaf_node H3. replace (pos - cur) with 0 by lia.
    by rw take_0 drop_0 app_nil_r.
  - eexists; split; [done|]. split; [apply build_balanced_wf|]. split.
    + apply build_balanced_ok. by solve_Forall; split.
    + rw build_balanced_cells !cells_of_cons. replace (pos - cur) with 0 by lia.
      by rw take_0 drop_0 app_nil_r.
  - eexists; split; [done|]. split; [apply build_balanced_wf|]. split.
    + apply build_balanced_ok. by solve_Forall; split.
    + rw build_balanced_cells !cells_of_cons.
      by rw take_ge ?length_leaf_cells /=; [lia|]; rw drop_ge ?length_leaf_cells /=; [lia|].
Qed.

Lemma path_copy_insert_ok n cur pos ins :
  node_wf n -> Forall leaf_ok (node_leaves n) -> leaf_ok ins -> cur <= pos ->
  exists n', path_copy_insert n cur pos ins buffers = Ok n'
    /\ node_wf n' /\ Forall leaf_ok (node_leaves n')
    /\ node_cells n' = splice (node_cells n) (pos - cur) 0 (leaf_cells ins).
Proof.
  intros Hwf Hok Hins. revert cur Hwf Hok.
  induction n as [lb lf l IHl r IHr|loc off bytes c]; intros cur Hwf Hok Hpos.
  2: { rw node_cells_Leaf. simpl in Hok. rw Forall_singleton in Hok. by apply path_copy_insert_Leaf. }
  destruct Hwf as (-> & -> & Hl & Hr). simpl in Hok. apply Forall_app in Hok as [Hokl Hokr].
  cbn [path_copy_insert]. rw node_cells_Internal.
  assert (forall n', node_wf n' -> Forall leaf_ok (node_leaves n') ->
    node_cells n' = splice (node_cells r) (pos - (cur + length (node_cells l))) 0 (leaf_cells ins) ->
    cur + length (node_cells l) <= pos ->
    exists m, Ok (Internal (length (node_cells l)) (lf_sum (node_leaves l)) l n') = Ok m
      /\ node_wf m /\ Forall leaf_ok (node_leaves m)
      /\ node_cells m = splice (node_cells l ++ node_cells r) (pos - cur) 0 (leaf_cells ins))
    as Hright.
  { intros n' ? ? Hc ?. eexists; split; [done|]. split; [done|].
    split; [by apply Forall_app|]. rw node_cells_Internal Hc splice_app_r; [lia|].
    by replace (pos - cur - length (node_cells l))
      with (pos - (cur + length (node_cells l))) by lia. }
  case_decide; [|case_decide].
  - destruct (IHl cur) as (n' & -> & ? & ? & Hc); [done..|]. simpl.
    eexists; split; [done|]. split; [by apply node_wf_Internal|].
    split; [by apply Forall_app|]. rw node_cells_Internal Hc splice_app_l; [lia|done].
  - destruct (IHr (cur + length (node_cells l))) as (n' & -> & ? & ? & ?); [done..|lia|].
    simpl. apply Hright; done || lia.
  - destruct (IHr (cur + length (node_cells l))) as (n' & -> & ? & ? & ?); [done..|lia|].
    simpl. apply Hright; done || lia.
Qed.

(** ** Deletion *)
Lemma path_copy_delete_Leaf loc off bytes c cur s e :
  leaf_ok (mkLeaf loc off bytes c) -> cur <= s -> s < e ->
  exists n', path_copy_delete (Leaf loc off bytes c) cur s e buffers = Ok n'
    /\ node_wf n' /\ Forall leaf_ok (node_leaves n')
    /\ node_cells n' = splice (leaf_cells (mkLeaf loc off bytes c)) (s - cur) (e - s) [].
Proof.
  intros [Hb Hc] Hs He. unfold splice. cbn [path_copy_delete].
  case_decide as H1; [|case_decide as H2; [|case_decide as H3; [|case_decide as H4]]].
  - eexists; split; [done|]. split; [done|]. split; [by solve_Forall; split|].
    rw node_cells_Leaf. destruct H1 as [H1|H1]; [|lia].
    rw take_ge ?length_leaf_cells /=; [lia|]. rw drop_ge ?length_leaf_cells /=; [lia|].
    by rw app_nil_r.
  - eexists; split; [done|]. split; [done|]. split; [solve_Forall|].
    replace (s - cur) with 0 by lia.
    rw drop_ge ?length_leaf_cells /=; [lia|done].
  - destruct (compute_line_feeds_ok loc off (s - cur)) as (r1 & -> & Hr1).
    { eapply leaf_bounded_sub; [exact Hb|lia..]. }
    destruct (compute_line_feeds_ok loc (off + bytes - (cur + bytes - e)) (cur + bytes - e))
      as (r2 & -> & Hr2).
    { eapply leaf_bounded_sub; [exact Hb|lia..]. }
    simpl. eexists; split; [done|]. split; [apply build_balanced_wf|]. split.
    + apply build_balanced_ok. solve_Forall.
    + rw build_balanced_cells !cells_of_cons take_leaf_cells drop_leaf_cells /=.
      rw Nat.min_l; [lia|]. rw app_nil_r. f_equal. unfold leaf_cells. simpl.
      f_equal. f_equal; lia.
  - destruct (compute_line_feeds_ok loc off (s - cur)) as (r1 & -> & Hr1).
    { eapply leaf_bounded_sub; [exact Hb|lia..]. }
    simpl. eexists; split; [done|]. split; [done|]. split; [solve_Forall|].
    rw node_cells_Leaf take_leaf_cells /=.
    rw drop_ge ?length_leaf_cells /=; [lia|]. rw app_nil_r. unfold leaf_cells. simpl.
    f_equal. f_equal; lia.
  - rw usub_Ok; [lia|]. simpl.
    destruct (compute_line_feeds_ok loc (off + (e - cur)) (cur + bytes - e)) as (r1 & -> & Hr1).
    { eapply leaf_bounded_sub; [exact Hb|lia..]. }
    simpl. eexists; split; [done|]. split; [done|]. split; [solve_Forall|].
    rw node_cells_Leaf drop_leaf_cells /=. replace (s - cur) with 0 by lia. simpl.
    unfold leaf_cells. simpl. f_equal. f_equal; lia.
Qed.
Lemma node_empty n : node_wf n -> node_total_bytes n = 0 -> node_cells n = [].
Proof. intros Hwf H. rw node_total_bytes_eq // in H. by apply length_zero_iff_nil. Qed.

Lemma path_copy_delete_ok n cur s e :
  node_wf n -> Forall leaf_ok (node_leaves n) -> cur <= s -> s < e ->
  exists n', path_copy_delete n cur s e buffers = Ok n'
    /\ node_wf n' /\ Forall leaf_ok (node_leaves n')
    /\ node_cells n' = splice (node_cells n) (s - cur) (e - s) [].
Proof.
  intros Hwf Hok. revert cur s e Hwf Hok.
  induction n as [lb lf l IHl r IHr|loc off bytes c]; intros cur s e Hwf Hok Hs He.
  2: { rw node_cells_Leaf. simpl in Hok. rw Forall_singleton in Hok.
       by apply path_copy_delete_Leaf. }
  destruct Hwf as (-> & -> & Hl & Hr). simpl in Hok. apply Forall_app in Hok as [Hokl Hokr].
  cbn [path_copy_delete]. rw node_cells_Internal. set (left_end := cur + length (node_cells l)).
  assert (length (node_cells l) = left_end - cur) as Hlen by lia.
  case_decide; [|case_decide].
  - destruct (IHl cur s e) as (n' & -> & ? & ? & Hc); [done..|]. simpl.
    rw splice_app_l -?Hc; [lia|]. case_decide as Hz.
    + eexists; split; [done|]. by rw (node_empty n').
    + eexists; split; [done|]. split; [by apply node_wf_Internal|].
      split; [by apply Forall_app | apply node_cells_Internal].
  - destruct (IHr left_end s e) as (n' & -> & ? & ? & Hc); [done..|]. simpl.
    rw splice_app_r ?Hlen; [lia|]. replace (s - cur - (left_end - cur)) with (s - left_end) by lia.
    rw -Hc. case_decide as Hz.
    + eexists; split; [done|]. by rw (node_empty n') // app_nil_r.
    + eexists; split; [done|]. split; [split_and!; done || lia|].
      split; [by apply Forall_app | apply node_cells_Internal].
  - destruct (IHl cur s (Nat.min left_end e)) as (n1 & -> & ? & ? & Hc1); [done..|lia|].
    destruct (IHr left_end (Nat.max left_end s) e) as (n2 & -> & ? & ? & Hc2); [done|done|lia..|].
    simpl. rw splice_app_span; [lia..|].
    replace (Nat.min left_end e - s) with (length (node_cells l) - (s - cur)) in Hc1 by lia.
    replace (Nat.max left_end s - left_end) with 0 in Hc2 by lia.
    replace (e - Nat.max left_end s) with (s - cur + (e - s) - length (node_cells l)) in Hc2 by lia.
    rw -Hc1 -Hc2. case_decide as Hz1; [|case_decide as Hz2; [|case_decide as Hz3]].
    + destruct Hz1. rw (node_empty n1) // (node_empty n2) //.
      eexists; split; [done|]. split_and!; [done|solve_Forall|done].
    + rw (node_empty n1) //. by eexists.
    + rw (node_empty n2) // app_nil_r. by eexists.
    + eexists; split; [done|]. split; [by apply node_wf_Internal|].
      split; [by apply Forall_app | apply node_cells_Internal].
Qed.

(** ** Rebalancing *)
Lemma check_and_rebalance_leaves t : node_leaves (root (check_and_rebalance t)) = node_leaves (root t).
Proof.
  unfold check_and_rebalance, rebalance. case_decide; [done|]. case_decide; [|done]. simpl.
  rw get_leaves_eq build_balanced_leaves //.
  pose proof (node_leaves_nonempty (root t)). by destruct (node_leaves (root t)); simpl in *; [lia|].
Qed.

Lemma check_and_rebalance_doc t : doc (check_and_rebalance t) = doc t.
Proof. unfold doc, node_cells. by rw check_and_rebalance_leaves. Qed.

Lemma check_and_rebalance_total t : total_bytes (check_and_rebalance t) = total_bytes t.
Proof. unfold check_and_rebalance. case_decide; [done|]. by case_decide. Qed.

Lemma check_and_rebalance_wf t : tree_wf t -> tree_wf (check_and_rebalance t).
Proof.
  intros [Hwf Ht]. split; [|by rw check_and_rebalance_total check_and_rebalance_doc].
  unfold check_and_rebalance. case_decide; [done|]. case_decide; [|done]. apply build_balanced_wf.
Qed.

Lemma check_and_rebalance_inv t : tree_inv t -> tree_inv (check_and_rebalance t).
Proof.
  intros [Hwf Hok]. split; [by apply check_and_rebalance_wf|].
  by rw check_and_rebalance_leaves.
Qed.

(** ** The tree operations *)
Lemma tree_insert_ok t offset loc boff bytes lf :
  tree_inv t -> leaf_ok (mkLeaf loc boff bytes lf) ->
  exists t' cur, tree_insert t offset loc boff bytes lf buffers = Ok (t', cur)
    /\ tree_inv t' /\ doc t' = splice (doc t) offset 0 (leaf_cells (mkLeaf loc boff bytes lf))
    /\ cur = mkPTCursor (Nat.min (offset + bytes) (total_bytes t')) 0 0.
Proof.
  intros [[Hwf Ht] Hok] Hins. unfold tree_insert. case_decide as Hb.
  { subst. eexists _, _. split; [done|]. split; [by repeat split|]. split.
    - unfold splice. by rw Nat.add_0_r /= take_drop.
    - by rw Nat.add_0_r. }
  destruct (path_copy_insert_ok (root t) 0 offset (mkLeaf loc boff bytes lf))
    as (n' & -> & Hwf' & Hok' & Hc); [done|done|done|lia|]. simpl. rw Nat.sub_0_r in Hc.
  eexists _, _. split; [done|]. split; [|split; [|done]].
  - apply check_and_rebalance_inv. repeat split; [done| |done].
    unfold doc. simpl. rw Hc. unfold splice. autorewrite with fresh. rw length_leaf_cells /= Ht.
    unfold doc. lia.
  - by rw check_and_rebalance_doc.
Qed.

Lemma tree_delete_ok t offset n :
  tree_inv t ->
  exists t', tree_delete t offset n buffers = Ok t'
    /\ tree_inv t' /\ doc t' = splice (doc t) offset n [].
Proof.
  intros [[Hwf Ht] Hok]. unfold tree_delete. case_decide as Hb.
  { exists t. split; [done|]. split; [by repeat split|]. unfold splice. simpl.
    destruct Hb as [->|Hb]; [by rw Nat.add_0_r take_drop|].
    rw take_ge; [lia|]. rw drop_ge; [lia|]. by rw app_nil_r. }
  destruct (path_copy_delete_ok (root t) 0 offset (offset + Nat.min n (total_bytes t - offset)))
    as (n' & -> & Hwf' & Hok' & Hc); [done|done|lia|lia|]. simpl. rw Nat.sub_0_r in Hc.
  assert (node_cells n' = splice (doc t) offset n []) as Hc'.
  { rw Hc -/(doc t). unfold splice. f_equal. f_equal.
    destruct (decide (n <= total_bytes t - offset)).
    - f_equal. lia.
    - rw !drop_ge; lia || done. }
  eexists. split; [done|]. split; [|by rw check_and_rebalance_doc].
  apply check_and_rebalance_inv. repeat split; [done| |done].
  unfold doc. simpl. rw Hc'. unfold splice. autorewrite with fresh. simpl. lia.
Qed.
End edit.

(** A tree is balanced enough when its depth is within twice the rounded-up
    binary logarithm of its leaf count. *)
Definition depth_bounded (t : PieceTree) : Prop :=
  2 <= count_leaves (root t) -> depth (root t) <= 2 * Nat.log2_up (count_leaves (root t)).

Lemma check_and_rebalance_depth t : depth_bounded (check_and_rebalance t).
Proof.
  unfold depth_bounded. rw count_leaves_eq. rw check_and_rebalance_leaves -count_leaves_eq.
  unfold check_and_rebalance. intros. case_decide; [lia|]. case_decide; [|lia].
  unfold rebalance. cbn [root].
  pose proof (build_balanced_depth (get_leaves t)) as Hd.
  rw get_leaves_eq -count_leaves_eq in Hd.
  pose proof (Nat.log2_up_pos (count_leaves (root t))). rw get_leaves_eq. lia.
Qed.

(** ** Checkable invariant

    [content_of] reads the loaded buffers; [tree_inv_b] decides the invariant. *)
Definition content_of (buffers : list StringBuffer) (id pos : nat) : byte :=
  default x00 (b ← buffers !! id; d ← get_data b; d !! pos).

Lemma content_of_agree buffers : buffers_agree (content_of buffers) buffers.
Proof. intros id b d i x Hb Hd Hx. unfold content_of. by rw Hb /= Hd /= Hx. Qed.

Definition leaf_ok_b (content : nat -> nat -> byte) (buffers : list StringBuffer) (l : LeafData)
    : bool :=
  match buffers !! buffer_id (l_location l) with
  | Some b => bool_decide (l_offset l + l_bytes l <= sb_len b)
  | None => bool_decide (l_offset l = 0 /\ l_bytes l = 0)
  end &&
  match l_line_feed_cnt l with
  | Some c => bool_decide (c = count_newlines (leaf_text content l))
  | None => true
  end.

Fixpoint node_wf_b (n : PieceTreeNode) : bool :=
  match n with
  | Internal left_bytes lf_left lft rgt =>
      bool_decide (left_bytes = length (node_cells lft))
      && bool_decide (lf_left = lf_sum (node_leaves lft)) && node_wf_b lft && node_wf_b rgt
  | Leaf _ _ _ _ => true
  end.

Definition tree_inv_b (content : nat -> nat -> byte) (buffers : list StringBuffer)
    (t : PieceTree) : bool :=
  node_wf_b (root t) && bool_decide (total_bytes t = length (doc t))
  && forallb (leaf_ok_b content buffers) (node_leaves (root t)).

Lemma leaf_ok_b_sound content buffers l : leaf_ok_b content buffers l = true -> leaf_ok content buffers l.
Proof.
  unfold leaf_ok_b. intros [H1 H2]%andb_true_iff. split.
  - unfold leaf_bounded. destruct (buffers !! _); by apply bool_decide_eq_true in H1.
  - intros c Hc. rw Hc in H2. by apply bool_decide_eq_true in H2.
Qed.

Lemma node_wf_b_sound n : node_wf_b n = true -> node_wf n.
Proof.
  induction n as [lb lf l IHl r IHr|]; simpl; [|done].
  rw !andb_true_iff !bool_decide_eq_true. intros [[[? ?] ?] ?]. auto.
Qed.

Lemma tree_inv_b_sound content buffers t :
  tree_inv_b content buffers t = true -> tree_inv content buffers t.
Proof.
  unfold tree_inv_b. rw !andb_true_iff bool_decide_eq_true forallb_forall.
  intros [[Hwf Ht] Hls]. repeat split; [by apply node_wf_b_sound|done|].
  apply Forall_forall. intros l Hl%list_elem_of_In. by apply leaf_ok_b_sound, Hls.
Qed.

(** ** An instance

A two-piece document "abcd\n" cut after "ab". *)
Definition two_piece_buffers : list StringBuffer :=
  [sb_new 0 [x61; x62]; sb_new 1 [x63; x64; x0a]].
Definition two_piece_tree : PieceTree :=
  from_leaves [mkLeaf (Stored 0) 0 2 (Some 0); mkLeaf (Added 1) 0 3 (Some 1)].

Lemma two_piece_inv :
  tree_inv (content_of two_piece_buffers) two_piece_buffers two_piece_tree.
Proof. by apply tree_inv_b_sound. Qed.

(** ** Editing sessions *)
Inductive TreeOp : Type :=
  | InsertPiece (offset : nat) (l : LeafData)
  | DeleteRange (offset n : nat).

Definition run_op (buffers : list StringBuffer) (t : PieceTree) (op : TreeOp) : res PieceTree :=
  match op with
  | InsertPiece offset l =>
      r ← tree_insert t offset (l_location l) (l_offset l) (l_bytes l) (l_line_feed_cnt l) buffers;
      Ok r.1
  | DeleteRange offset n => tree_delete t offset n buffers
  end.

Fixpoint run_ops (buffers : list StringBuffer) (t : PieceTree) (ops : list TreeOp) : res PieceTree :=
  match ops with
  | [] => Ok t
  | op :: ops => t ← run_op buffers t op; run_ops buffers t ops
  end.

Definition op_ok content buffers (op : TreeOp) : Prop :=
  match op with InsertPiece _ l => leaf_ok content buffers l | DeleteRange _ _ => True end.

(** The same operation on flat text. *)
Definition splice_op content (text : list byte) (op : TreeOp) : list byte :=
  match op with
  | InsertPiece offset l => splice text offset 0 (leaf_text content l)
  | DeleteRange offset n => splice text offset n []
  end.

Lemma edit_depth t buffers op t' :
  depth_bounded t -> run_op buffers t op = Ok t' -> depth_bounded t'.
Proof.
  intros Hd. destruct op as [offset l|offset n]; simpl; intros H.
  - unfold tree_insert in H. case_decide; inv_res; [done|]. apply check_and_rebalance_depth.
  - unfold tree_delete in H. case_decide; inv_res; [done|]. apply check_and_rebalance_depth.
Qed.

Lemma run_op_ok content buffers t op :
  buffers_agree content buffers -> tree_inv content buffers t -> depth_bounded t ->
  op_ok content buffers op ->
  exists t', run_op buffers t op = Ok t' /\ tree_inv content buffers t' /\ depth_bounded t'
    /\ text content t' = splice_op content (text content t) op.
Proof.
  intros Hag Hinv Hd Hop.
  assert (exists t', run_op buffers t op = Ok t' /\ tree_inv content buffers t'
    /\ text content t' = splice_op content (text content t) op) as (t' & Hrun & Hinv' & Htext).
  { unfold text, splice_op, splice. destruct op as [offset [loc off bytes c]|offset n]; simpl in *.
    - destruct (tree_insert_ok content buffers Hag t offset loc off bytes c Hinv Hop)
        as (t' & cur & -> & ? & Hdoc & _).
      exists t'. split; [done|]. split; [done|]. rw Hdoc. unfold splice.
      by rw !fmap_app fmap_take fmap_drop.
    - destruct (tree_delete_ok content buffers Hag t offset n Hinv) as (t' & -> & ? & Hdoc).
      exists t'. split; [done|]. split; [done|]. rw Hdoc. unfold splice.
      by rw !fmap_app fmap_take fmap_drop. }
  exists t'. split; [done|]. split; [done|]. split; [exact (edit_depth _ _ _ _ Hd Hrun)|done].
Qed.

(** ** Properties *)

(** Inserting a piece at any offset never panics, keeps the invariant and
    splices the piece's text into the document's text at that offset (at the end
    when the offset is past it); the returned cursor is after the inserted text. *)
Theorem tree_insert_splices content buffers t offset loc boff bytes lf :
  buffers_agree content buffers -> tree_inv content buffers t ->
  leaf_ok content buffers (mkLeaf loc boff bytes lf) ->
  exists t' cur, tree_insert t offset loc boff bytes lf buffers = Ok (t', cur)
    /\ tree_inv content buffers t'
    /\ text content t' = splice (text content t) offset 0
                           (leaf_text content (mkLeaf loc boff bytes lf))
    /\ byte_offset cur = Nat.min (offset + bytes) (total_bytes t').
Proof.
  intros Hag Hinv Hins.
  destruct (tree_insert_ok content buffers Hag t offset loc boff bytes lf Hinv Hins)
    as (t' & cur & -> & ? & Hdoc & ->).
  eexists _, _. split_and!; [done..| |done].
  unfold text. rw Hdoc. unfold splice. by rw !fmap_app fmap_take fmap_drop.
Qed.

Lemma tree_insert_splices_witness :
  exists t' cur, tree_insert two_piece_tree 1 (Added 1) 1 2 (Some 1) two_piece_buffers = Ok (t', cur)
    /\ tree_inv (content_of two_piece_buffers) two_piece_buffers t'
    /\ text (content_of two_piece_buffers) t' = [x61; x64; x0a; x62; x63; x64; x0a]
    /\ byte_offset cur = Nat.min (1 + 2) (total_bytes t').
Proof.
  apply (tree_insert_splices (content_of two_piece_buffers) two_piece_buffers two_piece_tree
           1 (Added 1) 1 2 (Some 1)).
  - apply content_of_agree.
  - apply two_piece_inv.
  - by apply leaf_ok_b_sound.
Defined.

(** Deleting any byte range never panics, keeps the invariant and removes
    exactly the bytes of the range that exist. *)
Theorem tree_delete_splices content buffers t offset n :
  buffers_agree content buffers -> tree_inv content buffers t ->
  exists t', tree_delete t offset n buffers = Ok t'
    /\ tree_inv content buffers t'
    /\ text content t' = splice (text content t) offset n []
    /\ total_bytes t' = total_bytes t - Nat.min n (total_bytes t - offset).
Proof.
  intros Hag Hinv. pose proof Hinv as [[_ Ht] _].
  destruct (tree_delete_ok content buffers Hag t offset n Hinv) as (t' & -> & Hinv' & Hdoc).
  pose proof Hinv' as [[_ Ht'] _].
  eexists. split_and!; [done..| |].
  - unfold text. rw Hdoc. unfold splice. by rw !fmap_app fmap_take fmap_drop.
  - rw Ht' Hdoc. unfold splice. autorewrite with fresh. simpl. lia.
Qed.

Lemma tree_delete_splices_witness :
  exists t', tree_delete two_piece_tree 1 2 two_piece_buffers = Ok t'
    /\ tree_inv (content_of two_piece_buffers) two_piece_buffers t'
    /\ text (content_of two_piece_buffers) t' = [x61; x64; x0a]
    /\ total_bytes t' = 3.
Proof.
  apply (tree_delete_splices (content_of two_piece_buffers) two_piece_buffers two_piece_tree 1 2).
  - apply content_of_agree.
  - apply two_piece_inv.
Defined.

(** C3: over any sequence of insertions and deletions from a tree of bounded depth
    no operation panics, the text is what the same splices make of the flat text, the
    invariant holds, and the depth never exceeds twice the binary logarithm of the
    leaf count. *)
Theorem edit_session_splices content buffers t ops :
  buffers_agree content buffers -> tree_inv content buffers t -> depth_bounded t ->
  Forall (op_ok content buffers) ops ->
  exists t', run_ops buffers t ops = Ok t' /\ tree_inv content buffers t' /\ depth_bounded t'
    /\ text content t' = foldl (splice_op content) (text content t) ops.
Proof.
  intros Hag Hinv Hd Hops. revert t Hinv Hd.
  induction Hops as [|op ops Hop _ IH]; intros t Hinv Hd; [by exists t|].
  destruct (run_op_ok content buffers t op Hag Hinv Hd Hop) as (t1 & Hrun & Hinv1 & Hd1 & Htext).
  cbn [run_ops foldl]. rw Hrun -Htext. simpl. by apply IH.
Qed.

Lemma edit_session_splices_witness :
  exists t', run_ops two_piece_buffers tree_empty
      [InsertPiece 0 (mkLeaf (Added 1) 0 3 (Some 1)); InsertPiece 2 (mkLeaf (Stored 0) 0 2 (Some 0));
       DeleteRange 1 2] = Ok t'
    /\ tree_inv (content_of two_piece_buffers) two_piece_buffers t' /\ depth_bounded t'
    /\ text (content_of two_piece_buffers) t' = [x63; x62; x0a].
Proof.
  apply (edit_session_splices (content_of two_piece_buffers) two_piece_buffers tree_empty
    [InsertPiece 0 (mkLeaf (Added 1) 0 3 (Some 1)); InsertPiece 2 (mkLeaf (Stored 0) 0 2 (Some 0));
     DeleteRange 1 2]).
  - apply content_of_agree.
  - by apply tree_inv_b_sound.
  - unfold depth_bounded. simpl. lia.
  - solve_Forall; try done; by apply leaf_ok_b_sound.
Defined.
