(* ===== verification/PieceTreeQuery.v ===== *)
(** * Piece tree: lookups and range reads

    [find_by_offset] finds the piece an offset falls in, [iter_pieces_in_range]
    visits the pieces of a range, [read_range] reads the text of a range. *)
From stdpp Require Import base numbers list option sorting.
From Stdlib Require Import ssreflect Strings.Byte.
From S2P Require Import Prelude TextSpec StringBuffer PieceTree PieceTreeInv PieceTreeEdit.

(** ** Reference definitions on the leaf list *)

(** The leaf an offset falls in and the bytes before it. *)
Fixpoint leaf_at (ls : list LeafData) (offset : nat) : option (LeafData * nat) :=
  match ls with
  | [] => None
  | l :: ls =>
      if decide (offset < l_bytes l) then Some (l, 0)
      else (fun '(k, b) => (k, b + l_bytes l)) <$> leaf_at ls (offset - l_bytes l)
  end.

(** Leaves with the document offset they start at. *)
Fixpoint views (ls : list LeafData) (doc_offset : nat) : list PieceView :=
  match ls with
  | [] => []
  | l :: ls =>
      mkPieceView (l_location l) (l_offset l) (l_bytes l) doc_offset (l_line_feed_cnt l)
      :: views ls (doc_offset + l_bytes l)
  end.

Definition overlaps (range_start range_end : nat) (p : PieceView) : bool :=
  bool_decide (pv_doc_offset p < range_end)
  && bool_decide (range_start < pv_doc_offset p + pv_bytes p).

(** ** Lemmas *)
Lemma leaf_at_app ls ks offset :
  leaf_at (ls ++ ks) offset =
  if decide (offset < length (cells_of ls)) then leaf_at ls offset
  else (fun '(k, b) => (k, b + length (cells_of ls)))
         <$> leaf_at ks (offset - length (cells_of ls)).
Proof.
  revert offset. induction ls as [|l ls IH]; intros offset; simpl.
  - rw Nat.sub_0_r. destruct (leaf_at ks offset) as [[k b]|]; simpl; by rw ?Nat.add_0_r.
  - rw cells_of_cons length_app length_leaf_cells IH.
    case_decide; case_decide; try case_decide; try lia; [done..|].
    rw -option_fmap_compose Nat.sub_add_distr. destruct (leaf_at ks _) as [[k b]|]; simpl; [|done].
    do 2 f_equal. lia.
Qed.

Lemma node_find_by_offset_eq n offset :
  node_wf n ->
  node_find_by_offset n offset =
  (fun '(l, b) => mkFound (mkPieceInfo (l_location l) (l_offset l) (l_bytes l)
                             (Some (offset - b)) (l_line_feed_cnt l)) b)
  <$> leaf_at (node_leaves n) offset.
Proof.
  revert offset. induction n as [lb lf l IHl r IHr|loc off bytes c]; intros offset; simpl.
  - intros (-> & _ & Hl & Hr). rw leaf_at_app -/(node_cells l). case_decide; [by apply IHl|].
    rw IHr // -!option_fmap_compose.
    destruct (leaf_at (node_leaves r) _) as [[k b]|]; simpl; [|done].
    by replace (offset - length (node_cells l) - b) with (offset - (b + length (node_cells l)))
      by lia.
  - intros _. case_decide; [|done]. simpl. by rw Nat.sub_0_r.
Qed.

Lemma leaf_at_Some ls offset l b :
  leaf_at ls offset = Some (l, b) ->
  exists ls1 ls2, ls = ls1 ++ l :: ls2 /\ b = length (cells_of ls1)
    /\ b <= offset /\ offset < b + l_bytes l.
Proof.
  revert offset b. induction ls as [|k ls IH]; intros offset b; simpl; [done|].
  case_decide; intros H1.
  - simplify_eq. exists [], ls. simpl. split_and!; done || lia.
  - apply fmap_Some in H1 as ([k' b'] & H1 & ?). simplify_eq.
    apply IH in H1 as (ls1 & ls2 & -> & -> & ? & ?).
    exists (k :: ls1), ls2. rw cells_of_cons length_app length_leaf_cells.
    split_and!; done || lia.
Qed.

Lemma leaf_at_is_Some ls offset : offset < length (cells_of ls) -> is_Some (leaf_at ls offset).
Proof.
  revert offset. induction ls as [|l ls IH]; intros offset; simpl.
  - unfold cells_of. simpl. lia.
  - rw cells_of_cons length_app length_leaf_cells. intros. case_decide; [eauto|].
    apply fmap_is_Some, IH. lia.
Qed.

Lemma views_app ls ks d : views (ls ++ ks) d = views ls d ++ views ks (d + length (cells_of ls)).
Proof.
  revert d. induction ls as [|l ls IH]; intros d; simpl.
  - by rw Nat.add_0_r.
  - rw IH cells_of_cons length_app length_leaf_cells. by rw Nat.add_assoc.
Qed.

(** No piece outside its subtree's byte range overlaps. *)
Lemma views_bounds ls d p :
  In p (views ls d) ->
  d <= pv_doc_offset p /\ pv_doc_offset p + pv_bytes p <= d + length (cells_of ls).
Proof.
  revert d. induction ls as [|l ls IH]; intros d; simpl; [done|].
  rw cells_of_cons length_app length_leaf_cells. intros [<-|H]; simpl; [lia|].
  apply IH in H. lia.
Qed.

Lemma filter_false_nil {A} (f : A -> bool) l : (forall x, In x l -> f x = false) -> List.filter f l = [].
Proof.
  induction l as [|x l IH]; intros H; simpl; [done|].
  rw H; [by left|]. apply IH. intros. apply H. by right.
Qed.

Lemma collect_pieces_eq n d s e acc :
  node_wf n -> collect_pieces n d s e acc = acc ++ List.filter (overlaps s e) (views (node_leaves n) d).
Proof.
  revert d acc. induction n as [lb lf l IHl r IHr|]; intros d acc; cbn [collect_pieces node_leaves].
  - intros (-> & _ & Hl & Hr). rw views_app List.filter_app -/(node_cells l).
    assert (d + length (node_cells l) <= s -> List.filter (overlaps s e) (views (node_leaves l) d) = []) as Hskl.
    { intros. apply filter_false_nil. intros p [? ?]%views_bounds. apply andb_false_iff. right.
      apply bool_decide_eq_false. unfold node_cells in *. lia. }
    assert (e <= d + length (node_cells l) -> List.filter (overlaps s e) (views (node_leaves r) (d + length (node_cells l))) = []) as Hskr.
    { intros. apply filter_false_nil. intros p [? ?]%views_bounds. apply andb_false_iff. left.
      apply bool_decide_eq_false. lia. }
    case_decide; [|rw Hskr; [lia|]]; (case_decide; [|rw Hskl; [lia|]]);
      by rw ?IHl // ?IHr // ?app_nil_r -?app_assoc.
  - intros _. simpl. unfold overlaps. simpl.
    case_decide as H1.
    + destruct H1. by rw !bool_decide_eq_true_2.
    + destruct (bool_decide _) eqn:E1; [|by rw app_nil_r].
      apply bool_decide_eq_true in E1. rw bool_decide_eq_false_2; [lia|]. by rw app_nil_r.
Qed.

Lemma iter_drain_eq fuel it :
  length (pieces it) - current_index it < fuel ->
  iter_drain fuel it = drop (current_index it) (pieces it).
Proof.
  revert it. induction fuel as [|fuel IH]; intros [ps i]; simpl; [lia|]. intros.
  unfold iter_next. simpl. destruct (ps !! i) as [p|] eqn:E.
  - rw IH /=.
    + apply lookup_lt_Some in E. lia.
    + by rw (drop_S _ _ _ E).
  - apply lookup_ge_None in E. by rw drop_ge.
Qed.

Lemma iter_pieces_eq t s e :
  node_wf (root t) ->
  iter_pieces_in_range t s e = List.filter (overlaps s e) (views (node_leaves (root t)) 0).
Proof.
  intros. unfold iter_pieces_in_range. rw iter_drain_eq; [simpl; lia|]. simpl.
  by rw drop_0 collect_pieces_eq.
Qed.

Lemma doc_lookup_split ls1 l ls2 k :
  k < l_bytes l ->
  cells_of (ls1 ++ l :: ls2) !! (length (cells_of ls1) + k) = Some (l_location l, l_offset l + k).
Proof.
  intros. rw cells_of_app cells_of_cons lookup_app_r; [lia|].
  replace (length (cells_of ls1) + k - length (cells_of ls1)) with k by lia.
  rw lookup_app_l ?length_leaf_cells //. unfold leaf_cells.
  by rw list_lookup_fmap lookup_seq_lt.
Qed.

(** ** Reading a range *)

(** The part of a list placed at offset [d] that falls in [s, e). *)
Definition window {A} (s e d : nat) (l : list A) : list A := drop (s - d) (take (e - d) l).

Lemma window_app {A} s e d (l k : list A) :
  window s e d (l ++ k) = window s e d l ++ window s e (d + length l) k.
Proof.
  unfold window. rw !Nat.sub_add_distr take_app.
  destruct (decide (e - d <= length l)).
  - replace (e - d - length l) with 0 by lia. by rw take_0 drop_nil !app_nil_r.
  - rw (take_ge l); [lia|]. by rw drop_app.
Qed.

Lemma window_leaf_cells s e d l :
  window s e d (leaf_cells l)
  = leaf_cells (mkLeaf (l_location l) (l_offset l + (s - d))
                  (Nat.min (e - d) (l_bytes l) - (s - d)) None).
Proof. unfold window. by rw take_leaf_cells drop_leaf_cells. Qed.

Lemma window_0 {A} s n (l : list A) : window s (s + n) 0 l = take n (drop s l).
Proof.
  unfold window. rw !Nat.sub_0_r take_drop_commute. done.
Qed.

Definition leaf_loaded (buffers : list StringBuffer) (l : LeafData) : Prop :=
  is_Some (b ← buffers !! buffer_id (l_location l); get_data b).

Section read.
Context (content : nat -> nat -> byte) (buffers : list StringBuffer).
Hypothesis Hagree : buffers_agree content buffers.

(** What the loop does with one piece. *)
Lemma read_pieces_cons l d s e ps result :
  leaf_bounded buffers l ->
  let r := read_pieces (List.filter (overlaps s e)
             [mkPieceView (l_location l) (l_offset l) (l_bytes l) d (l_line_feed_cnt l)] ++ ps)
             buffers s e result in
  let here := cell_byte content <$> window s e d (leaf_cells l) in
  (leaf_loaded buffers l -> r = read_pieces ps buffers s e (result ++ here))
  /\ (r = None \/ r = read_pieces ps buffers s e (result ++ here)).
Proof.
  intros Hb. cbv zeta. rw window_leaf_cells. cbn [List.filter].
  set (p := mkPieceView _ _ _ d _).
  set (len := Nat.min (e - d) (l_bytes l) - (s - d)).
  assert (len = 0 -> result ++ (cell_byte content <$>
      leaf_cells (mkLeaf (l_location l) (l_offset l + (s - d)) len None)) = result) as Hz.
  { intros ->. by rw app_nil_r. }
  destruct (overlaps s e p) eqn:Ho.
  2: { rw Hz; [|by auto]. unfold overlaps in Ho. apply andb_false_iff in Ho.
       rw !bool_decide_eq_false in Ho. unfold len. simpl in Ho. lia. }
  apply andb_true_iff in Ho as [H1 H2]. apply bool_decide_eq_true in H1, H2. simpl in H1, H2.
  simpl app. cbn [read_pieces]. simpl pv_doc_offset. simpl pv_bytes.
  case_decide as Hre; [rw Hz; [unfold len; lia|by auto]|].
  replace (Nat.min e (d + l_bytes l) - Nat.max s d) with len by (unfold len; lia).
  replace (Nat.max s d - d) with (s - d) by lia. simpl pv_location. simpl pv_buffer_offset.
  unfold leaf_loaded. destruct (buffers !! _) as [b|] eqn:Eb; simpl.
  2: { split; [intros [? [=]] | by left]. }
  destruct (get_data b) as [dt|] eqn:Ed; simpl.
  2: { split; [intros [? [=]] | by left]. }
  pose proof (leaf_bounded_data _ _ _ _ Hb Eb Ed) as Hlen.
  rw slice_get_Some; [lia|unfold len; lia|]. simpl.
  replace (l_offset l + (s - d) + len - (l_offset l + (s - d))) with len by lia.
  rw (data_slice_text content buffers Hagree (l_location l) _ _ None b dt) //; [|by auto].
  unfold len; lia.
Qed.

Lemma read_pieces_ok ls d s e result :
  Forall (leaf_bounded buffers) ls ->
  let r := read_pieces (List.filter (overlaps s e) (views ls d)) buffers s e result in
  let here := result ++ (cell_byte content <$> window s e d (cells_of ls)) in
  (Forall (leaf_loaded buffers) ls -> r = Some here) /\ (r = None \/ r = Some here).
Proof.
  cbv zeta. revert d result. induction ls as [|l ls IH]; intros d result Hb; cbn [views].
  { unfold cells_of, window. simpl. rw take_nil drop_nil app_nil_r. auto. }
  apply Forall_cons in Hb as [Hl Hb]. rw cells_of_cons window_app fmap_app length_leaf_cells app_assoc.
  destruct (read_pieces_cons l d s e (List.filter (overlaps s e) (views ls (d + l_bytes l)))
              result Hl) as [Hc1 Hc2].
  rw -List.filter_app in Hc1 Hc2. simpl app in Hc1, Hc2.
  destruct (IH (d + l_bytes l) (result ++ (cell_byte content <$> window s e d (leaf_cells l))) Hb)
    as [IH1 IH2].
  split.
  - intros [Hll Hls]%Forall_cons. by rw Hc1 // IH1.
  - destruct Hc2 as [-> | ->]; auto.
Qed.
End read.

(** ** Line-feed counts *)
Lemma text_of_app content ls ks : text_of content (ls ++ ks) = text_of content ls ++ text_of content ks.
Proof. unfold text_of. by rw cells_of_app fmap_app. Qed.

Lemma text_of_cons content l ls : text_of content (l :: ls) = leaf_text content l ++ text_of content ls.
Proof. unfold text_of. by rw cells_of_cons fmap_app. Qed.

Lemma length_text_of content ls : length (text_of content ls) = length (cells_of ls).
Proof. apply length_fmap. Qed.

Lemma lf_sum_counted content ls c :
  Forall (leaf_counted content) ls -> lf_sum ls = Some c -> c = count_newlines (text_of content ls).
Proof.
  revert c. induction ls as [|l ls IH]; intros c Hc; simpl.
  - by intros [= <-].
  - apply Forall_cons in Hc as [Hl Hls].
    intros (x & y & Hx & Hy & ->)%opt_add_Some.
    rw text_of_cons count_newlines_app -(IH y) // -(Hl x) //.
Qed.

Lemma lf_sum_is_Some ls :
  is_Some (lf_sum ls) <-> Forall (fun l => is_Some (l_line_feed_cnt l)) ls.
Proof.
  induction ls as [|l ls IH]; simpl.
  - split; [constructor | eauto].
  - rw Forall_cons -IH. unfold opt_add.
    destruct (l_line_feed_cnt l), (lf_sum ls); split; intros H; try (by destruct H as [? [=]]);
      try (by destruct H as [[? [=]] [? [=]]]); eauto; by destruct H as [[? ?] [? ?]].
Qed.

Lemma tree_inv_counted content buffers t :
  tree_inv content buffers t -> Forall (leaf_counted content) (node_leaves (root t)).
Proof. intros [_ H]. eapply Forall_impl; [exact H|]. by intros l [_ ?]. Qed.

Lemma tree_inv_bounded content buffers t :
  tree_inv content buffers t -> Forall (leaf_bounded buffers) (node_leaves (root t)).
Proof. intros [_ H]. eapply Forall_impl; [exact H|]. by intros l [? _]. Qed.

Lemma count_window_le s e d t : count_newlines (window s e d t) <= count_newlines t.
Proof.
  unfold window. rw (count_newlines_split (e - d) t) (count_newlines_split (s - d) (take (e - d) t)).
  lia.
Qed.

Lemma window_not_overlapping {A} s e d (l : LeafData) (t : list A) :
  length t = l_bytes l ->
  overlaps s e (mkPieceView (l_location l) (l_offset l) (l_bytes l) d (l_line_feed_cnt l)) = false ->
  window s e d t = [].
Proof.
  unfold overlaps, window. intros Hl [H|H]%andb_false_iff; apply bool_decide_eq_false in H; simpl in H.
  - replace (e - d) with 0 by lia. by rw take_0 drop_nil.
  - apply drop_ge. rw length_take. lia.
Qed.

Lemma window_line_feed_free content ls d s e :
  Forall (leaf_counted content) ls ->
  forallb (fun p => bool_decide (pv_line_feed_cnt p = Some 0))
    (List.filter (overlaps s e) (views ls d)) = true ->
  count_newlines (window s e d (text_of content ls)) = 0.
Proof.
  revert d. induction ls as [|l ls IH]; intros d Hc.
  { intros _. unfold text_of, cells_of, window. simpl. by rw take_nil drop_nil. }
  apply Forall_cons in Hc as [Hl Hls]. cbn [views List.filter]. intros Hf.
  rw text_of_cons window_app count_newlines_app.
  assert (length (leaf_text content l) = l_bytes l) as Hlen.
  { unfold leaf_text. by rw length_fmap length_leaf_cells. }
  rw Hlen. destruct (overlaps s e _) eqn:Ho in Hf.
  - simpl in Hf. apply andb_true_iff in Hf as [Hz Hf]. rw IH //.
    apply bool_decide_eq_true in Hz. apply Hl in Hz.
    pose proof (count_window_le s e d (leaf_text content l)). lia.
  - rw IH // (window_not_overlapping _ _ _ l) //.
Qed.

Lemma read_range_ok content buffers t offset n :
  buffers_agree content buffers -> tree_inv content buffers t ->
  (forall r, read_range t buffers offset n = Some r -> r = take n (drop offset (text content t)))
  /\ (Forall (leaf_loaded buffers) (node_leaves (root t)) ->
      read_range t buffers offset n = Some (take n (drop offset (text content t)))).
Proof.
  intros Hag Hinv. pose proof Hinv as [[Hwf _] _].
  unfold read_range. rw iter_pieces_eq //.
  destruct (read_pieces_ok content buffers Hag (node_leaves (root t)) 0 offset (offset + n) []
              (tree_inv_bounded _ _ _ Hinv)) as [H1 H2].
  rw window_0 in H1 H2. simpl app in H1, H2.
  unfold text, doc, node_cells. rw -fmap_drop -fmap_take.
  split; [|done]. intros r Hr. destruct H2 as [H2|H2]; congruence.
Qed.

(** ** Properties *)

(** [find_by_offset] answers exactly for the offsets of the document, with
    the piece whose bytes are there: the piece's location and start plus the
    offset in the piece is the cell of the document at that offset. *)
Theorem find_by_offset_locates content buffers t offset :
  tree_inv content buffers t ->
  match tree_find_by_offset t offset with
  | Some pi => exists k, pi_offset_in_piece pi = Some k /\ k < pi_bytes pi
      /\ doc t !! offset = Some (pi_location pi, pi_offset pi + k)
  | None => total_bytes t <= offset
  end.
Proof.
  intros [[Hwf Ht] _]. unfold tree_find_by_offset. case_decide; [done|].
  rw node_find_by_offset_eq //. unfold doc, node_cells in *.
  destruct (leaf_at_is_Some (node_leaves (root t)) offset) as [[l b] Hla]; [lia|].
  rw Hla /=. apply leaf_at_Some in Hla as (ls1 & ls2 & Hls & -> & ? & ?).
  exists (offset - length (cells_of ls1)). split_and!; [done|lia|].
  rw Hls -(doc_lookup_split ls1 l ls2); [lia|]. f_equal. lia.
Qed.

Lemma find_by_offset_locates_witness :
  match tree_find_by_offset two_piece_tree 3 with
  | Some pi => exists k, pi_offset_in_piece pi = Some k /\ k < pi_bytes pi
      /\ doc two_piece_tree !! 3 = Some (pi_location pi, pi_offset pi + k)
  | None => total_bytes two_piece_tree <= 3
  end.
Proof. apply (find_by_offset_locates (content_of two_piece_buffers) two_piece_buffers), two_piece_inv. Defined.

(** A range read that succeeds returns the bytes of the document in that
    range (as many as exist), and it succeeds whenever the pieces are loaded. *)
Theorem read_range_reads content buffers t offset n :
  buffers_agree content buffers -> tree_inv content buffers t ->
  (forall r, read_range t buffers offset n = Some r -> r = take n (drop offset (text content t)))
  /\ (Forall (leaf_loaded buffers) (node_leaves (root t)) ->
      read_range t buffers offset n = Some (take n (drop offset (text content t)))).
Proof. apply read_range_ok. Qed.

Lemma read_range_reads_witness :
  read_range two_piece_tree two_piece_buffers 1 3 = Some [x62; x63; x64].
Proof.
  apply (proj2 (read_range_reads (content_of two_piece_buffers) two_piece_buffers two_piece_tree 1 3 (content_of_agree _) two_piece_inv)).
  repeat apply Forall_cons_2; [unfold leaf_loaded; cbn; eauto..|apply Forall_nil_2].
Defined.

Lemma line_count_ok content buffers t :
  tree_inv content buffers t ->
  (is_Some (line_count t) <-> Forall (fun l => is_Some (l_line_feed_cnt l)) (node_leaves (root t)))
  /\ (forall n, line_count t = Some n -> n = count_newlines (text content t) + 1).
Proof.
  intros Hinv. pose proof Hinv as [[Hwf _] _]. unfold line_count.
  rw total_line_feeds_eq // fmap_is_Some lf_sum_is_Some. split; [done|].
  intros n (c & Hc & ->)%fmap_Some. 
  by rw (lf_sum_counted content _ _ (tree_inv_counted _ _ _ Hinv) Hc).
Qed.

(** When every piece's count is known, and only then, the tree has a line
    count, and it is one more than the number of newlines of the text. *)
Theorem line_count_counts content buffers t :
  tree_inv content buffers t ->
  (is_Some (line_count t) <-> Forall (fun l => is_Some (l_line_feed_cnt l)) (node_leaves (root t)))
  /\ (forall n, line_count t = Some n -> n = count_newlines (text content t) + 1).
Proof. apply line_count_ok. Qed.

Lemma line_count_counts_witness :
  is_Some (line_count two_piece_tree) /\ forall n, line_count two_piece_tree = Some n -> n = 2.
Proof.
  split; [apply (proj1 (line_count_counts (content_of two_piece_buffers) two_piece_buffers two_piece_tree two_piece_inv))
         |apply (proj2 (line_count_counts (content_of two_piece_buffers) two_piece_buffers two_piece_tree two_piece_inv))].
  repeat apply Forall_cons_2; [by eexists..|apply Forall_nil_2].
Defined.

(** A range reported free of line feeds holds no newline; unknown counts
    are never taken for zero. *)
Theorem range_line_feed_free_sound content buffers t s e :
  tree_inv content buffers t -> range_line_feed_free t s e = true ->
  count_newlines (take (e - s) (drop s (text content t))) = 0.
Proof.
  intros Hinv. pose proof Hinv as [[Hwf Ht] _]. unfold range_line_feed_free.
  case_decide as Hse.
  - intros _. destruct (decide (e <= s)); [by replace (e - s) with 0 by lia|].
    rw drop_ge; [unfold text; rw length_fmap; lia|]. by rw take_nil.
  - rw iter_pieces_eq // => Hf.
    apply (window_line_feed_free content _ _ _ _ (tree_inv_counted _ _ _ Hinv)) in Hf.
    rw -Hf. unfold window. rw !Nat.sub_0_r take_drop_commute. f_equal.
    replace (s + (e - s)) with e by lia. change (text_of content (node_leaves (root t))) with (text content t).
    f_equal. destruct (decide (e <= total_bytes t)); [f_equal; lia|].
    rw !take_ge //; unfold text; rw length_fmap; lia.
Qed.

Lemma range_line_feed_free_sound_witness :
  range_line_feed_free two_piece_tree 0 2 = true
  /\ count_newlines (take 2 (drop 0 (text (content_of two_piece_buffers) two_piece_tree))) = 0.
Proof.
  split; [reflexivity|].
  by apply (range_line_feed_free_sound (content_of two_piece_buffers) two_piece_buffers two_piece_tree 0 2); [apply two_piece_inv|].
Defined.
