(* ===== verification/PieceTreeLines.v ===== *)
(** * Piece tree: lines and positions

    Conversions between byte offsets and (line, column) positions, on trees
    whose pieces are loaded, indexed and counted, against the flat-text
    definitions of [TextSpec]. *)
From stdpp Require Import base numbers list option sorting.
From Stdlib Require Import ssreflect Strings.Byte.
From S2P Require Import Prelude TextSpec StringBuffer PieceTree PieceTreeInv PieceTreeEdit.
From S2P Require Import PieceTreeQuery.

(** The piece's buffer is loaded with a line index, and its count is known. *)
Definition leaf_indexed (buffers : list StringBuffer) (l : LeafData) : Prop :=
  is_Some (l_line_feed_cnt l) /\
  exists b d ls, buffers !! buffer_id (l_location l) = Some b /\ get_data b = Some d
    /\ get_line_starts b = Some ls /\ buffer_wf b.

(** An offset at a piece boundary. *)
Definition aligned (ls : list LeafData) (k : nat) : Prop :=
  exists a b, ls = a ++ b /\ length (cells_of a) = k.

(** The result of a line search in a text placed at [cur]: the start of line
    [k], unless it is the very end of the text, which may be left to the next
    piece. *)
Definition line_found (T : list byte) (cur k : nat) (r : option nat) : Prop :=
  match nth_line_start T k with
  | Some s => r = Some (cur + s) \/ (r = None /\ s = length T)
  | None => r = None
  end.

Lemma aligned_app_l ls ks k :
  aligned (ls ++ ks) k -> k <= length (cells_of ls) -> aligned ls k.
Proof.
  intros (a & b & Heq & Hk) Hle.
  apply app_eq_inv in Heq as [(c & -> & Hc) | (c & -> & Hc)].
  - by exists a, c.
  - rw cells_of_app length_app in Hk. exists ls, []. rw app_nil_r. split; [done|lia].
Qed.

Lemma aligned_app_r ls ks k :
  aligned (ls ++ ks) k -> length (cells_of ls) <= k -> aligned ks (k - length (cells_of ls)).
Proof.
  intros (a & b & Heq & Hk) Hle.
  apply app_eq_inv in Heq as [(c & -> & Hc) | (c & -> & Hc)].
  - rw cells_of_app length_app in Hle. exists [], ks. split; [done|].
    rw cells_of_app length_app. unfold cells_of at 1. simpl. lia.
  - rw cells_of_app length_app in Hk. exists c, b. split; [done|lia].
Qed.

Section lines.
Context (content : nat -> nat -> byte) (buffers : list StringBuffer).
Hypothesis Hagree : buffers_agree content buffers.

Local Abbreviation leaf_text := (leaf_text content).
Local Abbreviation text_of := (text_of content).
Local Abbreviation node_text := (node_text content).
Local Abbreviation text := (text content).
Local Abbreviation leaf_ok := (leaf_ok content buffers).

Lemma node_text_Internal lb lf l r : node_text (Internal lb lf l r) = node_text l ++ node_text r.
Proof. unfold node_text. by rw node_cells_Internal fmap_app. Qed.

Lemma node_text_Leaf loc off n c : node_text (Leaf loc off n c) = leaf_text (mkLeaf loc off n c).
Proof. unfold node_text. by rw node_cells_Leaf. Qed.

Lemma length_node_text n : length (node_text n) = length (node_cells n).
Proof. apply length_fmap. Qed.

Lemma length_leaf_text l : length (leaf_text l) = l_bytes l.
Proof. unfold leaf_text. by rw length_fmap length_leaf_cells. Qed.

Lemma known_lf_sum ls :
  Forall leaf_ok ls -> Forall (leaf_indexed buffers) ls ->
  lf_sum ls = Some (count_newlines (text_of ls)).
Proof.
  intros Hok Hix.
  assert (is_Some (lf_sum ls)) as [c Hc].
  { apply lf_sum_is_Some. eapply Forall_impl; [exact Hix|]. by intros l [? _]. }
  rw Hc. f_equal. eapply lf_sum_counted; [|done].
  eapply Forall_impl; [exact Hok|]. by intros l [_ ?].
Qed.

(** ** Finding the start of a line *)

(** A counted and indexed piece, unpacked. *)
Lemma leaf_indexed_inv loc off bytes c :
  leaf_ok (mkLeaf loc off bytes c) -> leaf_indexed buffers (mkLeaf loc off bytes c) ->
  exists b d ls, buffers !! buffer_id loc = Some b /\ get_data b = Some d
    /\ get_line_starts b = Some ls /\ buffer_wf b /\ off + bytes <= length d
    /\ take bytes (drop off d) = leaf_text (mkLeaf loc off bytes c)
    /\ c = Some (count_newlines (leaf_text (mkLeaf loc off bytes c))).
Proof.
  intros [Hbd Hct] [[n Hn] (b & d & ls & Hb & Hd & Hls & Hwf)]. simpl in *. subst c.
  pose proof (leaf_bounded_data _ _ _ _ Hbd Hb Hd) as Hlen. exists b, d, ls. split_and!; try done.
  - apply (data_slice_text content buffers Hagree loc off bytes (Some n) b d Hb Hd Hlen).
  - f_equal. by apply Hct.
Qed.

Lemma line_offset_in_leaf_ok loc off bytes c cur lb target :
  leaf_ok (mkLeaf loc off bytes c) -> leaf_indexed buffers (mkLeaf loc off bytes c) ->
  lb <= target ->
  let T := leaf_text (mkLeaf loc off bytes c) in
  (target = lb \/ forall s, nth_line_start T (target - lb) = Some s -> s < bytes) ->
  exists r, line_offset_in_leaf loc off bytes (lb + count_newlines T) cur lb target 0 buffers = Ok r
    /\ line_found T cur (target - lb) r.
Proof.
  intros Hok Hix Hle T Hend. unfold line_offset_in_leaf, line_found.
  destruct (leaf_indexed_inv _ _ _ _ Hok Hix) as (b & d & ls & Hb & Hd & Hls & Hwf & Hbd & Ht & _).
  case_decide as Hout.
  - exists None. split; [done|]. destruct (nth_line_start T (target - lb)) eqn:E; [|done].
    apply mk_is_Some, nth_line_start_is_Some in E. lia.
  - rw Hb (nth_line_start_in_piece_correct b d ls); [done..|lia|lia|].
    replace (off + bytes - off) with bytes by lia. rw Ht -/T.
    destruct (nth_line_start T (target - lb)) as [s|] eqn:E; [|by exists None].
    destruct (nth_line_start_spec _ _ _ E) as [Hs _]. unfold T in Hs. rw length_leaf_text /= in Hs.
    rw decide_True; [destruct Hend as [->|Hend]; [left; lia | right; specialize (Hend s eq_refl); lia]|].
    eexists; split; [done|]. left. do 2 f_equal. lia.
Qed.

Lemma find_line_Leaf loc off bytes c cur lb target :
  leaf_ok (mkLeaf loc off bytes c) -> leaf_indexed buffers (mkLeaf loc off bytes c) ->
  lb <= target ->
  exists r, find_byte_offset_for_line (Leaf loc off bytes c) cur lb target 0 buffers = Ok r
    /\ line_found (leaf_text (mkLeaf loc off bytes c)) cur (target - lb) r.
Proof.
  intros Hok Hix Hle.
  pose proof (line_offset_in_leaf_ok loc off bytes c cur lb target Hok Hix Hle) as Htail.
  destruct (leaf_indexed_inv _ _ _ _ Hok Hix)
    as (b & d & ls & Hb & Hd & Hls & Hwf & Hbd & Ht & Hcnt).
  pose proof (length_leaf_text (mkLeaf loc off bytes c)) as HlenT. simpl in HlenT.
  cbv zeta in Htail. cbn [find_byte_offset_for_line]. 
  set (T := leaf_text (mkLeaf loc off bytes c)) in *. clearbody T. subst c.
  pose proof (count_newlines_le_length T).
  destruct (decide (0 = 0 /\ target = lb + count_newlines T /\ lb < target)) as [Hsp|Hsp].
  - rw Hb Hd usub_Ok; [lia|]. simpl.
    destruct (lookup_lt_is_Some_2 d (off + bytes - 1)) as [lst Hlst]; [lia|]. rw Hlst.
    assert (T !! (bytes - 1) = Some lst) as HlastT.
    { rw -Ht lookup_take_lt; [lia|]. rw lookup_drop.
      by replace (off + (bytes - 1)) with (off + bytes - 1) by lia. }
    destruct (is_nl lst) eqn:Enl.
    + exists None. split; [done|]. unfold line_found.
      pose proof (nth_line_start_after_nl T _ _ HlastT Enl) as Hs.
      destruct (nth_line_start_spec _ _ _ Hs) as [_ Hc].
      replace (S (bytes - 1)) with bytes in * by lia. rw take_ge in Hc; [lia|].
      replace (target - lb) with (S (line_of T (bytes - 1))) by lia. rw Hs. right. by rw HlenT.
    + apply Htail. right. intros s Hs.
      destruct (nth_line_start_spec _ _ _ Hs) as [Hle' _].
      replace (target - lb) with (S (target - lb - 1)) in Hs by lia.
      destruct (nth_line_start_prev_nl _ _ _ Hs) as (x & Hx & Hxn).
      destruct (decide (s = bytes)) as [->|]; [congruence|lia].
  - apply Htail. destruct (decide (target = lb)); [by left|right]. intros s Hs.
    destruct (nth_line_start_spec _ _ _ Hs) as [Hle' Hc].
    apply mk_is_Some, nth_line_start_is_Some in Hs.
    destruct (decide (s = length T)) as [->|]; [|lia]. rw take_ge // in Hc. lia.
Qed.

Lemma find_line_ok n cur lb target :
  node_wf n -> Forall leaf_ok (node_leaves n) -> Forall (leaf_indexed buffers) (node_leaves n) ->
  lb <= target ->
  exists r, find_byte_offset_for_line n cur lb target 0 buffers = Ok r
    /\ line_found (node_text n) cur (target - lb) r.
Proof.
  revert cur lb. induction n as [lbs lf l IHl r IHr|loc off bytes c]; intros cur lb Hwf Hok Hix Hle.
  2: { rw node_text_Leaf. simpl in Hok, Hix. rw Forall_singleton in Hok.
       rw Forall_singleton in Hix. by apply find_line_Leaf. }
  destruct Hwf as (-> & -> & Hl & Hr). simpl in Hok, Hix.
  apply Forall_app in Hok as [Hokl Hokr]. apply Forall_app in Hix as [Hixl Hixr].
  cbn [find_byte_offset_for_line]. rw known_lf_sum //.
  change (text_of (node_leaves l)) with (node_text l). rw node_text_Internal.
  set (nl := count_newlines (node_text l)).
  rw -length_node_text. simpl (decide (0 = 0)). cbn iota.
  destruct (decide (target <= lb + nl)) as [Hgo|Hgo];
    [rw bool_decide_eq_true_2 // | rw bool_decide_eq_false_2 //].
  - destruct (IHl cur lb Hl Hokl Hixl Hle) as (rl & -> & Hfl). simpl.
    unfold line_found in Hfl |- *. rw nth_line_start_app_l; [unfold nl in *; lia|].
    destruct (nth_line_start (node_text l) (target - lb)) as [s|] eqn:Es.
    2: { apply eq_None_not_Some in Es. rw nth_line_start_is_Some in Es. unfold nl in *. lia. }
    destruct Hfl as [-> | [-> ->]]; [eauto|].
    destruct (nth_line_start_spec _ _ _ Es) as [_ Hcnt]. rw take_ge // in Hcnt.
    destruct (IHr (cur + length (node_text l)) (lb + nl)) as (rr & -> & Hfr); [done..|lia|].
    eexists; split; [done|]. unfold line_found in Hfr.
    replace (target - (lb + nl)) with 0 in Hfr by lia.
    replace (nth_line_start (node_text r) 0) with (Some 0) in Hfr by (by destruct (node_text r)).
    rw length_app. destruct Hfr as [-> | [-> Hz]]; [left; f_equal; lia | right; split; [done|lia]].
  - destruct (IHr (cur + length (node_text l)) (lb + nl)) as (rr & -> & Hfr); [done..|lia|].
    eexists; split; [done|]. unfold line_found in Hfr |- *.
    rw nth_line_start_app_r; [unfold nl in *; lia|].
    replace (target - lb - count_newlines (node_text l)) with (target - (lb + nl))
      by (unfold nl; lia).
    destruct (nth_line_start (node_text r) _) as [s|]; simpl; [|done].
    rw length_app. destruct Hfr as [-> | [-> Hz]]; [left; f_equal; lia | right; split; [done|lia]].
Qed.
Lemma position_to_offset_ok t line :
  tree_inv content buffers t -> Forall (leaf_indexed buffers) (node_leaves (root t)) ->
  position_to_offset t line 0 buffers
  = Ok (default (total_bytes t) (nth_line_start (text t) line)).
Proof.
  intros [[Hwf Ht] Hok] Hix. unfold position_to_offset, find_offset_for_line.
  case_decide as Hz.
  { destruct Hz as [-> _]. by destruct (text t). }
  destruct (find_line_ok (root t) 0 0 line) as (r & -> & Hr); [done..|lia|]. simpl.
  unfold line_found in Hr. rw Nat.sub_0_r in Hr.
  change (node_text (root t)) with (text t) in Hr.
  destruct (nth_line_start (text t) line) as [s|]; [|by subst r].
  destruct Hr as [-> | [-> ->]]; [done|]. simpl. f_equal. rw Ht. unfold text. by rw length_fmap.
Qed.

(** ** Counting newlines up to a piece boundary *)
Lemma count_lines_Leaf loc off bytes c cur e :
  leaf_ok (mkLeaf loc off bytes c) -> leaf_indexed buffers (mkLeaf loc off bytes c) ->
  e <= cur \/ cur + bytes <= e \/ aligned [mkLeaf loc off bytes c] (e - cur) ->
  count_lines_in_byte_range (Leaf loc off bytes c) cur 0 e
  = Some (count_newlines (take (e - cur) (leaf_text (mkLeaf loc off bytes c)))).
Proof.
  intros Hok Hix Hal.
  destruct (leaf_indexed_inv _ _ _ _ Hok Hix) as (_ & _ & _ & _ & _ & _ & _ & _ & _ & Hc).
  cbn [count_lines_in_byte_range]. case_decide as H1.
  - destruct (decide (e <= cur)); [by replace (e - cur) with 0 by lia|].
    assert (length (leaf_text (mkLeaf loc off bytes c)) = 0) as Hz.
    { rw length_leaf_text /=. lia. }
    apply length_zero_iff_nil in Hz. by rw Hz take_nil.
  - assert (bytes <= e - cur).
    { destruct Hal as [|[|(a & a' & Ha & Hk)]]; [lia..|].
      destruct a as [|x a]; simpl in Ha; simplify_eq; [unfold cells_of in Hk; simpl in Hk; lia|].
      rw cells_of_cons length_app length_leaf_cells /= in Hk. lia. }
    rw take_ge ?length_leaf_text //. rw -Hc. by case_decide.
Qed.

Lemma count_lines_ok n cur e :
  node_wf n -> Forall leaf_ok (node_leaves n) -> Forall (leaf_indexed buffers) (node_leaves n) ->
  e <= cur \/ cur + length (node_cells n) <= e \/ aligned (node_leaves n) (e - cur) ->
  count_lines_in_byte_range n cur 0 e = Some (count_newlines (take (e - cur) (node_text n))).
Proof.
  revert cur. induction n as [lbs lf l IHl r IHr|loc off bytes c]; intros cur Hwf Hok Hix Hal.
  - pose proof (total_line_feeds_eq _ Hwf) as Hlf. rw known_lf_sum // in Hlf.
    pose proof (node_total_bytes_eq _ Hwf) as Htb.
    pose proof Hwf as (-> & _ & Hl & Hr). pose proof Hok as Hok'. pose proof Hix as Hix'.
    simpl in Hok', Hix'.
    apply Forall_app in Hok' as [Hokl Hokr]. apply Forall_app in Hix' as [Hixl Hixr].
    cbn [count_lines_in_byte_range]. rw Htb Hlf. rw node_cells_Internal length_app in Htb Hal |- *.
    change (text_of (node_leaves (Internal (length (node_cells l)) lf l r)))
      with (node_text (Internal (length (node_cells l)) lf l r)).
    rw node_text_Internal. cbn [node_leaves] in Hal.
    case_decide as H1; [|case_decide as H2; [|case_decide as H3; [|case_decide as H4]]].
    + destruct (decide (e <= cur)); [by replace (e - cur) with 0 by lia|].
      assert (length (node_text l ++ node_text r) = 0) as Hz.
      { rw length_app !length_node_text. lia. }
      apply length_zero_iff_nil in Hz. by rw Hz take_nil.
    + rw take_ge //. rw length_app !length_node_text. lia.
    + rw IHl //.
      * destruct Hal as [|[|Hal]]; [lia..|]. right; right.
        eapply aligned_app_l; [exact Hal|]. unfold node_cells in *. lia.
      * rw take_app_le // length_node_text. lia.
    + assert (node_text l = []) as Hz.
      { apply length_zero_iff_nil. rw length_node_text. lia. }
      rw Hz. rw IHr //.
      * destruct Hal as [|[|Hal]]; [lia..|]. right; right.
        rw Nat.sub_add_distr. eapply aligned_app_r; [exact Hal|]. unfold node_cells in *. lia.
      * simpl. do 3 f_equal. lia.
    + rw IHl // ?IHr //; [right; left; lia| |].
      * destruct Hal as [|[|Hal]]; [lia..|]. right; right.
        rw Nat.sub_add_distr. eapply aligned_app_r; [exact Hal|]. unfold node_cells in *. lia.
      * simpl. rw take_app count_newlines_app length_node_text. do 4 f_equal. lia.
  - simpl in Hok, Hix. rw Forall_singleton in Hok. rw Forall_singleton in Hix.
    rw node_text_Leaf. rw node_cells_Leaf length_leaf_cells in Hal. by apply count_lines_Leaf.
Qed.
(** ** Positions *)

(** Line and column of the [k]-th byte of a piece that follows the text [T1]. *)
Lemma position_of_piece T1 L T2 k :
  k < length L ->
  position_of (T1 ++ L ++ T2) (length T1 + k)
  = (count_newlines T1 + line_of L k,
     if decide (line_of L k = 0)
     then length T1 + k - default 0 (nth_line_start (T1 ++ L ++ T2) (count_newlines T1))
     else k - default 0 (nth_line_start L (line_of L k))).
Proof.
  intros Hk. unfold position_of.
  assert (line_of (T1 ++ L ++ T2) (length T1 + k) = count_newlines T1 + line_of L k) as Hline.
  { unfold line_of. rw take_app_ge; [lia|].
    replace (length T1 + k - length T1) with k by lia.
    rw take_app_le; [lia|]. by rw count_newlines_app. }
  rw Hline. f_equal. case_decide as Hz; [by rw Hz Nat.add_0_r|].
  rw nth_line_start_app_r; [lia|].
  replace (count_newlines T1 + line_of L k - count_newlines T1) with (line_of L k) by lia.
  assert (line_of L k <= count_newlines L) as Hle.
  { unfold line_of. rw (count_newlines_split k L). lia. }
  rw nth_line_start_app_l //. apply nth_line_start_is_Some in Hle as [s Hs]. rw Hs /=. lia.
Qed.

(** The same computed from the buffer of the piece, as the code does. *)
Lemma line_in_piece_ok loc off bytes c b d ls k :
  get_data b = Some d -> get_line_starts b = Some ls -> buffer_wf b -> off + bytes <= length d ->
  take bytes (drop off d) = leaf_text (mkLeaf loc off bytes c) -> k < bytes ->
  usub (line_index ls (off + k)) (line_index ls off)
  = Ok (line_of (leaf_text (mkLeaf loc off bytes c)) k).
Proof.
  intros Hd Hls Hwf Hbd Ht Hk. rw (Hwf _ _ Hls Hd) !line_index_correct -Ht.
  assert (line_of d (off + k) = line_of d off + line_of (take bytes (drop off d)) k) as ->.
  { unfold line_of. rw take_take Nat.min_l; [lia|]. by rw -count_newlines_app take_take_drop. }
  rw usub_Ok; [lia|]. f_equal. lia.
Qed.

Lemma count_lines_before_ok t ls1 ls2 :
  tree_inv content buffers t -> Forall (leaf_indexed buffers) (node_leaves (root t)) ->
  node_leaves (root t) = ls1 ++ ls2 ->
  count_lines_before_offset t (length (cells_of ls1)) = Some (count_newlines (text_of ls1)).
Proof.
  intros [[Hwf Ht] Hok] Hix Hls. unfold count_lines_before_offset, count_lines_in_range.
  case_decide as Hz.
  - assert (length (text_of ls1) = 0) as E by (rw length_text_of; lia).
    apply length_zero_iff_nil in E. by rw E.
  - rw count_lines_ok //; [right; right; exists ls1, ls2; split; [done|lia]|].
    rw Nat.sub_0_r. unfold node_text, node_cells. rw Hls cells_of_app fmap_app.
    by rw take_app_le ?length_fmap // take_ge ?length_fmap.
Qed.

(** The column, computed from the piece's buffer. *)
Lemma line_start_in_piece_ok loc off bytes c b d ls k :
  get_data b = Some d -> get_line_starts b = Some ls -> buffer_wf b -> off + bytes <= length d ->
  take bytes (drop off d) = leaf_text (mkLeaf loc off bytes c) -> k < bytes ->
  let L := leaf_text (mkLeaf loc off bytes c) in
  line_of L k <> 0 ->
  exists s, nth_line_start L (line_of L k) = Some s /\ s <= k
    /\ nth_line_start_in_piece b off (off + bytes) (line_of L k) = Some (off + s).
Proof.
  intros Hd Hls Hwf Hbd Ht Hk L Hnz.
  assert (line_of L k <= count_newlines L) as Hle.
  { unfold line_of. rw (count_newlines_split k L). lia. }
  apply nth_line_start_is_Some in Hle as [s Hs]. exists s.
  pose proof (nth_line_start_line_of _ _ _ Hs). split_and!; [done..|].
  rw (nth_line_start_in_piece_correct b d ls) //; [lia|].
  replace (off + bytes - off) with bytes by lia. rw Ht -/L Hs.
  rw decide_True; [right; lia | done].
Qed.

Lemma indexed_position_ok t ls1 ls2 loc off bytes c k b ls :
  tree_inv content buffers t -> Forall (leaf_indexed buffers) (node_leaves (root t)) ->
  node_leaves (root t) = ls1 ++ mkLeaf loc off bytes c :: ls2 -> k < bytes ->
  buffers !! buffer_id loc = Some b -> get_line_starts b = Some ls ->
  let o := length (cells_of ls1) + k in
  indexed_position t o (mkPieceInfo loc off bytes (Some k) c) (length (cells_of ls1))
    (count_newlines (text_of ls1)) k b ls buffers
  = Ok (Some (position_of (text t) o)).
Proof.
  intros Hinv Hix Hls Hk Hb Hlst. cbv zeta. pose proof Hinv as [_ Hok].
  pose proof Hix as Hix'. rw Hls Forall_app Forall_cons in Hok. rw Hls Forall_app Forall_cons in Hix'.
  destruct Hok as (_ & Hokl & _), Hix' as (_ & Hixl & _).
  destruct (leaf_indexed_inv _ _ _ _ Hokl Hixl)
    as (b' & d & ls' & Hb' & Hd & Hlst' & Hbwf & Hbd & Hsl & _). simplify_eq.
  assert (text t = text_of ls1 ++ leaf_text (mkLeaf loc off bytes c) ++ text_of ls2) as Htxt.
  { unfold text, doc, node_cells. by rw Hls cells_of_app cells_of_cons !fmap_app. }
  unfold indexed_position. cbn [pi_offset pi_bytes].
  rw (line_in_piece_ok loc off bytes c b d ls k) //. cbn [mbind res_bind].
  rw -(length_text_of content).
  pose proof (position_of_piece (text_of ls1) (leaf_text (mkLeaf loc off bytes c))
                (text_of ls2) k) as Hpos.
  rw -Htxt length_leaf_text in Hpos. rw Hpos //.
  set (L := leaf_text (mkLeaf loc off bytes c)).
  destruct (decide (line_of L k = 0)) as [Hz|Hz].
  - rw Hz Nat.add_0_r position_to_offset_ok //. cbn [mbind res_bind].
    destruct (decide (0 = 0 /\ length (text_of ls1) = 0)) as [[_ Hz1]|Hz1]; cbn.
    + rw Hz1. apply length_zero_iff_nil in Hz1. rw Hz1.
      change (count_newlines []) with 0. do 3 f_equal. destruct (text t); simpl; lia.
    + assert (count_newlines (text_of ls1) <= count_newlines (text t)) as Hle.
      { rw Htxt !count_newlines_app. lia. }
      by apply nth_line_start_is_Some in Hle as [s ->].
  - rw decide_False; [by intros [? _]|].
    destruct (line_start_in_piece_ok loc off bytes c b d ls k) as (s & Hs & Hsk & Hn); [done..|].
    fold L in Hs, Hn. rw Hs Hn. cbn [default from_option id].
    rw usub_Ok; [lia|]. cbn [mbind res_bind]. rw usub_Ok; [lia|]. cbn [mbind res_bind].
    do 3 f_equal. lia.
Qed.

Lemma offset_to_position_ok t offset :
  tree_inv content buffers t -> Forall (leaf_indexed buffers) (node_leaves (root t)) ->
  offset_to_position t offset buffers
  = Ok (Some (position_of (text t) (Nat.min offset (total_bytes t)))).
Proof.
  intros Hinv Hix. pose proof Hinv as [[Hwf Ht] Hok]. unfold offset_to_position.
  assert (length (text t) = total_bytes t) as HlenT by (unfold text; by rw length_fmap Ht).
  case_decide as H0; [subst; by destruct (text t)|].
  cbv zeta. set (o := Nat.min offset (total_bytes t)). rw node_find_by_offset_eq //.
  destruct (leaf_at (node_leaves (root t)) o) as [[l b]|] eqn:Hla;
    cbn [fmap option_fmap option_map info bytes_before pi_location pi_offset pi_bytes
         pi_offset_in_piece default from_option id].
  - apply leaf_at_Some in Hla as (ls1 & ls2 & Hls & -> & Hb1 & Hb2).
    rw (count_lines_before_ok t ls1 (l :: ls2)) //.
    destruct l as [loc off bytes c]. cbn [l_location l_offset l_bytes l_line_feed_cnt] in *.
    assert (leaf_indexed buffers (mkLeaf loc off bytes c)) as (_ & b & d & ls & Hb & _ & Hlst & _).
    { rw Hls Forall_app Forall_cons in Hix. apply Hix. }
    simpl in Hb. rw Hb Hlst.
    assert (o = length (cells_of ls1) + (o - length (cells_of ls1))) as -> by lia.
    replace (length (cells_of ls1) + (o - length (cells_of ls1)) - length (cells_of ls1))
      with (o - length (cells_of ls1)) by lia.
    apply (indexed_position_ok t ls1 ls2); done || lia.
  - assert (total_bytes t <= o) as Hto.
    { destruct (decide (o < total_bytes t)); [|lia].
      destruct (leaf_at_is_Some (node_leaves (root t)) o) as [? E];
        [unfold doc, node_cells in Ht; lia | congruence]. }
    rw decide_True //. unfold line_count. rw total_line_feeds_eq // known_lf_sum //=.
    change (text_of (node_leaves (root t))) with (text t).
    rw Nat.add_sub position_to_offset_ok //=. do 2 f_equal. unfold position_of.
    assert (line_of (text t) o = count_newlines (text t)) as ->.
    { unfold line_of. rw take_ge //. lia. }
    destruct (proj2 (nth_line_start_is_Some (text t) (count_newlines (text t)))) as [s Hs]; [done|].
    rw Hs /=. f_equal. lia.
Qed.
End lines.

(** Decides [leaf_indexed] up to the correctness of the index. *)
Definition leaf_indexed_b (buffers : list StringBuffer) (l : LeafData) : bool :=
  match l_line_feed_cnt l, buffers !! buffer_id (l_location l) with
  | Some _, Some b =>
      match get_data b, get_line_starts b with
      | Some d, Some ls => bool_decide (ls = compute_line_starts d)
      | _, _ => false
      end
  | _, _ => false
  end.

Lemma leaf_indexed_b_sound buffers ls :
  forallb (leaf_indexed_b buffers) ls = true -> Forall (leaf_indexed buffers) ls.
Proof.
  rw forallb_forall. intros H. apply Forall_forall. intros l Hl%list_elem_of_In.
  specialize (H l Hl). unfold leaf_indexed_b in H. unfold leaf_indexed.
  destruct (l_line_feed_cnt l); [|done]. destruct (buffers !! _) as [b|]; [|done].
  destruct (get_data b) as [d|] eqn:Hd; [|done].
  destruct (get_line_starts b) as [ls'|] eqn:Hls; [|done]. apply bool_decide_eq_true in H.
  split; [done|]. exists b, d, ls'. split_and!; try done.
  intros ls'' d' ? ?. by simplify_eq.
Qed.

(** ** Properties *)

(** C33: on a tree whose pieces are loaded and indexed, [offset_to_position]
    never panics and gives the line and byte column of the offset in the text,
    wherever the pieces are cut; an offset past the end counts as the end. *)
Theorem offset_to_position_correct content buffers t offset :
  buffers_agree content buffers -> tree_inv content buffers t ->
  Forall (leaf_indexed buffers) (node_leaves (root t)) ->
  offset_to_position t offset buffers
  = Ok (Some (position_of (text content t) (Nat.min offset (total_bytes t)))).
Proof. intros. by apply offset_to_position_ok. Qed.

Lemma offset_to_position_correct_witness :
  offset_to_position two_piece_tree 5 two_piece_buffers = Ok (Some (1, 0)).
Proof.
  apply (offset_to_position_correct (content_of two_piece_buffers) two_piece_buffers two_piece_tree 5).
  - apply content_of_agree.
  - apply two_piece_inv.
  - by apply leaf_indexed_b_sound.
Defined.

(** [position_to_offset] of column 0 is the start of the line, and the end
    of the document for a line that does not exist. *)
Theorem position_to_offset_line_start content buffers t line :
  buffers_agree content buffers -> tree_inv content buffers t ->
  Forall (leaf_indexed buffers) (node_leaves (root t)) ->
  position_to_offset t line 0 buffers
  = Ok (default (length (text content t)) (nth_line_start (text content t) line)).
Proof.
  intros ? Hinv ?. rw (position_to_offset_ok content) //.
  destruct Hinv as [[_ ->] _]. unfold text. by rw length_fmap.
Qed.

Lemma position_to_offset_line_start_witness :
  position_to_offset two_piece_tree 1 0 two_piece_buffers = Ok 5.
Proof.
  apply (position_to_offset_line_start (content_of two_piece_buffers) two_piece_buffers two_piece_tree 1).
  - apply content_of_agree.
  - apply two_piece_inv.
  - by apply leaf_indexed_b_sound.
Defined.

(** Converting an offset to a position and back, through the start of its
    line, is the identity on the offsets of the document. *)
Theorem offset_position_roundtrip content buffers t offset :
  buffers_agree content buffers -> tree_inv content buffers t ->
  Forall (leaf_indexed buffers) (node_leaves (root t)) ->
  offset <= total_bytes t ->
  exists line column start,
    offset_to_position t offset buffers = Ok (Some (line, column))
    /\ position_to_offset t line 0 buffers = Ok start /\ start + column = offset.
Proof.
  intros ? Hinv ? Hoff. rw (offset_to_position_ok content) // Nat.min_l //.
  unfold position_of. eexists _, _, _. split; [done|]. rw (position_to_offset_ok content) //.
  split; [done|].
  destruct (proj2 (nth_line_start_is_Some (text content t) (line_of (text content t) offset)))
    as [s Hs].
  { unfold line_of. rw (count_newlines_split offset (text content t)). lia. }
  pose proof (nth_line_start_line_of _ _ _ Hs). rw Hs /=. lia.
Qed.

Lemma offset_position_roundtrip_witness :
  exists line column start,
    offset_to_position two_piece_tree 3 two_piece_buffers = Ok (Some (line, column))
    /\ position_to_offset two_piece_tree line 0 two_piece_buffers = Ok start /\ start + column = 3.
Proof.
  apply (offset_position_roundtrip (content_of two_piece_buffers) two_piece_buffers two_piece_tree 3).
  - apply content_of_agree.
  - apply two_piece_inv.
  - by apply leaf_indexed_b_sound.
  - cbn. lia.
Defined.

(** [line_range] answers for the lines of the document only, with the start
    of the line and the start of the next one ([None] for the last line). *)
Theorem line_range_correct content buffers t line :
  buffers_agree content buffers -> tree_inv content buffers t ->
  Forall (leaf_indexed buffers) (node_leaves (root t)) ->
  line_range t line buffers =
  Ok ((fun start => (start, nth_line_start (text content t) (line + 1)))
      <$> nth_line_start (text content t) line).
Proof.
  intros ? Hinv ?. pose proof Hinv as [[Hwf _] Hok]. unfold line_range, line_count.
  rw total_line_feeds_eq // (known_lf_sum content buffers) //=.
  change (text_of content (node_leaves (root t))) with (text content t).
  set (T := text content t).
  case_decide as Hl.
  - assert (nth_line_start T line = None) as ->; [|done].
    apply eq_None_not_Some. rw nth_line_start_is_Some. lia.
  - rw (position_to_offset_ok content) //=.
    destruct (proj2 (nth_line_start_is_Some T line)) as [s Hs]; [lia|]. rw Hs /=.
    case_decide as Hn.
    + rw (position_to_offset_ok content) //=.
      destruct (proj2 (nth_line_start_is_Some T (line + 1))) as [s' Hs']; [lia|].
      by rw -/T Hs Hs'.
    + rw (position_to_offset_ok content) // -/T Hs /=. assert (nth_line_start T (line + 1) = None) as ->; [|done].
      apply eq_None_not_Some. rw nth_line_start_is_Some. lia.
Qed.

Lemma line_range_correct_witness :
  line_range two_piece_tree 0 two_piece_buffers = Ok (Some (0, Some 5)).
Proof.
  apply (line_range_correct (content_of two_piece_buffers) two_piece_buffers two_piece_tree 0).
  - apply content_of_agree.
  - apply two_piece_inv.
  - by apply leaf_indexed_b_sound.
Defined.

(** [position_to_offset] with a nonzero column counts the column from the
    start of the last piece of the line, not from the start of the line: in
    "abcd\n" stored as "ab" and "cd\n", the byte at offset 3 has position
    (0, 3), which converts back to offset 5. *)
Theorem position_to_offset_column_error :
  let content := content_of two_piece_buffers in
  tree_inv content two_piece_buffers two_piece_tree
  /\ Forall (leaf_indexed two_piece_buffers) (node_leaves (root two_piece_tree))
  /\ offset_to_position two_piece_tree 3 two_piece_buffers = Ok (Some (0, 3))
  /\ position_to_offset two_piece_tree 0 3 two_piece_buffers = Ok 5.
Proof.
  cbv zeta. split_and!; [by apply tree_inv_b_sound | by apply leaf_indexed_b_sound | done..].
Qed.
