(* ===== verification/PieceTreeMeta.v ===== *)
(** * Piece tree: splitting, metadata updates, buffer references

    Operations that change how the document is cut into pieces, or what is known
    about the pieces, and never what the document is. *)
From stdpp Require Import base numbers list option sorting.
From Stdlib Require Import ssreflect Strings.Byte.
From S2P Require Import Prelude TextSpec StringBuffer PieceTree PieceTreeInv PieceTreeEdit.
From S2P Require Import PieceTreeQuery PieceTreeLines.

(** ** Splitting at an offset *)
Section split.
Context (content : nat -> nat -> byte) (buffers : list StringBuffer).
Hypothesis Hagree : buffers_agree content buffers.
Local Abbreviation leaf_ok := (leaf_ok content buffers).

Lemma collect_split_Leaf loc off bytes c cur pos acc :
  leaf_ok (mkLeaf loc off bytes c) ->
  exists ls, collect_leaves_with_split (Leaf loc off bytes c) cur pos None acc buffers
             = Ok (acc ++ ls)
    /\ Forall leaf_ok ls /\ cells_of ls = leaf_cells (mkLeaf loc off bytes c) /\ ls <> []
    /\ (cur <= pos <= cur + bytes -> aligned ls (pos - cur)).
Proof.
  intros Hok. pose proof Hok as [Hb _]. cbn [collect_leaves_with_split].
  assert (forall k, k = 0 \/ k = bytes -> aligned [mkLeaf loc off bytes c] k) as Hwhole.
  { intros k [-> | ->]; [by exists [], [mkLeaf loc off bytes c]|].
    exists [mkLeaf loc off bytes c], []. rw cells_of_cons length_app length_leaf_cells.
    split; [done|]. simpl. lia. }
  case_decide as H1.
  - rw !decide_True; [lia..|].
    destruct (compute_line_feeds_ok content buffers Hagree loc off (pos - cur)) as (r1 & -> & Hr1).
    { eapply leaf_bounded_sub; [exact Hb|lia..]. }
    cbn [mbind res_bind].
    destruct (compute_line_feeds_ok content buffers Hagree loc (off + (pos - cur))
                (bytes - (pos - cur))) as (r2 & -> & Hr2).
    { eapply leaf_bounded_sub; [exact Hb|lia..]. }
    cbn [mbind res_bind app]. eexists; split; [done|]. split; [by solve_Forall|]. split; [|split; [done|]].
    + rw !cells_of_cons app_nil_r -(leaf_cells_split loc off _ _ c).
      by replace (pos - cur + (bytes - (pos - cur))) with bytes by lia.
    + intros _. eexists [_], [_]. split; [done|]. rw cells_of_cons length_app length_leaf_cells /=. lia.
  - assert (exists ls, Ok (acc ++ [mkLeaf loc off bytes c]) = Ok (acc ++ ls) /\ Forall leaf_ok ls
      /\ cells_of ls = leaf_cells (mkLeaf loc off bytes c) /\ ls <> []
      /\ (cur <= pos <= cur + bytes -> aligned ls (pos - cur))) as Hres.
    { eexists; split; [done|]. split; [by solve_Forall|]. split; [|split; [done|]].
      - rw cells_of_cons. by rw app_nil_r.
      - intros. apply Hwhole. lia. }
    by case_decide.
Qed.

Lemma aligned_app ls ks k :
  aligned ls k -> k <= length (cells_of ls) -> aligned (ls ++ ks) k.
Proof. intros (a & b & -> & Hk) _. exists a, (b ++ ks). by rw app_assoc. Qed.

Lemma aligned_app_shift ls ks k :
  aligned ks k -> aligned (ls ++ ks) (length (cells_of ls) + k).
Proof.
  intros (a & b & -> & Hk). exists (ls ++ a), b. rw app_assoc cells_of_app length_app. auto.
Qed.

Lemma collect_split_ok n cur pos acc :
  node_wf n -> Forall leaf_ok (node_leaves n) ->
  exists ls, collect_leaves_with_split n cur pos None acc buffers = Ok (acc ++ ls)
    /\ Forall leaf_ok ls /\ cells_of ls = node_cells n /\ ls <> []
    /\ (cur <= pos <= cur + length (node_cells n) -> aligned ls (pos - cur)).
Proof.
  revert cur acc. induction n as [lb lf l IHl r IHr|loc off bytes c]; intros cur acc Hwf Hok.
  2: { rw node_cells_Leaf length_leaf_cells. simpl in Hok. rw Forall_singleton in Hok.
       by apply collect_split_Leaf. }
  destruct Hwf as (-> & -> & Hl & Hr). simpl in Hok. apply Forall_app in Hok as [Hokl Hokr].
  cbn [collect_leaves_with_split]. rw node_cells_Internal length_app.
  destruct (IHl cur acc) as (ls1 & H1 & ? & Hc1 & Hn1 & Ha1); [done..|].
  destruct (IHr (cur + length (node_cells l)) (acc ++ ls1)) as (ls2 & H2 & ? & Hc2 & Hn2 & Ha2);
    [done..|].
  rw H1. cbn [mbind res_bind]. rw H2 -app_assoc.
  assert (exists ls, Ok (acc ++ ls1 ++ ls2) = Ok (acc ++ ls) /\ Forall leaf_ok ls
    /\ cells_of ls = node_cells l ++ node_cells r /\ ls <> []
    /\ (cur <= pos <= cur + (length (node_cells l) + length (node_cells r)) ->
        aligned ls (pos - cur))) as Hres.
  { exists (ls1 ++ ls2). split; [done|]. split; [by apply Forall_app|].
    split; [by rw cells_of_app Hc1 Hc2|]. split; [by destruct ls1|]. intros.
    destruct (decide (pos <= cur + length (node_cells l))).
    - apply aligned_app; [apply Ha1; lia | rw Hc1; lia].
    - replace (pos - cur) with (length (cells_of ls1) + (pos - (cur + length (node_cells l))))
        by (rw Hc1; lia).
      apply aligned_app_shift, Ha2. lia. }
  by case_decide.
Qed.

Lemma split_at_offset_ok t pos :
  tree_inv content buffers t ->
  exists t', split_at_offset t pos buffers = Ok t' /\ tree_inv content buffers t'
    /\ doc t' = doc t /\ (pos <= total_bytes t -> aligned (node_leaves (root t')) pos).
Proof.
  intros Hinv. pose proof Hinv as [[Hwf Ht] Hok]. unfold split_at_offset. case_decide as Hz.
  { exists t. split_and!; [done..|]. intros.
    destruct (decide (pos = 0)) as [->|]; [by exists [], (node_leaves (root t))|].
    exists (node_leaves (root t)), []. rw app_nil_r. split; [done|].
    unfold doc, node_cells in Ht. lia. }
  rw node_find_by_offset_eq //.
  destruct (leaf_at_is_Some (node_leaves (root t)) pos) as [lb Hlb].
  { unfold doc, node_cells in Ht. lia. }
  rw Hlb /=. destruct lb as [l b].
  destruct (collect_split_ok (root t) 0 pos []) as (ls & -> & Hls & Hc & Hne & Hal); [done..|].
  simpl. rw Nat.sub_0_r in Hal. eexists; split; [done|].
  assert (tree_inv content buffers (mkTree (build_balanced ls) (total_bytes t))) as Hinv'.
  { repeat split; [apply build_balanced_wf| |simpl; by rw build_balanced_leaves].
    unfold doc. simpl. rw build_balanced_cells Hc Ht //. }
  split; [by apply check_and_rebalance_inv|].
  rw check_and_rebalance_doc check_and_rebalance_leaves. simpl. split.
  - unfold doc. simpl. by rw build_balanced_cells Hc.
  - intros. rw build_balanced_leaves //. apply Hal. unfold doc in Ht. lia.
Qed.
End split.

(** ** Line-feed counts by leaf index *)
Lemma list_alter_id_ge {A} (f : A -> A) l i : length l <= i -> alter f i l = l.
Proof. revert i. induction l as [|x l IH]; intros [|i] H; simpl in *; [done|done|lia|]. f_equal. apply IH. lia. Qed.

Lemma cells_of_set_leaf_lf ls u : cells_of (set_leaf_lf ls u) = cells_of ls.
Proof.
  unfold set_leaf_lf. generalize u.1. induction ls as [|l ls IH]; intros [|i]; [done..|].
  cbn [alter list_alter]. by rw !cells_of_cons IH.
Qed.

Lemma set_leaf_lf_length ls u : length (set_leaf_lf ls u) = length ls.
Proof. apply length_alter. Qed.

Lemma update_leaf_lf_by_index_ok n i c :
  node_wf n ->
  let '(n', found) := update_leaf_lf_by_index n i c in
  node_leaves n' = set_leaf_lf (node_leaves n) (i, c) /\ node_wf n' /\ depth n' = depth n
  /\ found = bool_decide (i < count_leaves n).
Proof.
  revert i. induction n as [lb lf l IHl r IHr|loc off bytes c']; intros i Hwf; simpl.
  2: { case_decide; simpl; [by subst|]. rw bool_decide_false; [lia|].
       split_and!; [|done..]. unfold set_leaf_lf. by destruct i. }
  destruct Hwf as (-> & -> & Hl & Hr). unfold set_leaf_lf in *. simpl in *.
  rw alter_app -count_leaves_eq. case_decide as Hi.
  - specialize (IHl i Hl). destruct (update_leaf_lf_by_index l i c) as [n' found].
    destruct IHl as (Hls & Hwf' & Hd & ->). rw bool_decide_true //. simpl.
    rw Hls Hd total_line_feeds_eq // bool_decide_true; [lia|]. split_and!; [done|..|done|done|done].
    + unfold node_cells. rw Hls. symmetry. f_equal. apply (cells_of_set_leaf_lf _ (i, c)).
    + by rw Hls.
    + done.
  - specialize (IHr (i - count_leaves l) Hr).
    destruct (update_leaf_lf_by_index r (i - count_leaves l) c) as [n' found].
    destruct IHr as (Hls & Hwf' & Hd & ->).
    case_bool_decide; simpl.
    + rw Hls Hd bool_decide_true; [lia|]. by split_and!.
    + rw bool_decide_false; [lia|]. split_and!; [|done..].
      rw list_alter_id_ge //. rw -count_leaves_eq. lia.
Qed.

Lemma path_copy_updates_ok t ups :
  tree_wf t ->
  let t' := update_leaf_line_feeds_path_copy t ups in
  node_leaves (root t') = foldl set_leaf_lf (node_leaves (root t)) ups
  /\ tree_wf t' /\ total_bytes t' = total_bytes t /\ depth (root t') = depth (root t).
Proof.
  unfold update_leaf_line_feeds_path_copy. revert t. induction ups as [|[i c] ups IH]; intros t [Hwf Ht].
  { done. }
  pose proof (update_leaf_lf_by_index_ok (root t) i c Hwf) as Hu. cbn [foldl fst snd].
  destruct (update_leaf_lf_by_index (root t) i c) as [n' found]. simpl in Hu |- *.
  destruct Hu as (Hls & Hwf' & Hd & _).
  destruct (IH (mkTree n' (total_bytes t))) as (-> & ? & ? & ->).
  { split; [done|]. unfold doc, node_cells. simpl. by rw Hls cells_of_set_leaf_lf. }
  simpl in *. by rw Hls.
Qed.

Lemma foldl_set_leaf_lf_cells ls ups :
  cells_of (foldl set_leaf_lf ls ups) = cells_of ls /\ length (foldl set_leaf_lf ls ups) = length ls.
Proof.
  revert ls. induction ups as [|u ups IH]; intros ls; [done|]. simpl.
  destruct (IH (set_leaf_lf ls u)) as [-> ->]. by rw cells_of_set_leaf_lf set_leaf_lf_length.
Qed.

Lemma rebuild_updates_ok t ups :
  tree_wf t ->
  let t' := update_leaf_line_feeds t ups in
  node_leaves (root t') = foldl set_leaf_lf (node_leaves (root t)) ups
  /\ tree_wf t' /\ total_bytes t' = total_bytes t.
Proof.
  intros [Hwf Ht]. destruct ups as [|u ups]; [done|].
  unfold update_leaf_line_feeds. rw get_leaves_eq. cbn [root total_bytes].
  destruct (foldl_set_leaf_lf_cells (node_leaves (root t)) (u :: ups)) as [Hc Hlen].
  split_and!; [|split|done].
  - apply build_balanced_leaves. intros E. rw E in Hlen.
    pose proof (node_leaves_nonempty (root t)). simpl in Hlen. lia.
  - apply build_balanced_wf.
  - unfold doc. cbn [root total_bytes]. by rw build_balanced_cells Hc Ht.
Qed.

(** ** Line-feed counts by document offset *)
Lemma set_leaf_lf_at_ok n d bytes c :
  node_wf n -> d < length (node_cells n) -> bytes <> 0 ->
  let '(n', found) := set_leaf_lf_at n d bytes c in
  (exists ls1 l ls2, node_leaves n = ls1 ++ l :: ls2 /\ length (cells_of ls1) = d
     /\ l_bytes l = bytes /\ l_line_feed_cnt l <> Some c /\ found = true
     /\ node_leaves n' = ls1 ++ mkLeaf (l_location l) (l_offset l) bytes (Some c) :: ls2
     /\ node_wf n' /\ depth n' = depth n)
  \/ (n' = n /\ found = false /\ forall l, leaf_at (node_leaves n) d = Some (l, d) ->
       l_bytes l = bytes -> l_line_feed_cnt l = Some c).
Proof.
  revert d. induction n as [lb lf l IHl r IHr|loc off lbytes c']; intros d Hwf Hd Hb; simpl.
  2: { rw node_cells_Leaf length_leaf_cells in Hd. simpl in Hd.
       case_decide as H1; [|case_decide as H2].
       - right. split_and!; [done..|]. intros l. simpl. case_decide; [|done]. intros [= <-].
         simpl. lia.
       - right. split_and!; [done..|]. intros l. simpl. case_decide; [|done]. by intros [= <-].
       - left. exists [], (mkLeaf loc off lbytes c'), []. simpl.
         assert (d = 0 /\ lbytes = bytes) as [-> ->] by lia. by split_and!. }
  destruct Hwf as (-> & -> & Hl & Hr). rw node_cells_Internal length_app in Hd.
  case_decide as Hlt.
  - specialize (IHl d Hl Hlt Hb). destruct (set_leaf_lf_at l d bytes c) as [n' found].
    destruct IHl as [(ls1 & k & ls2 & Hls & Hd1 & Hb1 & Hk & -> & Hls' & Hwf' & Hdep)|(-> & -> & Hno)].
    + left. exists ls1, k, (ls2 ++ node_leaves r). simpl. rw Hls Hls' total_line_feeds_eq // Hdep -!app_assoc.
      split_and!; [done..| |by rw Hls'|done|done|done].
      unfold node_cells. rw Hls Hls' !cells_of_app !cells_of_cons. by subst bytes.
    + right. split_and!; [done..|]. intros k. rw leaf_at_app -/(node_cells l) decide_True //. apply Hno.
  - specialize (IHr (d - length (node_cells l)) Hr).
    destruct (set_leaf_lf_at r (d - length (node_cells l)) bytes c) as [n' found].
    destruct IHr as [(ls1 & k & ls2 & Hls & Hd1 & Hb1 & Hk & -> & Hls' & Hwf' & Hdep)|(-> & -> & Hno)]; [lia|done|..].
    + left. exists (node_leaves l ++ ls1), k, ls2. simpl. rw Hls Hls' Hdep -!app_assoc.
      rw cells_of_app length_app -/(node_cells l). split_and!; done || lia.
    + right. split_and!; [done..|]. intros k. rw leaf_at_app -/(node_cells l) decide_False //.
      intros ([k' b'] & Hat & ?)%fmap_Some. simplify_eq. apply Hno. rw Hat. do 2 f_equal. lia.
Qed.

(** ** Cutting leaves to a maximum size *)
Section chunks.
Context (content : nat -> nat -> byte) (buffers : list StringBuffer) (max_bytes : nat).
Hypothesis Hmax : 0 < max_bytes.

Lemma split_leaf_ok fuel leaf off :
  leaf_bounded buffers leaf -> off <= l_bytes leaf -> l_bytes leaf - off <= fuel ->
  exists ls, split_leaf fuel leaf max_bytes off = Some ls
    /\ cells_of ls = drop off (leaf_cells leaf) /\ Forall (leaf_ok content buffers) ls
    /\ Forall (fun l => 0 < l_bytes l <= max_bytes) ls.
Proof.
  intros Hb. revert off. induction fuel as [|fuel IH]; intros off Hoff Hf; simpl.
  - rw decide_False; [lia|]. exists []. rw drop_ge; [rw length_leaf_cells; lia|]. done.
  - case_decide as Hlt.
    2: { exists []. rw drop_ge; [rw length_leaf_cells; lia|]. done. }
    set (len := Nat.min max_bytes (l_bytes leaf - off)).
    destruct (IH (off + len)) as (ls & -> & Hc & Hok & Hsz); [lia..|]. simpl.
    eexists; split; [done|]. split_and!.
    + rw cells_of_cons Hc !drop_leaf_cells.
      rw (leaf_cells_lf _ _ len None (Some 0)).
      replace (l_bytes leaf - off) with (len + (l_bytes leaf - (off + len))) by lia.
      rw (leaf_cells_split _ _ len _ None (Some 0) None). by rw Nat.add_assoc.
    + apply Forall_cons_2; [|done]. split; [|done].
      destruct leaf as [loc o n c]. eapply leaf_bounded_sub; [exact Hb|simpl in *; lia..].
    + apply Forall_cons_2; [simpl; lia|done].
Qed.

Lemma split_leaves_ok ls :
  Forall (leaf_ok content buffers) ls ->
  exists ks, split_leaves ls max_bytes = Some ks /\ cells_of ks = cells_of ls
    /\ Forall (leaf_ok content buffers) ks /\ Forall (fun l => l_bytes l <= max_bytes) ks
    /\ (ls <> [] -> ks <> []).
Proof.
  induction ls as [|l ls IH]; intros Hok; simpl; [by exists []|].
  apply Forall_cons in Hok as [Hl Hls]. destruct (IH Hls) as (ks & -> & Hc & Hoks & Hsz & _).
  case_decide as Hle; simpl.
  - eexists; split; [done|]. rw !cells_of_cons Hc. split_and!; [done|by solve_Forall..|done].
  - destruct (split_leaf_ok (l_bytes l) l 0) as (hs & -> & Hhc & Hhok & Hhsz); [apply Hl|lia..|].
    rw drop_0 in Hhc. simpl. eexists; split; [done|]. rw cells_of_cons cells_of_app Hhc Hc.
    split_and!; [done|by apply Forall_app| |].
    + apply Forall_app. split; [|done]. eapply Forall_impl; [exact Hhsz|]. simpl. lia.
    + intros _ [-> _]%app_eq_nil. apply (f_equal length) in Hhc. rw length_leaf_cells in Hhc.
      simpl in Hhc. unfold cells_of in Hhc. simpl in Hhc. lia.
Qed.
End chunks.

(** ** Replacing a buffer reference *)
Lemma same_bytes_text content loc loc' off n c c' :
  (forall i, i < n -> content (buffer_id loc) i = content (buffer_id loc') (off + i)) ->
  leaf_text content (mkLeaf loc 0 n c) = leaf_text content (mkLeaf loc' off n c').
Proof.
  intros H. unfold leaf_text, leaf_cells. simpl. apply list_eq. intros i. rw !list_lookup_fmap.
  destruct (decide (i < n)).
  - rw !lookup_seq_lt //. simpl. unfold cell_byte. simpl. by rw H.
  - rw !lookup_ge_None_2 //; rw length_seq; lia.
Qed.

Lemma replaced_leaves_ok content buffers id off bytes loc :
  (forall i, i < bytes -> content (buffer_id loc) i = content id (off + i)) ->
  leaf_bounded buffers (mkLeaf loc 0 bytes None) -> buffer_id loc <> id ->
  forall ls, Forall (leaf_ok content buffers) ls ->
  let ls' := (fun l => if replace_matches id off bytes l
                then mkLeaf loc 0 (l_bytes l) (l_line_feed_cnt l) else l) <$> ls in
  text_of content ls' = text_of content ls /\ Forall (leaf_ok content buffers) ls'
  /\ Forall (fun l => replace_matches id off bytes l = false) ls'.
Proof.
  intros Hsame Hbd Hne. induction ls as [|l ls IH]; intros Hok; [done|].
  apply Forall_cons in Hok as [Hl Hls]. destruct (IH Hls) as (Ht & Hoks & Hm). cbv zeta in *.
  rw fmap_cons. unfold text_of in *. rw !cells_of_cons !fmap_app Ht.
  destruct (replace_matches id off bytes l) eqn:Hml; [|split_and!; [done|by solve_Forall..]].
  destruct l as [lloc loff n c]. pose proof Hml as Hml'. unfold replace_matches in Hml'.
  apply bool_decide_eq_true in Hml'. simpl in Hml'. destruct Hml' as (Hid & -> & ->).
  assert (leaf_text content (mkLeaf loc 0 bytes c) = leaf_text content (mkLeaf lloc off bytes c)) as Htx.
  { apply same_bytes_text. intros. simpl in Hid. rw Hid. by apply Hsame. }
  split_and!; [by f_equal| |].
  - apply Forall_cons_2; [|done]. split; [exact Hbd|]. intros k Hk. simpl. rw Htx. by apply Hl.
  - apply Forall_cons_2; [|done]. simpl. unfold replace_matches. simpl. apply bool_decide_false. by intros [? _].
Qed.

(** The leaves after a replacement. *)
Definition replaced_leaf (id off bytes : nat) (loc : BufferLocation) (l : LeafData) : LeafData :=
  if replace_matches id off bytes l then mkLeaf loc 0 (l_bytes l) (l_line_feed_cnt l) else l.

Lemma replace_buffer_reference_leaves t id off bytes loc :
  node_leaves (root (replace_buffer_reference t id off bytes loc))
  = replaced_leaf id off bytes loc <$> node_leaves (root t).
Proof.
  unfold replace_buffer_reference. rw get_leaves_eq. destruct (existsb _ _) eqn:He.
  - rw check_and_rebalance_leaves. simpl. apply build_balanced_leaves.
    pose proof (node_leaves_nonempty (root t)).
    by destruct (node_leaves (root t)); simpl in *; [lia|].
  - symmetry. rw -{2}(list_fmap_id (node_leaves (root t))). apply list_fmap_ext.
    intros i l Hl%list_elem_of_lookup_2%list_elem_of_In. unfold replaced_leaf.
    destruct (replace_matches id off bytes l) eqn:Hm; [|done].
    apply not_true_iff_false in He. exfalso. apply He, existsb_exists. by exists l.
Qed.

Lemma replace_buffer_reference_ok content buffers t id off bytes loc :
  tree_inv content buffers t ->
  (forall i, i < bytes -> content (buffer_id loc) i = content id (off + i)) ->
  leaf_bounded buffers (mkLeaf loc 0 bytes None) -> buffer_id loc <> id ->
  let t' := replace_buffer_reference t id off bytes loc in
  tree_inv content buffers t' /\ text content t' = text content t
  /\ Forall (fun l => replace_matches id off bytes l = false) (node_leaves (root t')).
Proof.
  intros Hinv Hsame Hbd Hne t'. pose proof Hinv as [[Hwf Ht] Hok].
  pose proof (replace_buffer_reference_leaves t id off bytes loc) as Hls. fold t' in Hls.
  destruct (replaced_leaves_ok content buffers id off bytes loc Hsame Hbd Hne _ Hok)
    as (Htx & Hoks & Hm).
  assert (tree_wf t') as Hwf'.
  { unfold t', replace_buffer_reference. destruct (existsb _ _); [|done].
    apply check_and_rebalance_wf. split; simpl; [apply build_balanced_wf|].
    apply (f_equal length) in Htx. unfold text_of in Htx. rw !length_fmap in Htx.
    unfold doc. simpl. rw build_balanced_cells get_leaves_eq Htx. exact Ht. }
  split_and!; [|unfold text, doc, node_cells; rw Hls; exact Htx|by rw Hls].
  split; [done|]. by rw Hls.
Qed.

(** ** Properties *)

(** Splitting at an offset of the document never panics, keeps the
    invariant and the document, and leaves a piece boundary at the offset. *)
Theorem split_at_offset_cuts content buffers t pos :
  buffers_agree content buffers -> tree_inv content buffers t ->
  exists t', split_at_offset t pos buffers = Ok t' /\ tree_inv content buffers t'
    /\ doc t' = doc t /\ (pos <= total_bytes t -> aligned (node_leaves (root t')) pos).
Proof. intros. by apply split_at_offset_ok. Qed.

Lemma split_at_offset_cuts_witness :
  exists t', split_at_offset two_piece_tree 3 two_piece_buffers = Ok t' /\ tree_inv (content_of two_piece_buffers) two_piece_buffers t'
    /\ doc t' = doc two_piece_tree /\ (3 <= 5 -> aligned (node_leaves (root t')) 3).
Proof.
  apply (split_at_offset_cuts (content_of two_piece_buffers) two_piece_buffers two_piece_tree 3); [apply content_of_agree|apply two_piece_inv].
Defined.

(** Updating line-feed counts by path copying gives the same leaves and the
    same document as rebuilding the whole tree, with valid summaries and
    without changing the shape of the tree. *)
Theorem path_copy_update_equiv t updates :
  tree_wf t ->
  let t1 := update_leaf_line_feeds_path_copy t updates in
  let t2 := update_leaf_line_feeds t updates in
  node_leaves (root t1) = node_leaves (root t2) /\ doc t1 = doc t
  /\ total_bytes t1 = total_bytes t2 /\ tree_wf t1 /\ tree_wf t2
  /\ line_count t1 = line_count t2 /\ depth (root t1) = depth (root t).
Proof.
  intros Hwf. cbv zeta. destruct (path_copy_updates_ok t updates Hwf) as (Hl1 & Hw1 & Ht1 & Hd1).
  destruct (rebuild_updates_ok t updates Hwf) as (Hl2 & Hw2 & Ht2).
  unfold line_count. rw total_line_feeds_eq; [apply Hw1|]. rw total_line_feeds_eq; [apply Hw2|].
  rw Hl1 Hl2 Ht1 Ht2. split_and!; [done| |done..].
  unfold doc, node_cells. rw Hl1. apply foldl_set_leaf_lf_cells.
Qed.

Lemma path_copy_update_equiv_witness :
  node_leaves (root (update_leaf_line_feeds_path_copy two_piece_tree [(1, 4); (0, 3)]))
  = node_leaves (root (update_leaf_line_feeds two_piece_tree [(1, 4); (0, 3)])).
Proof. apply (path_copy_update_equiv two_piece_tree [(1, 4); (0, 3)]), two_piece_inv. Defined.

(** Recording a line-feed count for a piece given by its document offset and
    length keeps the invariant and the document when the count is that of the
    text in that range, and reports a change exactly when a piece with these
    bounds did not have that count yet. *)
Theorem set_leaf_line_feeds_at_keeps content buffers t d bytes c :
  tree_inv content buffers t ->
  c = count_newlines (take bytes (drop d (text content t))) ->
  let '(t', changed) := set_leaf_line_feeds_at t d bytes c in
  tree_inv content buffers t' /\ doc t' = doc t
  /\ (0 < bytes -> d < total_bytes t ->
      changed = match leaf_at (node_leaves (root t)) d with
                | Some (l, b) => bool_decide (b = d /\ l_bytes l = bytes
                                              /\ l_line_feed_cnt l <> Some c)
                | None => false
                end).
Proof.
  intros Hinv Hc. pose proof Hinv as [[Hwf Ht] Hok]. unfold set_leaf_line_feeds_at.
  case_decide as Hz; [split_and!; [done..|lia]|].
  pose proof (set_leaf_lf_at_ok (root t) d bytes c Hwf) as Hs.
  destruct (set_leaf_lf_at (root t) d bytes c) as [n' found].
  destruct Hs as [(ls1 & l & ls2 & Hls & Hd & Hb & Hl & -> & Hls' & Hwf' & _)|(-> & -> & Hno)];
    [unfold doc in Ht; lia|lia|..].
  - rw Hls in Hok. apply Forall_app in Hok as [Hok1 [Hokl Hok2]%Forall_cons].
    assert (doc (mkTree n' (total_bytes t)) = doc t) as Hdoc.
    { unfold doc, node_cells. simpl. rw Hls Hls' !cells_of_app !cells_of_cons. by subst bytes. }
    split_and!; [split; [split|]|done|].
    + done.
    + rw Hdoc. done.
    + simpl. rw Hls'. apply Forall_app. split; [done|]. apply Forall_cons_2; [|done].
      subst bytes. split; [exact (proj1 Hokl)|]. intros c' [= <-].
      rw Hc. unfold text, doc, node_cells. rw Hls cells_of_app cells_of_cons !fmap_app.
      rw drop_app_length'; [by rw length_fmap|]. rw take_app_length' //.
      by rw length_fmap length_leaf_cells.
    + intros _ _. rw Hls leaf_at_app decide_False; [lia|]. simpl. rw decide_True; [lia|].
      simpl. by rw bool_decide_true.
  - split_and!; [done..|]. intros _ _. destruct (leaf_at _ d) as [[l b]|] eqn:Hat; [|done].
    rw bool_decide_false //. intros (-> & Hb & Hl). apply Hl. by apply Hno.
Qed.

Lemma set_leaf_line_feeds_at_keeps_witness :
  let t := from_leaves [mkLeaf (Stored 0) 0 2 (Some 0); mkLeaf (Added 1) 0 3 None] in
  let '(t', changed) := set_leaf_line_feeds_at t 2 3 1 in
  tree_inv (content_of two_piece_buffers) two_piece_buffers t' /\ changed = true.
Proof.
  cbv zeta.
  assert (tree_inv (content_of two_piece_buffers) two_piece_buffers (from_leaves [mkLeaf (Stored 0) 0 2 (Some 0); mkLeaf (Added 1) 0 3 None]))
    as Hinv by by apply tree_inv_b_sound.
  pose proof (set_leaf_line_feeds_at_keeps (content_of two_piece_buffers) two_piece_buffers _ 2 3 1 Hinv eq_refl) as H.
  destruct (set_leaf_line_feeds_at _ 2 3 1) as [t' changed]. destruct H as (Hi & _ & Hc).
  split; [exact Hi|]. apply Hc; cbn; lia.
Defined.

(** Cutting the leaves to a positive maximum size terminates, keeps the
    invariant and the document, and no leaf is longer than the maximum. *)
Theorem split_leaves_to_chunk_size_bounds content buffers t max_bytes :
  tree_inv content buffers t -> 0 < max_bytes ->
  exists t', split_leaves_to_chunk_size t max_bytes = Some t' /\ tree_inv content buffers t'
    /\ doc t' = doc t /\ Forall (fun l => l_bytes l <= max_bytes) (node_leaves (root t')).
Proof.
  intros Hinv Hmax. pose proof Hinv as [[Hwf Ht] Hok]. unfold split_leaves_to_chunk_size.
  rw get_leaves_eq.
  destruct (split_leaves_ok content buffers max_bytes Hmax _ Hok) as (ks & -> & Hc & Hoks & Hsz & Hne).
  simpl. destruct (existsb _ _) eqn:He.
  - eexists; split; [done|]. simpl. rw build_balanced_leaves.
    { apply Hne. pose proof (node_leaves_nonempty (root t)). by destruct (node_leaves (root t)); simpl in *; [lia|]. }
    split_and!; [split; [split|]| |done].
    + apply build_balanced_wf.
    + unfold doc. simpl. by rw build_balanced_cells Hc Ht.
    + apply build_balanced_Forall; [apply leaf_ok_empty|done].
    + unfold doc. simpl. by rw build_balanced_cells Hc.
  - eexists; split; [done|]. split_and!; [done..|]. apply Forall_forall. intros l Hl%list_elem_of_In.
    destruct (decide (l_bytes l <= max_bytes)); [done|]. exfalso.
    apply not_true_iff_false in He. apply He. apply existsb_exists. exists l.
    rw bool_decide_eq_true. split; [done|lia].
Qed.

Lemma split_leaves_to_chunk_size_bounds_witness :
  exists t', split_leaves_to_chunk_size two_piece_tree 2 = Some t' /\ tree_inv (content_of two_piece_buffers) two_piece_buffers t'
    /\ doc t' = doc two_piece_tree /\ Forall (fun l => l_bytes l <= 2) (node_leaves (root t')).
Proof.
  apply (split_leaves_to_chunk_size_bounds (content_of two_piece_buffers) two_piece_buffers two_piece_tree 2); [apply two_piece_inv|lia].
Defined.

(** Replacing a buffer reference by another buffer that holds the same bytes
    (as chunk loading does) keeps the invariant and the text, and leaves no piece
    that refers to the old range. *)
Theorem replace_buffer_reference_keeps content buffers t id off bytes loc :
  tree_inv content buffers t ->
  (forall i, i < bytes -> content (buffer_id loc) i = content id (off + i)) ->
  leaf_bounded buffers (mkLeaf loc 0 bytes None) -> buffer_id loc <> id ->
  let t' := replace_buffer_reference t id off bytes loc in
  tree_inv content buffers t' /\ text content t' = text content t
  /\ Forall (fun l => replace_matches id off bytes l = false) (node_leaves (root t')).
Proof. apply replace_buffer_reference_ok. Qed.

Lemma replace_buffer_reference_keeps_witness :
  let buffers := two_piece_buffers ++ [sb_new 2 [x63; x64]] in
  let t := from_leaves [mkLeaf (Stored 0) 0 2 (Some 0); mkLeaf (Stored 1) 0 2 None] in
  text (content_of buffers) (replace_buffer_reference t 1 0 2 (Added 2))
  = text (content_of buffers) t.
Proof.
  cbv zeta. apply (replace_buffer_reference_keeps _ (two_piece_buffers ++ [sb_new 2 [x63; x64]])).
  - by apply tree_inv_b_sound.
  - intros [|[|i]] Hi; [reflexivity..|lia].
  - unfold leaf_bounded. cbn. lia.
  - done.
Defined.
