(* ===== verification/PieceTreeBulk.v ===== *)
(** * Piece tree: bulk edits

    [apply_bulk_edits] cuts the pieces at every edit boundary once, walks the
    pieces with the edits and the merged delete ranges, and rebuilds the tree.
    Its result is that of applying the edits one after the other, last position
    first. *)
From stdpp Require Import base numbers list option sorting.
From Stdlib Require Import ssreflect Strings.Byte.
From S2P Require Import Prelude TextSpec StringBuffer PieceTree PieceTreeInv PieceTreeEdit.
From S2P Require Import PieceTreeQuery PieceTreeLines PieceTreeMeta.

(** ** Sorted split points *)
Lemma elem_of_dedup {A} `{EqDecision A} (l : list A) x : x ∈ dedup l <-> x ∈ l.
Proof.
  induction l as [|y [|z l] IH]; [done..|]. cbn [dedup]. case_decide as Heq.
  - rw IH. subst. rw !elem_of_cons. tauto.
  - rw elem_of_cons IH. by rw -elem_of_cons.
Qed.

Lemma StronglySorted_dedup (l : list nat) :
  StronglySorted le l -> StronglySorted le (dedup l).
Proof.
  induction l as [|y [|z l] IH]; [done..|]. cbn [dedup]. intros [Hy Hl]%StronglySorted_cons.
  case_decide; [by apply IH|]. apply StronglySorted_cons. split; [|by apply IH].
  rw Forall_forall in Hy. apply Forall_forall. intros x Hx. apply Hy. by apply (elem_of_dedup (z :: l)).
Qed.

Lemma partition_point_sorted (p : nat -> bool) l :
  StronglySorted le l -> (forall x y, x <= y -> p y = true -> p x = true) ->
  Forall (fun x => p x = true) (take (partition_point p l) l)
  /\ Forall (fun x => p x = false) (drop (partition_point p l) l).
Proof.
  intros Hs Hp. induction l as [|x l IH]; [done|].
  apply StronglySorted_cons in Hs as [Hx Hl]. simpl. destruct (p x) eqn:Hpx; simpl.
  - destruct (IH Hl). auto using Forall_cons_2.
  - split; [done|]. apply Forall_cons_2; [done|]. eapply Forall_impl; [exact Hx|].
    intros y Hy. destruct (p y) eqn:Hpy; [|done]. by rw (Hp x y) in Hpx.
Qed.

Lemma partition_point_mono {A} (p q : A -> bool) l :
  (forall x, p x = true -> q x = true) -> partition_point p l <= partition_point q l.
Proof.
  intros Hpq. induction l as [|x l IH]; simpl; [lia|].
  destruct (p x) eqn:Hp; [rw Hpq //; lia | lia].
Qed.

Lemma take_split_at {A} (l : list A) i j :
  i <= j -> take j l = take i l ++ take (j - i) (drop i l).
Proof. intros. by rw -{1}(take_drop i (take j l)) take_take Nat.min_l // skipn_firstn_comm. Qed.

(** The split points strictly inside a piece. *)
Lemma inside_points (sps : list nat) start end_ :
  StronglySorted le sps -> start < end_ ->
  exists inside,
    slice sps (partition_point (fun sp => bool_decide (sp <= start)) sps)
      (partition_point (fun sp => bool_decide (sp < end_)) sps) = Ok inside
    /\ StronglySorted le inside
    /\ (forall x, x ∈ inside <-> x ∈ sps /\ start < x < end_).
Proof.
  intros Hs Hlt. set (p1 := fun sp => bool_decide (sp <= start)).
  set (p2 := fun sp => bool_decide (sp < end_)).
  assert (forall x, p1 x = true <-> x <= start) as E1 by (intros; apply bool_decide_eq_true).
  assert (forall x, p2 x = true <-> x < end_) as E2 by (intros; apply bool_decide_eq_true).
  destruct (partition_point_sorted p1 sps Hs) as [H1a H1b]; [intros x y; rw !E1; lia|].
  destruct (partition_point_sorted p2 sps Hs) as [H2a H2b]; [intros x y; rw !E2; lia|].
  pose proof (partition_point_mono p1 p2 sps) as Hij.
  pose proof (partition_point_le p2 sps) as Hj.
  set (i := partition_point p1 sps) in *. set (j := partition_point p2 sps) in *.
  assert (i <= j) as Hij' by (apply Hij; intros x; rw E1 E2; lia).
  rw slice_Ok //. eexists; split; [done|]. pose proof (take_split_at sps i j Hij') as Heq.
  pose proof (take_drop j sps) as Hsps. rw Heq in Hsps. split.
  { rw -Hsps in Hs. by apply StronglySorted_app_1_l, StronglySorted_app_1_r in Hs. }
  rw !Forall_forall in H1a H1b H2a H2b. intros x. split.
  - intros Hx. split; [rw -Hsps !elem_of_app; auto|]. split.
    + apply not_le. rw -E1. rw H1b //. by apply subseteq_take in Hx.
    + apply E2, H2a. rw Heq elem_of_app. auto.
  - intros (Hx & Hlo & Hhi). rw -Hsps !elem_of_app in Hx.
    destruct Hx as [[Hx%H1a%E1|Hx]|Hx%H2b]; [lia|done|]. apply E2 in Hhi. congruence.
Qed.

Section bulk.
Context (content : nat -> nat -> byte) (buffers : list StringBuffer).
Hypothesis Hagree : buffers_agree content buffers.
Local Abbreviation leaf_ok := (leaf_ok content buffers).
Local Abbreviation nonempty := (fun l : LeafData => 0 < l_bytes l).

Lemma aligned_0 ls : aligned ls 0.
Proof. by exists [], ls. Qed.

Lemma aligned_all ls : aligned ls (length (cells_of ls)).
Proof. exists ls, []. by rw app_nil_r. Qed.

(** ** Cutting one piece *)
Lemma split_piece_ok loc off bytes c offs prev :
  leaf_ok (mkLeaf loc off bytes c) -> StronglySorted le offs -> prev <= bytes ->
  Forall (fun o => prev <= o < bytes) offs ->
  exists ls, split_piece buffers loc off bytes offs prev = Ok ls
    /\ Forall leaf_ok ls /\ Forall nonempty ls
    /\ cells_of ls = leaf_cells (mkLeaf loc (off + prev) (bytes - prev) None)
    /\ (forall o, o ∈ offs -> aligned ls (o - prev)).
Proof.
  intros [Hb _]. revert prev. induction offs as [|o offs IH]; intros prev Hs Hprev Hoffs; simpl.
  - case_decide.
    + destruct (compute_line_feeds_ok content buffers Hagree loc (off + prev) (bytes - prev))
        as (r & -> & Hr); [eapply leaf_bounded_sub; [exact Hb|lia..]|].
      simpl. eexists; split; [done|]. split_and!; [by solve_Forall|solve_Forall; simpl; lia| |].
      * by rw cells_of_cons app_nil_r.
      * by intros o ?%not_elem_of_nil.
    + exists []. replace (bytes - prev) with 0 by lia. split_and!; [done..|].
      by intros o ?%not_elem_of_nil.
  - apply StronglySorted_cons in Hs as [Ho Hs]. apply Forall_cons in Hoffs as [Hoo Hoffs].
    destruct (IH o) as (ls & Hls & Hok & Hne & Hc & Hal); [done|lia| |].
    { rw Forall_forall in Ho. rw Forall_forall in Hoffs. apply Forall_forall.
      intros x Hx. specialize (Ho x Hx). specialize (Hoffs x Hx). lia. }
    rw Hls.
    assert (forall o' a, length (cells_of a) = o - prev -> o' ∈ o :: offs -> aligned (a ++ ls) (o' - prev)) as Hfin.
    { intros o' a Ha [->|Ho']%elem_of_cons; [by exists a, ls|].
      replace (o' - prev) with (length (cells_of a) + (o' - o)); [by apply aligned_app_shift, Hal|].
      rw Forall_forall in Ho. specialize (Ho _ Ho'). lia. }
    case_decide.
    + destruct (compute_line_feeds_ok content buffers Hagree loc (off + prev) (o - prev))
        as (r & -> & Hr); [eapply leaf_bounded_sub; [exact Hb|lia..]|].
      simpl. eexists; split; [done|].
      split_and!; [by solve_Forall|by apply Forall_cons_2; [simpl; lia|]| |].
      * rw cells_of_cons Hc. replace (bytes - prev) with (o - prev + (bytes - o)) by lia.
        rw (leaf_cells_split loc (off + prev) (o - prev) (bytes - o) None r None).
        by replace (off + prev + (o - prev)) with (off + o) by lia.
      * intros o'. apply (Hfin o' [_]). by rw cells_of_cons app_nil_r length_leaf_cells.
    + assert (o = prev) as -> by lia. simpl. exists ls. split_and!; [done..|].
      intros o'. apply (Hfin o' []). unfold cells_of. simpl. lia.
Qed.

(** ** Cutting every piece *)
Lemma multi_split_Leaf loc off bytes c cur sps acc :
  leaf_ok (mkLeaf loc off bytes c) -> StronglySorted le sps ->
  exists ls, collect_leaves_with_multi_split (Leaf loc off bytes c) cur sps acc buffers
             = Ok (acc ++ ls)
    /\ Forall leaf_ok ls /\ Forall nonempty ls /\ cells_of ls = leaf_cells (mkLeaf loc off bytes c)
    /\ (forall p, p ∈ sps -> cur <= p <= cur + bytes -> aligned ls (p - cur)).
Proof.
  intros Hok Hs. cbn [collect_leaves_with_multi_split]. case_decide as Hz.
  { exists []. subst. rw app_nil_r. split_and!; [done..|]. intros p _ ?.
    replace (p - cur) with 0 by lia. apply aligned_0. }
  destruct (inside_points sps cur (cur + bytes)) as (ins & -> & Hss & Hins); [done|lia|].
  cbn [mbind res_bind].
  assert (forall ls p, cells_of ls = leaf_cells (mkLeaf loc off bytes c) ->
    p = cur \/ p = cur + bytes -> aligned ls (p - cur)) as Hends.
  { intros ls p Hc [-> | ->]; [rw Nat.sub_diag; apply aligned_0|].
    replace (cur + bytes - cur) with (length (cells_of ls)); [apply aligned_all|].
    rw Hc length_leaf_cells /=. lia. }
  destruct (split_piece_ok loc off bytes c ((fun sp => sp - cur) <$> ins) 0) as (ls & Hls & Hoks & Hne & Hc & Hal).
  { done. }
  { eapply (StronglySorted_fmap _ le); [|exact Hss]. intros; lia. }
  { lia. }
  { apply Forall_fmap, Forall_forall. intros x Hx%Hins. simpl. lia. }
  destruct ((fun sp => sp - cur) <$> ins) eqn:Hoffs.
  - apply fmap_nil_inv in Hoffs as ->. eexists; split; [done|].
    assert (cells_of [mkLeaf loc off bytes c] = leaf_cells (mkLeaf loc off bytes c)) as Hone
      by (by rw cells_of_cons app_nil_r).
    split_and!; [by solve_Forall|by solve_Forall; simpl; lia|done|].
    intros p Hp ?. apply Hends; [done|].
    destruct (decide (cur < p < cur + bytes)) as [Hin|]; [|lia].
    exfalso. apply (not_elem_of_nil p). by apply Hins.
  - rw -Hoffs in Hls Hal |- *. rw Hls. cbn [mbind res_bind]. exists ls.
    assert (cells_of ls = leaf_cells (mkLeaf loc off bytes c)) as Hc'.
    { rw Hc Nat.add_0_r Nat.sub_0_r. done. }
    split_and!; [done..|]. intros p Hp ?.
    destruct (decide (cur < p < cur + bytes)); [|apply Hends; [done|lia]].
    rw -(Nat.sub_0_r (p - cur)). apply Hal. apply (list_elem_of_fmap_2 (fun sp => sp - cur)).
    by apply Hins.
Qed.

Lemma multi_split_ok n cur sps acc :
  node_wf n -> Forall leaf_ok (node_leaves n) -> StronglySorted le sps ->
  exists ls, collect_leaves_with_multi_split n cur sps acc buffers = Ok (acc ++ ls)
    /\ Forall leaf_ok ls /\ Forall nonempty ls /\ cells_of ls = node_cells n
    /\ (forall p, p ∈ sps -> cur <= p <= cur + length (node_cells n) -> aligned ls (p - cur)).
Proof.
  revert cur acc. induction n as [lb lf l IHl r IHr|loc off bytes c]; intros cur acc Hwf Hok Hs.
  2: { rw node_cells_Leaf length_leaf_cells. simpl in Hok. rw Forall_singleton in Hok.
       by apply multi_split_Leaf. }
  destruct Hwf as (-> & -> & Hl & Hr). simpl in Hok. apply Forall_app in Hok as [Hokl Hokr].
  cbn [collect_leaves_with_multi_split]. rw node_cells_Internal length_app.
  destruct (IHl cur acc) as (ls1 & -> & ? & ? & Hc1 & Ha1); [done..|]. cbn [mbind res_bind].
  destruct (IHr (cur + length (node_cells l)) (acc ++ ls1)) as (ls2 & -> & ? & ? & Hc2 & Ha2); [done..|].
  exists (ls1 ++ ls2). rw app_assoc cells_of_app Hc1 Hc2.
  split_and!; [done|by apply Forall_app..|done|]. intros p Hp ?.
  destruct (decide (p <= cur + length (node_cells l))).
  - apply aligned_app; [apply Ha1; done || lia | rw Hc1; lia].
  - replace (p - cur) with (length (cells_of ls1) + (p - (cur + length (node_cells l)))) by (rw Hc1; lia).
    apply aligned_app_shift, Ha2; done || lia.
Qed.
End bulk.

(** ** Merged delete ranges *)
Definition covered (ds : list (nat * nat)) (x : nat) : Prop :=
  Exists (fun r => r.1 <= x < r.2) ds.
#[export] Instance covered_dec ds x : Decision (covered ds x) := _.

(** Ascending, nonempty, with a gap between neighbours. *)
Definition separated (ds : list (nat * nat)) : Prop :=
  StronglySorted (fun a b => a.2 < b.1) ds /\ Forall (fun r => r.1 < r.2) ds.

Lemma covered_cons r ds x : covered (r :: ds) x <-> r.1 <= x < r.2 \/ covered ds x.
Proof. apply Exists_cons. Qed.

Lemma covered_app a b x : covered (a ++ b) x <-> covered a x \/ covered b x.
Proof. apply Exists_app. Qed.

Lemma separated_cons r ds :
  separated (r :: ds) <-> r.1 < r.2 /\ Forall (fun b => r.2 < b.1) ds /\ separated ds.
Proof. unfold separated. rw StronglySorted_cons Forall_cons. tauto. Qed.

Lemma separated_snoc ds r :
  separated (ds ++ [r]) <-> r.1 < r.2 /\ Forall (fun a => a.2 < r.1) ds /\ separated ds.
Proof.
  induction ds as [|d ds IH].
  - simpl. rw separated_cons. split; [intros (? & _ & ?)|intros (? & _ & ?)]; auto using Forall_nil_2.
  - cbn [app]. rw !separated_cons IH Forall_app Forall_singleton Forall_cons. tauto.
Qed.

Lemma merge_deletes_ok acc ranges :
  separated (rev acc) -> StronglySorted pair_le ranges -> Forall (fun r => r.1 < r.2) ranges ->
  (forall a r, head acc = Some a -> r ∈ ranges -> a.1 <= r.1) ->
  separated (merge_deletes acc ranges)
  /\ (forall x, covered (merge_deletes acc ranges) x <-> covered (rev acc) x \/ covered ranges x).
Proof.
  revert acc. induction ranges as [|[s e] ranges IH]; intros acc Hsep Hs Hne Hhd; simpl.
  { split; [done|]. intros x. split; [auto|]. by intros [?|?%Exists_nil]. }
  apply StronglySorted_cons in Hs as [Hse Hs]. apply Forall_cons in Hne as [Hne1 Hne]. simpl in Hne1.
  rw Forall_forall in Hse.
  assert (forall r, r ∈ ranges -> s <= r.1) as Hstart.
  { intros r Hr. specialize (Hse r Hr). unfold pair_le in Hse. simpl in Hse. lia. }
  destruct acc as [|[ls le] acc]; [|case_decide as Hle].
  - destruct (IH [(s, e)]) as [? Hcov]; [|done|done| |].
    { simpl. apply separated_cons. split_and!; [done..|]. split; constructor. }
    { intros a r [= <-]. apply Hstart. }
    split; [done|]. intros x. rw Hcov. simpl. rw !covered_cons. simpl. tauto.
  - simpl in Hsep. apply separated_snoc in Hsep as (Hlt & Hfa & Hsep). simpl in Hlt, Hfa.
    destruct (IH ((ls, Nat.max le e) :: acc)) as [? Hcov]; [|done|done| |].
    { simpl. apply separated_snoc. simpl. split_and!; done || lia. }
    { intros a r [= <-] Hr. simpl. specialize (Hhd _ r eq_refl (list_elem_of_further _ _ _ Hr)). done. }
    split; [done|]. intros x. rw Hcov. simpl. rw !covered_app !covered_cons. simpl.
    specialize (Hhd _ (s, e) eq_refl (list_elem_of_here _ _)). simpl in Hhd.
    assert (ls <= x < le `max` e <-> ls <= x < le \/ s <= x < e) as -> by lia. tauto.
  - simpl in Hsep. pose proof Hsep as (Hlt & Hfa & _)%separated_snoc. simpl in Hlt, Hfa.
    destruct (IH ((s, e) :: (ls, le) :: acc)) as [? Hcov]; [|done|done| |].
    { simpl. apply separated_snoc. simpl. split_and!; [done| |done].
      apply Forall_app. split; [|solve_Forall; simpl; lia].
      eapply Forall_impl; [exact Hfa|]. simpl. intros; lia. }
    { intros a r [= <-] Hr. by apply Hstart. }
    split; [done|]. intros x. rw Hcov. simpl. rw !covered_app !covered_cons. simpl. tauto.
Qed.

Lemma skip_deletes_ok ds p :
  separated ds ->
  separated (skip_deletes ds p)
  /\ (forall x, p <= x -> covered (skip_deletes ds p) x <-> covered ds x)
  /\ (forall r, head (skip_deletes ds p) = Some r -> p < r.2).
Proof.
  induction ds as [|[s e] ds IH]; intros Hsep; simpl; [done|].
  case_decide as He.
  - pose proof Hsep as (_ & _ & Hsep')%separated_cons. destruct (IH Hsep') as (? & Hc & ?).
    split_and!; [done| |done]. intros x Hx. rw Hc // covered_cons. simpl. split; [auto|].
    intros [?|?]; [lia|done].
  - split_and!; [done..|]. intros r [= <-]. simpl. lia.
Qed.

(** The test of the walk: a piece that is wholly covered or wholly uncovered is
    dropped exactly when its first byte is covered. *)
Lemma keep_leaf_ok ds p n :
  separated ds -> 0 < n ->
  (forall x, p <= x < p + n -> bool_decide (covered ds x) = bool_decide (covered ds p)) ->
  match skip_deletes ds p with
  | (s, e) :: _ => negb (bool_decide (s <= p /\ p + n <= e))
  | [] => true
  end = negb (bool_decide (covered ds p)).
Proof.
  intros Hsep Hn Hunif. apply Bool.eq_iff_eq_true. rw negb_true_iff bool_decide_eq_false.
  destruct (skip_deletes_ok ds p Hsep) as (Hsep' & Hcov & Hhd).
  destruct (skip_deletes ds p) as [|[s e] ds'].
  { split; [|done]. by intros _ ?%(Hcov p (Nat.le_refl p))%Exists_nil. }
  specialize (Hhd _ eq_refl). simpl in Hhd.
  apply separated_cons in Hsep' as (Hse & Hfa & _). simpl in Hse, Hfa. rw Forall_forall in Hfa.
  rw negb_true_iff bool_decide_eq_false. apply not_iff_compat.
  assert (forall x, x <= e -> ~ covered ds' x) as Hlater.
  { intros x Hx (r & Hr & ?)%Exists_exists. specialize (Hfa r Hr). lia. }
  rw -(Hcov p (Nat.le_refl p)). rw covered_cons. simpl. split; [lia|].
  intros [Hin|Hin]; [|exfalso; eapply (Hlater p); [lia|done]].
  split; [lia|]. destruct (decide (p + n <= e)); [done|]. exfalso.
  assert (covered ds e) as He.
  { apply (bool_decide_eq_true_1 (covered ds e)). rw Hunif; [lia|]. apply bool_decide_eq_true_2.
    apply (Hcov p (Nat.le_refl p)), covered_cons. simpl. lia. }
  apply (Hcov e) in He; [|lia]. apply covered_cons in He as [?|He]; [simpl in *; lia|].
  by apply (Hlater e).
Qed.

(** ** The walk *)

(** The walk with the delete ranges replaced by a predicate on offsets. *)
Fixpoint walked (leaves : list LeafData) (cur : nat) (edits : list EditRange)
    (deleted : nat -> bool) : list LeafData :=
  match leaves with
  | [] => omap snd edits
  | leaf :: leaves =>
      let '(ins, edits) := take_inserts edits cur in
      ins ++ (if deleted cur then [] else [leaf]) ++ walked leaves (cur + l_bytes leaf) edits deleted
  end.

(** No edge of a covered range is strictly inside a leaf. *)
Fixpoint uniform (deleted : nat -> bool) (leaves : list LeafData) (cur : nat) : Prop :=
  match leaves with
  | [] => True
  | leaf :: leaves =>
      0 < l_bytes leaf
      /\ (forall x, cur <= x < cur + l_bytes leaf -> deleted x = deleted cur)
      /\ uniform deleted leaves (cur + l_bytes leaf)
  end.

Lemma walked_ext leaves cur edits d1 d2 :
  (forall x, cur <= x -> d1 x = d2 x) -> walked leaves cur edits d1 = walked leaves cur edits d2.
Proof.
  revert cur edits. induction leaves as [|l ls IH]; intros cur edits Hd; [done|]. simpl.
  destruct (take_inserts edits cur) as [ins rest]. rw Hd //. do 2 f_equal. apply IH.
  intros x Hx. apply Hd. lia.
Qed.

Lemma uniform_ext leaves cur d1 d2 :
  (forall x, cur <= x -> d1 x = d2 x) -> uniform d1 leaves cur -> uniform d2 leaves cur.
Proof.
  revert cur. induction leaves as [|l ls IH]; intros cur Hd; [done|]. simpl.
  intros (? & Hu & Hls). split_and!; [done| |].
  - intros x Hx. rw -!Hd; [lia..|]. by apply Hu.
  - apply IH; [|done]. intros x Hx. apply Hd. lia.
Qed.

Lemma apply_edits_walked leaves cur edits ds :
  separated ds -> uniform (fun x => bool_decide (covered ds x)) leaves cur ->
  apply_edits_to_leaves leaves cur edits ds
  = walked leaves cur edits (fun x => bool_decide (covered ds x)).
Proof.
  revert cur edits ds. induction leaves as [|l ls IH]; intros cur edits ds Hsep Hu; [done|].
  simpl. destruct Hu as (Hn & Hu & Hls). destruct (take_inserts edits cur) as [ins rest].
  destruct (skip_deletes_ok ds cur Hsep) as (Hsep' & Hcov & _).
  assert (forall x, cur <= x -> bool_decide (covered ds x)
                                = bool_decide (covered (skip_deletes ds cur) x)) as Hb.
  { intros x Hx. apply bool_decide_ext. by rw Hcov. }
  rw (keep_leaf_ok ds cur (l_bytes l) Hsep Hn Hu). f_equal. f_equal; [by case_bool_decide|].
  rw IH //.
  - eapply uniform_ext; [|exact Hls]. intros x Hx. apply Hb. lia.
  - apply walked_ext. intros x Hx. symmetry. apply Hb. lia.
Qed.

(** Ascending disjoint edits from [cur] on, within a document of length [total]. *)
Fixpoint ascending (cur total : nat) (edits : list EditRange) : Prop :=
  match edits with
  | [] => cur <= total
  | (s, e, _) :: edits => cur <= s /\ s <= e /\ ascending e total edits
  end.

Definition in_edit (x : nat) (r : EditRange) : Prop := r.1.1 <= x < r.1.2.

(** What the edits make of a document whose first cell has offset [cur]. *)
Fixpoint edited (cells : list cell) (cur : nat) (edits : list EditRange) : list cell :=
  match edits with
  | [] => cells
  | (s, e, ins) :: edits =>
      take (s - cur) cells ++ from_option leaf_cells [] ins ++ edited (drop (e - cur) cells) e edits
  end.

Lemma ascending_le cur total edits : ascending cur total edits -> cur <= total.
Proof.
  revert cur. induction edits as [|[[s e] ins] edits IH]; intros cur; simpl; [done|].
  intros (? & ? & ?%IH). lia.
Qed.

Lemma ascending_in_edit cur total edits x :
  ascending cur total edits -> Exists (in_edit x) edits -> cur <= x < total.
Proof.
  revert cur. induction edits as [|[[s e] ins] edits IH]; intros cur; simpl.
  - by intros _ ?%Exists_nil.
  - intros (? & ? & Ha). pose proof (ascending_le _ _ _ Ha).
    intros [Hin|Hin]%Exists_cons; [unfold in_edit in Hin; simpl in Hin; lia|].
    specialize (IH e Ha Hin). lia.
Qed.

Lemma ascending_bounds cur total edits s e ins :
  ascending cur total edits -> (s, e, ins) ∈ edits -> cur <= s /\ s <= e /\ e <= total.
Proof.
  revert cur. induction edits as [|[[s' e'] ins'] edits IH]; intros cur Ha Hin.
  - by apply not_elem_of_nil in Hin.
  - destruct Ha as (? & ? & Ha). pose proof (ascending_le _ _ _ Ha).
    apply elem_of_cons in Hin as [[= -> -> ->]|Hin]; [lia|]. destruct (IH _ Ha Hin). lia.
Qed.

Lemma take_inserts_later edits p cur total :
  ascending cur total edits -> p < cur -> take_inserts edits p = ([], edits).
Proof.
  intros Ha Hp. destruct edits as [|[[s e] ins] edits]; [done|]. simpl in *.
  rw decide_True //. lia.
Qed.

(** Leaves before the next edit are kept. *)
Lemma walked_keep a k cur edits deleted total :
  Forall (fun l => 0 < l_bytes l) a ->
  ascending (cur + length (cells_of a)) total edits ->
  (forall x, cur <= x < cur + length (cells_of a) -> deleted x = false) ->
  walked (a ++ k) cur edits deleted = a ++ walked k (cur + length (cells_of a)) edits deleted.
Proof.
  revert cur. induction a as [|l a IH]; intros cur Hne Ha Hdel; simpl.
  { by rw Nat.add_0_r. }
  apply Forall_cons in Hne as [Hl Hne]. rw cells_of_cons length_app length_leaf_cells in Ha Hdel |- *.
  rw (take_inserts_later _ _ _ _ Ha); [lia|]. rw Hdel; [lia|]. simpl. f_equal.
  rw Nat.add_assoc in Ha. rw IH //; [|by rw Nat.add_assoc]. intros x ?. apply Hdel. lia.
Qed.

(** Leaves under a deletion are dropped. *)
Lemma walked_drop b k cur edits deleted total :
  Forall (fun l => 0 < l_bytes l) b ->
  ascending (cur + length (cells_of b)) total edits ->
  (forall x, cur <= x < cur + length (cells_of b) -> deleted x = true) ->
  walked (b ++ k) cur edits deleted = walked k (cur + length (cells_of b)) edits deleted.
Proof.
  revert cur. induction b as [|l b IH]; intros cur Hne Ha Hdel; simpl.
  { by rw Nat.add_0_r. }
  apply Forall_cons in Hne as [Hl Hne]. rw cells_of_cons length_app length_leaf_cells in Ha Hdel |- *.
  rw (take_inserts_later _ _ _ _ Ha); [lia|]. rw Hdel; [lia|]. simpl.
  rw Nat.add_assoc in Ha. rw IH //; [|by rw Nat.add_assoc]. intros x ?. apply Hdel. lia.
Qed.

(** The insert of an edit goes in front of what starts at its position. *)
Lemma walked_insert k s e ins edits deleted :
  walked k s ((s, e, ins) :: edits) deleted = option_list ins ++ walked k s edits deleted.
Proof.
  destruct k as [|l k]; simpl; [by destruct ins|]. rw decide_False; [lia|].
  destruct (take_inserts edits s) as [is_ rest]. by destruct ins.
Qed.

Lemma walked_cells ls cur edits deleted :
  Forall (fun l => 0 < l_bytes l) ls ->
  ascending cur (cur + length (cells_of ls)) edits ->
  (forall s e ins, (s, e, ins) ∈ edits -> aligned ls (s - cur) /\ aligned ls (e - cur)) ->
  (forall x, cur <= x -> deleted x = bool_decide (Exists (in_edit x) edits)) ->
  cells_of (walked ls cur edits deleted) = edited (cells_of ls) cur edits.
Proof.
  revert ls cur. induction edits as [|[[s e] ins] edits IH]; intros ls cur Hne Ha Hal Hdel.
  { rw -(app_nil_r ls). rw (walked_keep _ _ _ _ _ (cur + length (cells_of ls))) //=.
    intros x Hx. rw Hdel; [lia|]. apply bool_decide_false. by rw Exists_nil. }
  remember (cur + length (cells_of ls)) as T eqn:HT.
  pose proof Ha as (Hs & He & Ha'). destruct (Hal s e ins) as [Hals Hale]; [by left|].
  pose proof (ascending_le _ _ _ Ha') as Htot.
  destruct Hals as (a & k & -> & Hla). apply aligned_app_r in Hale; [|lia].
  destruct Hale as (b & c & -> & Hlb). rw !Forall_app in Hne. destruct Hne as (Hna & Hnb & Hnc).
  rw !cells_of_app !length_app in HT.
  assert (cur + length (cells_of a) = s) as Hcs by lia.
  assert (s + length (cells_of b) = e) as Hse by lia.
  assert (ascending s T ((s, e, ins) :: edits)) as Has by (split_and!; done || lia).
  rw (walked_keep a _ cur _ _ T) //; [by rw Hcs| |].
  { intros x Hx. rw Hdel; [lia|]. apply bool_decide_false.
    intros Hin. apply (ascending_in_edit s T) in Hin; [lia|done]. }
  rw Hcs walked_insert (walked_drop b c s edits deleted T) //; [by rw Hse| |].
  { intros x Hx. rw Hdel; [lia|]. apply bool_decide_true, Exists_cons. left.
    unfold in_edit. simpl. lia. }
  rw Hse !cells_of_app. cbn [edited]. rw take_app_length'; [lia|].
  rw (app_assoc (cells_of a) (cells_of b)) drop_app_length'; [rw length_app; lia|]. rw IH //.
  - by replace (e + length (cells_of c)) with T by lia.
  - intros s' e' ins' Hin. destruct (Hal s' e' ins') as [H1 H2]; [by right|].
    destruct (ascending_bounds _ _ _ _ _ _ Ha' Hin) as (? & ? & ?).
    rw app_assoc in H1 H2. apply aligned_app_r in H1; [|rw cells_of_app length_app; lia].
    apply aligned_app_r in H2; [|rw cells_of_app length_app; lia].
    rw cells_of_app length_app in H1 H2.
    replace (s' - e) with (s' - cur - (length (cells_of a) + length (cells_of b))) by lia.
    by replace (e' - e) with (e' - cur - (length (cells_of a) + length (cells_of b))) by lia.
  - intros x Hx. rw Hdel; [lia|]. apply bool_decide_ext. rw Exists_cons. split; [|auto].
    unfold in_edit at 1. simpl. intros [?|?]; [lia|done].
  - f_equal. f_equal. by destruct ins; rw /= ?cells_of_cons ?app_nil_r.
Qed.

Lemma aligned_cons l ls k :
  aligned (l :: ls) k -> k = 0 \/ l_bytes l <= k /\ aligned ls (k - l_bytes l).
Proof.
  intros Hal. destruct (decide (k = 0)); [by left|]. right.
  assert (l_bytes l <= k) as Hle.
  { destruct Hal as ([|l' a] & b & Heq & Hk); [unfold cells_of in Hk; simpl in Hk; lia|].
    injection Heq as <- _. rw cells_of_cons length_app length_leaf_cells in Hk. lia. }
  split; [done|]. apply (aligned_app_r [l]) in Hal;
    rw cells_of_cons app_nil_r length_leaf_cells in Hal |- *; done.
Qed.

(** Leaves cut at every edge of the edits are uniform. *)
Lemma uniform_aligned ls cur edits :
  Forall (fun l => 0 < l_bytes l) ls ->
  (forall s e ins, (s, e, ins) ∈ edits ->
     (cur <= s -> aligned ls (s - cur)) /\ (cur <= e -> aligned ls (e - cur))) ->
  uniform (fun x => bool_decide (Exists (in_edit x) edits)) ls cur.
Proof.
  revert cur. induction ls as [|l ls IH]; intros cur Hne Hal; simpl; [done|].
  apply Forall_cons in Hne as [Hl Hne].
  assert (forall k, (cur <= k -> aligned (l :: ls) (k - cur)) ->
            k <= cur \/ cur + l_bytes l <= k /\ aligned ls (k - (cur + l_bytes l))) as Hedge.
  { intros k Hk. destruct (decide (k <= cur)); [by left|]. right.
    destruct (aligned_cons _ _ _ (Hk ltac:(lia))) as [?|[? ?]]; [lia|].
    rw Nat.sub_add_distr. split; [lia|done]. }
  split_and!; [done| |].
  - intros x Hx. apply bool_decide_ext. rw !Exists_exists.
    apply exist_proper. intros [[s e] ins].
    split; intros [Hin Hs]; (split; [done|]); destruct (Hal _ _ _ Hin) as [H1%Hedge H2%Hedge];
      unfold in_edit in *; simpl in *; lia.
  - apply IH; [done|]. intros s e ins Hin. destruct (Hal _ _ _ Hin) as [H1%Hedge H2%Hedge].
    split; intros ?.
    + destruct H1 as [?|[_ ?]]; [|done]. lia.
    + destruct H2 as [?|[_ ?]]; [|done]. lia.
Qed.

Lemma ascending_snoc cur total edits s e ins :
  ascending cur s edits -> s <= e -> e <= total ->
  ascending cur total (edits ++ [(s, e, ins)]).
Proof.
  revert cur. induction edits as [|[[s' e'] ins'] edits IH]; intros cur; simpl; [done|].
  intros (? & ? & ?) ? ?. auto.
Qed.

(** The last edit applied first. *)
Lemma edited_snoc D cur edits s e ins :
  ascending cur s edits -> s <= e -> s - cur <= length D ->
  edited D cur (edits ++ [(s, e, ins)])
  = edited (splice D (s - cur) (e - s) (from_option leaf_cells [] ins)) cur edits.
Proof.
  revert D cur. induction edits as [|[[s' e'] ins'] edits IH]; intros D cur Ha He Hlen; simpl in *.
  - unfold splice. by replace (s - cur + (e - s)) with (e - cur) by lia.
  - destruct Ha as (? & ? & Ha). pose proof (ascending_le _ _ _ Ha).
    rw IH //; [rw length_drop; lia|]. unfold splice.
    rw take_app_le; [rw length_take; lia|]. rw take_take Nat.min_l; [lia|].
    rw drop_app_le; [rw length_take; lia|]. rw skipn_firstn_comm drop_drop.
    replace (s - cur - (e' - cur)) with (s - e') by lia.
    by replace (e' - cur + (s - e' + (e - s))) with (s - cur + (e - s)) by lia.
Qed.

(** ** Sequential application *)
Definition apply_edit (T : list byte) (e : Edit) : list byte :=
  splice T e.1.1 e.1.2 e.2.

(** The next edit lies before the previous one. *)
Definition edit_before (a b : Edit) : Prop := b.1.1 + b.1.2 <= a.1.1.
#[export] Instance edit_before_dec a b : Decision (edit_before a b) := decide_rel le (b.1.1 + b.1.2) a.1.1.

Section sequential.
Context (content : nat -> nat -> byte) (buffers : list StringBuffer) (usize_max : nat).
Context {S : Type} (add_text_fn : S -> list byte -> S * LeafData).
Hypothesis Hagree : buffers_agree content buffers.

(** The leaf returned for an edit holds its text. *)
Definition added (e : Edit) (r : EditRange) : Prop :=
  match r.2 with
  | Some l => leaf_ok content buffers l /\ leaf_text content l = e.2
  | None => e.2 = []
  end.

Lemma edit_ranges_cons total s p d txt edits :
  exists s' ins, (edit_ranges usize_max add_text_fn total s ((p, d, txt) :: edits)).2
    = (p, Nat.min (saturating_add usize_max p d) total, ins)
      :: (edit_ranges usize_max add_text_fn total s' edits).2.
Proof.
  simpl. destruct txt as [|b txt].
  - destruct (edit_ranges _ _ _ s edits) as [s'' rest] eqn:E. exists s, None. by rw E.
  - destruct (add_text_fn s (b :: txt)) as [s' l].
    destruct (edit_ranges _ _ _ s' edits) as [s'' rest] eqn:E. exists s', (Some l). by rw E.
Qed.

Lemma ranges_ascending total s edits limit :
  total <= usize_max -> Sorted edit_before edits -> limit <= total ->
  (forall p d txt, head edits = Some (p, d, txt) ->
     p <= total /\ Nat.min (p + d) total <= limit) ->
  ascending 0 limit (rev (edit_ranges usize_max add_text_fn total s edits).2).
Proof.
  intros Hmax. revert s limit. induction edits as [|[[p d] txt] edits IH]; intros s limit Hs Hlim Hhd.
  { simpl. lia. }
  destruct (edit_ranges_cons total s p d txt edits) as (s' & ins & ->). cbn [rev].
  apply Sorted_inv in Hs as [Hs Hrel]. destruct (Hhd p d txt eq_refl) as [Hp Hd].
  unfold saturating_add. apply ascending_snoc; [|lia..]. apply IH; [done..|].
  intros p' d' txt' Hh. destruct edits as [|e' edits]; [done|]. injection Hh as ->.
  inversion Hrel as [|? ? Hb]; subst. unfold edit_before in Hb. simpl in Hb. lia.
Qed.

(** The document after all edits is the one after each edit in turn. *)
Lemma edited_sequential total s edits D :
  total <= usize_max -> Sorted edit_before edits ->
  (forall p d txt, head edits = Some (p, d, txt) ->
     p <= total /\ p <= length D /\ (p + d <= total \/ length D <= total)) ->
  Forall2 added edits (edit_ranges usize_max add_text_fn total s edits).2 ->
  cell_byte content <$> edited D 0 (rev (edit_ranges usize_max add_text_fn total s edits).2)
  = foldl apply_edit (cell_byte content <$> D) edits.
Proof.
  intros Hmax. revert s D. induction edits as [|[[p d] txt] edits IH]; intros s D Hs Hhd Hadd; [done|].
  pose proof Hs as [Hs' Hrel]%Sorted_inv. destruct (Hhd p d txt eq_refl) as (Hp & HpD & Hd).
  pose proof (ranges_ascending total s ((p, d, txt) :: edits) total Hmax Hs) as Hasc.
  destruct (edit_ranges_cons total s p d txt edits) as (s' & ins & Heq). rw Heq in Hadd Hasc |- *.
  apply Forall2_cons in Hadd as [Hins Hadd]. unfold saturating_add in *.
  assert (forall p' d' txt', head edits = Some (p', d', txt') -> p' + d' <= p) as Hnext.
  { intros p' d' txt' Hh. destruct edits as [|e' edits]; [done|]. injection Hh as ->.
    by inversion Hrel. }
  cbn [rev foldl]. rw edited_snoc; [|lia|lia|].
  { apply ranges_ascending; [done..|]. intros p' d' txt' Hh%Hnext. lia. }
  rw Nat.sub_0_r. rw IH //.
  { intros p' d' txt' Hh%Hnext. unfold splice. rw length_app length_take. lia. }
  f_equal. unfold apply_edit, splice. cbn [fst snd]. rw !fmap_app fmap_take !fmap_drop.
  f_equal. f_equal.
  - unfold added in Hins. cbn [snd] in Hins. destruct ins as [l|]; simpl; [apply Hins|done].
  - destruct (decide (p + d <= total)).
    + f_equal. lia.
    + rw !drop_ge //; rw length_fmap; lia.
Qed.
Lemma range_of_edit total s edits p e ins :
  (p, e, ins) ∈ (edit_ranges usize_max add_text_fn total s edits).2 ->
  exists d txt, (p, d, txt) ∈ edits /\ e = Nat.min (saturating_add usize_max p d) total.
Proof.
  revert s. induction edits as [|[[p' d'] txt'] edits IH]; intros s Hin.
  { by apply not_elem_of_nil in Hin. }
  destruct (edit_ranges_cons total s p' d' txt' edits) as (s' & ins' & Heq). rw Heq in Hin.
  apply elem_of_cons in Hin as [[= -> -> ->]|Hin].
  - exists d', txt'. split; [by left|done].
  - destruct (IH s' Hin) as (d & txt & ? & ?). exists d, txt. split; [by right|done].
Qed.

(** Every edge of a range is a split point. *)
Lemma range_points total s edits p e ins :
  (p, e, ins) ∈ (edit_ranges usize_max add_text_fn total s edits).2 -> p <= e ->
  let sps := dedup (merge_sort le (concat (edit_split_points usize_max total <$> edits))) in
  p ∈ sps /\ e ∈ sps.
Proof.
  intros Hin Hpe. cbv zeta. rw !elem_of_dedup merge_sort_Permutation.
  destruct (range_of_edit _ _ _ _ _ _ Hin) as (d & txt & He & ->).
  assert (forall x, x ∈ edit_split_points usize_max total (p, d, txt) ->
    x ∈ concat (edit_split_points usize_max total <$> edits)) as Hsub.
  { intros x Hx. apply list_elem_of_In, in_concat. exists (edit_split_points usize_max total (p, d, txt)).
    split; apply list_elem_of_In; [by apply list_elem_of_fmap_2|done]. }
  split; apply Hsub; [by left|]. unfold edit_split_points.
  destruct (decide (Nat.min (saturating_add usize_max p d) total = p)) as [->|Hne]; [by left|].
  right. rw decide_True; [unfold saturating_add in *; lia|].
  rw decide_True; [lia|]. by left.
Qed.

#[local] Instance pair_le_trans : Transitive pair_le.
Proof. intros [a b] [c d] [e f]. unfold pair_le. simpl. lia. Qed.

#[local] Instance pair_le_total : Total pair_le.
Proof. intros [a b] [c d]. unfold pair_le. simpl. lia. Qed.

(** The delete ranges of the walk cover the bytes the edits delete. *)
Lemma delete_ranges_ok (ranges : list EditRange) :
  let ds := merge_deletes [] (merge_sort pair_le
              (fst <$> List.filter (fun e => bool_decide (e.1.1 < e.1.2)) ranges)) in
  separated ds /\ forall x, covered ds x <-> Exists (in_edit x) (rev ranges).
Proof.
  cbv zeta. set (fs := fst <$> List.filter _ ranges).
  assert (forall r, r ∈ fs <-> exists ins, (r, ins) ∈ ranges /\ r.1 < r.2) as Hfs.
  { intros r. unfold fs. rw list_elem_of_fmap. setoid_rewrite list_elem_of_In.
    setoid_rewrite filter_In. setoid_rewrite bool_decide_eq_true. split.
    - intros ([r' ins] & -> & Hin & ?). by exists ins.
    - intros (ins & Hin & ?). by exists (r, ins). }
  destruct (merge_deletes_ok [] (merge_sort pair_le fs)) as [Hsep Hcov].
  { split; constructor. }
  { apply Sorted_StronglySorted, Sorted_merge_sort; apply _. }
  { rw merge_sort_Permutation. apply Forall_forall. intros r (ins & _ & ?)%Hfs. done. }
  { done. }
  split; [done|]. intros x. rw Hcov. simpl. unfold covered at 1. rw Exists_nil.
  unfold covered. rw merge_sort_Permutation !Exists_exists. split.
  - intros [[]|(r & (ins & Hin & _)%Hfs & Hx)]. exists (r, ins).
    split; [|done]. apply list_elem_of_In, in_rev. rw rev_involutive. by apply list_elem_of_In.
  - intros ([r ins] & Hin & Hx). right. exists r. split; [|done]. apply Hfs. exists ins.
    unfold in_edit in Hx. simpl in Hx. split; [|lia].
    apply list_elem_of_In, in_rev. by apply list_elem_of_In.
Qed.
Lemma walked_Forall (P : LeafData -> Prop) ls cur edits deleted :
  Forall P ls -> Forall (fun r => from_option P True r.2) edits ->
  Forall P (walked ls cur edits deleted).
Proof.
  revert cur edits. induction ls as [|l ls IH]; intros cur edits Hls Hed; simpl.
  - induction Hed as [|[[s e] [k|]] edits Hk _ IHe]; simpl; [done| |done]. by apply Forall_cons_2.
  - apply Forall_cons in Hls as [Hl Hls].
    assert (Forall P (take_inserts edits cur).1
            /\ Forall (fun r => from_option P True r.2) (take_inserts edits cur).2) as [H1 H2].
    { clear -Hed. induction Hed as [|[[s e] k] edits Hk Hed IHe]; simpl; [done|]. case_decide.
      - split; [done|]. by apply Forall_cons_2.
      - destruct (take_inserts edits cur) as [ins rest]. destruct IHe.
        split; [|done]. destruct k; [by apply Forall_cons_2|done]. }
    destruct (take_inserts edits cur) as [ins rest]. simpl in *.
    rw !Forall_app. split_and!; [done| |by apply IH]. destruct (deleted cur); solve_Forall.
Qed.

Lemma added_leaves edits ranges :
  Forall2 added edits ranges ->
  Forall (fun r => from_option (leaf_ok content buffers) True r.2) (rev ranges).
Proof.
  intros H. apply List.Forall_rev. induction H as [|e [r [l|]] edits ranges Hx _ IH]; [done| |];
    (apply Forall_cons_2; [|done]); simpl; [apply Hx|done].
Qed.

(** The leaves after the walk. *)
Lemma bulk_leaves_ok ls (ranges : list EditRange) :
  Forall (leaf_ok content buffers) ls -> Forall (fun l => 0 < l_bytes l) ls ->
  Forall (fun r => from_option (leaf_ok content buffers) True r.2) (rev ranges) ->
  ascending 0 (length (cells_of ls)) (rev ranges) ->
  (forall s e ins, (s, e, ins) ∈ rev ranges -> aligned ls s /\ aligned ls e) ->
  let ds := merge_deletes [] (merge_sort pair_le
              (fst <$> List.filter (fun e => bool_decide (e.1.1 < e.1.2)) ranges)) in
  let new_leaves := apply_edits_to_leaves ls 0 (rev ranges) ds in
  cells_of new_leaves = edited (cells_of ls) 0 (rev ranges)
  /\ Forall (leaf_ok content buffers) new_leaves.
Proof.
  intros Hok Hne Hins Hasc Hedges. cbv zeta.
  destruct (delete_ranges_ok ranges) as [Hsep Hcov]. set (ds := merge_deletes [] _) in *.
  assert (forall x, bool_decide (covered ds x) = bool_decide (Exists (in_edit x) (rev ranges))) as Hb.
  { intros x. apply bool_decide_ext, Hcov. }
  rw apply_edits_walked //.
  - eapply uniform_ext; [intros x _; symmetry; apply Hb|]. apply uniform_aligned; [done|].
    intros s e ins Hin. destruct (Hedges _ _ _ Hin). by rw !Nat.sub_0_r.
  - split; [|by apply walked_Forall]. apply walked_cells; [done..| |by intros x _].
    intros s e ins Hin. rw !Nat.sub_0_r. exact (Hedges _ _ _ Hin).
Qed.

Lemma apply_bulk_edits_ok t edits s :
  tree_inv content buffers t -> total_bytes t <= usize_max -> Sorted edit_before edits ->
  (forall e, head edits = Some e -> e.1.1 <= total_bytes t) ->
  Forall2 added edits (edit_ranges usize_max add_text_fn (total_bytes t) s edits).2 ->
  exists t' s' delta,
    apply_bulk_edits usize_max add_text_fn t edits buffers s = Ok (t', s', delta)
    /\ tree_inv content buffers t'
    /\ text content t' = foldl apply_edit (text content t) edits
    /\ delta = (Z.of_nat (total_bytes t') - Z.of_nat (total_bytes t))%Z.
Proof.
  intros Hinv Hmax Hs Hhd Hadd. pose proof Hinv as [[Hwf Ht] Hok].
  destruct (decide (edits = [])) as [->|Hne].
  { exists t, s, 0%Z. split_and!; [done..|lia]. }
  unfold apply_bulk_edits. destruct edits as [|e0 edits0] eqn:Hed; [done|]. rw -Hed in Hs Hhd Hadd |- *.
  set (sps := dedup (merge_sort le (concat (edit_split_points usize_max (total_bytes t) <$> edits)))).
  assert (StronglySorted le sps) as Hsps.
  { apply StronglySorted_dedup, Sorted_StronglySorted, Sorted_merge_sort; apply _. }
  destruct (multi_split_ok content buffers Hagree (root t) 0 sps []) as (ls & -> & Hlok & Hlne & Hc & Hal);
    [done..|].
  cbn [mbind res_bind app]. unfold doc in Ht.
  assert (ascending 0 (total_bytes t)
    (rev (edit_ranges usize_max add_text_fn (total_bytes t) s edits).2)) as Hasc.
  { apply ranges_ascending; [done..|]. intros p d txt Hh%Hhd. simpl in Hh. lia. }
  pose proof (edited_sequential (total_bytes t) s edits (node_cells (root t)) Hmax Hs) as Hseq.
  pose proof (range_points (total_bytes t) s edits) as Hpts. fold sps in Hpts. cbv zeta in Hpts.
  destruct (edit_ranges usize_max add_text_fn (total_bytes t) s edits) as [s' ranges].
  simpl in Hadd, Hasc, Hseq, Hpts.
  assert (forall s e ins, (s, e, ins) ∈ rev ranges -> aligned ls s /\ aligned ls e) as Hedges.
  { intros p e ins Hin. destruct (ascending_bounds _ _ _ _ _ _ Hasc Hin) as (_ & ? & ?).
    rw list_elem_of_In -in_rev -list_elem_of_In in Hin.
    destruct (Hpts p e ins Hin) as [Hp He]; [done|].
    apply Hal in Hp; [|lia]. apply Hal in He; [|lia]. by rw !Nat.sub_0_r in Hp He. }
  rw Ht -Hc in Hasc. destruct (bulk_leaves_ok ls ranges) as [Hcells Hall];
    [done|done|exact (added_leaves _ _ Hadd)|done|done|].
  rw Hc in Hcells. set (new := apply_edits_to_leaves _ _ _ _) in *.
  eexists _, _, _. split; [done|]. split_and!; [split; [split|]| |done].
  - apply build_balanced_wf.
  - unfold doc. simpl. by rw build_balanced_cells length_cells_of.
  - by apply build_balanced_ok.
  - unfold text, doc. simpl. rw build_balanced_cells Hcells. apply Hseq; [|done].
    intros p d txt Hh%Hhd. simpl in Hh. lia.
Qed.
End sequential.

(** ** Properties *)

(** C4: for edits in descending order that do not overlap, starting inside the
    document, [apply_bulk_edits] never panics, keeps the invariant, and gives the
    text that applying the edits one by one gives; it returns the change in
    length.  The texts are stored by [add_text_fn], whose leaves hold them. *)
Theorem apply_bulk_edits_sequential content buffers usize_max (S : Type)
    (add_text_fn : S -> list byte -> S * LeafData) t edits s :
  buffers_agree content buffers -> tree_inv content buffers t -> total_bytes t <= usize_max ->
  Sorted edit_before edits -> Forall (fun e => e.1.1 <= total_bytes t) edits ->
  Forall2 (added content buffers) edits
    (edit_ranges usize_max add_text_fn (total_bytes t) s edits).2 ->
  exists t' s' delta,
    apply_bulk_edits usize_max add_text_fn t edits buffers s = Ok (t', s', delta)
    /\ tree_inv content buffers t'
    /\ text content t' = foldl apply_edit (text content t) edits
    /\ delta = (Z.of_nat (length (text content t')) - Z.of_nat (length (text content t)))%Z.
Proof.
  intros Hag Hinv Hmax Hs Hpos Hadd.
  destruct (apply_bulk_edits_ok content buffers usize_max add_text_fn Hag t edits s)
    as (t' & s' & delta & Heq & Hinv' & Htext & Hdelta); [done..| |done|].
  { intros e He. destruct edits as [|e' edits]; [done|]. injection He as ->. by inversion Hpos. }
  exists t', s', delta. split_and!; [done..|]. destruct Hinv as [[_ Ht] _], Hinv' as [[_ Ht'] _].
  unfold text. by rw !length_fmap -Ht -Ht'.
Qed.

Lemma apply_bulk_edits_sequential_witness :
  let add_text_fn := fun (s : nat) (txt : list byte) => (s + 1, mkLeaf (Added 1) s (length txt) None) in
  let edits := [(4, 1, []); (2, 1, [x63]); (2, 0, []); (1, 1, [x64])] : list Edit in
  exists t' s' delta,
    apply_bulk_edits 1000 add_text_fn two_piece_tree edits two_piece_buffers 0 = Ok (t', s', delta)
    /\ tree_inv (content_of two_piece_buffers) two_piece_buffers t'
    /\ text (content_of two_piece_buffers) t' = [x61; x64; x63; x64]
    /\ delta = (Z.of_nat (length (text (content_of two_piece_buffers) t')) - 5)%Z.
Proof.
  intros add_text_fn edits.
  apply (apply_bulk_edits_sequential (content_of two_piece_buffers) two_piece_buffers 1000 nat add_text_fn two_piece_tree edits 0).
  - apply content_of_agree.
  - apply two_piece_inv.
  - cbn. lia.
  - by apply (bool_decide_unpack _).
  - by apply (bool_decide_unpack _).
  - repeat apply Forall2_cons_2; try apply Forall2_nil_2; try reflexivity;
      (split; [by apply leaf_ok_b_sound|reflexivity]).
Defined.
