(* ===== verification/MarkerTree.v ===== *)
(** * The marker tree

    Models crates/fresh-editor-core/src/model/marker_tree.rs: an AVL tree of
    marker intervals ordered by position, augmented with heights, sizes and
    maximal ends, whose edits shift whole subtrees by lazy deltas.

    Nodes are [Rc<RefCell<Node>>] with weak parent pointers; the pointer graph is
    a tree, so a node is an inductive value and mutating a node in place is
    rebuilding the path from the root to it.  [marker_map] sends an id to the node
    that carries the marker with that id, so the map is its set of keys, and
    following it is finding the node with that id.  [u64] and [i64] values are
    integers; [shift] is [(x as i64 + d) as u64], with two's complement
    arithmetic.  A failing [unwrap] or [debug_assert!] is [Panic]. *)
From stdpp Require Import base numbers list option sorting gmap.
From Stdlib Require Import ssreflect.
From Equations Require Import Equations.
From S2P Require Import Prelude.

#[local] Open Scope Z_scope.

(** ** Machine integers *)
Definition to_u64 (z : Z) : Z := z mod 2 ^ 64.

Definition to_i64 (z : Z) : Z :=
  let m := z mod 2 ^ 64 in if decide (m < 2 ^ 63) then m else m - 2 ^ 64.

Definition add_i64 (a b : Z) : Z := to_i64 (a + b).

(** [(x as i64 + d) as u64] *)
Definition shift (x d : Z) : Z := to_u64 (add_i64 (to_i64 x) d).

(** ** Markers and nodes *)
Record Interval : Type := mkInterval { i_start : Z; i_end : Z }.

Inductive MarkerType : Type := Position.

Record Marker : Type := mkMarker {
  m_id : Z;
  interval : Interval;
  marker_type : MarkerType;
  right_gravity : bool;
  order : Z;
}.

#[export] Instance Interval_eq_dec : EqDecision Interval.
Proof. solve_decision. Defined.
#[export] Instance MarkerType_eq_dec : EqDecision MarkerType.
Proof. solve_decision. Defined.
#[export] Instance Marker_eq_dec : EqDecision Marker.
Proof. solve_decision. Defined.

Definition m_start (m : Marker) : Z := i_start (interval m).
Definition m_end (m : Marker) : Z := i_end (interval m).

Definition set_interval (m : Marker) (start end_ : Z) : Marker :=
  mkMarker (m_id m) (mkInterval start end_) (marker_type m) (right_gravity m) (order m).

(** [NodePtr]: [None] or a node. *)
Inductive Tree : Type :=
| Nil
| Node (marker : Marker) (height : nat) (max_end : Z) (size : nat) (lazy_delta : Z)
       (lft rgt : Tree).

Definition node_new (m : Marker) : Tree := Node m 1 (m_end m) 1 0 Nil Nil.

Definition t_size (t : Tree) : nat :=
  match t with Nil => 0%nat | Node _ _ _ size _ _ _ => size end.

Definition t_height (t : Tree) : nat :=
  match t with Nil => 0%nat | Node _ height _ _ _ _ _ => height end.

(** [map_or(0, |l| l.borrow().max_end)] *)
Definition t_max_end (t : Tree) : Z :=
  match t with Nil => 0 | Node _ _ max_end _ _ _ _ => max_end end.

Definition t_left (t : Tree) : Tree := match t with Nil => Nil | Node _ _ _ _ _ l _ => l end.
Definition t_right (t : Tree) : Tree := match t with Nil => Nil | Node _ _ _ _ _ _ r => r end.

(** [key()] and the derived comparison of keys. *)
Definition key (m : Marker) : Z * Z * Z := (m_start m, order m, m_id m).

Definition key_lt (a b : Z * Z * Z) : Prop :=
  a.1.1 < b.1.1 \/ a.1.1 = b.1.1 /\ (a.1.2 < b.1.2 \/ a.1.2 = b.1.2 /\ a.2 < b.2).
#[export] Instance key_lt_dec a b : Decision (key_lt a b) := _.

(** [sort_unstable_by_key]'s order. *)
Definition key_le (a b : Marker) : Prop := ~ key_lt (key b) (key a).
#[export] Instance key_le_dec a b : Decision (key_le a b) := _.

Definition balance_factor (t : Tree) : Z :=
  Z.of_nat (t_height (t_left t)) - Z.of_nat (t_height (t_right t)).

(** [lazy_delta += delta] on a child, if there is one. *)
Definition add_delta (delta : Z) (t : Tree) : Tree :=
  match t with
  | Nil => Nil
  | Node m h me sz d l r => Node m h me sz (add_i64 d delta) l r
  end.

(** [marker] with pending deltas applied. *)
Definition resolved (m : Marker) (delta : Z) : Marker :=
  set_interval m (shift (m_start m) delta) (shift (m_end m) delta).

Definition push_delta (t : Tree) : Tree :=
  match t with
  | Nil => Nil
  | Node m h me sz delta l r =>
      if decide (delta = 0) then t else
      let m := resolved m delta in
      let l := add_delta delta l in
      let r := add_delta delta r in
      Node m h (Z.max (m_end m) (Z.max (t_max_end l) (t_max_end r))) sz 0 l r
  end.

Definition update_stats (t : Tree) : Tree :=
  match t with
  | Nil => Nil
  | Node m _ _ _ d l r =>
      Node m (1 + Nat.max (t_height l) (t_height r))
        (Z.max (m_end m) (Z.max (t_max_end l) (t_max_end r)))
        (1 + t_size l + t_size r) d l r
  end.

(** ** AVL balancing *)
Definition rotate_left (t : Tree) : res Tree :=
  match push_delta t with
  | Node y hy mey szy dy a x =>
      match push_delta x with
      | Node xm hx mex szx dx b c =>
          let y := update_stats (Node y hy mey szy dy a b) in
          Ok (update_stats (Node xm hx mex szx dx y c))
      | Nil => Panic
      end
  | Nil => Panic
  end.

Definition rotate_right (t : Tree) : res Tree :=
  match push_delta t with
  | Node y hy mey szy dy x c =>
      match push_delta x with
      | Node xm hx mex szx dx a b =>
          let y := update_stats (Node y hy mey szy dy b c) in
          Ok (update_stats (Node xm hx mex szx dx a y))
      | Nil => Panic
      end
  | Nil => Panic
  end.

Definition balance (t : Tree) : res Tree :=
  match t with
  | Nil => Ok Nil
  | Node m h me sz d l r =>
      let bf := balance_factor t in
      if decide (1 < bf) then
        match l with
        | Nil => Panic
        | Node _ _ _ _ _ _ _ =>
            l ← (if decide (balance_factor l < 0) then rotate_left l else Ok l);
            rotate_right (Node m h me sz d l r)
        end
      else if decide (bf < -1) then
        match r with
        | Nil => Panic
        | Node _ _ _ _ _ _ _ =>
            r ← (if decide (0 < balance_factor r) then rotate_right r else Ok r);
            rotate_left (Node m h me sz d l r)
        end
      else Ok t
  end.

(** The number of nodes, the measure of the recursions that push deltas on the
    way down. *)
Fixpoint nodes (t : Tree) : nat :=
  match t with Nil => 0%nat | Node _ _ _ _ _ l r => (1 + nodes l + nodes r)%nat end.

Lemma nodes_add_delta d t : nodes (add_delta d t) = nodes t.
Proof. by destruct t. Qed.

Lemma nodes_push_delta t : nodes (push_delta t) = nodes t.
Proof. destruct t as [|m h me sz d l r]; [done|]. simpl. case_decide; [done|]. simpl. by rw !nodes_add_delta. Qed.

Lemma pushed_left t m h me sz d l r :
  push_delta t = Node m h me sz d l r -> (nodes l < nodes t)%nat /\ (nodes r < nodes t)%nat.
Proof. intros H. rw -(nodes_push_delta t) H. simpl. lia. Qed.

(** A value with the equation that defines it. *)
Definition inspect {A} (a : A) : {b | a = b} := exist _ a eq_refl.

(** ** Insertion *)
Equations? insert_recursive (t : Tree) (new : Marker) : res Tree by wf (nodes t) lt :=
  insert_recursive t new with inspect (push_delta t) := {
    | exist _ Nil _ => Ok (node_new new);
    | exist _ (Node m h me sz d l r) Hpush =>
        t' ← (if decide (key_lt (key new) (key m)) then
                l' ← insert_recursive l new; Ok (Node m h me sz d l' r)
              else
                r' ← insert_recursive r new; Ok (Node m h me sz d l r'));
        balance (update_stats t') }.
Proof. all: apply pushed_left in Hpush; lia. Qed.

(** ** Deletion *)

(** The removal of the leftmost node of a subtree and the rebalancing on the way
    back up: [min_node], the splice of its right child, and the part of
    [rebalance_upward] inside the subtree. *)
Equations? remove_min (t : Tree) : res (option (Marker * Tree)) by wf (nodes t) lt :=
  remove_min t with inspect (push_delta t) := {
    | exist _ Nil _ => Ok None;
    | exist _ (Node m h me sz d l r) Hpush =>
        below ← remove_min l;
        match below with
        | None => Ok (Some (m, r))
        | Some (min, l') =>
            t' ← balance (update_stats (Node m h me sz d l' r));
            Ok (Some (min, t'))
        end }.
Proof. apply pushed_left in Hpush. lia. Qed.

(** The removal of a node whose deltas are pushed. *)
Definition remove_node (t : Tree) : res Tree :=
  match t with
  | Nil => Panic
  | Node m h me sz d Nil r => Ok r
  | Node m h me sz d l Nil => Ok l
  | Node m h me sz d l r =>
      succ ← remove_min r;
      match succ with
      | None => Panic
      | Some (succ, r') => balance (update_stats (Node succ h me sz d l r'))
      end
  end.

(** [delete] below the root: the path to the node with the id is pushed
    ([push_to_node]), the node is removed, and the path is rebalanced
    ([rebalance_upward]).  [None]: the id is not in the subtree. *)
Equations? delete_below (t : Tree) (id : Z) : res (option Tree) by wf (nodes t) lt :=
  delete_below t id with inspect (push_delta t) := {
    | exist _ Nil _ => Ok None;
    | exist _ (Node m h me sz d l r) Hpush =>
        if decide (m_id m = id) then
          t' ← remove_node (Node m h me sz d l r); Ok (Some t')
        else
          in_left ← delete_below l id;
          match in_left with
          | Some l' =>
              t' ← balance (update_stats (Node m h me sz d l' r)); Ok (Some t')
          | None =>
              in_right ← delete_below r id;
              match in_right with
              | Some r' =>
                  t' ← balance (update_stats (Node m h me sz d l r')); Ok (Some t')
              | None => Ok None
              end
          end }.
Proof. all: apply pushed_left in Hpush; lia. Qed.

(** ** Edits *)

(** The new start and end of a node's marker. *)
Definition adjust_start (m : Marker) (pos delta : Z) : Z :=
  let start := m_start m in
  if decide (pos <= start) then
    let stay_put := negb (right_gravity m) && bool_decide (0 < delta) && bool_decide (pos = start) in
    if stay_put : bool then start
    else if decide (delta < 0) then to_u64 (Z.max (add_i64 (to_i64 start) delta) (to_i64 pos))
    else shift start delta
  else start.

Definition adjust_end (m : Marker) (new_start pos delta : Z) : Z :=
  let end_ := m_end m in
  let shift_end := if negb (right_gravity m) && bool_decide (0 < delta)
                   then bool_decide (pos < end_) else bool_decide (pos <= end_) in
  if shift_end : bool
  then to_u64 (Z.max (add_i64 (to_i64 end_) delta) (to_i64 new_start)) else end_.

Equations? adjust_recursive (t : Tree) (pos delta : Z) : Tree by wf (nodes t) lt :=
  adjust_recursive t pos delta with inspect (push_delta t) := {
    | exist _ Nil _ => Nil;
    | exist _ (Node m h me sz d l r) Hpush =>
        let start := m_start m in
        let new_start := adjust_start m pos delta in
        let new_end := adjust_end m new_start pos delta in
        let r' := if decide (pos <= start)
                  then if decide (delta < 0 \/ pos = start)
                       then adjust_recursive r pos delta
                       else add_delta delta r
                  else adjust_recursive r pos delta in
        let l' := if decide (pos <= start) then adjust_recursive l pos delta else l in
        update_stats (Node (set_interval m new_start new_end) h me sz d l' r') }.
Proof. all: clear -Hpush; apply pushed_left in Hpush; lia. Qed.

(** A marker [collect_starts_at] found at a position. *)
Record StartsAt : Type := mkStartsAt {
  sa_id : Z; sa_end : Z; sa_right_gravity : bool; sa_marker_type : MarkerType; sa_order : Z
}.

Fixpoint collect_starts_at (t : Tree) (acc_delta pos : Z) : list StartsAt :=
  match t with
  | Nil => []
  | Node m _ _ _ lazy_delta l r =>
      let d := add_i64 acc_delta lazy_delta in
      let start := shift (m_start m) d in
      match pos ?= start with
      | Lt => collect_starts_at l d pos
      | Gt => collect_starts_at r d pos
      | Eq =>
          mkStartsAt (m_id m) (shift (m_end m) d) (right_gravity m) (marker_type m) (order m)
          :: collect_starts_at l d pos ++ collect_starts_at r d pos
      end
  end.

(** ** The tree and its API *)
Record IntervalTree : Type := mkIntervalTree {
  it_root : Tree;
  next_id : Z;
  marker_map : gset Z;
}.

Definition it_new : IntervalTree := mkIntervalTree Nil 0 ∅.

Definition insert_with_id (t : IntervalTree) (id start end_ : Z) (mt : MarkerType)
    (right_gravity : bool) (order : Z) : res IntervalTree :=
  if decide (next_id t <= id \/ id ∈ marker_map t) then Panic else
  root ← insert_recursive (it_root t)
           (mkMarker id (mkInterval start end_) mt right_gravity order);
  Ok (mkIntervalTree root (next_id t) ({[id]} ∪ marker_map t)).

Definition insert_full (t : IntervalTree) (start end_ : Z) (mt : MarkerType)
    (right_gravity : bool) (order : Z) : res (IntervalTree * Z) :=
  let id := next_id t in
  root ← insert_recursive (it_root t)
           (mkMarker id (mkInterval start end_) mt right_gravity order);
  Ok (mkIntervalTree root (to_u64 (next_id t + 1)) ({[id]} ∪ marker_map t), id).

Definition insert_with_type (t : IntervalTree) (start end_ : Z) (mt : MarkerType)
    : res (IntervalTree * Z) := insert_full t start end_ mt true 0.

Definition it_insert (t : IntervalTree) (start end_ : Z) : res (IntervalTree * Z) :=
  insert_with_type t start end_ Position.

Definition insert_left_gravity (t : IntervalTree) (start end_ : Z) : res (IntervalTree * Z) :=
  insert_full t start end_ Position false 0.

Definition insert_ordered (t : IntervalTree) (start end_ order : Z) (right_gravity : bool)
    : res (IntervalTree * Z) :=
  insert_full t start end_ Position right_gravity order.

Definition it_delete (t : IntervalTree) (id : Z) : res (IntervalTree * bool) :=
  if decide (id ∈ marker_map t) then
    root ← delete_below (it_root t) id;
    match root with
    | Some root => Ok (mkIntervalTree root (next_id t) (marker_map t ∖ {[id]}), true)
    | None => Panic
    end
  else Ok (t, false).

(** The sum of the deltas on the path up from a node, applied to its interval. *)
Fixpoint position_below (t : Tree) (acc id : Z) : option (Z * Z) :=
  match t with
  | Nil => None
  | Node m _ _ _ lazy_delta l r =>
      let d := add_i64 acc lazy_delta in
      if decide (m_id m = id) then Some (shift (m_start m) d, shift (m_end m) d)
      else match position_below l d id with
           | Some p => Some p
           | None => position_below r d id
           end
  end.

Definition get_position (t : IntervalTree) (id : Z) : option (Z * Z) :=
  if decide (id ∈ marker_map t) then position_below (it_root t) 0 id else None.

Fixpoint marker_below (t : Tree) (id : Z) : option Marker :=
  match t with
  | Nil => None
  | Node m _ _ _ _ l r =>
      if decide (m_id m = id) then Some m
      else match marker_below l id with Some m => Some m | None => marker_below r id end
  end.

(** The stored marker: its interval lacks the pending deltas. *)
Definition get_marker (t : IntervalTree) (id : Z) : option Marker :=
  if decide (id ∈ marker_map t) then marker_below (it_root t) id else None.

Definition set_position (t : IntervalTree) (id new_start new_end : Z)
    : res (IntervalTree * bool) :=
  match get_marker t id with
  | None => Ok (t, false)
  | Some m =>
      '(t, deleted) ← it_delete t id;
      if deleted : bool then
        t ← insert_with_id t id new_start new_end (marker_type m) (right_gravity m) (order m);
        Ok (t, true)
      else Ok (t, false)
  end.

(** [for m in &stayers { self.delete(m.id); }] *)
Fixpoint delete_all (t : IntervalTree) (ids : list Z) : res IntervalTree :=
  match ids with
  | [] => Ok t
  | id :: ids => '(t, _) ← it_delete t id; delete_all t ids
  end.

Fixpoint reinsert_all (t : IntervalTree) (pos delta : Z) (stayers : list StartsAt)
    : res IntervalTree :=
  match stayers with
  | [] => Ok t
  | m :: stayers =>
      let new_end := if decide (pos < sa_end m) then shift (sa_end m) delta else sa_end m in
      t ← insert_with_id t (sa_id m) pos new_end (sa_marker_type m) false (sa_order m);
      reinsert_all t pos delta stayers
  end.

Definition adjust_root (t : IntervalTree) (pos delta : Z) : IntervalTree :=
  mkIntervalTree (adjust_recursive (it_root t) pos delta) (next_id t) (marker_map t).

Definition adjust_for_edit (t : IntervalTree) (pos delta : Z) : res IntervalTree :=
  if decide (0 < delta) then
    let at_pos := collect_starts_at (it_root t) 0 pos in
    let has_mover := existsb sa_right_gravity at_pos in
    let stayers := List.filter (fun m => negb (sa_right_gravity m)) at_pos in
    if has_mover && negb (bool_decide (stayers = [])) then
      t ← delete_all t (sa_id <$> stayers);
      reinsert_all (adjust_root t pos delta) pos delta stayers
    else Ok (adjust_root t pos delta)
  else Ok (adjust_root t pos delta).

(** ** Queries *)

(** [query] takes [&self] but pushes deltas through the [RefCell]s: the tree
    afterwards and the markers found. *)
Equations? query_recursive (t : Tree) (query_start query_end : Z) : Tree * list Marker
    by wf (nodes t) lt :=
  query_recursive t query_start query_end with inspect (push_delta t) := {
    | exist _ Nil _ => (Nil, []);
    | exist _ (Node m h me sz d l r) Hpush =>
        let here := if decide (m_start m <= query_end /\ query_start <= m_end m)
                    then [m] else [] in
        let '(l', found_l) :=
          (match l with
           | Nil => (l, [])
           | Node _ _ max_end _ _ _ _ =>
               if decide (query_start <= max_end)
               then query_recursive l query_start query_end else (l, [])
           end) in
        let '(r', found_r) :=
          (match r with
           | Nil => (r, [])
           | Node _ _ _ _ _ _ _ =>
               if decide (m_start m <= query_end)
               then query_recursive r query_start query_end else (r, [])
           end) in
        (Node m h me sz d l' r', here ++ found_l ++ found_r) }.
Proof. all: clear -Hpush; apply pushed_left in Hpush; lia. Qed.

Definition query (t : IntervalTree) (query_start query_end : Z) : IntervalTree * list Marker :=
  let '(root, results) := query_recursive (it_root t) query_start query_end in
  (mkIntervalTree root (next_id t) (marker_map t), results).

Definition it_len (t : IntervalTree) : nat := t_size (it_root t).

Definition it_is_empty (t : IntervalTree) : bool :=
  match it_root t with Nil => true | Node _ _ _ _ _ _ _ => false end.

(** The loops of [count_before] and [nth], on the node they are at. *)
Fixpoint count_before_from (t : Tree) (delta pos : Z) (count : nat) : nat :=
  match t with
  | Nil => count
  | Node m _ _ _ lazy_delta l r =>
      let delta := add_i64 delta lazy_delta in
      if decide (shift (m_start m) delta < pos)
      then count_before_from r delta pos (count + (t_size l + 1))
      else count_before_from l delta pos count
  end.

Definition count_before (t : IntervalTree) (pos : Z) : nat := count_before_from (it_root t) 0 pos 0.

Fixpoint nth_from (t : Tree) (delta : Z) (k : nat) : option Marker :=
  match t with
  | Nil => None
  | Node m _ _ _ lazy_delta l r =>
      let delta := add_i64 delta lazy_delta in
      let lft := t_size l in
      match Nat.compare k lft with
      | Lt => nth_from l delta k
      | Eq => Some (resolved m delta)
      | Gt => nth_from r delta (k - (lft + 1))
      end
  end.

Definition nth (t : IntervalTree) (k : nat) : option Marker := nth_from (it_root t) 0 k.

Fixpoint in_range_recursive (t : Tree) (acc lo hi : Z) : list Marker :=
  match t with
  | Nil => []
  | Node m _ _ _ lazy_delta l r =>
      let delta := add_i64 acc lazy_delta in
      let start := shift (m_start m) delta in
      (if decide (lo <= start) then in_range_recursive l delta lo hi else [])
      ++ (if decide (lo <= start /\ start < hi) then [resolved m delta] else [])
      ++ (if decide (start < hi) then in_range_recursive r delta lo hi else [])
  end.

Definition in_range (t : IntervalTree) (start end_ : Z) : list Marker :=
  if decide (start < end_) then in_range_recursive (it_root t) 0 start end_ else [].

(** ** Batches *)

(** [collect_nodes_in_order]: the markers in order, their deltas pushed. *)
Equations? collect_nodes_in_order (t : Tree) : list Marker by wf (nodes t) lt :=
  collect_nodes_in_order t with inspect (push_delta t) := {
    | exist _ Nil _ => [];
    | exist _ (Node m h me sz d l r) Hpush =>
        collect_nodes_in_order l ++ m :: collect_nodes_in_order r }.
Proof. all: apply pushed_left in Hpush; lia. Qed.

(** The nodes keep their markers and get new links, heights, sizes and ends. *)
Equations? build_from_sorted (ms : list Marker) : Tree by wf (length ms) lt :=
  build_from_sorted [] := Nil;
  build_from_sorted (m :: ms) :=
    let mid := (length (m :: ms) / 2)%nat in
    let node := default m ((m :: ms) !! mid) in
    let lft := build_from_sorted (take mid (m :: ms)) in
    let rgt := build_from_sorted (drop (mid + 1) (m :: ms)) in
    update_stats (Node node 1 (m_end node) 1 0 lft rgt).
Proof.
  all: change mid with (S (length ms) / 2)%nat.
  - rw length_take. simpl length. pose proof (Nat.div_lt (S (length ms)) 2). lia.
  - rw length_drop. simpl length. lia.
Qed.

Definition BULK_INSERT_MIN : nat := 64.
Definition BULK_INSERT_MAX_EXISTING_RATIO : nat := 4.

(** One insertion after the other. *)
Fixpoint insert_each (t : IntervalTree) (intervals : list (Z * Z)) : res (IntervalTree * list Z) :=
  match intervals with
  | [] => Ok (t, [])
  | (start, end_) :: intervals =>
      '(t, id) ← it_insert t start end_;
      '(t, ids) ← insert_each t intervals;
      Ok (t, id :: ids)
  end.

(** The markers of a batch, the ids handed out in order, and the next id. *)
Fixpoint batch_markers (next : Z) (intervals : list (Z * Z)) : list Marker * Z :=
  match intervals with
  | [] => ([], next)
  | (start, end_) :: intervals =>
      let '(ms, last) := batch_markers (to_u64 (next + 1)) intervals in
      (mkMarker next (mkInterval start end_) Position true 0 :: ms, last)
  end.

Definition insert_many (t : IntervalTree) (intervals : list (Z * Z))
    : res (IntervalTree * list Z) :=
  match intervals with
  | [] => Ok (t, [])
  | _ =>
      if decide (length intervals < BULK_INSERT_MIN
                 \/ length intervals * BULK_INSERT_MAX_EXISTING_RATIO < size (marker_map t))%nat
      then insert_each t intervals
      else
        let nodes := collect_nodes_in_order (it_root t) in
        let '(new, next) := batch_markers (next_id t) intervals in
        Ok (mkIntervalTree (build_from_sorted (merge_sort key_le (nodes ++ new))) next
              (list_to_set (m_id <$> new) ∪ marker_map t),
            m_id <$> new)
  end.

Definition map_coord (coord : Z) (left_gravity : bool) (edits : list (Z * Z)) (prefix : list Z)
    : res Z :=
  let idx := partition_point (fun e => bool_decide (e.1 <= coord)) edits in
  if decide (idx = 0%nat) then Ok coord else
  match edits !! (idx - 1)%nat, prefix !! (idx - 1)%nat with
  | Some (pos, delta), Some before =>
      let base :=
        if decide (0 < delta) then
          if left_gravity && bool_decide (coord = pos) then to_i64 coord
          else add_i64 (to_i64 coord) delta
        else Z.max (add_i64 (to_i64 coord) delta) (to_i64 pos) in
      Ok (to_u64 (Z.max (add_i64 base before) 0))
  | _, _ => Panic
  end.

(** The edits strictly inside an interval, last first, moving its end. *)
Definition fold_end (left_gravity : bool) (old_start : Z) (inside : list (Z * Z)) (end_ : Z) : Z :=
  foldr (fun e end_ =>
           let '(pos, delta) := e in
           let shifts := if left_gravity && bool_decide (0 < delta)
                         then bool_decide (to_i64 pos < end_) else bool_decide (to_i64 pos <= end_) in
           if shifts : bool then Z.max (add_i64 end_ delta) (to_i64 old_start) else end_)
    end_ inside.

Definition bulk_adjust_marker (ordered : list (Z * Z)) (prefix : list Z) (m : Marker) : res Marker :=
  let left_gravity := negb (right_gravity m) in
  let old_start := m_start m in
  let old_end := Z.max (m_end m) (m_start m) in
  let governing := partition_point (fun e => bool_decide (e.1 <= old_start)) ordered in
  let inside_end := partition_point (fun e => bool_decide (e.1 <= old_end)) ordered in
  inside ← slice ordered governing inside_end;
  let end_ := fold_end left_gravity old_start inside (to_i64 old_end) in
  let head := take governing ordered in
  let head_prefix := take governing prefix in
  start ← map_coord old_start left_gravity head head_prefix;
  end_ ← map_coord (to_u64 (Z.max end_ 0)) left_gravity head head_prefix;
  Ok (set_interval m start (Z.max end_ start)).

Fixpoint bulk_adjust_markers (ordered : list (Z * Z)) (prefix : list Z) (ms : list Marker)
    : res (list Marker) :=
  match ms with
  | [] => Ok []
  | m :: ms =>
      m ← bulk_adjust_marker ordered prefix m;
      ms ← bulk_adjust_markers ordered prefix ms;
      Ok (m :: ms)
  end.

(** The sum of the deltas before each edit. *)
Fixpoint delta_prefix (running : Z) (ordered : list (Z * Z)) : list Z :=
  match ordered with
  | [] => []
  | (_, delta) :: ordered => running :: delta_prefix (add_i64 running delta) ordered
  end.

Definition pos_le (a b : Z * Z) : Prop := a.1 <= b.1.
#[export] Instance pos_le_dec a b : Decision (pos_le a b) := Z.le_dec _ _.

Definition adjust_for_bulk_edits (t : IntervalTree) (edits : list (Z * Z)) : res IntervalTree :=
  match it_root t with
  | Nil => Ok t
  | _ =>
      let ordered := merge_sort pos_le (List.filter (fun e => negb (bool_decide (e.2 = 0))) edits) in
      match ordered with
      | [] => Ok t
      | _ =>
          if decide (NoDup ordered.*1) then
            ms ← bulk_adjust_markers ordered (delta_prefix 0 ordered)
                   (collect_nodes_in_order (it_root t));
            Ok (mkIntervalTree (build_from_sorted (merge_sort key_le ms)) (next_id t) (marker_map t))
          else Panic
      end
  end.
