(* ===== verification/MarkerTreeInv.v ===== *)
(** * Marker tree: contents, invariant, insertion and deletion

    The contents of a tree are its markers in order, every pending delta applied.
    Pushing deltas, refreshing statistics and rotating never change them. *)
From stdpp Require Import base numbers list option sorting gmap.
From Stdlib Require Import ssreflect.
From Equations Require Import Equations.
From S2P Require Import Prelude MarkerTree.

#[local] Open Scope Z_scope.

(** ** Wrapping arithmetic *)
Lemma to_i64_mod z : to_i64 z mod 2 ^ 64 = z mod 2 ^ 64.
Proof.
  unfold to_i64. case_decide; [by rw Z.mod_mod|].
  rw Zminus_mod Z.mod_same // Z.sub_0_r !Z.mod_mod //.
Qed.

Lemma shift_mod x d : shift x d = (x + d) mod 2 ^ 64.
Proof. unfold shift, add_i64, to_u64. rw to_i64_mod -Zplus_mod_idemp_l to_i64_mod Zplus_mod_idemp_l //. Qed.

Lemma add_i64_mod a b : add_i64 a b mod 2 ^ 64 = (a + b) mod 2 ^ 64.
Proof. apply to_i64_mod. Qed.

Lemma to_i64_small z : 0 <= z < 2 ^ 63 -> to_i64 z = z.
Proof. intros. unfold to_i64. rw Z.mod_small; [lia|]. rw decide_True //. lia. Qed.

Lemma to_u64_small z : 0 <= z < 2 ^ 64 -> to_u64 z = z.
Proof. apply Z.mod_small. Qed.

(** Inside the range of [i64], nothing wraps. *)
Lemma to_i64_id z : - 2 ^ 63 <= z < 2 ^ 63 -> to_i64 z = z.
Proof.
  intros. destruct (decide (0 <= z)); [apply to_i64_small; lia|].
  unfold to_i64. rw -(Z.mod_add z 1) // Z.mod_small; [lia|]. rw decide_False; lia.
Qed.

Lemma shift_small x d : 0 <= x + d < 2 ^ 64 -> shift x d = x + d.
Proof. intros. rw shift_mod. by apply Z.mod_small. Qed.

(** ** Contents *)
Definition stored (m : Marker) : Prop :=
  0 <= m_start m < 2 ^ 64 /\ 0 <= m_end m < 2 ^ 64.

Fixpoint markers (acc : Z) (t : Tree) : list Marker :=
  match t with
  | Nil => []
  | Node m _ _ _ d l r => markers (acc + d) l ++ resolved m (acc + d) :: markers (acc + d) r
  end.

Lemma resolved_mod m a b : a mod 2 ^ 64 = b mod 2 ^ 64 -> resolved m a = resolved m b.
Proof.
  intros H. unfold resolved. rw !shift_mod.
  rw -(Zplus_mod_idemp_r a) -(Zplus_mod_idemp_r a (m_end m)) H !Zplus_mod_idemp_r //.
Qed.

Lemma resolved_resolved m a b : resolved (resolved m a) b = resolved m (a + b).
Proof.
  unfold resolved, set_interval, m_start, m_end. simpl. rw !shift_mod !Zplus_mod_idemp_l.
  by rw !Z.add_assoc.
Qed.

Lemma resolved_0 m : stored m -> resolved m 0 = m.
Proof.
  intros [? ?]. unfold resolved. rw !shift_small ?Z.add_0_r; [done..|].
  by destruct m as [? [] ? ? ?].
Qed.

Lemma stored_resolved m d : stored (resolved m d).
Proof. unfold stored, resolved, m_start, m_end. simpl. rw !shift_mod. split; by apply Z.mod_pos_bound. Qed.

Lemma markers_mod a b t : a mod 2 ^ 64 = b mod 2 ^ 64 -> markers a t = markers b t.
Proof.
  revert a b. induction t as [|m h me sz d l IHl r IHr]; intros a b H; [done|]. simpl.
  assert ((a + d) mod 2 ^ 64 = (b + d) mod 2 ^ 64) as H'.
  { rw -(Zplus_mod_idemp_l a) H Zplus_mod_idemp_l //. }
  by rw (IHl _ _ H') (IHr _ _ H') (resolved_mod m _ _ H').
Qed.

Lemma markers_add_delta acc d t : markers acc (add_delta d t) = markers (acc + d) t.
Proof.
  destruct t as [|m h me sz ld l r]; [done|]. simpl.
  assert ((acc + add_i64 ld d) mod 2 ^ 64 = (acc + d + ld) mod 2 ^ 64) as H.
  { rw -Zplus_mod_idemp_r add_i64_mod Zplus_mod_idemp_r. f_equal. lia. }
  by rw !(markers_mod _ _ _ H) (resolved_mod m _ _ H).
Qed.

Lemma markers_push_delta acc t : markers acc (push_delta t) = markers acc t.
Proof.
  destruct t as [|m h me sz d l r]; [done|]. simpl. case_decide; [done|]. simpl.
  rw !markers_add_delta resolved_resolved Z.add_0_r. by rw (Z.add_comm d).
Qed.

Lemma markers_update_stats acc t : markers acc (update_stats t) = markers acc t.
Proof. by destruct t. Qed.

#[export] Hint Rewrite markers_add_delta markers_push_delta markers_update_stats resolved_resolved : fresh.

(** ** Invariant *)

(** Exact heights and sizes, AVL balance, stored fields in range. *)
Fixpoint tree_ok (t : Tree) : Prop :=
  match t with
  | Nil => True
  | Node m h _ sz _ l r =>
      h = S (Nat.max (t_height l) (t_height r)) /\ sz = S (t_size l + t_size r)
      /\ (t_height l <= S (t_height r))%nat /\ (t_height r <= S (t_height l))%nat
      /\ stored m /\ tree_ok l /\ tree_ok r
  end.

Lemma t_size_markers acc t : tree_ok t -> t_size t = length (markers acc t).
Proof.
  revert acc. induction t as [|m h me sz d l IHl r IHr]; intros acc; [done|].
  simpl. intros (_ & -> & _ & _ & _ & Hl & Hr). rw length_app /=.
  rw (IHl (acc + d)) // (IHr (acc + d)) //.
Qed.

(** A node as [update_stats] leaves it, its delta pushed. *)
Definition mk (m : Marker) (l r : Tree) : Tree := update_stats (Node m 0 0 0 0 l r).

(** The parts of a node after [push_delta]. *)
Definition pushed_marker (d : Z) (m : Marker) : Marker :=
  if decide (d = 0) then m else resolved m d.
Definition pushed_child (d : Z) (t : Tree) : Tree :=
  if decide (d = 0) then t else add_delta d t.

Lemma push_delta_eq m h me sz d l r :
  exists me', push_delta (Node m h me sz d l r)
              = Node (pushed_marker d m) h me' sz 0 (pushed_child d l) (pushed_child d r).
Proof.
  unfold pushed_marker, pushed_child. simpl. case_decide as Hd; [subst; eauto|eauto].
Qed.

Lemma height_pushed d t : t_height (pushed_child d t) = t_height t.
Proof. unfold pushed_child. case_decide; by destruct t. Qed.

Lemma size_pushed d t : t_size (pushed_child d t) = t_size t.
Proof. unfold pushed_child. case_decide; by destruct t. Qed.

Lemma nodes_pushed d t : nodes (pushed_child d t) = nodes t.
Proof. unfold pushed_child. case_decide; by destruct t. Qed.

Lemma tree_ok_add_delta d t : tree_ok t -> tree_ok (add_delta d t).
Proof. by destruct t. Qed.

Lemma tree_ok_pushed d t : tree_ok t -> tree_ok (pushed_child d t).
Proof. unfold pushed_child. case_decide; [done|apply tree_ok_add_delta]. Qed.

Lemma stored_pushed d m : stored m -> stored (pushed_marker d m).
Proof. unfold pushed_marker. case_decide; [done|]. intros _. apply stored_resolved. Qed.

Lemma markers_pushed acc d t : markers acc (pushed_child d t) = markers (acc + d) t.
Proof. unfold pushed_child. case_decide as Hd; [by rw Hd Z.add_0_r|apply markers_add_delta]. Qed.

Lemma resolved_pushed acc d m : resolved (pushed_marker d m) acc = resolved m (acc + d).
Proof.
  unfold pushed_marker. case_decide as Hd; [by rw Hd Z.add_0_r|].
  by rw resolved_resolved Z.add_comm.
Qed.

#[export] Hint Rewrite height_pushed size_pushed markers_pushed resolved_pushed : fresh.
#[export] Hint Resolve tree_ok_pushed stored_pushed : fresh.

Lemma markers_mk acc m l r :
  markers acc (mk m l r) = markers acc l ++ resolved m acc :: markers acc r.
Proof. simpl. by rw Z.add_0_r. Qed.

Lemma height_mk m l r : t_height (mk m l r) = S (Nat.max (t_height l) (t_height r)).
Proof. done. Qed.

Lemma tree_ok_mk m l r :
  stored m -> tree_ok l -> tree_ok r ->
  (t_height l <= S (t_height r))%nat -> (t_height r <= S (t_height l))%nat -> tree_ok (mk m l r).
Proof. intros. by split_and!. Qed.

(** What a recursion on a tree sees after [push_delta]. *)
Lemma push_delta_ok t m h me sz d l r :
  push_delta t = Node m h me sz d l r -> tree_ok t ->
  d = 0 /\ stored m /\ tree_ok l /\ tree_ok r /\ t_height t = h
  /\ h = S (Nat.max (t_height l) (t_height r))
  /\ (t_height l <= S (t_height r))%nat /\ (t_height r <= S (t_height l))%nat
  /\ (nodes l < nodes t)%nat /\ (nodes r < nodes t)%nat
  /\ markers 0 t = markers 0 l ++ m :: markers 0 r.
Proof.
  intros Hp Hok. pose proof (pushed_left _ _ _ _ _ _ _ _ Hp) as [Hn1 Hn2].
  pose proof (markers_push_delta 0 t) as Hm. rw Hp in Hm. simpl in Hm.
  destruct t as [|m0 h0 me0 sz0 d0 l0 r0]; [done|].
  destruct (push_delta_eq m0 h0 me0 sz0 d0 l0 r0) as [me' He]. rw He in Hp.
  injection Hp as <- <- <- <- <- <- <-. destruct Hok as (-> & -> & ? & ? & Hst & ? & ?).
  rw resolved_0 in Hm; [auto with fresh|]. rw !height_pushed.
  split_and!; try done; auto with fresh.
Qed.

(** ** Rotations *)
Lemma update_stats_mk m h me sz l r : update_stats (Node m h me sz 0 l r) = mk m l r.
Proof. done. Qed.

Lemma rotate_right_eq y h me sz d x xm hx mex szx dx a b c :
  pushed_child d x = Node xm hx mex szx dx a b ->
  rotate_right (Node y h me sz d x c)
  = Ok (mk (pushed_marker dx xm) (pushed_child dx a)
          (mk (pushed_marker d y) (pushed_child dx b) (pushed_child d c))).
Proof.
  intros Hx. unfold rotate_right. destruct (push_delta_eq y h me sz d x c) as [me1 ->]. rw Hx.
  by destruct (push_delta_eq xm hx mex szx dx a b) as [me2 ->].
Qed.

Lemma rotate_left_eq y h me sz d x xm hx mex szx dx a b c :
  pushed_child d x = Node xm hx mex szx dx b c ->
  rotate_left (Node y h me sz d a x)
  = Ok (mk (pushed_marker dx xm)
          (mk (pushed_marker d y) (pushed_child d a) (pushed_child dx b)) (pushed_child dx c)).
Proof.
  intros Hx. unfold rotate_left. destruct (push_delta_eq y h me sz d a x) as [me1 ->]. rw Hx.
  by destruct (push_delta_eq xm hx mex szx dx b c) as [me2 ->].
Qed.

(** A child with its delta pushed, as a node. *)
Lemma pushed_child_Node d m h me sz ld l r :
  exists d', pushed_child d (Node m h me sz ld l r) = Node m h me sz d' l r
    /\ d' mod 2 ^ 64 = (ld + d) mod 2 ^ 64.
Proof.
  unfold pushed_child. case_decide; [exists ld; subst; by rw Z.add_0_r|].
  exists (add_i64 ld d). split; [done|apply add_i64_mod].
Qed.

(** What a rebuilt subtree promises: same contents, invariant, height within
    one of the node it replaces. *)
Definition rebuilt (t t' : Tree) (H : nat) : Prop :=
  tree_ok t' /\ (forall acc, markers acc t' = markers acc t)
  /\ (t_height t' <= H)%nat /\ (H <= S (t_height t'))%nat.

Lemma markers_shift d' ld d acc t :
  d' mod 2 ^ 64 = (ld + d) mod 2 ^ 64 -> markers (acc + d') t = markers (acc + d + ld) t.
Proof.
  intros H. apply markers_mod. rw -Zplus_mod_idemp_r H Zplus_mod_idemp_r. f_equal. lia.
Qed.

Lemma resolved_shift d' ld d acc m :
  d' mod 2 ^ 64 = (ld + d) mod 2 ^ 64 -> resolved m (acc + d') = resolved m (acc + d + ld).
Proof.
  intros H. apply resolved_mod. rw -Zplus_mod_idemp_r H Zplus_mod_idemp_r. f_equal. lia.
Qed.

Ltac solve_tree_ok :=
  repeat (apply tree_ok_mk); auto with fresh; rw ?height_mk ?height_pushed; simpl in *; lia.

Ltac solve_height := rw ?height_mk ?height_pushed; simpl in *; lia.

Lemma rotate_right_single m h me sz d xm hx mex szx dx a b r :
  stored m -> tree_ok (Node xm hx mex szx dx a b) -> tree_ok r ->
  hx = (t_height r + 2)%nat -> (t_height b <= t_height a)%nat ->
  exists t', rotate_right (Node m h me sz d (Node xm hx mex szx dx a b) r) = Ok t'
    /\ rebuilt (Node m h me sz d (Node xm hx mex szx dx a b) r) t' (S hx).
Proof.
  intros Hm Hl Hr Hh Hab. destruct (pushed_child_Node d xm hx mex szx dx a b) as (d' & Hp & Hd').
  rw (rotate_right_eq _ _ _ _ _ _ _ _ _ _ _ _ _ _ Hp). eexists; split; [done|].
  destruct Hl as (Hhx & _ & ? & ? & ? & ? & ?). split_and!.
  - solve_tree_ok.
  - intros acc. rw !markers_mk. autorewrite with fresh. simpl.
    rw !(markers_shift d' dx d) // (resolved_shift d' dx d) // -!app_assoc. done.
  - solve_height.
  - solve_height.
Qed.

Lemma rotate_left_single m h me sz d xm hx mex szx dx b c l :
  stored m -> tree_ok (Node xm hx mex szx dx b c) -> tree_ok l ->
  hx = (t_height l + 2)%nat -> (t_height b <= t_height c)%nat ->
  exists t', rotate_left (Node m h me sz d l (Node xm hx mex szx dx b c)) = Ok t'
    /\ rebuilt (Node m h me sz d l (Node xm hx mex szx dx b c)) t' (S hx).
Proof.
  intros Hm Hl Hr Hh Hab. destruct (pushed_child_Node d xm hx mex szx dx b c) as (d' & Hp & Hd').
  rw (rotate_left_eq _ _ _ _ _ _ _ _ _ _ _ _ _ _ Hp). eexists; split; [done|].
  destruct Hl as (Hhx & _ & ? & ? & ? & ? & ?). split_and!; [solve_tree_ok| |solve_height..].
  intros acc. rw !markers_mk. autorewrite with fresh. simpl.
  rw !(markers_shift d' dx d) // (resolved_shift d' dx d) // -!app_assoc. done.
Qed.

(** The first half of a double rotation. *)
Lemma rotate_left_inner xm hx mex szx dx a zm hz mez szz dz b1 b2 :
  tree_ok (Node xm hx mex szx dx a (Node zm hz mez szz dz b1 b2)) ->
  exists xm' zm' a' b1' b2',
    rotate_left (Node xm hx mex szx dx a (Node zm hz mez szz dz b1 b2))
    = Ok (mk zm' (mk xm' a' b1') b2')
    /\ stored xm' /\ stored zm' /\ tree_ok a' /\ tree_ok b1' /\ tree_ok b2'
    /\ t_height a' = t_height a /\ t_height b1' = t_height b1 /\ t_height b2' = t_height b2
    /\ (forall acc, markers acc (mk zm' (mk xm' a' b1') b2')
         = markers acc (Node xm hx mex szx dx a (Node zm hz mez szz dz b1 b2))).
Proof.
  intros (_ & _ & _ & _ & ? & ? & (_ & _ & _ & _ & ? & ? & ?)).
  destruct (pushed_child_Node dx zm hz mez szz dz b1 b2) as (d' & Hp & Hd').
  rw (rotate_left_eq _ _ _ _ _ _ _ _ _ _ _ _ _ _ Hp). eexists _, _, _, _, _. split; [done|].
  rw !height_pushed. split_and!; auto with fresh.
  intros acc. rw !markers_mk. autorewrite with fresh. simpl.
  rw !(markers_shift d' dz dx) // (resolved_shift d' dz dx) // -!app_assoc. done.
Qed.

Lemma rotate_right_inner xm hx mex szx dx c zm hz mez szz dz b1 b2 :
  tree_ok (Node xm hx mex szx dx (Node zm hz mez szz dz b1 b2) c) ->
  exists xm' zm' c' b1' b2',
    rotate_right (Node xm hx mex szx dx (Node zm hz mez szz dz b1 b2) c)
    = Ok (mk zm' b1' (mk xm' b2' c'))
    /\ stored xm' /\ stored zm' /\ tree_ok c' /\ tree_ok b1' /\ tree_ok b2'
    /\ t_height c' = t_height c /\ t_height b1' = t_height b1 /\ t_height b2' = t_height b2
    /\ (forall acc, markers acc (mk zm' b1' (mk xm' b2' c'))
         = markers acc (Node xm hx mex szx dx (Node zm hz mez szz dz b1 b2) c)).
Proof.
  intros (_ & _ & _ & _ & ? & (_ & _ & _ & _ & ? & ? & ?) & ?).
  destruct (pushed_child_Node dx zm hz mez szz dz b1 b2) as (d' & Hp & Hd').
  rw (rotate_right_eq _ _ _ _ _ _ _ _ _ _ _ _ _ _ Hp). eexists _, _, _, _, _. split; [done|].
  rw !height_pushed. split_and!; auto with fresh.
  intros acc. rw !markers_mk. autorewrite with fresh. simpl.
  rw !(markers_shift d' dz dx) // (resolved_shift d' dz dx) // -!app_assoc. done.
Qed.

(** The second half: [l] is the rotated child, its own left child one higher
    than an AVL node allows. *)
Lemma rotate_right_double m h me sz d zm xm a b1 b2 r :
  stored m -> stored zm -> stored xm -> tree_ok a -> tree_ok b1 -> tree_ok b2 -> tree_ok r ->
  t_height a = t_height r -> (Nat.max (t_height b1) (t_height b2) = t_height a)%nat ->
  (t_height b1 <= S (t_height b2))%nat -> (t_height b2 <= S (t_height b1))%nat ->
  let l := mk zm (mk xm a b1) b2 in
  exists t', rotate_right (Node m h me sz d l r) = Ok t'
    /\ rebuilt (Node m h me sz d l r) t' (t_height r + 3).
Proof.
  intros. destruct (pushed_child_Node d zm (t_height l) (t_max_end l) (t_size l) 0 (mk xm a b1) b2)
    as (d' & Hp & Hd').
  change (Node zm _ _ _ 0 _ _) with l in Hp.
  rw (rotate_right_eq _ _ _ _ _ _ _ _ _ _ _ _ _ _ Hp). eexists; split; [done|].
  split_and!; [|intros acc|solve_height..].
  - apply tree_ok_mk; [auto with fresh|apply tree_ok_pushed; solve_tree_ok|solve_tree_ok|solve_height..].
  - rw !markers_mk. autorewrite with fresh. simpl.
    rw !Z.add_0_r !(markers_shift d' 0 d) // !(resolved_shift d' 0 d) // -!app_assoc !Z.add_0_r //.
Qed.

Lemma rotate_left_double m h me sz d zm xm c b1 b2 l :
  stored m -> stored zm -> stored xm -> tree_ok c -> tree_ok b1 -> tree_ok b2 -> tree_ok l ->
  t_height c = t_height l -> (Nat.max (t_height b1) (t_height b2) = t_height c)%nat ->
  (t_height b1 <= S (t_height b2))%nat -> (t_height b2 <= S (t_height b1))%nat ->
  let r := mk zm b1 (mk xm b2 c) in
  exists t', rotate_left (Node m h me sz d l r) = Ok t'
    /\ rebuilt (Node m h me sz d l r) t' (t_height l + 3).
Proof.
  intros. destruct (pushed_child_Node d zm (t_height r) (t_max_end r) (t_size r) 0 b1 (mk xm b2 c))
    as (d' & Hp & Hd').
  change (Node zm _ _ _ 0 _ _) with r in Hp.
  rw (rotate_left_eq _ _ _ _ _ _ _ _ _ _ _ _ _ _ Hp). eexists; split; [done|].
  split_and!; [|intros acc|solve_height..].
  - apply tree_ok_mk; [auto with fresh|solve_tree_ok|apply tree_ok_pushed; solve_tree_ok|solve_height..].
  - rw !markers_mk. autorewrite with fresh. simpl.
    rw !Z.add_0_r !(markers_shift d' 0 d) // !(resolved_shift d' 0 d) // -!app_assoc !Z.add_0_r //.
Qed.

(** ** Balancing *)
Lemma rebuilt_trans t1 t2 t3 H :
  (forall acc, markers acc t2 = markers acc t1) -> rebuilt t2 t3 H -> rebuilt t1 t3 H.
Proof. intros Hm (? & Hm' & ?). split_and!; try done; [|lia..]. intros acc. by rw Hm' Hm. Qed.

Lemma balance_left_heavy m h me sz d l r :
  stored m -> tree_ok l -> tree_ok r -> t_height l = (t_height r + 2)%nat ->
  exists t', (match l with
              | Nil => Panic
              | Node _ _ _ _ _ _ _ =>
                  l ← (if decide (balance_factor l < 0) then rotate_left l else Ok l);
                  rotate_right (Node m h me sz d l r)
              end) = Ok t'
    /\ rebuilt (Node m h me sz d l r) t' (t_height r + 3).
Proof.
  intros Hm Hl Hr Hh. destruct l as [|xm hx mex szx dx a b]; [simpl in Hh; lia|].
  unfold balance_factor. cbn [t_left t_right]. case_decide as Hbf.
  - destruct b as [|zm hz mez szz dz b1 b2]; [simpl in Hbf; lia|].
    destruct (rotate_left_inner _ _ _ _ _ _ _ _ _ _ _ _ _ Hl)
      as (xm' & zm' & a' & b1' & b2' & -> & ? & ? & ? & ? & ? & Ha & Hb1 & Hb2 & Hmk).
    cbn [mbind res_bind]. simpl in Hl, Hh, Hbf.
    destruct (rotate_right_double m h me sz d zm' xm' a' b1' b2' r) as (t' & -> & Ht');
      try done; [lia..|].
    eexists; split; [done|]. eapply rebuilt_trans; [|exact Ht'].
    intros acc. cbn [markers]. by rw Hmk.
  - cbn [mbind res_bind]. replace (t_height r + 3)%nat with (S hx) by (simpl in Hh; lia).
    apply rotate_right_single; simpl in *; done || lia.
Qed.

Lemma balance_right_heavy m h me sz d l r :
  stored m -> tree_ok l -> tree_ok r -> t_height r = (t_height l + 2)%nat ->
  exists t', (match r with
              | Nil => Panic
              | Node _ _ _ _ _ _ _ =>
                  r ← (if decide (0 < balance_factor r) then rotate_right r else Ok r);
                  rotate_left (Node m h me sz d l r)
              end) = Ok t'
    /\ rebuilt (Node m h me sz d l r) t' (t_height l + 3).
Proof.
  intros Hm Hl Hr Hh. destruct r as [|xm hx mex szx dx b c]; [simpl in Hh; lia|].
  unfold balance_factor. cbn [t_left t_right]. case_decide as Hbf.
  - destruct b as [|zm hz mez szz dz b1 b2]; [simpl in Hbf; lia|].
    destruct (rotate_right_inner _ _ _ _ _ _ _ _ _ _ _ _ _ Hr)
      as (xm' & zm' & c' & b1' & b2' & -> & ? & ? & ? & ? & ? & Hc & Hb1 & Hb2 & Hmk).
    cbn [mbind res_bind]. simpl in Hr, Hh, Hbf.
    destruct (rotate_left_double m h me sz d zm' xm' c' b1' b2' l) as (t' & -> & Ht');
      try done; [lia..|].
    eexists; split; [done|]. eapply rebuilt_trans; [|exact Ht'].
    intros acc. cbn [markers]. by rw Hmk.
  - cbn [mbind res_bind]. replace (t_height l + 3)%nat with (S hx) by (simpl in Hh; lia).
    apply rotate_left_single; simpl in *; done || lia.
Qed.

(** Refreshing and balancing a node whose children are off by at most two. *)
Lemma balance_ok m h me sz l r :
  stored m -> tree_ok l -> tree_ok r ->
  (t_height l <= t_height r + 2)%nat -> (t_height r <= t_height l + 2)%nat ->
  let H := S (Nat.max (t_height l) (t_height r)) in
  exists t', balance (update_stats (Node m h me sz 0 l r)) = Ok t'
    /\ tree_ok t' /\ markers 0 t' = markers 0 l ++ m :: markers 0 r
    /\ (t_height t' <= H)%nat /\ (H <= S (t_height t'))%nat
    /\ (t_height l <= S (t_height r) -> t_height r <= S (t_height l) -> t_height t' = H)%nat.
Proof.
  intros Hm Hl Hr H1 H2 H. cbn [update_stats balance].
  case_decide as Hb1; [|case_decide as Hb2];
    unfold balance_factor in Hb1; try (unfold balance_factor in Hb2; cbn [t_left t_right] in Hb2);
    cbn [t_left t_right] in Hb1.
  - match goal with |- context [Node m ?h0 ?me0 ?sz0 0 _ r] =>
      destruct (balance_left_heavy m h0 me0 sz0 0 l r) as (t' & -> & (? & Hmk & ? & ?)); [done..|lia|] end.
    exists t'. rw Hmk. cbn [markers]. rw Z.add_0_r resolved_0 //. split_and!; done || lia.
  - match goal with |- context [Node m ?h0 ?me0 ?sz0 0 l _] =>
      destruct (balance_right_heavy m h0 me0 sz0 0 l r) as (t' & -> & (? & Hmk & ? & ?)); [done..|lia|] end.
    exists t'. rw Hmk. cbn [markers]. rw Z.add_0_r resolved_0 //. split_and!; done || lia.
  - eexists; split; [done|]. cbn [markers]. rw Z.add_0_r resolved_0 //.
    split_and!; try done; simpl; try lia. split_and!; done || lia.
Qed.

(** ** Unfolding the recursions *)
Ltac unfold_pushing eqn clause :=
  rw eqn; let E := fresh in
  match goal with |- context [inspect (push_delta ?t)] =>
    destruct (inspect (push_delta t)) as [[] E]; unfold clause; by rw E
  end.

Lemma insert_recursive_eq t new :
  insert_recursive t new =
  match push_delta t with
  | Nil => Ok (node_new new)
  | Node m h me sz d l r =>
      t' ← (if decide (key_lt (key new) (key m)) then
              l' ← insert_recursive l new; Ok (Node m h me sz d l' r)
            else
              r' ← insert_recursive r new; Ok (Node m h me sz d l r'));
      balance (update_stats t')
  end.
Proof. unfold_pushing insert_recursive_equation_1 insert_recursive_unfold_clause_1. Qed.

Lemma remove_min_eq t :
  remove_min t =
  match push_delta t with
  | Nil => Ok None
  | Node m h me sz d l r =>
      below ← remove_min l;
      match below with
      | None => Ok (Some (m, r))
      | Some (min, l') =>
          t' ← balance (update_stats (Node m h me sz d l' r)); Ok (Some (min, t'))
      end
  end.
Proof. unfold_pushing remove_min_equation_1 remove_min_unfold_clause_1. Qed.

Lemma delete_below_eq t id :
  delete_below t id =
  match push_delta t with
  | Nil => Ok None
  | Node m h me sz d l r =>
      if decide (m_id m = id) then
        t' ← remove_node (Node m h me sz d l r); Ok (Some t')
      else
        in_left ← delete_below l id;
        match in_left with
        | Some l' => t' ← balance (update_stats (Node m h me sz d l' r)); Ok (Some t')
        | None =>
            in_right ← delete_below r id;
            match in_right with
            | Some r' => t' ← balance (update_stats (Node m h me sz d l r')); Ok (Some t')
            | None => Ok None
            end
        end
  end.
Proof. unfold_pushing delete_below_equation_1 delete_below_unfold_clause_1. Qed.

Lemma collect_nodes_in_order_eq t :
  collect_nodes_in_order t =
  match push_delta t with
  | Nil => []
  | Node m h me sz d l r => collect_nodes_in_order l ++ m :: collect_nodes_in_order r
  end.
Proof. unfold_pushing collect_nodes_in_order_equation_1 collect_nodes_in_order_unfold_clause_1. Qed.

(** Induction for recursions that push deltas on the way down. *)
Lemma pushing_ind (P : Tree -> Prop) :
  (forall t, push_delta t = Nil -> P t) ->
  (forall t m h me sz d l r, push_delta t = Node m h me sz d l r -> P l -> P r -> P t) ->
  forall t, P t.
Proof.
  intros Hnil Hnode t. induction t as [t IH] using (induction_ltof1 _ nodes).
  destruct (push_delta t) as [|m h me sz d l r] eqn:Hp; [by apply Hnil|].
  destruct (pushed_left _ _ _ _ _ _ _ _ Hp). eapply Hnode; [exact Hp|by apply IH..].
Qed.

Lemma push_delta_Nil t : push_delta t = Nil -> t = Nil.
Proof. destruct t as [|m h me sz d l r]; [done|]. by destruct (push_delta_eq m h me sz d l r) as [? ->]. Qed.

(** ** Insertion *)
Lemma insert_recursive_ok (R : Marker -> Marker -> Prop) t new :
  tree_ok t -> stored new ->
  (forall m, key_lt (key new) (key m) -> R new m) ->
  (forall m, ~ key_lt (key new) (key m) -> R m new) ->
  Transitive R ->
  exists t' l1 l2, insert_recursive t new = Ok t' /\ tree_ok t'
    /\ (t_height t <= t_height t')%nat /\ (t_height t' <= S (t_height t))%nat
    /\ markers 0 t = l1 ++ l2 /\ markers 0 t' = l1 ++ new :: l2
    /\ (StronglySorted R (markers 0 t) -> Forall (fun m => R m new) l1 /\ Forall (R new) l2).
Proof.
  intros Hok Hnew Hlt Hge Htr. revert Hok. induction t as [t Hp|t m h me sz d l r Hp IHl IHr] using pushing_ind;
    intros Hok; rw insert_recursive_eq Hp.
  { apply push_delta_Nil in Hp as ->. exists (node_new new), [], []. simpl.
    rw resolved_0 //. split_and!; try done; lia. }
  destruct (push_delta_ok _ _ _ _ _ _ _ _ Hp Hok)
    as (-> & Hm & Hl & Hr & -> & Hh & ? & ? & _ & _ & Hmk).
  case_decide as Hk.
  - destruct (IHl Hl) as (l' & l1 & l2 & -> & Hl' & ? & ? & Hm1 & Hm2 & Hs). cbn [mbind res_bind].
    destruct (balance_ok m h me sz l' r) as (t' & -> & Ht' & Hmt & ? & ? & ?); [done..|lia|lia|].
    exists t', l1, (l2 ++ m :: markers 0 r). rw Hmk Hmt Hm1 Hm2 -!app_assoc.
    split_and!; try done; [lia..|]. intros Hss. rw app_assoc in Hss.
    apply StronglySorted_app in Hss as (Hx & Hs1 & (Hmr & _)%StronglySorted_cons). rw -Hm1 in Hs1.
    destruct (Hs Hs1). split; [done|]. apply Forall_app. split; [done|].
    apply Forall_cons_2; [by apply Hlt|]. eapply Forall_impl; [exact Hmr|].
    intros x Hx'. transitivity m; [by apply Hlt|done].
  - destruct (IHr Hr) as (r' & l1 & l2 & -> & Hr' & ? & ? & Hm1 & Hm2 & Hs). cbn [mbind res_bind].
    destruct (balance_ok m h me sz l r') as (t' & -> & Ht' & Hmt & ? & ? & ?); [done..|lia|lia|].
    exists t', (markers 0 l ++ m :: l1), l2. rw Hmk Hmt Hm1 Hm2 -!app_assoc.
    split_and!; try done; [lia..|]. intros Hss.
    apply StronglySorted_app in Hss as (Hx & Hs1 & (Hmr & Hs2)%StronglySorted_cons). rw -Hm1 in Hs2.
    destruct (Hs Hs2) as [Ha Hb]. split; [|done]. apply Forall_app. split.
    + apply Forall_forall. intros x Hxl. transitivity m; [|by apply Hge]. apply Hx; [done|by left].
    + apply Forall_cons_2; [by apply Hge|done].
Qed.

(** ** Deletion *)
Lemma remove_min_ok t :
  tree_ok t ->
  (t = Nil /\ remove_min t = Ok None)
  \/ exists m t', remove_min t = Ok (Some (m, t')) /\ tree_ok t' /\ stored m
       /\ markers 0 t = m :: markers 0 t'
       /\ (t_height t' <= t_height t)%nat /\ (t_height t <= S (t_height t'))%nat.
Proof.
  induction t as [t Hp|t m h me sz d l r Hp IHl _] using pushing_ind; intros Hok;
    rw remove_min_eq Hp.
  { left. by apply push_delta_Nil in Hp. }
  right. destruct (push_delta_ok _ _ _ _ _ _ _ _ Hp Hok)
    as (-> & Hm & Hl & Hr & -> & Hh & ? & ? & _ & _ & Hmk).
  destruct (IHl Hl) as [[-> ->]|(mn & l' & -> & Hl' & Hmn & Hml & ? & ?)]; cbn [mbind res_bind].
  - exists m, r. rw Hmk. simpl in *. split_and!; done || lia.
  - destruct (balance_ok m h me sz l' r) as (t' & -> & Ht' & Hmt & ? & ? & ?); [done..|lia|lia|].
    exists mn, t'. rw Hmk Hmt Hml. split_and!; try done; lia.
Qed.

Lemma remove_node_ok m h me sz l r :
  tree_ok (Node m h me sz 0 l r) ->
  exists t', remove_node (Node m h me sz 0 l r) = Ok t' /\ tree_ok t'
    /\ markers 0 t' = markers 0 l ++ markers 0 r
    /\ (t_height t' <= h)%nat /\ (h <= S (t_height t'))%nat.
Proof.
  intros (Hh & _ & ? & ? & Hm & Hl & Hr). unfold remove_node.
  destruct l as [|ml hl mel szl dl ll lr].
  { exists r. simpl in *. split_and!; done || lia. }
  destruct r as [|mr hr mer szr dr rl rr].
  { eexists; split; [done|]. rw app_nil_r. simpl t_height in *. split_and!; done || lia. }
  destruct (remove_min_ok (Node mr hr mer szr dr rl rr) Hr)
    as [[? _]|(mn & r' & -> & Hr' & Hmn & Hmr & ? & ?)]; [done|]. cbn [mbind res_bind].
  destruct (balance_ok mn h me sz (Node ml hl mel szl dl ll lr) r')
    as (t' & -> & Ht' & Hmt & ? & ? & ?); [done..|lia|lia|].
  exists t'. rw Hmt Hmr. split_and!; try done; lia.
Qed.

Lemma delete_below_ok t id :
  tree_ok t ->
  ((id ∉ m_id <$> markers 0 t) /\ delete_below t id = Ok None)
  \/ exists t' l1 m l2, delete_below t id = Ok (Some t') /\ tree_ok t'
       /\ m_id m = id /\ markers 0 t = l1 ++ m :: l2 /\ markers 0 t' = l1 ++ l2
       /\ (t_height t' <= t_height t)%nat /\ (t_height t <= S (t_height t'))%nat.
Proof.
  induction t as [t Hp|t m h me sz d l r Hp IHl IHr] using pushing_ind; intros Hok;
    rw delete_below_eq Hp.
  { left. apply push_delta_Nil in Hp as ->. split; [apply not_elem_of_nil|done]. }
  destruct (push_delta_ok _ _ _ _ _ _ _ _ Hp Hok)
    as (-> & Hm & Hl & Hr & -> & Hh & ? & ? & _ & _ & Hmk).
  case_decide as Hid.
  - right. destruct (remove_node_ok m h me (S (t_size l + t_size r)) l r) as (t' & Ht' & ? & Hmt & ? & ?);
      [by split_and!|].
    replace (remove_node (Node m h me sz 0 l r))
      with (remove_node (Node m h me (S (t_size l + t_size r)) 0 l r)) by by destruct l, r.
    rw Ht'. cbn [mbind res_bind]. exists t', (markers 0 l), m, (markers 0 r).
    split_and!; done || lia.
  - destruct (IHl Hl) as [[Hnl ->]|(l' & l1 & x & l2 & -> & Hl' & Hx & Hm1 & Hm2 & ? & ?)];
      cbn [mbind res_bind].
    2: { right. destruct (balance_ok m h me sz l' r) as (t' & -> & Ht' & Hmt & ? & ? & ?); [done..|lia|lia|].
         exists t', l1, x, (l2 ++ m :: markers 0 r). rw Hmk Hmt Hm1 Hm2 -!app_assoc.
         split_and!; try done; lia. }
    destruct (IHr Hr) as [[Hnr ->]|(r' & l1 & x & l2 & -> & Hr' & Hx & Hm1 & Hm2 & ? & ?)];
      cbn [mbind res_bind].
    + left. split; [|done]. rw Hmk fmap_app fmap_cons elem_of_app elem_of_cons.
      intros [?|[?|?]]; [done|by subst|done].
    + right. destruct (balance_ok m h me sz l r') as (t' & -> & Ht' & Hmt & ? & ? & ?); [done..|lia|lia|].
      exists t', (markers 0 l ++ m :: l1), x, l2. rw Hmk Hmt Hm1 Hm2 -!app_assoc.
      split_and!; try done; lia.
Qed.
