(* ===== verification/MarkerTreeOps.v ===== *)
(** * Marker tree: the operations of [IntervalTree]

    The invariant of the tree with its id map, and what insertion, deletion and
    the lookups do to the markers in position order. *)
From stdpp Require Import base numbers list option sorting gmap.
From Stdlib Require Import ssreflect.
From Equations Require Import Equations.
From S2P Require Import Prelude MarkerTree MarkerTreeInv.

#[local] Open Scope Z_scope.

(** The markers in order, with their current intervals. *)
Definition contents (t : IntervalTree) : list Marker := markers 0 (it_root t).

Definition start_le (a b : Marker) : Prop := m_start a <= m_start b.

(** AVL tree with exact statistics, ordered by position, whose ids are distinct,
    below [next_id], and exactly the keys of the map. *)
Record it_inv (t : IntervalTree) : Prop := {
  inv_tree : tree_ok (it_root t);
  inv_sorted : StronglySorted start_le (contents t);
  inv_nodup : NoDup (m_id <$> contents t);
  inv_map : forall id, id ∈ marker_map t <-> id ∈ m_id <$> contents t;
  inv_next : Forall (fun m => 0 <= m_id m < next_id t) (contents t);
}.

#[export] Instance start_le_trans : Transitive start_le.
Proof. intros a b c. unfold start_le. lia. Qed.

(** ** Sorted lists *)
Lemma StronglySorted_insert {A} (R : A -> A -> Prop) l1 x l2 :
  StronglySorted R (l1 ++ l2) -> Forall (fun y => R y x) l1 -> Forall (R x) l2 ->
  StronglySorted R (l1 ++ x :: l2).
Proof.
  intros (H12 & H1 & H2)%StronglySorted_app Hl1 Hl2. apply StronglySorted_app. split_and!; [|done|].
  - intros y z Hy [->|Hz]%elem_of_cons; [|by apply H12]. rw Forall_forall in Hl1. by apply Hl1.
  - by apply StronglySorted_cons.
Qed.

Lemma StronglySorted_remove {A} (R : A -> A -> Prop) l1 x l2 :
  StronglySorted R (l1 ++ x :: l2) -> StronglySorted R (l1 ++ l2).
Proof.
  intros (H12 & H1 & [_ H2]%StronglySorted_cons)%StronglySorted_app.
  apply StronglySorted_app. split_and!; [|done..]. intros y z Hy Hz. apply H12; [done|by right].
Qed.

(** ** Insertion *)
Lemma key_lt_start a b : key_lt (key a) (key b) -> start_le a b.
Proof. unfold key_lt, key, start_le. simpl. lia. Qed.

Lemma key_ge_start a b : ~ key_lt (key a) (key b) -> start_le b a.
Proof. unfold key_lt, key, start_le. simpl. lia. Qed.

(** Inserting a marker with a fresh id. *)
Lemma insert_marker_ok t m :
  it_inv t -> stored m -> m_id m ∉ m_id <$> contents t ->
  exists root l1 l2, insert_recursive (it_root t) m = Ok root
    /\ contents t = l1 ++ l2 /\ markers 0 root = l1 ++ m :: l2
    /\ (forall next, next_id t <= next -> 0 <= m_id m < next ->
        it_inv (mkIntervalTree root next ({[m_id m]} ∪ marker_map t))).
Proof.
  intros [Hok Hs Hnd Hmap Hnext] Hm Hfresh.
  destruct (insert_recursive_ok start_le (it_root t) m) as (root & l1 & l2 & -> & Hr & _ & _ & H1 & H2 & Hss);
    [done|done|apply key_lt_start|apply key_ge_start|apply _|].
  exists root, l1, l2. split_and!; [done..|]. intros next Hn Hid.
  fold (contents t) in H1, Hss. rw H1 in Hs Hss Hnd Hmap Hnext Hfresh. destruct (Hss Hs).
  assert (m_id <$> l1 ++ m :: l2 ≡ₚ m_id m :: (m_id <$> l1 ++ l2)) as Hperm.
  { by rw !fmap_app fmap_cons Permutation_middle. }
  split; unfold contents; simpl; rw ?H2; [done| | | |].
  - by apply StronglySorted_insert.
  - rw Hperm. by apply NoDup_cons.
  - intros id. rw Hperm elem_of_union elem_of_singleton elem_of_cons Hmap. done.
  - rw -Permutation_middle. apply Forall_cons_2; [done|]. eapply Forall_impl; [exact Hnext|].
    simpl. lia.
Qed.

(** ** Deletion *)
Lemma it_delete_ok t id :
  it_inv t ->
  (id ∉ m_id <$> contents t -> it_delete t id = Ok (t, false))
  /\ (id ∈ m_id <$> contents t ->
      exists t' l1 m l2, it_delete t id = Ok (t', true) /\ it_inv t' /\ m_id m = id
        /\ contents t = l1 ++ m :: l2 /\ contents t' = l1 ++ l2 /\ next_id t' = next_id t).
Proof.
  intros [Hok Hs Hnd Hmap Hnext]. unfold it_delete. split; intros Hid.
  { rw decide_False //. by rw Hmap. }
  rw decide_True; [by rw Hmap|].
  destruct (delete_below_ok (it_root t) id Hok) as [[Hn _]|(root & l1 & m & l2 & -> & Hr & Hm & H1 & H2 & _ & _)];
    [done|]. cbn [mbind res_bind].
  eexists _, l1, m, l2. split; [done|]. fold (contents t) in H1. split_and!; [|done..].
  rw H1 in Hs Hnd Hmap Hnext. rw -Permutation_middle in Hnext.
  rw fmap_app fmap_cons -Permutation_middle in Hnd. apply NoDup_cons in Hnd as [Hfr Hnd].
  split; unfold contents; simpl; rw ?H2; [done| | | |].
  - exact (StronglySorted_remove _ _ _ _ Hs).
  - by rw fmap_app.
  - intros id'. rw elem_of_difference elem_of_singleton Hmap !fmap_app fmap_cons.
    rw -Permutation_middle elem_of_cons. rw Hm in Hfr |- *. split.
    + intros [[?|?] ?]; done.
    + intros Hin. split; [by right|]. intros ->. done.
  - by inversion Hnext.
Qed.

(** ** Lookups *)
Lemma markers_add acc d t : markers (add_i64 acc d) t = markers (acc + d) t.
Proof. apply markers_mod, add_i64_mod. Qed.

Lemma resolved_add acc d m : resolved m (add_i64 acc d) = resolved m (acc + d).
Proof. apply resolved_mod, add_i64_mod. Qed.

Lemma shift_start m d : shift (m_start m) d = m_start (resolved m d).
Proof. done. Qed.

Lemma shift_end m d : shift (m_end m) d = m_end (resolved m d).
Proof. done. Qed.

Lemma filter_none {A} (P : A -> Prop) `{forall x, Decision (P x)} l :
  Forall (fun x => ~ P x) l -> filter P l = [].
Proof. induction 1; [done|]. by rw filter_cons_False. Qed.

Lemma filter_all {A} (P : A -> Prop) `{forall x, Decision (P x)} l :
  Forall P l -> filter P l = l.
Proof. induction 1 as [|x l Hx _ IH]; [done|]. by rw filter_cons_True // IH. Qed.

Lemma position_below_Some t acc id p :
  position_below t acc id = Some p ->
  exists m, m ∈ markers acc t /\ m_id m = id /\ p = (m_start m, m_end m).
Proof.
  revert acc. induction t as [|m h me sz d l IHl r IHr]; intros acc; simpl; [done|].
  rw shift_start shift_end resolved_add. case_decide as Hid.
  { intros [= <-]. exists (resolved m (acc + d)). rw elem_of_app elem_of_cons. auto. }
  destruct (position_below l (add_i64 acc d) id) eqn:E; intros H; [injection H as ->|].
  - destruct (IHl _ E) as (x & Hx & ?). exists x. rw markers_add in Hx. rw elem_of_app. auto.
  - destruct (IHr _ H) as (x & Hx & ?). exists x. rw markers_add in Hx. rw elem_of_app elem_of_cons. auto.
Qed.

Lemma position_below_is_Some t acc id :
  id ∈ m_id <$> markers acc t -> is_Some (position_below t acc id).
Proof.
  revert acc. induction t as [|m h me sz d l IHl r IHr]; intros acc; simpl.
  { by intros ?%not_elem_of_nil. }
  rw fmap_app fmap_cons elem_of_app elem_of_cons. intros Hin.
  case_decide as Hid; [done|]. destruct (position_below l (add_i64 acc d) id) eqn:E; [done|].
  destruct Hin as [Hin|[->|Hin]]; [|done|apply IHr; by rw markers_add].
  rw -markers_add in Hin. apply IHl in Hin. rw E in Hin. by destruct Hin.
Qed.

Lemma NoDup_fmap_unique {A B} (f : A -> B) l x y :
  NoDup (f <$> l) -> x ∈ l -> y ∈ l -> f x = f y -> x = y.
Proof.
  intros Hnd [i Hi]%list_elem_of_lookup [j Hj]%list_elem_of_lookup Heq.
  assert (i = j) as <-.
  { eapply (NoDup_lookup _ _ _ (f x) Hnd); rw list_lookup_fmap ?Hi ?Hj /= ?Heq //. }
  congruence.
Qed.

Lemma count_before_from_ok t acc pos count :
  tree_ok t -> StronglySorted start_le (markers acc t) ->
  count_before_from t acc pos count
  = (count + length (filter (fun m => (m_start m < pos)%Z) (markers acc t)))%nat.
Proof.
  revert acc count. induction t as [|m h me sz d l IHl r IHr]; intros acc count Hok Hs; simpl; [lia|].
  destruct Hok as (_ & _ & _ & _ & _ & Hl & Hr).
  rw shift_start resolved_add. set (x := resolved m (acc + d)).
  simpl in Hs. fold x in Hs. pose proof Hs as (Hlx & Hsl & [Hxr Hsr]%StronglySorted_cons)%StronglySorted_app.
  rw filter_app. case_decide as Hp.
  - rw IHr //; [by rw markers_add|]. rw markers_add filter_cons_True // (filter_all _ (markers (acc + d) l)).
    + apply Forall_forall. intros y Hy. specialize (Hlx y x Hy ltac:(by left)). unfold start_le in Hlx. lia.
    + rw length_app (t_size_markers (acc + d) l Hl). simpl. lia.
  - rw IHl //; [by rw markers_add|]. rw markers_add filter_cons_False // (filter_none _ (markers (acc + d) r)).
    + eapply Forall_impl; [exact Hxr|]. intros y Hy. unfold start_le in Hy. lia.
    + by rw app_nil_r.
Qed.

Lemma nth_from_ok t acc k : tree_ok t -> nth_from t acc k = markers acc t !! k.
Proof.
  revert acc k. induction t as [|m h me sz d l IHl r IHr]; intros acc k Hok; simpl; [done|].
  destruct Hok as (_ & _ & _ & _ & _ & Hl & Hr). rw (t_size_markers (acc + d) l Hl) resolved_add.
  destruct (Nat.compare_spec k (length (markers (acc + d) l))) as [->|Hlt|Hgt].
  - by rw list_lookup_middle.
  - by rw IHl // markers_add lookup_app_l.
  - rw IHr // markers_add lookup_app_r; [lia|].
    replace (k - length (markers (acc + d) l))%nat
      with (S (k - (length (markers (acc + d) l) + 1)))%nat by lia. done.
Qed.

Lemma in_range_recursive_ok t acc lo hi :
  lo < hi -> StronglySorted start_le (markers acc t) ->
  in_range_recursive t acc lo hi = filter (fun m => lo <= m_start m < hi) (markers acc t).
Proof.
  intros Hlh. revert acc. induction t as [|m h me sz d l IHl r IHr]; intros acc Hs; simpl; [done|].
  rw shift_start resolved_add. set (x := resolved m (acc + d)).
  simpl in Hs. fold x in Hs. pose proof Hs as (Hlx & Hsl & [Hxr Hsr]%StronglySorted_cons)%StronglySorted_app.
  rw IHl ?markers_add // IHr ?markers_add // filter_app filter_cons.
  assert (~ lo <= m_start x -> filter (fun m => lo <= m_start m < hi) (markers (acc + d) l) = []) as Hleft.
  { intros. apply filter_none, Forall_forall. intros y Hy.
    specialize (Hlx y x Hy ltac:(by left)). unfold start_le in Hlx. lia. }
  assert (~ m_start x < hi -> filter (fun m => lo <= m_start m < hi) (markers (acc + d) r) = []) as Hright.
  { intros. apply filter_none. eapply Forall_impl; [exact Hxr|]. intros y Hy. unfold start_le in Hy. lia. }
  f_equal; [case_decide; [done|by rw Hleft]|].
  destruct (decide (lo <= m_start x /\ m_start x < hi)), (decide (lo <= m_start x < hi)); try lia;
    case_decide; try lia; simpl; (done || by rw Hright).
Qed.

(** Deletion as a filter. *)
Lemma it_delete_filter t id :
  it_inv t ->
  exists t', it_delete t id = Ok (t', bool_decide (id ∈ m_id <$> contents t)) /\ it_inv t'
    /\ contents t' = filter (fun m => m_id m <> id) (contents t) /\ next_id t' = next_id t.
Proof.
  intros Hinv. destruct (it_delete_ok t id Hinv) as [Hno Hyes].
  destruct (decide (id ∈ m_id <$> contents t)) as [Hin|Hin].
  - destruct (Hyes Hin) as (t' & l1 & m & l2 & -> & Hinv' & Hm & H1 & H2 & Hn).
    exists t'. rw bool_decide_true //. split_and!; [done..| |done].
    pose proof (inv_nodup _ Hinv) as Hnd. rw H1 fmap_app fmap_cons -Permutation_middle in Hnd.
    apply NoDup_cons in Hnd as [Hfr _]. rw Hm -fmap_app in Hfr.
    rw H1 H2 !filter_app filter_cons_False; [naive_solver|].
    rw -filter_app filter_all //. apply Forall_forall. intros x Hx <-. apply Hfr.
    by apply list_elem_of_fmap_2.
  - exists t. rw Hno // bool_decide_false //. split_and!; [done..| |done].
    rw filter_all //. apply Forall_forall. intros x Hx <-. apply Hin. by apply list_elem_of_fmap_2.
Qed.

Lemma get_position_ok t m :
  it_inv t -> m ∈ contents t -> get_position t (m_id m) = Some (m_start m, m_end m).
Proof.
  intros Hinv Hm. pose proof (list_elem_of_fmap_2 m_id _ _ Hm) as Hid.
  unfold get_position. rw decide_True; [by apply inv_map|].
  destruct (position_below_is_Some _ _ _ Hid) as [p Hp]. rw Hp.
  destruct (position_below_Some _ _ _ _ Hp) as (m' & Hm' & Heq & ->).
  by rw (NoDup_fmap_unique m_id _ m' m (inv_nodup _ Hinv) Hm' Hm Heq).
Qed.

Lemma marker_below_ok t acc id :
  match marker_below t id with
  | Some m => exists a, resolved m a ∈ markers acc t /\ m_id m = id
  | None => id ∉ m_id <$> markers acc t
  end.
Proof.
  revert acc. induction t as [|m h me sz d l IHl r IHr]; intros acc; simpl.
  { apply not_elem_of_nil. }
  specialize (IHl (acc + d)). specialize (IHr (acc + d)). case_decide as Hid.
  { exists (acc + d). rw elem_of_app elem_of_cons. auto. }
  destruct (marker_below l id) as [x|].
  { destruct IHl as (a & Ha & ?). exists a. rw elem_of_app. auto. }
  destruct (marker_below r id) as [x|].
  { destruct IHr as (a & Ha & ?). exists a. rw elem_of_app elem_of_cons. auto. }
  rw fmap_app fmap_cons elem_of_app elem_of_cons. intros [?|[?|?]]; [done|by subst|done].
Qed.

(** ** Height *)
Lemma tree_ok_height t acc :
  tree_ok t -> (2 ^ t_height t <= (length (markers acc t) + 1) ^ 2)%nat.
Proof.
  revert acc. induction t as [|m h me sz d l IHl r IHr]; intros acc; [simpl; lia|].
  intros (-> & _ & Hb1 & Hb2 & _ & Hl & Hr). cbn [t_height markers]. rw length_app. cbn [length].
  specialize (IHl (acc + d) Hl). specialize (IHr (acc + d) Hr).
  set (a := length (markers (acc + d) l)) in *. set (b := length (markers (acc + d) r)) in *.
  rw Nat.pow_succ_r'. replace (a + S b + 1)%nat with ((a + 1) + (b + 1))%nat by lia.
  assert (forall x y X Y : nat, X <= x ^ 2 -> Y <= y ^ 2 -> X <= 2 * Y -> 2 * X <= (x + y) ^ 2)%nat as Harith.
  { intros x y X Y. rw !Nat.pow_2_r. nia. }
  destruct (Nat.max_spec (t_height l) (t_height r)) as [[Hlt ->]|[Hge ->]].
  - rw (Nat.add_comm (a + 1)). eapply Harith; [exact IHr|exact IHl|].
    replace (t_height r) with (S (t_height l)) by lia. by rw Nat.pow_succ_r'.
  - eapply Harith; [exact IHl|exact IHr|]. rw -Nat.pow_succ_r'. apply Nat.pow_le_mono_r; lia.
Qed.

(** ** Checking the invariant *)
#[export] Instance stored_dec m : Decision (stored m) := and_dec _ _.
#[export] Instance start_le_dec a b : Decision (start_le a b) := Z.le_dec _ _.

#[export] Instance tree_ok_dec t : Decision (tree_ok t).
Proof. induction t; simpl; apply _. Defined.

Definition it_inv_b (t : IntervalTree) : bool :=
  bool_decide (tree_ok (it_root t)) && bool_decide (StronglySorted start_le (contents t))
  && bool_decide (NoDup (m_id <$> contents t))
  && bool_decide (marker_map t = list_to_set (m_id <$> contents t))
  && bool_decide (Forall (fun m => 0 <= m_id m < next_id t) (contents t)).

Lemma it_inv_b_sound t : it_inv_b t = true -> it_inv t.
Proof.
  unfold it_inv_b. rw !andb_true_iff !bool_decide_eq_true. intros ((((? & ?) & ?) & Hmap) & ?).
  split; [done..| |done]. intros id. rw Hmap. apply elem_of_list_to_set.
Qed.

(** Four point markers and an interval, on both sides of the root. *)
Definition demo_markers : IntervalTree :=
  match insert_each it_new [(10, 10); (2, 50); (30, 30); (5, 5); (20, 20)] with
  | Ok (t, _) => t
  | Panic => it_new
  end.

(** ** Properties *)

(** Insertion with a fresh id. *)
Lemma insert_full_ok t start end_ mt rg ord :
  it_inv t -> 0 <= start < 2 ^ 64 -> 0 <= end_ < 2 ^ 64 -> 0 <= next_id t -> next_id t + 1 < 2 ^ 64 ->
  exists t' l1 l2,
    insert_full t start end_ mt rg ord = Ok (t', next_id t) /\ it_inv t'
    /\ contents t = l1 ++ l2
    /\ contents t' = l1 ++ mkMarker (next_id t) (mkInterval start end_) mt rg ord :: l2.
Proof.
  intros Hinv Hs He H0 Hn. unfold insert_full.
  destruct (insert_marker_ok t (mkMarker (next_id t) (mkInterval start end_) mt rg ord) Hinv)
    as (root & l1 & l2 & -> & H1 & H2 & Hi).
  { by split. }
  { simpl. intros (m & Hm & Hin)%list_elem_of_fmap. pose proof (inv_next _ Hinv) as Hnx.
    rw Forall_forall in Hnx. specialize (Hnx _ Hin). lia. }
  simpl in *. eexists _, l1, l2. split; [done|]. split; [|done].
  rw to_u64_small; [lia|]. apply Hi; lia.
Qed.

(** Inserting a marker never panics, returns a fresh id, keeps the invariant
    (balance, order, statistics, id map), and adds exactly that marker: the others
    keep their place and their interval. *)
Theorem insert_full_inserts t start end_ mt rg ord :
  it_inv t -> 0 <= start < 2 ^ 64 -> 0 <= end_ < 2 ^ 64 -> 0 <= next_id t -> next_id t + 1 < 2 ^ 64 ->
  exists t' l1 l2,
    insert_full t start end_ mt rg ord = Ok (t', next_id t) /\ it_inv t'
    /\ contents t = l1 ++ l2
    /\ contents t' = l1 ++ mkMarker (next_id t) (mkInterval start end_) mt rg ord :: l2.
Proof. apply insert_full_ok. Qed.

Lemma insert_full_inserts_witness :
  exists t' l1 l2,
    insert_full demo_markers 20 25 Position false 0 = Ok (t', 5) /\ it_inv t'
    /\ contents demo_markers = l1 ++ l2
    /\ contents t' = l1 ++ mkMarker 5 (mkInterval 20 25) Position false 0 :: l2.
Proof.
  apply (insert_full_inserts demo_markers 20 25 Position false 0); [|done..].
  apply it_inv_b_sound. vm_compute. reflexivity.
Defined.

(** Deleting an id never panics, keeps the invariant, reports whether the id
    was there, and removes exactly the marker with that id. *)
Theorem it_delete_removes t id :
  it_inv t ->
  exists t', it_delete t id = Ok (t', bool_decide (id ∈ m_id <$> contents t)) /\ it_inv t'
    /\ contents t' = filter (fun m => m_id m <> id) (contents t) /\ next_id t' = next_id t.
Proof. apply it_delete_filter. Qed.

Lemma it_delete_removes_witness :
  exists t', it_delete demo_markers 0 = Ok (t', bool_decide (0 ∈ m_id <$> contents demo_markers))
    /\ it_inv t' /\ contents t' = filter (fun m => m_id m <> 0) (contents demo_markers)
    /\ next_id t' = next_id demo_markers.
Proof.
  apply (it_delete_removes demo_markers 0). apply it_inv_b_sound. vm_compute. reflexivity.
Defined.

(** [get_position] gives the current interval of every marker, pending deltas
    included, and nothing for other ids. *)
Theorem get_position_current t id :
  it_inv t ->
  (forall m, m ∈ contents t -> get_position t (m_id m) = Some (m_start m, m_end m))
  /\ (id ∉ m_id <$> contents t -> get_position t id = None).
Proof.
  intros Hinv. split; [intros m; by apply get_position_ok|]. intros Hid. unfold get_position.
  rw decide_False //. by rw (inv_map _ Hinv).
Qed.

Lemma get_position_current_witness :
  get_position demo_markers 7 = None.
Proof.
  apply (get_position_current demo_markers 7); [apply it_inv_b_sound; vm_compute; reflexivity|].
  apply (bool_decide_unpack _). vm_compute. exact I.
Defined.

(** The size, [nth], [count_before] and [in_range] answer as the ordered list
    of markers does: by rank, by the number of markers before a position, and by
    the markers of a range. *)
Theorem rank_queries_correct t pos lo hi k :
  it_inv t ->
  it_len t = length (contents t) /\ nth t k = contents t !! k
  /\ count_before t pos = length (filter (fun m => m_start m < pos) (contents t))
  /\ in_range t lo hi = filter (fun m => lo <= m_start m < hi) (contents t).
Proof.
  intros [Hok Hs _ _ _]. split_and!.
  - by apply t_size_markers.
  - by apply nth_from_ok.
  - unfold count_before. by rw count_before_from_ok.
  - unfold in_range. case_decide; [by apply in_range_recursive_ok|].
    rw filter_none //. apply Forall_forall. intros; lia.
Qed.

Lemma rank_queries_correct_witness :
  count_before demo_markers 20 = 3%nat /\ nth demo_markers 3 = contents demo_markers !! 3%nat.
Proof.
  destruct (rank_queries_correct demo_markers 20 0 1 3) as (_ & H1 & H2 & _).
  - apply it_inv_b_sound. vm_compute. reflexivity.
  - rw H2. split; [vm_compute; reflexivity|exact H1].
Defined.

(** The tree stays logarithmic: two to its height is at most the square of
    one plus the number of markers. *)
Theorem height_logarithmic t :
  it_inv t -> (2 ^ t_height (it_root t) <= (length (contents t) + 1) ^ 2)%nat.
Proof. intros Hinv. apply tree_ok_height, Hinv. Qed.

Lemma height_logarithmic_witness :
  (2 ^ t_height (it_root demo_markers) <= (5 + 1) ^ 2)%nat.
Proof.
  apply (height_logarithmic demo_markers). apply it_inv_b_sound. vm_compute. reflexivity.
Defined.

(** Moving as deletion and reinsertion. *)
Lemma set_position_ok t id new_start new_end :
  it_inv t -> 0 <= new_start < 2 ^ 64 -> 0 <= new_end < 2 ^ 64 ->
  (id ∉ m_id <$> contents t -> set_position t id new_start new_end = Ok (t, false))
  /\ (forall m, m ∈ contents t -> m_id m = id ->
      exists t', set_position t id new_start new_end = Ok (t', true) /\ it_inv t'
        /\ contents t' ≡ₚ set_interval m new_start new_end
                          :: filter (fun m => m_id m <> id) (contents t)).
Proof.
  intros Hinv Hs He. unfold set_position, get_marker.
  pose proof (marker_below_ok (it_root t) 0 id) as Hb. fold (contents t) in Hb. split.
  { intros Hid. rw decide_False //. by rw (inv_map _ Hinv). }
  intros m Hm Hid. assert (id ∈ m_id <$> contents t) as Hin by (subst; by apply list_elem_of_fmap_2).
  rw decide_True; [by rw (inv_map _ Hinv)|]. destruct (marker_below (it_root t) id) as [x|]; [|done].
  destruct Hb as (a & Ha & Hxid).
  assert (m = resolved x a) as Hmx.
  { apply (NoDup_fmap_unique m_id (contents t)); [apply Hinv|done|done|]. simpl. congruence. }
  destruct (it_delete_filter t id Hinv) as (t1 & Hdel & Hinv1 & Hc1 & Hn1).
  rw bool_decide_true // in Hdel. rw Hdel. cbn [mbind res_bind].
  set (new := mkMarker id (mkInterval new_start new_end) (marker_type x) (right_gravity x) (order x)).
  assert (new = set_interval m new_start new_end) as Hnew.
  { rw Hmx. unfold new. by rw -Hxid. }
  assert (m_id new ∉ m_id <$> contents t1) as Hfr.
  { rw Hc1. intros (y & Hy & [Hne _]%list_elem_of_filter)%list_elem_of_fmap.
    apply Hne. by rw -Hy. }
  assert (0 <= id < next_id t) as Hidb.
  { pose proof (inv_next _ Hinv) as Hnx. rw Forall_forall in Hnx. specialize (Hnx _ Hm). lia. }
  destruct (insert_marker_ok t1 new Hinv1) as (root & l1 & l2 & Hins & H1 & H2 & Hi); [by split|done|].
  unfold insert_with_id. rw decide_False.
  { intros [?|?%(inv_map _ Hinv1)]; [lia|done]. }
  fold new. rw Hins. cbn [mbind res_bind]. eexists. split; [done|]. split.
  - apply Hi; [lia|simpl; lia].
  - unfold contents at 1. simpl. rw H2 -Hnew -Hc1 H1. by rw Permutation_middle.
Qed.

(** Moving a marker keeps its id, type, gravity and order, puts it at the new
    interval, and leaves the other markers alone; an unknown id changes nothing. *)
Theorem set_position_moves t id new_start new_end :
  it_inv t -> 0 <= new_start < 2 ^ 64 -> 0 <= new_end < 2 ^ 64 ->
  (id ∉ m_id <$> contents t -> set_position t id new_start new_end = Ok (t, false))
  /\ (forall m, m ∈ contents t -> m_id m = id ->
      exists t', set_position t id new_start new_end = Ok (t', true) /\ it_inv t'
        /\ contents t' ≡ₚ set_interval m new_start new_end
                          :: filter (fun m => m_id m <> id) (contents t)).
Proof. apply set_position_ok. Qed.

Lemma set_position_moves_witness :
  exists t', set_position demo_markers 2 7 9 = Ok (t', true) /\ it_inv t'
    /\ contents t' ≡ₚ mkMarker 2 (mkInterval 7 9) Position true 0
                      :: filter (fun m => m_id m <> 2) (contents demo_markers).
Proof.
  apply (proj2 (set_position_moves demo_markers 2 7 9
    ltac:(apply it_inv_b_sound; vm_compute; reflexivity) ltac:(done) ltac:(done))
    (mkMarker 2 (mkInterval 30 30) Position true 0)).
  - apply (bool_decide_unpack _). vm_compute. exact I.
  - reflexivity.
Defined.
