(* ===== verification/MarkerTreeEdit.v ===== *)
(** * Marker tree: edits

    [adjust_for_edit] moves every marker the way a direct recomputation on the
    list of markers would, and keeps the tree ordered, including where markers of
    opposite gravity share the position of an insertion. *)
From stdpp Require Import base numbers list option sorting gmap.
From Stdlib Require Import ssreflect.
From Equations Require Import Equations.
From S2P Require Import Prelude MarkerTree MarkerTreeInv MarkerTreeOps.

#[local] Open Scope Z_scope.

(** ** Specification of an edit on one marker *)

(** Text of length [delta] inserted at [pos], or [- delta] bytes deleted from
    [pos] on.  A position after the edit moves with the text behind it, a position
    inside deleted text goes to [pos], and gravity decides for an insertion
    exactly at the position. *)
Definition moved_start (m : Marker) (pos delta : Z) : Z :=
  if decide (m_start m < pos) then m_start m
  else if decide (delta < 0) then Z.max (m_start m + delta) pos
  else if decide (right_gravity m = false /\ pos = m_start m) then m_start m
  else m_start m + delta.

Definition moved_end (m : Marker) (pos delta : Z) : Z :=
  if decide (m_end m < pos \/ (right_gravity m = false /\ 0 < delta /\ pos = m_end m)) then m_end m
  else Z.max (m_end m + delta) (moved_start m pos delta).

Definition moved (pos delta : Z) (m : Marker) : Marker :=
  set_interval m (moved_start m pos delta) (moved_end m pos delta).

(** The marker after the edit, except that a marker that spans the edit may keep
    its end. *)
Definition adjusted_by (pos delta : Z) (m m' : Marker) : Prop :=
  m' = moved pos delta m \/ (m_start m < pos <= m_end m /\ m' = m).

(** Positions and edits inside the range of [i64], before and after the edit. *)
Definition edit_bounded (pos delta : Z) (m : Marker) : Prop :=
  0 <= m_start m <= m_end m /\ m_end m + Z.max delta 0 < 2 ^ 63.

Lemma adjust_recursive_eq t pos delta :
  adjust_recursive t pos delta =
  match push_delta t with
  | Nil => Nil
  | Node m h me sz d l r =>
      let start := m_start m in
      let new_start := adjust_start m pos delta in
      let new_end := adjust_end m new_start pos delta in
      let r' := if decide (pos <= start)
                then if decide (delta < 0 \/ pos = start)
                     then adjust_recursive r pos delta
                     else add_delta delta r
                else adjust_recursive r pos delta in
      let l' := if decide (pos <= start) then adjust_recursive l pos delta else l in
      update_stats (Node (set_interval m new_start new_end) h me sz d l' r')
  end.
Proof. unfold_pushing adjust_recursive_equation_1 adjust_recursive_unfold_clause_1. Qed.

Section adjust.
Context (pos delta : Z).
Hypothesis Hpos : 0 <= pos < 2 ^ 63.
Hypothesis Hdelta : - 2 ^ 63 <= delta < 2 ^ 63.
Local Abbreviation bounded := (edit_bounded pos delta).

(** Inside the bounds the wrapping arithmetic of the code is exact. *)
Lemma adjust_start_moved m : bounded m -> adjust_start m pos delta = moved_start m pos delta.
Proof.
  intros [? ?]. unfold adjust_start, moved_start.
  destruct (decide (m_start m < pos)); [rw decide_False //; lia|]. rw decide_True; [lia|].
  destruct (right_gravity m); simpl; repeat (case_decide || case_bool_decide); simpl;
    try lia; try (rw shift_small; lia); unfold add_i64;
    try (rw (to_i64_small (m_start m)); [lia|]; rw (to_i64_small pos); [lia|];
         rw to_i64_id; [lia|]; rw to_u64_small; lia); intuition lia.
Qed.

Lemma moved_start_bounds m :
  bounded m -> 0 <= moved_start m pos delta < 2 ^ 63 /\ (m_start m < pos -> moved_start m pos delta = m_start m).
Proof. intros [? ?]. unfold moved_start. case_cmp; lia. Qed.

Lemma moved_end_bounds m :
  bounded m -> moved_start m pos delta <= moved_end m pos delta < 2 ^ 63.
Proof.
  intros Hm. pose proof (moved_start_bounds m Hm) as [? _]. destruct Hm as [? ?].
  unfold moved_end. case_decide as Hd; [|lia]. unfold moved_start.
  repeat case_decide; destruct Hd as [?|(? & ? & ?)]; try lia.
  exfalso. match goal with H : ~ (_ /\ _) |- _ => apply H; split; [done|lia] end.
Qed.

Lemma adjust_end_moved m :
  bounded m -> adjust_end m (moved_start m pos delta) pos delta = moved_end m pos delta.
Proof.
  intros Hm. pose proof (moved_start_bounds m Hm) as [? _]. pose proof (moved_end_bounds m Hm).
  destruct Hm as [? ?]. unfold adjust_end. unfold moved_end in *.
  assert (m_end m < pos \/ pos <= m_end m ->
    to_u64 (Z.max (add_i64 (to_i64 (m_end m)) delta) (to_i64 (moved_start m pos delta)))
    = Z.max (m_end m + delta) (moved_start m pos delta)) as Harith.
  { intros _. unfold add_i64. rw (to_i64_small (m_end m)); [lia|].
    rw (to_i64_small (moved_start m pos delta)); [lia|]. rw to_i64_id; [lia|].
    rw to_u64_small; lia. }
  destruct (right_gravity m); simpl; repeat (case_decide || case_bool_decide); simpl;
    try (rw Harith; lia); try lia; intuition lia.
Qed.

Lemma stored_moved m : bounded m -> stored (moved pos delta m).
Proof.
  intros Hm. pose proof (moved_start_bounds m Hm) as [? _]. pose proof (moved_end_bounds m Hm).
  split; unfold moved, m_start, m_end; simpl; lia.
Qed.

(** Behind an insertion everything moves by its length. *)
Lemma moved_behind m : bounded m -> 0 <= delta -> pos < m_start m -> resolved m delta = moved pos delta m.
Proof.
  intros [? ?] Hd Hp. unfold resolved, moved. rw !shift_small; [lia..|]. f_equal.
  - unfold moved_start. case_cmp; lia.
  - unfold moved_end, moved_start. case_cmp; lia.
Qed.

(** Before the edit nothing moves. *)
Lemma moved_before m : m_end m < pos -> m_start m <= m_end m -> moved pos delta m = m.
Proof.
  intros. unfold moved, moved_end, moved_start. rw !decide_True; [lia..|].
  by destruct m as [? [] ? ? ?].
Qed.

Lemma markers_resolved a d t : markers (a + d) t = (fun m => resolved m d) <$> markers a t.
Proof.
  revert a. induction t as [|m h me sz ld l IHl r IHr]; intros a; [done|]. simpl.
  replace (a + d + ld) with (a + ld + d) by lia.
  by rw IHl IHr fmap_app fmap_cons resolved_resolved.
Qed.

Lemma adjust_recursive_ok t :
  tree_ok t -> StronglySorted start_le (markers 0 t) -> Forall bounded (markers 0 t) ->
  let t' := adjust_recursive t pos delta in
  tree_ok t' /\ t_height t' = t_height t
  /\ Forall2 (adjusted_by pos delta) (markers 0 t) (markers 0 t').
Proof.
  induction t as [t Hp|t m h me sz d l r Hp IHl IHr] using pushing_ind; intros Hok Hs Hb; cbv zeta;
    rw adjust_recursive_eq Hp.
  { by apply push_delta_Nil in Hp as ->. }
  destruct (push_delta_ok _ _ _ _ _ _ _ _ Hp Hok)
    as (-> & Hm & Hl & Hr & -> & Hh & Hb1 & Hb2 & _ & _ & Hmk).
  rw Hmk in Hs Hb |- *. apply Forall_app in Hb as [Hbl [Hbm Hbr]%Forall_cons].
  pose proof Hs as (Hlx & Hsl & [Hxr Hsr]%StronglySorted_cons)%StronglySorted_app.
  cbv zeta. rw adjust_start_moved // adjust_end_moved //. fold (moved pos delta m).
  assert (forall l' r', tree_ok l' -> tree_ok r' -> t_height l' = t_height l ->
    t_height r' = t_height r -> Forall2 (adjusted_by pos delta) (markers 0 l) (markers 0 l') ->
    Forall2 (adjusted_by pos delta) (markers 0 r) (markers 0 r') ->
    let t' := update_stats (Node (moved pos delta m) h me sz 0 l' r') in
    tree_ok t' /\ t_height t' = h
    /\ Forall2 (adjusted_by pos delta) (markers 0 l ++ m :: markers 0 r) (markers 0 t')) as Hfin.
  { intros l' r' Hl' Hr' Hhl Hhr Hfl Hfr. rw update_stats_mk. cbv zeta. rw markers_mk.
    rw resolved_0; [by apply stored_moved|]. split_and!.
    - apply tree_ok_mk; [by apply stored_moved|done|done|lia..].
    - rw height_mk. lia.
    - apply Forall2_app; [done|]. apply Forall2_cons. split; [by left|done]. }
  destruct (IHl Hl Hsl Hbl) as (? & ? & ?). destruct (IHr Hr Hsr Hbr) as (? & ? & ?).
  case_decide as Hps; [case_decide as Hrec|].
  - by apply Hfin.
  - apply Hfin; [done|by apply tree_ok_add_delta|done|by destruct r|done|].
    rw markers_add_delta markers_resolved. apply Forall2_fmap_r, Forall_Forall2_diag.
    apply Forall_forall. intros x Hx. left. rw !Forall_forall in Hxr Hbr.
    specialize (Hxr x Hx). unfold start_le in Hxr. apply moved_behind; [by apply Hbr|lia..].
  - apply Hfin; try done. apply Forall_Forall2_diag, Forall_forall. intros x Hx.
    specialize (Hlx x m Hx ltac:(by left)). unfold start_le in Hlx.
    rw Forall_forall in Hbl. destruct (Hbl x Hx) as [? _].
    destruct (decide (m_end x < pos)); [left; by rw moved_before; [|lia|]|right; split; [lia|done]].
Qed.

(** ** Order after an edit *)
Definition no_conflict (ms : list Marker) : Prop :=
  0 < delta -> forall a b, a ∈ ms -> b ∈ ms -> m_start a = pos -> m_start b = pos ->
  right_gravity a = right_gravity b.

Lemma adjusted_by_start m m' : adjusted_by pos delta m m' -> m_start m' = moved_start m pos delta.
Proof. intros [->|[? ->]]; [done|]. unfold moved_start. rw decide_True //. lia. Qed.

Lemma adjusted_by_id m m' : adjusted_by pos delta m m' -> m_id m' = m_id m.
Proof. by intros [->|[? ->]]. Qed.

Lemma adjusted_ids ms ms' :
  Forall2 (adjusted_by pos delta) ms ms' -> m_id <$> ms' = m_id <$> ms.
Proof.
  induction 1 as [|m m' ms ms' Hm _ IH]; [done|]. by rw !fmap_cons (adjusted_by_id _ _ Hm) IH.
Qed.

Lemma moved_start_mono a b :
  start_le a b -> (0 < delta -> m_start a = pos -> m_start b = pos -> right_gravity a = right_gravity b) ->
  moved_start a pos delta <= moved_start b pos delta.
Proof.
  unfold start_le, moved_start. intros Hle Hg. repeat case_decide; try lia.
  destruct (decide (0 < delta)); [|lia]. exfalso.
  match goal with H : ~ (_ /\ _), H' : _ = false /\ _ |- _ => apply H; destruct H' end.
  split; [by rw Hg; [lia..|]|lia].
Qed.

Lemma adjusted_sorted ms ms' :
  StronglySorted start_le ms -> no_conflict ms -> Forall2 (adjusted_by pos delta) ms ms' ->
  StronglySorted start_le ms'.
Proof.
  intros Hs Hc H. induction H as [|m m' ms ms' Hm H IH]; [done|].
  apply StronglySorted_cons in Hs as [Hms Hs]. apply StronglySorted_cons. split.
  - apply Forall_forall. intros x' Hx'. rw Forall_forall in Hms.
    apply list_elem_of_lookup in Hx' as [i Hi].
    destruct (Forall2_lookup_r _ _ _ _ _ H Hi) as (x & Hx & Hax).
    apply list_elem_of_lookup_2 in Hx. unfold start_le.
    rw (adjusted_by_start _ _ Hm) (adjusted_by_start _ _ Hax).
    apply moved_start_mono; [by apply Hms|]. intros. apply Hc; [done|by left|by right|done..].
  - apply IH; [done|]. intros ? a b Ha Hb. apply Hc; [done|by right..].
Qed.

Lemma adjust_root_inv t :
  it_inv t -> Forall bounded (contents t) -> no_conflict (contents t) ->
  it_inv (adjust_root t pos delta)
  /\ Forall2 (adjusted_by pos delta) (contents t) (contents (adjust_root t pos delta)).
Proof.
  intros [Hok Hs Hnd Hmap Hnext] Hb Hc.
  destruct (adjust_recursive_ok (it_root t) Hok Hs Hb) as (Hok' & _ & HF).
  fold (contents t) in HF. change (markers 0 (adjust_recursive _ _ _)) with (contents (adjust_root t pos delta)) in HF.
  assert (m_id <$> contents (adjust_root t pos delta) = m_id <$> contents t) as Hids.
  { by apply adjusted_ids. }
  split; [|done]. split; [done|exact (adjusted_sorted _ _ Hs Hc HF)|by rw Hids|by rw Hids|].
  rw -(Forall_fmap m_id (fun id => 0 <= id < next_id t)) in Hnext.
  rw -(Forall_fmap m_id (fun id => 0 <= id < next_id t)) Hids. done.
Qed.
End adjust.

(** ** Markers of opposite gravity at the position of an insertion *)
Definition to_starts_at (m : Marker) : StartsAt :=
  mkStartsAt (m_id m) (m_end m) (right_gravity m) (marker_type m) (order m).

Lemma collect_starts_at_ok t acc pos :
  StronglySorted start_le (markers acc t) ->
  exists ms, collect_starts_at t acc pos = to_starts_at <$> ms
    /\ ms ≡ₚ filter (fun m => m_start m = pos) (markers acc t).
Proof.
  revert acc. induction t as [|m h me sz d l IHl r IHr]; intros acc Hs; [by exists []|].
  simpl in Hs. pose proof Hs as (Hlx & Hsl & [Hxr Hsr]%StronglySorted_cons)%StronglySorted_app.
  cbn [collect_starts_at markers]. rw shift_start shift_end resolved_add.
  set (x := resolved m (acc + d)) in *. rw filter_app.
  destruct (IHl (add_i64 acc d)) as (ms1 & -> & H1); [by rw markers_add|].
  destruct (IHr (add_i64 acc d)) as (ms2 & -> & H2); [by rw markers_add|].
  rw markers_add in H1. rw markers_add in H2.
  destruct (Z.compare_spec pos (m_start x)) as [Heq|Hlt|Hgt].
  - exists (x :: ms1 ++ ms2). split; [by rw fmap_cons fmap_app|].
    rw filter_cons_True // H1 H2. apply Permutation_middle.
  - exists ms1. split; [done|]. rw H1 filter_cons_False; [lia|].
    rw (filter_none _ (markers (acc + d) r)) ?app_nil_r //.
    eapply Forall_impl; [exact Hxr|]. intros y Hy. unfold start_le in Hy. lia.
  - exists ms2. split; [done|]. rw H2 filter_cons_False; [lia|].
    rw (filter_none _ (markers (acc + d) l)) //. apply Forall_forall. intros y Hy.
    specialize (Hlx y x Hy ltac:(by left)). unfold start_le in Hlx. lia.
Qed.

Lemma delete_all_ok t ids :
  it_inv t ->
  exists t', delete_all t ids = Ok t' /\ it_inv t' /\ next_id t' = next_id t
    /\ contents t' = filter (fun m => m_id m ∉ ids) (contents t).
Proof.
  revert t. induction ids as [|id ids IH]; intros t Hinv; simpl.
  { exists t. split_and!; [done..|]. rw filter_all //. apply Forall_forall.
    intros x _. apply not_elem_of_nil. }
  destruct (it_delete_filter t id Hinv) as (t1 & -> & Hinv1 & Hc1 & Hn1). simpl.
  destruct (IH t1 Hinv1) as (t2 & -> & Hinv2 & Hn2 & Hc2). exists t2.
  split_and!; [done..|congruence|]. rw Hc2 Hc1 list_filter_filter. apply list_filter_iff.
  intros x. rw not_elem_of_cons. tauto.
Qed.

Definition reinserted (pos delta : Z) (s : StartsAt) : Marker :=
  mkMarker (sa_id s)
    (mkInterval pos (if decide (pos < sa_end s) then shift (sa_end s) delta else sa_end s))
    (sa_marker_type s) false (sa_order s).

Lemma reinsert_all_ok t pos delta ss :
  it_inv t -> NoDup (sa_id <$> ss) ->
  Forall (fun s => (sa_id s ∉ m_id <$> contents t) /\ 0 <= sa_id s < next_id t
                   /\ stored (reinserted pos delta s)) ss ->
  exists t', reinsert_all t pos delta ss = Ok t' /\ it_inv t'
    /\ contents t' ≡ₚ contents t ++ (reinserted pos delta <$> ss).
Proof.
  revert t. induction ss as [|s ss IH]; intros t Hinv Hnd Hss; simpl.
  { exists t. by rw app_nil_r. }
  rw fmap_cons in Hnd. apply NoDup_cons in Hnd as [Hs Hnd].
  apply Forall_cons in Hss as [(Hfr & Hid & Hst) Hss].
  destruct (insert_marker_ok t (reinserted pos delta s) Hinv Hst Hfr) as (root & l1 & l2 & Hins & H1 & H2 & Hi).
  unfold insert_with_id. rw decide_False.
  { intros [?|?%inv_map]; [lia|done|done]. }
  fold (reinserted pos delta s). rw Hins. simpl.
  specialize (Hi (next_id t) ltac:(lia) Hid). simpl in Hi.
  set (t1 := mkIntervalTree root _ _) in *.
  assert (contents t1 ≡ₚ reinserted pos delta s :: contents t) as Hp.
  { unfold contents. simpl. rw H2 -/(contents t) H1. by rw Permutation_middle. }
  destruct (IH t1 Hi Hnd) as (t' & -> & Hinv' & Hp').
  { rw Forall_forall in Hss. apply Forall_forall. intros s' Hs'. destruct (Hss s' Hs') as (Hf & ? & ?).
    split; [|done]. rw Hp fmap_cons. apply not_elem_of_cons. split; [|done].
    intros Heq. apply Hs. simpl in Heq. rw -Heq. by apply list_elem_of_fmap_2. }
  exists t'. split_and!; [done..|]. rw Hp' Hp. simpl. apply Permutation_middle.
Qed.

Definition stayer (pos : Z) (m : Marker) : Prop := m_start m = pos /\ right_gravity m = false.
#[export] Instance stayer_dec pos m : Decision (stayer pos m) := and_dec _ _.

Lemma reinserted_moved pos delta m :
  0 <= pos -> 0 < delta -> edit_bounded pos delta m -> stayer pos m ->
  reinserted pos delta (to_starts_at m) = moved pos delta m.
Proof.
  intros ? ? [? ?] [<- Hg]. unfold reinserted, moved, set_interval, moved_start, moved_end. simpl.
  rw Hg. f_equal. f_equal.
  - rw decide_False; [lia|]. rw decide_False; [lia|]. by rw decide_True.
  - unfold moved_start. case_decide.
    + rw decide_False; [intros [?|(? & ? & ?)]; lia|]. rw shift_small; [lia|].
      rw decide_False; [lia|]. rw decide_False; [lia|]. rw decide_True //. lia.
    + rw decide_True //. right. split_and!; [done..|lia].
Qed.

Lemma filter_ext_in {A} (P Q : A -> Prop) `{forall x, Decision (P x), forall x, Decision (Q x)} l :
  Forall (fun x => P x <-> Q x) l -> filter P l = filter Q l.
Proof.
  induction 1 as [|x l Hx _ IH]; [done|]. destruct (decide (P x)).
  - rw !filter_cons_True ?IH //. tauto.
  - rw !filter_cons_False ?IH //. tauto.
Qed.

(** The test for a conflict, and the markers it takes out. *)
Lemma conflict_test ms :
  existsb sa_right_gravity (to_starts_at <$> ms)
  && negb (bool_decide (List.filter (fun m => negb (sa_right_gravity m)) (to_starts_at <$> ms) = []))
  = false ->
  forall a b, a ∈ ms -> b ∈ ms -> right_gravity a = right_gravity b.
Proof.
  intros [H|H]%andb_false_iff a b Ha Hb.
  - assert (forall x, x ∈ ms -> right_gravity x = false) as Hall; [|by rw !Hall].
    intros x Hx. apply not_true_is_false. intros Hg. apply not_true_iff_false in H. apply H.
    apply existsb_exists. exists (to_starts_at x). split; [|done].
    by apply list_elem_of_In, list_elem_of_fmap_2.
  - apply negb_false_iff, bool_decide_eq_true in H.
    assert (forall x, x ∈ ms -> right_gravity x = true) as Hall; [|by rw !Hall].
    intros x Hx. apply not_false_is_true. intros Hg.
    assert (to_starts_at x ∈ List.filter (fun m => negb (sa_right_gravity m)) (to_starts_at <$> ms)) as Hin.
    { apply list_elem_of_In, filter_In. split; [by apply list_elem_of_In, list_elem_of_fmap_2|].
      simpl. by rw Hg. }
    rw H in Hin. by apply not_elem_of_nil in Hin.
Qed.

Lemma stayers_eq ms :
  List.filter (fun m => negb (sa_right_gravity m)) (to_starts_at <$> ms)
  = to_starts_at <$> filter (fun m => right_gravity m = false) ms.
Proof.
  induction ms as [|m ms IH]; [done|]. rw fmap_cons. cbn [List.filter]. rw IH. simpl.
  destruct (right_gravity m) eqn:Hg; simpl.
  - by rw filter_cons_False; [by rw Hg|].
  - by rw filter_cons_True.
Qed.

(** Taking the stayers out, moving the rest and putting the stayers back. *)
Lemma adjust_with_stayers t pos delta ms :
  it_inv t -> 0 <= pos < 2 ^ 63 -> 0 < delta < 2 ^ 63 ->
  Forall (edit_bounded pos delta) (contents t) -> ms ≡ₚ filter (stayer pos) (contents t) ->
  exists t1 t2, delete_all t (sa_id <$> (to_starts_at <$> ms)) = Ok t1
    /\ reinsert_all (adjust_root t1 pos delta) pos delta (to_starts_at <$> ms) = Ok t2
    /\ it_inv t2 /\ exists rest, contents t ≡ₚ rest ++ ms
    /\ exists rest', contents t2 ≡ₚ rest' ++ (moved pos delta <$> ms)
        /\ Forall2 (adjusted_by pos delta) rest rest'.
Proof.
  intros Hinv Hpos Hdelta Hb Hms. rw -list_fmap_compose.
  change (sa_id ∘ to_starts_at) with m_id.
  assert (forall x, x ∈ ms <-> x ∈ contents t /\ stayer pos x) as Hin.
  { intros x. rw Hms list_elem_of_filter. tauto. }
  destruct (delete_all_ok t (m_id <$> ms) Hinv) as (t1 & -> & Hinv1 & Hn1 & Hc1).
  assert (contents t1 = filter (fun m => ~ stayer pos m) (contents t)) as Hc1'.
  { rw Hc1. apply filter_ext_in, Forall_forall. intros x Hx. apply not_iff_compat.
    rw list_elem_of_fmap. split.
    - intros (y & Heq & Hy). destruct (proj1 (Hin y) Hy) as [Hyc ?].
      by rw (NoDup_fmap_unique m_id _ _ _ (inv_nodup _ Hinv) Hx Hyc Heq).
    - intros Hst. exists x. split; [done|]. by apply Hin. }
  assert (contents t ≡ₚ contents t1 ++ ms) as Hsplit.
  { rw Hc1' Hms Permutation_app_comm. symmetry. apply filter_app_complement. }
  rw Hsplit Forall_app in Hb. destruct Hb as [Hb1 Hbm].
  destruct (adjust_root_inv pos delta Hpos ltac:(lia) t1 Hinv1 Hb1) as [Hinv2 HF].
  { intros _ a b Ha Hb' Hsa Hsb. rw Hc1' in Ha Hb'. apply list_elem_of_filter in Ha as [Ha _].
    apply list_elem_of_filter in Hb' as [Hb' _]. unfold stayer in Ha, Hb'.
    destruct (right_gravity a), (right_gravity b); try done; exfalso; tauto. }
  assert (NoDup (m_id <$> contents t1 ++ ms)) as Hnd.
  { rw -Hsplit. apply (inv_nodup _ Hinv). }
  rw fmap_app in Hnd. apply NoDup_app in Hnd as (_ & Hdisj & Hnd).
  pose proof (inv_next _ Hinv) as Hnext. rw Hsplit Forall_app in Hnext. destruct Hnext as [_ Hnext].
  rw !Forall_forall in Hbm Hnext.
  assert (reinserted pos delta <$> (to_starts_at <$> ms) = moved pos delta <$> ms) as Hre.
  { rw -list_fmap_compose. apply list_fmap_ext. intros i x Hx%list_elem_of_lookup_2. simpl.
    apply reinserted_moved; [lia..|by apply Hbm|by apply Hin]. }
  destruct (reinsert_all_ok (adjust_root t1 pos delta) pos delta (to_starts_at <$> ms))
    as (t2 & Ht2 & Hinv3 & Hc3); [done|by rw -list_fmap_compose| |].
  { apply Forall_fmap, Forall_forall. intros x Hx. simpl. rw (adjusted_ids pos delta _ _ HF).
    split; [|split].
    - intros Hx1. eapply Hdisj; [exact Hx1|]. by apply list_elem_of_fmap_2.
    - rw Hn1. by apply Hnext.
    - rw reinserted_moved; [lia..|by apply Hbm|by apply Hin|]. apply stored_moved; [lia..|by apply Hbm]. }
  exists t1, t2. split_and!; [done..|]. exists (contents t1). split; [done|].
  exists (contents (adjust_root t1 pos delta)). by rw Hc3 Hre.
Qed.

(** The contents of the tree after an edit, as a rearrangement of the adjusted
    markers. *)
Lemma adjust_for_edit_ok t pos delta :
  it_inv t -> 0 <= pos < 2 ^ 63 -> - 2 ^ 63 <= delta < 2 ^ 63 ->
  Forall (edit_bounded pos delta) (contents t) ->
  exists t' ms ms', adjust_for_edit t pos delta = Ok t' /\ it_inv t'
    /\ ms ≡ₚ contents t /\ ms' ≡ₚ contents t' /\ Forall2 (adjusted_by pos delta) ms ms'.
Proof.
  intros Hinv Hpos Hdelta Hb. unfold adjust_for_edit.
  assert (no_conflict pos delta (contents t) ->
    exists t' ms ms', Ok (adjust_root t pos delta) = Ok t' /\ it_inv t'
    /\ ms ≡ₚ contents t /\ ms' ≡ₚ contents t' /\ Forall2 (adjusted_by pos delta) ms ms') as Hplain.
  { intros Hc. destruct (adjust_root_inv pos delta Hpos Hdelta t Hinv Hb Hc).
    by eexists _, _, _. }
  case_decide as Hd; [|apply Hplain; intros ?; lia].
  destruct (collect_starts_at_ok (it_root t) 0 pos (inv_sorted _ Hinv)) as (ms & -> & Hms).
  fold (contents t) in Hms.
  destruct (existsb sa_right_gravity (to_starts_at <$> ms) && _) eqn:Hcond.
  - rw stayers_eq.
    destruct (adjust_with_stayers t pos delta (filter (fun m => right_gravity m = false) ms))
      as (t1 & t2 & -> & Ht2 & Hinv2 & rest & Hr & rest' & Hr' & HF); [done|done|lia|done| |].
    { rw Hms list_filter_filter. apply reflexive_eq, list_filter_iff. intros x. unfold stayer. tauto. }
    simpl. eexists t2, _, _. split_and!; [done|done|symmetry; exact Hr|symmetry; exact Hr'|].
    apply Forall2_app; [done|]. apply Forall2_fmap_r, Forall_Forall2_diag, Forall_forall.
    intros x _. by left.
  - apply Hplain. intros _ a b Ha Hb' Hsa Hsb.
    eapply conflict_test; [exact Hcond|..]; rw Hms list_elem_of_filter; done.
Qed.

(** ** Properties *)

(** An edit never panics, keeps the invariant and the set of markers, and
    every marker ends up where the edit takes its position: shifted when it is
    behind the edit, at the edit when the text around it is deleted, according to
    its gravity when text is inserted exactly there.  The one exception is the end
    of an interval that spans the edit, which may be left as it was. *)
Theorem adjust_for_edit_moves t pos delta :
  it_inv t -> 0 <= pos < 2 ^ 63 -> - 2 ^ 63 <= delta < 2 ^ 63 ->
  Forall (edit_bounded pos delta) (contents t) ->
  exists t', adjust_for_edit t pos delta = Ok t' /\ it_inv t'
    /\ it_len t' = it_len t
    /\ (forall m, m ∈ contents t -> exists m', adjusted_by pos delta m m'
         /\ get_position t' (m_id m) = Some (m_start m', m_end m')).
Proof.
  intros Hinv Hpos Hdelta Hb.
  destruct (adjust_for_edit_ok t pos delta Hinv Hpos Hdelta Hb) as (t' & ms & ms' & -> & Hinv' & Hms & Hms' & HF).
  exists t'. split_and!; [done|done| |].
  - unfold it_len. rw (t_size_markers 0 (it_root t)); [apply Hinv|]. rw (t_size_markers 0); [apply Hinv'|].
    fold (contents t) (contents t'). rw -Hms -Hms'. symmetry. exact (Forall2_length _ _ _ HF).
  - intros m Hm. rw -Hms in Hm. apply list_elem_of_lookup in Hm as [i Hi].
    destruct (Forall2_lookup_l _ _ _ _ _ HF Hi) as (m' & Hi' & Ha). exists m'. split; [done|].
    rw -(adjusted_by_id pos delta m m' Ha). apply get_position_ok; [done|].
    rw -Hms'. by apply (list_elem_of_lookup_2 _ i).
Qed.

Lemma adjust_for_edit_moves_witness :
  exists t', adjust_for_edit demo_markers 10 5 = Ok t' /\ it_inv t'
    /\ it_len t' = it_len demo_markers
    /\ (forall m, m ∈ contents demo_markers -> exists m', adjusted_by 10 5 m m'
         /\ get_position t' (m_id m) = Some (m_start m', m_end m')).
Proof.
  apply (adjust_for_edit_moves demo_markers 10 5); [|done|done|].
  - apply it_inv_b_sound. vm_compute. reflexivity.
  - unfold edit_bounded. apply (bool_decide_unpack _). vm_compute. exact I.
Defined.

(** The exception is real: an insertion at 20 leaves the end of the interval
    [2, 50] where it was, because a marker to its right starts before 20 and only
    right subtrees are searched from there; the batched path moves the same end
    to 55. *)
Theorem spanning_end_not_moved :
  let t := match insert_each it_new [(10, 10); (2, 50); (30, 30)] with
           | Ok (t, _) => t | Panic => it_new end in
  it_inv t
  /\ (t' ← adjust_for_edit t 20 5; Ok (get_position t' 1)) = Ok (Some (2, 50))
  /\ (t' ← adjust_for_bulk_edits t [(20, 5)]; Ok (get_position t' 1)) = Ok (Some (2, 55)).
Proof.
  cbv zeta. split_and!; [apply it_inv_b_sound|..]; vm_compute; reflexivity.
Qed.
