(* ===== verification/MarkerTreeQuery.v ===== *)
(** * Marker tree: range queries, balanced builds and batches

    [query] prunes left subtrees by their stored maximal end.  It finds every
    overlapping marker when these ends are up to date, as they are in a tree that
    was just built; after an insertion of text they may be too small. *)
From stdpp Require Import base numbers list option sorting gmap.
From Stdlib Require Import ssreflect.
From Equations Require Import Equations.
From S2P Require Import Prelude MarkerTree MarkerTreeInv MarkerTreeOps MarkerTreeEdit.

#[local] Open Scope Z_scope.

(** ** Queries *)
Definition overlapping (query_start query_end : Z) (m : Marker) : Prop :=
  m_start m <= query_end /\ query_start <= m_end m.
#[export] Instance overlapping_dec s e m : Decision (overlapping s e m) := and_dec _ _.

(** Every stored maximal end is an upper bound of the current ends below it. *)
Fixpoint ends_ok (acc : Z) (t : Tree) : Prop :=
  match t with
  | Nil => True
  | Node _ _ me _ d l r =>
      Forall (fun m => m_end m <= me) (markers acc t) /\ ends_ok (acc + d) l /\ ends_ok (acc + d) r
  end.

#[export] Instance ends_ok_dec acc t : Decision (ends_ok acc t).
Proof. revert acc. induction t as [|m h me sz d l IHl r IHr]; intros acc; cbn [ends_ok]; apply _. Defined.

Lemma query_recursive_eq t query_start query_end :
  query_recursive t query_start query_end =
  match push_delta t with
  | Nil => (Nil, [])
  | Node m h me sz d l r =>
      let here := if decide (m_start m <= query_end /\ query_start <= m_end m)
                  then [m] else [] in
      let '(l', found_l) :=
        (match l with
         | Nil => (l, [])
         | Node _ _ max_end _ _ _ _ =>
             if decide (query_start <= max_end)
             then query_recursive l query_start query_end else (l, [])
         end) in
      let '(r', found_r) :=
        (match r with
         | Nil => (r, [])
         | Node _ _ _ _ _ _ _ =>
             if decide (m_start m <= query_end)
             then query_recursive r query_start query_end else (r, [])
         end) in
      (Node m h me sz d l' r', here ++ found_l ++ found_r)
  end.
Proof. unfold_pushing query_recursive_equation_1 query_recursive_unfold_clause_1. Qed.

Lemma ends_ok_mod a b t : a mod 2 ^ 64 = b mod 2 ^ 64 -> ends_ok a t -> ends_ok b t.
Proof.
  revert a b. induction t as [|m h me sz d l IHl r IHr]; intros a b H; [done|].
  assert ((a + d) mod 2 ^ 64 = (b + d) mod 2 ^ 64) as H'.
  { rw -(Zplus_mod_idemp_l a) H Zplus_mod_idemp_l //. }
  cbn [ends_ok]. rw (markers_mod a b) //. intros (? & ? & ?). split_and!; [done|by apply (IHl _ _ H')|by apply (IHr _ _ H')].
Qed.

Lemma ends_ok_pushed acc d t : ends_ok (acc + d) t -> ends_ok acc (pushed_child d t).
Proof.
  unfold pushed_child. case_decide as Hd; [subst; by rw Z.add_0_r|].
  destruct t as [|m h me sz ld l r]; [done|]. intros (Hf & Hl & Hr).
  assert ((acc + d + ld) mod 2 ^ 64 = (acc + add_i64 ld d) mod 2 ^ 64) as H.
  { rw -(Zplus_mod_idemp_r (add_i64 ld d)) add_i64_mod Zplus_mod_idemp_r. f_equal. lia. }
  cbn [add_delta ends_ok]. split_and!; [|by apply (ends_ok_mod _ _ _ H)..].
  pose proof (markers_add_delta acc d (Node m h me sz ld l r)) as Hm. cbn [add_delta] in Hm. by rw Hm.
Qed.

Lemma push_delta_ends t m h me sz d l r :
  push_delta t = Node m h me sz d l r -> ends_ok 0 t ->
  ends_ok 0 l /\ ends_ok 0 r
  /\ Forall (fun x => m_end x <= t_max_end l) (markers 0 l).
Proof.
  intros Hp He. destruct t as [|m0 h0 me0 sz0 d0 l0 r0]; [done|].
  destruct (push_delta_eq m0 h0 me0 sz0 d0 l0 r0) as [me' Heq]. rw Heq in Hp.
  injection Hp as <- <- <- <- <- <- <-. destruct He as (_ & Hl & Hr).
  assert (ends_ok 0 (pushed_child d0 l0)) as Hl' by by apply ends_ok_pushed.
  split_and!; [done|by apply ends_ok_pushed|].
  by destruct (pushed_child d0 l0) as [|m1 h1 me1 sz1 d1 l1 r1]; [|destruct Hl' as (? & _)].
Qed.

(** What a visit of a subtree gives: the same tree with deltas pushed, only
    overlapping markers, and all of them under the condition [C]. *)
Definition visited (C : Prop) (qs qe : Z) (t : Tree) (res : Tree * list Marker) : Prop :=
  tree_ok res.1 /\ t_height res.1 = t_height t /\ markers 0 res.1 = markers 0 t
  /\ res.2 ⊆+ filter (overlapping qs qe) (markers 0 t)
  /\ (C -> res.2 ≡ₚ filter (overlapping qs qe) (markers 0 t)).

Lemma visited_pruned (C : Prop) qs qe t :
  tree_ok t -> (C -> Forall (fun m => ~ overlapping qs qe m) (markers 0 t)) ->
  visited C qs qe t (t, []).
Proof.
  intros Hok Hno. unfold visited. split_and!; [done..|apply submseteq_nil_l|].
  intros HC. by rw filter_none; [apply Hno|].
Qed.

Lemma visited_weaken (C C' : Prop) qs qe t res :
  (C' -> C) -> visited C qs qe t res -> visited C' qs qe t res.
Proof. intros HC (? & ? & ? & ? & ?). unfold visited. split_and!; auto. Qed.

Lemma push_delta_size t m h me sz d l r :
  push_delta t = Node m h me sz d l r -> tree_ok t -> sz = S (t_size l + t_size r).
Proof.
  intros Hp Hok. destruct t as [|m0 h0 me0 sz0 d0 l0 r0]; [done|].
  destruct (push_delta_eq m0 h0 me0 sz0 d0 l0 r0) as [me' Heq]. rw Heq in Hp.
  injection Hp as <- <- <- <- <- <- <-. rw !size_pushed. apply Hok.
Qed.

(** A node from the visits of its children. *)
Lemma visited_node (C : Prop) qs qe t m h me sz l r l' r' fl fr :
  markers 0 t = markers 0 l ++ m :: markers 0 r -> stored m -> tree_ok l -> tree_ok r ->
  h = S (Nat.max (t_height l) (t_height r)) -> t_height t = h -> sz = S (t_size l + t_size r) ->
  (t_height l <= S (t_height r))%nat -> (t_height r <= S (t_height l))%nat ->
  visited C qs qe l (l', fl) -> visited C qs qe r (r', fr) ->
  visited C qs qe t
    (Node m h me sz 0 l' r',
     (if decide (m_start m <= qe /\ qs <= m_end m) then [m] else []) ++ fl ++ fr).
Proof.
  intros Hmk Hm Hl Hr Hh Hht Hsz Hb1 Hb2 (? & Hhl & Hml & Hfl & HCl) (? & Hhr & Hmr & Hfr & HCr).
  simpl in *. assert (filter (overlapping qs qe) (markers 0 t)
    ≡ₚ (if decide (m_start m <= qe /\ qs <= m_end m) then [m] else [])
       ++ filter (overlapping qs qe) (markers 0 l) ++ filter (overlapping qs qe) (markers 0 r)) as Hf.
  { rw Hmk filter_app filter_cons. unfold overlapping at 2. case_decide; [|done].
    simpl. by rw Permutation_middle. }
  unfold visited. cbn [fst snd]. rw Hf. split_and!.
  - cbn [tree_ok]. rw Hhl Hhr (t_size_markers 0 l') // (t_size_markers 0 r') // Hml Hmr.
    rw -!t_size_markers //.
  - done.
  - simpl. rw resolved_0 // Hml Hmr Hmk //.
  - apply submseteq_app; [done|]. by apply submseteq_app.
  - intros HC. by rw HCl // HCr.
Qed.

Lemma query_recursive_ok t qs qe :
  tree_ok t ->
  visited (StronglySorted start_le (markers 0 t) /\ ends_ok 0 t) qs qe t (query_recursive t qs qe).
Proof.
  induction t as [t Hp|t m h me sz d l r Hp IHl IHr] using pushing_ind; intros Hok;
    rw query_recursive_eq Hp.
  { apply push_delta_Nil in Hp as ->. by repeat split. }
  destruct (push_delta_ok _ _ _ _ _ _ _ _ Hp Hok)
    as (-> & Hm & Hl & Hr & Hht & Hh & Hb1 & Hb2 & _ & _ & Hmk).
  set (C := StronglySorted start_le (markers 0 t) /\ ends_ok 0 t).
  assert (C -> (StronglySorted start_le (markers 0 l) /\ ends_ok 0 l)
    /\ (StronglySorted start_le (markers 0 r) /\ ends_ok 0 r)
    /\ Forall (fun x => m_end x <= t_max_end l) (markers 0 l)
    /\ Forall (start_le m) (markers 0 r)) as HC.
  { intros [Hs He]. destruct (push_delta_ends _ _ _ _ _ _ _ _ Hp He) as (? & ? & ?). rw Hmk in Hs.
    by apply StronglySorted_app in Hs as (_ & ? & [? ?]%StronglySorted_cons). }
  cbv zeta.
  match goal with |- visited _ _ _ _ (let '(_, _) := ?L in _) => assert (visited C qs qe l L) as HL end.
  { destruct l as [|lm lh lme lsz ld ll lr] eqn:El; [by repeat split|]. rw -El in IHl Hl HC |- *.
    case_decide.
    - eapply visited_weaken; [|by apply IHl]. intros HCC. apply (HC HCC).
    - apply visited_pruned; [done|]. intros (_ & _ & Hf & _)%HC. rw El in Hf |- *. simpl in Hf.
      eapply Forall_impl; [exact Hf|]. intros x Hx [_ ?]. simpl in Hx. lia. }
  match goal with |- visited _ _ _ _ (let '(_, _) := ?L in _) => destruct L as [l' fl] end.
  match goal with |- visited _ _ _ _ (let '(_, _) := ?R in _) => assert (visited C qs qe r R) as HR end.
  { destruct r as [|rm rh rme rsz rd rl rr] eqn:Er; [by repeat split|]. rw -Er in IHr Hr HC |- *.
    case_decide.
    - eapply visited_weaken; [|by apply IHr]. intros HCC. apply (HC HCC).
    - apply visited_pruned; [done|]. intros (_ & _ & _ & Hf)%HC.
      eapply Forall_impl; [exact Hf|]. intros x Hx [? _]. unfold start_le in Hx. lia. }
  match goal with |- visited _ _ _ _ (let '(_, _) := ?R in _) => destruct R as [r' fr] end.
  apply (visited_node C qs qe t m h me sz l r); try done; [by apply (push_delta_size _ _ _ _ _ _ _ _ Hp)].
Qed.

(** ** Balanced builds *)
Definition built_height (n : nat) : nat := match n with 0%nat => 0%nat | _ => S (Nat.log2 n) end.

Lemma built_height_step n :
  (0 < n)%nat ->
  built_height n = S (built_height (n / 2))
  /\ (built_height (n - (n / 2 + 1)) <= built_height (n / 2))%nat
  /\ (built_height (n / 2) <= S (built_height (n - (n / 2 + 1))))%nat.
Proof.
  intros Hn. pose proof (Nat.div_mod_eq n 2). pose proof (Nat.mod_upper_bound n 2).
  set (a := (n / 2)%nat) in *. set (b := (n - (a + 1))%nat).
  assert (b = a \/ S b = a) as Hb by lia. split_and!.
  - destruct n as [|n]; [lia|]. unfold built_height at 1. f_equal.
    destruct a as [|a'] eqn:Ea; [by replace (S n) with 1%nat by lia|].
    unfold built_height. replace (S n) with (2 * S a' + S n mod 2)%nat by lia.
    assert (S n mod 2 = 0 \/ S n mod 2 = 1)%nat as [->| ->] by lia.
    + rw Nat.add_0_r Nat.log2_double //. lia.
    + rw Nat.log2_succ_double //. lia.
  - destruct Hb as [->|Hb]; [done|]. destruct b as [|b']; [simpl; lia|]. rw -Hb.
    unfold built_height. pose proof (Nat.log2_le_mono (S b') (S (S b'))). lia.
  - destruct Hb as [->|Hb]; [lia|]. rw -Hb. destruct b as [|b']; [done|].
    unfold built_height. pose proof (Nat.log2_succ_le (S b')). lia.
Qed.

Lemma build_from_sorted_ok ms :
  Forall stored ms ->
  let t := build_from_sorted ms in
  tree_ok t /\ t_height t = built_height (length ms) /\ markers 0 t = ms /\ ends_ok 0 t.
Proof.
  funelim (build_from_sorted ms); [done|]. intros Hst. cbv zeta in *. simp build_from_sorted. cbv zeta.
  set (all := m :: ms) in *. set (mid := (length all / 2)%nat) in *.
  assert (mid < length all)%nat as Hmid by (apply Nat.div_lt; simpl; lia).
  destruct (lookup_lt_is_Some_2 all mid Hmid) as [x Hx]. rw Hx. cbn [default from_option id].
  pose proof (take_drop_middle _ _ _ Hx) as Hall. rw -Hall in Hst.
  apply Forall_app in Hst as [Hst1 [Hstx Hst2]%Forall_cons].
  rw Nat.add_1_r in H0 |- *.
  destruct (H Hst1) as (Hl & Hhl & Hml & Hel). destruct (H0 Hst2) as (Hr & Hhr & Hmr & Her).
  rw length_take Nat.min_l in Hhl; [lia|]. rw length_drop in Hhr.
  destruct (built_height_step (length all)) as (Hst & ? & ?); [simpl; lia|].
  fold mid in Hst, H1, H2. replace (length all - S mid)%nat with (length all - (mid + 1))%nat in Hhr by lia.
  rw update_stats_mk. split_and!.
  - apply tree_ok_mk; [done..|lia|lia].
  - rw height_mk. lia.
  - by rw markers_mk resolved_0 // Hml Hmr.
  - cbn [mk update_stats ends_ok]. rw !Z.add_0_r. split; [|done]. fold (mk x (build_from_sorted (take mid all)) (build_from_sorted (drop (S mid) all))).
    rw markers_mk resolved_0 //.
    assert (forall t, ends_ok 0 t -> Forall (fun y => m_end y <= t_max_end t) (markers 0 t)) as Hmax.
    { intros [|? ? ? ? ? ? ?]; [done|]. by intros [? _]. }
    apply Forall_app. split; [|apply Forall_cons_2; [lia|]].
    + eapply Forall_impl; [apply Hmax, Hel|]. simpl. intros; lia.
    + eapply Forall_impl; [apply Hmax, Her|]. simpl. intros; lia.
Qed.

Lemma collect_nodes_in_order_ok t : tree_ok t -> collect_nodes_in_order t = markers 0 t.
Proof.
  induction t as [t Hp|t m h me sz d l r Hp IHl IHr] using pushing_ind; intros Hok;
    rw collect_nodes_in_order_eq Hp.
  { by apply push_delta_Nil in Hp as ->. }
  destruct (push_delta_ok _ _ _ _ _ _ _ _ Hp Hok)
    as (-> & Hm & Hl & Hr & _ & _ & _ & _ & _ & _ & Hmk).
  by rw Hmk IHl // IHr.
Qed.

Lemma tree_ok_stored t acc : Forall stored (markers acc t).
Proof.
  revert acc. induction t as [|m h me sz d l IHl r IHr]; intros acc; [done|]. simpl.
  apply Forall_app. split; [done|]. apply Forall_cons_2; [apply stored_resolved|done].
Qed.

#[export] Instance key_le_trans : Transitive key_le.
Proof. intros a b c. unfold key_le, key_lt, key. simpl. lia. Qed.
#[export] Instance key_le_total : Total key_le.
Proof. intros a b. unfold key_le, key_lt, key. simpl. lia. Qed.

Lemma key_sorted_start ms : StronglySorted key_le ms -> StronglySorted start_le ms.
Proof.
  induction 1 as [|m ms _ IH Hm]; [constructor|]. constructor; [done|].
  eapply Forall_impl; [exact Hm|]. intros x Hx. unfold key_le, key_lt, key in Hx. simpl in Hx.
  unfold start_le. lia.
Qed.

(** Rebuilding the tree from a list of markers. *)
Lemma rebuild_inv ms next ids :
  Forall stored ms -> NoDup (m_id <$> ms) -> Forall (fun m => 0 <= m_id m < next) ms ->
  (forall id, id ∈ ids <-> id ∈ m_id <$> ms) ->
  let t := mkIntervalTree (build_from_sorted (merge_sort key_le ms)) next ids in
  it_inv t /\ contents t ≡ₚ ms /\ StronglySorted key_le (contents t) /\ ends_ok 0 (it_root t).
Proof.
  intros Hst Hnd Hid Hids. cbv zeta.
  destruct (build_from_sorted_ok (merge_sort key_le ms)) as (Hok & _ & Hm & He).
  { by rw merge_sort_Permutation. }
  assert (StronglySorted key_le (merge_sort key_le ms)) as Hs.
  { apply Sorted_StronglySorted, Sorted_merge_sort; apply _. }
  split_and!; [|by unfold contents; simpl; rw Hm merge_sort_Permutation|by unfold contents; simpl; rw Hm|done].
  split; unfold contents; simpl; rw ?Hm; [done|by apply key_sorted_start| | |];
    rw ?merge_sort_Permutation //.
  intros id. by rw merge_sort_Permutation.
Qed.

(** ** Batches of insertions *)
Lemma batch_markers_ok next ivs :
  0 <= next -> next + Z.of_nat (length ivs) < 2 ^ 64 ->
  Forall (fun iv => 0 <= iv.1 < 2 ^ 64 /\ 0 <= iv.2 < 2 ^ 64) ivs ->
  let '(new, last) := batch_markers next ivs in
  last = next + Z.of_nat (length ivs) /\ NoDup (m_id <$> new) /\ Forall stored new
  /\ Forall (fun m => next <= m_id m < last) new /\ interval <$> new = (fun iv => mkInterval iv.1 iv.2) <$> ivs.
Proof.
  revert next. induction ivs as [|[s e] ivs IH]; intros next H0 Hn Hiv; simpl.
  { split_and!; [lia|constructor|done..]. }
  apply Forall_cons in Hiv as [[? ?] Hiv]. simpl length in Hn. rw to_u64_small; [lia|].
  specialize (IH (next + 1)). destruct (batch_markers (next + 1) ivs) as [new last].
  destruct IH as (-> & Hnd & Hst & Hid & Hint); [lia|lia|done|]. split_and!; [lia|..].
  - rw fmap_cons. apply NoDup_cons. split; [|done]. intros (m & Hm & Hin)%list_elem_of_fmap.
    rw Forall_forall in Hid. specialize (Hid m Hin). simpl in Hm. lia.
  - by apply Forall_cons_2.
  - apply Forall_cons_2; [simpl; lia|]. eapply Forall_impl; [exact Hid|]. simpl. lia.
  - by rw !fmap_cons Hint.
Qed.

Lemma insert_each_ok t ivs :
  it_inv t -> 0 <= next_id t -> next_id t + Z.of_nat (length ivs) < 2 ^ 64 ->
  Forall (fun iv => 0 <= iv.1 < 2 ^ 64 /\ 0 <= iv.2 < 2 ^ 64) ivs ->
  let new := (batch_markers (next_id t) ivs).1 in
  exists t', insert_each t ivs = Ok (t', m_id <$> new) /\ it_inv t' /\ contents t' ≡ₚ contents t ++ new.
Proof.
  revert t. induction ivs as [|[s e] ivs IH]; intros t Hinv H0 Hn Hiv; simpl.
  { exists t. by rw app_nil_r. }
  apply Forall_cons in Hiv as [[? ?] Hiv]. simpl length in Hn. simpl in *.
  set (m := mkMarker (next_id t) (mkInterval s e) Position true 0).
  assert (m_id m ∉ m_id <$> contents t) as Hfr.
  { intros (x & Hx & Hin)%list_elem_of_fmap. pose proof (inv_next _ Hinv) as Hnx.
    rw Forall_forall in Hnx. specialize (Hnx _ Hin). simpl in Hx. lia. }
  destruct (insert_marker_ok t m Hinv) as (root & l1 & l2 & Hins & Hl & Hr & Hi); [by split|done|].
  unfold it_insert, insert_with_type, insert_full. fold m. rw Hins. cbn [mbind res_bind].
  rw to_u64_small; [lia|]. specialize (Hi (next_id t + 1) ltac:(lia) ltac:(simpl; lia)).
  set (t1 := mkIntervalTree root _ _) in *.
  destruct (IH t1) as (t2 & Ht2 & Hinv2 & Hc2); [done|simpl; lia|simpl; lia|done|].
  change (m_id m) with (next_id t) in t1. fold t1. rw Ht2. simpl.
  change (next_id t1) with (next_id t + 1) in Hc2 |- *.
  destruct (batch_markers (next_id t + 1) ivs) as [new last]. simpl in *.
  exists t2. split_and!; [done..|]. rw Hc2. unfold contents at 1, t1. simpl. rw Hr Hl.
  rw -!app_assoc. apply Permutation_app_head, Permutation_middle.
Qed.

(** ** Properties *)

(** A query changes no marker and returns only markers that overlap the
    range, each once; it returns all of them when the stored maximal ends are
    upper bounds. *)
Theorem query_overlaps t query_start query_end :
  it_inv t ->
  let '(t', found) := query t query_start query_end in
  it_inv t' /\ contents t' = contents t
  /\ found ⊆+ filter (overlapping query_start query_end) (contents t)
  /\ (ends_ok 0 (it_root t) -> found ≡ₚ filter (overlapping query_start query_end) (contents t)).
Proof.
  intros [Hok Hs Hnd Hmap Hnx]. unfold query.
  pose proof (query_recursive_ok (it_root t) query_start query_end Hok) as Hv.
  destruct (query_recursive (it_root t) query_start query_end) as [root found].
  destruct Hv as (Hok' & _ & Hm & Hsub & Hall). simpl in *. fold (contents t) in Hm, Hsub, Hall.
  split_and!; [|done|done|]; [|intros He; by apply Hall].
  split; unfold contents; simpl; rw ?Hm //.
Qed.

Lemma query_overlaps_witness :
  (query demo_markers 18 60).2 ≡ₚ filter (overlapping 18 60) (contents demo_markers).
Proof.
  pose proof (query_overlaps demo_markers 18 60
    ltac:(apply it_inv_b_sound; vm_compute; reflexivity)) as H.
  destruct (query demo_markers 18 60) as [t' found]. apply H.
  apply (bool_decide_unpack _). vm_compute. exact I.
Defined.

(** After text was inserted, a query can miss an overlapping marker: with
    markers at 10, 5, 30 and 20, an insertion of 100 bytes at 6 moves the last one
    to 120, and a query of [118, 122] returns nothing. *)
Theorem query_misses_after_insertion :
  let t := match insert_each it_new [(10, 10); (5, 5); (30, 30); (20, 20)] with
           | Ok (t, _) => t | Panic => it_new end in
  it_inv t
  /\ (t' ← adjust_for_edit t 6 100; Ok (get_position t' 3, (query t' 118 122).2))
     = Ok (Some (120, 120), []).
Proof. cbv zeta. split; [apply it_inv_b_sound|]; vm_compute; reflexivity. Qed.

(** Both paths of a batch of insertions. *)
Lemma insert_many_ok t ivs :
  it_inv t -> 0 <= next_id t -> next_id t + Z.of_nat (length ivs) < 2 ^ 64 ->
  Forall (fun iv => 0 <= iv.1 < 2 ^ 64 /\ 0 <= iv.2 < 2 ^ 64) ivs ->
  let new := (batch_markers (next_id t) ivs).1 in
  exists t', insert_many t ivs = Ok (t', m_id <$> new) /\ it_inv t'
    /\ contents t' ≡ₚ contents t ++ new
    /\ interval <$> new = (fun iv => mkInterval iv.1 iv.2) <$> ivs.
Proof.
  intros Hinv H0 Hn Hiv. cbv zeta.
  destruct (insert_each_ok t ivs Hinv H0 Hn Hiv) as (t1 & Ht1 & Hinv1 & Hc1).
  pose proof (batch_markers_ok (next_id t) ivs H0 Hn Hiv) as Hb.
  unfold insert_many. destruct ivs as [|iv ivs']; [by exists t1|].
  set (ivs := iv :: ivs') in *. case_decide.
  { exists t1. destruct (batch_markers (next_id t) ivs) as [new last]. destruct Hb as (_ & _ & _ & _ & ?).
    by split_and!. }
  rw collect_nodes_in_order_ok; [apply Hinv|].
  destruct (batch_markers (next_id t) ivs) as [new last]. destruct Hb as (-> & Hnd & Hst & Hid & Hint).
  simpl. fold (contents t).
  destruct (rebuild_inv (contents t ++ new) (next_id t + Z.of_nat (length ivs))
              (list_to_set (m_id <$> new) ∪ marker_map t)) as (Hinv' & Hc' & _).
  - apply Forall_app. split; [apply tree_ok_stored|done].
  - rw fmap_app. apply NoDup_app. split_and!; [apply Hinv| |done].
    intros id (m & -> & Hm)%list_elem_of_fmap (m' & Heq & Hm')%list_elem_of_fmap.
    pose proof (inv_next _ Hinv) as Hnx. rw !Forall_forall in Hnx Hid.
    specialize (Hnx m Hm). specialize (Hid m' Hm'). lia.
  - apply Forall_app. split; [eapply Forall_impl; [apply Hinv|simpl; lia]|].
    eapply Forall_impl; [exact Hid|simpl; lia].
  - intros id. rw elem_of_union elem_of_list_to_set (inv_map _ Hinv) fmap_app elem_of_app. tauto.
  - eexists. by split_and!.
Qed.

(** A batch of insertions, whichever of its two paths it takes, never panics,
    keeps the invariant, hands out the ids in order and adds exactly the batch. *)
Theorem insert_many_inserts t ivs :
  it_inv t -> 0 <= next_id t -> next_id t + Z.of_nat (length ivs) < 2 ^ 64 ->
  Forall (fun iv => 0 <= iv.1 < 2 ^ 64 /\ 0 <= iv.2 < 2 ^ 64) ivs ->
  let new := (batch_markers (next_id t) ivs).1 in
  exists t', insert_many t ivs = Ok (t', m_id <$> new) /\ it_inv t'
    /\ contents t' ≡ₚ contents t ++ new
    /\ interval <$> new = (fun iv => mkInterval iv.1 iv.2) <$> ivs.
Proof. apply insert_many_ok. Qed.

Lemma insert_many_inserts_witness :
  exists t', insert_many demo_markers [(7, 9); (1, 1)] = Ok (t', [5; 6]) /\ it_inv t'
    /\ contents t' ≡ₚ contents demo_markers
         ++ [mkMarker 5 (mkInterval 7 9) Position true 0; mkMarker 6 (mkInterval 1 1) Position true 0]
    /\ [mkInterval 7 9; mkInterval 1 1] = (fun iv => mkInterval iv.1 iv.2) <$> [(7, 9); (1, 1)].
Proof.
  apply (insert_many_inserts demo_markers [(7, 9); (1, 1)]); [|done|done|].
  - apply it_inv_b_sound. vm_compute. reflexivity.
  - by repeat apply Forall_cons_2.
Defined.
