(* ===== verification/MarkerTreeBulk.v ===== *)
(** * Marker tree: batches of edits

    [adjust_for_bulk_edits] resolves each marker against the one edit that governs
    it and the sum of the deltas before that edit.  The result is that of applying
    the edits one after the other from the highest position down. *)
From stdpp Require Import base numbers list option sorting gmap.
From Stdlib Require Import ssreflect.
From S2P Require Import Prelude MarkerTree MarkerTreeInv MarkerTreeOps MarkerTreeEdit.
From S2P Require Import MarkerTreeQuery.

#[local] Open Scope Z_scope.

(** ** Edits in ascending order *)

(** The next edit starts after the text the previous one deletes. *)
Definition edit_sep (a b : Z * Z) : Prop := a.1 < b.1 /\ a.1 - Z.min a.2 0 <= b.1.
#[export] Instance edit_sep_dec a b : Decision (edit_sep a b) := and_dec _ _.

Definition delta_sum (es : list (Z * Z)) : Z := foldr (fun e acc => e.2 + acc) 0 es.
Definition delta_abs (es : list (Z * Z)) : Z := foldr (fun e acc => Z.abs e.2 + acc) 0 es.

(** The edits one after the other, the last one first. *)
Definition moved_all (es : list (Z * Z)) (m : Marker) : Marker :=
  foldr (fun e m => moved e.1 e.2 m) m es.

Lemma moved_all_app es es' m : moved_all (es ++ es') m = moved_all es (moved_all es' m).
Proof. apply foldr_app. Qed.

Lemma delta_sum_app es es' : delta_sum (es ++ es') = delta_sum es + delta_sum es'.
Proof. induction es as [|e es IH]; simpl; [done|]. rw IH. lia. Qed.

Lemma delta_abs_app es es' : delta_abs (es ++ es') = delta_abs es + delta_abs es'.
Proof. induction es as [|e es IH]; simpl; [done|]. rw IH. lia. Qed.

Lemma delta_abs_sum es : Z.abs (delta_sum es) <= delta_abs es.
Proof. induction es as [|e es IH]; simpl; lia. Qed.

Lemma partition_point_all {A} (p : A -> bool) l k :
  Forall (fun x => p x = true) l -> match k with [] => True | x :: _ => p x = false end ->
  partition_point p (l ++ k) = length l.
Proof.
  induction 1 as [|x l Hx _ IH]; intros Hk; simpl.
  - destruct k as [|y k]; simpl; [done|by rw Hk].
  - by rw Hx IH.
Qed.

(** A list of edits split by positions. *)
Lemma split_edits es c :
  StronglySorted edit_sep es ->
  exists a b, es = a ++ b /\ Forall (fun e => e.1 <= c) a /\ Forall (fun e => c < e.1) b
    /\ partition_point (fun e => bool_decide (e.1 <= c)) es = length a.
Proof.
  induction es as [|e es IH]; intros Hs; [by exists [], []|].
  apply StronglySorted_cons in Hs as [He Hs]. destruct (decide (e.1 <= c)) as [Hc|Hc].
  - destruct (IH Hs) as (a & b & -> & Ha & Hb & Hp). exists (e :: a), b.
    split_and!; [done|by apply Forall_cons_2|done|]. simpl. by rw bool_decide_true // Hp.
  - exists [], (e :: es). split_and!; [done|done| |simpl; by rw bool_decide_false].
    apply Forall_cons_2; [lia|]. eapply Forall_impl; [exact He|]. intros x [? _]. lia.
Qed.

(** Edits that end at or before [s0] shift everything from [s0] on. *)
Lemma moved_all_before es m s0 :
  Forall (fun e => e.1 < s0 /\ e.1 - Z.min e.2 0 <= s0 /\ 0 <= e.1) es -> StronglySorted edit_sep es ->
  0 <= s0 <= m_start m -> m_start m <= m_end m ->
  moved_all es m = set_interval m (m_start m + delta_sum es) (m_end m + delta_sum es)
  /\ 0 <= m_start m + delta_sum es.
Proof.
  revert m s0. induction es as [|[p d] es IH] using rev_ind; intros m s0 Hes Hs Hs0 Hse.
  { simpl. rw !Z.add_0_r. split; [by destruct m as [? [] ? ? ?]|lia]. }
  apply Forall_app in Hes as [Hes [(? & ? & ?) _]%Forall_cons]. simpl in *.
  apply StronglySorted_app in Hs as (Hx & Hs & _). rw moved_all_app delta_sum_app. simpl.
  assert (moved p d m = set_interval m (m_start m + d) (m_end m + d)) as ->.
  { unfold moved. assert (moved_start m p d = m_start m + d) as Hms.
    { unfold moved_start. rw decide_False; [lia|]. case_decide; [lia|]. rw decide_False //. lia. }
    rw Hms. f_equal. unfold moved_end. rw Hms decide_False; lia. }
  destruct (IH (set_interval m (m_start m + d) (m_end m + d)) p) as [-> Hnn]; try done.
  - rw Forall_forall in Hes. apply Forall_forall. intros e He. destruct (Hes e He) as (? & ? & ?).
    destruct (Hx e (p, d) He) as [? ?]; [by left|]. simpl in *. lia.
  - unfold m_start in *. simpl. lia.
  - unfold m_start, m_end in *. simpl. lia.
  - unfold m_start, m_end, set_interval in *. simpl in *. split; [|lia]. do 2 f_equal; lia.
Qed.

(** Edits strictly inside an interval move its end only. *)
Lemma moved_all_inside es m :
  Forall (fun e => m_start m < e.1 < 2 ^ 63) es -> 0 <= m_start m <= m_end m ->
  m_end m + delta_abs es < 2 ^ 63 -> delta_abs es < 2 ^ 63 ->
  let end_ := fold_end (negb (right_gravity m)) (m_start m) es (m_end m) in
  moved_all es m = set_interval m (m_start m) end_
  /\ m_start m <= end_ <= m_end m + delta_abs es.
Proof.
  intros Hes Hm. revert Hes. induction es as [|[p d] es IH]; intros Hes Hb Hb'; simpl.
  { split; [by destruct m as [? [] ? ? ?]|lia]. }
  apply Forall_cons in Hes as [Hp Hes]. simpl in Hp, Hb, Hb'.
  destruct (IH Hes) as [-> Hend]; [lia|lia|].
  set (e' := fold_end _ _ es _) in *. unfold moved.
  assert (moved_start (set_interval m (m_start m) e') p d = m_start m) as Hms.
  { unfold moved_start. rw decide_True //. unfold m_start in *. simpl. lia. }
  rw Hms. unfold moved_end. rw Hms. unfold set_interval, m_end, m_start in *. simpl.
  unfold add_i64. rw (to_i64_small p); [lia|]. rw (to_i64_small (i_start (interval m))); [lia|].
  rw to_i64_id; [lia|].
  destruct (right_gravity m); simpl; repeat (case_decide || case_bool_decide); simpl in *;
    try (split; [done|lia]); try lia; intuition lia.
Qed.

Lemma delta_prefix_lookup es r i :
  Z.abs r + delta_abs es < 2 ^ 63 -> (i < length es)%nat ->
  delta_prefix r es !! i = Some (r + delta_sum (take i es)).
Proof.
  revert r i. induction es as [|[p d] es IH]; intros r i Hb Hi; [simpl in Hi; lia|].
  simpl in Hb. destruct i as [|i]; simpl; [f_equal; lia|].
  pose proof (delta_abs_sum es). unfold add_i64. rw to_i64_id; [lia|].
  rw IH; [lia|simpl in Hi; lia|]. f_equal. lia.
Qed.

(** The governing edit of a coordinate, as [map_coord] applies it. *)
Definition governed (lg : bool) (c p d : Z) : Z :=
  if decide (0 < d) then if lg && bool_decide (c = p) then c else c + d else Z.max (c + d) p.

(** One coordinate through the edits at or before it: the last of them governs,
    the others shift. *)
Lemma map_coord_ok c lg es p d prefix :
  Forall (fun e => e.1 <= c) (es ++ [(p, d)]) -> 0 <= p -> 0 <= c ->
  c + delta_abs (es ++ [(p, d)]) < 2 ^ 63 -> prefix !! length es = Some (delta_sum es) ->
  0 <= governed lg c p d + delta_sum es ->
  map_coord c lg (es ++ [(p, d)]) prefix = Ok (governed lg c p d + delta_sum es).
Proof.
  intros Hle Hp Hc Hb Hpre Hnn. rw delta_abs_app in Hb. simpl in Hb.
  pose proof (delta_abs_sum es). unfold map_coord.
  rw -(app_nil_r (es ++ [(p, d)])) partition_point_all //.
  { eapply Forall_impl; [exact Hle|]. intros. by apply bool_decide_eq_true. }
  rw app_nil_r length_app /= decide_False; [lia|].
  replace (length es + 1 - 1)%nat with (length es) by lia.
  rw list_lookup_middle // Hpre.
  apply Forall_app in Hle as [_ [Hpc _]%Forall_cons]. simpl in Hpc.
  rw (to_i64_small c); [lia|]. rw (to_i64_small p); [lia|].
  replace (add_i64 c d) with (c + d) by (unfold add_i64; rw to_i64_id; lia).
  fold (governed lg c p d). assert (Z.abs (governed lg c p d) <= c + Z.abs d) as Hbase.
  { unfold governed. case_decide; [destruct lg; simpl; [case_bool_decide|]|]; lia. }
  f_equal. unfold add_i64. rw to_i64_id; [lia|]. rw to_u64_small; lia.
Qed.

Lemma moved_governed m p d :
  p <= m_start m <= m_end m ->
  moved_start m p d = governed (negb (right_gravity m)) (m_start m) p d
  /\ moved_end m p d = governed (negb (right_gravity m)) (m_end m) p d
  /\ p <= moved_start m p d <= moved_end m p d.
Proof.
  intros Hm. unfold moved_end, moved_start, governed.
  destruct (right_gravity m); simpl; repeat (case_decide || case_bool_decide); simpl; try lia;
    intuition lia.
Qed.

(** The edits at or before a marker. *)
Lemma head_ok head m prefix :
  StronglySorted edit_sep head -> Forall (fun e => 0 <= e.1 <= m_start m) head ->
  0 <= m_start m <= m_end m -> m_end m + delta_abs head < 2 ^ 63 -> delta_abs head < 2 ^ 63 ->
  (forall i, (i < length head)%nat -> prefix !! i = Some (delta_sum (take i head))) ->
  let lg := negb (right_gravity m) in
  let m' := moved_all head m in
  map_coord (m_start m) lg head prefix = Ok (m_start m')
  /\ map_coord (m_end m) lg head prefix = Ok (m_end m')
  /\ m' = set_interval m (m_start m') (m_end m') /\ m_start m' <= m_end m'.
Proof.
  intros Hs Hpos Hm Hb Hb' Hpre. destruct head as [|[p d] es _] using rev_ind.
  { simpl. split_and!; [done|done|by destruct m as [? [] ? ? ?]|lia]. }
  apply Forall_app in Hpos as [Hpos [Hp _]%Forall_cons]. simpl in Hp.
  apply StronglySorted_app in Hs as (Hx & Hs & _).
  destruct (moved_governed m p d) as (Hgs & Hge & Hord); [lia|].
  assert (m_start (moved p d m) = moved_start m p d) as Hms by done.
  assert (m_end (moved p d m) = moved_end m p d) as Hme by done.
  rw moved_all_app. cbn [moved_all foldr fst snd].
  destruct (moved_all_before es (moved p d m) p) as [Heq Hnn]; try done; [|lia|lia|].
  { rw Forall_forall in Hpos. apply Forall_forall. intros e He. destruct (Hpos e He).
    destruct (Hx e (p, d) He) as [? ?]; [by left|]. simpl in *. lia. }
  assert (prefix !! length es = Some (delta_sum es)) as Hpl.
  { rw Hpre; [rw length_app; simpl; lia|]. by rw take_app_length. }
  fold (moved_all es (moved p d m)). rw Heq Hms Hme.
  change (m_start (set_interval _ ?s _)) with s. change (m_end (set_interval _ _ ?e)) with e.
  rw Hms in Hnn. rw Hgs Hge in Hnn Hord |- *.
  assert (Forall (fun e => e.1 <= m_start m) (es ++ [(p, d)])) as Hle.
  { apply Forall_app. split; [eapply Forall_impl; [exact Hpos|simpl; lia]|].
    apply Forall_cons_2; [simpl; lia|done]. }
  split_and!.
  - apply map_coord_ok; try done; lia.
  - apply map_coord_ok; try done; try lia. eapply Forall_impl; [exact Hle|simpl; lia].
  - done.
  - lia.
Qed.

Lemma take_delta_prefix es r n i :
  Z.abs r + delta_abs es < 2 ^ 63 -> (i < n)%nat -> (n <= length es)%nat ->
  take n (delta_prefix r es) !! i = Some (r + delta_sum (take i es)).
Proof. intros. rw lookup_take_lt // delta_prefix_lookup //. lia. Qed.

Lemma bulk_adjust_marker_ok es m :
  StronglySorted edit_sep es -> Forall (fun e => 0 <= e.1 < 2 ^ 63) es ->
  0 <= m_start m <= m_end m -> m_end m + delta_abs es < 2 ^ 63 -> delta_abs es < 2 ^ 63 ->
  bulk_adjust_marker es (delta_prefix 0 es) m = Ok (moved_all es m).
Proof.
  intros Hs Hpos Hm Hb Hb'. unfold bulk_adjust_marker. rw Z.max_l; [lia|].
  destruct (split_edits es (m_start m) Hs) as (head & rest & -> & Hhead & Hrest & ->).
  pose proof Hs as (_ & Hsh & Hsr)%StronglySorted_app.
  destruct (split_edits rest (m_end m) Hsr) as (inside & tail & -> & Hin & Htail & _).
  rw app_assoc partition_point_all.
  { apply Forall_app. split; (eapply Forall_impl; [eassumption|]); simpl; intros; apply bool_decide_eq_true; lia. }
  { destruct tail as [|e tail]; [done|]. apply Forall_cons in Htail as [? _]. apply bool_decide_eq_false. lia. }
  rw !delta_abs_app in Hb. rw !delta_abs_app in Hb'. assert (forall l, 0 <= delta_abs l) as Hnn.
  { intros l. induction l; simpl; lia. }
  pose proof (Hnn head). pose proof (Hnn inside). pose proof (Hnn tail).
  rw -app_assoc. rw slice_Ok; [rw !length_app; lia..|].
  rw length_app drop_app_length. replace (length head + length inside - length head)%nat with (length inside) by lia.
  rw !take_app_length. cbn [mbind res_bind].
  apply Forall_app in Hpos as [Hp1 [Hp2 Hp3]%Forall_app].
  apply Forall_app in Hrest as [Hr2 Hr3].
  rw !moved_all_app.
  assert (moved_all tail m = m) as ->.
  { clear -Htail Hm. induction tail as [|e tail IH]; [done|]. apply Forall_cons in Htail as [? Ht]. simpl.
    rw IH //. apply moved_before; lia. }
  destruct (moved_all_inside inside m) as [-> Hend]; [|done|lia|lia|].
  { rw !Forall_forall in Hp2 Hr2. apply Forall_forall. intros e He. specialize (Hp2 e He).
    specialize (Hr2 e He). simpl in *. lia. }
  rw (to_i64_small (m_end m)); [lia|].
  set (e' := fold_end _ _ inside _) in *. rw (Z.max_l e' 0); [lia|]. rw (to_u64_small e'); [lia|].
  set (m1 := set_interval m (m_start m) e').
  assert (m_start m1 = m_start m) as Hs1 by done. assert (m_end m1 = e') as He1 by done.
  destruct (head_ok head m1 (take (length head) (delta_prefix 0 (head ++ inside ++ tail))))
    as (Hc1 & Hc2 & Hm' & Hle); [done| |lia|lia|lia| |].
  - rw !Forall_forall in Hp1. rw Forall_forall in Hhead. apply Forall_forall. intros e He.
    specialize (Hp1 e He). specialize (Hhead e He). lia.
  - intros i Hi. rw take_delta_prefix //; [rw !delta_abs_app; simpl; lia|rw !length_app; lia|].
    rw take_app_le //; lia.
  - rw Hs1 in Hc1. rw He1 in Hc2. change (right_gravity m1) with (right_gravity m) in Hc1, Hc2.
    rw Hc1. cbn [mbind res_bind]. rw Hc2. cbn [mbind res_bind]. f_equal. by rw Z.max_l.
Qed.

Lemma bulk_adjust_markers_ok es ms :
  StronglySorted edit_sep es -> Forall (fun e => 0 <= e.1 < 2 ^ 63) es -> delta_abs es < 2 ^ 63 ->
  Forall (fun m => 0 <= m_start m <= m_end m /\ m_end m + delta_abs es < 2 ^ 63) ms ->
  bulk_adjust_markers es (delta_prefix 0 es) ms = Ok (moved_all es <$> ms).
Proof.
  intros Hs Hpos Hb. induction 1 as [|m ms [Hm1 Hm2] _ IH]; [done|]. cbn [bulk_adjust_markers].
  rw bulk_adjust_marker_ok // IH //.
Qed.

(** Every marker stays a proper interval. *)
Lemma moved_proper m p d :
  0 <= p -> 0 <= m_start m <= m_end m ->
  0 <= m_start (moved p d m) <= m_end (moved p d m)
  /\ m_end (moved p d m) <= m_end m + Z.abs d.
Proof.
  intros Hp Hm. change (m_start (moved p d m)) with (moved_start m p d).
  change (m_end (moved p d m)) with (moved_end m p d). unfold moved_end, moved_start.
  repeat case_decide; intuition lia.
Qed.

Lemma moved_all_proper es m :
  Forall (fun e => 0 <= e.1) es -> 0 <= m_start m <= m_end m ->
  0 <= m_start (moved_all es m) <= m_end (moved_all es m)
  /\ m_end (moved_all es m) <= m_end m + delta_abs es /\ m_id (moved_all es m) = m_id m.
Proof.
  intros Hpos Hm. induction Hpos as [|[p d] es Hp _ IH]; simpl; [lia|].
  destruct IH as (? & ? & ?). destruct (moved_proper (moved_all es m) p d); [done..|].
  fold (moved_all es m). split; [done|]. split; [lia|done].
Qed.

(** ** Properties *)

(** The batched adjustment on the list of markers. *)
Lemma adjust_for_bulk_edits_ok t edits :
  let es := merge_sort pos_le (List.filter (fun e => negb (bool_decide (e.2 = 0))) edits) in
  it_inv t -> Sorted edit_sep es -> Forall (fun e => 0 <= e.1 < 2 ^ 63) es -> delta_abs es < 2 ^ 63 ->
  Forall (fun m => 0 <= m_start m <= m_end m /\ m_end m + delta_abs es < 2 ^ 63) (contents t) ->
  exists t', adjust_for_bulk_edits t edits = Ok t' /\ it_inv t'
    /\ contents t' ≡ₚ moved_all es <$> contents t.
Proof.
  intros es Hinv Hs Hpos Hb Hms.
  assert (StronglySorted edit_sep es) as Hss.
  { apply Sorted_StronglySorted; [|done]. intros a b c. unfold edit_sep. lia. }
  unfold adjust_for_bulk_edits. fold es. destruct (it_root t) as [|rm rh rme rsz rd rl rr] eqn:Hroot.
  { exists t. unfold contents. by rw Hroot. }
  rw -Hroot. destruct es as [|e es'] eqn:Hes.
  { exists t. split_and!; [done..|]. by rw list_fmap_id. }
  rw -Hes in Hs Hpos Hb Hms Hss |- *. rw decide_True.
  { clear -Hss. induction Hss as [|e es _ IH He]; [constructor|]. rw fmap_cons. apply NoDup_cons.
    split; [|done]. intros (e' & Heq & Hin)%list_elem_of_fmap. rw Forall_forall in He.
    destruct (He e' Hin). lia. }
  rw collect_nodes_in_order_ok; [apply Hinv|]. fold (contents t). rw bulk_adjust_markers_ok //.
  cbn [mbind res_bind]. eexists; split; [done|].
  assert (forall m, m ∈ contents t -> 0 <= m_start (moved_all es m) <= m_end (moved_all es m)
    /\ m_end (moved_all es m) <= m_end m + delta_abs es /\ m_id (moved_all es m) = m_id m) as Hpr.
  { intros m Hm. rw Forall_forall in Hms. apply moved_all_proper; [|by apply Hms].
    eapply Forall_impl; [exact Hpos|simpl; lia]. }
  assert (m_id <$> (moved_all es <$> contents t) = m_id <$> contents t) as Hids.
  { rw -list_fmap_compose. apply list_fmap_ext. intros i x Hx%list_elem_of_lookup_2. by apply Hpr. }
  destruct (rebuild_inv (moved_all es <$> contents t) (next_id t) (marker_map t)) as (? & ? & _); [| | | |done].
  - apply Forall_fmap, Forall_forall. intros m Hm. destruct (Hpr m Hm) as (? & ? & _).
    rw Forall_forall in Hms. destruct (Hms m Hm). simpl. split; lia.
  - rw Hids. apply Hinv.
  - pose proof (inv_next _ Hinv) as Hnx. rw -(Forall_fmap m_id (fun id => 0 <= id < next_id t)) in Hnx.
    by rw -(Forall_fmap m_id (fun id => 0 <= id < next_id t)) Hids.
  - rw Hids. apply Hinv.
Qed.

(** C32: for edits at distinct positions whose deleted ranges do not overlap, given
    in any order, with positions, changes of length and moved markers in the range of [i64], the batched adjustment never panics, keeps the invariant, and
    moves every marker, ends of spanning intervals included, to where the edits
    applied one by one from the highest position down take it. *)
Theorem adjust_for_bulk_edits_sequential t edits :
  let es := merge_sort pos_le (List.filter (fun e => negb (bool_decide (e.2 = 0))) edits) in
  it_inv t -> Sorted edit_sep es -> Forall (fun e => 0 <= e.1 < 2 ^ 63) es -> delta_abs es < 2 ^ 63 ->
  Forall (fun m => 0 <= m_start m <= m_end m /\ m_end m + delta_abs es < 2 ^ 63) (contents t) ->
  exists t', adjust_for_bulk_edits t edits = Ok t' /\ it_inv t'
    /\ contents t' ≡ₚ moved_all es <$> contents t.
Proof. apply adjust_for_bulk_edits_ok. Qed.

Lemma adjust_for_bulk_edits_sequential_witness :
  exists t', adjust_for_bulk_edits demo_markers [(20, 5); (3, -2); (12, 0)] = Ok t' /\ it_inv t'
    /\ contents t' ≡ₚ moved_all [(3, -2); (20, 5)] <$> contents demo_markers.
Proof.
  apply (adjust_for_bulk_edits_sequential demo_markers [(20, 5); (3, -2); (12, 0)]).
  - apply it_inv_b_sound. vm_compute. reflexivity.
  - apply (bool_decide_unpack _). vm_compute. exact I.
  - apply (bool_decide_unpack _). vm_compute. exact I.
  - vm_compute. reflexivity.
  - apply (bool_decide_unpack _). vm_compute. exact I.
Defined.
