(* ===== verification/MarkerStore.v ===== *)
(** * What the marker tree promises its clients

    [MarkerStore] lists the operations of the interval tree that the marker list
    calls, [MarkerStoreLaws] what they promise, in terms of a map from ids to the
    start and the gravity of the markers.  Clients are proved against the laws; the
    instance at the end discharges them for the tree of marker_tree.rs. *)
From stdpp Require Import base numbers list option sorting gmap.
From Stdlib Require Import ssreflect.
From S2P Require Import Prelude MarkerTree MarkerTreeInv MarkerTreeOps MarkerTreeEdit.
From S2P Require Import MarkerTreeQuery MarkerTreeBulk.

#[local] Open Scope Z_scope.

(** The start of a marker and whether its gravity is to the right. *)
Abbreviation Entry := (Z * bool)%type.

(** An edit moves the start of a marker the same way whatever its end is. *)
Definition move_entry (pos delta : Z) (e : Entry) : Entry :=
  (moved_start (mkMarker 0 (mkInterval e.1 e.1) Position e.2 0) pos delta, e.2).

Definition move_entries (es : gmap Z Entry) (e : Z * Z) : gmap Z Entry :=
  move_entry e.1 e.2 <$> es.

Fixpoint insert_entries (next : Z) (ivs : list (Z * Z)) (es : gmap Z Entry) : gmap Z Entry :=
  match ivs with
  | [] => es
  | iv :: ivs => insert_entries (next + 1) ivs (<[next := (iv.1, true)]> es)
  end.

Class MarkerStore (T : Type) : Type := {
  st_new : T;
  st_insert : T -> Z -> Z -> res (T * Z);
  st_insert_left_gravity : T -> Z -> Z -> res (T * Z);
  st_insert_ordered : T -> Z -> Z -> Z -> bool -> res (T * Z);
  st_insert_many : T -> list (Z * Z) -> res (T * list Z);
  st_delete : T -> Z -> res (T * bool);
  st_set_position : T -> Z -> Z -> Z -> res (T * bool);
  st_get_position : T -> Z -> option (Z * Z);
  st_adjust_for_edit : T -> Z -> Z -> res T;
  st_adjust_for_bulk_edits : T -> list (Z * Z) -> res T;
  st_len : T -> nat;
  st_is_empty : T -> bool;
  st_count_before : T -> Z -> nat;
  st_nth : T -> nat -> option Marker;
  st_in_range : T -> Z -> Z -> list Marker;
  st_query : T -> Z -> Z -> T * list Marker;
}.

(** [represents t limit next es]: the markers of [t] are [es], the next id is [next],
    and every marker is a proper interval that ends at or before [limit]. *)
Class MarkerStoreLaws (T : Type) `{MarkerStore T} : Type := {
  represents : T -> Z -> Z -> gmap Z Entry -> Prop;
  represents_new : represents st_new 0 0 ∅;
  represents_mono t limit limit' n es :
    represents t limit n es -> limit <= limit' -> represents t limit' n es;
  represents_ids t limit n es id :
    represents t limit n es -> is_Some (es !! id) -> 0 <= id < n;
  st_insert_ok t limit n es s e :
    represents t limit n es -> 0 <= s <= e -> e <= limit -> limit < 2 ^ 63 -> n + 1 < 2 ^ 64 ->
    exists t', st_insert t s e = Ok (t', n) /\ represents t' limit (n + 1) (<[n := (s, true)]> es);
  st_insert_left_gravity_ok t limit n es s e :
    represents t limit n es -> 0 <= s <= e -> e <= limit -> limit < 2 ^ 63 -> n + 1 < 2 ^ 64 ->
    exists t', st_insert_left_gravity t s e = Ok (t', n)
      /\ represents t' limit (n + 1) (<[n := (s, false)]> es);
  st_insert_ordered_ok t limit n es s e ord rg :
    represents t limit n es -> 0 <= s <= e -> e <= limit -> limit < 2 ^ 63 -> n + 1 < 2 ^ 64 ->
    exists t', st_insert_ordered t s e ord rg = Ok (t', n)
      /\ represents t' limit (n + 1) (<[n := (s, rg)]> es);
  st_insert_many_ok t limit n es ivs :
    represents t limit n es -> Forall (fun iv => 0 <= iv.1 <= iv.2 /\ iv.2 <= limit) ivs ->
    limit < 2 ^ 63 -> n + Z.of_nat (length ivs) < 2 ^ 64 ->
    exists t', st_insert_many t ivs = Ok (t', (fun i => n + Z.of_nat i) <$> seq 0 (length ivs))
      /\ represents t' limit (n + Z.of_nat (length ivs)) (insert_entries n ivs es);
  st_delete_ok t limit n es id :
    represents t limit n es ->
    exists t', st_delete t id = Ok (t', bool_decide (is_Some (es !! id)))
      /\ represents t' limit n (delete id es);
  st_set_position_ok t limit n es id s e :
    represents t limit n es -> 0 <= s <= e -> e <= limit -> limit < 2 ^ 63 ->
    exists t', st_set_position t id s e = Ok (t', bool_decide (is_Some (es !! id)))
      /\ represents t' limit n (alter (fun x => (s, x.2)) id es);
  st_get_position_ok t limit n es id :
    represents t limit n es -> fst <$> st_get_position t id = fst <$> es !! id;
  st_adjust_for_edit_ok t limit n es pos delta :
    represents t limit n es -> 0 <= pos < 2 ^ 63 -> - 2 ^ 63 <= delta ->
    limit + Z.max delta 0 < 2 ^ 63 ->
    exists t', st_adjust_for_edit t pos delta = Ok t'
      /\ represents t' (limit + Z.max delta 0) n (move_entries es (pos, delta));
  st_adjust_for_bulk_edits_ok t limit n es edits :
    represents t limit n es -> Sorted edit_sep (rev edits) ->
    Forall (fun e => 0 <= e.1 < 2 ^ 63 /\ e.2 <> 0) edits -> limit + delta_abs edits < 2 ^ 63 ->
    exists t', st_adjust_for_bulk_edits t edits = Ok t'
      /\ represents t' (limit + delta_abs edits) n (foldl move_entries es edits);
  st_len_ok t limit n es : represents t limit n es -> st_len t = size es;
  st_count_before_ok t limit n es pos :
    represents t limit n es -> st_count_before t pos = size (filter (fun x => x.2.1 < pos) es);
}.

(** ** The marker tree *)
#[export] Instance IntervalTree_store : MarkerStore IntervalTree := {
  st_new := it_new;
  st_insert := it_insert;
  st_insert_left_gravity := insert_left_gravity;
  st_insert_ordered := insert_ordered;
  st_insert_many := insert_many;
  st_delete := it_delete;
  st_set_position := set_position;
  st_get_position := get_position;
  st_adjust_for_edit := adjust_for_edit;
  st_adjust_for_bulk_edits := adjust_for_bulk_edits;
  st_len := it_len;
  st_is_empty := it_is_empty;
  st_count_before := count_before;
  st_nth := nth;
  st_in_range := in_range;
  st_query := query;
}.

Definition entry (m : Marker) : Z * Entry := (m_id m, (m_start m, right_gravity m)).
Definition entries (ms : list Marker) : gmap Z Entry := list_to_map (entry <$> ms).

Definition proper (limit : Z) (m : Marker) : Prop := 0 <= m_start m <= m_end m /\ m_end m <= limit.

Definition it_represents (t : IntervalTree) (limit n : Z) (es : gmap Z Entry) : Prop :=
  it_inv t /\ next_id t = n /\ 0 <= n /\ 0 <= limit /\ Forall (proper limit) (contents t)
  /\ es = entries (contents t).

(** ** Lists of markers as maps *)
Lemma Forall_proper_filter limit (P : Marker -> Prop) `{forall m, Decision (P m)} ms :
  Forall (proper limit) ms -> Forall (proper limit) (filter P ms).
Proof. rw !Forall_forall. intros Hms m [_ Hm]%list_elem_of_filter. by apply Hms. Qed.

Lemma entries_cons m ms : entries (m :: ms) = <[m_id m := (m_start m, right_gravity m)]> (entries ms).
Proof. done. Qed.

Lemma fst_entry ms : (entry <$> ms).*1 = m_id <$> ms.
Proof. by rw -list_fmap_compose. Qed.

Lemma entries_None ms id : entries ms !! id = None <-> id ∉ m_id <$> ms.
Proof. unfold entries. by rw -not_elem_of_list_to_map fst_entry. Qed.

Lemma entries_perm ms ms' : NoDup (m_id <$> ms) -> ms ≡ₚ ms' -> entries ms = entries ms'.
Proof. intros Hnd Hp. apply list_to_map_proper; [by rw fst_entry|by rw Hp]. Qed.

Lemma entries_lookup ms m :
  NoDup (m_id <$> ms) -> m ∈ ms -> entries ms !! m_id m = Some (m_start m, right_gravity m).
Proof.
  intros Hnd Hm. apply elem_of_list_to_map; [by rw fst_entry|].
  by apply (list_elem_of_fmap_2 entry).
Qed.

Lemma entries_filter ms id :
  entries (filter (fun m => m_id m <> id) ms) = delete id (entries ms).
Proof.
  induction ms as [|m ms IH]; [by unfold entries; rw delete_empty|].
  rw entries_cons. destruct (decide (m_id m = id)) as [Hid|Hid].
  - rw filter_cons_False; [tauto|]. by rw IH Hid delete_insert_eq.
  - rw filter_cons_True //. by rw entries_cons IH delete_insert_ne; [congruence|].
Qed.

Lemma entries_size (P : Z -> Prop) `{forall z, Decision (P z)} ms :
  NoDup (m_id <$> ms) ->
  size (filter (fun x : Z * Entry => P x.2.1) (entries ms))
  = length (filter (fun m => P (m_start m)) ms).
Proof.
  induction ms as [|m ms IH]; [done|]. intros [Hfr Hnd]%NoDup_cons. rw entries_cons.
  apply entries_None in Hfr. destruct (decide (P (m_start m))) as [HP|HP].
  - rw map_filter_insert_True //. rw filter_cons_True //. simpl. rw -IH //.
    apply map_size_insert_None. by apply map_lookup_filter_None_2; left.
  - rw map_filter_insert_False // delete_id //. rw filter_cons_False //. by apply IH.
Qed.

Lemma entries_moved (f : Entry -> Entry) (g : Marker -> Marker) ms :
  (forall m, m ∈ ms -> m_id (g m) = m_id m
     /\ (m_start (g m), right_gravity (g m)) = f (m_start m, right_gravity m)) ->
  entries (g <$> ms) = f <$> entries ms.
Proof.
  induction ms as [|m ms IH]; intros Hg; [by unfold entries; rw fmap_empty|].
  rw fmap_cons !entries_cons fmap_insert IH; [intros; apply Hg; by right|].
  destruct (Hg m) as [-> ->]; [by left|done].
Qed.

(** ** The next id *)
Lemma it_delete_next t id t' b : it_delete t id = Ok (t', b) -> next_id t' = next_id t.
Proof.
  unfold it_delete. case_decide as Hdec; intros H; [|by simplify_eq].
  destruct (delete_below (it_root t) id) as [[root|]|]; simpl in H; by simplify_eq.
Qed.

Lemma insert_with_id_next t id s e mt rg ord t' :
  insert_with_id t id s e mt rg ord = Ok t' -> next_id t' = next_id t.
Proof. unfold insert_with_id. case_decide as Hdec; intros H; [done|]. by inv_res. Qed.

Lemma set_position_next t id s e t' b : set_position t id s e = Ok (t', b) -> next_id t' = next_id t.
Proof.
  unfold set_position. destruct (get_marker t id) as [m|]; intros H; [|by simplify_eq].
  destruct (it_delete t id) as [[t1 []]|] eqn:Hd; simpl in H; [| |done]; apply it_delete_next in Hd.
  - destruct (insert_with_id t1 id s e _ _ _) eqn:Hi; simpl in H; [|done]. simplify_eq.
    rw (insert_with_id_next _ _ _ _ _ _ _ _ Hi). done.
  - by simplify_eq.
Qed.

Lemma delete_all_next t ids t' : delete_all t ids = Ok t' -> next_id t' = next_id t.
Proof.
  revert t. induction ids as [|id ids IH]; simpl; intros t H; [by simplify_eq|].
  destruct (it_delete t id) as [[t1 b]|] eqn:Hd; simpl in H; [|done].
  rw (IH _ H). exact (it_delete_next _ _ _ _ Hd).
Qed.

Lemma reinsert_all_next t pos delta ms t' :
  reinsert_all t pos delta ms = Ok t' -> next_id t' = next_id t.
Proof.
  revert t. induction ms as [|m ms IH]; cbn [reinsert_all]; intros t H; [by simplify_eq|].
  destruct (insert_with_id _ _ _ _ _ _ _) as [t1|] eqn:Hi; simpl in H; [|done].
  rw (IH _ H). exact (insert_with_id_next _ _ _ _ _ _ _ _ Hi).
Qed.

Lemma adjust_for_edit_next t pos delta t' :
  adjust_for_edit t pos delta = Ok t' -> next_id t' = next_id t.
Proof.
  unfold adjust_for_edit. case_decide as Hdec; [|by intros [= <-]].
  destruct (_ && _); [|by intros [= <-]]. intros H.
  destruct (delete_all _ _) as [t1|] eqn:Hd; simpl in H; [|done].
  rw (reinsert_all_next _ _ _ _ _ H). simpl. exact (delete_all_next _ _ _ Hd).
Qed.

Lemma adjust_for_bulk_edits_next t edits t' :
  adjust_for_bulk_edits t edits = Ok t' -> next_id t' = next_id t.
Proof.
  unfold adjust_for_bulk_edits. intros Hr. repeat (case_match || case_decide); try done; inv_res; done.
Qed.

Lemma insert_each_next t ivs t' ids :
  insert_each t ivs = Ok (t', ids) -> 0 <= next_id t -> next_id t + Z.of_nat (length ivs) < 2 ^ 64 ->
  next_id t' = next_id t + Z.of_nat (length ivs).
Proof.
  revert t ids. induction ivs as [|iv ivs IH]; intros t ids H H0 Hn; cbn [insert_each length] in *;
    [simplify_eq; lia|].
  destruct iv as [s e]. unfold it_insert, insert_with_type, insert_full in H.
  destruct (insert_recursive _ _) as [root|]; simpl in H; [|done].
  destruct (insert_each _ ivs) as [[t2 ids2]|] eqn:Hi; simpl in H; [|done]. simplify_eq.
  rw to_u64_small in Hi; [lia|]. apply IH in Hi; simpl in *; lia.
Qed.

Lemma insert_many_next t ivs t' ids :
  insert_many t ivs = Ok (t', ids) -> 0 <= next_id t -> next_id t + Z.of_nat (length ivs) < 2 ^ 64 ->
  Forall (fun iv => 0 <= iv.1 < 2 ^ 64 /\ 0 <= iv.2 < 2 ^ 64) ivs ->
  next_id t' = next_id t + Z.of_nat (length ivs).
Proof.
  intros Hr H0 Hn Hiv. pose proof (batch_markers_ok (next_id t) ivs H0 Hn Hiv) as Hb.
  unfold insert_many in Hr. destruct ivs as [|iv ivs']; [simplify_eq; simpl; lia|].
  case_decide as Hdec; [exact (insert_each_next _ _ _ _ Hr H0 Hn)|].
  destruct (batch_markers (next_id t) (iv :: ivs')) as [new last]. simplify_eq. simpl. apply Hb.
Qed.

(** ** The laws *)
Lemma it_represents_insert t limit n es s e mt rg ord :
  it_represents t limit n es -> 0 <= s <= e -> e <= limit -> limit < 2 ^ 63 -> n + 1 < 2 ^ 64 ->
  exists t', insert_full t s e mt rg ord = Ok (t', n)
    /\ it_represents t' limit (n + 1) (<[n := (s, rg)]> es).
Proof.
  intros (Hinv & <- & H0 & Hlim & Hp & ->) Hs He Hl Hn.
  destruct (insert_full_ok t s e mt rg ord Hinv) as (t' & l1 & l2 & Hins & Hinv' & H1 & H2); [lia..|].
  exists t'. split; [done|].
  assert (contents t' ≡ₚ mkMarker (next_id t) (mkInterval s e) mt rg ord :: contents t) as Hperm.
  { rw H1 H2. symmetry. apply Permutation_middle. }
  split; [done|]. split; [|split; [lia|split; [done|split]]].
  - unfold insert_full in Hins. destruct (insert_recursive _ _); simpl in Hins; [|done].
    simplify_eq. simpl. apply to_u64_small. lia.
  - rw Hperm. apply Forall_cons_2; [|done]. unfold proper, m_start, m_end. simpl. lia.
  - by rw (entries_perm _ _ (inv_nodup _ Hinv') Hperm) entries_cons.
Qed.

Lemma it_represents_delete t limit n es id :
  it_represents t limit n es ->
  exists t', it_delete t id = Ok (t', bool_decide (is_Some (es !! id)))
    /\ it_represents t' limit n (delete id es).
Proof.
  intros (Hinv & <- & H0 & Hlim & Hp & ->).
  destruct (it_delete_filter t id Hinv) as (t' & Hd & Hinv' & Hc & Hn). exists t'. split.
  - rw Hd. do 2 f_equal. apply bool_decide_ext. rw -not_eq_None_Some entries_None.
    destruct (decide (id ∈ m_id <$> contents t)); tauto.
  - do 4 (split; [done|]). rw Hc. split; [|by rw entries_filter].
    by apply Forall_proper_filter.
Qed.

Lemma it_represents_set_position t limit n es id s e :
  it_represents t limit n es -> 0 <= s <= e -> e <= limit -> limit < 2 ^ 63 ->
  exists t', set_position t id s e = Ok (t', bool_decide (is_Some (es !! id)))
    /\ it_represents t' limit n (alter (fun x => (s, x.2)) id es).
Proof.
  intros (Hinv & <- & H0 & Hlim & Hp & ->) Hs He Hl.
  destruct (set_position_ok t id s e Hinv) as [Hno Hyes]; [lia..|].
  destruct (entries (contents t) !! id) as [x|] eqn:Hid.
  - assert (id ∈ m_id <$> contents t) as (m & -> & Hm)%list_elem_of_fmap.
    { destruct (decide (id ∈ m_id <$> contents t)) as [?|Hn%entries_None]; [done|congruence]. }
    destruct (Hyes m Hm eq_refl) as (t' & Hset & Hinv' & Hc). exists t'.
    rw Hset bool_decide_true; [eauto|]. split; [done|].
    split; [done|]. split; [exact (set_position_next _ _ _ _ _ _ Hset)|]. do 2 (split; [done|]). split.
    + rw Hc. apply Forall_cons_2; [unfold proper, m_start, m_end; simpl; lia|]. by apply Forall_proper_filter.
    + rw (entries_perm _ _ (inv_nodup _ Hinv') Hc) entries_cons entries_filter. simpl.
      rw (entries_lookup _ _ (inv_nodup _ Hinv) Hm) in Hid. simplify_eq.
      apply map_eq. intros j. destruct (decide (j = m_id m)) as [->|Hj].
      * rw lookup_insert_eq lookup_alter_eq. by rw (entries_lookup _ _ (inv_nodup _ Hinv) Hm).
      * rw lookup_insert_ne; [congruence|]. rw lookup_delete_ne; [congruence|].
        by rw lookup_alter_ne; [congruence|].
  - exists t. rw Hno; [by apply entries_None|]. split.
    { by rw bool_decide_false; [intros [? ?]|]. }
    do 5 (split; [done|]).
    apply map_eq. intros j. destruct (decide (j = id)) as [->|Hj].
    + by rw lookup_alter_eq Hid.
    + by rw lookup_alter_ne; [congruence|].
Qed.

Lemma insert_entries_app n ms ivs es :
  (forall i m, ms !! i = Some m -> m_id m = n + Z.of_nat i /\ right_gravity m = true) ->
  (fun m => interval m) <$> ms = (fun iv => mkInterval iv.1 iv.2) <$> ivs ->
  insert_entries n ivs es = foldl (fun es m => <[m_id m := (m_start m, right_gravity m)]> es) es ms.
Proof.
  revert n ivs es. induction ms as [|m ms IH]; intros n [|iv ivs] es Hms Hiv; try done.
  rw !fmap_cons in Hiv. injection Hiv as Hm Hiv. simpl.
  destruct (Hms 0%nat m eq_refl) as [Hid Hrg].
  rw (IH (n + 1)); [|done|].
  - intros i m' Hi. destruct (Hms (S i) m' Hi). split; [lia|done].
  - unfold m_start. by rw Hm Hid Hrg Z.add_0_r.
Qed.

Lemma entries_foldl ms es :
  NoDup (m_id <$> ms) ->
  foldl (fun es m => <[m_id m := (m_start m, right_gravity m)]> es) es ms = entries ms ∪ es.
Proof.
  revert es. induction ms as [|m ms IH]; intros es; simpl; [intros; by rw left_id|].
  intros [Hfr Hnd]%NoDup_cons. rw IH // entries_cons. apply entries_None in Hfr.
  rw -insert_union_r // insert_union_l //.
Qed.

Lemma batch_markers_seq n ivs :
  0 <= n -> n + Z.of_nat (length ivs) < 2 ^ 64 ->
  forall i m, (batch_markers n ivs).1 !! i = Some m -> m_id m = n + Z.of_nat i /\ right_gravity m = true.
Proof.
  revert n. induction ivs as [|[s e] ivs IH]; intros n H0 Hn i m; simpl; [done|].
  simpl length in Hn. rw to_u64_small; [lia|]. specialize (IH (n + 1) ltac:(lia) ltac:(lia)).
  destruct (batch_markers (n + 1) ivs) as [new last]. simpl in *.
  destruct i as [|i]; intros Hi; [injection Hi as <-; simpl; split; [lia|done]|].
  destruct (IH i m Hi). split; [lia|done].
Qed.

Lemma it_represents_insert_many t limit n es ivs :
  it_represents t limit n es -> Forall (fun iv => 0 <= iv.1 <= iv.2 /\ iv.2 <= limit) ivs ->
  limit < 2 ^ 63 -> n + Z.of_nat (length ivs) < 2 ^ 64 ->
  exists t', insert_many t ivs = Ok (t', (fun i => n + Z.of_nat i) <$> seq 0 (length ivs))
    /\ it_represents t' limit (n + Z.of_nat (length ivs)) (insert_entries n ivs es).
Proof.
  intros (Hinv & <- & H0 & Hlim & Hp & ->) Hiv Hl Hn.
  assert (Forall (fun iv => 0 <= iv.1 < 2 ^ 64 /\ 0 <= iv.2 < 2 ^ 64) ivs) as Hiv'.
  { eapply Forall_impl; [exact Hiv|]. simpl. lia. }
  destruct (insert_many_ok t ivs Hinv H0 Hn Hiv') as (t' & Hins & Hinv' & Hc & Hint).
  pose proof (batch_markers_seq (next_id t) ivs H0 Hn) as Hseq.
  set (new := (batch_markers (next_id t) ivs).1) in *.
  assert (length new = length ivs) as Hlen.
  { apply (f_equal length) in Hint. by rw !length_fmap in Hint. }
  exists t'. split.
  { rw Hins. do 2 f_equal. apply list_eq. intros i. rw !list_lookup_fmap.
    destruct (new !! i) as [m|] eqn:Hi; simpl.
    - rw lookup_seq_lt; [apply lookup_lt_Some in Hi; lia|]. simpl. f_equal. by apply Hseq.
    - rw lookup_seq_ge; [apply lookup_ge_None in Hi; lia|done]. }
  split; [done|]. split; [exact (insert_many_next _ _ _ _ Hins H0 Hn Hiv')|]. split; [lia|]. split; [done|]. split.
  - rw Hc. apply Forall_app. split; [done|].
    rw -(Forall_fmap interval (fun iv => 0 <= i_start iv <= i_end iv /\ i_end iv <= limit)) Hint.
    by apply Forall_fmap.
  - rw (entries_perm _ _ (inv_nodup _ Hinv') Hc).
    assert (NoDup (m_id <$> contents t ++ new)) as Hnd by (rw -Hc; apply Hinv').
    rw (insert_entries_app _ new) // entries_foldl.
    { rw fmap_app in Hnd. by apply NoDup_app in Hnd as (_ & _ & ?). }
    rw (entries_perm (contents t ++ new) (new ++ contents t)); [done|apply Permutation_app_comm|].
    unfold entries. by rw fmap_app list_to_map_app.
Qed.

Lemma moved_entry m pos delta :
  (m_start (moved pos delta m), right_gravity (moved pos delta m))
  = move_entry pos delta (m_start m, right_gravity m).
Proof. done. Qed.

Lemma adjusted_entry pos delta m m' :
  adjusted_by pos delta m m' ->
  (m_start m', right_gravity m') = move_entry pos delta (m_start m, right_gravity m).
Proof.
  intros Ha. rw -moved_entry. f_equal; [exact (adjusted_by_start _ _ _ _ Ha)|].
  by destruct Ha as [->|[_ ->]].
Qed.

Lemma adjusted_entries pos delta ms ms' :
  Forall2 (adjusted_by pos delta) ms ms' -> entries ms' = move_entry pos delta <$> entries ms.
Proof.
  induction 1 as [|m m' ms ms' Ha _ IH]; [by unfold entries; rw fmap_empty|].
  by rw !entries_cons fmap_insert IH (adjusted_by_id _ _ _ _ Ha) (adjusted_entry _ _ _ _ Ha).
Qed.

Lemma proper_moved pos delta limit m :
  0 <= pos -> proper limit m -> proper (limit + Z.max delta 0) (moved pos delta m).
Proof.
  intros Hpos [Hm Hl]. unfold proper. change (m_start (moved pos delta m)) with (moved_start m pos delta).
  change (m_end (moved pos delta m)) with (moved_end m pos delta). unfold moved_end, moved_start.
  repeat case_decide; intuition lia.
Qed.

Lemma proper_mono limit limit' m : limit <= limit' -> proper limit m -> proper limit' m.
Proof. unfold proper. lia. Qed.

Lemma it_represents_adjust t limit n es pos delta :
  it_represents t limit n es -> 0 <= pos < 2 ^ 63 -> - 2 ^ 63 <= delta ->
  limit + Z.max delta 0 < 2 ^ 63 ->
  exists t', adjust_for_edit t pos delta = Ok t'
    /\ it_represents t' (limit + Z.max delta 0) n (move_entries es (pos, delta)).
Proof.
  intros (Hinv & <- & H0 & Hlim & Hp & ->) Hpos Hd Hl.
  destruct (adjust_for_edit_ok t pos delta Hinv Hpos)
    as (t' & ms & ms' & Ha & Hinv' & Hms & Hms' & HF); [lia| |].
  { eapply Forall_impl; [exact Hp|]. intros m [? ?]. unfold edit_bounded. lia. }
  exists t'. split; [done|]. split; [done|]. split; [exact (adjust_for_edit_next _ _ _ _ Ha)|].
  split; [done|]. split; [lia|]. rw -Hms in Hp. split.
  - rw -Hms'. apply Forall_lookup. intros i m' Hi.
    destruct (Forall2_lookup_r _ _ _ _ _ HF Hi) as (m & Hi' & Had).
    assert (proper limit m) as Hm by exact (Forall_lookup_1 _ _ _ _ Hp Hi').
    destruct Had as [->|[_ ->]]; [apply proper_moved; [lia|done]|].
    apply (proper_mono limit); [lia|exact Hm].
  - rw -(entries_perm ms' (contents t')) //; [rw Hms'; apply Hinv'|].
    rw (adjusted_entries _ _ _ _ HF) (entries_perm ms (contents t)) //. rw Hms. apply Hinv.
Qed.

(** ** Batches of edits in descending order *)
Lemma delta_abs_rev es : delta_abs (rev es) = delta_abs es.
Proof. induction es as [|e es IH]; [done|]. cbn [rev]. rw delta_abs_app IH. simpl. lia. Qed.

Lemma edit_sep_sorted es :
  Sorted edit_sep es -> StronglySorted pos_le es /\ NoDup es.*1.
Proof.
  intros Hs. apply Sorted_StronglySorted in Hs; [|intros a b c; unfold edit_sep; lia].
  induction Hs as [|e es _ [IH1 IH2] He]; [split; constructor|]. split.
  - apply StronglySorted_cons. split; [|done]. eapply Forall_impl; [exact He|].
    unfold edit_sep, pos_le. lia.
  - rw fmap_cons. apply NoDup_cons. split; [|done]. intros (e' & Heq & Hin)%list_elem_of_fmap.
    rw Forall_forall in He. destruct (He e' Hin). lia.
Qed.

Lemma merge_sort_rev es : Sorted edit_sep (rev es) -> merge_sort pos_le es = rev es.
Proof.
  intros [Hs Hnd]%edit_sep_sorted.
  apply (StronglySorted_unique_strong pos_le); [| |done|].
  - intros x y Hx Hy ??. apply (NoDup_fmap_unique fst (rev es)); [done| |done|unfold pos_le in *; lia].
    rw merge_sort_Permutation in Hx. by rw -Permutation_rev.
  - apply Sorted_StronglySorted; [intros a b c; unfold pos_le; lia|].
    apply Sorted_merge_sort. intros a b. unfold pos_le. lia.
  - by rw merge_sort_Permutation -Permutation_rev.
Qed.

Lemma entries_moved_all edits ms :
  entries (moved_all (rev edits) <$> ms) = foldl move_entries (entries ms) edits.
Proof.
  revert ms. induction edits as [|e edits IH]; intros ms; cbn [rev foldl].
  { by rw list_fmap_id. }
  replace (moved_all (rev edits ++ [e]) <$> ms) with (moved_all (rev edits) <$> (moved e.1 e.2 <$> ms)).
  - rw IH. f_equal. by apply entries_moved.
  - rw -list_fmap_compose. apply list_fmap_ext. intros. by rw moved_all_app.
Qed.

Lemma it_represents_bulk t limit n es edits :
  it_represents t limit n es -> Sorted edit_sep (rev edits) ->
  Forall (fun e => 0 <= e.1 < 2 ^ 63 /\ e.2 <> 0) edits -> limit + delta_abs edits < 2 ^ 63 ->
  exists t', adjust_for_bulk_edits t edits = Ok t'
    /\ it_represents t' (limit + delta_abs edits) n (foldl move_entries es edits).
Proof.
  intros (Hinv & <- & H0 & Hlim & Hp & ->) Hs He Hl.
  assert (0 <= delta_abs edits) as Habs by (clear; induction edits; simpl; lia).
  assert (List.filter (fun e => negb (bool_decide (e.2 = 0))) edits = edits) as Hf.
  { clear -He. induction He as [|e es [_ ?] _ IH]; [done|]. cbn [List.filter].
    by rw bool_decide_false // IH. }
  assert (Forall (fun e => 0 <= e.1 < 2 ^ 63) (rev edits)) as Hpos.
  { rw -Permutation_rev. eapply Forall_impl; [exact He|]. simpl. tauto. }
  destruct (adjust_for_bulk_edits_ok t edits) as (t' & Ha & Hinv' & Hc); rw ?Hf ?merge_sort_rev ?delta_abs_rev //;
    [lia| |].
  { eapply Forall_impl; [exact Hp|]. intros m [? ?]. simpl. lia. }
  exists t'. split; [done|]. rw Hf merge_sort_rev // in Hc.
  split; [done|]. split; [exact (adjust_for_bulk_edits_next _ _ _ Ha)|]. split; [done|]. split; [lia|]. split.
  - rw Hc. apply Forall_fmap. eapply Forall_impl; [exact Hp|]. intros m [Hm ?]. simpl.
    destruct (moved_all_proper (rev edits) m) as (? & Hend & _); [|done|].
    { eapply Forall_impl; [exact Hpos|]. simpl. lia. }
    rw delta_abs_rev in Hend. unfold proper. lia.
  - by rw (entries_perm _ _ (inv_nodup _ Hinv') Hc) entries_moved_all.
Qed.

#[export] Instance IntervalTree_laws : MarkerStoreLaws IntervalTree.
Proof.
  refine {| represents := it_represents |}.
  - split; [by apply it_inv_b_sound|]. done.
  - intros t limit limit' n es (? & ? & ? & ? & Hp & ?) Hl. do 3 (split; [done|]). split; [lia|].
    split; [|done]. eapply Forall_impl; [exact Hp|]. intros m. by apply proper_mono.
  - intros t limit n es id (Hinv & <- & _ & _ & _ & ->) Hid.
    assert (id ∈ m_id <$> contents t) as (m & -> & Hm)%list_elem_of_fmap.
    { destruct (decide (id ∈ m_id <$> contents t)) as [?|Hn%entries_None]; [done|].
      rw Hn in Hid. by destruct Hid. }
    pose proof (inv_next _ Hinv) as Hnx. rw Forall_forall in Hnx. by apply Hnx.
  - intros. by apply it_represents_insert.
  - intros. by apply it_represents_insert.
  - intros. by apply it_represents_insert.
  - exact it_represents_insert_many.
  - exact it_represents_delete.
  - exact it_represents_set_position.
  - intros t limit n es id (Hinv & _ & _ & _ & _ & ->). simpl.
    destruct (decide (id ∈ m_id <$> contents t)) as [(m & -> & Hm)%list_elem_of_fmap|Hid].
    + by rw get_position_ok // (entries_lookup _ _ (inv_nodup _ Hinv) Hm).
    + rw (proj2 (entries_None _ _) Hid). unfold get_position. by rw decide_False; [rw (inv_map _ Hinv)|].
  - exact it_represents_adjust.
  - exact it_represents_bulk.
  - intros t limit n es (Hinv & _ & _ & _ & _ & ->). simpl. unfold it_len.
    rw (t_size_markers 0); [apply Hinv|]. fold (contents t). unfold entries.
    rw map_size_list_to_map; [rw fst_entry; apply Hinv|]. by rw length_fmap.
  - intros t limit n es pos (Hinv & _ & _ & _ & _ & ->). simpl. unfold count_before.
    rw count_before_from_ok; [apply Hinv..|].
    symmetry. exact (entries_size (fun z => z < pos) _ (inv_nodup _ Hinv)).
Defined.
