(* ===== verification/MarkerList.v ===== *)
(** * The marker list

    Models crates/fresh-editor-core/src/model/marker.rs: the positions that clients
    of a buffer hold, kept by a marker store (the interval tree), with the affinity
    the list records for each id.

    [usize] arguments are numbers; the casts to [u64] are exact and the casts to
    [i64] wrap.  The list refines a map from ids to positions: see
    [marker_list_refines]. *)
From stdpp Require Import base numbers list option sorting gmap.
From Stdlib Require Import ssreflect.
From S2P Require Import Prelude MarkerTree MarkerTreeInv MarkerTreeOps MarkerTreeEdit.
From S2P Require Import MarkerTreeBulk MarkerStore.

#[local] Open Scope Z_scope.

Record MarkerList (T : Type) : Type := mkMarkerList {
  ml_tree : T;
  affinity_map : gmap Z bool;
}.
Arguments mkMarkerList {T} _ _.
Arguments ml_tree {T} _.
Arguments affinity_map {T} _.

Definition BULK_ADJUST_MIN_EDITS : nat := 16.

(** An edit [(position, deleted_len, inserted_len)]. *)
Abbreviation LenEdit := (nat * nat * nat)%type.

(** [*ins_len as i64 - *del_len as i64] *)
Definition net_delta (del_len ins_len : nat) : Z :=
  to_i64 (to_i64 (Z.of_nat ins_len) - to_i64 (Z.of_nat del_len)).

Definition net_edits (edits : list LenEdit) : list (Z * Z) :=
  List.filter (fun e => negb (bool_decide (e.2 = 0)))
    ((fun e : LenEdit => (Z.of_nat e.1.1, net_delta e.1.2 e.2)) <$> edits).

(** [windows(2).any(|w| w[0] == w[1])] *)
Fixpoint adjacent_equal (l : list Z) : bool :=
  match l with
  | x :: ((y :: _) as rest) => bool_decide (x = y) || adjacent_equal rest
  | _ => false
  end.

Definition has_repeated_position (edits : list (Z * Z)) : bool :=
  adjacent_equal (merge_sort Z.le (fst <$> edits)).

(** The three intervals of each range, flattened. *)
Definition overlay_intervals (ranges : list (nat * nat)) : list (Z * Z) :=
  concat ((fun r : nat * nat =>
    let start := Z.of_nat r.1 in
    let end_ := Z.of_nat (Nat.max r.2 r.1) in
    [(start, start); (Z.of_nat r.2, Z.of_nat r.2); (start, end_)]) <$> ranges).

(** The loop over [ids.chunks_exact(3)]. *)
Fixpoint overlay_ids (ids : list Z) (affinity : gmap Z bool) : gmap Z bool * list (Z * Z * Z) :=
  match ids with
  | s :: e :: span :: ids =>
      let '(affinity, out) :=
        overlay_ids ids (<[span := false]> (<[e := false]> (<[s := false]> affinity))) in
      (affinity, (s, e, span) :: out)
  | _ => (affinity, [])
  end.

Section marker_list.
Context {T : Type} `{MarkerStore T}.
Implicit Types ml : MarkerList T.

Definition ml_new : MarkerList T := mkMarkerList st_new ∅.

Definition create ml (position : nat) : res (MarkerList T * Z) :=
  let pos := Z.of_nat position in
  '(tree, id) ← st_insert (ml_tree ml) pos pos;
  Ok (mkMarkerList tree (<[id := false]> (affinity_map ml)), id).

Definition create_left_gravity ml (position : nat) : res (MarkerList T * Z) :=
  let pos := Z.of_nat position in
  '(tree, id) ← st_insert_left_gravity (ml_tree ml) pos pos;
  Ok (mkMarkerList tree (<[id := true]> (affinity_map ml)), id).

Definition create_ordered ml (position : nat) (order : Z) (left_gravity : bool)
    : res (MarkerList T * Z) :=
  let pos := Z.of_nat position in
  '(tree, id) ← st_insert_ordered (ml_tree ml) pos pos order (negb left_gravity);
  Ok (mkMarkerList tree (<[id := left_gravity]> (affinity_map ml)), id).

Definition create_span ml (start end_ : nat) : res (MarkerList T * Z) :=
  '(tree, id) ← st_insert (ml_tree ml) (Z.of_nat start) (Z.of_nat (Nat.max end_ start));
  Ok (mkMarkerList tree (<[id := false]> (affinity_map ml)), id).

Definition create_overlay_markers_bulk ml (ranges : list (nat * nat))
    : res (MarkerList T * list (Z * Z * Z)) :=
  '(tree, ids) ← st_insert_many (ml_tree ml) (overlay_intervals ranges);
  let '(affinity, out) := overlay_ids ids (affinity_map ml) in
  Ok (mkMarkerList tree affinity, out).

Definition ml_len ml : nat := st_len (ml_tree ml).
Definition ml_is_empty ml : bool := st_is_empty (ml_tree ml).
Definition ml_count_before ml (position : nat) : nat :=
  st_count_before (ml_tree ml) (Z.of_nat position).
Definition count_in ml (start end_ : nat) : nat :=
  (ml_count_before ml end_ - ml_count_before ml start)%nat.

Definition ml_nth ml (k : nat) : option (Z * nat) :=
  (fun m => (m_id m, Z.to_nat (m_start m))) <$> st_nth (ml_tree ml) k.

Definition ml_in_range ml (start end_ : nat) : list (Z * nat) :=
  (fun m => (m_id m, Z.to_nat (m_start m)))
    <$> st_in_range (ml_tree ml) (Z.of_nat start) (Z.of_nat end_).

Definition ml_delete ml (id : Z) : res (MarkerList T) :=
  '(tree, _) ← st_delete (ml_tree ml) id;
  Ok (mkMarkerList tree (delete id (affinity_map ml))).

Definition ml_set_position ml (id : Z) (new_position : nat) : res (MarkerList T * bool) :=
  let pos := Z.of_nat new_position in
  '(tree, moved) ← st_set_position (ml_tree ml) id pos pos;
  Ok (mkMarkerList tree (affinity_map ml), moved).

Definition ml_get_position ml (id : Z) : option nat :=
  '(start, _) ← st_get_position (ml_tree ml) id;
  Some (Z.to_nat start).

(** The markers found, and the list: a query pushes pending deltas down. *)
Definition query_range ml (start end_ : nat) : MarkerList T * list (Z * nat * nat) :=
  let '(tree, found) := st_query (ml_tree ml) (Z.of_nat start) (Z.of_nat end_) in
  (mkMarkerList tree (affinity_map ml),
   (fun m => (m_id m, Z.to_nat (m_start m), Z.to_nat (m_end m))) <$> found).

Definition adjust_tree ml (pos delta : Z) : res (MarkerList T) :=
  tree ← st_adjust_for_edit (ml_tree ml) pos delta;
  Ok (mkMarkerList tree (affinity_map ml)).

Definition adjust_for_insert ml (position length : nat) : res (MarkerList T) :=
  if decide (length = 0%nat) then Ok ml
  else adjust_tree ml (Z.of_nat position) (to_i64 (Z.of_nat length)).

Definition adjust_for_delete ml (position length : nat) : res (MarkerList T) :=
  if decide (length = 0%nat) then Ok ml
  else adjust_tree ml (Z.of_nat position) (to_i64 (- to_i64 (Z.of_nat length))).

(** [for (pos, delta) in net] *)
Fixpoint adjust_each ml (net : list (Z * Z)) : res (MarkerList T) :=
  match net with
  | [] => Ok ml
  | (pos, delta) :: net => ml ← adjust_tree ml pos delta; adjust_each ml net
  end.

Definition ml_adjust_for_bulk_edits ml (edits : list LenEdit) : res (MarkerList T) :=
  let net := net_edits edits in
  let deletions := length (List.filter (fun e => bool_decide (e.2 < 0)) net) in
  let worth_batching :=
    bool_decide (1 < length net)%nat
    && (bool_decide (0 < deletions)%nat || bool_decide (BULK_ADJUST_MIN_EDITS <= length net)%nat) in
  if worth_batching && negb (has_repeated_position net) then
    tree ← st_adjust_for_bulk_edits (ml_tree ml) net;
    Ok (mkMarkerList tree (affinity_map ml))
  else adjust_each ml net.

Definition marker_count ml : nat := size (affinity_map ml).
End marker_list.
