(* ===== verification/MarkerListInv.v ===== *)
(** * The marker list refines a map of positions

    The abstract state is the next id and a map from ids to the start and gravity of
    the markers.  Every sequence of operations on the list, within the range of the
    machine integers, does on the list what it does on the map; the proofs use the
    laws of the store only. *)
From stdpp Require Import base numbers list option sorting gmap.
From Stdlib Require Import ssreflect.
From S2P Require Import Prelude MarkerTree MarkerTreeInv MarkerTreeOps MarkerTreeEdit.
From S2P Require Import MarkerTreeBulk MarkerStore MarkerList.

#[local] Open Scope Z_scope.

(** ** Operations and their effect on the map *)
Inductive ListOp : Type :=
  | Create (position : nat)
  | CreateLeftGravity (position : nat)
  | CreateOrdered (position : nat) (order : Z) (left_gravity : bool)
  | CreateSpan (start end_ : nat)
  | CreateOverlays (ranges : list (nat * nat))
  | Delete (id : Z)
  | SetPosition (id : Z) (position : nat)
  | InsertText (position length : nat)
  | DeleteText (position length : nat)
  | BulkEdit (edits : list LenEdit).

Abbreviation Positions := (Z * gmap Z Entry)%type.

Definition signed_edit (e : LenEdit) : Z * Z :=
  (Z.of_nat e.1.1, Z.of_nat e.2 - Z.of_nat e.1.2).

Definition spec_op (sp : Positions) (op : ListOp) : Positions :=
  let '(n, es) := sp in
  match op with
  | Create p => (n + 1, <[n := (Z.of_nat p, true)]> es)
  | CreateLeftGravity p => (n + 1, <[n := (Z.of_nat p, false)]> es)
  | CreateOrdered p _ lg => (n + 1, <[n := (Z.of_nat p, negb lg)]> es)
  | CreateSpan s _ => (n + 1, <[n := (Z.of_nat s, true)]> es)
  | CreateOverlays rs =>
      (n + 3 * Z.of_nat (length rs), insert_entries n (overlay_intervals rs) es)
  | Delete id => (n, delete id es)
  | SetPosition id p => (n, alter (fun x => (Z.of_nat p, x.2)) id es)
  | InsertText p len => (n, move_entries es (Z.of_nat p, Z.of_nat len))
  | DeleteText p len => (n, move_entries es (Z.of_nat p, - Z.of_nat len))
  | BulkEdit edits => (n, foldl move_entries es (signed_edit <$> edits))
  end.

(** How far an operation can move positions and ids up; the sum over a session is
    required to stay in the range of [i64]. *)
Definition op_weight (op : ListOp) : Z :=
  match op with
  | Create p | CreateLeftGravity p | CreateOrdered p _ _ => Z.of_nat p + 1
  | CreateSpan s e => Z.of_nat s + Z.of_nat e + 1
  | CreateOverlays rs =>
      foldr (fun r acc => Z.of_nat r.1 + Z.of_nat r.2 + 3 + acc) 0 rs
  | Delete _ => 0
  | SetPosition _ p => Z.of_nat p
  | InsertText p len | DeleteText p len => Z.of_nat p + Z.of_nat len
  | BulkEdit edits =>
      foldr (fun (e : LenEdit) acc => Z.of_nat e.1.1 + Z.of_nat e.1.2 + Z.of_nat e.2 + acc) 0 edits
  end.

Definition session_weight (ops : list ListOp) : Z := foldr (fun op acc => op_weight op + acc) 0 ops.

(** A bulk edit is given from the highest position down and its deletions do not
    overlap, unless two edits share a position. *)
Definition edits_ok (edits : list LenEdit) : Prop :=
  NoDup (net_edits edits).*1 -> Sorted edit_sep (rev (net_edits edits)).

Definition list_op_ok (op : ListOp) : Prop :=
  match op with BulkEdit edits => edits_ok edits | _ => True end.

Section run.
Context {T : Type} `{MarkerStore T}.

Definition list_op (ml : MarkerList T) (op : ListOp) : res (MarkerList T) :=
  match op with
  | Create p => '(ml, _) ← create ml p; Ok ml
  | CreateLeftGravity p => '(ml, _) ← create_left_gravity ml p; Ok ml
  | CreateOrdered p o lg => '(ml, _) ← create_ordered ml p o lg; Ok ml
  | CreateSpan s e => '(ml, _) ← create_span ml s e; Ok ml
  | CreateOverlays rs => '(ml, _) ← create_overlay_markers_bulk ml rs; Ok ml
  | Delete id => ml_delete ml id
  | SetPosition id p => '(ml, _) ← ml_set_position ml id p; Ok ml
  | InsertText p len => adjust_for_insert ml p len
  | DeleteText p len => adjust_for_delete ml p len
  | BulkEdit edits => ml_adjust_for_bulk_edits ml edits
  end.

Fixpoint list_session (ml : MarkerList T) (ops : list ListOp) : res (MarkerList T) :=
  match ops with
  | [] => Ok ml
  | op :: ops => ml ← list_op ml op; list_session ml ops
  end.
End run.

(** ** Repeated positions *)
Lemma adjacent_equal_NoDup l : StronglySorted Z.le l -> adjacent_equal l = false -> NoDup l.
Proof.
  induction l as [|x l IH]; intros Hs Ha; [constructor|].
  apply StronglySorted_cons in Hs as [Hx Hs]. destruct l as [|y l]; [apply NoDup_singleton|].
  cbn [adjacent_equal] in Ha. apply orb_false_iff in Ha as [Hxy Ha].
  apply bool_decide_eq_false in Hxy. apply NoDup_cons. split; [|by apply IH].
  apply StronglySorted_cons in Hs as [Hy _]. apply Forall_cons in Hx as [Hle _].
  rw Forall_forall in Hy. intros [->|Hin]%elem_of_cons; [done|]. specialize (Hy _ Hin). lia.
Qed.

Lemma has_repeated_position_NoDup es : has_repeated_position es = false -> NoDup es.*1.
Proof.
  intros Hr. rw -(merge_sort_Permutation Z.le es.*1). apply adjacent_equal_NoDup; [|done].
  apply StronglySorted_merge_sort; apply _.
Qed.

(** ** Net edits *)
Lemma move_entry_0 pos e : move_entry pos 0 e = e.
Proof.
  destruct e as [s rg]. unfold move_entry, moved_start, m_start. simpl. f_equal.
  repeat case_decide; simpl in *; lia.
Qed.

Lemma move_entries_0 pos es : move_entries es (pos, 0) = es.
Proof.
  unfold move_entries. simpl. rw -{2}(map_fmap_id es). apply map_fmap_ext. intros. apply move_entry_0.
Qed.

Lemma net_delta_ok del ins :
  Z.of_nat del + Z.of_nat ins < 2 ^ 63 -> net_delta del ins = Z.of_nat ins - Z.of_nat del.
Proof.
  intros. unfold net_delta. rw (to_i64_small (Z.of_nat ins)); [lia|].
  rw (to_i64_small (Z.of_nat del)); [lia|]. apply to_i64_id. lia.
Qed.

Lemma net_edits_ok edits es :
  op_weight (BulkEdit edits) < 2 ^ 63 ->
  Forall (fun e => 0 <= e.1 < 2 ^ 63 /\ e.2 <> 0) (net_edits edits)
  /\ delta_abs (net_edits edits) <= op_weight (BulkEdit edits)
  /\ foldl move_entries es (net_edits edits) = foldl move_entries es (signed_edit <$> edits).
Proof.
  revert es. induction edits as [|[[p del] ins] edits IH]; intros es Hw; [done|].
  assert (0 <= op_weight (BulkEdit edits)) as Hnn.
  { clear. induction edits as [|e edits IH]; simpl in *; lia. }
  assert (op_weight (BulkEdit ((p, del, ins) :: edits))
          = Z.of_nat p + Z.of_nat del + Z.of_nat ins + op_weight (BulkEdit edits)) as Heq by done.
  rw Heq in Hw. rw Heq. clear Heq.
  unfold net_edits. rw !fmap_cons. cbn [List.filter fst snd foldl signed_edit]. rw net_delta_ok; [lia|].
  fold (net_edits edits). destruct (decide (Z.of_nat ins - Z.of_nat del = 0)) as [Hz|Hz].
  - rw bool_decide_true //. cbn [negb]. unfold signed_edit at 1. cbn [fst snd]. rw Hz move_entries_0.
    destruct (IH es) as (? & ? & ?); [lia|]. split; [done|]. split; [lia|done].
  - rw bool_decide_false //. cbn [negb].
    destruct (IH (move_entries es (signed_edit (p, del, ins)))) as (? & ? & Hf); [lia|].
    split; [apply Forall_cons_2; [simpl; lia|done]|]. split; [cbn [delta_abs foldr snd]; fold (delta_abs (net_edits edits)); lia|]. by rw -Hf.
Qed.

(** ** Consecutive ids *)
Lemma fresh_ids_S n k :
  (fun i => n + Z.of_nat i) <$> seq 0 (S k) = n :: ((fun i => n + 1 + Z.of_nat i) <$> seq 0 k).
Proof.
  cbn [seq]. rw fmap_cons Z.add_0_r. f_equal. rw -fmap_S_seq -list_fmap_compose.
  apply list_fmap_ext. intros. simpl. lia.
Qed.

Lemma length_overlay_intervals rs : length (overlay_intervals rs) = (3 * length rs)%nat.
Proof.
  unfold overlay_intervals. induction rs as [|r rs IH]; [done|].
  rw fmap_cons. cbn [concat]. rw length_app IH. simpl length. lia.
Qed.

(** The affinities of a map of entries: [true] for left gravity. *)
Definition affinities (es : gmap Z Entry) : gmap Z bool := (fun x : Entry => negb x.2) <$> es.

Lemma affinities_insert_entries n ivs es :
  affinities (insert_entries n ivs es)
  = foldl (fun a id => <[id := false]> a) (affinities es)
      ((fun i => n + Z.of_nat i) <$> seq 0 (length ivs)).
Proof.
  revert n es. induction ivs as [|iv ivs IH]; intros n es; [done|].
  cbn [insert_entries length]. rw fresh_ids_S IH. cbn [foldl]. f_equal.
  unfold affinities. by rw fmap_insert.
Qed.

Lemma overlay_ids_affinity n (rs : list (nat * nat)) a :
  (overlay_ids ((fun i => n + Z.of_nat i) <$> seq 0 (3 * length rs)) a).1
  = foldl (fun a id => <[id := false]> a) a ((fun i => n + Z.of_nat i) <$> seq 0 (3 * length rs)).
Proof.
  revert n a. induction rs as [|r rs IH]; intros n a; [done|].
  replace (3 * length (r :: rs))%nat with (S (S (S (3 * length rs)))) by (simpl; lia).
  rw !fresh_ids_S. cbn [overlay_ids foldl].
  rw -IH. by destruct (overlay_ids _ _).
Qed.

Lemma affinities_move es e : affinities (move_entries es e) = affinities es.
Proof. unfold affinities, move_entries. by rw -map_fmap_compose. Qed.

Lemma affinities_moves es edits : affinities (foldl move_entries es edits) = affinities es.
Proof.
  revert es. induction edits as [|e edits IH]; intros es; [done|]. simpl. by rw IH affinities_move.
Qed.

Lemma affinities_alter es id s : affinities (alter (fun x => (s, x.2)) id es) = affinities es.
Proof.
  apply map_eq. intros j. unfold affinities. rw !lookup_fmap.
  destruct (decide (id = j)) as [->|?]; [|by rw lookup_alter_ne].
  rw lookup_alter_eq. by destruct (es !! j).
Qed.

Section laws.
Context {T : Type} `{MarkerStoreLaws T}.

(** The list holds the entries [es] under ids below [n], positions up to [w]. *)
Definition list_represents (ml : MarkerList T) (w n : Z) (es : gmap Z Entry) : Prop :=
  represents (ml_tree ml) w n es /\ 0 <= n <= w /\ affinity_map ml = affinities es.

Lemma adjust_tree_ok ml w n es pos delta :
  list_represents ml w n es -> 0 <= pos < 2 ^ 63 -> - 2 ^ 63 <= delta -> w + Z.abs delta < 2 ^ 63 ->
  exists ml', adjust_tree ml pos delta = Ok ml'
    /\ list_represents ml' (w + Z.abs delta) n (move_entries es (pos, delta)).
Proof.
  intros (Hr & Hn & Ha) Hpos Hd Hw. unfold adjust_tree.
  destruct (st_adjust_for_edit_ok _ _ _ _ pos delta Hr) as (t' & -> & Hr'); [lia..|].
  eexists. split; [done|]. split; [|split; [lia|]].
  - apply (represents_mono _ _ _ _ _ Hr'). lia.
  - simpl. by rw affinities_move.
Qed.

Lemma adjust_each_ok ml w n es net :
  list_represents ml w n es -> Forall (fun e => 0 <= e.1 < 2 ^ 63 /\ e.2 <> 0) net ->
  w + delta_abs net < 2 ^ 63 ->
  exists ml', adjust_each ml net = Ok ml'
    /\ list_represents ml' (w + delta_abs net) n (foldl move_entries es net).
Proof.
  intros Hr Hnet. revert ml w es Hr.
  induction Hnet as [|[pos delta] net [Hpos _] Hnet IH]; intros ml w es Hr Hw; cbn [adjust_each foldl].
  { exists ml. split; [done|]. simpl. by rw Z.add_0_r. }
  assert (0 <= delta_abs net) as Habs by (clear; induction net; simpl; lia).
  cbn [delta_abs foldr snd] in Hw |- *. fold (delta_abs net) in Hw |- *.
  pose proof Hr as (_ & Hn & _).
  destruct (adjust_tree_ok ml w n es pos delta Hr) as (ml1 & -> & Hr1); [simpl in *; lia..|].
  simpl. rw Z.add_assoc. apply IH; [done|lia].
Qed.

Lemma bulk_edits_ok ml w n es edits :
  list_represents ml w n es -> edits_ok edits -> w + op_weight (BulkEdit edits) < 2 ^ 63 ->
  exists ml', ml_adjust_for_bulk_edits ml edits = Ok ml'
    /\ list_represents ml' (w + op_weight (BulkEdit edits)) n
         (foldl move_entries es (signed_edit <$> edits)).
Proof.
  intros Hr Hok Hw. pose proof Hr as (Ht & Hn & Ha).
  destruct (net_edits_ok edits es) as (Hnet & Habs & Hf); [lia|].
  assert (exists ml', ml_adjust_for_bulk_edits ml edits = Ok ml'
    /\ list_represents ml' (w + delta_abs (net_edits edits)) n (foldl move_entries es (net_edits edits)))
    as (ml' & Hb & Hr' & Hn' & Ha').
  { unfold ml_adjust_for_bulk_edits.
    destruct (_ && negb (has_repeated_position _)) eqn:Hbatch; [|apply adjust_each_ok; [done|done|lia]].
    apply andb_true_iff in Hbatch as [_ Hrep%negb_true_iff].
    destruct (st_adjust_for_bulk_edits_ok _ _ _ _ (net_edits edits) Ht) as (t' & -> & Ht');
      [by apply Hok, has_repeated_position_NoDup|done|lia|].
    eexists. split; [done|]. split; [done|]. simpl. rw affinities_moves. split; [|done].
    assert (0 <= delta_abs (net_edits edits)) by (clear; induction (net_edits edits); simpl; lia). lia. }
  exists ml'. split; [done|]. rw -Hf. split; [|split; [lia|done]].
  apply (represents_mono _ _ _ _ _ Hr'). lia.
Qed.

Lemma list_represents_mono ml w w' n es :
  list_represents ml w n es -> w <= w' -> list_represents ml w' n es.
Proof.
  intros (Hr & Hn & Ha) Hw. split; [|split; [lia|done]]. exact (represents_mono _ _ _ _ _ Hr Hw).
Qed.

(** Any of the single creations: [op] is the store's insertion. *)
Lemma list_represents_created (tree : T) ml w n es s rg k :
  list_represents ml w n es -> 0 < k -> represents tree (w + k) (n + 1) (<[n := (s, rg)]> es) ->
  list_represents (mkMarkerList tree (<[n := negb rg]> (affinity_map ml))) (w + k) (n + 1)
    (<[n := (s, rg)]> es).
Proof.
  intros (_ & Hn & Ha) Hk Hr. split; [done|]. split; [lia|]. simpl. rw Ha. unfold affinities.
  by rw fmap_insert.
Qed.

Lemma overlay_intervals_bounds rs w :
  0 <= w -> Forall (fun iv => 0 <= iv.1 <= iv.2 /\ iv.2 <= w + op_weight (CreateOverlays rs))
    (overlay_intervals rs) /\ 3 * Z.of_nat (length rs) <= op_weight (CreateOverlays rs).
Proof.
  intros Hw. induction rs as [|[a b] rs [IH1 IH2]]; [split; [constructor|done]|].
  assert (op_weight (CreateOverlays ((a, b) :: rs))
          = Z.of_nat a + Z.of_nat b + 3 + op_weight (CreateOverlays rs)) as -> by done.
  split; [|simpl length; lia]. unfold overlay_intervals. rw fmap_cons. cbn [concat].
  apply Forall_app. split.
  - repeat apply Forall_cons_2; simpl fst; simpl snd; try lia. constructor.
  - eapply Forall_impl; [exact IH1|]. simpl. lia.
Qed.

Lemma create_overlays_ok ml w n es rs :
  list_represents ml w n es -> w + op_weight (CreateOverlays rs) < 2 ^ 63 ->
  exists ml', list_op ml (CreateOverlays rs) = Ok ml'
    /\ list_represents ml' (w + op_weight (CreateOverlays rs)) (n + 3 * Z.of_nat (length rs))
         (insert_entries n (overlay_intervals rs) es).
Proof.
  intros (Hr & Hn & Ha) Hw. unfold list_op, create_overlay_markers_bulk.
  destruct (overlay_intervals_bounds rs w) as [Hiv Hlen]; [lia|].
  pose proof (length_overlay_intervals rs) as Hl.
  destruct (st_insert_many_ok (ml_tree ml) (w + op_weight (CreateOverlays rs)) n es
              (overlay_intervals rs)) as (t' & -> & Hr'); [|done|lia|lia|].
  { apply (represents_mono _ _ _ _ _ Hr). lia. }
  cbn [mbind res_bind]. pose proof (overlay_ids_affinity n rs (affinity_map ml)) as Hids.
  pose proof (affinities_insert_entries n (overlay_intervals rs) es) as Haff.
  rw Hl in Haff. rw Hl in Hr'. rw Hl.
  destruct (overlay_ids _ _) as [a out]. simpl in Hids. cbn [mbind res_bind].
  eexists. split; [done|]. split; [|split; [lia|]].
  - replace (n + 3 * Z.of_nat (length rs)) with (n + Z.of_nat (3 * length rs)) by lia. done.
  - simpl. by rw Haff -Ha Hids.
Qed.

Lemma insert_text_ok ml w n es p len :
  list_represents ml w n es -> w + (Z.of_nat p + Z.of_nat len) < 2 ^ 63 ->
  exists ml', adjust_for_insert ml p len = Ok ml'
    /\ list_represents ml' (w + (Z.of_nat p + Z.of_nat len)) n
         (move_entries es (Z.of_nat p, Z.of_nat len)).
Proof.
  intros Hrep Hw. pose proof Hrep as (_ & Hn & _). unfold adjust_for_insert. case_decide as Hlen.
  { exists ml. subst. rw move_entries_0. split; [done|]. apply (list_represents_mono _ _ _ _ _ Hrep). lia. }
  rw to_i64_small; [lia|].
  destruct (adjust_tree_ok ml w n es (Z.of_nat p) (Z.of_nat len) Hrep) as (ml' & -> & Hr'); [lia..|].
  exists ml'. split; [done|]. apply (list_represents_mono _ _ _ _ _ Hr'). lia.
Qed.

Lemma delete_text_ok ml w n es p len :
  list_represents ml w n es -> w + (Z.of_nat p + Z.of_nat len) < 2 ^ 63 ->
  exists ml', adjust_for_delete ml p len = Ok ml'
    /\ list_represents ml' (w + (Z.of_nat p + Z.of_nat len)) n
         (move_entries es (Z.of_nat p, - Z.of_nat len)).
Proof.
  intros Hrep Hw. pose proof Hrep as (_ & Hn & _). unfold adjust_for_delete. case_decide as Hlen.
  { exists ml. subst. change (- Z.of_nat 0) with 0. rw move_entries_0. split; [done|].
    apply (list_represents_mono _ _ _ _ _ Hrep). lia. }
  rw (to_i64_small (Z.of_nat len)); [lia|]. rw to_i64_id; [lia|].
  destruct (adjust_tree_ok ml w n es (Z.of_nat p) (- Z.of_nat len) Hrep) as (ml' & -> & Hr'); [lia..|].
  exists ml'. split; [done|]. apply (list_represents_mono _ _ _ _ _ Hr'). lia.
Qed.

(** Every operation of the list does what it does on the map. *)
Lemma list_op_refines ml w n es op :
  list_represents ml w n es -> list_op_ok op -> w + op_weight op < 2 ^ 63 ->
  exists ml', list_op ml op = Ok ml'
    /\ list_represents ml' (w + op_weight op) (spec_op (n, es) op).1 (spec_op (n, es) op).2.
Proof.
  intros Hrep Hok Hw. pose proof Hrep as (Hr & Hn & Ha).
  assert (forall k, 0 <= k -> represents (ml_tree ml) (w + k) n es) as Hmono.
  { intros k Hk. apply (represents_mono _ _ _ _ _ Hr). lia. }
  destruct op as [p|p|p o lg|s e|rs|id|id p|p len|p len|edits]; cbn [op_weight spec_op fst snd] in *.
  - unfold list_op, create.
    destruct (st_insert_ok _ (w + (Z.of_nat p + 1)) n es (Z.of_nat p) (Z.of_nat p)
                (Hmono (Z.of_nat p + 1) ltac:(lia)))
      as (t' & -> & Hr'); [lia..|]. eexists. split; [done|].
    apply (list_represents_created t' ml w n es _ true); [done|lia|exact Hr'].
  - unfold list_op, create_left_gravity.
    destruct (st_insert_left_gravity_ok _ (w + (Z.of_nat p + 1)) n es (Z.of_nat p) (Z.of_nat p)
                (Hmono (Z.of_nat p + 1) ltac:(lia))) as (t' & -> & Hr'); [lia..|]. eexists. split; [done|].
    apply (list_represents_created t' ml w n es _ false); [done|lia|exact Hr'].
  - unfold list_op, create_ordered.
    destruct (st_insert_ordered_ok _ (w + (Z.of_nat p + 1)) n es (Z.of_nat p) (Z.of_nat p) o (negb lg)
                (Hmono (Z.of_nat p + 1) ltac:(lia))) as (t' & -> & Hr'); [lia..|]. eexists. split; [done|].
    rw -{1}(negb_involutive lg).
    apply (list_represents_created t' ml w n es _ (negb lg)); [done|lia|exact Hr'].
  - unfold list_op, create_span.
    destruct (st_insert_ok _ (w + (Z.of_nat s + Z.of_nat e + 1)) n es (Z.of_nat s) (Z.of_nat (Nat.max e s))
                (Hmono (Z.of_nat s + Z.of_nat e + 1) ltac:(lia))) as (t' & -> & Hr'); [lia..|]. eexists. split; [done|].
    apply (list_represents_created t' ml w n es _ true); [done|lia|exact Hr'].
  - by apply create_overlays_ok.
  - unfold list_op, ml_delete. destruct (st_delete_ok _ w n es id Hr) as (t' & -> & Hr').
    eexists. split; [done|]. rw Z.add_0_r. split; [done|]. split; [done|]. simpl. rw Ha.
    unfold affinities. by rw fmap_delete.
  - unfold list_op, ml_set_position.
    destruct (st_set_position_ok _ (w + Z.of_nat p) n es id (Z.of_nat p) (Z.of_nat p) (Hmono (Z.of_nat p) ltac:(lia)))
      as (t' & -> & Hr'); [lia..|].
    eexists. split; [done|]. split; [done|]. split; [lia|]. simpl. by rw affinities_alter.
  - exact (insert_text_ok ml w n es p len Hrep Hw).
  - exact (delete_text_ok ml w n es p len Hrep Hw).
  - by apply bulk_edits_ok.
Qed.

Lemma op_weight_nonneg op : 0 <= op_weight op.
Proof.
  destruct op; simpl; try lia.
  - induction ranges as [|r rs IH]; simpl; lia.
  - induction edits as [|e es IH]; simpl; lia.
Qed.

Lemma list_session_refines ml w n es ops :
  list_represents ml w n es -> Forall list_op_ok ops -> w + session_weight ops < 2 ^ 63 ->
  exists ml', list_session ml ops = Ok ml'
    /\ list_represents ml' (w + session_weight ops) (foldl spec_op (n, es) ops).1
         (foldl spec_op (n, es) ops).2.
Proof.
  intros Hr Hops. revert ml w n es Hr.
  induction Hops as [|op ops Hop _ IH]; intros ml w n es Hr Hw; cbn [list_session foldl].
  { exists ml. split; [done|]. simpl. by rw Z.add_0_r. }
  cbn [session_weight foldr] in Hw |- *. fold (session_weight ops) in Hw |- *.
  assert (0 <= session_weight ops) as Hnn.
  { clear. induction ops as [|op ops IH]; simpl; [done|]. pose proof (op_weight_nonneg op).
    fold (session_weight ops). lia. }
  destruct (list_op_refines ml w n es op Hr Hop) as (ml1 & -> & Hr1); [lia|].
  destruct (spec_op (n, es) op) as [n1 es1]. simpl in Hr1 |- *. rw Z.add_assoc. apply IH; [done|lia].
Qed.

Lemma size_filter_split (P Q : Z -> Prop) `{forall z, Decision (P z), forall z, Decision (Q z)}
    (es : gmap Z Entry) :
  (forall z, P z -> Q z) ->
  size (filter (fun x : Z * Entry => Q x.2.1) es)
  = (size (filter (fun x : Z * Entry => P x.2.1) es)
     + size (filter (fun x : Z * Entry => ~ P x.2.1 /\ Q x.2.1) es))%nat.
Proof.
  intros HPQ. set (m := filter _ es) at 1.
  rw -{1}(map_filter_union_complement (fun x : Z * Entry => P x.2.1) m).
  rw map_size_disj_union; [apply map_disjoint_filter_complement|]. unfold m.
  rw !map_filter_filter. do 2 f_equal; apply map_filter_ext; simpl; intuition.
Qed.

(** What the queries of a list that represents a map answer. *)
Lemma list_represents_queries ml w n es :
  list_represents ml w n es ->
  (forall id, ml_get_position ml id = (fun x => Z.to_nat x.1) <$> es !! id)
  /\ ml_len ml = size es /\ marker_count ml = size es
  /\ (forall s e, (s <= e)%nat ->
       count_in ml s e = size (filter (fun x => Z.of_nat s <= x.2.1 < Z.of_nat e) es)).
Proof.
  intros (Hr & _ & Ha). split; [|split; [exact (st_len_ok _ _ _ _ Hr)|split]].
  - intros id. pose proof (st_get_position_ok _ _ _ _ id Hr) as Hg. unfold ml_get_position.
    destruct (st_get_position (ml_tree ml) id) as [[s e]|], (es !! id) as [[s' rg]|]; simpl in *; by simplify_eq.
  - unfold marker_count. rw Ha. apply map_size_fmap.
  - intros s e Hse. unfold count_in, ml_count_before. rw !(st_count_before_ok _ _ _ _ _ Hr).
    pose proof (size_filter_split (fun z => z < Z.of_nat s) (fun z => z < Z.of_nat e) es) as Hsp.
    cbn beta in Hsp. rw Hsp; [lia|].
    rw Nat.add_comm Nat.add_sub. f_equal. apply map_filter_ext. simpl. lia.
Qed.
End laws.

(** ** One edit at a time *)
Definition per_edit (e : LenEdit) : ListOp :=
  let '(pos, del, ins) := e in
  if decide (del <= ins)%nat then InsertText pos (ins - del) else DeleteText pos (del - ins).

Lemma per_edits_weight edits sp :
  Forall list_op_ok (per_edit <$> edits)
  /\ session_weight (per_edit <$> edits) <= op_weight (BulkEdit edits)
  /\ foldl spec_op sp (per_edit <$> edits) = (sp.1, foldl move_entries sp.2 (signed_edit <$> edits)).
Proof.
  revert sp. induction edits as [|[[p del] ins] edits IH]; intros [n es]; [done|].
  assert (op_weight (BulkEdit ((p, del, ins) :: edits))
          = Z.of_nat p + Z.of_nat del + Z.of_nat ins + op_weight (BulkEdit edits)) as -> by done.
  rw !fmap_cons. cbn [session_weight foldr foldl]. fold (session_weight (per_edit <$> edits)).
  assert (spec_op (n, es) (per_edit (p, del, ins)) = (n, move_entries es (signed_edit (p, del, ins)))
    /\ list_op_ok (per_edit (p, del, ins))
    /\ op_weight (per_edit (p, del, ins)) <= Z.of_nat p + Z.of_nat del + Z.of_nat ins)
    as (-> & Hok & Hw).
  { unfold per_edit, signed_edit. case_decide; simpl; (split; [do 3 f_equal; lia|split; [done|lia]]). }
  destruct (IH (n, move_entries es (signed_edit (p, del, ins)))) as (IH1 & IH2 & IH3).
  split; [by apply Forall_cons_2|]. split; [lia|]. exact IH3.
Qed.

(** ** Properties *)

(** C31: over any session that stays in the range of [i64], starting from an empty list on the
    interval tree, in which the edits of each bulk edit are given from the highest position
    down with deletions that do not overlap (or two of them share a position, which the code
    handles one by one), no operation panics and the list is the map from ids to
    positions that the same operations make: positions looked up, the number of markers
    (by the tree and by the affinities) and the number in a range are those of the map. *)
Theorem marker_list_refines (ops : list ListOp) :
  Forall list_op_ok ops -> session_weight ops < 2 ^ 63 ->
  let es := (foldl spec_op (0, ∅) ops).2 in
  exists ml : MarkerList IntervalTree, list_session ml_new ops = Ok ml
    /\ (forall id, ml_get_position ml id = (fun x => Z.to_nat x.1) <$> es !! id)
    /\ ml_len ml = size es /\ marker_count ml = size es
    /\ (forall s e, (s <= e)%nat ->
         count_in ml s e = size (filter (fun x => Z.of_nat s <= x.2.1 < Z.of_nat e) es)).
Proof.
  intros Hops Hw. cbv zeta.
  destruct (list_session_refines (ml_new (T := IntervalTree)) 0 0 ∅ ops) as (ml & Hrun & Hr); [|done|done|].
  - split; [apply represents_new|]. split; [lia|]. simpl. unfold affinities. by rw fmap_empty.
  - exists ml. split; [done|]. exact (list_represents_queries _ _ _ _ Hr).
Qed.

(** Adjusting for a batch of edits, whichever path it takes, gives every marker the
    position that adjusting for the edits one at a time, in the order given, does. *)
Theorem bulk_adjust_matches_per_edit (ml : MarkerList IntervalTree) w n es edits :
  list_represents ml w n es -> edits_ok edits -> w + op_weight (BulkEdit edits) < 2 ^ 63 ->
  exists ml1 ml2, ml_adjust_for_bulk_edits ml edits = Ok ml1
    /\ list_session ml (per_edit <$> edits) = Ok ml2
    /\ (forall id, ml_get_position ml1 id = ml_get_position ml2 id).
Proof.
  intros Hr Hok Hw.
  destruct (bulk_edits_ok ml w n es edits Hr Hok Hw) as (ml1 & H1 & Hr1).
  destruct (per_edits_weight edits (n, es)) as (Hops & Hw2 & Hspec).
  destruct (list_session_refines ml w n es (per_edit <$> edits) Hr Hops) as (ml2 & H2 & Hr2); [lia|].
  exists ml1, ml2. split; [done|]. split; [done|]. intros id.
  destruct (list_represents_queries _ _ _ _ Hr1) as (-> & _).
  destruct (list_represents_queries _ _ _ _ Hr2) as (-> & _). by rw Hspec.
Qed.

(** ** Witnesses *)
Definition demo_session : list ListOp :=
  [Create 10; CreateLeftGravity 10; CreateSpan 5 30; CreateOverlays [(12, 20)%nat];
   InsertText 10 4; SetPosition 3 100; Delete 0; BulkEdit [(40, 0, 3)%nat; (12, 5, 1)%nat]].

Lemma marker_list_refines_witness :
  let es := (foldl spec_op (0, ∅) demo_session).2 in
  exists ml : MarkerList IntervalTree, list_session ml_new demo_session = Ok ml
    /\ (forall id, ml_get_position ml id = (fun x => Z.to_nat x.1) <$> es !! id)
    /\ ml_len ml = size es /\ marker_count ml = size es
    /\ (forall s e, (s <= e)%nat ->
         count_in ml s e = size (filter (fun x => Z.of_nat s <= x.2.1 < Z.of_nat e) es)).
Proof.
  apply (marker_list_refines demo_session).
  - repeat apply Forall_cons_2; try apply Forall_nil_2; try exact I.
    intros _. apply (bool_decide_unpack _). vm_compute. exact I.
  - vm_compute. reflexivity.
Defined.

Definition demo_list : MarkerList IntervalTree :=
  match list_session ml_new [Create 10; CreateLeftGravity 12; Create 50] with
  | Ok ml => ml
  | Panic => ml_new
  end.

Lemma bulk_adjust_matches_per_edit_witness :
  exists ml1 ml2, ml_adjust_for_bulk_edits demo_list [(40, 0, 3)%nat; (12, 5, 1)%nat] = Ok ml1
    /\ list_session demo_list [InsertText 40 3; DeleteText 12 4] = Ok ml2
    /\ (forall id, ml_get_position ml1 id = ml_get_position ml2 id).
Proof.
  apply (bulk_adjust_matches_per_edit demo_list 50 3 (entries (contents (ml_tree demo_list)))
           [(40, 0, 3)%nat; (12, 5, 1)%nat]).
  - split; [split; [apply it_inv_b_sound; vm_compute; reflexivity|]|].
    + split; [vm_compute; reflexivity|]. split; [lia|]. split; [lia|]. split; [|done].
      unfold proper. apply (bool_decide_unpack _). vm_compute. exact I.
    + split; [lia|]. apply (bool_decide_unpack _). vm_compute. exact I.
  - intros _. apply (bool_decide_unpack _). vm_compute. exact I.
  - vm_compute. reflexivity.
Defined.
