(* ===== verification/CoordMap.v ===== *)
(** * The coordinate map

    Models crates/fresh-editor-core/src/model/coord_map.rs: a bounded ring of the
    last edits, by which a byte coordinate captured at an older buffer version is
    mapped to the current one.

    The ring forgets edits and may be told that a change cannot be replayed.  The
    specification is the unbounded history of everything recorded: an answer the
    ring gives is the one the whole history gives.  Each edit shifts a coordinate
    the way the marker tree shifts a right-gravity marker. *)
From stdpp Require Import base numbers list option gmap.
From Stdlib Require Import ssreflect.
From S2P Require Import Prelude MarkerTree MarkerTreeEdit.

Record EditDelta : Type := mkEditDelta {
  d_version : nat; d_pos : nat; removed : nat; inserted : nat
}.

Definition DEFAULT_CAP : nat := 1024.

Record CoordMap : Type := mkCoordMap {
  deltas : list EditDelta;
  min_mappable : nat;
  cap : nat;
}.

Definition coord_map_new (cap : nat) : CoordMap := mkCoordMap [] 0 (Nat.max cap 1).

(** [while self.deltas.len() > self.cap { pop_front .. }] *)
Fixpoint evict (deltas : list EditDelta) (min_mappable cap : nat) : list EditDelta * nat :=
  match deltas with
  | evicted :: rest =>
      if decide (cap < length deltas)
      then evict rest (Nat.max min_mappable (d_version evicted)) cap
      else (deltas, min_mappable)
  | [] => ([], min_mappable)
  end.

Definition push (m : CoordMap) (delta : EditDelta) : CoordMap :=
  if decide (removed delta = 0 /\ inserted delta = 0) then m else
  let '(ds, floor) := evict (deltas m ++ [delta]) (min_mappable m) (cap m) in
  mkCoordMap ds floor (cap m).

Definition record_insert (m : CoordMap) (version pos len : nat) : CoordMap :=
  push m (mkEditDelta version pos 0 len).

Definition record_delete (m : CoordMap) (version pos len : nat) : CoordMap :=
  push m (mkEditDelta version pos len 0).

Definition record_replace (m : CoordMap) (version pos removed inserted : nat) : CoordMap :=
  push m (mkEditDelta version pos removed inserted).

Definition record_barrier (m : CoordMap) (version : nat) : CoordMap :=
  mkCoordMap (deltas m) (Nat.max (min_mappable m) version) (cap m).

Definition apply_delta (coord pos removed inserted : nat) : nat :=
  let '(removed, inserted) :=
    (if decide (0 < removed /\ 0 < inserted) then
       if decide (removed <= inserted) then (0, inserted - removed) else (removed - inserted, 0)
     else (removed, inserted)) in
  let c := if decide (0 < removed) then
             let end_ := pos + removed in
             if decide (end_ <= coord) then coord - removed
             else if decide (pos < coord) then pos else coord
           else coord in
  if decide (0 < inserted /\ pos <= c) then c + inserted else c.

(** The loop of [map]. *)
Definition replay (from_version : nat) (ds : list EditDelta) (coord : nat) : nat :=
  foldl (fun c d => if decide (d_version d <= from_version) then c
                    else apply_delta c (d_pos d) (removed d) (inserted d)) coord ds.

Definition coord_map (m : CoordMap) (coord from_version : nat) : option nat :=
  if decide (from_version < min_mappable m) then None
  else Some (replay from_version (deltas m) coord).

(** ** Histories *)

(** What the callers record. *)
Inductive Event : Type :=
| Edit (d : EditDelta)
| Barrier (version : nat).

Definition record (m : CoordMap) (e : Event) : CoordMap :=
  match e with
  | Edit d => record_replace m (d_version d) (d_pos d) (removed d) (inserted d)
  | Barrier v => record_barrier m v
  end.

Definition record_all (cap : nat) (h : list Event) : CoordMap :=
  foldl record (coord_map_new cap) h.

Definition edits_of (h : list Event) : list EditDelta :=
  omap (fun e => match e with Edit d => Some d | Barrier _ => None end) h.

Definition barriers_of (h : list Event) : list nat :=
  omap (fun e => match e with Edit _ => None | Barrier v => Some v end) h.

(** The ring against the history: the retained edits are a suffix of the history
    of edits (empty ones apart), every forgotten edit and every barrier is at or
    below the floor, and the floor is one of them or zero. *)
Record ring_inv (m : CoordMap) (h : list Event) : Prop := {
  ring_suffix : exists old,
    filter (fun d => ~ (removed d = 0 /\ inserted d = 0)) (edits_of h) = old ++ deltas m
    /\ Forall (fun d => d_version d <= min_mappable m) old
    /\ (min_mappable m = 0 \/ min_mappable m ∈ d_version <$> old
        \/ min_mappable m ∈ barriers_of h);
  ring_barriers : Forall (fun v => v <= min_mappable m) (barriers_of h);
  ring_cap : length (deltas m) <= cap m;
}.

Lemma evict_ok ds floor cap :
  exists gone, ds = gone ++ (evict ds floor cap).1
    /\ floor <= (evict ds floor cap).2
    /\ Forall (fun d => d_version d <= (evict ds floor cap).2) gone
    /\ ((evict ds floor cap).2 = floor \/ (evict ds floor cap).2 ∈ d_version <$> gone)
    /\ length (evict ds floor cap).1 <= cap.
Proof.
  revert floor. induction ds as [|d ds IH]; intros floor; cbn [evict].
  { exists []. cbn. split_and!; [done|lia|done|by left|lia]. }
  case_decide as Hc.
  - destruct (IH (Nat.max floor (d_version d))) as (gone & Heq & Hle & Hf & Hm & Hlen).
    exists (d :: gone). cbn [app]. split_and!; [by f_equal|lia| | |done].
    + apply Forall_cons_2; [lia|done].
    + rw fmap_cons elem_of_cons. destruct Hm as [Hm|Hm]; [|auto]. rw Hm.
      destruct (Nat.max_spec floor (d_version d)) as [[_ ->]|[_ ->]]; auto.
  - exists []. cbn. split_and!; [done|lia|done|by left|simpl in Hc; lia].
Qed.

Lemma push_ok m h d :
  ring_inv m h ->
  ring_inv (push m d) (h ++ [Edit d]).
Proof.
  intros [(old & Hsuf & Hold & Hmin) Hbar Hcap]. unfold push.
  assert (edits_of (h ++ [Edit d]) = edits_of h ++ [d]) as He by (unfold edits_of; by rw omap_app).
  assert (barriers_of (h ++ [Edit d]) = barriers_of h) as Hb.
  { unfold barriers_of. rw omap_app /=. by rw app_nil_r. }
  case_decide as Hz.
  { split; rw ?Hb; [|done|done]. exists old. rw He filter_app filter_cons_False ?app_nil_r //. }
  destruct (evict_ok (deltas m ++ [d]) (min_mappable m) (cap m)) as (gone & Heq & Hle & Hf & Hm & Hlen).
  destruct (evict (deltas m ++ [d]) (min_mappable m) (cap m)) as [ds floor]. simpl in *.
  split; simpl; rw ?Hb; [|eapply Forall_impl; [exact Hbar|simpl; lia]|done].
  exists (old ++ gone). rw He filter_app Hsuf filter_cons_True // -app_assoc Heq -app_assoc.
  split_and!; [done| |].
  - apply Forall_app. split; [|done]. eapply Forall_impl; [exact Hold|simpl; lia].
  - rw fmap_app elem_of_app. destruct Hm as [->|?]; [|auto].
    destruct Hmin as [?|[?|?]]; auto.
Qed.

Lemma record_ok m h e : ring_inv m h -> ring_inv (record m e) (h ++ [e]).
Proof.
  destruct e as [d|v]; simpl.
  { destruct d. apply push_ok. }
  intros [(old & Hsuf & Hold & Hmin) Hbar Hcap]. unfold record_barrier.
  assert (edits_of (h ++ [Barrier v]) = edits_of h) as He.
  { unfold edits_of. rw omap_app /=. by rw app_nil_r. }
  assert (barriers_of (h ++ [Barrier v]) = barriers_of h ++ [v]) as Hb by (unfold barriers_of; by rw omap_app).
  split; simpl; rw ?He ?Hb; [|apply Forall_app; split|done].
  - exists old. split_and!; [done| |].
    + eapply Forall_impl; [exact Hold|simpl; lia].
    + rw elem_of_app list_elem_of_singleton.
      destruct (Nat.max_spec (min_mappable m) v) as [[? ->]|[? ->]]; [auto|]. tauto.
  - eapply Forall_impl; [exact Hbar|simpl; lia].
  - apply Forall_cons_2; [lia|done].
Qed.

Lemma record_all_ok cap h : ring_inv (record_all cap h) h.
Proof.
  unfold record_all. induction h as [|e h IH] using rev_ind.
  - split; [exists []; by split_and!; [..|left]|done|simpl; lia].
  - rw foldl_app. by apply record_ok.
Qed.

Lemma replay_app v ds ds' c : replay v (ds ++ ds') c = replay v ds' (replay v ds c).
Proof. apply foldl_app. Qed.

Lemma replay_old v ds c : Forall (fun d => d_version d <= v) ds -> replay v ds c = c.
Proof. induction 1 as [|d ds Hd _ IH]; [done|]. unfold replay in *. simpl. by rw decide_True. Qed.

(** Edits that change nothing shift nothing. *)
Lemma replay_nonempty v ds c :
  replay v (filter (fun d => ~ (removed d = 0 /\ inserted d = 0)) ds) c = replay v ds c.
Proof.
  revert c. induction ds as [|d ds IH]; intros c; [done|].
  destruct (decide (removed d = 0 /\ inserted d = 0)) as [[Hr Hi]|Hne].
  - rw filter_cons_False; [tauto|]. rw IH. unfold replay. simpl. rw Hr Hi. by case_decide.
  - rw filter_cons_True //. unfold replay in *. simpl. apply IH.
Qed.

Lemma record_all_cap n h : cap (record_all n h) = Nat.max n 1.
Proof.
  unfold record_all. induction h as [|e h IH] using rev_ind; [done|]. rw foldl_app. simpl.
  rw -IH. destruct e as [d|v]; [|done]. simpl. unfold record_replace, push. case_decide; [done|].
  by destruct (evict _ _ _).
Qed.

(** ** Properties *)

(** C34: whatever was recorded and however small the ring, an answer of the ring
    is the coordinate mapped through every edit of the whole history newer than the
    source version, with no barrier among the newer events; it refuses only when an
    edit or a barrier newer than the source version was recorded; and it never
    holds more edits than its capacity. *)
Theorem coord_map_refines n h coord from_version :
  length (deltas (record_all n h)) <= Nat.max n 1
  /\ match coord_map (record_all n h) coord from_version with
     | Some c => c = replay from_version (edits_of h) coord
                 /\ Forall (fun v => v <= from_version) (barriers_of h)
     | None => exists v, from_version < v
                 /\ (v ∈ barriers_of h \/ v ∈ d_version <$> edits_of h)
     end.
Proof.
  destruct (record_all_ok n h) as [(old & Hsuf & Hold & Hmin) Hbar Hcap].
  split; [by rw -(record_all_cap n h)|]. unfold coord_map. case_decide as Hv.
  - exists (min_mappable (record_all n h)). split; [done|].
    destruct Hmin as [?|[Hin|?]]; [lia| |auto]. right.
    apply list_elem_of_fmap in Hin as (d & Hd & Hin). rw Hd. apply list_elem_of_fmap_2.
    assert (d ∈ old ++ deltas (record_all n h)) as Hin' by (apply elem_of_app; auto).
    rw -Hsuf in Hin'. by apply list_elem_of_filter in Hin' as [_ ?].
  - split; [|eapply Forall_impl; [exact Hbar|simpl; lia]].
    rw -(replay_nonempty _ (edits_of h)) Hsuf replay_app (replay_old _ old) //.
    eapply Forall_impl; [exact Hold|simpl; lia].
Qed.

(** One edit shifts a coordinate exactly as the marker tree shifts a
    right-gravity point marker there, a replacement counting as its net change. *)
Theorem apply_delta_moves_like_marker coord pos removed inserted :
  Z.of_nat (apply_delta coord pos removed inserted)
  = moved_start (mkMarker 0 (mkInterval (Z.of_nat coord) (Z.of_nat coord)) Position true 0)
      (Z.of_nat pos) (Z.of_nat inserted - Z.of_nat removed).
Proof.
  unfold apply_delta, moved_start, m_start. simpl.
  destruct (decide (0 < removed /\ 0 < inserted)); [destruct (decide (removed <= inserted))|];
    repeat case_decide; simpl; intuition lia.
Qed.
