(* ===== verification/Cursor.v ===== *)
(** * Cursors

    Models crates/fresh-editor-core/src/model/cursor.rs: one cursor with its
    selections, and the collection of cursors of a view.

    The collection is a [HashMap], a finite map.  The order in which a [HashMap]
    visits its entries is unspecified: it is the parameter [iter], any enumeration
    of the entries.  [expect] on a missing entry is [Panic]. *)
From stdpp Require Import base numbers list option sorting gmap.
From Stdlib Require Import ssreflect Strings.Byte.
From S2P Require Import Prelude TextSpec.

Inductive SelectionMode : Type := Normal | Block.

Record Position2D : Type := mkPosition2D { p_line : nat; p_column : nat }.

Record Cursor : Type := mkCursor {
  position : nat;
  anchor : option nat;
  sticky_column : option nat;
  selection_mode : SelectionMode;
  block_anchor : option Position2D;
  deselect_on_move : bool;
  virtual_lines_below : nat;
}.

#[export] Instance SelectionMode_eq_dec : EqDecision SelectionMode.
Proof. solve_decision. Defined.
#[export] Instance Position2D_eq_dec : EqDecision Position2D.
Proof. solve_decision. Defined.
#[export] Instance Cursor_eq_dec : EqDecision Cursor.
Proof. solve_decision. Defined.

(** ** One cursor *)
Definition cursor_new (position : nat) : Cursor :=
  mkCursor position None None Normal None true 0.

Definition with_selection (start end_ : nat) : Cursor :=
  mkCursor end_ (Some start) None Normal None true 0.

Definition collapsed (c : Cursor) : bool :=
  bool_decide (anchor c = None) && bool_decide (block_anchor c = None).

Definition selection_range (c : Cursor) : option (nat * nat) :=
  (fun a => if decide (a < position c) then (a, position c) else (position c, a)) <$> anchor c.

Definition has_block_selection (c : Cursor) : bool :=
  bool_decide (selection_mode c = Block) && bool_decide (is_Some (block_anchor c)).

Definition selection_start (c : Cursor) : nat :=
  match anchor c with Some a => Nat.min a (position c) | None => position c end.

Definition selection_end (c : Cursor) : nat :=
  match anchor c with Some a => Nat.max a (position c) | None => position c end.

Definition clear_selection (c : Cursor) : Cursor :=
  mkCursor (position c) None (sticky_column c) Normal None (deselect_on_move c)
    (virtual_lines_below c).

Definition set_anchor (c : Cursor) (a : nat) : Cursor :=
  mkCursor (position c) (Some a) (sticky_column c) (selection_mode c) (block_anchor c)
    (deselect_on_move c) (virtual_lines_below c).

Definition start_block_selection (c : Cursor) (line column : nat) : Cursor :=
  mkCursor (position c) (anchor c) (sticky_column c) Block (Some (mkPosition2D line column))
    (deselect_on_move c) (virtual_lines_below c).

Definition clear_block_selection (c : Cursor) : Cursor :=
  mkCursor (position c) (anchor c) (sticky_column c) Normal None (deselect_on_move c)
    (virtual_lines_below c).

Definition move_to (c : Cursor) (pos : nat) (extend_selection : bool) : Cursor :=
  let '(a, mode, block) :=
    (if extend_selection then
       (match anchor c with None => Some (position c) | Some a => Some a end,
        selection_mode c, block_anchor c)
     else if decide (selection_mode c = Block) then (None, Normal, None)
     else (None, selection_mode c, block_anchor c)) in
  mkCursor pos a (sticky_column c) mode block (deselect_on_move c) (virtual_lines_below c).

(** The new value of a position or an anchor. *)
Definition adjust_offset (offset edit_pos old_len new_len : nat) : nat :=
  let delta := (Z.of_nat new_len - Z.of_nat old_len)%Z in
  if decide (edit_pos <= offset) then
    if decide (edit_pos + old_len <= offset) then Z.to_nat (Z.max (Z.of_nat offset + delta) 0)
    else edit_pos + new_len
  else offset.

Definition adjust_for_edit (c : Cursor) (edit_pos old_len new_len : nat) : Cursor :=
  mkCursor (adjust_offset (position c) edit_pos old_len new_len)
    ((fun a => adjust_offset a edit_pos old_len new_len) <$> anchor c)
    (sticky_column c) (selection_mode c) (block_anchor c) (deselect_on_move c)
    (virtual_lines_below c).

(** ** The collection *)
Record Cursors : Type := mkCursors {
  cursors : gmap nat Cursor;
  next_id : nat;
  primary_id : nat;
}.

Definition cursors_new : Cursors := mkCursors {[0 := cursor_new 0]} 1 0.

Definition primary (cs : Cursors) : res Cursor :=
  match cursors cs !! primary_id cs with Some c => Ok c | None => Panic end.

(** A caller's write through the reference [primary_mut] or [get_mut] returns. *)
Definition primary_mut (cs : Cursors) (f : Cursor -> Cursor) : res Cursors :=
  match cursors cs !! primary_id cs with
  | Some c => Ok (mkCursors (<[primary_id cs := f c]> (cursors cs)) (next_id cs) (primary_id cs))
  | None => Panic
  end.

Definition get (cs : Cursors) (id : nat) : option Cursor := cursors cs !! id.

Definition get_mut (cs : Cursors) (id : nat) (f : Cursor -> Cursor) : Cursors :=
  mkCursors (alter f id (cursors cs)) (next_id cs) (primary_id cs).

Definition add (cs : Cursors) (c : Cursor) : Cursors * nat :=
  let id := next_id cs in
  (mkCursors (<[id := c]> (cursors cs)) (next_id cs + 1) id, id).

Definition insert_with_id (cs : Cursors) (id : nat) (c : Cursor) : Cursors :=
  mkCursors (<[id := c]> (cursors cs))
    (if decide (next_id cs <= id) then id + 1 else next_id cs) id.

(** [dedup_by]: drop an element related to the last one kept. *)
Fixpoint dedup_by {A} (same : A -> A -> bool) (kept : A) (l : list A) : list A :=
  match l with
  | [] => []
  | x :: l => if same x kept then dedup_by same kept l else x :: dedup_by same x l
  end.

Section iteration.
Context (iter : gmap nat Cursor -> list (nat * Cursor)).

(** [self.cursors.keys().next()] *)
Definition first_key (m : gmap nat Cursor) : option nat := fst <$> head (iter m).

Definition remove (cs : Cursors) (id : nat) : res (Cursors * option Cursor) :=
  if decide (size (cursors cs) <= 1) then Ok (cs, None) else
  let cursor := cursors cs !! id in
  let m := delete id (cursors cs) in
  if decide (id = primary_id cs) then
    match first_key m with
    | Some p => Ok (mkCursors m (next_id cs) p, cursor)
    | None => Panic
    end
  else Ok (mkCursors m (next_id cs) (primary_id cs), cursor).

(** [keys().min_by_key(|id| id.0)]: the first of the least keys visited. *)
Definition min_key (m : gmap nat Cursor) : option nat :=
  foldl (fun acc e => match acc with
                      | None => Some e.1
                      | Some k => if decide (e.1 < k) then Some e.1 else acc
                      end) None (iter m).

Definition remove_secondary (cs : Cursors) : res Cursors :=
  match min_key (cursors cs) with
  | None => Panic
  | Some first_id =>
      match cursors cs !! first_id with
      | None => Panic
      | Some c => Ok (mkCursors {[first_id := c]} (next_id cs) first_id)
      end
  end.

Definition map_cursors (f : Cursor -> Cursor) (cs : Cursors) : Cursors :=
  mkCursors (f <$> cursors cs) (next_id cs) (primary_id cs).

Definition adjust_all_for_edit (cs : Cursors) (edit_pos old_len new_len : nat) : Cursors :=
  map_cursors (fun c => adjust_for_edit c edit_pos old_len new_len) cs.

Definition count (cs : Cursors) : nat := size (cursors cs).
Definition ids (cs : Cursors) : list nat := fst <$> iter (cursors cs).
Definition positions (cs : Cursors) : list nat := (fun e => position e.2) <$> iter (cursors cs).
Definition selections (cs : Cursors) : list (nat * nat) :=
  omap (fun e => selection_range e.2) (iter (cursors cs)).

(** The key [virtual_cols] of a cursor, in any ordered type. *)
Context {K : Type} `{EqDecision K} (le_K : K -> K -> Prop) `{forall a b, Decision (le_K a b)}
  (virtual_cols : Cursor -> K).

(** The order of [sort_by_key(|(_, c)| (c.selection_start(), virtual_cols(c)))]. *)
Definition sort_le (a b : nat * Cursor) : Prop :=
  selection_start a.2 < selection_start b.2
  \/ selection_start a.2 = selection_start b.2 /\ le_K (virtual_cols a.2) (virtual_cols b.2).
#[export] Instance sort_le_dec a b : Decision (sort_le a b) := or_dec _ _.

Definition same_cursor (a b : nat * Cursor) : bool :=
  bool_decide (position a.2 = position b.2) && bool_decide (anchor a.2 = anchor b.2)
  && bool_decide (virtual_cols a.2 = virtual_cols b.2).

Definition normalize_with_key (cs : Cursors) : Cursors :=
  let cursor_list := merge_sort sort_le (iter (cursors cs)) in
  let cursor_list := match cursor_list with
                     | [] => []
                     | e :: l => e :: dedup_by same_cursor e l
                     end in
  let m : gmap nat Cursor := foldl (fun m e => <[e.1 := e.2]> m) ∅ cursor_list in
  let p := if decide (is_Some (m !! primary_id cs)) then primary_id cs
           else default (primary_id cs) (first_key m) in
  mkCursors m (next_id cs) p.
End iteration.

(** [normalize()]: every key equal. *)
Definition normalize (iter : gmap nat Cursor -> list (nat * Cursor)) (cs : Cursors) : Cursors :=
  normalize_with_key iter le (fun _ => 0) cs.
