(* ===== verification/CursorInv.v ===== *)
(** * Cursors: invariant and properties

    The primary cursor always exists: an invariant of the step relation of a cursor
    collection.  Positions and anchors follow the text through an edit, and normalisation
    drops exact neighbours only. *)
From stdpp Require Import base numbers list option sorting gmap relations.
From Stdlib Require Import ssreflect Strings.Byte.
From S2P Require Import Prelude TextSpec Cursor.

#[export] Instance nat_le_TotalOrder : TotalOrder Nat.le.
Proof.
  split; [|intros a b; unfold strict; lia].
  split; [apply _|]. intros a b ??. lia.
Qed.

(** There is a primary cursor, and fresh ids are unused. *)
Definition cursors_inv (cs : Cursors) : Prop :=
  is_Some (cursors cs !! primary_id cs)
  /\ (forall id, is_Some (cursors cs !! id) -> id < next_id cs).

(** Any enumeration of the entries. *)
Definition enumerates (iter : gmap nat Cursor -> list (nat * Cursor)) : Prop :=
  forall m, iter m ≡ₚ map_to_list m.

(** ** Building maps from lists *)
Lemma lookup_foldl_insert (l : list (nat * Cursor)) (m0 : gmap nat Cursor) k c :
  NoDup l.*1 ->
  foldl (fun m e => <[e.1 := e.2]> m) m0 l !! k = Some c
  <-> (k, c) ∈ l \/ ((k ∉ l.*1) /\ m0 !! k = Some c).
Proof.
  revert m0. induction l as [|[k' c'] l IH]; intros m0 Hnd; simpl.
  { split; [intros; right; split; [apply not_elem_of_nil|done]|].
    intros [?%not_elem_of_nil|[_ ?]]; done. }
  apply NoDup_cons in Hnd as [Hk' Hnd]. rw IH // elem_of_cons not_elem_of_cons.
  destruct (decide (k = k')) as [->|Hne].
  - rw lookup_insert_eq. split.
    + intros [Hin|[_ Hc]]; [auto|]. injection Hc as ->. auto.
    + intros [[Hc|Hin]|[Hne _]]; [injection Hc as ->; auto|auto|by destruct Hne].
  - rw lookup_insert_ne; [congruence|]. split.
    + intros [Hin|[Hin ?]]; auto.
    + intros [[Hc|Hin]|[Hk ?]]; [congruence|auto|]. destruct Hk. auto.
Qed.

Lemma StronglySorted_elem_of {A} (R : A -> A -> Prop) l x y :
  StronglySorted R l -> x ∈ l -> y ∈ l -> x = y \/ R x y \/ R y x.
Proof.
  induction l as [|z l IH]; intros Hs Hx Hy; [by apply not_elem_of_nil in Hx|].
  apply StronglySorted_cons in Hs as [Hz Hs]. rw Forall_forall in Hz.
  apply elem_of_cons in Hx as [->|Hx]; apply elem_of_cons in Hy as [->|Hy]; auto.
Qed.

(** ** Duplicates *)
Lemma dedup_by_sublist {A} (same : A -> A -> bool) x l : dedup_by same x l `sublist_of` l.
Proof.
  revert x. induction l as [|y l IH]; intros x; simpl; [done|].
  destruct (same y x); [by apply sublist_cons|by apply sublist_skip].
Qed.

(** Every element dropped is related to one that is kept. *)
Lemma dedup_by_covers {A} (same : A -> A -> bool) x l y :
  (forall z, same z z = true) -> y ∈ x :: l -> exists z, z ∈ x :: dedup_by same x l /\ same y z = true.
Proof.
  intros Hrefl. revert x. induction l as [|w l IH]; intros x Hy; simpl.
  { apply list_elem_of_singleton in Hy as ->. exists x. split; [by left|done]. }
  apply elem_of_cons in Hy as [->|Hy]; [exists x; split; [by left|done]|].
  destruct (same w x) eqn:Hwx.
  - apply elem_of_cons in Hy as [->|Hy]; [exists x; split; [by left|done]|].
    apply IH. by right.
  - destruct (IH w Hy) as (z & Hz & ?). exists z. split; [by right|done].
Qed.

(** In a sorted list whose related elements are exactly those of equal rank, none
    are left related. *)
Lemma dedup_by_unique {A} (R : A -> A -> Prop) `{!Transitive R} (same : A -> A -> bool)
    (P : A -> Prop) x l :
  StronglySorted R (x :: l) -> Forall P (x :: l) ->
  (forall a b, P a -> P b -> same a b = true <-> R a b /\ R b a) ->
  StronglySorted (fun a b => same b a = false) (x :: dedup_by same x l).
Proof.
  intros Hs HP Hsame. revert x Hs HP.
  induction l as [|y l IH]; intros x Hs HP; simpl; [by repeat constructor|].
  apply StronglySorted_cons in Hs as [Hx Hs]. apply StronglySorted_cons in Hs as [Hy Hs].
  apply Forall_cons in Hx as [Hxy Hx]. apply Forall_cons in HP as [Px HP].
  pose proof HP as [Py Pl]%Forall_cons.
  destruct (same y x) eqn:Hyx; [apply IH; [by apply StronglySorted_cons|by apply Forall_cons]|].
  apply StronglySorted_cons. split; [|by apply IH; [apply StronglySorted_cons|]].
  apply Forall_cons_2; [done|]. apply Forall_forall. intros z Hz.
  pose proof (sublist_subseteq _ _ (dedup_by_sublist same y l) z Hz) as Hzl.
  rw Forall_forall in Hy. rw Forall_forall in Pl.
  apply not_true_is_false. intros [Hzx _]%Hsame; [|auto..].
  apply not_true_iff_false in Hyx. apply Hyx, Hsame; [done..|]. split; [|done].
  by transitivity z; [apply Hy|].
Qed.

Section iteration.
Context (iter : gmap nat Cursor -> list (nat * Cursor)).
Hypothesis Hiter : enumerates iter.

Lemma elem_of_iter m k c : (k, c) ∈ iter m <-> m !! k = Some c.
Proof. rw (Hiter m). apply elem_of_map_to_list. Qed.

Lemma NoDup_iter m : NoDup (iter m).*1.
Proof. rw (Hiter m). apply NoDup_fst_map_to_list. Qed.

Lemma first_key_ok m : m <> ∅ -> exists k, first_key iter m = Some k /\ is_Some (m !! k).
Proof.
  intros Hm. unfold first_key. destruct (iter m) as [|[k c] l] eqn:E.
  - exfalso. apply Hm, map_empty. intros k. apply eq_None_not_Some. intros [c Hc].
    apply elem_of_iter in Hc. rw E in Hc. by apply not_elem_of_nil in Hc.
  - exists k. split; [done|]. exists c. apply elem_of_iter. rw E. by left.
Qed.

Lemma min_key_ok m k :
  is_Some (m !! k) -> exists k', min_key iter m = Some k' /\ is_Some (m !! k') /\ k' <= k.
Proof.
  intros [c Hc]. unfold min_key.
  set (f := fun (acc : option nat) (e : nat * Cursor) => _).
  assert (forall l acc, (forall a, acc = Some a -> is_Some (m !! a)) ->
    (forall e, e ∈ l -> is_Some (m !! e.1)) ->
    (forall a, foldl f acc l = Some a -> is_Some (m !! a))
    /\ (forall e, e ∈ l -> exists a, foldl f acc l = Some a /\ a <= e.1)
    /\ (forall a, acc = Some a -> exists a', foldl f acc l = Some a' /\ a' <= a)) as Hfold.
  { induction l as [|e l IH]; intros acc Hacc Hl; simpl.
    { split_and!; [done|by intros e ?%not_elem_of_nil|]. intros a ->. by exists a. }
    destruct (IH (f acc e)) as (H1 & H2 & H3).
    { intros a. unfold f. destruct acc as [k0|]; [case_decide|]; intros [= <-];
        (apply Hl; by left) || by apply Hacc. }
    { intros e' He'. apply Hl. by right. }
    assert (exists a, f acc e = Some a /\ a <= e.1 /\ (forall k0, acc = Some k0 -> a <= k0)) as (a & Ha & Hae & Hak).
    { unfold f. destruct acc as [k0|]; [case_decide|]; eexists; split_and!; try done; try lia;
        intros ? [= <-]; lia. }
    destruct (H3 a Ha) as (a' & Ha' & ?).
    split_and!; [done| |].
    - intros e' [->|He']%elem_of_cons; [exists a'; split; [done|lia]|by apply H2].
    - intros k0 Hk0. exists a'. split; [done|]. specialize (Hak k0 Hk0). lia. }
  destruct (Hfold (iter m) None) as (H1 & H2 & _); [done| |].
  { intros [k0 c0] Hin. exists c0. by apply elem_of_iter. }
  destruct (H2 (k, c)) as (a & Ha & ?); [by apply elem_of_iter|]. exists a. auto.
Qed.

(** ** Normalisation *)
Section normalisation.
Context {K : Type} `{EqDecision K} (le_K : K -> K -> Prop) `{!TotalOrder le_K}
  `{forall a b, Decision (le_K a b)} (key : Cursor -> K).

#[local] Instance sort_le_trans : Transitive (sort_le le_K key).
Proof.
  intros a b c [?|[E Hab]] [?|[E' Hbc]]; unfold sort_le; try (left; lia).
  right. split; [lia|]. by transitivity (key b.2).
Qed.

#[local] Instance sort_le_total : Total (sort_le le_K key).
Proof.
  intros a b. unfold sort_le.
  destruct (lt_eq_lt_dec (selection_start a.2) (selection_start b.2)) as [[?|E]|?]; [auto| |auto].
  destruct (total le_K (key a.2) (key b.2)); auto.
Qed.

Lemma same_cursor_spec a b :
  same_cursor key a b = true
  <-> position a.2 = position b.2 /\ anchor a.2 = anchor b.2 /\ key a.2 = key b.2.
Proof. unfold same_cursor. rw !andb_true_iff !bool_decide_eq_true. tauto. Qed.

(** Among cursors without a selection, equal rank is equality of the cursors. *)
Lemma same_cursor_rank a b :
  anchor a.2 = None -> anchor b.2 = None ->
  same_cursor key a b = true <-> sort_le le_K key a b /\ sort_le le_K key b a.
Proof.
  intros Ha Hb. rw same_cursor_spec. unfold sort_le, selection_start. rw Ha Hb. split.
  - intros (-> & _ & ->). split; right; split; reflexivity.
  - intros [[?|[? Hab]] [?|[? Hba]]]; try lia.
    split; [done|split; [done|]]. by apply (anti_symm le_K).
Qed.

(** The list the map is rebuilt from. *)
Definition deduplicated (m : gmap nat Cursor) : list (nat * Cursor) :=
  match merge_sort (sort_le le_K key) (iter m) with
  | [] => []
  | e :: l => e :: dedup_by (same_cursor key) e l
  end.

Lemma deduplicated_sublist m :
  deduplicated m `sublist_of` merge_sort (sort_le le_K key) (iter m).
Proof.
  unfold deduplicated. destruct (merge_sort _ _); [done|]. apply sublist_skip, dedup_by_sublist.
Qed.

Lemma NoDup_deduplicated m : NoDup (deduplicated m).*1.
Proof.
  eapply sublist_NoDup; [|apply fmap_sublist, deduplicated_sublist].
  rw merge_sort_Permutation. apply NoDup_iter.
Qed.

Lemma lookup_normalized cs k c :
  cursors (normalize_with_key iter le_K key cs) !! k = Some c <-> (k, c) ∈ deduplicated (cursors cs).
Proof.
  unfold normalize_with_key. simpl.
  rw (lookup_foldl_insert (deduplicated (cursors cs))); [apply NoDup_deduplicated|].
  split; [intros [?|[_ [=]]]; done|auto].
Qed.

Lemma elem_of_deduplicated m k c : (k, c) ∈ deduplicated m -> m !! k = Some c.
Proof.
  intros Hin. apply elem_of_iter. rw -(merge_sort_Permutation (sort_le le_K key) (iter m)).
  exact (sublist_subseteq _ _ (deduplicated_sublist m) _ Hin).
Qed.

Lemma deduplicated_covers m k c :
  m !! k = Some c -> exists e, e ∈ deduplicated m /\ same_cursor key (k, c) e = true.
Proof.
  intros Hin%elem_of_iter. rw -(merge_sort_Permutation (sort_le le_K key) (iter m)) in Hin.
  unfold deduplicated. destruct (merge_sort _ _) as [|e l]; [by apply not_elem_of_nil in Hin|].
  apply dedup_by_covers; [|done]. intros z. by apply same_cursor_spec.
Qed.

Lemma deduplicated_unique m :
  (forall k c, m !! k = Some c -> anchor c = None) ->
  StronglySorted (fun a b => same_cursor key b a = false) (deduplicated m).
Proof.
  intros Hm. unfold deduplicated.
  pose proof (StronglySorted_merge_sort (sort_le le_K key) (iter m)) as Hs.
  pose proof (merge_sort_Permutation (sort_le le_K key) (iter m)) as Hp.
  destruct (merge_sort _ _) as [|e l]; [constructor|].
  apply (dedup_by_unique (sort_le le_K key) _ (fun e => anchor e.2 = None)); [done| |].
  - rw Hp. apply Forall_forall. intros [k c] Hin. by apply (Hm k), elem_of_iter.
  - apply same_cursor_rank.
Qed.
End normalisation.
End iteration.

(** ** Steps of a collection *)
Inductive cursor_step (iter : gmap nat Cursor -> list (nat * Cursor)) : Cursors -> Cursors -> Prop :=
  | step_add cs c : cursor_step iter cs (add cs c).1
  | step_insert_with_id cs id c : cursor_step iter cs (insert_with_id cs id c)
  | step_remove cs id cs' c : remove iter cs id = Ok (cs', c) -> cursor_step iter cs cs'
  | step_remove_secondary cs cs' : remove_secondary iter cs = Ok cs' -> cursor_step iter cs cs'
  | step_primary_mut cs f cs' : primary_mut cs f = Ok cs' -> cursor_step iter cs cs'
  | step_get_mut cs id f : cursor_step iter cs (get_mut cs id f)
  | step_map cs f : cursor_step iter cs (map_cursors f cs)
  | step_adjust cs edit_pos old_len new_len :
      cursor_step iter cs (adjust_all_for_edit cs edit_pos old_len new_len)
  | step_normalize cs (K : Type) (dec : EqDecision K) (le_K : K -> K -> Prop)
      (dec_le : forall a b, Decision (le_K a b)) (key : Cursor -> K) :
      TotalOrder le_K -> cursor_step iter cs (normalize_with_key iter le_K key cs).

Lemma cursors_inv_new : cursors_inv cursors_new.
Proof.
  split; [by exists (cursor_new 0)|]. intros id [c Hc]. simpl in Hc.
  apply lookup_singleton_Some in Hc as [<- _]. simpl. lia.
Qed.

Section steps.
Context (iter : gmap nat Cursor -> list (nat * Cursor)).
Hypothesis Hiter : enumerates iter.

Lemma cursors_inv_insert cs id c n :
  cursors_inv cs -> next_id cs <= n -> id < n -> cursors_inv (mkCursors (<[id := c]> (cursors cs)) n id).
Proof.
  intros [_ Hfresh] Hn Hid. split; simpl; [rw lookup_insert_eq; eauto|].
  intros k [->|[_ Hk]]%lookup_insert_is_Some; [done|]. specialize (Hfresh _ Hk). lia.
Qed.

Lemma cursors_inv_map f cs : cursors_inv cs -> cursors_inv (map_cursors f cs).
Proof.
  intros [Hp Hfresh]. split; simpl; [by rw lookup_fmap fmap_is_Some|].
  intros k. rw lookup_fmap fmap_is_Some. apply Hfresh.
Qed.

Lemma remove_ok cs id :
  cursors_inv cs -> exists cs' c, remove iter cs id = Ok (cs', c) /\ cursors_inv cs'.
Proof.
  intros [Hp Hfresh]. unfold remove. case_decide as Hsz; [exists cs, None; done|].
  assert (forall k, is_Some (delete id (cursors cs) !! k) -> k < next_id cs) as Hfresh'.
  { intros k [_ ?]%lookup_delete_is_Some. by apply Hfresh. }
  case_decide as Hid.
  - destruct (first_key_ok iter Hiter (delete id (cursors cs))) as (k & -> & Hk).
    { intros He. apply (f_equal size) in He. rw map_size_delete_Some in He; [by rw Hid|].
      rw map_size_empty in He. lia. }
    by eexists _, _.
  - eexists _, _. split; [done|]. split; [|done]. simpl. by rw lookup_delete_ne.
Qed.

Lemma remove_secondary_ok cs :
  cursors_inv cs -> exists cs', remove_secondary iter cs = Ok cs' /\ cursors_inv cs'.
Proof.
  intros [Hp Hfresh]. unfold remove_secondary.
  destruct (min_key_ok iter Hiter _ _ Hp) as (k & -> & [c Hc] & _). rw Hc.
  eexists. split; [done|]. split; simpl; [rw lookup_singleton_eq; eauto|].
  intros k' [c' [<- _]%lookup_singleton_Some]. apply Hfresh. eauto.
Qed.

Lemma cursors_inv_normalize {K} `{EqDecision K} (le_K : K -> K -> Prop)
    `{forall a b, Decision (le_K a b)} (key : Cursor -> K) cs :
  cursors_inv cs -> cursors_inv (normalize_with_key iter le_K key cs).
Proof.
  intros [[c Hc] Hfresh]. split.
  - destruct (deduplicated_covers iter Hiter le_K key _ _ _ Hc) as ([k c'] & Hin & _).
    apply (lookup_normalized iter Hiter) in Hin.
    revert Hin. unfold normalize_with_key. simpl. intros Hin. case_decide as Hp; [done|].
    edestruct (first_key_ok iter Hiter) as (k' & -> & Hk'); [|exact Hk'].
    intros He. rw He in Hin. by rw lookup_empty in Hin.
  - intros k [c' Hk]. apply (lookup_normalized iter Hiter), (elem_of_deduplicated iter Hiter) in Hk.
    apply Hfresh. eauto.
Qed.

Lemma primary_mut_inv cs f cs' : cursors_inv cs -> primary_mut cs f = Ok cs' -> cursors_inv cs'.
Proof.
  intros [[c Hc] Hfresh]. unfold primary_mut. rw Hc. intros [= <-].
  split; simpl; [rw lookup_insert_eq; eauto|].
  intros k [<-|[_ ?]]%lookup_insert_is_Some; apply Hfresh; [rw Hc; eauto|done].
Qed.

Lemma cursors_inv_step cs cs' : cursor_step iter cs cs' -> cursors_inv cs -> cursors_inv cs'.
Proof.
  intros [] Hinv.
  - apply cursors_inv_insert; [done|lia..].
  - unfold insert_with_id. apply cursors_inv_insert; [done|case_decide; lia..].
  - destruct (remove_ok cs0 id Hinv) as (? & ? & ? & ?). congruence.
  - destruct (remove_secondary_ok cs0 Hinv) as (? & ? & ?). congruence.
  - exact (primary_mut_inv _ _ _ Hinv H).
  - destruct Hinv as [Hp Hfresh]. split; simpl; [by rw lookup_alter_is_Some|].
    intros k. rw lookup_alter_is_Some. apply Hfresh.
  - by apply cursors_inv_map.
  - by apply cursors_inv_map.
  - by apply cursors_inv_normalize.
Qed.
End steps.


(** ** Positions through an edit *)
(** Where an offset of [t] belongs in [t] with [old_len] bytes at [edit_pos]
    replaced by [ins]: outside the edit at the same text, inside it at its end. *)
Definition tracked (t : list byte) (edit_pos old_len : nat) (ins : list byte) (off off' : nat) : Prop :=
  let t' := splice t edit_pos old_len ins in
  off' <= length t'
  /\ (off < edit_pos -> take (S off') t' = take (S off) t)
  /\ (edit_pos + old_len <= off -> drop off' t' = drop off t)
  /\ (edit_pos <= off < edit_pos + old_len -> take off' t' = take edit_pos t ++ ins).

Lemma adjust_offset_before off e o n : off < e -> adjust_offset off e o n = off.
Proof. intros. unfold adjust_offset. by rw decide_False; [lia|]. Qed.

Lemma adjust_offset_after off e o n : e + o <= off -> adjust_offset off e o n = off - o + n.
Proof. intros. unfold adjust_offset. rw !decide_True; lia. Qed.

Lemma adjust_offset_inside off e o n : e <= off < e + o -> adjust_offset off e o n = e + n.
Proof. intros. unfold adjust_offset. rw decide_True; [lia|]. rw decide_False; lia. Qed.

Lemma adjust_offset_mono a b e o n : a <= b -> adjust_offset a e o n <= adjust_offset b e o n.
Proof. intros. unfold adjust_offset. repeat case_decide; lia. Qed.

Lemma adjust_offset_tracked t e o ins off :
  e + o <= length t -> off <= length t -> tracked t e o ins off (adjust_offset off e o (length ins)).
Proof.
  intros He Hoff. unfold tracked. pose proof (length_splice t e o ins He) as Hlen.
  unfold splice in *. repeat split.
  - unfold adjust_offset. repeat case_decide; lia.
  - intros. rw adjust_offset_before //. rw take_app_le; [autorewrite with fresh; lia|].
    rw take_take. f_equal. lia.
  - intros. rw adjust_offset_after //. rw app_assoc drop_app_ge; [autorewrite with fresh; lia|].
    rw drop_drop. f_equal. autorewrite with fresh. lia.
  - intros. rw adjust_offset_inside //. rw app_assoc take_app_length'; [autorewrite with fresh; lia|done].
Qed.

Lemma selection_adjust c e o n :
  selection_start (adjust_for_edit c e o n) = adjust_offset (selection_start c) e o n
  /\ selection_end (adjust_for_edit c e o n) = adjust_offset (selection_end c) e o n.
Proof.
  unfold selection_start, selection_end, adjust_for_edit. simpl.
  destruct (anchor c) as [a|]; simpl; [|done].
  destruct (Nat.le_ge_cases a (position c)) as [Hle|Hle];
    pose proof (adjust_offset_mono _ _ e o n Hle).
  - rw (Nat.min_l a) // (Nat.max_r a) //. split; lia.
  - rw (Nat.min_r a) // (Nat.max_l a) //. split; lia.
Qed.

(** When bytes of the text are replaced, every cursor keeps its place: a
    position or anchor outside the edit stays at the text it was at, one inside the
    replaced bytes moves to the end of the replacement, and the selection ends stay
    the adjusted ends of the old selection. *)
Theorem cursors_track_edit cs t edit_pos old_len ins id c :
  edit_pos + old_len <= length t -> cursors cs !! id = Some c ->
  selection_end c <= length t ->
  exists c', cursors (adjust_all_for_edit cs edit_pos old_len (length ins)) !! id = Some c'
    /\ tracked t edit_pos old_len ins (position c) (position c')
    /\ option_Forall2 (tracked t edit_pos old_len ins) (anchor c) (anchor c')
    /\ tracked t edit_pos old_len ins (selection_start c) (selection_start c')
    /\ tracked t edit_pos old_len ins (selection_end c) (selection_end c').
Proof.
  intros He Hid Hend. eexists. unfold adjust_all_for_edit. simpl. rw lookup_fmap Hid. split; [done|].
  destruct (selection_adjust c edit_pos old_len (length ins)) as [-> ->].
  assert (position c <= length t /\ selection_start c <= length t
          /\ forall a, anchor c = Some a -> a <= length t) as (? & ? & Ha).
  { unfold selection_end, selection_start in *. destruct (anchor c); repeat split; try done; try lia.
    intros ? [= <-]. lia. }
  split; [by apply adjust_offset_tracked|].
  split; [|by split; apply adjust_offset_tracked].
  simpl. destruct (anchor c) as [a|]; constructor. apply adjust_offset_tracked; [done|auto].
Qed.

(** Whatever the sequence of operations on a fresh collection and whatever the
    map's iteration order, the primary cursor exists and no operation panics. *)
Theorem primary_cursor_exists iter cs :
  enumerates iter -> rtc (cursor_step iter) cursors_new cs ->
  (exists c, primary cs = Ok c) /\ 1 <= count cs
  /\ (forall id, remove iter cs id <> Panic) /\ remove_secondary iter cs <> Panic
  /\ (forall f, primary_mut cs f <> Panic)
  /\ (forall c, cursors cs !! (add cs c).2 = None).
Proof.
  intros Hiter Hsteps.
  assert (cursors_inv cs) as Hinv.
  { pose proof cursors_inv_new as Hnew. revert Hnew.
    induction Hsteps as [|x y z Hxy _ IH]; [done|].
    intros Hx. apply IH. exact (cursors_inv_step iter Hiter _ _ Hxy Hx). }
  pose proof Hinv as [[c Hc] Hfresh]. unfold primary, primary_mut, count. rw Hc.
  split; [eauto|]. split.
  { apply Nat.le_succ_l, Nat.neq_0_lt_0. intros E%map_size_empty_inv. by rw E lookup_empty in Hc. }
  split; [intros id; destruct (remove_ok iter Hiter cs id Hinv) as (? & ? & -> & _); done|].
  split; [destruct (remove_secondary_ok iter Hiter cs Hinv) as (? & -> & _); done|].
  split; [done|]. intros c'. simpl. apply eq_None_not_Some. intros H%Hfresh. lia.
Qed.

(** Normalising invents no cursor and loses none: each remaining cursor is an old
    one under its old id, and each old one has a remaining cursor with the same
    position, anchor and virtual column; when no cursor has a selection no two of the
    remaining ones agree on all three. *)
Theorem normalize_deduplicates iter {K} `{EqDecision K} (le_K : K -> K -> Prop)
    `{!TotalOrder le_K} `{forall a b, Decision (le_K a b)} (key : Cursor -> K) cs :
  enumerates iter ->
  let cs' := normalize_with_key iter le_K key cs in
  (forall id c, cursors cs' !! id = Some c -> cursors cs !! id = Some c)
  /\ (forall id c, cursors cs !! id = Some c ->
        exists id' c', cursors cs' !! id' = Some c'
          /\ position c' = position c /\ anchor c' = anchor c /\ key c' = key c)
  /\ ((forall id c, cursors cs !! id = Some c -> anchor c = None) ->
      forall id1 c1 id2 c2, cursors cs' !! id1 = Some c1 -> cursors cs' !! id2 = Some c2 ->
        position c1 = position c2 -> key c1 = key c2 -> id1 = id2).
Proof.
  intros Hiter cs'. split; [|split].
  - intros id c Hc. apply (elem_of_deduplicated iter Hiter le_K key).
    by apply (lookup_normalized iter Hiter).
  - intros id c Hc.
    destruct (deduplicated_covers iter Hiter le_K key _ _ _ Hc) as ([id' c'] & Hin & Hsame).
    apply same_cursor_spec in Hsame as (? & ? & ?). exists id', c'.
    split; [by apply (lookup_normalized iter Hiter)|done].
  - intros Hanchor id1 c1 id2 c2 H1 H2 Hpos Hkey.
    apply (lookup_normalized iter Hiter) in H1, H2.
    pose proof (deduplicated_unique iter Hiter le_K key _ Hanchor) as Hs.
    assert (anchor c1 = None /\ anchor c2 = None) as [Ha1 Ha2].
    { split; [apply (Hanchor id1)|apply (Hanchor id2)]; by apply (elem_of_deduplicated iter Hiter le_K key). }
    destruct (StronglySorted_elem_of _ _ _ _ Hs H1 H2) as [E|[E|E]]; [congruence|exfalso..];
      apply not_true_iff_false in E; apply E, same_cursor_spec; simpl; rw Ha1 Ha2; done.
Qed.

(** A collection of plain cursors at the given positions. *)
Definition demo_cursors (l : list Cursor) : Cursors :=
  foldl (fun cs c => (add cs c).1) cursors_new l.

(** With selections present normalising can leave two cursors that agree on
    every field, because only neighbours in the order of selection starts are
    compared, and it leaves overlapping selections as they are. *)
Theorem normalize_keeps_duplicates :
  exists iter, enumerates iter
  /\ (exists cs id1 id2, id1 <> id2 /\ is_Some (cursors (normalize iter cs) !! id1)
        /\ cursors (normalize iter cs) !! id1 = cursors (normalize iter cs) !! id2)
  /\ (exists cs id1 id2 c1 c2, id1 <> id2
        /\ cursors (normalize iter cs) !! id1 = Some c1
        /\ cursors (normalize iter cs) !! id2 = Some c2
        /\ selection_start c1 < selection_start c2 < selection_end c1).
Proof.
  exists map_to_list. split; [done|]. split.
  - exists (demo_cursors [cursor_new 5; with_selection 5 10; cursor_new 5; cursor_new 5]), 3, 4.
    split; [done|]. split; vm_compute; [eauto|done].
  - exists (demo_cursors [with_selection 0 10; with_selection 5 15]), 1, 2.
    exists (with_selection 0 10), (with_selection 5 15). split; [done|]. split; [vm_compute; done|]. split; [vm_compute; done|].
    unfold selection_start, selection_end. simpl. lia.
Qed.

(** ** Witnesses *)
Lemma enumerates_map_to_list : enumerates map_to_list.
Proof. done. Qed.

Lemma cursors_track_edit_witness :
  exists c', cursors (adjust_all_for_edit (demo_cursors [with_selection 1 4]) 2 1 2) !! 1 = Some c'
    /\ tracked [x61; x62; x63; x64; x65] 2 1 [x78; x79] 4 (position c')
    /\ option_Forall2 (tracked [x61; x62; x63; x64; x65] 2 1 [x78; x79]) (Some 1) (anchor c')
    /\ tracked [x61; x62; x63; x64; x65] 2 1 [x78; x79] 1 (selection_start c')
    /\ tracked [x61; x62; x63; x64; x65] 2 1 [x78; x79] 4 (selection_end c').
Proof.
  apply (cursors_track_edit (demo_cursors [with_selection 1 4]) [x61; x62; x63; x64; x65] 2 1
           [x78; x79] 1 (with_selection 1 4)).
  - simpl. lia.
  - vm_compute. done.
  - unfold selection_end. simpl. lia.
Defined.

Lemma primary_cursor_exists_witness :
  exists cs, (exists c, primary cs = Ok c) /\ count cs = 2.
Proof.
  assert (rtc (cursor_step map_to_list) cursors_new (demo_cursors [cursor_new 3])) as Hsteps.
  { apply rtc_once, step_add. }
  exists (demo_cursors [cursor_new 3]).
  destruct (primary_cursor_exists map_to_list _ enumerates_map_to_list Hsteps) as [Hp _].
  split; [exact Hp|]. vm_compute. done.
Defined.

Lemma normalize_deduplicates_witness :
  let cs := demo_cursors [cursor_new 5; cursor_new 5; cursor_new 7] in
  count cs = 4 /\ count (normalize map_to_list cs) = 3
  /\ (forall id c, cursors (normalize map_to_list cs) !! id = Some c -> cursors cs !! id = Some c).
Proof.
  intros cs. split; [vm_compute; done|]. split; [vm_compute; done|].
  destruct (normalize_deduplicates map_to_list le (fun _ => 0) cs enumerates_map_to_list) as [H _].
  exact H.
Defined.
