(* ===== verification/BufferFormat.v ===== *)
(** * Line endings and buffer format

    Models crates/fresh-editor-core/src/model/buffer/format.rs: the line-ending
    and encoding state of a text buffer, the detection of the line ending a file
    uses, and the conversions done on load and on save; with the [Encoding]
    enumeration of encoding.rs and the gate of buffer/mod.rs that decides whether
    a Classic-Mac file is normalized on load.  The byte loops with an index and a
    one-byte lookahead are recursions on the rest of the bytes. *)
From stdpp Require Import base numbers list option sets.
From Stdlib Require Import ssreflect Strings.Byte.
From S2P Require Import Prelude TextSpec.

Inductive LineEnding : Type := LF | CRLF | CR.
#[export] Instance LineEnding_eq_dec : EqDecision LineEnding.
Proof. solve_decision. Defined.

Definition cr : byte := x0d.
Definition lf : byte := x0a.

Definition le_as_str (e : LineEnding) : list byte :=
  match e with LF => [lf] | CRLF => [cr; lf] | CR => [cr] end.

Definition insertion_str (e : LineEnding) : list byte :=
  match e with LF => [lf] | CRLF => [cr; lf] | CR => [lf] end.

Inductive Encoding : Type :=
| Utf8 | Utf8Bom | Utf16Le | Utf16Be | Ascii | Latin1 | Windows1252 | Windows1250
| Windows1251 | Gb18030 | Gbk | ShiftJis | EucKr.
#[export] Instance Encoding_eq_dec : EqDecision Encoding.
Proof. solve_decision. Defined.

Definition bom_bytes (e : Encoding) : option (list byte) :=
  match e with
  | Utf8Bom => Some [xef; xbb; xbf]
  | Utf16Le => Some [xff; xfe]
  | Utf16Be => Some [xfe; xff]
  | _ => None
  end.

Record BufferFormat : Type := mkFormat {
  line_ending : LineEnding;
  original_line_ending : LineEnding;
  encoding : Encoding;
  original_encoding : Encoding;
  line_endings_normalized : bool;
}.

Definition with_normalization (le : LineEnding) (e : Encoding) (normalized : bool)
    : BufferFormat :=
  mkFormat le le e e normalized.

Definition format_new (le : LineEnding) (e : Encoding) : BufferFormat :=
  with_normalization le e false.

Definition format_set_line_ending (f : BufferFormat) (le : LineEnding) : BufferFormat :=
  mkFormat le (original_line_ending f) (encoding f) (original_encoding f) (bool_decide (le = CR)).

Definition format_set_encoding (f : BufferFormat) (e : Encoding) : BufferFormat :=
  mkFormat (line_ending f) (original_line_ending f) e (original_encoding f)
    (line_endings_normalized f).

Definition format_set_default_line_ending (f : BufferFormat) (le : LineEnding) : BufferFormat :=
  mkFormat le le (encoding f) (original_encoding f) (bool_decide (le = CR)).

Definition format_set_default_encoding (f : BufferFormat) (e : Encoding) : BufferFormat :=
  mkFormat (line_ending f) (original_line_ending f) e e (line_endings_normalized f).

Definition line_ending_changed_since_load (f : BufferFormat) : bool :=
  bool_decide (line_ending f <> original_line_ending f).

Definition encoding_changed_since_load (f : BufferFormat) : bool :=
  bool_decide (encoding f <> original_encoding f).

Definition promote_current_to_original (f : BufferFormat) : BufferFormat :=
  mkFormat (line_ending f) (line_ending f) (encoding f) (encoding f)
    (line_endings_normalized f).

(** The counting loop of [detect_line_ending]:
    [(crlf_count, lf_only_count, cr_only_count)]. *)
Fixpoint count_line_endings (sample : list byte) : nat * nat * nat :=
  match sample with
  | [] => (0, 0, 0)
  | b :: rest =>
      if decide (b = cr) then
        match rest with
        | c :: rest' =>
            if decide (c = lf) then
              let '(crlf, lfs, crs) := count_line_endings rest' in (S crlf, lfs, crs)
            else let '(crlf, lfs, crs) := count_line_endings rest in (crlf, lfs, S crs)
        | [] => (0, 0, 1)
        end
      else if decide (b = lf) then
        let '(crlf, lfs, crs) := count_line_endings rest in (crlf, S lfs, crs)
      else count_line_endings rest
  end.

(** The number of bytes examined, [8 * 1024]. *)
Definition detect_window : nat := 8 * 1024.

Definition majority (counts : nat * nat * nat) : LineEnding :=
  let '(crlf, lfs, crs) := counts in
  if decide (lfs < crlf /\ crs < crlf) then CRLF
  else if decide (lfs < crs /\ crlf < crs) then CR
  else LF.

Definition detect_line_ending (bytes : list byte) : LineEnding :=
  let check_len := Nat.min (length bytes) detect_window in
  majority (count_line_endings (take check_len bytes)).

Fixpoint normalize_line_endings (bytes : list byte) : list byte :=
  match bytes with
  | [] => []
  | b :: rest =>
      if decide (b = cr) then
        match rest with
        | c :: rest' =>
            if decide (c = lf) then lf :: normalize_line_endings rest'
            else lf :: normalize_line_endings rest
        | [] => [lf]
        end
      else b :: normalize_line_endings rest
  end.

(** The second pass of [convert_line_endings_to]. *)
Definition expand_newlines (replacement bytes : list byte) : list byte :=
  bytes ≫= (fun b => if decide (b = lf) then replacement else [b]).

Definition convert_line_endings_to (bytes : list byte) (target : LineEnding) : list byte :=
  let normalized := normalize_line_endings bytes in
  if decide (target = LF) then normalized
  else expand_newlines (le_as_str target) normalized.

Definition is_cr_delimited_text (content : list byte) : bool :=
  bool_decide (2 <= length content)
  && bool_decide (cr ∈ take (length content - 1) content).

Definition normalize_for_line_ending (content : list byte) (le : LineEnding)
    : list byte * bool :=
  if decide (le = CR /\ is_cr_delimited_text content = true)
  then (normalize_line_endings content, true) else (content, false).

(** ** Lemmas

    Splitting a text into line breaks and other bytes, as both passes do. *)
Lemma normalize_crlf t : normalize_line_endings (cr :: lf :: t) = lf :: normalize_line_endings t.
Proof. done. Qed.

Lemma normalize_cr t :
  head t <> Some lf -> normalize_line_endings (cr :: t) = lf :: normalize_line_endings t.
Proof.
  intros H. destruct t as [|c t]; [done|]. cbn [normalize_line_endings].
  case_decide; [|done]. case_decide; [|done]. simpl in H. congruence.
Qed.

Lemma normalize_other b t :
  b <> cr -> normalize_line_endings (b :: t) = b :: normalize_line_endings t.
Proof. intros H. cbn [normalize_line_endings]. by rw decide_False. Qed.

(** Induction by tokens: a CRLF pair, a lone CR, any other byte. *)
Lemma token_ind (P : list byte -> Prop) :
  P [] ->
  (forall t, P t -> P (cr :: lf :: t)) ->
  (forall t, head t <> Some lf -> P t -> P (cr :: t)) ->
  (forall b t, b <> cr -> P t -> P (b :: t)) ->
  forall t, P t.
Proof.
  intros Hnil Hcrlf Hcr Hb t. remember (length t) as n eqn:Hn.
  assert (length t <= n) as Hle by lia. clear Hn. revert t Hle.
  induction n as [|n IH]; intros [|b t] Hle; simpl in Hle; try lia; [done..|].
  destruct (decide (b = cr)) as [->|]; [|apply Hb; [done|apply IH; lia]].
  destruct t as [|c t]; [apply Hcr; [done|done]|].
  destruct (decide (c = lf)) as [->|]; [apply Hcrlf, IH; simpl in *; lia|].
  apply Hcr; [simpl; congruence|apply IH; simpl in *; lia].
Qed.

Lemma normalize_no_cr t : cr ∉ normalize_line_endings t.
Proof.
  induction t as [|t IH|t Hh IH|b t Hb IH] using token_ind.
  - by apply not_elem_of_nil.
  - rw normalize_crlf. by apply not_elem_of_cons.
  - rw normalize_cr //. by apply not_elem_of_cons.
  - rw normalize_other //. apply not_elem_of_cons. split; [congruence|done].
Qed.

Lemma normalize_id t : cr ∉ t -> normalize_line_endings t = t.
Proof.
  induction t as [|b t IH]; intros H; [done|]. apply not_elem_of_cons in H as [Hb Ht].
  rw normalize_other; [congruence|]. by rw IH.
Qed.

Lemma expand_cons r b t :
  expand_newlines r (b :: t) = (if decide (b = lf) then r else [b]) ++ expand_newlines r t.
Proof. done. Qed.

(** Expanding the newlines of a text without carriage returns and normalizing
    again gives the text back, for every line ending. *)
Lemma normalize_expand e t :
  cr ∉ t -> normalize_line_endings (expand_newlines (le_as_str e) t) = t.
Proof.
  induction t as [|b t IH]; intros H; [done|]. apply not_elem_of_cons in H as [Hb Ht].
  rw expand_cons. case_decide as E; [subst b|]; last first.
  { cbn [app]. rw normalize_other; [congruence|]. by rw IH. }
  destruct e; cbn [le_as_str app].
  - rw normalize_other; [done|]. by rw IH.
  - rw normalize_crlf. by rw IH.
  - rw normalize_cr; [|by rw IH]. destruct t as [|c t]; [done|]. rw expand_cons.
    case_decide; cbn; [done|congruence].
Qed.

Lemma convert_eq t e :
  convert_line_endings_to t e = expand_newlines (le_as_str e) (normalize_line_endings t).
Proof.
  unfold convert_line_endings_to. case_decide as E; [subst e|done].
  induction (normalize_line_endings t) as [|b u IH]; [done|].
  rw expand_cons -IH. by case_decide; subst.
Qed.

Lemma normalize_convert t e :
  normalize_line_endings (convert_line_endings_to t e) = normalize_line_endings t.
Proof. rw convert_eq. apply normalize_expand, normalize_no_cr. Qed.

(** Cutting a text anywhere but inside a CRLF pair. *)
Lemma normalize_app t u :
  ~ (list.last t = Some cr /\ head u = Some lf) ->
  normalize_line_endings (t ++ u) = normalize_line_endings t ++ normalize_line_endings u.
Proof.
  induction t as [|t IH|t Hh IH|b t Hb IH] using token_ind; intros Hcut; [done|..].
  - cbn [app]. rw !normalize_crlf. cbn [app]. f_equal. apply IH. intros [Hl Hu]. apply Hcut.
    split; [|done]. by destruct t.
  - cbn [app]. rw (normalize_cr (t ++ u)) ?(normalize_cr t) //.
    + destruct t as [|c t]; [|done]. simpl. intros Hu. by apply Hcut.
    + cbn [app]. f_equal. apply IH. intros [Hl Hu]. apply Hcut. split; [|done].
      destruct t; [done|]. exact Hl.
  - cbn [app]. rw !normalize_other //. cbn [app]. f_equal. apply IH. intros [Hl Hu]. apply Hcut.
    split; [|done]. destruct t; [done|]. exact Hl.
Qed.

Lemma expand_app r t u : expand_newlines r (t ++ u) = expand_newlines r t ++ expand_newlines r u.
Proof. apply bind_app. Qed.

Lemma convert_app t u e :
  ~ (list.last t = Some cr /\ head u = Some lf) ->
  convert_line_endings_to (t ++ u) e
  = convert_line_endings_to t e ++ convert_line_endings_to u e.
Proof. intros. by rw !convert_eq normalize_app // expand_app. Qed.

(** The counts of an expanded text: only the chosen ending occurs. *)
Definition only (e : LineEnding) (n : nat) : nat * nat * nat :=
  match e with LF => (0, n, 0) | CRLF => (n, 0, 0) | CR => (0, 0, n) end.

Lemma count_expand e t :
  cr ∉ t -> count_line_endings (expand_newlines (le_as_str e) t) = only e (count_newlines t).
Proof.
  induction t as [|b t IH]; intros H; [by destruct e|]. apply not_elem_of_cons in H as [Hb Ht].
  specialize (IH Ht). rw expand_cons count_newlines_cons. unfold is_nl.
  case_decide as E; [subst b|].
  - change (Byte.eqb lf x0a) with true. destruct e; cbn [le_as_str app count_line_endings].
    + case_decide; [done|]. case_decide; [|done]. by rw IH.
    + case_decide; [|done]. case_decide; [|done]. by rw IH.
    + case_decide; [|done]. cbn [le_as_str] in IH.
      destruct (expand_newlines [cr] t) as [|c u] eqn:Eu.
      { cbn in IH. cbn. congruence. }
      case_decide as Ec; [|by rw IH]. destruct t as [|d t]; [done|].
      rw expand_cons in Eu. case_decide; simplify_eq/=.
  - cbn [app count_line_endings]. rw decide_False; [congruence|]. rw decide_False //. rw IH.
    destruct (Byte.eqb b x0a) eqn:Eb; [|done]. by apply Byte.byte_dec_bl in Eb.
Qed.

Lemma majority_only e n : 0 < n -> majority (only e n) = e.
Proof. intros. destruct e; unfold majority, only; cbn; repeat case_decide; try done; lia. Qed.

(** ** Properties *)

(** Converting the line endings of any text to any target and normalizing the
    result gives the normalized text, so a chain of conversions ends like the last
    conversion alone; a converted text that has a line break and fits the detection
    window is detected as the target it was converted to. *)
Theorem line_ending_roundtrip t e e' :
  normalize_line_endings (convert_line_endings_to t e) = normalize_line_endings t
  /\ convert_line_endings_to (convert_line_endings_to t e) e' = convert_line_endings_to t e'
  /\ (0 < count_newlines (normalize_line_endings t) ->
      length (convert_line_endings_to t e) <= detect_window ->
      detect_line_ending (convert_line_endings_to t e) = e).
Proof.
  split_and!.
  - apply normalize_convert.
  - rw (convert_eq _ e') normalize_convert. by rw -convert_eq.
  - intros Hn Hw. unfold detect_line_ending. rw Nat.min_l // take_ge; [lia|].
    rw convert_eq count_expand; [apply normalize_no_cr|]. by apply majority_only.
Qed.

Lemma line_ending_roundtrip_witness :
  detect_line_ending (convert_line_endings_to [x61; cr; x62; lf; x63; cr; lf] CRLF) = CRLF.
Proof.
  apply (line_ending_roundtrip [x61; cr; x62; lf; x63; cr; lf] CRLF LF).
  - vm_compute. lia.
  - apply (bool_decide_unpack _). vm_compute. exact I.
Defined.

(** A Classic-Mac file without line feeds survives being opened for editing and
    saved: when the load normalizes it, converting the buffer's text back to CR on
    save gives the file's bytes; when the load does not, the bytes are untouched. *)
Theorem cr_file_roundtrip content :
  lf ∉ content ->
  let '(text, normalized) := normalize_for_line_ending content (detect_line_ending content) in
  if normalized : bool then convert_line_endings_to text CR = content /\ cr ∉ text
  else text = content.
Proof.
  intros Hlf. unfold normalize_for_line_ending. case_decide as Hg; [|done].
  split; [|apply normalize_no_cr]. rw convert_eq normalize_id; [apply normalize_no_cr|].
  clear Hg. induction content as [|t IH|t Hh IH|b t Hb IH] using token_ind; [done|..].
  - exfalso. apply Hlf. set_solver.
  - rw normalize_cr // expand_cons. case_decide; [|done]. cbn [le_as_str app]. f_equal. apply IH. set_solver.
  - rw normalize_other // expand_cons decide_False; [set_solver|]. cbn [app]. f_equal.
    apply IH. set_solver.
Qed.

Lemma cr_file_roundtrip_witness :
  convert_line_endings_to (normalize_line_endings [x61; cr; x62; cr]) CR = [x61; cr; x62; cr].
Proof.
  apply (cr_file_roundtrip [x61; cr; x62; cr]). apply (bool_decide_unpack _). vm_compute. exact I.
Defined.
