(* ===== verification/Encodings.v ===== *)
(** * Text encodings

    Models crates/fresh-editor-core/src/model/encoding.rs and encoding_heuristics.rs:
    guessing the encoding of a file from its first bytes and converting between it
    and UTF-8.

    The statistical detector (chardetng) and the legacy codecs (encoding_rs) are
    parameters: [guess] is [EncodingDetector::guess_assess] on a sample, [rs_decode]
    is [decode_without_bom_handling], giving UTF-8, and [rs_encode] is [encode] on
    the characters of a text.  UTF-16 is written by the code itself; the only
    contract used of encoding_rs is that it decodes well-formed UTF-16. *)
From stdpp Require Import base numbers list option.
From Stdlib Require Import ssreflect Strings.Byte NArith.
From S2P Require Import Prelude TextSpec Utf8 BufferFormat.

(** The encodings of encoding_rs that the code names. *)
Inductive RsEncoding : Type :=
| UTF_8 | UTF_16LE | UTF_16BE | WINDOWS_1252 | WINDOWS_1250 | WINDOWS_1251 | GB18030 | GBK
| SHIFT_JIS | EUC_KR | OTHER_ENCODING.

#[export] Instance RsEncoding_eq_dec : EqDecision RsEncoding.
Proof. solve_decision. Defined.

Definition to_encoding_rs (e : Encoding) : RsEncoding :=
  match e with
  | Utf8 | Utf8Bom | Ascii => UTF_8
  | Utf16Le => UTF_16LE
  | Utf16Be => UTF_16BE
  | Latin1 => WINDOWS_1252
  | Windows1252 => WINDOWS_1252
  | Windows1250 => WINDOWS_1250
  | Windows1251 => WINDOWS_1251
  | Gb18030 => GB18030
  | Gbk => GBK
  | ShiftJis => SHIFT_JIS
  | EucKr => EUC_KR
  end.

Definition is_resynchronizable (e : Encoding) : bool :=
  match e with
  | Ascii | Latin1 | Windows1252 | Windows1250 | Windows1251 => true
  | Utf8 | Utf8Bom => true
  | Utf16Le | Utf16Be => true
  | Gb18030 | Gbk | ShiftJis | EucKr => false
  end.

Definition alignment (e : Encoding) : option nat :=
  match e with
  | Ascii | Latin1 | Windows1252 | Windows1250 | Windows1251 => Some 1
  | Utf8 | Utf8Bom => Some 1
  | Utf16Le | Utf16Be => Some 2
  | Gb18030 | Gbk | ShiftJis | EucKr => None
  end.

Definition requires_full_file_load (e : Encoding) : bool := negb (is_resynchronizable e).

(** ** Detection *)
Definition starts_with (bs p : list byte) : bool := bool_decide (take (length p) bs = p).

Definition utf8_bom : list byte := [xef; xbb; xbf].
Definition utf16le_bom : list byte := [xff; xfe].
Definition utf16be_bom : list byte := [xfe; xff].

Definition detect_by_bom (sample : list byte) : option (Encoding * bool) :=
  if starts_with sample utf8_bom then Some (Utf8Bom, false)
  else if starts_with sample utf16le_bom then Some (Utf16Le, false)
  else if starts_with sample utf16be_bom then Some (Utf16Be, false)
  else None.

Definition is_binary_control_char (b : byte) : bool :=
  if (code b <? 0x20)%N then
    match b with x09 | x0a | x0d | x0c | x0b | x1b => false | _ => true end
  else (code b =? 0x7F)%N.

(** [sample.len() - 3] is only evaluated once the conditions before it hold. *)
Definition detect_utf8 (sample : list byte) (sample_truncated : bool)
    : res (option (Encoding * bool)) :=
  let utf8_valid_len :=
    match from_utf8 sample with
    | None => length sample
    | Some (valid_up_to, None) => valid_up_to
    | Some (_, Some _) => 0
    end in
  is_valid_utf8 ←
    (if decide (utf8_valid_len = length sample) then Ok true
     else if sample_truncated && bool_decide (0 < utf8_valid_len) then
       least ← usub (length sample) 3; Ok (bool_decide (least <= utf8_valid_len))
     else Ok false);
  if negb is_valid_utf8 then Ok None else
  let valid_sample := take utf8_valid_len sample in
  if existsb is_binary_control_char valid_sample then Ok (Some (Utf8, true)) else
  let has_non_ascii_tail := bool_decide (utf8_valid_len < length sample) in
  if negb has_non_ascii_tail && forallb (fun b => (code b <? 128)%N) valid_sample
  then Ok (Some (Ascii, false)) else Ok (Some (Utf8, false)).

Definition is_printable_or_high (b : byte) : bool :=
  in_range 0x20 0x7E (code b) || (0x80 <=? code b)%N.

(** The complete pairs of [chunks(2)]. *)
Fixpoint pairs (bs : list byte) : list (byte * byte) :=
  match bs with
  | a :: b :: bs => (a, b) :: pairs bs
  | _ => []
  end.

Definition detect_utf16_without_bom (sample : list byte) : option (Encoding * bool) :=
  if decide (length sample < 4) then None else
  let ps := pairs sample in
  let le_pairs :=
    length (List.filter (fun p => (code p.2 =? 0)%N && is_printable_or_high p.1) ps) in
  let be_pairs :=
    length (List.filter (fun p => (code p.1 =? 0)%N && is_printable_or_high p.2) ps) in
  let pair_count := length sample / 2 in
  if decide (pair_count / 2 < le_pairs) then Some (Utf16Le, false)
  else if decide (pair_count / 2 < be_pairs) then Some (Utf16Be, false)
  else None.

(** The loop of [has_latin1_high_byte_pattern]: the number of indicators. *)
Fixpoint latin1_indicators (bs : list byte) : nat :=
  match bs with
  | [] => 0
  | b :: bs' =>
      if (code b <? 0x80)%N then
        match bs' with
        | next :: _ =>
            if (code b =? 0x20)%N && (0xA0 <=? code next)%N then S (latin1_indicators bs')
            else latin1_indicators bs'
        | [] => 0
        end
      else
        match bs' with
        | next :: bs'' =>
            let is_valid_cjk_lead := in_range 0x81 0xFE (code b) in
            let is_valid_cjk_trail :=
              in_range 0x40 0x7E (code next) || in_range 0x80 0xFE (code next) in
            if is_valid_cjk_lead && is_valid_cjk_trail then latin1_indicators bs''
            else if (0xA0 <=? code b)%N && (code next <? 0x40)%N then S (latin1_indicators bs')
            else latin1_indicators bs'
        | [] => 0
        end
  end.

Definition has_latin1_high_byte_pattern (sample : list byte) : bool :=
  bool_decide (0 < latin1_indicators sample).

Definition has_windows1250_pattern (sample : list byte) : bool :=
  let count p := length (List.filter p sample) in
  let definitive := count (fun b => match b with x8d | x8f | x9d => true | _ => false end) in
  let strong := count (fun b => match b with x8c | x9c | x9f => true | _ => false end) in
  bool_decide (0 < definitive) || bool_decide (2 <= strong).

Definition has_windows1251_pattern (sample : list byte) : bool :=
  let upper := existsb (fun b => in_range 0xC0 0xDE (code b)) sample in
  let lower := existsb (fun b => in_range 0xE0 0xFF (code b)) sample in
  let yo := existsb (fun b => match b with xa8 | xb8 => true | _ => false end) sample in
  (upper && lower) || (yo && lower).

Definition windows_125x_fallback (sample : list byte) : Encoding :=
  if has_windows1250_pattern sample then Windows1250
  else if has_windows1251_pattern sample then Windows1251
  else Windows1252.

Section codecs.
Context (guess : list byte -> RsEncoding * bool).
Context (rs_decode : RsEncoding -> list byte -> list byte).
Context (rs_encode : RsEncoding -> list N -> list byte).

Definition detect_legacy_encoding (sample : list byte) : Encoding * bool :=
  if existsb (fun b => (code b =? 0)%N || is_binary_control_char b) sample then (Utf8, true) else
  let has_latin1_pattern := has_latin1_high_byte_pattern sample in
  let has_cjk_only_bytes := existsb (fun b => in_range 0x81 0x9F (code b)) sample in
  let '(detected, confident) := guess sample in
  if negb confident then (windows_125x_fallback sample, false) else
  let is_cjk := bool_decide (detected = GB18030 \/ detected = GBK \/ detected = SHIFT_JIS
                             \/ detected = EUC_KR) in
  if is_cjk && negb has_cjk_only_bytes && has_latin1_pattern then (Windows1252, false) else
  (match detected with
   | GB18030 | GBK => Gb18030
   | SHIFT_JIS => ShiftJis
   | EUC_KR => EucKr
   | _ => windows_125x_fallback sample
   end, false).

Definition detect_encoding_or_binary (bytes : list byte) (truncated : bool)
    : res (Encoding * bool) :=
  let check_len := Nat.min (length bytes) (8 * 1024) in
  let sample := take check_len bytes in
  let sample_truncated := truncated || bool_decide (check_len < length bytes) in
  match detect_by_bom sample with
  | Some r => Ok r
  | None =>
      u ← detect_utf8 sample sample_truncated;
      match u with
      | Some r => Ok r
      | None =>
          match detect_utf16_without_bom sample with
          | Some r => Ok r
          | None => Ok (detect_legacy_encoding sample)
          end
      end
  end.

Definition detect_encoding (bytes : list byte) : res Encoding :=
  r ← detect_encoding_or_binary bytes false; Ok r.1.

(** ** Conversion *)
Definition skip_utf16_bom (bytes : list byte) : list byte :=
  if starts_with bytes utf16le_bom || starts_with bytes utf16be_bom then drop 2 bytes else bytes.

Definition detect_and_convert (bytes : list byte) : res (Encoding * list byte) :=
  if decide (bytes = []) then Ok (Utf8, []) else
  e ← detect_encoding bytes;
  Ok (e, match e with
         | Utf8 | Ascii => bytes
         | Utf8Bom => drop 3 bytes
         | Utf16Le | Utf16Be => rs_decode (to_encoding_rs e) (skip_utf16_bom bytes)
         | _ => rs_decode (to_encoding_rs e) bytes
         end).

Definition convert_to_utf8 (bytes : list byte) (e : Encoding) : list byte :=
  if decide (bytes = []) then [] else
  match e with
  | Utf8 | Ascii => bytes
  | Utf8Bom =>
      if starts_with bytes utf8_bom && bool_decide (3 < length bytes) then drop 3 bytes else bytes
  | Utf16Le | Utf16Be => rs_decode (to_encoding_rs e) (skip_utf16_bom bytes)
  | _ => rs_decode (to_encoding_rs e) bytes
  end.

Definition to_le_bytes (u : N) : list byte := [byte_of u; byte_of (u / 256)].
Definition to_be_bytes (u : N) : list byte := [byte_of (u / 256); byte_of u].

Definition convert_from_utf8 (utf8_bytes : list byte) (e : Encoding) : list byte :=
  match e with
  | Utf8 | Ascii | Utf8Bom => utf8_bytes
  | Utf16Le => (from_utf8_lossy utf8_bytes ≫= encode_utf16) ≫= to_le_bytes
  | Utf16Be => (from_utf8_lossy utf8_bytes ≫= encode_utf16) ≫= to_be_bytes
  | _ => rs_encode (to_encoding_rs e) (from_utf8_lossy utf8_bytes)
  end.
End codecs.

(** ** UTF-8 is recognized *)
Lemma starts_with_take p k bs : length p <= k -> starts_with (take k bs) p = starts_with bs p.
Proof. intros. unfold starts_with. by rw take_take Nat.min_l. Qed.

Lemma detect_by_bom_take k bs : 3 <= k -> detect_by_bom (take k bs) = detect_by_bom bs.
Proof. intros. unfold detect_by_bom. rw !starts_with_take //; simpl; lia. Qed.

(** Valid UTF-8 starts with no UTF-16 mark. *)
Lemma valid_no_bom bs :
  from_utf8 bs = None -> starts_with bs utf8_bom = false -> detect_by_bom bs = None.
Proof.
  intros Hv Hb. unfold detect_by_bom. rw Hb. destruct bs as [|b bs]; [done|].
  assert (forall x, x = xff \/ x = xfe -> b <> x) as Hne.
  { intros x Hx ->. by destruct Hx as [-> | ->]. }
  unfold starts_with. cbn [length take utf16le_bom utf16be_bom].
  rw !bool_decide_eq_false_2 //; intros [= E _]; [apply (Hne xff)|apply (Hne xfe)]; auto.
Qed.

Lemma existsb_take {A} (p : A -> bool) k l : existsb p l = false -> existsb p (take k l) = false.
Proof.
  revert k. induction l as [|x l IH]; intros [|k]; [done..|]. simpl.
  intros [-> H]%orb_false_iff. by apply IH.
Qed.

(** A sample that is valid, or cut inside its last character. *)
Lemma detect_utf8_text sample truncated :
  existsb is_binary_control_char sample = false ->
  from_utf8 sample = None
  \/ (truncated = true /\ exists k, from_utf8 sample = Some (k, None)
      /\ length sample - 3 <= k < length sample /\ 3 < length sample) ->
  detect_utf8 sample truncated
  = Ok (Some (if forallb (fun b => (code b <? 128)%N) sample then Ascii else Utf8, false)).
Proof.
  intros Hc Hv. unfold detect_utf8. destruct Hv as [->|(-> & k & Hk & Hl & Hlen)].
  - rw decide_True //. simpl. rw take_ge // Hc bool_decide_eq_false_2; [lia|]. simpl.
    by destruct (forallb _ _).
  - rw Hk. rw decide_False; [lia|]. rw bool_decide_eq_true_2; [lia|]. cbn [andb].
    rw usub_Ok; [lia|]. cbn [mbind res_bind]. rw bool_decide_eq_true_2; [lia|]. cbn [negb].
    rw existsb_take // bool_decide_eq_true_2; [lia|]. cbn [negb andb].
    destruct (forallb _ sample) eqn:Ha; [|done]. unfold from_utf8 in Hk. by rw utf8_scan_ascii in Hk.
Qed.

(** The detection on valid UTF-8 text. *)
Lemma detect_valid_utf8 guess bytes truncated :
  from_utf8 bytes = None -> starts_with bytes utf8_bom = false ->
  existsb is_binary_control_char bytes = false ->
  detect_encoding_or_binary guess bytes truncated
  = Ok (if forallb (fun b => (code b <? 128)%N) (take (8 * 1024) bytes) then Ascii else Utf8, false).
Proof.
  intros Hv Hb Hc. unfold detect_encoding_or_binary.
  assert (3 < 8 * 1024) as Hk by lia. revert Hk. generalize (8 * 1024). intros k Hk.
  replace (take (Nat.min (length bytes) k) bytes) with (take k bytes).
  2: { destruct (decide (k <= length bytes)); [by rw Nat.min_r|]. rw Nat.min_l; [lia|].
       rw !take_ge //. lia. }
  rw detect_by_bom_take; [lia|]. rw valid_no_bom // detect_utf8_text //; [by apply existsb_take|].
  destruct (decide (length bytes <= k)) as [Hle|Hgt]; [left; by rw take_ge|].
  destruct (from_utf8_valid bytes Hv) as [He Hs]. rw He.
  destruct (from_utf8_prefix _ k Hs) as [?|(j & Hj & Hl)]; [rw -He; lia|by left|right].
  split; [rw -He; rw (bool_decide_eq_true_2 (_ < _)) ?orb_true_r //; lia|].
  exists j. rw length_take -He. rw -He in Hj. split; [done|]. lia.
Qed.

(** Valid UTF-8 without control characters and without a byte-order mark is
    recognized as text of that encoding, also when the first eight kilobytes that
    are looked at end inside a character: ASCII when those bytes are, else UTF-8. *)
Theorem utf8_text_detected guess bytes truncated :
  from_utf8 bytes = None -> starts_with bytes utf8_bom = false ->
  existsb is_binary_control_char bytes = false ->
  detect_encoding_or_binary guess bytes truncated
  = Ok (if forallb (fun b => (code b <? 128)%N) (take (8 * 1024) bytes) then Ascii else Utf8, false).
Proof. apply detect_valid_utf8. Qed.

Lemma utf8_text_detected_witness :
  detect_encoding_or_binary (fun _ => (OTHER_ENCODING, false)) [x63; xc3; xa9] true = Ok (Utf8, false).
Proof.
  apply (utf8_text_detected (fun _ => (OTHER_ENCODING, false)) [x63; xc3; xa9] true); vm_compute; reflexivity.
Defined.

(** ** Saving and opening again *)

(** The code units of a byte stream, and the decoder encoding_rs promises. *)
Definition le_units (bs : list byte) : list N := (fun p => code p.1 + 256 * code p.2)%N <$> pairs bs.
Definition be_units (bs : list byte) : list N := (fun p => 256 * code p.1 + code p.2)%N <$> pairs bs.

Definition unicode_decode (e : RsEncoding) (bs : list byte) : list byte :=
  match e with
  | UTF_16LE => encode_all (decode_utf16 (le_units bs))
  | UTF_16BE => encode_all (decode_utf16 (be_units bs))
  | _ => bs
  end.

Lemma units_roundtrip us :
  Forall (fun u => (u < 65536)%N) us ->
  le_units (us ≫= to_le_bytes) = us /\ be_units (us ≫= to_be_bytes) = us.
Proof.
  induction 1 as [|u us Hu _ [IH1 IH2]]; [done|]. unfold le_units, be_units, to_le_bytes, to_be_bytes in *.
  cbn [mbind list_bind app pairs fmap list_fmap fst snd]. 
  assert (code (byte_of u) = u mod 256 /\ code (byte_of (u / 256)) = u / 256)%N as [-> ->].
  { split; [|apply code_byte_of; lia]. rw -(code_byte_of (u mod 256)); [lia|].
    unfold byte_of. by rw N.Div0.mod_mod. }
  split; (f_equal; [lia|]); [exact IH1|exact IH2].
Qed.

(** What encoding_rs promises of well-formed UTF-16. *)
Definition decodes_utf16 (rs_decode : RsEncoding -> list byte -> list byte) : Prop :=
  forall cs, Forall (fun c => is_scalar c = true) cs ->
  rs_decode UTF_16LE ((cs ≫= encode_utf16) ≫= to_le_bytes) = encode_all cs
  /\ rs_decode UTF_16BE ((cs ≫= encode_utf16) ≫= to_be_bytes) = encode_all cs.

Lemma unicode_decode_ok : decodes_utf16 unicode_decode.
Proof.
  intros cs Hcs. destruct (units_roundtrip _ (encode_utf16_units cs Hcs)) as [H1 H2].
  unfold unicode_decode. by rw H1 H2 decode_encode_utf16.
Qed.

(** The bytes written for a text: the mark of the encoding, then the text in it. *)
Definition file_bytes (rs_encode : RsEncoding -> list N -> list byte) (t : list byte) (e : Encoding)
    : list byte := default [] (bom_bytes e) ++ convert_from_utf8 rs_encode t e.

Definition is_unicode (e : Encoding) : bool :=
  match e with Utf8 | Ascii | Utf8Bom | Utf16Le | Utf16Be => true | _ => false end.

Section reopen.
Context (guess : list byte -> RsEncoding * bool).
Context (rs_decode : RsEncoding -> list byte -> list byte).
Context (rs_encode : RsEncoding -> list N -> list byte).

Lemma marked_detected bom t e :
  bom_bytes e = Some bom -> detect_encoding_or_binary guess (bom ++ t) false = Ok (e, false).
Proof.
  intros Hb. unfold detect_encoding_or_binary.
  assert (3 <= 8 * 1024) as Hk by lia. revert Hk. generalize (8 * 1024). intros k Hk.
  assert (length bom <= 3) by (by destruct e; simplify_eq/=; lia).
  replace (take (Nat.min (length (bom ++ t)) k) (bom ++ t))
    with (bom ++ take (Nat.min (length (bom ++ t)) k - length bom) t).
  2: { rw take_app_ge //. rw length_app. lia. }
  generalize (Nat.min (length (bom ++ t)) k - length bom). intros j.
  assert (detect_by_bom (bom ++ take j t) = Some (e, false)) as ->; [|done].
  unfold detect_by_bom, starts_with.
  destruct e; simplify_eq/=; by rw ?take_0 ?bool_decide_eq_true_2.
Qed.

(** Detecting and converting what was written. *)
Lemma reopen_ok e t :
  decodes_utf16 rs_decode -> is_unicode e = true -> from_utf8 t = None ->
  (bom_bytes e = None ->
     starts_with t utf8_bom = false /\ existsb is_binary_control_char t = false) ->
  exists e', detect_and_convert guess rs_decode (file_bytes rs_encode t e) = Ok (e', t)
  /\ (t <> [] -> detect_encoding_or_binary guess (file_bytes rs_encode t e) false = Ok (e', false))
  /\ is_unicode e' = true /\ bom_bytes e' = bom_bytes e.
Proof.
  intros Hd He Hv Ht. destruct (from_utf8_valid t Hv) as [Henc Hs].
  destruct (Hd _ Hs) as [Hle Hbe]. unfold file_bytes.
  destruct (bom_bytes e) as [bom|] eqn:Hb.
  - exists e. pose proof (marked_detected bom (convert_from_utf8 rs_encode t e) e Hb) as Hm.
    split; [|by rw Hm]. unfold detect_and_convert, detect_encoding.
    rw decide_False; [by destruct e; try discriminate Hb; injection Hb as <-|]. rw Hm.
    destruct e; try discriminate Hb; injection Hb as <-; cbn [default id mbind res_bind fst to_encoding_rs convert_from_utf8].
    + done.
    + change (skip_utf16_bom _) with ((from_utf8_lossy t ≫= encode_utf16) ≫= to_le_bytes). by rw Hle -Henc.
    + change (skip_utf16_bom _) with ((from_utf8_lossy t ≫= encode_utf16) ≫= to_be_bytes). by rw Hbe -Henc.
  - destruct (Ht eq_refl) as [Hm Hc].
    assert (default [] None ++ convert_from_utf8 rs_encode t e = t) as -> by (by destruct e).
    unfold detect_and_convert, detect_encoding. rw detect_valid_utf8 //.
    case_decide as Hz; [subst; by exists Utf8|]. cbn [mbind res_bind fst].
    destruct (forallb _ _); [by exists Ascii|by exists Utf8].
Qed.

(** C39: a text that is valid UTF-8 is read back unchanged after it was written in
    UTF-8 (with or without mark), ASCII or UTF-16: the encoding is detected, exactly
    when the file has a mark, and the conversion is undone; without a mark the text
    must look like text, that is have no mark of its own and no control
    characters. *)
Theorem saved_text_reopens e t :
  decodes_utf16 rs_decode -> is_unicode e = true -> from_utf8 t = None ->
  (bom_bytes e = None ->
     starts_with t utf8_bom = false /\ existsb is_binary_control_char t = false) ->
  exists e', detect_and_convert guess rs_decode (file_bytes rs_encode t e) = Ok (e', t)
  /\ bom_bytes e' = bom_bytes e.
Proof.
  intros H1 H2 H3 H4. destruct (reopen_ok e t H1 H2 H3 H4) as (e' & Hc & _ & _ & Hb). by exists e'.
Qed.
End reopen.

Lemma saved_text_reopens_witness :
  exists e', detect_and_convert (fun _ => (OTHER_ENCODING, false)) unicode_decode
    (file_bytes (fun _ _ => []) [xf0; x9f; x98; x80] Utf16Le) = Ok (e', [xf0; x9f; x98; x80])
  /\ bom_bytes e' = bom_bytes Utf16Le.
Proof.
  apply (saved_text_reopens (fun _ => (OTHER_ENCODING, false)) unicode_decode (fun _ _ => [])
           Utf16Le [xf0; x9f; x98; x80] unicode_decode_ok); try reflexivity. intros H. discriminate H.
Defined.

(** A file that is only a mark: opened by detection it is empty, opened with the
    encoding chosen by hand the mark is its text. *)
Theorem lone_mark_kept rs_decode guess :
  detect_and_convert guess rs_decode utf8_bom = Ok (Utf8Bom, [])
  /\ convert_to_utf8 rs_decode utf8_bom Utf8Bom = utf8_bom.
Proof. done. Qed.
