(* ===== verification/PieceTreeDiff.v ===== *)
(** * Structural diff of two piece trees

    Models crates/fresh-editor-core/src/model/piece_tree_diff.rs: the parallel walk
    over two trees that skips shared subtrees and collects the leaves of the others
    as spans, and the comparison of the two span lists into changed byte ranges.

    [Arc::ptr_eq] is a parameter [ptr_eq]: two references to one node are equal
    nodes, nothing else is assumed.  The loops that walk a span list with an index
    and an offset into the current span are recursions on the rest of the list and
    that offset; they take as fuel the total number of spans, and the lemmas below
    show that no loop is cut short by it. *)
From stdpp Require Import base numbers list option.
From Stdlib Require Import ssreflect Strings.Byte.
From S2P Require Import Prelude TextSpec StringBuffer PieceTree PieceTreeInv.

Record Span : Type := mkSpan { sp_leaf : LeafData; doc_offset : nat }.

Record PieceTreeDiff : Type := mkDiff {
  diff_equal : bool;
  byte_ranges : list (nat * nat);
  nodes_visited : nat;
}.

Abbreviation sp_bytes s := (l_bytes (sp_leaf s)).
Definition span_end (s : Span) : nat := doc_offset s + sp_bytes s.

Fixpoint node_bytes (n : PieceTreeNode) : nat :=
  match n with
  | Internal left_bytes _ _ rgt => left_bytes + node_bytes rgt
  | Leaf _ _ bytes _ => bytes
  end.

(** [(out, nodes_visited, doc_offset)] after the walk. *)
Fixpoint collect_leaves_with_offsets (n : PieceTreeNode) (out : list Span) (visited off : nat)
    : list Span * nat * nat :=
  match n with
  | Internal _ _ lft rgt =>
      let '(out, visited, off) := collect_leaves_with_offsets lft out (S visited) off in
      collect_leaves_with_offsets rgt out visited off
  | Leaf location offset bytes line_feed_cnt =>
      (out ++ [mkSpan (mkLeaf location offset bytes line_feed_cnt) off], S visited, off + bytes)
  end.

(** The output vectors and counters of [diff_collect_leaves]. *)
Record walk : Type := mkWalk {
  before_out : list Span; after_out : list Span; visited : nat;
  before_off : nat; after_off : nat;
}.

Section diff.
Context (ptr_eq : PieceTreeNode -> PieceTreeNode -> bool).

Definition collect_both (before after : PieceTreeNode) (w : walk) : walk :=
  let '(b_out, v, b_off) :=
    collect_leaves_with_offsets before (before_out w) (visited w) (before_off w) in
  let '(a_out, v, a_off) := collect_leaves_with_offsets after (after_out w) v (after_off w) in
  mkWalk b_out a_out v b_off a_off.

Fixpoint diff_collect_leaves (before after : PieceTreeNode) (w : walk) : walk :=
  let w := mkWalk (before_out w) (after_out w) (visited w + 2) (before_off w) (after_off w) in
  if ptr_eq before after then
    let bytes := node_bytes before in
    mkWalk (before_out w) (after_out w) (visited w) (before_off w + bytes) (after_off w + bytes)
  else
    match before, after with
    | Internal _ _ b_left b_right, Internal _ _ a_left a_right =>
        diff_collect_leaves b_right a_right (diff_collect_leaves b_left a_left w)
    | _, _ => collect_both before after w
    end.

Definition spans_equal (a b : Span) : Prop :=
  l_location (sp_leaf a) = l_location (sp_leaf b) /\ l_offset (sp_leaf a) = l_offset (sp_leaf b)
  /\ sp_bytes a = sp_bytes b.
#[export] Instance spans_equal_dec a b : Decision (spans_equal a b) := _.

Definition span_slices_equal (a b : list Span) : bool :=
  bool_decide (length a = length b)
  && forallb (fun p => bool_decide (spans_equal p.1 p.2)) (zip a b).

(** The loop of [normalize_spans]; [current] is the span being extended. *)
Fixpoint merge_spans (current : Span) (spans : list Span) : list Span :=
  match spans with
  | [] => [current]
  | span :: spans =>
      let c := sp_leaf current in
      let l := sp_leaf span in
      if decide (l_location c = l_location l /\ l_offset c + l_bytes c = l_offset l
                 /\ doc_offset current + l_bytes c = doc_offset span) then
        merge_spans (mkSpan (mkLeaf (l_location c) (l_offset c) (l_bytes c + l_bytes l)
                               (opt_add (l_line_feed_cnt c) (l_line_feed_cnt l)))
                       (doc_offset current)) spans
      else current :: merge_spans span spans
  end.

Definition normalize_spans (spans : list Span) : list Span :=
  match spans with [] => [] | current :: spans => merge_spans current spans end.

(** [off += take; if off == bytes { idx += 1; off = 0 }] *)
Definition advance (spans : list Span) (off take : nat) : list Span * nat :=
  match spans with
  | [] => ([], off)
  | s :: rest => if decide (off + take = sp_bytes s) then (rest, 0) else (spans, off + take)
  end.

Definition same_data (b a : Span) (b_off a_off : nat) : Prop :=
  l_location (sp_leaf b) = l_location (sp_leaf a)
  /\ l_offset (sp_leaf b) + b_off = l_offset (sp_leaf a) + a_off.
#[export] Instance same_data_dec b a b_off a_off : Decision (same_data b a b_off a_off) := _.

Fixpoint prefix_loop (fuel : nat) (before : list Span) (b_off : nat) (after : list Span)
    (a_off consumed : nat) : nat :=
  match fuel, before, after with
  | S fuel, b :: _, a :: _ =>
      if decide (same_data b a b_off a_off /\ doc_offset b + b_off = doc_offset a + a_off) then
        let take := Nat.min (sp_bytes b - b_off) (sp_bytes a - a_off) in
        let '(before, b_off) := advance before b_off take in
        let '(after, a_off) := advance after a_off take in
        prefix_loop fuel before b_off after a_off (consumed + take)
      else consumed
  | _, _, _ => consumed
  end.

Definition common_prefix_bytes (before after : list Span) : nat :=
  prefix_loop (length before + length after) before 0 after 0 0.

Definition last_end (spans : list Span) : nat := default 0 (span_end <$> list.last spans).

(** [b_pos == a_pos] with positions counted from the ends of the spans. *)
Definition same_data_back (b a : Span) (b_off a_off : nat) : Prop :=
  l_location (sp_leaf b) = l_location (sp_leaf a)
  /\ l_offset (sp_leaf b) + sp_bytes b - b_off = l_offset (sp_leaf a) + sp_bytes a - a_off.
#[export] Instance same_data_back_dec b a b_off a_off : Decision (same_data_back b a b_off a_off) := _.

(** The lists are walked from their ends: they are given reversed. *)
Fixpoint suffix_loop (fuel total_before total_after prefix_bytes : nat) (before : list Span)
    (b_off : nat) (after : list Span) (a_off consumed : nat) : nat :=
  match fuel, before, after with
  | S fuel, b :: _, a :: _ =>
      if decide (prefix_bytes < total_before - consumed /\ prefix_bytes < total_after - consumed)
      then
        if decide (same_data_back b a b_off a_off) then
          let take := Nat.min (sp_bytes b - b_off) (sp_bytes a - a_off) in
          let '(before, b_off) := advance before b_off take in
          let '(after, a_off) := advance after a_off take in
          suffix_loop fuel total_before total_after prefix_bytes before b_off after a_off
            (consumed + take)
        else consumed
      else consumed
  | _, _, _ => consumed
  end.

Definition common_suffix_bytes (before after : list Span) (prefix_bytes : nat) : nat :=
  let total_before := last_end before in
  let total_after := last_end after in
  Nat.min
    (suffix_loop (length before + length after) total_before total_after prefix_bytes
       (reverse before) 0 (reverse after) 0 0)
    (total_after - prefix_bytes).

(** The first loop of [collect_diff_ranges]: skip the matching prefix. *)
Fixpoint skip_prefix (fuel prefix : nat) (before : list Span) (b_off : nat) (after : list Span)
    (a_off matched : nat) : list Span * nat * list Span * nat :=
  match fuel, before, after with
  | S fuel, b :: _, a :: _ =>
      if decide (matched < prefix) then
        let take := Nat.min (Nat.min (sp_bytes b - b_off) (sp_bytes a - a_off)) (prefix - matched) in
        let '(before, b_off) := advance before b_off take in
        let '(after, a_off) := advance after a_off take in
        skip_prefix fuel prefix before b_off after a_off (matched + take)
      else (before, b_off, after, a_off)
  | _, _, _ => (before, b_off, after, a_off)
  end.

(** The state of the second loop: [current_start], [current_end], [ranges]. *)
Definition close_range (start : option nat) (end_ : nat) (ranges : list (nat * nat))
    : list (nat * nat) :=
  match start with Some s => ranges ++ [(s, end_)] | None => ranges end.

Fixpoint diff_loop (fuel compare_limit : nat) (before : list Span) (b_off : nat)
    (after : list Span) (a_off : nat) (start : option nat) (end_ : nat)
    (ranges : list (nat * nat)) : list Span * nat * option nat * nat * list (nat * nat) :=
  match fuel, after with
  | S fuel, a :: _ =>
      let pos := doc_offset a + a_off in
      if decide (compare_limit <= pos) then (after, a_off, start, end_, ranges) else
      let gap := match start with Some _ => bool_decide (end_ < pos) | None => false end in
      let ranges := if gap : bool then close_range start end_ ranges else ranges in
      let start := if gap : bool then None else start in
      let mismatch :=
        let take := Nat.min (sp_bytes a - a_off) (compare_limit - pos) in
        let '(after, a_off) := advance after a_off take in
        diff_loop fuel compare_limit before b_off after a_off (Some (default pos start))
          (pos + take) ranges in
      match before with
      | b :: _ =>
          if decide (same_data b a b_off a_off) then
            let take := Nat.min (Nat.min (sp_bytes b - b_off) (sp_bytes a - a_off))
                          (compare_limit - pos) in
            let ranges := close_range start end_ ranges in
            let '(before, b_off) := advance before b_off take in
            let '(after, a_off) := advance after a_off take in
            diff_loop fuel compare_limit before b_off after a_off None end_ ranges
          else mismatch
      | [] => mismatch
      end
  | _, _ => (after, a_off, start, end_, ranges)
  end.

(** The last loop: unmatched spans up to the suffix. *)
Fixpoint trailing_ranges (compare_limit : nat) (after : list Span) (a_off : nat)
    (ranges : list (nat * nat)) : list (nat * nat) :=
  match after with
  | [] => ranges
  | a :: after =>
      let start := doc_offset a + a_off in
      if decide (compare_limit <= start) then ranges
      else trailing_ranges compare_limit after 0
             (ranges ++ [(start, Nat.min (span_end a) compare_limit)])
  end.

Definition collect_diff_ranges (before after : list Span) (prefix suffix : nat)
    : list (nat * nat) :=
  let '(before', b_off, after', a_off) :=
    skip_prefix (length before + length after) prefix before 0 after 0 0 in
  let compare_limit := last_end after - suffix in
  let doc_start := default 0 (doc_offset <$> head after) in
  let '(after', a_off, start, end_, ranges) :=
    diff_loop (length before' + length after') compare_limit before' b_off after' a_off
      None 0 [] in
  let ranges := trailing_ranges compare_limit after' a_off (close_range start end_ ranges) in
  match ranges with [] => [(doc_start + prefix, compare_limit)] | _ => ranges end.

Definition diff_piece_trees (before after : PieceTreeNode) : PieceTreeDiff :=
  if ptr_eq before after then mkDiff true [] 1 else
  let w := diff_collect_leaves before after (mkWalk [] [] 0 0 0) in
  let before_spans := normalize_spans (before_out w) in
  let after_spans := normalize_spans (after_out w) in
  if span_slices_equal before_spans after_spans then mkDiff true [] (visited w) else
  let prefix := common_prefix_bytes before_spans after_spans in
  let suffix := common_suffix_bytes before_spans after_spans prefix in
  mkDiff false (collect_diff_ranges before_spans after_spans prefix suffix) (visited w).
End diff.

(** ** Fuel

    Every iteration of a loop finishes a span of one of the lists, or reaches the
    bound that stops the loop: giving a loop more fuel than the number of spans
    changes nothing. *)
Definition in_span (spans : list Span) (off : nat) : Prop :=
  match spans with s :: _ => off <= sp_bytes s | [] => True end.

Lemma advance_in_span s spans off take :
  off + take <= sp_bytes s ->
  let '(spans', off') := advance (s :: spans) off take in
  in_span spans' off' /\ length spans' <= S (length spans)
  /\ (off + take = sp_bytes s -> length spans' <= length spans).
Proof.
  intros H. unfold advance. case_decide; simpl; [|split_and!; lia].
  split; [|lia]. destruct spans; simpl; [done|lia].
Qed.

(** One step of a loop that moves both lists by the same amount. *)
Lemma advance_both b before a after b_off a_off take :
  in_span (b :: before) b_off -> in_span (a :: after) a_off ->
  take <= Nat.min (sp_bytes b - b_off) (sp_bytes a - a_off) ->
  let '(before', b_off') := advance (b :: before) b_off take in
  let '(after', a_off') := advance (a :: after) a_off take in
  in_span before' b_off' /\ in_span after' a_off'
  /\ length before' + length after' <= S (length before + S (length after))
  /\ (take = Nat.min (sp_bytes b - b_off) (sp_bytes a - a_off) ->
      length before' + length after' <= length before + S (length after)).
Proof.
  simpl in_span. intros Hb Ha Ht.
  pose proof (advance_in_span b before b_off take ltac:(lia)) as H1.
  pose proof (advance_in_span a after a_off take ltac:(lia)) as H2.
  destruct (advance (b :: before) b_off take) as [before' b_off'].
  destruct (advance (a :: after) a_off take) as [after' a_off'].
  destruct H1 as (? & ? & H1), H2 as (? & ? & H2). split_and!; [done..|lia|]. intros ->.
  destruct (decide (sp_bytes b - b_off <= sp_bytes a - a_off)); [specialize (H1 ltac:(lia))|
    specialize (H2 ltac:(lia))]; lia.
Qed.

Lemma prefix_loop_fuel f k before b_off after a_off consumed :
  length before + length after <= f -> in_span before b_off -> in_span after a_off ->
  prefix_loop (k + f) before b_off after a_off consumed
  = prefix_loop f before b_off after a_off consumed.
Proof.
  revert before b_off after a_off consumed. induction f as [|f IH];
    intros before b_off after a_off consumed Hf Hb Ha.
  { destruct before, after; simpl in Hf; try lia. by destruct (k + 0). }
  rw -plus_n_Sm. destruct before as [|b before]; [done|]. destruct after as [|a after]; [done|].
  simpl in Hf.
  cbn [prefix_loop]. case_decide; [|done].
  pose proof (advance_both b before a after b_off a_off _ Hb Ha (le_n _)) as H'.
  destruct (advance (b :: before) _ _) as [b' bo], (advance (a :: after) _ _) as [a' ao].
  destruct H' as (? & ? & _ & Hlen). specialize (Hlen eq_refl). apply IH; [lia|done..].
Qed.

Lemma suffix_loop_fuel f k tb ta p before b_off after a_off consumed :
  length before + length after <= f -> in_span before b_off -> in_span after a_off ->
  suffix_loop (k + f) tb ta p before b_off after a_off consumed
  = suffix_loop f tb ta p before b_off after a_off consumed.
Proof.
  revert before b_off after a_off consumed. induction f as [|f IH];
    intros before b_off after a_off consumed Hf Hb Ha.
  { destruct before, after; simpl in Hf; try lia. by destruct (k + 0). }
  rw -plus_n_Sm. destruct before as [|b before]; [done|]. destruct after as [|a after]; [done|].
  simpl in Hf.
  cbn [suffix_loop]. case_decide; [|done]. case_decide; [|done].
  pose proof (advance_both b before a after b_off a_off _ Hb Ha (le_n _)) as H'.
  destruct (advance (b :: before) _ _) as [b' bo], (advance (a :: after) _ _) as [a' ao].
  destruct H' as (? & ? & _ & Hlen). specialize (Hlen eq_refl). apply IH; [lia|done..].
Qed.

Lemma skip_prefix_done f p before b_off after a_off matched :
  p <= matched ->
  skip_prefix f p before b_off after a_off matched = (before, b_off, after, a_off).
Proof. intros. destruct f, before, after; try done. cbn. by rw decide_False; [lia|]. Qed.

Lemma skip_prefix_fuel f k p before b_off after a_off matched :
  length before + length after <= f -> in_span before b_off -> in_span after a_off ->
  skip_prefix (k + f) p before b_off after a_off matched
  = skip_prefix f p before b_off after a_off matched.
Proof.
  revert before b_off after a_off matched. induction f as [|f IH];
    intros before b_off after a_off matched Hf Hb Ha.
  { destruct before, after; simpl in Hf; try lia. by destruct (k + 0). }
  rw -plus_n_Sm. destruct before as [|b before]; [done|]. destruct after as [|a after]; [done|].
  simpl in Hf.
  cbn [skip_prefix]. case_decide as Hm; [|done].
  set (m := Nat.min (sp_bytes b - b_off) (sp_bytes a - a_off)).
  pose proof (advance_both b before a after b_off a_off (Nat.min m (p - matched)) Hb Ha
    ltac:(unfold m; lia)) as H'.
  destruct (advance (b :: before) _ _) as [b' bo], (advance (a :: after) _ _) as [a' ao].
  destruct H' as (? & ? & _ & Hlen). destruct (decide (m <= p - matched)).
  - apply IH; [|done..]. specialize (Hlen ltac:(unfold m in *; lia)). lia.
  - rw !skip_prefix_done //; lia.
Qed.

Lemma diff_loop_done f lim before b_off a after a_off start end_ ranges :
  lim <= doc_offset a + a_off ->
  diff_loop f lim before b_off (a :: after) a_off start end_ ranges
  = (a :: after, a_off, start, end_, ranges).
Proof. intros. destruct f; [done|]. cbn [diff_loop]. by rw decide_True. Qed.

Lemma diff_loop_fuel f k lim before b_off after a_off start end_ ranges :
  length before + length after <= f -> in_span before b_off -> in_span after a_off ->
  diff_loop (k + f) lim before b_off after a_off start end_ ranges
  = diff_loop f lim before b_off after a_off start end_ ranges.
Proof.
  revert before b_off after a_off start end_ ranges. induction f as [|f IH];
    intros before b_off after a_off start end_ ranges Hf Hb Ha.
  { destruct before, after; simpl in Hf; try lia. by destruct (k + 0). }
  rw -plus_n_Sm. destruct after as [|a after]; [done|]. cbn [diff_loop].
  case_decide as Hpos; [done|]. simpl in Hf, Ha.
  set (gap := match start with Some _ => _ | None => _ end).
  set (ranges' := if gap then _ else ranges). set (start' := if gap then None else start).
  assert (forall start end_ ranges,
    let take := Nat.min (sp_bytes a - a_off) (lim - (doc_offset a + a_off)) in
    let '(after', a_off') := advance (a :: after) a_off take in
    diff_loop (k + f) lim before b_off after' a_off' start end_ ranges
    = diff_loop f lim before b_off after' a_off' start end_ ranges) as Hmis.
  { intros st en rs take. unfold advance. case_decide; [|by rw !diff_loop_done; [lia..|]].
    apply IH; [lia|done|]. destruct after; simpl; [done|lia]. }
  destruct before as [|b before].
  { specialize (Hmis (Some (default (doc_offset a + a_off) start'))
      (doc_offset a + a_off + Nat.min (sp_bytes a - a_off) (lim - (doc_offset a + a_off))) ranges').
    cbv zeta in Hmis. by destruct (advance (a :: after) _ _). }
  case_decide as Hsame.
  2: { specialize (Hmis (Some (default (doc_offset a + a_off) start'))
      (doc_offset a + a_off + Nat.min (sp_bytes a - a_off) (lim - (doc_offset a + a_off))) ranges').
    cbv zeta in Hmis. by destruct (advance (a :: after) _ _). }
  clear Hmis. set (m := Nat.min (sp_bytes b - b_off) (sp_bytes a - a_off)).
  destruct (decide (m <= lim - (doc_offset a + a_off))).
  - rw (Nat.min_l m); [done|].
    pose proof (advance_both b before a after b_off a_off m Hb Ha (le_n _)) as H'.
    destruct (advance (b :: before) _ _) as [b' bo], (advance (a :: after) _ _) as [a' ao].
    destruct H' as (? & ? & _ & Hlen). specialize (Hlen eq_refl). simpl in Hf. apply IH; [lia|done..].
  - rw (Nat.min_r m); [lia|]. destruct (advance (b :: before) _ _) as [b' bo]. unfold advance.
    rw decide_False; [unfold m in *; lia|]. by rw !diff_loop_done; [lia..|].
Qed.

(** ** The walk without shared subtrees *)

(** Whether the parallel walk meets a shared subtree. *)
Fixpoint shares (ptr_eq : PieceTreeNode -> PieceTreeNode -> bool) (before after : PieceTreeNode)
    : bool :=
  ptr_eq before after ||
  match before, after with
  | Internal _ _ bl br, Internal _ _ al ar => shares ptr_eq bl al || shares ptr_eq br ar
  | _, _ => false
  end.

(** The spans of a list of leaves that starts at document offset [off]. *)
Fixpoint place (off : nat) (ls : list LeafData) : list Span :=
  match ls with [] => [] | l :: ls => mkSpan l off :: place (off + l_bytes l) ls end.

Lemma place_app off ls ks :
  place off (ls ++ ks) = place off ls ++ place (off + length (cells_of ls)) ks.
Proof.
  revert off. induction ls as [|l ls IH]; intros off; simpl; [by rw Nat.add_0_r|].
  rw IH cells_of_cons length_app length_leaf_cells. by rw Nat.add_assoc.
Qed.

Lemma collect_leaves_with_offsets_eq n out v off :
  exists v', collect_leaves_with_offsets n out v off
    = (out ++ place off (node_leaves n), v', off + length (node_cells n)).
Proof.
  revert out v off. induction n as [lb lf l IHl r IHr|]; intros out v off; simpl.
  - destruct (IHl out (S v) off) as [v1 ->].
    destruct (IHr (out ++ place off (node_leaves l)) v1 (off + length (node_cells l))) as [v2 ->].
    exists v2. rw place_app node_cells_Internal length_app -app_assoc Nat.add_assoc //.
  - eexists. by rw node_cells_Leaf length_leaf_cells.
Qed.

Lemma diff_collect_leaves_eq ptr_eq b a w :
  shares ptr_eq b a = false ->
  exists v, diff_collect_leaves ptr_eq b a w
    = mkWalk (before_out w ++ place (before_off w) (node_leaves b))
        (after_out w ++ place (after_off w) (node_leaves a)) v
        (before_off w + length (node_cells b)) (after_off w + length (node_cells a)).
Proof.
  assert (forall b a w, exists v, collect_both b a w
    = mkWalk (before_out w ++ place (before_off w) (node_leaves b))
        (after_out w ++ place (after_off w) (node_leaves a)) v
        (before_off w + length (node_cells b)) (after_off w + length (node_cells a))) as Hboth.
  { intros b' a' w'. unfold collect_both.
    destruct (collect_leaves_with_offsets_eq b' (before_out w') (visited w') (before_off w'))
      as [v1 ->].
    destruct (collect_leaves_with_offsets_eq a' (after_out w') v1 (after_off w')) as [v2 ->].
    by exists v2. }
  revert a w. induction b as [lb lf bl IHl br IHr|]; intros a w Hs; destruct a as [lb' lf' al ar|];
    simpl in Hs; apply orb_false_iff in Hs as [Hp Hs];
    cbn [diff_collect_leaves]; rw Hp; [|exact (Hboth _ _ (mkWalk _ _ _ _ _))..].
  apply orb_false_iff in Hs as [Hl Hr].
  destruct (IHl al (mkWalk (before_out w) (after_out w) (visited w + 2) (before_off w) (after_off w))
              Hl) as [v1 ->]. simpl.
  edestruct (IHr ar) as [v2 ->]; [done|]. exists v2. simpl.
  rw !place_app !node_cells_Internal !length_app -!app_assoc !Nat.add_assoc //.
Qed.

(** ** Normalized spans *)
Lemma merge_spans_cells c off ls :
  cells_of (sp_leaf <$> merge_spans (mkSpan c off) (place (off + l_bytes c) ls))
  = leaf_cells c ++ cells_of ls.
Proof.
  revert c off. induction ls as [|l ls IH]; intros c off; simpl; [done|].
  case_decide as Hc.
  - destruct Hc as (Hloc & Hoff & _). rw -Nat.add_assoc.
    rw (IH (mkLeaf _ _ _ _)). rw cells_of_cons app_assoc. f_equal.
    destruct c as [cl co cb cc], l as [ll lo lb lc]; simpl in *; subst.
    by rw (leaf_cells_split _ _ _ _ _ cc lc).
  - rw fmap_cons cells_of_cons IH //.
Qed.

Lemma normalize_spans_cells ls : cells_of (sp_leaf <$> normalize_spans (place 0 ls)) = cells_of ls.
Proof.
  destruct ls as [|l ls]; [done|]. simpl. rw (merge_spans_cells l 0) //.
Qed.

(** Spans of a document: no two neighbours could be one span. *)
Fixpoint maximal (ls : list LeafData) : Prop :=
  match ls with
  | l :: ((k :: _) as ls') =>
      ~ (l_location l = l_location k /\ l_offset l + l_bytes l = l_offset k) /\ maximal ls'
  | _ => True
  end.

Lemma merge_spans_maximal c off ls :
  maximal (sp_leaf <$> merge_spans (mkSpan c off) (place (off + l_bytes c) ls))
  /\ (exists b n, head (sp_leaf <$> merge_spans (mkSpan c off) (place (off + l_bytes c) ls))
      = Some (mkLeaf (l_location c) (l_offset c) b n)).
Proof.
  revert c off. induction ls as [|l ls IH]; intros c off; simpl.
  { split; [done|]. destruct c. by eexists _, _. }
  case_decide as Hc.
  - rw -Nat.add_assoc. destruct (IH (mkLeaf (l_location c) (l_offset c) (l_bytes c + l_bytes l)
      (opt_add (l_line_feed_cnt c) (l_line_feed_cnt l))) off) as [H1 H2]. done.
  - split; [|destruct c; by eexists _, _].
    destruct (IH l (off + l_bytes c)) as [H1 (b & n & H2)].
    rw fmap_cons. destruct (sp_leaf <$> merge_spans _ _) as [|k ks] eqn:E; [done|].
    simpl in H2. injection H2 as ->. split; [|done]. simpl. intros [? ?]. apply Hc. auto.
Qed.

Lemma merge_spans_nonempty c off ls :
  0 < l_bytes c -> Forall (fun l => 0 < l_bytes l) ls ->
  Forall (fun l => 0 < l_bytes l) (sp_leaf <$> merge_spans (mkSpan c off) (place (off + l_bytes c) ls)).
Proof.
  revert c off. induction ls as [|l ls IH]; intros c off Hc Hls; simpl; [by solve_Forall|].
  apply Forall_cons_1 in Hls as [Hl Hls]. case_decide.
  - rw -Nat.add_assoc. apply (IH (mkLeaf _ _ _ _)); [simpl; lia|done].
  - rw fmap_cons. apply Forall_cons_2; [done|]. by apply IH.
Qed.

Definition same_place (l k : LeafData) : Prop :=
  l_location l = l_location k /\ l_offset l = l_offset k /\ l_bytes l = l_bytes k.

(** The first cell past the end of a maximal run is not the next one of its
    buffer. *)
Lemma maximal_run l ls c :
  maximal (l :: ls) -> Forall (fun l => 0 < l_bytes l) ls -> head (cells_of ls) = Some c ->
  c <> (l_location l, l_offset l + l_bytes l).
Proof.
  destruct ls as [|[loc off b n] ls]; [done|]. intros [Hm _] Hne Hc ->.
  apply Forall_cons_1 in Hne as [Hb _]. simpl in Hb. destruct b as [|b]; [lia|].
  rw cells_of_cons in Hc. unfold leaf_cells in Hc. simpl in Hc. injection Hc as -> ->.
  by apply Hm.
Qed.

(** A document has only one decomposition into maximal runs. *)
Lemma maximal_unique ls ks :
  maximal ls -> maximal ks ->
  Forall (fun l => 0 < l_bytes l) ls -> Forall (fun l => 0 < l_bytes l) ks ->
  cells_of ls = cells_of ks -> Forall2 same_place ls ks.
Proof.
  assert (forall l k ls ks, maximal (l :: ls) -> Forall (fun l => 0 < l_bytes l) ls ->
    cells_of (l :: ls) = cells_of (k :: ks) -> l_location l = l_location k ->
    l_offset l = l_offset k -> ~ l_bytes l < l_bytes k) as Hlen.
  { intros l k ls' ks' Hm Hne Hc Hloc Hoff Hlt.
    apply (f_equal (drop (l_bytes l))) in Hc. rw !cells_of_cons in Hc.
    rw drop_app_length' in Hc; [by rw length_leaf_cells|].
    rw drop_app_le in Hc; [rw length_leaf_cells; lia|]. rw drop_leaf_cells in Hc.
    eapply (maximal_run l ls' (l_location l, l_offset l + l_bytes l)); [done..| |done].
    rw Hc. unfold leaf_cells. simpl. destruct (l_bytes k - l_bytes l) eqn:E; [lia|].
    simpl. by rw Hloc Hoff. }
  revert ks. induction ls as [|l ls IH]; intros [|k ks] Hm1 Hm2 Hn1 Hn2 Hc; [constructor|..].
  1, 2: apply (f_equal length) in Hc; rw !length_cells_of /= in Hc.
  { apply Forall_cons_1 in Hn2 as [? _]. lia. }
  { apply Forall_cons_1 in Hn1 as [? _]. lia. }
  apply Forall_cons_1 in Hn1 as [Hl Hn1]. apply Forall_cons_1 in Hn2 as [Hk Hn2].
  assert (l_location l = l_location k /\ l_offset l = l_offset k) as [Hloc Hoff].
  { rw !cells_of_cons in Hc. unfold leaf_cells in Hc.
    destruct (l_bytes l), (l_bytes k); [lia..|]. simpl in Hc. injection Hc. auto. }
  assert (l_bytes l = l_bytes k) as Hb.
  { pose proof (Hlen l k ls ks Hm1 Hn1 Hc Hloc Hoff).
    pose proof (Hlen k l ks ls Hm2 Hn2 (eq_sym Hc) (eq_sym Hloc) (eq_sym Hoff)). lia. }
  constructor; [done|]. apply IH; [by destruct ls; [|destruct Hm1]|by destruct ks; [|destruct Hm2]|done..|].
  rw !cells_of_cons in Hc. apply app_inj_1 in Hc as [_ ?]; [done|]. by rw !length_leaf_cells.
Qed.

Lemma span_slices_equal_spec a b :
  span_slices_equal a b = true <-> Forall2 same_place (sp_leaf <$> a) (sp_leaf <$> b).
Proof.
  unfold span_slices_equal. rw andb_true_iff bool_decide_eq_true.
  revert b. induction a as [|x a IH]; intros [|y b]; simpl.
  - split; [by constructor|done].
  - split; [by intros [? _]|intros H; inversion H].
  - split; [by intros [? _]|intros H; inversion H].
  - rw andb_true_iff bool_decide_eq_true. split.
    + intros (Hlen & Hx & Ha). constructor; [done|]. apply IH. split; [lia|done].
    + intros H. inversion H; subst. assert (length a = length b /\ _) as [? ?] by (by apply IH).
      split; [lia|done].
Qed.

(** Leaves in the same places have the same cells. *)
Lemma same_place_cells ls ks : Forall2 same_place ls ks -> cells_of ls = cells_of ks.
Proof.
  induction 1 as [|l k ls ks (Hl & Ho & Hb) _ IH]; [done|].
  rw !cells_of_cons IH. unfold leaf_cells. by rw Hl Ho Hb.
Qed.

(** ** Properties *)

(** C30: when the two trees share no subtree and have no empty pieces, the
    structural diff says "equal" exactly when they are the same document: the same
    bytes of the same buffers in the same order, whatever the shapes of the trees
    and the cuts between pieces. *)
Theorem diff_equal_iff_same_doc ptr_eq before after :
  shares ptr_eq before after = false ->
  Forall (fun l => 0 < l_bytes l) (node_leaves before) ->
  Forall (fun l => 0 < l_bytes l) (node_leaves after) ->
  diff_equal (diff_piece_trees ptr_eq before after) = true
  <-> node_cells before = node_cells after.
Proof.
  intros Hs Hb Ha. unfold diff_piece_trees.
  assert (ptr_eq before after = false) as ->.
  { destruct before, after; simpl in Hs; by apply orb_false_iff in Hs as [? _]. }
  destruct (diff_collect_leaves_eq ptr_eq before after (mkWalk [] [] 0 0 0) Hs) as [v ->]. simpl.
  assert (span_slices_equal (normalize_spans (place 0 (node_leaves before)))
            (normalize_spans (place 0 (node_leaves after))) = true
          <-> node_cells before = node_cells after) as <-.
  2: { by destruct (span_slices_equal _ _). }
  unfold node_cells. rw span_slices_equal_spec -(normalize_spans_cells (node_leaves before))
    -(normalize_spans_cells (node_leaves after)). split; [apply same_place_cells|].
  pose proof (node_leaves_nonempty before). pose proof (node_leaves_nonempty after).
  destruct (node_leaves before) as [|l ls]; [simpl in *; lia|].
  destruct (node_leaves after) as [|k ks]; [simpl in *; lia|].
  apply Forall_cons_1 in Hb as [? ?]. apply Forall_cons_1 in Ha as [? ?].
  apply maximal_unique; [apply (merge_spans_maximal l 0) | apply (merge_spans_maximal k 0)
    | by apply (merge_spans_nonempty l 0) | by apply (merge_spans_nonempty k 0)].
Qed.

(** One document as one piece and as two. *)
Lemma diff_equal_iff_same_doc_witness :
  diff_equal (diff_piece_trees (fun _ _ => false) (Leaf (Stored 0) 3 5 None)
    (Internal 2 None (Leaf (Stored 0) 3 2 None) (Leaf (Stored 0) 5 3 None))) = true.
Proof.
  apply (diff_equal_iff_same_doc (fun _ _ => false) (Leaf (Stored 0) 3 5 None)
    (Internal 2 None (Leaf (Stored 0) 3 2 None) (Leaf (Stored 0) 5 3 None)));
    [done|by solve_Forall; simpl; lia..|done].
Defined.
