(* ===== verification/Persistence.v ===== *)
(** * Persistence state of a text buffer

    Models crates/fresh-editor-core/src/model/buffer/persistence.rs: the dirty
    flags, the tree as it was last saved and the comparison of the current tree
    against it.  The file-system handle is not part of the record: the operations
    that use it take it as a parameter.  Paths are strings, modification times and
    content digests are the numbers that identify them. *)
From stdpp Require Import base numbers list option strings.
From Stdlib Require Import ssreflect Strings.Byte ZArith.
From S2P Require Import Prelude TextSpec StringBuffer PieceTree PieceTreeDiff.

Record HotExitEntry : Type := mkHotExit { he_id : string; metadata_path : string }.

Record Persistence : Type := mkPersistence {
  file_path : option string;
  modified : bool;
  recovery_pending : bool;
  hot_exit_entry : option HotExitEntry;
  saved_root : PieceTreeNode;
  saved_file_size : option nat;
  source_torn : bool;
  torn_write : option (string * Z);
  saved_content : option (Z * Z);
  save_state_version : Z;
  saved_diff_memo : option (Z * Z * PieceTreeDiff);
}.

(** [u64::wrapping_add(1)] *)
Definition wrapping_succ (v : Z) : Z := ((v + 1) mod 2 ^ 64)%Z.

Definition persistence_new (path : option string) (root : PieceTreeNode)
    (file_size : option nat) : Persistence :=
  mkPersistence path false false None root file_size false None None 0%Z None.

Definition set_file_path (p : Persistence) (path : string) : Persistence :=
  mkPersistence (Some path) (modified p) (recovery_pending p) (hot_exit_entry p) (saved_root p)
    (saved_file_size p) (source_torn p) (torn_write p) (saved_content p) (save_state_version p)
    (saved_diff_memo p).

Definition set_saved_file_size (p : Persistence) (size : option nat) : Persistence :=
  mkPersistence (file_path p) (modified p) (recovery_pending p) (hot_exit_entry p) (saved_root p)
    size (source_torn p) (torn_write p) (saved_content p) (save_state_version p)
    (saved_diff_memo p).

(** [set_source_torn(false)] and [set_torn_write(None)], which a finished save
    always does together. *)
Definition clear_torn (p : Persistence) : Persistence :=
  mkPersistence (file_path p) (modified p) (recovery_pending p) (hot_exit_entry p) (saved_root p)
    (saved_file_size p) false None (saved_content p) (save_state_version p) (saved_diff_memo p).

Definition set_recovery_pending (p : Persistence) (pending : bool) : Persistence :=
  mkPersistence (file_path p) (modified p) pending (hot_exit_entry p) (saved_root p)
    (saved_file_size p) (source_torn p) (torn_write p) (saved_content p) (save_state_version p)
    (saved_diff_memo p).

(** The fields that the save state consists of: every change of [saved_root] or
    [modified] moves [save_state_version]. *)
Definition set_save_state (p : Persistence) (m r : bool) (root : PieceTreeNode) : Persistence :=
  mkPersistence (file_path p) m r (hot_exit_entry p) root (saved_file_size p) (source_torn p)
    (torn_write p) (saved_content p) (wrapping_succ (save_state_version p)) (saved_diff_memo p).

Definition set_modified (p : Persistence) (m : bool) : Persistence :=
  set_save_state p m (recovery_pending p) (saved_root p).

Definition clear_modified (p : Persistence) : Persistence :=
  set_save_state p false (recovery_pending p) (saved_root p).

Definition mark_dirty (p : Persistence) : Persistence :=
  set_save_state p true true (saved_root p).

Definition set_saved_root (p : Persistence) (root : PieceTreeNode) : Persistence :=
  set_save_state p (modified p) (recovery_pending p) root.

Definition mark_saved_snapshot (p : Persistence) (t : PieceTree) : Persistence :=
  set_save_state p false (recovery_pending p) (root t).

Definition refresh_saved_root_if_unmodified (p : Persistence) (t : PieceTree) : Persistence :=
  if negb (modified p) then set_save_state p (modified p) (recovery_pending p) (root t) else p.

(** One leaf of the saved tree under [apply_chunk_load_to_saved_root]; [None] when
    the leaf is kept as it is. *)
Definition chunk_load_leaf (old_buffer_id chunk_start chunk_bytes new_buffer_id : nat)
    (leaf : LeafData) : option (list LeafData) :=
  if decide (buffer_id (l_location leaf) <> old_buffer_id) then None else
  let leaf_start := l_offset leaf in
  let leaf_end := l_offset leaf + l_bytes leaf in
  let chunk_end := chunk_start + chunk_bytes in
  if decide (leaf_end <= chunk_start \/ chunk_end <= leaf_start) then None else
  let prefix :=
    if decide (leaf_start < chunk_start)
    then [mkLeaf (l_location leaf) (l_offset leaf) (chunk_start - leaf_start) None] else [] in
  let actual_start := Nat.max chunk_start leaf_start in
  let actual_end := Nat.min chunk_end leaf_end in
  let chunk := mkLeaf (Added new_buffer_id) (actual_start - chunk_start)
                 (actual_end - actual_start) None in
  let suffix :=
    if decide (chunk_end < leaf_end)
    then [mkLeaf (l_location leaf) chunk_end (leaf_end - chunk_end) None] else [] in
  Some (prefix ++ [chunk] ++ suffix).

Definition apply_chunk_load_to_saved_root (p : Persistence)
    (old_buffer_id chunk_offset_in_buffer chunk_bytes new_buffer_id : nat) : Persistence :=
  let leaves := collect_leaves (saved_root p) [] in
  let loaded := chunk_load_leaf old_buffer_id chunk_offset_in_buffer chunk_bytes new_buffer_id in
  let new_leaves := leaves ≫= (fun leaf => default [leaf] (loaded leaf)) in
  if existsb (fun leaf => bool_decide (is_Some (loaded leaf))) leaves
  then set_saved_root p (root (from_leaves new_leaves)) else p.

Definition saved_tree (p : Persistence) : PieceTree := from_root (saved_root p).

Definition saved_total_bytes (p : Persistence) : nat := total_bytes (saved_tree p).

Definition extract_saved_range (p : Persistence) (start end_ : nat) (buffers : list StringBuffer)
    : option (list byte) :=
  read_range (saved_tree p) buffers start (end_ - start).

Definition range_differs (saved current : PieceTree) (buffers : list StringBuffer)
    (range : nat * nat) : bool :=
  let '(start, end_) := range in
  if decide (end_ <= start) then false else
  match read_range saved buffers start (end_ - start),
        read_range current buffers start (end_ - start) with
  | Some s, Some c => bool_decide (s <> c)
  | _, _ => true
  end.

Definition verify_content_differs_in_ranges (p : Persistence) (ranges : list (nat * nat))
    (t : PieceTree) (buffers : list StringBuffer) : bool :=
  let saved := saved_tree p in
  if decide (total_bytes saved <> total_bytes t) then true
  else existsb (range_differs saved t buffers) ranges.

Definition MAX_VERIFY_BYTES : nat := 64 * 1024.

Section diff.
Context (ptr_eq : PieceTreeNode -> PieceTreeNode -> bool).

Definition diff_since_saved_uncached (p : Persistence) (t : PieceTree)
    (buffers : list StringBuffer) : PieceTreeDiff :=
  let structure_diff := diff_piece_trees ptr_eq (saved_root p) (root t) in
  if diff_equal structure_diff then structure_diff else
  let ranges := byte_ranges structure_diff in
  let total_changed_bytes := list_sum ((fun r => r.2 - r.1) <$> ranges) in
  if decide (total_changed_bytes <= MAX_VERIFY_BYTES /\ ranges <> []) then
    if verify_content_differs_in_ranges p ranges t buffers then structure_diff
    else mkDiff true [] (nodes_visited structure_diff)
  else structure_diff.

(** [diff_since_saved]: the answer and the memo afterwards. *)
Definition diff_since_saved (p : Persistence) (t : PieceTree) (buffers : list StringBuffer)
    (content_version : Z) : PieceTreeDiff * Persistence :=
  if negb (modified p) then (mkDiff true [] 0, p)
  else if ptr_eq (saved_root p) (root t) then (mkDiff true [] 0, p)
  else
    let fresh :=
      let result := diff_since_saved_uncached p t buffers in
      (result, mkPersistence (file_path p) (modified p) (recovery_pending p) (hot_exit_entry p)
                 (saved_root p) (saved_file_size p) (source_torn p) (torn_write p)
                 (saved_content p) (save_state_version p)
                 (Some (content_version, save_state_version p, result))) in
    match saved_diff_memo p with
    | Some (cv, ssv, diff) =>
        if decide (cv = content_version /\ ssv = save_state_version p) then (diff, p) else fresh
    | None => fresh
    end.
End diff.
