(* ===== verification/TextBuffer.v ===== *)
(** * The text buffer

    Models crates/fresh-editor-core/src/model/buffer/mod.rs and file_kind.rs: a
    piece tree with the string buffers it points into, the persistence and format
    state, and the operations that edit the text, load parts of it on demand,
    snapshot and restore it, and consolidate it after a save.

    The file system is a parameter: [read_range] and [count_line_feeds_in_range]
    of the FileSystem trait, each giving a result or an I/O error.  The constants
    LOAD_CHUNK_SIZE and CHUNK_ALIGNMENT are the parameters [load_chunk_size] and
    [chunk_alignment] (1 MiB and 64 KiB in the code), so that an example needs only
    a few bytes.  A function that returns a [Result] gives the buffer as the code
    leaves it also when it fails; log output and work counters are left out. *)
From stdpp Require Import base numbers list option strings.
From Stdlib Require Import ssreflect Strings.Byte ZArith.
From S2P Require Import Prelude TextSpec StringBuffer PieceTree PieceTreeDiff Persistence BufferFormat.

Record BufferFileKind : Type := mkFileKind {
  large_file : bool;
  line_feeds_scanned : bool;
  is_binary : bool;
}.

Definition file_kind_new (large binary : bool) : BufferFileKind := mkFileKind large false binary.

Definition mark_line_feed_scan_complete (k : BufferFileKind) : BufferFileKind :=
  mkFileKind (large_file k) true (is_binary k).

Record BufferConfig : Type := mkConfig {
  estimated_line_length : nat;
  large_file_threshold : option nat;
}.

Definition config_default : BufferConfig := mkConfig 80 None.

Record TextBuffer : Type := mkTextBuffer {
  piece_tree : PieceTree;
  tb_buffers : list StringBuffer;
  next_buffer_id : nat;
  persistence : Persistence;
  file_kind : BufferFileKind;
  format : BufferFormat;
  version : Z;
  config : BufferConfig;
}.

Record BufferSnapshot : Type := mkSnapshot {
  snap_tree : PieceTree;
  snap_buffers : list StringBuffer;
  snap_next_id : nat;
}.

(** Errors of the loading operations. *)
Inductive LoadError {io_error : Type} : Type :=
| BufferNotFound
| LoadFailed (e : io_error)
| ChunkNotCreated
| ChunkBufferNotFound
| DataUnavailable
| RangeOutOfBounds
| NoProgress.
Arguments LoadError : clear implicits.

(** ** Field updates *)
Definition set_content (tb : TextBuffer) (t : PieceTree) (bs : list StringBuffer) (id : nat)
    : TextBuffer :=
  mkTextBuffer t bs id (persistence tb) (file_kind tb) (format tb) (version tb) (config tb).

Definition set_tree (tb : TextBuffer) (t : PieceTree) : TextBuffer :=
  set_content tb t (tb_buffers tb) (next_buffer_id tb).

Definition set_buffers (tb : TextBuffer) (bs : list StringBuffer) : TextBuffer :=
  set_content tb (piece_tree tb) bs (next_buffer_id tb).

Definition set_persistence (tb : TextBuffer) (p : Persistence) : TextBuffer :=
  mkTextBuffer (piece_tree tb) (tb_buffers tb) (next_buffer_id tb) p (file_kind tb) (format tb)
    (version tb) (config tb).

Definition set_format (tb : TextBuffer) (f : BufferFormat) : TextBuffer :=
  mkTextBuffer (piece_tree tb) (tb_buffers tb) (next_buffer_id tb) (persistence tb) (file_kind tb)
    f (version tb) (config tb).

Definition set_file_kind (tb : TextBuffer) (k : BufferFileKind) : TextBuffer :=
  mkTextBuffer (piece_tree tb) (tb_buffers tb) (next_buffer_id tb) (persistence tb) k (format tb)
    (version tb) (config tb).

Definition bump_version (tb : TextBuffer) : TextBuffer :=
  mkTextBuffer (piece_tree tb) (tb_buffers tb) (next_buffer_id tb) (persistence tb) (file_kind tb)
    (format tb) (wrapping_succ (version tb)) (config tb).

Definition mark_content_modified (tb : TextBuffer) : TextBuffer :=
  bump_version (set_persistence tb (mark_dirty (persistence tb))).

(** [buffers.push(buffer)] of a buffer with the next id. *)
Definition push_buffer (tb : TextBuffer) (b : StringBuffer) : TextBuffer :=
  set_content tb (piece_tree tb) (tb_buffers tb ++ [b]) (S (next_buffer_id tb)).

(** ** Construction *)
Definition tree_of_buffer (bytes : nat) (line_feed_cnt : option nat) : PieceTree :=
  if decide (0 < bytes) then tree_new (Stored 0) 0 bytes line_feed_cnt else tree_empty.

Definition from_utf8_detected (utf8_content : list byte) (e : Encoding) (normalize_cr : bool)
    : TextBuffer :=
  let le := detect_line_ending utf8_content in
  let '(content, normalized) :=
    if normalize_cr : bool then normalize_for_line_ending utf8_content le
    else (utf8_content, false) in
  let bytes := length content in
  let buffer := sb_new 0 content in
  let t := tree_of_buffer bytes (line_feed_count buffer) in
  mkTextBuffer t [buffer] 1 (persistence_new None (root t) (Some bytes))
    (file_kind_new false false) (with_normalization le e normalized) 0%Z config_default.

Definition from_bytes_raw (content : list byte) : TextBuffer :=
  let bytes := length content in
  let buffer := sb_new 0 content in
  let t := tree_of_buffer bytes (line_feed_count buffer) in
  mkTextBuffer t [buffer] 1 (persistence_new None (root t) (Some bytes))
    (file_kind_new false true) (format_new (detect_line_ending content) Utf8) 0%Z config_default.

Definition tb_empty : TextBuffer :=
  mkTextBuffer tree_empty [sb_new 0 []] 1 (persistence_new None (root tree_empty) None)
    (file_kind_new false false) (format_new LF Utf8) 0%Z config_default.

Definition tb_new (threshold : nat) : TextBuffer :=
  mkTextBuffer tree_empty [sb_new 0 []] 1 (persistence_new None (root tree_empty) None)
    (file_kind_new false false) (format_new LF Utf8) 0%Z (mkConfig 80 (Some threshold)).

(** ** Queries *)
Definition tb_total_bytes (tb : TextBuffer) : nat := total_bytes (piece_tree tb).

Definition tb_resident_bytes (tb : TextBuffer) : nat :=
  list_sum (resident_bytes <$> tb_buffers tb).

Definition tb_line_count (tb : TextBuffer) : option nat := line_count (piece_tree tb).

Definition get_text_range (tb : TextBuffer) (offset bytes : nat) : option (list byte) :=
  read_range (piece_tree tb) (tb_buffers tb) offset bytes.

Definition get_all_text (tb : TextBuffer) : option (list byte) :=
  get_text_range tb 0 (tb_total_bytes tb).

Definition slice_bytes (tb : TextBuffer) (start end_ : nat) : list byte :=
  default [] (get_text_range tb start (end_ - start)).

Definition tb_offset_to_position (tb : TextBuffer) (offset : nat) : res (option (nat * nat)) :=
  offset_to_position (piece_tree tb) offset (tb_buffers tb).

Definition tb_position_to_offset (tb : TextBuffer) (line column : nat) : res nat :=
  position_to_offset (piece_tree tb) line column (tb_buffers tb).

(** ** Loading a chunk in place *)
Section fs.
Context {io_error : Type}.
Context (fs_read_range : string -> nat -> nat -> io_error + list byte).

(** The load error is logged and ignored. *)
Definition ensure_chunk_loaded_at (tb : TextBuffer) (offset : nat) : res TextBuffer :=
  match tree_find_by_offset (piece_tree tb) offset with
  | Some piece_info =>
      let id := buffer_id (pi_location piece_info) in
      match tb_buffers tb !! id with
      | Some buffer =>
          if is_loaded buffer then Ok tb else
          loaded ← load fs_read_range buffer;
          match loaded with
          | inr buffer => Ok (set_buffers tb (<[id := buffer]> (tb_buffers tb)))
          | inl _ => Ok tb
          end
      | None => Ok tb
      end
  | None => Ok tb
  end.

(** ** Editing *)

(** The buffer with the text appended and where it is, when the insertion point is
    the end of a piece that ends its added buffer. *)
Definition try_append_to_existing_buffer (tb : TextBuffer) (offset : nat) (text : list byte)
    : option (TextBuffer * (BufferLocation * nat * nat)) :=
  if decide (text = [] \/ offset = 0) then None else
  piece_info ← tree_find_by_offset (piece_tree tb) (offset - 1);
  offset_in_piece ← pi_offset_in_piece piece_info;
  if decide (offset_in_piece + 1 <> pi_bytes piece_info) then None else
  match pi_location piece_info with
  | Stored _ => None
  | Added id =>
      buffer ← tb_buffers tb !! id;
      data ← get_data buffer;
      if decide (pi_offset piece_info + pi_bytes piece_info <> length data) then None else
      let '(buffer, append_offset) := append buffer text in
      Some (set_buffers tb (<[id := buffer]> (tb_buffers tb)),
            (pi_location piece_info, append_offset, length text))
  end.

(** The text's place in the buffers: appended to one or in a new one. *)
Definition store_text (tb : TextBuffer) (offset : nat) (text : list byte)
    : TextBuffer * (BufferLocation * nat * nat) :=
  match try_append_to_existing_buffer tb offset text with
  | Some r => r
  | None =>
      let id := next_buffer_id tb in
      (push_buffer tb (sb_new id text), (Added id, 0, length text))
  end.

Definition insert_bytes (tb : TextBuffer) (offset : nat) (text : list byte)
    : res (TextBuffer * PTCursor) :=
  if decide (text = []) then Ok (tb, cursor_at_offset (piece_tree tb) offset) else
  let line_feed_cnt := Some (count_newlines text) in
  let tb := mark_content_modified tb in
  let '(tb, (location, buffer_offset, text_len)) := store_text tb offset text in
  tb ← (if line_feeds_scanned (file_kind tb) then ensure_chunk_loaded_at tb offset else Ok tb);
  '(t, cursor) ← tree_insert (piece_tree tb) offset location buffer_offset text_len line_feed_cnt
                   (tb_buffers tb);
  Ok (set_tree tb t, cursor).

Definition tb_insert_at_position (tb : TextBuffer) (line column : nat) (text : list byte)
    : res (TextBuffer * PTCursor) :=
  if decide (text = []) then
    offset ← tb_position_to_offset tb line column;
    Ok (tb, cursor_at_offset (piece_tree tb) offset)
  else
    let tb := mark_content_modified tb in
    let line_feed_cnt := count_newlines text in
    let id := next_buffer_id tb in
    let tb := push_buffer tb (sb_new id text) in
    '(t, cursor) ← insert_at_position (piece_tree tb) line column (Added id) 0 (length text)
                     line_feed_cnt (tb_buffers tb);
    Ok (set_tree tb t, cursor).

Definition delete_bytes (tb : TextBuffer) (offset bytes : nat) : res TextBuffer :=
  if decide (bytes = 0 \/ tb_total_bytes tb <= offset) then Ok tb else
  tb ← (if line_feeds_scanned (file_kind tb) then
          tb ← ensure_chunk_loaded_at tb offset;
          let end_ := Nat.min (offset + bytes) (tb_total_bytes tb) in
          if decide (offset < end_) then ensure_chunk_loaded_at tb (end_ - 1) else Ok tb
        else Ok tb);
  t ← tree_delete (piece_tree tb) offset bytes (tb_buffers tb);
  Ok (mark_content_modified (set_tree tb t)).

Definition tb_delete (tb : TextBuffer) (start end_ : nat) : res TextBuffer :=
  if decide (start < end_) then delete_bytes tb start (end_ - start) else Ok tb.

Definition delete_range (tb : TextBuffer) (start_line start_column end_line end_column : nat)
    : res TextBuffer :=
  t ← delete_position_range (piece_tree tb) start_line start_column end_line end_column
        (tb_buffers tb);
  Ok (mark_content_modified (set_tree tb t)).

Definition replace_content (tb : TextBuffer) (content : list byte) : TextBuffer :=
  let bytes := length content in
  let line_feed_cnt := count_newlines content in
  let id := next_buffer_id tb in
  let tb := push_buffer tb (sb_new id content) in
  let t := if decide (0 < bytes) then tree_new (Added id) 0 bytes (Some line_feed_cnt)
           else tree_empty in
  mark_content_modified (set_tree tb t).

Definition restore_buffer_state (tb : TextBuffer) (s : BufferSnapshot) : TextBuffer :=
  mark_content_modified (set_content tb (snap_tree s) (snap_buffers s) (snap_next_id s)).

Definition snapshot_buffer_state (tb : TextBuffer) : BufferSnapshot :=
  mkSnapshot (piece_tree tb) (tb_buffers tb) (next_buffer_id tb).

(** One buffer per non-empty text, in order, and the leaves that point at them. *)
Fixpoint store_bulk_texts (tb : TextBuffer) (edits : list Edit) : TextBuffer * list LeafData :=
  match edits with
  | [] => (tb, [])
  | (_, _, []) :: edits => store_bulk_texts tb edits
  | (_, _, text) :: edits =>
      let id := next_buffer_id tb in
      let leaf := mkLeaf (Added id) 0 (length text) (Some (count_newlines text)) in
      let '(tb, infos) := store_bulk_texts (push_buffer tb (sb_new id text)) edits in
      (tb, leaf :: infos)
  end.

(** [let info = buffer_info[idx]; idx += 1]: there is one entry for every call, so
    the default is never taken. *)
Definition next_info (infos : list LeafData) (_ : list byte) : list LeafData * LeafData :=
  match infos with
  | info :: infos => (infos, info)
  | [] => ([], mkLeaf (Stored 0) 0 0 None)
  end.

Definition tb_apply_bulk_edits (usize_max : nat) (tb : TextBuffer) (edits : list Edit)
    : res (TextBuffer * Z) :=
  let '(tb, buffer_info) := store_bulk_texts tb edits in
  '(t, _, delta) ← apply_bulk_edits usize_max next_info (piece_tree tb) edits (tb_buffers tb)
                     buffer_info;
  Ok (mark_content_modified (set_tree tb t), delta).

Definition replace_range (tb : TextBuffer) (start end_ : nat) (replacement : list byte)
    : res (TextBuffer * bool) :=
  if decide (tb_total_bytes tb <= start) then Ok (tb, false) else
  let end_ := Nat.min end_ (tb_total_bytes tb) in
  tb ← (if decide (start < end_) then delete_bytes tb start (end_ - start) else Ok tb);
  tb ← (if decide (replacement <> []) then fst <$> insert_bytes tb start replacement else Ok tb);
  Ok (tb, true).
End fs.

(** ** Format *)
Definition tb_set_line_ending (tb : TextBuffer) (le : LineEnding) : TextBuffer :=
  mark_content_modified (set_format tb (format_set_line_ending (format tb) le)).

Definition tb_set_encoding (tb : TextBuffer) (e : Encoding) : TextBuffer :=
  mark_content_modified (set_format tb (format_set_encoding (format tb) e)).

Definition tb_set_default_line_ending (tb : TextBuffer) (le : LineEnding) : TextBuffer :=
  set_format tb (format_set_default_line_ending (format tb) le).

(** ** After a save *)
Definition consolidate_large_file (tb : TextBuffer) (path : string) (file_size : nat)
    : TextBuffer :=
  let preserved_lf :=
    if line_feeds_scanned (file_kind tb) then (fun c => c - 1) <$> line_count (piece_tree tb)
    else None in
  let buffer := mkStringBuffer 0 (Unloaded path 0 file_size) None in
  set_content tb (tree_of_buffer file_size preserved_lf) [buffer] 1.

Definition consolidate_small_file (tb : TextBuffer) : TextBuffer :=
  match get_all_text tb with
  | Some bytes =>
      set_content tb (tree_of_buffer (length bytes) (Some (count_newlines bytes)))
        [new_loaded 0 bytes true] 1
  | None => tb
  end.

Definition consolidate_after_save (tb : TextBuffer) (path : string) (file_size : nat)
    : TextBuffer :=
  if large_file (file_kind tb) then consolidate_large_file tb path file_size
  else consolidate_small_file tb.

(** [finalize_save] once the size of the written file is known. *)
Definition finalize_save (tb : TextBuffer) (dest_path : string) (new_size : nat) : TextBuffer :=
  let p := set_saved_file_size (persistence tb) (Some new_size) in
  let tb := set_persistence tb (clear_torn (set_file_path p dest_path)) in
  let tb := consolidate_after_save tb dest_path new_size in
  let tb := set_persistence tb (mark_saved_snapshot (persistence tb) (piece_tree tb)) in
  set_format tb (promote_current_to_original (format tb)).
