(* ===== verification/TextBufferInv.v ===== *)
(** * Text buffer: invariant and editing

    The text of a buffer is the list of bytes its pieces stand for, those still on
    disk included: [source] gives the bytes of a string buffer, from memory or from
    its file.  Every editing operation keeps the invariant, never panics, and does
    to the text what the same operation does to a flat list of bytes. *)
From stdpp Require Import base numbers list option strings sorting.
From Stdlib Require Import ssreflect Strings.Byte ZArith.
From S2P Require Import Prelude TextSpec StringBuffer PieceTree PieceTreeInv PieceTreeEdit.
From S2P Require Import PieceTreeQuery PieceTreeBulk PieceTreeDiff Persistence BufferFormat TextBuffer.

Section text_buffer.
Context (files : string -> list byte).

(** The bytes of a buffer, loaded or not. *)
Definition source (b : StringBuffer) : list byte :=
  match sb_data b with
  | Loaded data _ => data
  | Unloaded path offset n => take n (drop offset (files path))
  end.

(** The bytes of all the buffers, by id and position. *)
Definition content_in (bs : list StringBuffer) (id i : nat) : byte :=
  default x00 (b ← bs !! id; source b !! i).

Definition tb_text (tb : TextBuffer) : list byte :=
  text (content_in (tb_buffers tb)) (piece_tree tb).

Definition snap_text (s : BufferSnapshot) : list byte :=
  text (content_in (snap_buffers s)) (snap_tree s).

(** An unloaded buffer lies inside its file; a line index is exact. *)
Definition buffer_sound (b : StringBuffer) : Prop := buffer_wf b /\ length (source b) = sb_len b.

Definition content_inv (t : PieceTree) (bs : list StringBuffer) (next_id : nat) : Prop :=
  tree_inv (content_in bs) bs t /\ next_id = length bs /\ Forall buffer_sound bs.

Definition tb_inv (tb : TextBuffer) : Prop :=
  content_inv (piece_tree tb) (tb_buffers tb) (next_buffer_id tb).

Definition snap_inv (s : BufferSnapshot) : Prop :=
  content_inv (snap_tree s) (snap_buffers s) (snap_next_id s).

Lemma content_in_agree bs : buffers_agree (content_in bs) bs.
Proof.
  intros id b d i x Hb Hd Hx. unfold content_in. rw Hb /=. unfold source, get_data in *.
  destruct (sb_data b); simplify_eq. by rw Hx.
Qed.

Lemma buffer_sound_loaded id data :
  buffer_sound (sb_new id data).
Proof. split; [|done]. by intros ls d [= <-] [= <-]. Qed.

(** ** Growing the buffers *)

(** Every buffer keeps its id and its bytes; new bytes may follow the old ones and
    new buffers may follow the old ones. *)
Definition extends (bs bs' : list StringBuffer) : Prop :=
  forall id b, bs !! id = Some b ->
  exists b', bs' !! id = Some b' /\ source b `prefix_of` source b' /\ sb_len b <= sb_len b'.

Lemma extends_push bs b : extends bs (bs ++ [b]).
Proof. intros id b' Hb. exists b'. split_and!; [by apply lookup_app_l_Some|done|lia]. Qed.

Lemma extends_update bs id b b' :
  bs !! id = Some b -> source b `prefix_of` source b' -> sb_len b <= sb_len b' ->
  extends bs (<[id := b']> bs).
Proof.
  intros Hb Hp Hl id' c Hc. destruct (decide (id = id')) as [<-|].
  - pose proof (lookup_lt_Some _ _ _ Hb). exists b'. simplify_eq. split; [|done].
    by apply list_lookup_insert_eq.
  - exists c. split_and!; [by rw list_lookup_insert_ne|done|lia].
Qed.

Lemma extends_leaf bs bs' l :
  extends bs bs' -> Forall buffer_sound bs -> leaf_bounded bs l ->
  leaf_bounded bs' l /\ leaf_text (content_in bs') l = leaf_text (content_in bs) l.
Proof.
  intros Hext Hs. unfold leaf_bounded. destruct l as [loc off n c]. simpl.
  destruct (bs !! buffer_id loc) as [b|] eqn:Hb.
  - destruct (Hext _ _ Hb) as (b' & Hb' & Hp & Hle). rw Hb'. intros Hn. split; [lia|].
    apply list_fmap_ext. intros i [loc' p] Hi. apply list_elem_of_lookup_2 in Hi.
    apply list_elem_of_fmap in Hi as (q & [= -> ->] & Hq%elem_of_seq). simpl in Hq.
    unfold cell_byte, content_in. simpl. rw Hb Hb' /=.
    apply (Forall_lookup_1 _ _ _ _ Hs) in Hb as [_ Hsrc].
    destruct (lookup_lt_is_Some_2 (source b) q) as [x Hx]; [lia|].
    rw Hx. by rw (prefix_lookup_Some _ _ _ _ Hx Hp).
  - intros [-> ->]. split; [|done]. destruct (bs' !! _); [lia|done].
Qed.

Lemma leaf_ok_extend bs bs' l :
  extends bs bs' -> Forall buffer_sound bs -> leaf_ok (content_in bs) bs l ->
  leaf_ok (content_in bs') bs' l.
Proof.
  intros Hext Hs [Hb Hc]. destruct (extends_leaf bs bs' l Hext Hs Hb) as [Hb' Ht].
  split; [done|]. intros c Hlf. rw Ht. by apply Hc.
Qed.

Lemma text_of_extend bs bs' ls :
  extends bs bs' -> Forall buffer_sound bs -> Forall (leaf_ok (content_in bs) bs) ls ->
  text_of (content_in bs') ls = text_of (content_in bs) ls.
Proof.
  intros Hext Hs. induction 1 as [|l ls [Hl _] _ IH]; [done|].
  unfold text_of in *. rw !cells_of_cons !fmap_app IH. f_equal. by apply extends_leaf.
Qed.

(** Growing the buffers changes neither the invariant nor the text of a tree. *)
Lemma tree_inv_extend bs bs' t :
  extends bs bs' -> Forall buffer_sound bs -> tree_inv (content_in bs) bs t ->
  tree_inv (content_in bs') bs' t /\ text (content_in bs') t = text (content_in bs) t.
Proof.
  intros Hext Hs [Hwf Hok]. split; [split; [done|]|by apply text_of_extend].
  eapply Forall_impl; [exact Hok|]. intros l. by apply leaf_ok_extend.
Qed.

(** A new or grown buffer under an unchanged tree. *)
Lemma set_buffers_ok tb bs' id' :
  tb_inv tb -> extends (tb_buffers tb) bs' -> Forall buffer_sound bs' -> id' = length bs' ->
  tb_inv (set_content tb (piece_tree tb) bs' id')
  /\ tb_text (set_content tb (piece_tree tb) bs' id') = tb_text tb.
Proof.
  intros (Ht & _ & Hs) Hext Hs' ->.
  destruct (tree_inv_extend _ _ _ Hext Hs Ht) as [Ht' Htx]. done.
Qed.

Lemma push_buffer_ok tb b :
  tb_inv tb -> buffer_sound b ->
  tb_inv (push_buffer tb b) /\ tb_text (push_buffer tb b) = tb_text tb.
Proof.
  intros Hinv Hb. pose proof Hinv as (_ & Hid & Hs). apply set_buffers_ok; [done|apply extends_push| |].
  - apply Forall_app. split; [done|]. by apply Forall_singleton.
  - rw length_app Hid /=. lia.
Qed.

(** The piece of a whole new buffer. *)
Lemma new_buffer_leaf_ok bs text :
  let bs' := bs ++ [sb_new (length bs) text] in
  let l := mkLeaf (Added (length bs)) 0 (length text) (Some (count_newlines text)) in
  leaf_ok (content_in bs') bs' l /\ leaf_text (content_in bs') l = text.
Proof.
  cbv zeta. set (b := sb_new (length bs) text). set (bs' := bs ++ [b]).
  assert (bs' !! length bs = Some b) as Hb by (by apply list_lookup_middle).
  assert (leaf_text (content_in bs')
            (mkLeaf (Added (length bs)) 0 (length text) (Some (count_newlines text))) = text) as Htx.
  { rw -(data_slice_text _ _ (content_in_agree bs') _ _ _ _ b text) //. by rw take_ge. }
  split; [|done]. split; [|intros c [= <-]; by rw Htx].
  unfold leaf_bounded. simpl. rw Hb. done.
Qed.

(** Appending to a loaded buffer. *)
Lemma append_sound b data more :
  get_data b = Some data -> buffer_sound b ->
  buffer_sound (append b more).1 /\ get_data (append b more).1 = Some (data ++ more)
  /\ source b `prefix_of` source (append b more).1 /\ sb_len b <= sb_len (append b more).1
  /\ (append b more).2 = length data.
Proof.
  intros Hd [Hwf Hlen]. pose proof (append_extends b data more Hd Hwf) as H.
  destruct (append b more) as [b' start] eqn:Ha. destruct H as (Hd' & -> & Hwf' & _). simpl.
  assert (forall b d, get_data b = Some d -> source b = d) as Hsrc.
  { intros c d. unfold get_data, source. destruct (sb_data c); congruence. }
  rw !(get_data_len _ _ Hd) !(get_data_len _ _ Hd') (Hsrc _ _ Hd) (Hsrc _ _ Hd') length_app.
  split_and!; [|done|by exists more|lia|done].
  split; [done|]. by rw (Hsrc _ _ Hd') (get_data_len _ _ Hd').
Qed.

Lemma tb_inv_mark tb : tb_inv tb -> tb_inv (mark_content_modified tb).
Proof. done. Qed.

(** Where an insertion's text goes: the text and the tree of the buffer stay as
    they are, and the piece that will be inserted holds the new text. *)
Lemma store_text_ok tb offset text :
  tb_inv tb ->
  exists tb' loc off, store_text tb offset text = (tb', (loc, off, length text))
  /\ tb_inv tb' /\ tb_text tb' = tb_text tb /\ piece_tree tb' = piece_tree tb
  /\ persistence tb' = persistence tb /\ file_kind tb' = file_kind tb
  /\ (let l := mkLeaf loc off (length text) (Some (count_newlines text)) in
      leaf_ok (content_in (tb_buffers tb')) (tb_buffers tb') l
      /\ leaf_text (content_in (tb_buffers tb')) l = text).
Proof.
  intros Hinv. pose proof Hinv as (Ht & Hid & Hs). unfold store_text.
  destruct (try_append_to_existing_buffer tb offset text) as [r|] eqn:Htry.
  - unfold try_append_to_existing_buffer in Htry. case_decide; [done|].
    destruct (tree_find_by_offset _ _) as [pi|]; [|done]. simpl in Htry.
    destruct (pi_offset_in_piece pi); [|done]. simpl in Htry. case_decide; [done|].
    destruct (pi_location pi) as [|id]; [done|].
    destruct (tb_buffers tb !! id) as [b|] eqn:Hb; [|done]. simpl in Htry.
    destruct (get_data b) as [data|] eqn:Hd; [|done]. simpl in Htry. case_decide; [done|].
    pose proof (Forall_lookup_1 _ _ _ _ Hs Hb) as Hsb.
    destruct (append_sound b data text Hd Hsb) as (Hsb' & Hd' & Hp & Hle & Hoff).
    destruct (append b text) as [b' start]. simpl in *. subst start. injection Htry as <-.
    pose proof (lookup_lt_Some _ _ _ Hb) as Hlt.
    destruct (set_buffers_ok tb (<[id:=b']> (tb_buffers tb)) (next_buffer_id tb)) as [Hinv' Htx];
      [done|exact (extends_update _ _ _ _ Hb Hp Hle)|by apply Forall_insert|by rw length_insert|].
    assert (leaf_text (content_in (<[id:=b']> (tb_buffers tb)))
      (mkLeaf (Added id) (length data) (length text) (Some (count_newlines text))) = text) as Htext.
    { rw -(data_slice_text _ _ (content_in_agree _) _ _ _ _ b' (data ++ text)) //.
      - by apply list_lookup_insert_eq.
      - rw length_app. lia.
      - by rw drop_app_length take_ge. }
    eexists _, _, _. split_and!; try done. split; [|intros c [= <-]; by rw Htext].
    unfold leaf_bounded. simpl. rw list_lookup_insert_eq // (get_data_len _ _ Hd') length_app. lia.
  - destruct (push_buffer_ok tb (sb_new (next_buffer_id tb) text)) as [Hinv' Htx];
      [done|apply buffer_sound_loaded|].
    pose proof (new_buffer_leaf_ok (tb_buffers tb) text) as [Hl1 Hl2]. rw -Hid in Hl1 Hl2.
    eexists _, _, _. split_and!; done.
Qed.

(** The text of a piece, from the bytes of its buffer. *)
Lemma leaf_text_source bs l b :
  bs !! buffer_id (l_location l) = Some b -> l_offset l + l_bytes l <= length (source b) ->
  leaf_text (content_in bs) l = take (l_bytes l) (drop (l_offset l) (source b)).
Proof.
  intros Hb Hlen. unfold leaf_text, leaf_cells. apply list_eq. intros i.
  destruct (decide (i < l_bytes l)).
  - rw lookup_take_lt // lookup_drop !list_lookup_fmap lookup_seq_lt //. simpl.
    unfold cell_byte, content_in. simpl. rw Hb /=.
    destruct (lookup_lt_is_Some_2 (source b) (l_offset l + i)) as [x Hx]; [lia|]. by rw Hx.
  - rw !lookup_ge_None_2 //; rw ?length_fmap ?length_seq ?length_take; lia.
Qed.

Lemma leaf_in_source tb l :
  tb_inv tb -> leaf_bounded (tb_buffers tb) l ->
  forall b, tb_buffers tb !! buffer_id (l_location l) = Some b ->
  l_offset l + l_bytes l <= length (source b).
Proof.
  intros (_ & _ & Hs) Hl b Hb. unfold leaf_bounded in Hl. rw Hb in Hl.
  by rw (proj2 (Forall_lookup_1 _ _ _ _ Hs Hb)).
Qed.

(** ** Loading in place *)
Section fs.
Context {io_error : Type} (fs_read_range : string -> nat -> nat -> io_error + list byte).

(** The contract of [read_range]: exactly the bytes of the file's region, or an
    error. *)
Hypothesis Hread : forall path off n d, fs_read_range path off n = inr d ->
  d = take n (drop off (files path)) /\ length d = n.

Lemma load_ok b :
  buffer_sound b ->
  exists r, load fs_read_range b = Ok r /\
  forall b', r = inr b' -> buffer_sound b' /\ source b' = source b /\ sb_len b' = sb_len b
    /\ get_data b' = Some (source b) /\ sb_id b' = sb_id b.
Proof.
  intros [Hwf Hlen]. unfold load, source, sb_len in *.
  destruct b as [id [data ls|path off n] sfo]; simpl in *.
  { eexists. split; [done|]. intros b' [= <-]. done. }
  destruct (fs_read_range path off n) as [e|d] eqn:Hr; [by eexists|].
  apply Hread in Hr as [-> Hl]. rw decide_True //. eexists. split; [done|].
  intros b' [= <-]. split_and!; try done. split; [|done]. by intros ls d [= <-] [= <-].
Qed.

Lemma ensure_chunk_loaded_at_ok tb offset :
  tb_inv tb ->
  exists tb', ensure_chunk_loaded_at fs_read_range tb offset = Ok tb'
  /\ tb_inv tb' /\ tb_text tb' = tb_text tb /\ piece_tree tb' = piece_tree tb
  /\ extends (tb_buffers tb) (tb_buffers tb') /\ file_kind tb' = file_kind tb.
Proof.
  intros Hinv. pose proof Hinv as (Ht & Hid & Hs). unfold ensure_chunk_loaded_at.
  assert (extends (tb_buffers tb) (tb_buffers tb)) as Hrefl.
  { intros id b Hb. exists b. split_and!; [done..|lia]. }
  destruct (tree_find_by_offset _ _) as [pi|]; [|by exists tb].
  destruct (tb_buffers tb !! _) as [b|] eqn:Hb; [|by exists tb].
  destruct (is_loaded b); [by exists tb|].
  destruct (load_ok b (Forall_lookup_1 _ _ _ _ Hs Hb)) as (r & -> & Hr). simpl.
  destruct r as [e|b']; [by exists tb|]. destruct (Hr b' eq_refl) as (Hsb & Hsrc & Hle & _).
  assert (extends (tb_buffers tb)
            (<[buffer_id (pi_location pi) := b']> (tb_buffers tb))) as Hext.
  { apply (extends_update _ _ b); [done|by rw Hsrc|lia]. }
  destruct (set_buffers_ok tb (<[buffer_id (pi_location pi):=b']> (tb_buffers tb)) (next_buffer_id tb))
    as [Hinv' Htx]; [done..|by apply Forall_insert|by rw length_insert|].
  by exists (set_buffers tb (<[buffer_id (pi_location pi):=b']> (tb_buffers tb))).
Qed.

(** ** Editing *)
Lemma text_splice content t t' offset n cs :
  doc t' = splice (doc t) offset n cs ->
  text content t' = splice (text content t) offset n (cell_byte content <$> cs).
Proof. unfold text, splice. intros ->. by rw !fmap_app fmap_take fmap_drop. Qed.

(** A changed tree over the same buffers. *)
Lemma set_tree_ok tb t :
  tree_inv (content_in (tb_buffers tb)) (tb_buffers tb) t -> tb_inv tb ->
  tb_inv (mark_content_modified (set_tree tb t)) /\ tb_inv (set_tree tb t).
Proof. by intros Ht (_ & Hid & Hs). Qed.

Lemma tb_total_bytes_text tb : tb_inv tb -> tb_total_bytes tb = length (tb_text tb).
Proof. intros ([[_ Ht] _] & _). unfold tb_total_bytes, tb_text, text. by rw length_fmap. Qed.

Lemma splice_nil {A} (t : list A) offset : splice t offset 0 [] = t.
Proof. unfold splice. by rw Nat.add_0_r /= take_drop. Qed.

Lemma insert_bytes_ok tb offset text :
  tb_inv tb ->
  exists tb' cur, insert_bytes fs_read_range tb offset text = Ok (tb', cur)
  /\ tb_inv tb' /\ tb_text tb' = splice (tb_text tb) offset 0 text
  /\ byte_offset cur = Nat.min (offset + length text) (tb_total_bytes tb')
  /\ (text <> [] -> modified (persistence tb') = true) /\ file_kind tb' = file_kind tb.
Proof.
  intros Hinv. unfold insert_bytes. case_decide as Hte.
  { subst. exists tb. eexists. split_and!; [done..|by rw splice_nil|by rw Nat.add_0_r|done|done]. }
  destruct (store_text_ok (mark_content_modified tb) offset text) as
    (tb1 & loc & off & -> & Hinv1 & Htx1 & Htree1 & Hp1 & Hk1 & Hl & Hlt); [done|].
  assert (exists tb2, (if line_feeds_scanned (file_kind tb1)
      then ensure_chunk_loaded_at fs_read_range tb1 offset else Ok tb1) = Ok tb2
    /\ tb_inv tb2 /\ tb_text tb2 = tb_text tb1 /\ extends (tb_buffers tb1) (tb_buffers tb2)
    /\ persistence tb2 = persistence tb1 /\ file_kind tb2 = file_kind tb1)
    as (tb2 & -> & Hinv2 & Htx2 & Hext & Hp2 & Hk2).
  { destruct (line_feeds_scanned _).
    - destruct (ensure_chunk_loaded_at_ok tb1 offset Hinv1) as (tb2 & H & ? & ? & ? & ? & ?).
      exists tb2. split_and!; try done. unfold ensure_chunk_loaded_at in H.
      repeat case_match; simplify_eq; try done. destruct (load _ _) as [[|]|]; simplify_eq/=; done.
    - exists tb1. split_and!; try done. intros id b Hb. exists b. split_and!; [done..|lia]. }
  destruct Hinv1 as (Ht1 & Hid1 & Hs1).
  pose proof (leaf_ok_extend _ _ _ Hext Hs1 Hl) as Hl2.
  pose proof (extends_leaf _ _ _ Hext Hs1 (proj1 Hl)) as [_ Hlt2].
  destruct (tree_insert_ok _ _ (content_in_agree (tb_buffers tb2)) (piece_tree tb2) offset loc off
    (length text) (Some (count_newlines text))) as (t' & cur & Hins & Ht' & Hdoc & ->);
    [apply Hinv2|done|].
  cbn [mbind res_bind]. rw Hins. cbn [mbind res_bind]. eexists _, _. split; [done|].
  destruct (set_tree_ok tb2 t' Ht' Hinv2) as [_ Hinv3]. split_and!; [done| |done| |].
  - unfold tb_text. simpl. rw (text_splice _ _ _ _ _ _ Hdoc).
    change (cell_byte ?c <$> leaf_cells ?l) with (leaf_text c l). rw Hlt2 Hlt.
    f_equal. change (tb_text tb2 = tb_text tb). by rw Htx2 Htx1.
  - intros _. simpl. by rw Hp2 Hp1.
  - simpl. by rw Hk2 Hk1.
Qed.

Lemma delete_bytes_ok tb offset bytes :
  tb_inv tb ->
  exists tb', delete_bytes fs_read_range tb offset bytes = Ok tb' /\ tb_inv tb'
  /\ tb_text tb' = splice (tb_text tb) offset bytes []
  /\ (0 < bytes -> offset < length (tb_text tb) -> modified (persistence tb') = true)
  /\ file_kind tb' = file_kind tb.
Proof.
  intros Hinv. pose proof (tb_total_bytes_text tb Hinv) as Hlen. unfold delete_bytes.
  case_decide as Hz.
  { exists tb. split_and!; [done..| |lia|done]. unfold splice. simpl. destruct Hz as [->|Hz].
    - by rw Nat.add_0_r take_drop.
    - rw take_ge; [lia|]. rw drop_ge; [lia|]. by rw app_nil_r. }
  set (load_ends := if line_feeds_scanned _ then _ else Ok tb).
  assert (exists tb1, load_ends = Ok tb1 /\ tb_inv tb1 /\ tb_text tb1 = tb_text tb
    /\ file_kind tb1 = file_kind tb) as (tb1 & -> & Hinv1 & Htx1 & Hk1).
  { unfold load_ends. destruct (line_feeds_scanned _); [|by exists tb].
    destruct (ensure_chunk_loaded_at_ok tb offset Hinv) as (tb1 & -> & ? & Htx1 & _ & _ & Hk1).
    cbn [mbind res_bind]. case_decide; [|by exists tb1].
    edestruct (ensure_chunk_loaded_at_ok tb1) as (tb2 & -> & ? & Htx2 & _ & _ & Hk2); [done|].
    exists tb2. by rw Htx2 Hk2. }
  cbn [mbind res_bind].
  destruct (tree_delete_ok _ _ (content_in_agree (tb_buffers tb1)) (piece_tree tb1) offset bytes)
    as (t' & -> & Ht' & Hdoc); [apply Hinv1|].
  eexists. split; [done|]. split; [by apply set_tree_ok|]. split; [|done].
  unfold tb_text. simpl. rw (text_splice _ _ _ _ _ _ Hdoc) /=. f_equal. exact Htx1.
Qed.

Lemma tb_delete_ok tb start end_ :
  tb_inv tb ->
  exists tb', tb_delete fs_read_range tb start end_ = Ok tb' /\ tb_inv tb'
  /\ tb_text tb' = splice (tb_text tb) start (end_ - start) []
  /\ file_kind tb' = file_kind tb.
Proof.
  intros Hinv. unfold tb_delete. case_decide as H.
  - destruct (delete_bytes_ok tb start (end_ - start) Hinv) as (tb' & ? & ? & ? & _ & ?). by exists tb'.
  - exists tb. split_and!; [done..| |done]. replace (end_ - start) with 0 by lia. by rw splice_nil.
Qed.

Lemma replace_range_ok tb start end_ text :
  tb_inv tb ->
  exists tb', replace_range fs_read_range tb start end_ text
    = Ok (tb', bool_decide (start < length (tb_text tb))) /\ tb_inv tb'
  /\ tb_text tb' = (if decide (start < length (tb_text tb))
                   then splice (tb_text tb) start (end_ - start) text else tb_text tb)
  /\ file_kind tb' = file_kind tb.
Proof.
  intros Hinv. pose proof (tb_total_bytes_text tb Hinv) as Hlen. unfold replace_range.
  rw Hlen. case_decide as Hz.
  { rw decide_False; [lia|]. rw bool_decide_eq_false_2; [lia|]. by exists tb. }
  rw (decide_True (P := start < length (tb_text tb))); [lia|].
  rw bool_decide_eq_true_2; [lia|]. set (e := Nat.min end_ _).
  assert (exists tb1, (if decide (start < e) then delete_bytes fs_read_range tb start (e - start)
      else Ok tb) = Ok tb1 /\ tb_inv tb1
    /\ tb_text tb1 = splice (tb_text tb) start (end_ - start) [] /\ file_kind tb1 = file_kind tb)
    as (tb1 & -> & Hinv1 & Htx1 & Hk1).
  { case_decide as H.
    - destruct (delete_bytes_ok tb start (e - start) Hinv) as (tb1 & ? & ? & Htx & _ & ?).
      exists tb1. split_and!; [done..| |done]. rw Htx. unfold splice. do 2 f_equal.
      unfold e. destruct (decide (end_ <= length (tb_text tb))); [f_equal; lia|].
      rw !drop_ge; [lia..|done].
    - exists tb. split_and!; [done..| |done]. replace (end_ - start) with 0 by (unfold e in *; lia).
      by rw splice_nil. }
  cbn [mbind res_bind].
  assert (exists tb2, (if decide (text <> []) then fst <$> insert_bytes fs_read_range tb1 start text
      else Ok tb1) = Ok tb2 /\ tb_inv tb2 /\ tb_text tb2 = splice (tb_text tb1) start 0 text
      /\ file_kind tb2 = file_kind tb1) as (tb2 & -> & Hinv2 & Htx2 & Hk2).
  { case_decide as H.
    - destruct (insert_bytes_ok tb1 start text Hinv1) as (tb2 & cur & -> & ? & ? & _ & _ & ?).
      by exists tb2.
    - exists tb1. subst text. split_and!; [done..|by rw splice_nil|done]. }
  exists tb2. split_and!; [done..| |by rw Hk2]. rw Htx2 Htx1. unfold splice. simpl.
  rw take_app_le; [rw length_take; lia|]. rw take_take Nat.min_id. f_equal. f_equal.
  rw Nat.add_0_r drop_app_length' //. rw length_take; lia.
Qed.
End fs.

(** A tree that is one whole buffer. *)
Lemma whole_buffer_tree_ok bs loc b data lf :
  bs !! buffer_id loc = Some b -> get_data b = Some data ->
  (forall c, lf = Some c -> c = count_newlines data) ->
  let t := if decide (0 < length data) then tree_new loc 0 (length data) lf else tree_empty in
  tree_inv (content_in bs) bs t /\ text (content_in bs) t = data.
Proof.
  intros Hb Hd Hlf t. unfold t. case_decide as Hz; last first.
  { destruct data as [|x data]; [|simpl in Hz; lia]. split; [|done].
    split; [done|]. apply Forall_singleton, leaf_ok_empty. }
  set (l := mkLeaf loc 0 (length data) lf).
  assert (leaf_text (content_in bs) l = data) as Htx.
  { unfold l. rw -(data_slice_text _ _ (content_in_agree bs) _ _ _ _ b data) //. by rw take_ge. }
  split.
  - split; [split; [done|]|].
    + unfold doc. simpl. by rw node_cells_Leaf length_leaf_cells.
    + apply Forall_singleton. split; [|intros c Hc; fold l; rw Htx; by apply Hlf].
      unfold leaf_bounded. simpl. by rw Hb (get_data_len _ _ Hd).
  - unfold text, doc. simpl. rw node_cells_Leaf. exact Htx.
Qed.

Lemma replace_content_ok tb content :
  tb_inv tb ->
  tb_inv (replace_content tb content) /\ tb_text (replace_content tb content) = content.
Proof.
  intros Hinv. pose proof Hinv as (_ & Hid & _).
  destruct (push_buffer_ok tb (sb_new (next_buffer_id tb) content)) as [(_ & Hid' & Hs') _];
    [done|apply buffer_sound_loaded|].
  destruct (whole_buffer_tree_ok (tb_buffers tb ++ [sb_new (next_buffer_id tb) content])
    (Added (next_buffer_id tb)) (sb_new (next_buffer_id tb) content) content
    (Some (count_newlines content))) as [Ht Htx];
    [rw /= Hid; by apply list_lookup_middle|done|by intros c [= <-]|]. done.
Qed.

Lemma from_utf8_detected_ok content e normalize_cr :
  tb_inv (from_utf8_detected content e normalize_cr)
  /\ tb_text (from_utf8_detected content e normalize_cr)
     = if normalize_cr then (normalize_for_line_ending content (detect_line_ending content)).1
       else content.
Proof.
  unfold from_utf8_detected. set (r := if normalize_cr then _ else (content, false)).
  assert ((if normalize_cr then (normalize_for_line_ending content (detect_line_ending content)).1
           else content) = r.1) as -> by (by unfold r; destruct normalize_cr).
  destruct r as [data normalized]. simpl.
  destruct (whole_buffer_tree_ok [sb_new 0 data] (Stored 0) (sb_new 0 data) data
    (line_feed_count (sb_new 0 data))) as [Ht Htx]; [done..| |].
  { intros c Hc. unfold line_feed_count, sb_new in Hc. simpl in Hc. injection Hc as <-.
    rw length_line_starts_from. lia. }
  split; [|done]. split_and!; [done..|]. apply Forall_singleton, buffer_sound_loaded.
Qed.

Lemma snapshot_ok tb : tb_inv tb ->
  snap_inv (snapshot_buffer_state tb) /\ snap_text (snapshot_buffer_state tb) = tb_text tb.
Proof. done. Qed.

Lemma restore_ok tb s : snap_inv s ->
  tb_inv (restore_buffer_state tb s) /\ tb_text (restore_buffer_state tb s) = snap_text s.
Proof. done. Qed.

(** ** Bulk edits *)
Lemma extends_trans bs1 bs2 bs3 : extends bs1 bs2 -> extends bs2 bs3 -> extends bs1 bs3.
Proof.
  intros H1 H2 id b Hb. destruct (H1 _ _ Hb) as (b2 & Hb2 & Hp2 & Hl2).
  destruct (H2 _ _ Hb2) as (b3 & Hb3 & Hp3 & Hl3). exists b3.
  split_and!; [done|by apply (transitivity Hp2)|lia].
Qed.

Lemma store_bulk_texts_ok tb edits :
  tb_inv tb ->
  let '(tb', infos) := store_bulk_texts tb edits in
  tb_inv tb' /\ tb_text tb' = tb_text tb /\ piece_tree tb' = piece_tree tb
  /\ file_kind tb' = file_kind tb /\ extends (tb_buffers tb) (tb_buffers tb')
  /\ forall usize_max total,
      Forall2 (added (content_in (tb_buffers tb')) (tb_buffers tb')) edits
        (edit_ranges usize_max next_info total infos edits).2.
Proof.
  revert tb. induction edits as [|[[pos del] txt] edits IH]; intros tb Hinv; cbn [store_bulk_texts].
  { split_and!; try done. intros id b Hb. exists b. split_and!; [done..|lia]. }
  destruct txt as [|x txt].
  { specialize (IH tb Hinv). destruct (store_bulk_texts tb edits) as [tb' infos].
    destruct IH as (? & ? & ? & ? & ? & Hadd). split_and!; try done. intros m total.
    specialize (Hadd m total). cbn [edit_ranges].
    destruct (edit_ranges m next_info total infos edits) as [s rest]. by constructor. }
  set (text := x :: txt). pose proof Hinv as (_ & Hid & Hs).
  destruct (push_buffer_ok tb (sb_new (next_buffer_id tb) text)) as [Hinv1 Htx1];
    [done|apply buffer_sound_loaded|].
  specialize (IH _ Hinv1). destruct (store_bulk_texts _ edits) as [tb' infos] eqn:Est.
  destruct IH as (Hinv' & Htx' & Htree' & Hk' & Hext & Hadd).
  split_and!; [done|by rw Htx'|by rw Htree'|by rw Hk'|exact (extends_trans _ _ _ (extends_push _ _) Hext)|].
  intros m total. specialize (Hadd m total). unfold text. cbn [edit_ranges next_info]. fold text.
  destruct (edit_ranges m next_info total infos edits) as [s rest]. constructor; [|done].
  unfold added. simpl. rw Hid.
  destruct (new_buffer_leaf_ok (tb_buffers tb) text) as [Hl Hlt]. rw -Hid in Hl Hlt |- *.
  split; [by eapply leaf_ok_extend; [exact Hext|apply Hinv1|]|].
  destruct (extends_leaf _ _ _ Hext (proj2 (proj2 Hinv1)) (proj1 Hl)) as [_ Hlt'].
  exact (eq_trans Hlt' Hlt).
Qed.

(** The precondition of a bulk edit: descending, not overlapping, in the text. *)
Definition bulk_valid (usize_max : nat) (text : list byte) (edits : list Edit) : Prop :=
  length text <= usize_max /\ Sorted edit_before edits
  /\ Forall (fun e => e.1.1 <= length text) edits.

Lemma tb_apply_bulk_edits_ok usize_max tb edits :
  tb_inv tb -> bulk_valid usize_max (tb_text tb) edits ->
  exists tb' delta, tb_apply_bulk_edits usize_max tb edits = Ok (tb', delta) /\ tb_inv tb'
  /\ tb_text tb' = foldl apply_edit (tb_text tb) edits
  /\ delta = (Z.of_nat (length (tb_text tb')) - Z.of_nat (length (tb_text tb)))%Z
  /\ file_kind tb' = file_kind tb.
Proof.
  intros Hinv (Hmax & Hsort & Hpos). pose proof (tb_total_bytes_text tb Hinv) as Hlen.
  unfold tb_apply_bulk_edits. pose proof (store_bulk_texts_ok tb edits Hinv) as H.
  destruct (store_bulk_texts tb edits) as [tb1 infos].
  destruct H as (Hinv1 & Htx1 & Htree1 & Hk1 & _ & Hadd).
  unfold tb_total_bytes in Hlen. rw -Htree1 in Hlen.
  destruct (apply_bulk_edits_ok _ _ usize_max next_info (content_in_agree (tb_buffers tb1))
    (piece_tree tb1) edits infos) as (t' & s' & delta & -> & Ht' & Htx' & Hd);
    [apply Hinv1|lia|done| |apply Hadd|].
  { intros e He. destruct edits; [done|]. injection He as ->.
    apply Forall_cons_1 in Hpos as [? _]. lia. }
  cbn [mbind res_bind]. eexists _, _. split; [done|].
  destruct (set_tree_ok tb1 t' Ht' Hinv1) as [Hinv' _]. split; [done|].
  assert (tb_text (mark_content_modified (set_tree tb1 t')) = foldl apply_edit (tb_text tb) edits)
    as Htx2. { rw -Htx1. exact Htx'. }
  split; [done|]. split; [|done]. rw -(tb_total_bytes_text _ Hinv') Hd Hlen //.
Qed.
End text_buffer.
