(* ===== verification/TextBufferSession.v ===== *)
(** * Text buffer: editing sessions

    A text buffer and the snapshots taken of it, driven by any sequence of editing
    operations, saves, snapshots and restores, behave like a flat list of bytes and
    a list of remembered texts. *)
From stdpp Require Import base numbers list option strings sorting.
From Stdlib Require Import ssreflect Strings.Byte ZArith.
From S2P Require Import Prelude TextSpec StringBuffer PieceTree PieceTreeInv PieceTreeEdit.
From S2P Require Import PieceTreeQuery PieceTreeBulk PieceTreeDiff Persistence BufferFormat TextBuffer.
From S2P Require Import TextBufferInv.

Inductive BufferOp : Type :=
| OpInsert (offset : nat) (text : list byte)
| OpDelete (start end_ : nat)
| OpReplaceRange (start end_ : nat) (text : list byte)
| OpReplaceContent (text : list byte)
| OpBulk (edits : list Edit)
| OpSetLineEnding (le : LineEnding)
| OpSaved (path : string) (size : nat)
| OpSnapshot
| OpRestore (i : nat).

Section session.
Context {io_error : Type} (fs_read_range : string -> nat -> nat -> io_error + list byte).
Context (usize_max : nat).

Definition run_buffer_op (st : TextBuffer * list BufferSnapshot) (op : BufferOp)
    : res (TextBuffer * list BufferSnapshot) :=
  let '(tb, snaps) := st in
  match op with
  | OpInsert offset text => '(tb, _) ← insert_bytes fs_read_range tb offset text; Ok (tb, snaps)
  | OpDelete start end_ => tb ← tb_delete fs_read_range tb start end_; Ok (tb, snaps)
  | OpReplaceRange start end_ text =>
      '(tb, _) ← replace_range fs_read_range tb start end_ text; Ok (tb, snaps)
  | OpReplaceContent text => Ok (replace_content tb text, snaps)
  | OpBulk edits => '(tb, _) ← tb_apply_bulk_edits usize_max tb edits; Ok (tb, snaps)
  | OpSetLineEnding le => Ok (tb_set_line_ending tb le, snaps)
  | OpSaved path size => Ok (finalize_save tb path size, snaps)
  | OpSnapshot => Ok (tb, snaps ++ [snapshot_buffer_state tb])
  | OpRestore i =>
      Ok (match snaps !! i with Some s => restore_buffer_state tb s | None => tb end, snaps)
  end.

Fixpoint run_buffer_ops (st : TextBuffer * list BufferSnapshot) (ops : list BufferOp)
    : res (TextBuffer * list BufferSnapshot) :=
  match ops with
  | [] => Ok st
  | op :: ops => st ← run_buffer_op st op; run_buffer_ops st ops
  end.
End session.

(** The same session on flat text. *)
Inductive spec_op (usize_max : nat) : list byte * list (list byte) -> BufferOp ->
    list byte * list (list byte) -> Prop :=
| spec_insert T Ts offset text :
    spec_op usize_max (T, Ts) (OpInsert offset text) (splice T offset 0 text, Ts)
| spec_delete T Ts start end_ :
    spec_op usize_max (T, Ts) (OpDelete start end_) (splice T start (end_ - start) [], Ts)
| spec_replace_range T Ts start end_ text :
    spec_op usize_max (T, Ts) (OpReplaceRange start end_ text)
      (if decide (start < length T) then splice T start (end_ - start) text else T, Ts)
| spec_replace_content T Ts text :
    spec_op usize_max (T, Ts) (OpReplaceContent text) (text, Ts)
| spec_bulk T Ts edits :
    bulk_valid usize_max T edits ->
    spec_op usize_max (T, Ts) (OpBulk edits) (foldl apply_edit T edits, Ts)
| spec_line_ending T Ts le : spec_op usize_max (T, Ts) (OpSetLineEnding le) (T, Ts)
| spec_saved T Ts path size : spec_op usize_max (T, Ts) (OpSaved path size) (T, Ts)
| spec_snapshot T Ts : spec_op usize_max (T, Ts) OpSnapshot (T, Ts ++ [T])
| spec_restore T Ts i T' :
    Ts !! i = Some T' -> spec_op usize_max (T, Ts) (OpRestore i) (T', Ts).

Inductive spec_ops (usize_max : nat) : list byte * list (list byte) -> list BufferOp ->
    list byte * list (list byte) -> Prop :=
| spec_ops_nil st : spec_ops usize_max st [] st
| spec_ops_cons st st' st'' op ops :
    spec_op usize_max st op st' -> spec_ops usize_max st' ops st'' ->
    spec_ops usize_max st (op :: ops) st''.

Section refine.
Context (files : string -> list byte).
Context {io_error : Type} (fs_read_range : string -> nat -> nat -> io_error + list byte).
Hypothesis Hread : forall path off n d, fs_read_range path off n = inr d ->
  d = take n (drop off (files path)) /\ length d = n.

Definition session_inv (st : TextBuffer * list BufferSnapshot) : Prop :=
  tb_inv files st.1 /\ large_file (file_kind st.1) = false /\ Forall (snap_inv files) st.2.

Definition session_text (st : TextBuffer * list BufferSnapshot) : list byte * list (list byte) :=
  (tb_text files st.1, snap_text files <$> st.2).

(** Consolidating a small file after a save puts the text into one buffer. *)
Lemma consolidate_small_file_ok tb :
  tb_inv files tb ->
  tb_inv files (consolidate_small_file tb)
  /\ tb_text files (consolidate_small_file tb) = tb_text files tb.
Proof.
  intros Hinv. unfold consolidate_small_file. destruct (get_all_text tb) as [bytes|] eqn:Hall; [|done].
  pose proof (proj1 (read_range_ok _ _ _ 0 (tb_total_bytes tb)
    (content_in_agree files (tb_buffers tb)) (proj1 Hinv)) bytes Hall) as Hb.
  rw drop_0 take_ge in Hb; [by rw (tb_total_bytes_text files)|].
  destruct (whole_buffer_tree_ok files [new_loaded 0 bytes true] (Stored 0) (new_loaded 0 bytes true)
    bytes (Some (count_newlines bytes))) as [Ht Htx]; [done..|by intros c [= <-]|].
  split; [|exact (eq_trans Htx Hb)]. split_and!; [done..|]. apply Forall_singleton.
  apply (buffer_sound_loaded files 0).
Qed.

Lemma run_buffer_op_ok usize_max st op T' :
  session_inv st -> spec_op usize_max (session_text st) op T' ->
  exists st', run_buffer_op fs_read_range usize_max st op = Ok st'
    /\ session_inv st' /\ session_text st' = T'.
Proof.
  destruct st as [tb snaps]. intros (Hinv & Hk & Hsn) Hop. simpl in Hinv, Hk, Hsn.
  inversion Hop; subst; cbn [run_buffer_op].
  - destruct (insert_bytes_ok files fs_read_range Hread tb offset text Hinv)
      as (tb' & cur & -> & ? & Htx & _ & _ & Hk'). eexists. split; [done|].
    split; [split_and!; simpl; [done|congruence|done]|]. unfold session_text. simpl. by rw Htx.
  - destruct (tb_delete_ok files fs_read_range Hread tb start end_ Hinv)
      as (tb' & -> & ? & Htx & Hk'). eexists. split; [done|].
    split; [split_and!; simpl; [done|congruence|done]|]. unfold session_text. simpl. by rw Htx.
  - destruct (replace_range_ok files fs_read_range Hread tb start end_ text Hinv)
      as (tb' & -> & ? & Htx & Hk'). eexists. split; [done|].
    split; [split_and!; simpl; [done|congruence|done]|]. unfold session_text. simpl. by rw Htx.
  - destruct (replace_content_ok files tb text Hinv) as [? Htx]. eexists. split; [done|].
    split; [done|]. unfold session_text. simpl. by rw Htx.
  - destruct (tb_apply_bulk_edits_ok files usize_max tb edits Hinv)
      as (tb' & delta & -> & ? & Htx & _ & Hk'); [done|]. eexists. split; [done|].
    split; [split_and!; simpl; [done|congruence|done]|]. unfold session_text. simpl. by rw Htx.
  - eexists. split; [done|]. done.
  - eexists. split; [done|]. unfold finalize_save, consolidate_after_save. simpl. rw Hk.
    set (tb1 := set_persistence tb _). destruct (consolidate_small_file_ok tb1) as [Hinv' Htx]; [done|].
    split; [|unfold session_text; simpl; f_equal; exact Htx]. split_and!; simpl; [done| |done].
    rw -Hk. unfold tb1, consolidate_small_file. by destruct (get_all_text _).
  - eexists. split; [done|]. split.
    + split_and!; simpl; [done..|]. apply Forall_app. split; [done|]. by apply Forall_singleton.
    + unfold session_text. simpl. by rw fmap_app.
  - match goal with H : _ !! i = Some _ |- _ => rename H into Hi end.
    simpl in Hi. rw list_lookup_fmap in Hi. destruct (snaps !! i) as [s|] eqn:Hs; [|done].
    injection Hi as <-. eexists. split; [done|].
    pose proof (Forall_lookup_1 _ _ _ _ Hsn Hs). done.
Qed.

Lemma run_buffer_ops_ok usize_max T ops T' :
  spec_ops usize_max T ops T' -> forall st, session_inv st -> session_text st = T ->
  exists st', run_buffer_ops fs_read_range usize_max st ops = Ok st'
    /\ session_inv st' /\ session_text st' = T'.
Proof.
  induction 1 as [T|T T1 T2 op ops Hop _ IH]; intros st Hinv Htx; [by exists st|]. subst T.
  destruct (run_buffer_op_ok usize_max st op T1 Hinv Hop) as (st1 & Hrun & Hinv1 & Htx1).
  cbn [run_buffer_ops]. rw Hrun. by apply IH.
Qed.
End refine.

(** ** Properties *)

(** C1: editing sessions refine a flat text.  Take a buffer of a small file that satisfies
    the invariant (a freshly opened one does), over a file system whose reads return the
    bytes of its files, and any sequence of insertions, deletions, range and whole
    replacements, line-ending changes, saves, snapshots, restores and bulk edits, where
    every restore is of a snapshot taken before and the edits of every bulk edit are given
    from the highest position down, do not overlap and start in the text, which is no longer
    than the machine can count ([bulk_valid]).  It runs without panicking, keeps the
    invariant, and leaves exactly the text that the same sequence gives on a flat list of
    bytes (a range replacement that starts at or behind the end of the text changes nothing),
    with every snapshot still holding the text it was taken of; the length is right and every
    read that succeeds returns the bytes of that text. *)
Theorem text_buffer_refines files io_error
    (fs_read_range : string -> nat -> nat -> io_error + list byte) usize_max tb ops T Ts :
  (forall path off n d, fs_read_range path off n = inr d ->
     d = take n (drop off (files path)) /\ length d = n) ->
  tb_inv files tb -> large_file (file_kind tb) = false ->
  spec_ops usize_max (tb_text files tb, []) ops (T, Ts) ->
  exists tb' snaps, run_buffer_ops fs_read_range usize_max (tb, []) ops = Ok (tb', snaps)
    /\ tb_inv files tb' /\ tb_text files tb' = T /\ snap_text files <$> snaps = Ts
    /\ tb_total_bytes tb' = length T
    /\ (forall off n r, get_text_range tb' off n = Some r -> r = take n (drop off T)).
Proof.
  intros Hread Hinv Hk Hops.
  destruct (run_buffer_ops_ok files fs_read_range Hread usize_max _ _ _ Hops (tb, []))
    as ([tb' snaps] & Hrun & (Hinv' & _ & _) & Htx); [by split_and!|done|].
  injection Htx as <- <-. exists tb', snaps. split_and!; try done.
  - by apply tb_total_bytes_text.
  - intros off n r. apply (read_range_ok _ _ _ off n (content_in_agree files _) (proj1 Hinv')).
Qed.

(** Typing, saving, a bulk edit and undoing it by its snapshot. *)
Lemma text_buffer_refines_witness :
  let read := fun (path : string) (off n : nat) => inl tt : unit + list byte in
  exists tb' snaps, run_buffer_ops read 100 (from_utf8_detected [x61; x62; x0a] Utf8 true, [])
      [OpInsert 2 [x63; x64]; OpDelete 0 1; OpSaved EmptyString 4; OpSnapshot;
       OpBulk [(3, 1, [x65]); (0, 1, [])]; OpRestore 0] = Ok (tb', snaps)
    /\ tb_text (fun _ => []) tb' = [x62; x63; x64; x0a].
Proof.
  intros read.
  destruct (text_buffer_refines (fun _ => []) unit read 100 (from_utf8_detected [x61; x62; x0a] Utf8 true)
      [OpInsert 2 [x63; x64]; OpDelete 0 1; OpSaved EmptyString 4; OpSnapshot;
       OpBulk [(3, 1, [x65]); (0, 1, [])]; OpRestore 0] [x62; x63; x64; x0a] [[x62; x63; x64; x0a]])
    as (tb' & snaps & H & _ & Htx & _).
  - done.
  - apply from_utf8_detected_ok.
  - reflexivity.
  - eapply spec_ops_cons; [apply spec_insert|]. eapply spec_ops_cons; [apply spec_delete|].
    eapply spec_ops_cons; [apply spec_saved|]. eapply spec_ops_cons; [apply spec_snapshot|].
    eapply spec_ops_cons; [apply spec_bulk|].
    { split_and!; [vm_compute; lia|repeat constructor; vm_compute; lia|].
      repeat constructor; vm_compute; lia. }
    eapply spec_ops_cons; [by eapply spec_restore|]. exact (spec_ops_nil _ _).
  - exists tb', snaps. exact (conj H Htx).
Defined.
