(* ===== verification/TextBufferLoad.v ===== *)
(** * Text buffer: loading on demand

    Models the part of crates/fresh-editor-core/src/model/buffer/mod.rs that works
    on files that are not loaded: splitting an unloaded piece and loading a chunk
    of it, reading and scanning with loading on the way, the incremental line-feed
    scan and the rebuild that ends it, and growing a streamed file.

    [load_chunk_size] and [chunk_alignment] stand for LOAD_CHUNK_SIZE (1 MiB) and
    CHUNK_ALIGNMENT (64 KiB).  A [while] loop takes fuel; running out of it is
    [Panic], which the theorems show does not happen with the fuel given. *)
From stdpp Require Import base numbers list option strings sorting.
From Stdlib Require Import ssreflect Strings.Byte ZArith.
From S2P Require Import Prelude TextSpec StringBuffer PieceTree PieceTreeDiff Persistence BufferFormat.
From S2P Require Import TextBuffer.

(** The lazy end of [load_large_file_internal]: one piece over the whole file,
    unloaded, once encoding and line ending are detected from the sample. *)
Definition open_unloaded (path : string) (file_size : nat) (line_ending : LineEnding)
    (e : Encoding) (binary : bool) : TextBuffer :=
  let t := tree_of_buffer file_size None in
  mkTextBuffer t [mkStringBuffer 0 (Unloaded path 0 file_size) None] 1
    (persistence_new (Some path) (root t) (Some file_size)) (file_kind_new true binary)
    (format_new line_ending e) 0%Z config_default.

(** A work item of the line-feed scan. *)
Record LineScanChunk : Type := mkScanChunk {
  leaf_index : nat; byte_len : nat; already_known : bool;
}.

Section load.
Context {io_error : Type}.
Context (fs_read_range : string -> nat -> nat -> io_error + list byte).
Context (count_line_feeds_in_range : string -> nat -> nat -> io_error + nat).
Context (load_chunk_size chunk_alignment : nat).

(** [scan_leaf]: the number of newlines of a leaf, [None] for an error. *)
Definition scan_leaf (tb : TextBuffer) (leaf : LeafData) : res (option nat) :=
  match tb_buffers tb !! buffer_id (l_location leaf) with
  | None => Ok None
  | Some buffer =>
      match sb_data buffer with
      | Loaded data _ =>
          part ← slice data (l_offset leaf) (Nat.min (l_offset leaf + l_bytes leaf) (length data));
          Ok (Some (count_newlines part))
      | Unloaded path file_offset _ =>
          match count_line_feeds_in_range path (file_offset + l_offset leaf) (l_bytes leaf) with
          | inr count => Ok (Some count)
          | inl _ => Ok None
          end
      end
  end.

(** The leaves without a line-feed count that can be counted now, by index. *)
Fixpoint scan_fixups (tb : TextBuffer) (leaves : list LeafData) (idx : nat)
    : res (list (nat * nat)) :=
  match leaves with
  | [] => Ok []
  | leaf :: leaves =>
      match l_line_feed_cnt leaf with
      | Some _ => scan_fixups tb leaves (S idx)
      | None =>
          count ← scan_leaf tb leaf;
          rest ← scan_fixups tb leaves (S idx);
          Ok (match count with Some c => (idx, c) :: rest | None => rest end)
      end
  end.

Definition fix_line_feeds (tb : TextBuffer) (t : PieceTree) : res PieceTree :=
  fixups ← scan_fixups tb (get_leaves t) 0;
  Ok (match fixups with [] => t | _ => update_leaf_line_feeds_path_copy t fixups end).

(** The part of an unloaded piece to load for an access at [offset_in_piece]:
    where it starts in the buffer and its length. *)
Definition chunk_range (view : PieceView) (offset_in_piece : nat) : nat * nat :=
  if decide (pv_bytes view <= load_chunk_size) then (pv_buffer_offset view, pv_bytes view)
  else
    let start := (pv_buffer_offset view + offset_in_piece) / chunk_alignment * chunk_alignment in
    (start, Nat.min load_chunk_size (pv_buffer_offset view + pv_bytes view - start)).

(** [buffers.get_mut(id)?.load(fs)?]; [missing] is the error for no such buffer. *)
Definition load_buffer (tb : TextBuffer) (id : nat) (missing : LoadError io_error)
    : res (TextBuffer * (LoadError io_error + unit)) :=
  match tb_buffers tb !! id with
  | None => Ok (tb, inl missing)
  | Some buffer =>
      loaded ← load fs_read_range buffer;
      match loaded with
      | inl e => Ok (tb, inl (LoadFailed e))
      | inr buffer => Ok (set_buffers tb (<[id := buffer]> (tb_buffers tb)), inr tt)
      end
  end.

(** The end of [chunk_split_and_load], once the chunk is loaded: recount, and keep
    the saved tree in step. *)
Definition after_chunk_load (tb : TextBuffer) (id chunk_start chunk_bytes new_id : nat)
    : res TextBuffer :=
  tb ← (if line_feeds_scanned (file_kind tb)
        then t ← fix_line_feeds tb (piece_tree tb); Ok (set_tree tb t) else Ok tb);
  let p := persistence tb in
  Ok (set_persistence tb
        (if negb (modified p) then set_saved_root p (root (piece_tree tb))
         else apply_chunk_load_to_saved_root p id chunk_start chunk_bytes new_id)).

Definition chunk_split_and_load (tb : TextBuffer) (view : PieceView) (current_offset : nat)
    : res (TextBuffer * (LoadError io_error + bool)) :=
  let id := buffer_id (pv_location view) in
  let buffer_bytes := default 0 (tb_buffers tb !! id ≫= unloaded_bytes) in
  if negb (bool_decide (load_chunk_size < pv_bytes view \/ pv_bytes view < buffer_bytes)) then
    '(tb, r) ← load_buffer tb id BufferNotFound;
    Ok (tb, match r with inl e => inl e | inr _ => inr false end)
  else
    let piece_start := pv_doc_offset view in
    let '(chunk_start, chunk_bytes) := chunk_range view (current_offset - piece_start) in
    let start_in_piece := chunk_start - pv_buffer_offset view in
    let split_start := piece_start + start_in_piece in
    let split_end := split_start + chunk_bytes in
    t ← (if decide (0 < start_in_piece)
         then split_at_offset (piece_tree tb) split_start (tb_buffers tb) else Ok (piece_tree tb));
    t ← (if decide (split_end < piece_start + pv_bytes view)
         then split_at_offset t split_end (tb_buffers tb) else Ok t);
    let tb := set_tree tb t in
    match tb_buffers tb !! id with
    | None => Ok (tb, inl BufferNotFound)
    | Some buffer =>
        match create_chunk_buffer buffer (next_buffer_id tb) chunk_start chunk_bytes with
        | None => Ok (tb, inl ChunkNotCreated)
        | Some chunk =>
            let new_id := sb_id chunk in
            let tb := push_buffer tb chunk in
            let tb := set_tree tb (replace_buffer_reference (piece_tree tb) id
                        (pv_buffer_offset view + start_in_piece) chunk_bytes (Added new_id)) in
            '(tb, r) ← load_buffer tb new_id ChunkBufferNotFound;
            match r with
            | inl e => Ok (tb, inl e)
            | inr _ =>
                tb ← after_chunk_load tb id chunk_start chunk_bytes new_id;
                Ok (tb, inr true)
            end
        end
    end.

Definition needs_loading (tb : TextBuffer) (id : nat) : bool :=
  match tb_buffers tb !! id with Some b => negb (is_loaded b) | None => false end.

(** ** Reading *)

(** One pass of the [for] loop of [get_text_range_mut]: whether it was restarted,
    the offset reached, the bytes read and whether any were. *)
Fixpoint read_views (tb : TextBuffer) (vs : list PieceView) (current end_offset : nat)
    (result : list byte) (made_progress : bool)
    : res (TextBuffer * (LoadError io_error + bool * nat * list byte * bool)) :=
  match vs with
  | [] => Ok (tb, inr (false, current, result, made_progress))
  | view :: vs =>
      let id := buffer_id (pv_location view) in
      '(tb, r) ← (if needs_loading tb id then chunk_split_and_load tb view current
                  else Ok (tb, inr false));
      match r with
      | inl e => Ok (tb, inl e)
      | inr true => Ok (tb, inr (true, current, result, made_progress))
      | inr false =>
          let piece_start := pv_doc_offset view in
          let read_start := Nat.max current piece_start in
          let read_end := Nat.min end_offset (piece_start + pv_bytes view) in
          if decide (read_start < read_end) then
            let buffer_start := pv_buffer_offset view + (read_start - piece_start) in
            let buffer_end := buffer_start + (read_end - read_start) in
            match tb_buffers tb !! id with
            | None => Ok (tb, inl BufferNotFound)
            | Some buffer =>
                match get_data buffer with
                | None => Ok (tb, inl DataUnavailable)
                | Some data =>
                    if decide (length data < buffer_end) then Ok (tb, inl RangeOutOfBounds) else
                    part ← slice data buffer_start buffer_end;
                    read_views tb vs read_end end_offset (result ++ part) true
                end
            end
          else read_views tb vs current end_offset result made_progress
      end
  end.

(** The [while] loop. *)
Fixpoint read_loop (fuel : nat) (tb : TextBuffer) (current end_offset : nat) (result : list byte)
    : res (TextBuffer * (LoadError io_error + list byte)) :=
  if decide (end_offset <= current) then Ok (tb, inr result) else
  match fuel with
  | 0 => Panic
  | S fuel =>
      '(tb, r) ← read_views tb (iter_pieces_in_range (piece_tree tb) current end_offset)
                   current end_offset result false;
      match r with
      | inl e => Ok (tb, inl e)
      | inr (restarted, current, result, made_progress) =>
          if negb made_progress && negb restarted then Ok (tb, inl NoProgress)
          else read_loop fuel tb current end_offset result
      end
  end.

Definition get_text_range_mut (tb : TextBuffer) (offset bytes : nat)
    : res (TextBuffer * (LoadError io_error + list byte)) :=
  if decide (bytes = 0) then Ok (tb, inr []) else
  let end_offset := Nat.min (offset + bytes) (tb_total_bytes tb) in
  read_loop (2 * (end_offset - offset)) tb offset end_offset [].

Definition prepare_viewport (tb : TextBuffer) (start_offset line_count : nat)
    : res (TextBuffer * (LoadError io_error + unit)) :=
  let estimated_bytes := line_count * 200 in
  let remaining_bytes := tb_total_bytes tb - start_offset in
  let bytes_to_load := Nat.min estimated_bytes remaining_bytes in
  '(tb, r) ← get_text_range_mut tb start_offset bytes_to_load;
  Ok (tb, match r with inl e => inl e | inr _ => inr tt end).

(** ** The incremental line-feed scan *)
Fixpoint scan_chunks (idx : nat) (leaves : list LeafData) : list LineScanChunk :=
  match leaves with
  | [] => []
  | leaf :: leaves =>
      mkScanChunk idx (l_bytes leaf) (bool_decide (is_Some (l_line_feed_cnt leaf)))
      :: scan_chunks (S idx) leaves
  end.

(** Cutting the leaves, which loops forever on a chunk size of 0. *)
Definition split_tree (t : PieceTree) : res PieceTree :=
  match split_leaves_to_chunk_size t load_chunk_size with Some t => Ok t | None => Panic end.

Definition prepare_line_scan (tb : TextBuffer)
    : res (TextBuffer * (list LineScanChunk * nat)) :=
  t ← split_tree (piece_tree tb);
  let leaves := get_leaves t in
  Ok (set_tree tb t, (scan_chunks 0 leaves, list_sum (l_bytes <$> leaves))).

Definition apply_scan_updates (tb : TextBuffer) (updates : list (nat * nat)) : TextBuffer :=
  let tb := set_tree tb (update_leaf_line_feeds (piece_tree tb) updates) in
  set_file_kind tb (mark_line_feed_scan_complete (file_kind tb)).

(** The edits of the walk in [rebuild_with_pristine_saved_root]: [(offset, len)]
    deletions of the original file and insertions into what is left of it, the
    cursor in the original file and the original bytes seen so far. *)
Record edit_walk : Type := mkEditWalk {
  deletions : list (nat * nat);
  insertions : list (nat * LeafData);
  orig_cursor : nat;
  stored_bytes_in_doc : nat;
}.

Definition walk_original (w : edit_walk) (start bytes : nat) : edit_walk :=
  mkEditWalk
    (if decide (orig_cursor w < start)
     then deletions w ++ [(orig_cursor w, start - orig_cursor w)] else deletions w)
    (insertions w) (start + bytes) (stored_bytes_in_doc w + bytes).

Definition walk_piece (bs : list StringBuffer) (w : edit_walk) (piece : PieceView) : edit_walk :=
  match pv_location piece with
  | Stored _ => walk_original w (pv_buffer_offset piece) (pv_bytes piece)
  | Added id =>
      match bs !! id ≫= stored_file_offset with
      | Some file_off => walk_original w file_off (pv_bytes piece)
      | None =>
          mkEditWalk (deletions w)
            (insertions w ++ [(stored_bytes_in_doc w,
               mkLeaf (pv_location piece) (pv_buffer_offset piece) (pv_bytes piece)
                 (pv_line_feed_cnt piece))])
            (orig_cursor w) (stored_bytes_in_doc w)
      end
  end.

Definition edits_of_tree (tb : TextBuffer) (file_size : nat) : edit_walk :=
  let w := foldl (walk_piece (tb_buffers tb)) (mkEditWalk [] [] 0 0)
             (iter_pieces_in_range (piece_tree tb) 0 (tb_total_bytes tb)) in
  if decide (orig_cursor w < file_size)
  then mkEditWalk (deletions w ++ [(orig_cursor w, file_size - orig_cursor w)]) (insertions w)
         (orig_cursor w) (stored_bytes_in_doc w)
  else w.

(** Every leaf on the whole-file buffer, at its document offset. *)
Fixpoint pristine_leaves (doc_offset : nat) (leaves : list LeafData) : list LeafData :=
  match leaves with
  | [] => []
  | leaf :: leaves =>
      mkLeaf (Stored 0) doc_offset (l_bytes leaf) (l_line_feed_cnt leaf)
      :: pristine_leaves (doc_offset + l_bytes leaf) leaves
  end.

Fixpoint replay_deletions (t : PieceTree) (bs : list StringBuffer) (dels : list (nat * nat))
    : res PieceTree :=
  match dels with
  | [] => Ok t
  | (offset, len) :: dels => t ← tree_delete t offset len bs; replay_deletions t bs dels
  end.

Fixpoint replay_insertions (t : PieceTree) (bs : list StringBuffer) (insert_delta : nat)
    (ins : list (nat * LeafData)) : res PieceTree :=
  match ins with
  | [] => Ok t
  | (offset, l) :: ins =>
      '(t, _) ← tree_insert t (offset + insert_delta) (l_location l) (l_offset l) (l_bytes l)
                  (l_line_feed_cnt l) bs;
      replay_insertions t bs (insert_delta + l_bytes l) ins
  end.

(** [sort_by_key(|b| Reverse(b.0))]: a stable sort, high offsets first. *)
Definition higher_first (a b : nat * nat) : Prop := b.1 <= a.1.
#[export] Instance higher_first_dec a b : Decision (higher_first a b) := decide_rel le b.1 a.1.

Definition sort_descending (dels : list (nat * nat)) : list (nat * nat) :=
  merge_sort higher_first dels.

Definition rebuild_with_pristine_saved_root (tb : TextBuffer) (scan_updates : list (nat * nat))
    : res TextBuffer :=
  match saved_file_size (persistence tb) with
  | None => Ok (apply_scan_updates tb scan_updates)
  | Some file_size =>
      let w := edits_of_tree tb file_size in
      let finish (tb : TextBuffer) :=
        set_file_kind tb (mark_line_feed_scan_complete (file_kind tb)) in
      if decide (deletions w = [] /\ insertions w = []) then
        let t := update_leaf_line_feeds (piece_tree tb) scan_updates in
        let pristine := if decide (0 < file_size) then from_leaves (pristine_leaves 0 (get_leaves t))
                        else tree_empty in
        Ok (finish (set_tree (set_persistence tb
                                (set_saved_root (persistence tb) (root pristine))) pristine))
      else
        let pristine := tree_of_buffer file_size None in
        pristine ← split_tree pristine;
        let pristine := update_leaf_line_feeds pristine scan_updates in
        let tb := set_persistence tb (set_saved_root (persistence tb) (root pristine)) in
        t ← replay_deletions pristine (tb_buffers tb) (sort_descending (deletions w));
        t ← replay_insertions t (tb_buffers tb) 0 (insertions w);
        t ← fix_line_feeds tb t;
        Ok (finish (set_tree tb t))
  end.

(** ** Streamed files *)
Definition extend_streaming (tb : TextBuffer) (source_path : string) (new_size : nat)
    : res TextBuffer :=
  let old_size := tb_total_bytes tb in
  if decide (new_size <= old_size) then Ok tb else
  let additional_bytes := new_size - old_size in
  let id := next_buffer_id tb in
  let tb := push_buffer tb (new_unloaded id source_path old_size additional_bytes) in
  let line_feed_cnt :=
    match count_line_feeds_in_range source_path old_size additional_bytes with
    | inr c => Some c | inl _ => None
    end in
  '(t, _) ← tree_insert (piece_tree tb) old_size (Stored id) 0 additional_bytes line_feed_cnt
              (tb_buffers tb);
  Ok (bump_version (set_tree tb t)).
End load.
