(* ===== verification/TextBufferLoadInv.v ===== *)
(** * Text buffer: loading on demand keeps the text

    Loading changes how the document is cut into pieces and which buffer holds
    them, never the text: under the contract of the file system and as long as
    every unloaded piece longer than a load chunk starts at an aligned offset of
    its buffer, reading a range loads what it needs, terminates, and returns the
    bytes of the text. *)
From stdpp Require Import base numbers list option strings sorting.
From Stdlib Require Import ssreflect Strings.Byte ZArith.
From S2P Require Import Prelude TextSpec StringBuffer PieceTree PieceTreeInv PieceTreeEdit.
From S2P Require Import PieceTreeQuery PieceTreeLines PieceTreeMeta PieceTreeDiff Persistence.
From S2P Require Import BufferFormat TextBuffer TextBufferInv TextBufferLoad.

(** ** Where the pieces are cut *)

(** A leaf without its line-feed count. *)
Abbreviation shape := (BufferLocation * nat * nat)%type.
Definition shape_of (l : LeafData) : shape := (l_location l, l_offset l, l_bytes l).
Definition shapes (t : PieceTree) : list shape := shape_of <$> node_leaves (root t).
Definition shapes_len (ss : list shape) : nat := list_sum (snd <$> ss).

Lemma shapes_len_of ls : shapes_len (shape_of <$> ls) = length (cells_of ls).
Proof. unfold shapes_len. rw length_cells_of -list_fmap_compose. done. Qed.

Lemma shapes_len_app a b : shapes_len (a ++ b) = shapes_len a + shapes_len b.
Proof. unfold shapes_len. by rw fmap_app list_sum_app. Qed.

Fixpoint cut (ss : list shape) (pos : nat) : list shape :=
  match ss with
  | [] => []
  | (loc, off, n) :: ss =>
      if decide (pos = 0) then (loc, off, n) :: ss
      else if decide (pos < n) then (loc, off, pos) :: (loc, off + pos, n - pos) :: ss
      else (loc, off, n) :: cut ss (pos - n)
  end.

Lemma cut_0 ss : cut ss 0 = ss.
Proof. by destruct ss as [|[[loc off] n] ss]. Qed.

Lemma cut_app a b pos : cut (a ++ b) pos = cut a pos ++ cut b (pos - shapes_len a).
Proof.
  revert pos. induction a as [|[[loc off] n] a IH]; intros pos; [by rw Nat.sub_0_r|].
  unfold shapes_len. cbn [app cut fmap list_fmap list_sum foldr snd].
  repeat case_decide; [subst; by rw cut_0|..].
  - replace (pos - _) with 0 by lia. by rw cut_0.
  - rw IH Nat.sub_add_distr. done.
Qed.

Lemma cut_end a p : shapes_len a <= p -> cut a p = a.
Proof.
  revert p. induction a as [|[[loc off] n] a IH]; intros p; [done|].
  change (shapes_len ((loc, off, n) :: a)) with (n + shapes_len a). intros. cbn [cut].
  case_decide; [done|]. rw decide_False; [lia|]. f_equal. apply IH. lia.
Qed.

(** A cut inside one piece. *)
Lemma cut_mid a loc off n b k :
  0 < k < n ->
  cut (a ++ (loc, off, n) :: b) (shapes_len a + k)
  = a ++ (loc, off, k) :: (loc, off + k, n - k) :: b.
Proof.
  intros. rw cut_app. replace (shapes_len a + k - shapes_len a) with k by lia.
  cbn [cut]. rw decide_False; [lia|]. rw decide_True; [lia|]. f_equal.
  apply cut_end. lia.
Qed.

(** The piece at an offset. *)
Fixpoint shape_at (ss : list shape) (pos : nat) : option shape :=
  match ss with
  | [] => None
  | s :: ss => if decide (pos < s.2) then Some s else shape_at ss (pos - s.2)
  end.

Lemma shape_at_middle ss1 s ss2 pos :
  shapes_len ss1 <= pos < shapes_len ss1 + s.2 -> shape_at (ss1 ++ s :: ss2) pos = Some s.
Proof.
  revert pos. induction ss1 as [|s' ss1 IH]; intros pos.
  - unfold shapes_len. simpl. intros. by rw decide_True; [lia|].
  - change (shapes_len (s' :: ss1)) with (s'.2 + shapes_len ss1). intros. simpl.
    rw decide_False; [lia|]. apply IH. lia.
Qed.

Lemma collect_split_shapes buffers n cur pos acc ls :
  node_wf n -> collect_leaves_with_split n cur pos None acc buffers = Ok ls ->
  shape_of <$> ls = (shape_of <$> acc) ++ cut (shape_of <$> node_leaves n) (pos - cur).
Proof.
  revert cur acc ls. induction n as [lb lf l IHl r IHr|loc off n c]; intros cur acc ls Hwf;
    cbn [collect_leaves_with_split].
  - destruct Hwf as (-> & _ & Hl & Hr). intros H.
    assert (exists ls1, collect_leaves_with_split l cur pos None acc buffers = Ok ls1
      /\ collect_leaves_with_split r (cur + length (node_cells l)) pos None ls1 buffers = Ok ls)
      as (ls1 & H1 & H2).
    { case_decide; destruct (collect_leaves_with_split l _ _ _ _ _) as [ls1|]; simpl in H;
        try done; by exists ls1. }
    rw (IHr _ _ _ Hr H2) (IHl _ _ _ Hl H1). cbn [node_leaves].
    rw fmap_app cut_app shapes_len_of -app_assoc. unfold node_cells. by rw Nat.sub_add_distr.
  - cbn [node_leaves fmap list_fmap]. unfold shape_of at 3. cbn [cut l_location l_offset l_bytes].
    intros H. case_decide as H1.
    + rw !(decide_True (P := 0 < _)) in H; [lia..|]. rw decide_False; [lia|]. rw decide_True; [lia|].
      destruct (compute_line_feeds_static buffers loc off (pos - cur)) as [c1|]; simpl in H; [|done].
      destruct (compute_line_feeds_static _ _ _ _) as [c2|]; simpl in H; [|done].
      injection H as <-. by rw fmap_app.
    + assert (ls = acc ++ [mkLeaf loc off n c]) as -> by (case_decide; by simplify_eq/=).
      clear H. rw fmap_app. f_equal. case_decide; [done|]. by rw decide_False; [lia|].
Qed.

Lemma split_at_offset_shapes content buffers t pos t' :
  tree_inv content buffers t -> split_at_offset t pos buffers = Ok t' ->
  shapes t' = cut (shapes t) pos.
Proof.
  intros [[Hwf Ht] _]. unfold split_at_offset, shapes. case_decide as Hz.
  { intros [= <-]. destruct Hz as [->|Hz]; [by rw cut_0|]. rw cut_end //.
    rw shapes_len_of. unfold doc, node_cells in Ht. lia. }
  rw node_find_by_offset_eq //.
  destruct (leaf_at_is_Some (node_leaves (root t)) pos) as [lb ->]; [unfold doc, node_cells in Ht; lia|].
  simpl. destruct (collect_leaves_with_split _ _ _ _ _ _) as [ls|] eqn:Hls; [|done].
  intros [= <-]. apply collect_split_shapes in Hls; [|done]. rw Nat.sub_0_r in Hls. simpl in Hls.
  rw check_and_rebalance_leaves. simpl. rw build_balanced_leaves //. intros ->. simpl in Hls.
  pose proof (node_leaves_nonempty (root t)).
  destruct (node_leaves (root t)) as [|l ls']; [simpl in *; lia|].
  destruct l as [loc off n c]. cbn in Hls. repeat case_decide; simplify_eq.
Qed.

Lemma shape_at_app a b pos : shape_at (a ++ b) pos = if decide (pos < shapes_len a) then shape_at a pos else shape_at b (pos - shapes_len a).
Proof.
  revert pos. induction a as [|s a IH]; intros pos; [by rw Nat.sub_0_r|]. change (shapes_len (s :: a)) with (s.2 + shapes_len a). cbn [app shape_at].
  case_decide; [by rw decide_True; [lia|]|]. rw IH. repeat case_decide; try lia; [done|]. f_equal. lia.
Qed.

Lemma shape_at_same_len (f : shape -> shape) ss pos : (forall s, (f s).2 = s.2) -> shape_at (f <$> ss) pos = f <$> shape_at ss pos.
Proof.
  intros Hf. revert pos. induction ss as [|s ss IH]; intros pos; [done|]. cbn [fmap list_fmap shape_at]. rw Hf. case_decide; [done|]. apply IH.
Qed.

(** The shapes after a buffer reference is replaced. *)
Definition replace_shape (id off n : nat) (loc : BufferLocation) (s : shape) : shape :=
  if decide (buffer_id s.1.1 = id /\ s.1.2 = off /\ s.2 = n) then (loc, 0, n) else s.

Lemma replace_shape_len id off n loc ss :
  shapes_len (replace_shape id off n loc <$> ss) = shapes_len ss.
Proof.
  unfold shapes_len. rw -list_fmap_compose. f_equal. apply list_fmap_ext. intros i x _.
  unfold compose, replace_shape. case_decide as Hx; [by destruct Hx as (_ & _ & <-)|done].
Qed.

Lemma replace_buffer_reference_shapes t id off n loc :
  shapes (replace_buffer_reference t id off n loc) = replace_shape id off n loc <$> shapes t.
Proof.
  unfold shapes. rw replace_buffer_reference_leaves -!list_fmap_compose.
  apply list_fmap_ext. intros i l _. unfold compose, replaced_leaf, replace_matches, replace_shape.
  simpl. destruct (decide _) as [H|H].
  - rw bool_decide_eq_true_2 //. destruct H as (_ & _ & <-). done.
  - by rw bool_decide_eq_false_2.
Qed.

Lemma res_bind_bind {A B C} (m : res A) (f : A -> res B) (g : B -> res C) y :
  m ≫= f = Ok y -> (m ≫= fun x => f x ≫= g) = g y.
Proof. destruct m as [x|]; simpl; [|done]. by intros ->. Qed.

Section load.
Context (files : string -> list byte).
Context {io_error : Type}.
Context (fs_read_range : string -> nat -> nat -> io_error + list byte).
Context (count_line_feeds_in_range : string -> nat -> nat -> io_error + nat).
Context (load_chunk_size chunk_alignment : nat).

(** The contracts of the file system. *)
Hypothesis Hread : forall path off n d, fs_read_range path off n = inr d ->
  d = take n (drop off (files path)) /\ length d = n.
Hypothesis Hcount : forall path off n c, count_line_feeds_in_range path off n = inr c ->
  c = count_newlines (take n (drop off (files path))).
Hypothesis Hsize : 0 < load_chunk_size.
Hypothesis Halign : 0 < chunk_alignment.
Hypothesis Hdiv : Nat.divide chunk_alignment load_chunk_size.

Local Abbreviation tb_inv := (tb_inv files).
Local Abbreviation tb_text := (tb_text files).
Local Abbreviation content_in := (content_in files).

(** A read of bytes that the file has, that the file system refused. *)
Definition read_failed (e : io_error) : Prop :=
  exists path off n, n <= length (drop off (files path)) /\ fs_read_range path off n = inl e.

Lemma load_failed b e : buffer_sound files b -> load fs_read_range b = Ok (inl e) -> read_failed e.
Proof.
  intros [_ Hlen]. unfold load, source, sb_len in *. destruct b as [id [data ls|path off n] sfo]; simpl in *; [done|].
  destruct (fs_read_range path off n) as [e'|d] eqn:Hr; [|by case_decide]. intros [= <-]. exists path, off, n.
  split; [|done]. rw length_take in Hlen. lia.
Qed.

(** ** Counting line feeds *)
Lemma scan_leaf_ok tb l :
  tb_inv tb -> leaf_bounded (tb_buffers tb) l ->
  exists r, scan_leaf count_line_feeds_in_range tb l = Ok r
    /\ forall c, r = Some c -> c = count_newlines (leaf_text (content_in (tb_buffers tb)) l).
Proof.
  intros Hinv Hl. unfold scan_leaf.
  destruct (tb_buffers tb !! _) as [b|] eqn:Hb; [|by exists None].
  pose proof (leaf_in_source files tb l Hinv Hl b Hb) as Hlen. rw (leaf_text_source files _ _ _ Hb Hlen).
  unfold source in *. destruct (sb_data b) as [data ls|path off n].
  - rw Nat.min_l // slice_Ok; [lia..|]. eexists. split; [done|]. intros c [= <-].
    do 3 f_equal. lia.
  - destruct (count_line_feeds_in_range _ _ _) as [e|c] eqn:Hc; [by eexists|]. eexists. split; [done|].
    intros c' [= <-]. rw (Hcount _ _ _ _ Hc). rw length_take in Hlen.
    rw skipn_firstn_comm drop_drop take_take Nat.min_l //. lia.
Qed.

Lemma shape_set_leaf_lf ls u : shape_of <$> set_leaf_lf ls u = shape_of <$> ls.
Proof.
  unfold set_leaf_lf. generalize u.1. induction ls as [|l ls IH]; intros [|i]; [done..|].
  cbn [alter list_alter fmap list_fmap]. f_equal. apply IH.
Qed.

Lemma shapes_set_leaf_lfs ls ups : shape_of <$> foldl set_leaf_lf ls ups = shape_of <$> ls.
Proof.
  revert ls. induction ups as [|u ups IH]; intros ls; [done|]. simpl. by rw IH shape_set_leaf_lf.
Qed.

(** A leaf with the shape of a valid leaf and a right count is valid. *)
Lemma leaf_ok_shape content bs l k :
  shape_of l = shape_of k -> leaf_ok content bs l ->
  (forall c, l_line_feed_cnt k = Some c -> c = count_newlines (leaf_text content l)) ->
  leaf_ok content bs k.
Proof.
  destruct l as [loc off n c], k as [loc' off' n' c']. unfold shape_of. simpl.
  intros [= <- <- <-] [Hb _] Hc. split; [exact Hb|]. exact Hc.
Qed.

Lemma set_leaf_lfs_ok content bs ls ups :
  Forall (leaf_ok content bs) ls ->
  Forall (fun u => forall l, ls !! u.1 = Some l -> u.2 = count_newlines (leaf_text content l)) ups ->
  Forall (leaf_ok content bs) (foldl set_leaf_lf ls ups).
Proof.
  revert ls. induction ups as [|[i c] ups IH]; intros ls Hok Hups; [done|]. simpl.
  apply Forall_cons_1 in Hups as [Hc Hups]. simpl in Hc. apply IH.
  - apply Forall_lookup. intros j k Hk. unfold set_leaf_lf in Hk. simpl in Hk.
    destruct (decide (i = j)) as [<-|].
    + rw list_lookup_alter_eq in Hk. destruct (ls !! i) as [l|] eqn:Hl; [|done]. injection Hk as <-.
      apply (leaf_ok_shape content bs l); [by destruct l|exact (Forall_lookup_1 _ _ _ _ Hok Hl)|].
      intros c' [= <-]. by apply Hc.
    + rw list_lookup_alter_ne // in Hk. exact (Forall_lookup_1 _ _ _ _ Hok Hk).
  - eapply Forall_impl; [exact Hups|]. intros [j c'] H l Hl. simpl in *.
    unfold set_leaf_lf in Hl. simpl in Hl. destruct (decide (i = j)) as [<-|].
    + rw list_lookup_alter_eq in Hl. destruct (ls !! i) as [k|] eqn:Hk; [|done].
      injection Hl as <-. rw (H k eq_refl). by destruct k.
    + rw list_lookup_alter_ne // in Hl. by apply H.
Qed.

Lemma scan_fixups_ok tb leaves idx :
  tb_inv tb -> Forall (leaf_bounded (tb_buffers tb)) leaves ->
  exists ups, scan_fixups count_line_feeds_in_range tb leaves idx = Ok ups
    /\ Forall (fun u => idx <= u.1 /\ forall l, leaves !! (u.1 - idx) = Some l ->
         u.2 = count_newlines (leaf_text (content_in (tb_buffers tb)) l)) ups.
Proof.
  intros Hinv. revert idx. induction leaves as [|l leaves IH]; intros idx Hb; [by exists []|].
  apply Forall_cons_1 in Hb as [Hl Hb]. destruct (IH (S idx) Hb) as (ups & Hups & Hok).
  assert (Forall (fun u => idx <= u.1 /\ forall k, (l :: leaves) !! (u.1 - idx) = Some k ->
    u.2 = count_newlines (leaf_text (content_in (tb_buffers tb)) k)) ups) as Hok'.
  { eapply Forall_impl; [exact Hok|]. intros [i c] [Hi H]. simpl in *. split; [lia|].
    intros k. replace (i - idx) with (S (i - S idx)) by lia. apply H. }
  cbn [scan_fixups]. destruct (l_line_feed_cnt l); [by exists ups|].
  destruct (scan_leaf_ok tb l Hinv Hl) as (r & -> & Hr). simpl. rw Hups. simpl.
  eexists. split; [done|]. destruct r as [c|]; [|done]. apply Forall_cons_2; [|done]. simpl.
  split; [lia|]. rw Nat.sub_diag. intros k [= <-]. by apply Hr.
Qed.

Lemma fix_line_feeds_ok tb t :
  tb_inv tb -> tree_inv (content_in (tb_buffers tb)) (tb_buffers tb) t ->
  exists t', fix_line_feeds count_line_feeds_in_range tb t = Ok t'
    /\ tree_inv (content_in (tb_buffers tb)) (tb_buffers tb) t'
    /\ doc t' = doc t /\ shapes t' = shapes t.
Proof.
  intros Hinv Ht. pose proof Ht as [Hwf Hok]. unfold fix_line_feeds. rw get_leaves_eq.
  destruct (scan_fixups_ok tb (node_leaves (root t)) 0 Hinv (tree_inv_bounded _ _ _ Ht))
    as (ups & -> & Hups). simpl.
  assert (exists t', match ups with [] => t | _ => update_leaf_line_feeds_path_copy t ups end = t'
    /\ node_leaves (root t') = foldl set_leaf_lf (node_leaves (root t)) ups /\ tree_wf t')
    as (t' & -> & Hls & Hwf').
  { destruct ups as [|u ups]; [by exists t|].
    destruct (path_copy_updates_ok t (u :: ups) Hwf) as (Hls & Hwf' & _). by eexists. }
  exists t'. split; [done|]. split; [split; [done|]|].
  - rw Hls. apply set_leaf_lfs_ok; [done|]. eapply Forall_impl; [exact Hups|].
    intros [i c] [_ H] l Hl. apply H. by rw Nat.sub_0_r.
  - unfold doc, node_cells, shapes. rw Hls shapes_set_leaf_lfs. split; [|done].
    apply foldl_set_leaf_lf_cells.
Qed.

(** ** Chunks *)

(** An unloaded piece is not empty, and at most a chunk long or at an aligned
    offset. *)
Definition loadable_shape (bs : list StringBuffer) (s : shape) : Prop :=
  exists b, bs !! buffer_id s.1.1 = Some b /\ (is_loaded b = false ->
    0 < s.2 /\ (s.2 <= load_chunk_size \/ Nat.divide chunk_alignment s.1.2)).

Definition loadable (tb : TextBuffer) : Prop :=
  Forall (loadable_shape (tb_buffers tb)) (shapes (piece_tree tb)).

(** The piece at a document offset is loaded. *)
Definition loaded_at (tb : TextBuffer) (pos : nat) : Prop :=
  exists s b, shape_at (shapes (piece_tree tb)) pos = Some s
  /\ tb_buffers tb !! buffer_id s.1.1 = Some b /\ is_loaded b = true.

(** The view of a piece of the tree. *)
Definition view_at (tb : TextBuffer) (view : PieceView) : Prop :=
  exists ls1 l ls2, node_leaves (root (piece_tree tb)) = ls1 ++ l :: ls2
  /\ view = mkPieceView (l_location l) (l_offset l) (l_bytes l) (length (cells_of ls1))
              (l_line_feed_cnt l).

(** The chunk chosen for an access: inside the piece, around the access, at most a
    chunk long, and cut where the rest of the piece stays loadable. *)
Lemma chunk_range_ok view oip :
  pv_bytes view <= load_chunk_size \/ Nat.divide chunk_alignment (pv_buffer_offset view) ->
  oip < pv_bytes view ->
  let '(cs, cb) := chunk_range load_chunk_size chunk_alignment view oip in
  pv_buffer_offset view <= cs /\ cs <= pv_buffer_offset view + oip < cs + cb
  /\ cs + cb <= pv_buffer_offset view + pv_bytes view /\ cb <= load_chunk_size
  /\ (cs + cb < pv_buffer_offset view + pv_bytes view -> Nat.divide chunk_alignment (cs + cb)).
Proof.
  intros Hal Hoip. unfold chunk_range. case_decide as Hs; [split_and!; lia|].
  destruct Hal as [?|[q Hq]]; [lia|]. set (p := pv_buffer_offset view + oip).
  destruct Hdiv as [r Hr]. assert (0 < r) by (destruct r; lia).
  pose proof (Nat.div_mod p chunk_alignment ltac:(lia)) as Hp.
  pose proof (Nat.mod_upper_bound p chunk_alignment ltac:(lia)) as Hm.
  set (d := p / chunk_alignment) in *. rw (Nat.mul_comm d).
  assert (q <= d) as Hqd.
  { unfold d, p. apply Nat.div_le_lower_bound; [lia|]. lia. }
  assert (chunk_alignment <= load_chunk_size) by nia.
  assert (pv_buffer_offset view <= chunk_alignment * d) by nia.
  assert (p = pv_buffer_offset view + oip) as Hpe by done. clearbody d p.
  split_and!; [lia..|].
  intros Hlt. rw Nat.min_l; [lia|]. exists (d + r). lia.
Qed.

(** Two cuts isolate the chunk. *)
Lemma isolate_chunk_ok content bs t ss1 loc off n ss2 s cb :
  buffers_agree content bs -> tree_inv content bs t ->
  shapes t = ss1 ++ (loc, off, n) :: ss2 -> 0 < cb -> s + cb <= n ->
  exists t', (t1 ← (if decide (0 < s) then split_at_offset t (shapes_len ss1 + s) bs else Ok t);
      if decide (shapes_len ss1 + s + cb < shapes_len ss1 + n)
      then split_at_offset t1 (shapes_len ss1 + s + cb) bs else Ok t1) = Ok t'
  /\ tree_inv content bs t' /\ doc t' = doc t
  /\ shapes t' = ss1 ++ (if decide (0 < s) then [(loc, off, s)] else [])
       ++ (loc, off + s, cb)
       :: (if decide (s + cb < n) then [(loc, off + (s + cb), n - (s + cb))] else []) ++ ss2.
Proof.
  intros Hag Ht Hsh Hcb Hn.
  assert (exists t1, (if decide (0 < s) then split_at_offset t (shapes_len ss1 + s) bs else Ok t) = Ok t1
    /\ tree_inv content bs t1 /\ doc t1 = doc t
    /\ shapes t1 = (ss1 ++ (if decide (0 < s) then [(loc, off, s)] else []))
         ++ (loc, off + s, n - s) :: ss2) as (t1 & -> & Ht1 & Hd1 & Hsh1).
  { case_decide as Hs.
    - destruct (split_at_offset_ok content bs Hag t (shapes_len ss1 + s) Ht) as (t1 & H1 & ? & ? & _).
      exists t1. split_and!; [done..|]. rw (split_at_offset_shapes _ _ _ _ _ Ht H1) Hsh.
      rw cut_mid; [lia|]. by rw -app_assoc.
    - exists t. split_and!; [done..|]. assert (s = 0) as -> by lia.
      by rw app_nil_r Nat.add_0_r Nat.sub_0_r. }
  cbn [mbind res_bind]. set (pre := ss1 ++ _) in Hsh1.
  assert (shapes_len pre = shapes_len ss1 + s) as Hpre.
  { unfold pre. rw shapes_len_app. case_decide; unfold shapes_len at 2; simpl; lia. }
  case_decide as He.
  - destruct (split_at_offset_ok content bs Hag t1 (shapes_len ss1 + s + cb) Ht1)
      as (t2 & H2 & ? & Hd2 & _).
    exists t2. split_and!; [done..|by rw Hd2|]. rw (split_at_offset_shapes _ _ _ _ _ Ht1 H2) Hsh1 -Hpre.
    rw cut_mid; [lia|]. rw (decide_True (P := s + cb < n)); [lia|]. unfold pre. rw -app_assoc /=.
    replace (off + s + cb) with (off + (s + cb)) by lia.
    by replace (n - s - cb) with (n - (s + cb)) by lia.
  - exists t1. split_and!; [done..|]. rw Hsh1 (decide_False (P := s + cb < n)); [lia|]. unfold pre.
    rw -app_assoc /=. by replace (n - s) with cb by lia.
Qed.

Lemma load_buffer_ok tb id missing b :
  tb_inv tb -> tb_buffers tb !! id = Some b ->
  exists tb' r, load_buffer fs_read_range tb id missing = Ok (tb', r)
  /\ ((exists e, r = inl (LoadFailed e) /\ read_failed e /\ tb' = tb)
      \/ (r = inr tt /\ exists b', is_loaded b' = true /\ get_data b' = Some (source files b)
          /\ tb' = set_buffers tb (<[id := b']> (tb_buffers tb))
          /\ tb_inv tb' /\ tb_text tb' = tb_text tb)).
Proof.
  intros Hinv Hb. pose proof Hinv as (_ & Hid & Hs). unfold load_buffer. rw Hb.
  destruct (load_ok files fs_read_range Hread b (Forall_lookup_1 _ _ _ _ Hs Hb)) as (r & El & Hr).
  rw El. simpl. destruct r as [e|b'].
  { eexists _, _. split; [done|]. left. eexists. split_and!; [done|by apply (load_failed b), El; apply (Forall_lookup_1 _ _ _ _ Hs Hb)|done]. }
  destruct (Hr b' eq_refl) as (Hsb & Hsrc & Hlen & Hd & _). eexists _, _. split; [done|]. right.
  split; [done|]. exists b'. split.
  { unfold get_data in Hd. unfold is_loaded. by destruct (sb_data b'). }
  split; [done|]. split; [done|].
  apply set_buffers_ok; [done|apply (extends_update files _ _ b); [done|by rw Hsrc|lia]
    |by apply Forall_insert|by rw length_insert].
Qed.

(** Cutting a chunk out of an unloaded buffer. *)
Lemma chunk_buffer_ok b id cs cb :
  buffer_sound files b -> is_loaded b = false -> cs + cb <= sb_len b ->
  exists chunk, create_chunk_buffer b id cs cb = Some chunk /\ sb_id chunk = id
  /\ buffer_sound files chunk /\ sb_len chunk = cb /\ is_loaded chunk = false
  /\ source files chunk = take cb (drop cs (source files b)).
Proof.
  intros [_ Hlen] Hl Hcs. unfold create_chunk_buffer, is_loaded, source, sb_len in *.
  destruct b as [bid [?|path fo n] sfo]; simpl in *; [done|]. rw decide_False; [lia|].
  assert (take cb (drop (fo + cs) (files path)) = take cb (drop cs (take n (drop fo (files path))))) as E.
  { rw skipn_firstn_comm drop_drop take_take Nat.min_l //. lia. }
  eexists. split; [done|]. simpl. split_and!; [done| |done..].
  split; [by intros ls d|]. unfold source, sb_len. simpl. rw E length_take length_drop Hlen. lia.
Qed.

(** A fresh chunk buffer is at most a chunk long, so its pieces are loadable. *)
Lemma loadable_new tb tb' c :
  tb_buffers tb' = tb_buffers tb ++ [c] -> sb_len c <= load_chunk_size -> tb_inv tb' ->
  Forall (fun s => loadable_shape (tb_buffers tb) s
    \/ (buffer_id s.1.1 = length (tb_buffers tb) /\ 0 < s.2)) (shapes (piece_tree tb')) ->
  loadable tb'.
Proof.
  intros Hbs Hc (Ht & _) Hss. unfold loadable. apply Forall_forall. intros s Hs.
  pose proof (proj1 (Forall_forall _ _) Hss s Hs) as [(b & Hb & H)|[E Hpos]].
  - exists b. split; [|done]. rw Hbs. by apply lookup_app_l_Some.
  - exists c. rw Hbs E list_lookup_middle //. split; [done|]. intros _. split; [done|]. left.
    apply list_elem_of_fmap in Hs as (l & -> & Hin).
    pose proof (proj1 (Forall_forall _ _) (tree_inv_bounded _ _ _ Ht) l Hin) as Hbd.
    unfold leaf_bounded in Hbd. simpl in E. rw E Hbs list_lookup_middle // in Hbd. simpl. lia.
Qed.

Lemma after_chunk_load_ok tb id cs cb new_id :
  tb_inv tb ->
  exists tb', after_chunk_load count_line_feeds_in_range tb id cs cb new_id = Ok tb'
  /\ tb_inv tb' /\ tb_text tb' = tb_text tb /\ tb_buffers tb' = tb_buffers tb
  /\ shapes (piece_tree tb') = shapes (piece_tree tb).
Proof.
  intros Hinv. unfold after_chunk_load. destruct (line_feeds_scanned _); simpl; [|by eexists].
  destruct (fix_line_feeds_ok tb (piece_tree tb) Hinv (proj1 Hinv)) as (t & -> & Ht & Hd & Hsh).
  simpl. eexists. split; [done|]. split_and!; [by apply set_tree_ok| |done..].
  unfold TextBufferInv.tb_text, text. simpl. by rw Hd.
Qed.

(** The isolated chunk gets its own buffer, which is then loaded. *)
Lemma own_buffer_ok tb ss1 loc off cb ss2 b chunk :
  tb_inv tb -> loadable tb -> shapes (piece_tree tb) = ss1 ++ (loc, off, cb) :: ss2 ->
  tb_buffers tb !! buffer_id loc = Some b -> 0 < cb <= load_chunk_size -> off + cb <= sb_len b ->
  sb_id chunk = length (tb_buffers tb) -> buffer_sound files chunk -> sb_len chunk = cb ->
  source files chunk = take cb (drop off (source files b)) ->
  let tb1 := push_buffer tb chunk in
  let tb2 := set_tree tb1 (replace_buffer_reference (piece_tree tb1) (buffer_id loc) off cb
               (Added (sb_id chunk))) in
  exists tb' r, load_buffer fs_read_range tb2 (sb_id chunk) ChunkBufferNotFound = Ok (tb', r)
  /\ tb_inv tb' /\ tb_text tb' = tb_text tb /\ loadable tb'
  /\ ((exists e, r = inl (LoadFailed e) /\ read_failed e)
      \/ (r = inr tt /\ (forall pos, loaded_at tb pos -> loaded_at tb' pos)
          /\ forall pos, shapes_len ss1 <= pos < shapes_len ss1 + cb -> loaded_at tb' pos)).
Proof.
  intros Hinv Hld Hsh Hb Hcb Hoff Hid Hsc Hlen Hsrc tb1 tb2.
  destruct (push_buffer_ok files tb chunk Hinv Hsc) as [Hinv1 Htx1]. fold tb1 in Hinv1, Htx1.
  assert (tb_buffers tb1 !! length (tb_buffers tb) = Some chunk) as Hnew by (by apply list_lookup_middle).
  pose proof (lookup_lt_Some _ _ _ Hb) as Hlt.
  assert (tb_buffers tb1 !! buffer_id loc = Some b) as Hb1 by (by apply lookup_app_l_Some).
  destruct (replace_buffer_reference_ok (content_in (tb_buffers tb1)) (tb_buffers tb1) (piece_tree tb1)
              (buffer_id loc) off cb (Added (sb_id chunk))) as (Ht2 & Htx2 & _).
  { apply Hinv1. }
  { intros i Hi. unfold TextBufferInv.content_in. simpl buffer_id. rw Hid Hnew Hb1 /= Hsrc.
    by rw lookup_take_lt // lookup_drop. }
  { unfold leaf_bounded. simpl. rw Hid Hnew. lia. }
  { simpl. lia. }
  assert (tb_inv tb2) as Hinv2 by (by apply set_tree_ok).
  assert (shapes (piece_tree tb2)
    = (replace_shape (buffer_id loc) off cb (Added (sb_id chunk)) <$> ss1)
        ++ (Added (sb_id chunk), 0, cb)
        :: (replace_shape (buffer_id loc) off cb (Added (sb_id chunk)) <$> ss2)) as Hsh2.
  { unfold tb2. simpl. rw replace_buffer_reference_shapes Hsh fmap_app fmap_cons. do 2 f_equal.
    unfold replace_shape. simpl. by rw decide_True. }
  assert (Forall (fun s => loadable_shape (tb_buffers tb) s
    \/ (buffer_id s.1.1 = length (tb_buffers tb) /\ 0 < s.2)) (shapes (piece_tree tb2))) as Hss.
  { unfold tb2. simpl. rw replace_buffer_reference_shapes. apply Forall_fmap.
    eapply Forall_impl; [exact Hld|]. intros s Hs. unfold compose, replace_shape.
    case_decide; [right; simpl; lia|by left]. }
  assert (forall c, sb_len c = cb -> forall tb', tb_buffers tb' = tb_buffers tb ++ [c] -> tb_inv tb' ->
    piece_tree tb' = piece_tree tb2 -> loadable tb') as Hldc.
  { intros c Hc tb' Hbs Hi Hp. apply (loadable_new tb tb' c); [done|lia|done|by rw Hp]. }
  destruct (load_buffer_ok tb2 (sb_id chunk) ChunkBufferNotFound chunk Hinv2) as (tb' & r & -> & Hr).
  { by rw Hid. }
  exists tb', r. split; [done|]. assert (tb_text tb2 = tb_text tb) as Htx by (by apply (transitivity Htx2)).
  destruct Hr as [(e & -> & He & ->)|(-> & b' & Hl' & Hd' & -> & Hinv' & Htx')].
  - split_and!; [done..| |left; by eexists]. by apply (Hldc chunk).
  - assert (tb_buffers (set_buffers tb2 (<[sb_id chunk := b']> (tb_buffers tb2)))
      = tb_buffers tb ++ [b']) as Hbs'.
    { simpl. rw Hid insert_app_r_alt // Nat.sub_diag. done. }
    split_and!; [done|by rw Htx'| |right; split_and!; [done| |]].
    + apply (Hldc b'); [|done..]. rw (get_data_len _ _ Hd'). rw (proj2 Hsc). done.
    + intros pos (s & c & Hs1 & Hc1 & Hl1).
      assert (exists c', (tb_buffers tb ++ [b']) !! buffer_id (replace_shape (buffer_id loc) off cb (Added (sb_id chunk)) s).1.1 = Some c'
        /\ is_loaded c' = true) as (c' & Hc' & Hl1').
      { unfold replace_shape. case_decide; [exists b'; cbn [fst buffer_id]; by rw Hid list_lookup_middle|].
        exists c. split; [by apply lookup_app_l_Some|done]. }
      exists (replace_shape (buffer_id loc) off cb (Added (sb_id chunk)) s), c'. rw Hbs'. split; [|done].
      unfold tb2. cbn [set_buffers piece_tree set_tree]. rw replace_buffer_reference_shapes.
      change (piece_tree tb1) with (piece_tree tb). rw shape_at_same_len; [|by rw Hs1].
      intros s'. unfold replace_shape. case_decide as Hx; [|done]. by destruct Hx as (_ & _ & <-).
    + intros pos Hpos. exists (Added (sb_id chunk), 0, cb), b'.
      split; [|by rw Hbs' /= Hid list_lookup_middle].
      simpl. rw Hsh2. apply shape_at_middle. simpl. by rw replace_shape_len.
Qed.

(** Loading a piece's whole buffer in place. *)
Lemma load_in_place_ok tb id missing b :
  tb_inv tb -> loadable tb -> tb_buffers tb !! id = Some b ->
  exists tb' r, load_buffer fs_read_range tb id missing = Ok (tb', r)
  /\ tb_inv tb' /\ tb_text tb' = tb_text tb /\ loadable tb' /\ piece_tree tb' = piece_tree tb
  /\ (forall id' c, id <> id' -> tb_buffers tb !! id' = Some c -> tb_buffers tb' !! id' = Some c)
  /\ ((exists e, r = inl (LoadFailed e) /\ read_failed e)
      \/ (r = inr tt /\ (forall pos, loaded_at tb pos -> loaded_at tb' pos)
          /\ exists b', tb_buffers tb' !! id = Some b' /\ is_loaded b' = true
            /\ get_data b' = Some (source files b))).
Proof.
  intros Hinv Hld Hb. pose proof (lookup_lt_Some _ _ _ Hb) as Hlt.
  destruct (load_buffer_ok tb id missing b Hinv Hb) as (tb' & r & -> & Hr). exists tb', r.
  split; [done|]. destruct Hr as [(e & -> & He & ->)|(-> & b' & Hl' & Hd' & -> & Hinv' & Htx')].
  { split_and!; [done..|]. left. by eexists. }
  split_and!; try done.
  - unfold loadable. simpl. eapply Forall_impl; [exact Hld|]. intros s (c & Hc & H).
    destruct (decide (id = buffer_id s.1.1)) as [E|].
    + exists b'. rw -E list_lookup_insert_eq //. split; [done|congruence].
    + exists c. by rw list_lookup_insert_ne.
  - intros id' c Hne Hc. simpl. by rw list_lookup_insert_ne.
  - right. split_and!; [done| |exists b'; simpl; by rw list_lookup_insert_eq].
    intros pos (s & c & Hs1 & Hc1 & Hl1). exists s. cbn [set_buffers piece_tree tb_buffers].
    destruct (decide (id = buffer_id s.1.1)) as [E|]; [exists b'; by rw -E list_lookup_insert_eq|exists c; by rw list_lookup_insert_ne].
Qed.

(** What the tree holds at a view. *)
Lemma view_at_shape tb view b :
  tb_inv tb -> view_at tb view -> tb_buffers tb !! buffer_id (pv_location view) = Some b ->
  pv_buffer_offset view + pv_bytes view <= sb_len b
  /\ exists ss1 ss2, shapes_len ss1 = pv_doc_offset view
     /\ shapes (piece_tree tb) = ss1 ++ (pv_location view, pv_buffer_offset view, pv_bytes view) :: ss2.
Proof.
  intros (Ht & _) (ls1 & l & ls2 & Hls & ->) Hb. simpl in *. split.
  - assert (leaf_bounded (tb_buffers tb) l) as Hbd.
    { apply (proj1 (Forall_forall _ _) (tree_inv_bounded _ _ _ Ht)). rw Hls.
      apply elem_of_app. right. constructor. }
    unfold leaf_bounded in Hbd. by rw Hb in Hbd.
  - exists (shape_of <$> ls1), (shape_of <$> ls2). split; [apply shapes_len_of|].
    unfold shapes. by rw Hls fmap_app fmap_cons.
Qed.

(** The three parts of a loadable piece are loadable. *)
Lemma isolated_loadable bs ss1 loc off n ss2 s cb b :
  Forall (loadable_shape bs) (ss1 ++ (loc, off, n) :: ss2) ->
  bs !! buffer_id loc = Some b -> is_loaded b = false -> 0 < cb <= load_chunk_size -> s + cb <= n ->
  (s + cb < n -> Nat.divide chunk_alignment (off + (s + cb))) ->
  Forall (loadable_shape bs) (ss1 ++ (if decide (0 < s) then [(loc, off, s)] else [])
    ++ (loc, off + s, cb)
    :: (if decide (s + cb < n) then [(loc, off + (s + cb), n - (s + cb))] else []) ++ ss2).
Proof.
  intros [H1 H2]%Forall_app Hb Hl Hcb Hn Hal. apply Forall_cons_1 in H2 as [Hp H2].
  destruct Hp as (b' & Hb' & Hp). simpl in Hb'. rw Hb in Hb'. injection Hb' as <-.
  destruct (Hp Hl) as [_ Hp']. clear Hp. simpl in Hp'. apply Forall_app. split; [done|].
  apply Forall_app. split.
  { case_decide; [|done]. apply Forall_singleton. exists b. split; [done|]. simpl. intros _.
    split; [lia|]. destruct Hp'; [left; lia|by right]. }
  apply Forall_cons_2; [exists b; split; [done|]; simpl; lia|]. apply Forall_app. split; [|done].
  case_decide; [|done]. apply Forall_singleton. exists b. split; [done|]. simpl. intros _.
  split; [lia|]. right. by apply Hal.
Qed.

(** Cutting an unloaded piece moves no loaded one. *)
Lemma isolated_loaded tb tb2 ss1 loc off n ss2 s cb b pos :
  tb_buffers tb2 = tb_buffers tb -> tb_buffers tb !! buffer_id loc = Some b -> is_loaded b = false -> s + cb <= n ->
  shapes (piece_tree tb) = ss1 ++ (loc, off, n) :: ss2 ->
  shapes (piece_tree tb2) = ss1 ++ (if decide (0 < s) then [(loc, off, s)] else []) ++ (loc, off + s, cb)
    :: (if decide (s + cb < n) then [(loc, off + (s + cb), n - (s + cb))] else []) ++ ss2 ->
  loaded_at tb pos -> loaded_at tb2 pos.
Proof.
  intros Hbs Hb Hl Hn Hsh Hsh2 (sh & c & Hs & Hc & Hcl). exists sh, c. rw Hbs. split; [|done]. rw Hsh2. rw Hsh in Hs.
  rw shape_at_app in Hs. rw shape_at_app. case_decide as H1; [done|]. cbn [shape_at snd] in Hs.
  case_decide as H2; [injection Hs as <-; cbn in Hc; congruence|].
  set (q := pos - shapes_len ss1) in *. clearbody q.
  destruct (decide (0 < s)); destruct (decide (s + cb < n)); cbn [app shape_at snd];
    repeat (rw decide_False; [lia|]); rw -Hs; f_equal; lia.
Qed.

Lemma chunk_split_and_load_ok tb view pos b :
  tb_inv tb -> loadable tb -> view_at tb view ->
  tb_buffers tb !! buffer_id (pv_location view) = Some b -> is_loaded b = false ->
  pv_doc_offset view <= pos < pv_doc_offset view + pv_bytes view ->
  exists tb' r, chunk_split_and_load fs_read_range count_line_feeds_in_range load_chunk_size
      chunk_alignment tb view pos = Ok (tb', r)
  /\ tb_inv tb' /\ tb_text tb' = tb_text tb /\ loadable tb'
  /\ ((exists e, r = inl (LoadFailed e) /\ read_failed e)
      \/ (r = inr true /\ loaded_at tb' pos /\ forall q, loaded_at tb q -> loaded_at tb' q)
      \/ (r = inr false /\ piece_tree tb' = piece_tree tb /\ (forall q, loaded_at tb q -> loaded_at tb' q)
          /\ exists b', tb_buffers tb' !! buffer_id (pv_location view) = Some b'
            /\ is_loaded b' = true)).
Proof.
  intros Hinv Hld Hv Hb Hl Hpos. unfold chunk_split_and_load. destruct (negb _).
  { destruct (load_in_place_ok tb _ BufferNotFound b Hinv Hld Hb)
      as (tb' & r & -> & ? & ? & ? & ? & _ & Hr). cbn [mbind res_bind].
    eexists _, _. split; [done|]. split_and!; [done..|].
    destruct Hr as [(e & -> & He)|(-> & ? & b' & ? & ? & _)]; [left; by eexists|right; right].
    split_and!; [done..|]. by exists b'. }
  destruct (view_at_shape tb view b Hinv Hv Hb) as (Hbl & ss1 & ss2 & Hss1 & Hsh).
  set (id := buffer_id (pv_location view)) in *. set (oip := pos - pv_doc_offset view).
  pose proof Hinv as (Ht & Hnid & Hs). unfold loadable in Hld. rw Hsh in Hld.
  pose proof (proj2 (proj1 (Forall_app _ _ _) Hld)) as Hlv. apply Forall_cons_1 in Hlv as [(b' & Hb' & Hlv) _].
  assert (b' = b) as -> by (simpl in Hb'; fold id in Hb'; congruence). clear Hb'.
  pose proof (chunk_range_ok view oip (proj2 (Hlv Hl)) ltac:(lia)) as Hcr. clear Hlv.
  destruct (chunk_range _ _ _ _) as [cs cb]. destruct Hcr as (Hc1 & Hc2 & Hc3 & Hc4 & Hc5).
  set (s := cs - pv_buffer_offset view).
  destruct (isolate_chunk_ok (content_in (tb_buffers tb)) (tb_buffers tb) (piece_tree tb) ss1
    (pv_location view) (pv_buffer_offset view) (pv_bytes view) ss2 s cb)
    as (t' & Hsp & Ht' & Hd' & Hsh'); [apply content_in_agree|done..|lia|lia|].
  rw Hss1 in Hsp. cbv zeta.
  rw (res_bind_bind _ _ _ _ Hsp). set (tb2 := set_tree tb t').
  assert (tb_inv tb2) as Hinv2 by (by apply set_tree_ok).
  assert (tb_text tb2 = tb_text tb) as Htx2 by (unfold TextBufferInv.tb_text, text; simpl; by rw Hd').
  assert (loadable tb2) as Hld2.
  { unfold loadable, tb2. simpl. rw Hsh'. apply (isolated_loadable _ _ _ _ _ _ _ _ b); [done..|lia|lia|].
    intros. replace (_ + (s + cb)) with (cs + cb) by lia. apply Hc5. lia. }
  assert (forall q, loaded_at tb q -> loaded_at tb2 q) as Hiso
    by (intros q; apply (isolated_loaded tb tb2 ss1 (pv_location view) (pv_buffer_offset view) (pv_bytes view) ss2 s cb b); done || lia).
  change (tb_buffers tb2) with (tb_buffers tb). rw Hb.
  destruct (chunk_buffer_ok b (next_buffer_id tb2) cs cb) as (chunk & -> & Hcid & Hcs & Hcl & _ & Hcsrc);
    [exact (Forall_lookup_1 _ _ _ _ Hs Hb)|done|lia|].
  assert (pv_buffer_offset view + s = cs) as Hcseq by lia. rw Hcseq in Hsh'. rw Hcseq app_assoc in Hsh' |- *.
  destruct (own_buffer_ok tb2 _ (pv_location view) cs cb _ b chunk Hinv2 Hld2 Hsh')
    as (tb' & r & Hlb & Hinv3 & Htx3 & Hld3 & Hr); [done|lia|lia|by rw Hcid|done..|].
  fold id in Hlb. rw Hlb. cbn [mbind res_bind]. destruct Hr as [(e & -> & He)|(-> & Hkept & Hat)].
  { eexists _, _. split; [done|]. split_and!; [done|by rw Htx3|done|]. left. by eexists. }
  destruct (after_chunk_load_ok tb' id cs cb (sb_id chunk) Hinv3) as (tb4 & -> & Hinv4 & Htx4 & Hbs4 & Hsh4).
  cbn [mbind res_bind]. eexists _, _. split; [done|]. unfold loadable, loaded_at in *.
  split_and!; [done|by rw Htx4 Htx3|by rw Hbs4 Hsh4|]. right. left. split; [done|].
  rw Hbs4 Hsh4. split; [|intros q Hq; by apply Hkept, Hiso]. apply Hat. rw shapes_len_app Hss1. case_decide; unfold shapes_len; simpl; lia.
Qed.

(** ** Reading *)

Lemma take_drop_app {A} (t : list A) c a b :
  take a (drop c t) ++ take b (drop (c + a) t) = take (a + b) (drop c t).
Proof. by rw -drop_drop take_take_drop. Qed.

(** The text under a loaded piece. *)
Lemma piece_text tb pre l ls b data k m :
  tb_inv tb -> node_leaves (root (piece_tree tb)) = pre ++ l :: ls ->
  tb_buffers tb !! buffer_id (l_location l) = Some b -> get_data b = Some data -> k + m <= l_bytes l ->
  l_offset l + l_bytes l <= length data
  /\ take m (drop (length (cells_of pre) + k) (tb_text tb)) = take m (drop (l_offset l + k) data).
Proof.
  intros Hinv Hls Hb Hd Hkm. pose proof (tree_inv_bounded _ _ _ (proj1 Hinv)) as Hbd.
  rw Hls in Hbd. apply Forall_app in Hbd as [_ Hbd]. apply Forall_cons_1 in Hbd as [Hbd _].
  pose proof (leaf_in_source files tb l Hinv Hbd b Hb) as Hlen.
  assert (source files b = data) as Hsrc.
  { unfold source, get_data in *. destruct (sb_data b); congruence. }
  rw Hsrc in Hlen. split; [done|].
  unfold TextBufferInv.tb_text, text, doc, node_cells. rw Hls.
  change (cell_byte ?c <$> cells_of ?x) with (text_of c x). rw text_of_app text_of_cons.
  rw -drop_drop -(length_text_of (content_in (tb_buffers tb))) drop_app_length.
  rw (leaf_text_source files _ _ _ Hb); [by rw Hsrc|]. rw Hsrc.
  rw drop_app_le; [rw length_take length_drop; lia|].
  rw take_app_le; [rw length_drop length_take length_drop; lia|].
  rw skipn_firstn_comm drop_drop take_take. f_equal. lia.
Qed.

Local Abbreviation read_views := (read_views fs_read_range count_line_feeds_in_range
  load_chunk_size chunk_alignment).

Lemma view_at_here tb pre l ls :
  node_leaves (root (piece_tree tb)) = pre ++ l :: ls ->
  view_at tb (mkPieceView (l_location l) (l_offset l) (l_bytes l) (length (cells_of pre))
    (l_line_feed_cnt l)).
Proof. intros. by exists pre, l, ls. Qed.

(** What loading at a view leaves: a failure, a restart at a piece that was not
    loaded, or the view's buffer loaded and the tree as it was. *)
Lemma load_view_ok tb pre l ls pos :
  tb_inv tb -> loadable tb -> node_leaves (root (piece_tree tb)) = pre ++ l :: ls ->
  let d := length (cells_of pre) in
  let view := mkPieceView (l_location l) (l_offset l) (l_bytes l) d (l_line_feed_cnt l) in
  (0 < l_bytes l -> d <= pos < d + l_bytes l) ->
  exists tb' r, (if needs_loading tb (buffer_id (l_location l))
      then chunk_split_and_load fs_read_range count_line_feeds_in_range load_chunk_size
             chunk_alignment tb view pos
      else Ok (tb, inr false)) = Ok (tb', r)
  /\ tb_inv tb' /\ tb_text tb' = tb_text tb /\ loadable tb'
  /\ ((exists e, r = inl (LoadFailed e) /\ read_failed e)
      \/ (r = inr true /\ loaded_at tb' pos /\ ~ loaded_at tb pos /\ forall q, loaded_at tb q -> loaded_at tb' q)
      \/ (r = inr false /\ piece_tree tb' = piece_tree tb /\ (forall q, loaded_at tb q -> loaded_at tb' q) /\ (l_bytes l = 0 -> tb' = tb)
          /\ exists b data, tb_buffers tb' !! buffer_id (l_location l) = Some b
            /\ get_data b = Some data)).
Proof.
  intros Hinv Hld Hls d view Hpos. pose proof Hld as Hlv. unfold loadable, shapes in Hlv.
  rw Hls fmap_app fmap_cons in Hlv. apply Forall_app in Hlv as [_ Hlv].
  apply Forall_cons_1 in Hlv as [(b & Hb & Hlv) _]. simpl in Hb, Hlv. unfold needs_loading. rw Hb.
  assert (forall b, is_loaded b = true -> exists data, get_data b = Some data) as Hdata.
  { intros b'. unfold is_loaded, get_data. destruct (sb_data b'); [by eexists|done]. }
  destruct (is_loaded b) eqn:Hl; simpl.
  { eexists _, _. split; [done|]. split_and!; [done..|]. right. right. split_and!; [done..|].
    destruct (Hdata b Hl) as [data Hd]. by exists b, data. }
  destruct (Hlv eq_refl) as [Hpos0 _]. specialize (Hpos Hpos0).
  destruct (chunk_split_and_load_ok tb view pos b Hinv Hld (view_at_here _ _ _ _ Hls) Hb Hl Hpos)
    as (tb' & r & -> & ? & ? & ? & Hr).
  eexists _, _. split; [done|]. split_and!; [done..|].
  destruct Hr as [?|[(-> & Hat & Hkept)|(-> & Ht & Hkept & b' & Hb' & Hl')]]; [by left|right; left|right; right].
  - split_and!; [done|done| |done]. intros (s & c & Hs & Hc & Hcl). unfold shapes in Hs.
    rw Hls fmap_app fmap_cons shape_at_middle in Hs; [by rw shapes_len_of|].
    injection Hs as <-. simpl in Hc. congruence.
  - destruct (Hdata b' Hl') as [data Hd]. split_and!; [done..|lia|]. by exists b', data.
Qed.

(** How a pass over the pieces from [cur] ends. *)
Definition pass_result (tb tb' : TextBuffer) (cur stop : nat) (result : list byte) (mp : bool)
    (r : LoadError io_error + bool * nat * list byte * bool) : Prop :=
  tb_inv tb' /\ tb_text tb' = tb_text tb /\ loadable tb'
  /\ ((exists e, r = inl (LoadFailed e) /\ read_failed e)
      \/ exists restarted cur', cur <= cur' <= Nat.max cur stop
        /\ r = inr (restarted, cur', result ++ take (cur' - cur) (drop cur (tb_text tb)),
                    mp || bool_decide (cur < cur'))
        /\ (if restarted then loaded_at tb' cur' /\ (loaded_at tb cur -> cur < cur') else cur' = stop)).

(** Reading on, from [cur1] instead of [cur]. *)
Lemma pass_result_from tb tb1 tb' cur cur1 stop result mp r :
  tb_text tb1 = tb_text tb -> cur <= cur1 <= stop -> (cur = cur1 -> tb1 = tb) ->
  pass_result tb1 tb' cur1 stop (result ++ take (cur1 - cur) (drop cur (tb_text tb)))
    (mp || bool_decide (cur < cur1)) r ->
  pass_result tb tb' cur stop result mp r.
Proof.
  intros Htx Hle Heq (Hinv & Htx' & Hld & Hr). split_and!; [done|by rw Htx'|done|].
  destruct Hr as [?|(restarted & cur' & Hcur & -> & Hr)]; [by left|right].
  exists restarted, cur'. split; [lia|]. split.
  - rw Htx -app_assoc. replace (drop cur1 _) with (drop (cur + (cur1 - cur)) (tb_text tb)).
    2: { f_equal. lia. }
    rw take_drop_app. replace (cur1 - cur + (cur' - cur1)) with (cur' - cur) by lia.
    do 2 f_equal. rw -orb_assoc. f_equal.
    destruct (decide (cur < cur')); [rw (bool_decide_eq_true_2 (cur < cur')) //|rw (bool_decide_eq_false_2 (cur < cur')) //].
    + apply orb_true_iff. rw !bool_decide_eq_true. lia.
    + apply orb_false_iff. rw !bool_decide_eq_false. lia.
  - destruct restarted; [|done]. destruct Hr as [Hat Hp]. split; [done|]. intros Hc.
    destruct (decide (cur = cur1)) as [E|]; [|lia]. rw E. apply Hp. by rw -E Heq.
Qed.

Lemma read_views_ok s e ls tb pre result mp :
  s < e -> tb_inv tb -> loadable tb -> node_leaves (root (piece_tree tb)) = pre ++ ls ->
  let d := length (cells_of pre) in
  exists tb' r, read_views tb (List.filter (overlaps s e) (views ls d)) (Nat.max s (Nat.min e d)) e
      result mp = Ok (tb', r)
  /\ pass_result tb tb' (Nat.max s (Nat.min e d))
       (Nat.max s (Nat.min e (d + length (cells_of ls)))) result mp r.
Proof.
  intros Hse. revert tb pre result mp. induction ls as [|l ls IH]; intros tb pre result mp Hinv Hld Hls d.
  { simpl. eexists _, _. split; [done|]. split_and!; [done..|]. right.
    exists false, (Nat.max s (Nat.min e d)). unfold cells_of. simpl. rw Nat.add_0_r Nat.sub_diag.
    split; [lia|]. rw bool_decide_eq_false_2; [lia|]. by rw orb_false_r app_nil_r. }
  pose proof (Hls' := Hls). rw (cons_middle l) app_assoc in Hls'.
  assert (length (cells_of (pre ++ [l])) = d + l_bytes l) as Hd'.
  { rw cells_of_app cells_of_cons !length_app length_leaf_cells. unfold d, cells_of at 2. simpl. lia. }
  assert (d + length (cells_of (l :: ls)) = length (cells_of (pre ++ [l])) + length (cells_of ls)) as Hstop.
  { rw Hd' cells_of_cons length_app length_leaf_cells. lia. }
  rw Hstop. cbn [views List.filter]. rw -Hd'. set (view := mkPieceView _ _ _ d _).
  destruct (overlaps s e view) eqn:Ho.
  2: { apply andb_false_iff in Ho. rw !bool_decide_eq_false in Ho. simpl in Ho.
       replace (Nat.max s (Nat.min e d)) with (Nat.max s (Nat.min e (length (cells_of (pre ++ [l])))))
         by (rw Hd'; lia). by apply IH. }
  apply andb_true_iff in Ho as [H1 H2]. apply bool_decide_eq_true in H1, H2. simpl in H1, H2.
  replace (Nat.max s (Nat.min e d)) with (Nat.max s d) by lia. set (cur := Nat.max s d).
  cbn [TextBufferLoad.read_views].
  destruct (load_view_ok tb pre l ls cur Hinv Hld Hls) as (tb1 & r & Hr1 & Hinv1 & Htx1 & Hld1 & Hr);
    [fold d; lia|]. fold d view in Hr1. simpl pv_location. rw Hr1. cbn [mbind res_bind]. clear Hr1.
  destruct Hr as [(err & -> & He')|[(-> & Hat & Hnat & _)|(-> & Ht & _ & Hsame & b & data & Hb & Hdata)]].
  - eexists _, _. split; [done|]. split_and!; [done..|]. left. by eexists.
  - eexists _, _. split; [done|]. split_and!; [done..|]. right. exists true, cur.
    rw Nat.sub_diag app_nil_r bool_decide_eq_false_2; [lia|]. rw orb_false_r.
    split; [lia|]. split_and!; done.
  - simpl pv_doc_offset. simpl pv_bytes. simpl pv_buffer_offset.
    replace (Nat.max cur d) with cur by lia. rw -Ht in Hls Hls'.
    case_decide as Hrd.
    + destruct (piece_text tb1 pre l ls b data (cur - d) (Nat.min e (d + l_bytes l) - cur) Hinv1 Hls Hb Hdata)
        as [Hlen Hpart]; [lia|]. fold d in Hpart. replace (d + (cur - d)) with cur in Hpart by lia.
      rw Hb Hdata. rw decide_False; [lia|]. rw slice_Ok; [lia..|]. cbn [mbind res_bind].
      assert (Nat.max s (Nat.min e (length (cells_of (pre ++ [l])))) = Nat.min e (d + l_bytes l)) as Hcur
        by (rw Hd'; lia).
      destruct (IH tb1 (pre ++ [l]) (result ++ take (Nat.min e (d + l_bytes l) - cur) (drop cur (tb_text tb))) true
        Hinv1 Hld1 Hls') as (tb' & r & Hrv & Hpr). rw Hcur in Hrv Hpr.
      exists tb', r. split.
      { rw -Hrv. do 2 f_equal. rw -Htx1 Hpart. f_equal. lia. }
      apply (pass_result_from tb tb1 tb' cur (Nat.min e (d + l_bytes l))); [done|lia|lia|].
      by rw (bool_decide_eq_true_2 (cur < _)) // orb_true_r.
    + assert (l_bytes l = 0) as Hz by lia. rw (Hsame Hz) in Hls' |- *.
      destruct (IH tb (pre ++ [l]) result mp Hinv Hld Hls') as (tb' & r & Hrv & Hpr).
      assert (Nat.max s (Nat.min e (length (cells_of (pre ++ [l])))) = cur) as Hcur by (rw Hd'; lia).
      rw Hcur in Hrv Hpr. by exists tb', r.
Qed.

Local Abbreviation read_loop := (read_loop fs_read_range count_line_feeds_in_range
  load_chunk_size chunk_alignment).

(** Every two passes advance: a pass that only loads leaves its piece loaded. *)
Lemma read_loop_ok fuel tb cur e result :
  tb_inv tb -> loadable tb -> e <= length (tb_text tb) ->
  2 * (e - cur) <= fuel \/ (loaded_at tb cur /\ 2 * (e - cur) <= S fuel) ->
  exists tb' r, read_loop fuel tb cur e result = Ok (tb', r)
  /\ tb_inv tb' /\ tb_text tb' = tb_text tb /\ loadable tb'
  /\ ((exists err, r = inl (LoadFailed err) /\ read_failed err)
      \/ r = inr (result ++ take (e - cur) (drop cur (tb_text tb)))).
Proof.
  revert tb cur result. induction fuel as [|fuel IH]; intros tb cur result Hinv Hld He Hfuel;
    cbn [TextBufferLoad.read_loop]; (case_decide as Hle; [|try lia]).
  1, 2: replace (e - cur) with 0 by lia; rw take_0 app_nil_r; eexists _, _;
    split; [done|]; split_and!; [done..|]; by right.
  pose proof (proj1 Hinv) as [[Hwf Htot] _]. rw iter_pieces_eq //.
  destruct (read_views_ok cur e (node_leaves (root (piece_tree tb))) tb [] result false)
    as (tb' & r & Hrv & Hpr); [lia|done..|].
  unfold cells_of in Hrv, Hpr. simpl length in Hrv, Hpr. rw Nat.min_0_r Nat.max_0_r in Hrv Hpr.
  rw Hrv. cbn [mbind res_bind]. clear Hrv.
  fold (cells_of (node_leaves (root (piece_tree tb)))) in Hpr.
  unfold TextBufferInv.tb_text, text, doc, node_cells in He. rw length_fmap in He.
  rw Nat.max_r in Hpr; [lia|]. rw Nat.min_l in Hpr; [lia|].
  destruct Hpr as (Hinv' & Htx' & Hld' & Hr).
  destruct Hr as [(err & -> & He')|(restarted & cur' & Hcur & -> & Hr)].
  { eexists _, _. split; [done|]. split_and!; [done..|]. left. by eexists. }
  assert (negb (false || bool_decide (cur < cur')) && negb restarted = false) as ->.
  { apply andb_false_iff. destruct restarted; [by right|left]. subst cur'.
    rw bool_decide_eq_true_2 //. lia. }
  destruct (IH tb' cur' (result ++ take (cur' - cur) (drop cur (tb_text tb))) Hinv' Hld')
    as (tb2 & r2 & -> & Hinv2 & Htx2 & Hld2 & Hr2).
  { rw Htx'. unfold TextBufferInv.tb_text, text, doc, node_cells. rw length_fmap. lia. }
  { destruct restarted; [|subst; lia]. destruct Hr as [Hat Hp].
    destruct (decide (cur < cur')); [lia|]. assert (cur' = cur) as -> by lia. right.
    split; [done|]. destruct Hfuel as [?|[Hc _]]; [lia|]. apply Hp in Hc. lia. }
  eexists _, _. split; [done|]. split_and!; [done|by rw Htx2|done|].
  destruct Hr2 as [?| ->]; [by left|right]. rw Htx' -app_assoc.
  replace (drop cur' (tb_text tb)) with (drop (cur + (cur' - cur)) (tb_text tb)) by (f_equal; lia).
  rw take_drop_app. do 4 f_equal. lia.
Qed.

(** A file opened lazily. *)
Lemma open_unloaded_ok path le e binary :
  files path <> [] ->
  let tb := open_unloaded path (length (files path)) le e binary in
  tb_inv tb /\ loadable tb /\ tb_text tb = files path.
Proof.
  intros Hne tb. assert (0 < length (files path)) as Hpos by (destruct (files path); [done|simpl; lia]).
  set (b := mkStringBuffer 0 (Unloaded path 0 (length (files path))) None).
  set (l := mkLeaf (Stored 0) 0 (length (files path)) None).
  assert (source files b = files path) as Hsrc by (unfold source; simpl; by rw drop_0 take_ge).
  assert (node_leaves (root (piece_tree tb)) = [l] /\ tree_wf (piece_tree tb)) as [Hls Hwf].
  { unfold tb, open_unloaded, tree_of_buffer. simpl. rw decide_True //. split; [done|]. split; [done|].
    unfold doc. simpl. by rw node_cells_Leaf length_leaf_cells. }
  split_and!.
  - split; [split; [done|]|split; [done|]].
    + rw Hls. apply Forall_singleton. split; [|done]. unfold leaf_bounded. simpl.
      unfold sb_len. simpl. lia.
    + apply Forall_singleton. fold b. split; [by intros ls d|]. by rw Hsrc.
  - unfold loadable, shapes. rw Hls. apply Forall_singleton. exists b. split; [done|]. intros _.
    split; [done|]. right. by exists 0.
  - unfold TextBufferInv.tb_text, text, doc, node_cells. rw Hls.
    change (cell_byte ?c <$> cells_of ?x) with (text_of c x). rw text_of_cons.
    rw (leaf_text_source files (tb_buffers tb) l b) //; [by rw Hsrc|]. rw Hsrc drop_0 take_ge //. apply app_nil_r.
Qed.

Lemma get_text_range_mut_ok tb offset bytes :
  tb_inv tb -> loadable tb ->
  exists tb' r, get_text_range_mut fs_read_range count_line_feeds_in_range load_chunk_size
      chunk_alignment tb offset bytes = Ok (tb', r)
  /\ tb_inv tb' /\ tb_text tb' = tb_text tb /\ loadable tb'
  /\ ((exists e, r = inl (LoadFailed e) /\ read_failed e) \/ r = inr (take bytes (drop offset (tb_text tb)))).
Proof.
  intros Hinv Hld. unfold get_text_range_mut. case_decide as Hz.
  { subst. eexists _, _. split; [done|]. split_and!; [done..|]. by right. }
  rw (tb_total_bytes_text files) //. set (e := Nat.min (offset + bytes) (length (tb_text tb))).
  destruct (read_loop_ok (2 * (e - offset)) tb offset e [] Hinv Hld) as (tb' & r & -> & ? & ? & ? & Hr);
    [lia|by left|].
  eexists _, _. split; [done|]. split_and!; [done..|]. destruct Hr as [?| ->]; [by left|right].
  simpl. f_equal. destruct (decide (offset + bytes <= length (tb_text tb))).
  - f_equal. lia.
  - rw !take_ge //; rw length_drop; lia.
Qed.
(** C6: reading a range of a file that is loaded on demand.  When every piece that is not
    loaded is non-empty and either at most one load chunk long or starts at an aligned offset
    of its buffer ([loadable]: so are the pieces of a freshly opened file, and a read leaves
    them so; an edit inside a long unloaded piece does not), the read terminates within two
    passes per byte, without running into a panic or an internal error, and keeps the text:
    unless the file system refuses bytes that a file has, it returns exactly the bytes of the
    range (cut at the end of the text), and every unloaded piece stays loadable. *)
Theorem get_text_range_mut_reads tb offset bytes :
  tb_inv tb -> loadable tb ->
  exists tb' r, get_text_range_mut fs_read_range count_line_feeds_in_range load_chunk_size
      chunk_alignment tb offset bytes = Ok (tb', r)
  /\ tb_inv tb' /\ tb_text tb' = tb_text tb /\ loadable tb'
  /\ ((exists e, r = inl (LoadFailed e) /\ read_failed e) \/ r = inr (take bytes (drop offset (tb_text tb)))).
Proof. apply get_text_range_mut_ok. Qed.
End load.

(** ** An example: a twelve-byte file, loaded four bytes at a time. *)
Definition digits : list byte := [x30; x31; x32; x33; x34; x35; x36; x37; x38; x39; x61; x62].

Definition digits_read_some (path : string) (off n : nat) : unit + list byte :=
  if decide (n <= length (drop off digits)) then inr (take n (drop off digits)) else inl tt.

Definition digits_count (path : string) (off n : nat) : unit + nat :=
  inr (count_newlines (take n (drop off digits))).

Definition digits_buffer : TextBuffer := open_unloaded EmptyString 12 LF Utf8 false.

Lemma digits_read_ok path off n d : digits_read_some path off n = inr d ->
  d = take n (drop off digits) /\ length d = n.
Proof.
  unfold digits_read_some. case_decide; [|done]. intros [= <-]. split; [done|].
  rw length_take. lia.
Qed.

Lemma digits_count_ok path off n c : digits_count path off n = inr c ->
  c = count_newlines (take n (drop off digits)).
Proof. by intros [= <-]. Qed.

Lemma digits_never_fail e : ~ read_failed (fun _ => digits) digits_read_some e.
Proof. intros (path & off & n & Hn & Hr). unfold digits_read_some in Hr. by rw decide_True in Hr. Qed.

Lemma get_text_range_mut_reads_witness :
  exists tb' r, get_text_range_mut digits_read_some digits_count 4 2 digits_buffer 3 6 = Ok (tb', r)
  /\ tb_text (fun _ => digits) tb' = digits /\ r = inr [x33; x34; x35; x36; x37; x38].
Proof.
  destruct (open_unloaded_ok (fun _ => digits) 4 2 ltac:(lia) ltac:(lia) EmptyString LF Utf8 false) as (Hinv & Hld & Htx);
    [done|].
  destruct (get_text_range_mut_reads (fun _ => digits) digits_read_some digits_count 4 2 digits_read_ok
              digits_count_ok ltac:(lia) ltac:(lia) (ex_intro _ 2 eq_refl) digits_buffer 3 6 Hinv Hld)
    as (tb' & r & Hr & _ & Htx' & _ & Hrd).
  exists tb', r. split; [exact Hr|]. split; [rw Htx'; exact Htx|].
  rw Htx in Hrd. destruct Hrd as [(e & _ & He)|Hrd]; [destruct (digits_never_fail e He)|exact Hrd].
Defined.
