(* ===== verification/TextBufferLimits.v ===== *)
(** * Text buffer: where the guarantees stop

    Runs of the modelled code on small inputs that leave the conditions of the
    theorems on loading, diffing and rebuilding, and lose or misreport text.  Each
    is a closed evaluation; the file is the twelve bytes of [digits], loaded four
    bytes at a time with an alignment of two. *)
From stdpp Require Import base numbers list option strings.
From Stdlib Require Import ssreflect Strings.Byte ZArith.
From S2P Require Import Prelude TextSpec StringBuffer PieceTree PieceTreeInv PieceTreeDiff Persistence.
From S2P Require Import BufferFormat TextBuffer TextBufferInv TextBufferLoad TextBufferLoadInv.

Local Abbreviation text_of_digits := (tb_text (fun _ => digits)).
Local Abbreviation read := (get_text_range_mut digits_read_some digits_count 4 2).
Local Abbreviation type_in := (insert_bytes digits_read_some).
Local Abbreviation rebuild := (rebuild_with_pristine_saved_root digits_count 4).

(** An insertion into a file that is not loaded leaves an unloaded piece at an
    unaligned offset of its buffer; loading from it takes the chunk that starts
    before the piece, so that reading returns bytes of the wrong place and the
    document's text changes. *)
Theorem unaligned_load_misreads :
  exists tb cursor tb' bytes, type_in digits_buffer 1 [x58] = Ok (tb, cursor)
  /\ read tb 0 13 = Ok (tb', inr bytes)
  /\ bytes <> text_of_digits tb /\ text_of_digits tb' <> text_of_digits tb.
Proof. do 4 eexists. split_and!; by vm_compute. Qed.

(** The rebuild that ends the line-feed scan takes a piece inside a loaded chunk
    to start where the chunk starts: an insertion into the middle of a chunk makes
    it drop the bytes before the insertion's end. *)
Theorem rebuild_drops_chunk_text :
  exists tb1 r tb2 cursor tb3,
    read digits_buffer 0 4 = Ok (tb1, r) /\ type_in tb1 2 [x58] = Ok (tb2, cursor)
    /\ rebuild tb2 [] = Ok tb3
    /\ length (text_of_digits tb2) = 13 /\ length (text_of_digits tb3) = 11.
Proof. do 5 eexists. split_and!; by vm_compute. Qed.

(** Text typed at the end of a loaded chunk is appended to the chunk's buffer, and
    the rebuild takes it for text of the file. *)
Theorem rebuild_drops_appended_text :
  exists tb1 r tb2 cursor tb3,
    read digits_buffer 8 4 = Ok (tb1, r) /\ type_in tb1 12 [x58] = Ok (tb2, cursor)
    /\ rebuild tb2 [] = Ok tb3
    /\ text_of_digits tb2 = digits ++ [x58] /\ x58 ∉ text_of_digits tb3.
Proof.
  do 5 eexists. split_and!; [by vm_compute..|]. apply (bool_decide_unpack _). by vm_compute.
Qed.

(** The diff against the saved text reports no change although ABC became AAB: the
    changed ranges it compares hold the same bytes before and after. *)
Theorem diff_since_saved_misses_change :
  let tb0 := from_utf8_detected [x41; x42; x43] Utf8 false in
  exists tb1 tb2 cursor, delete_bytes digits_read_some tb0 2 1 = Ok tb1
  /\ type_in tb1 0 [x41] = Ok (tb2, cursor)
  /\ get_all_text tb0 = Some [x41; x42; x43] /\ get_all_text tb2 = Some [x41; x41; x42]
  /\ diff_equal (diff_since_saved_uncached (fun _ _ => false) (persistence tb2) (piece_tree tb2)
                   (tb_buffers tb2)) = true.
Proof. cbv zeta. do 3 eexists. split_and!; by vm_compute. Qed.

(** A subtree shared by both trees at the same place is skipped, and the pieces on
    its two sides are compared without it: a piece that moved from one side of it to
    the other, [a b S c] to [a S b c], counts as no change. *)
Theorem shared_subtree_hides_move :
  let leaf i := Leaf (Added i) 0 1 (Some 0) in
  let shared := Internal 1 (Some 0) (leaf 2) (leaf 3) in
  let before := Internal 2 (Some 0) (Internal 1 (Some 0) (leaf 0) (leaf 1))
                  (Internal 2 (Some 0) shared (leaf 4)) in
  let after := Internal 1 (Some 0) (leaf 0)
                 (Internal 2 (Some 0) shared (Internal 1 (Some 0) (leaf 1) (leaf 4))) in
  let ptr_eq a b := bool_decide (shape_of <$> node_leaves a = shape_of <$> node_leaves shared)
    && bool_decide (shape_of <$> node_leaves b = shape_of <$> node_leaves shared) in
  diff_equal (diff_piece_trees ptr_eq before after) = true /\ node_leaves before <> node_leaves after.
Proof. by vm_compute. Qed.
