(* ===== verification/BufferSave.v ===== *)
(** * Saving a buffer

    Models the write recipe of crates/fresh-editor-core/src/model/buffer/save.rs: the
    plan of copies from the file on disk and of inserted data that a save is made
    from, and its execution.

    The file system is a parameter ([exists] and [read_range]); the legacy codecs are
    the parameter of Encodings. *)
From stdpp Require Import base numbers list option strings.
From Stdlib Require Import ssreflect Strings.Byte ZArith.
From S2P Require Import Prelude TextSpec Utf8 StringBuffer PieceTree PieceTreeInv PieceTreeQuery.
From S2P Require Import PieceTreeDiff Persistence BufferFormat Encodings TextBuffer TextBufferInv.

Inductive RecipeAction : Type :=
| CopyRange (offset len : nat)
| InsertData (index : nat).

Record WriteRecipe : Type := mkRecipe {
  src_path : option string;
  insert_data : list (list byte);
  actions : list RecipeAction;
}.

(** Operations of a patched write. *)
Inductive WriteOp : Type :=
| WriteCopy (offset len : nat)
| WriteInsert (data : list byte).

Inductive SaveError {io_error : Type} : Type :=
| SaveBufferNotFound (id : nat)
| SaveIo (e : io_error)
| CopyWithoutSource.
Arguments SaveError : clear implicits.

Definition recipe_empty : WriteRecipe := mkRecipe None [] [].

(** [self.insert_data[index]] panics out of range. *)
Definition data_at (r : WriteRecipe) (index : nat) : res (list byte) :=
  match insert_data r !! index with Some d => Ok d | None => Panic end.

Fixpoint actions_len (r : WriteRecipe) (acts : list RecipeAction) : res nat :=
  match acts with
  | [] => Ok 0
  | CopyRange _ len :: acts => n ← actions_len r acts; Ok (len + n)
  | InsertData i :: acts => d ← data_at r i; n ← actions_len r acts; Ok (length d + n)
  end.

Definition recipe_len (r : WriteRecipe) : res nat := actions_len r (actions r).

Fixpoint write_ops (r : WriteRecipe) (acts : list RecipeAction) : res (list WriteOp) :=
  match acts with
  | [] => Ok []
  | CopyRange off len :: acts => ops ← write_ops r acts; Ok (WriteCopy off len :: ops)
  | InsertData i :: acts => d ← data_at r i; ops ← write_ops r acts; Ok (WriteInsert d :: ops)
  end.

Definition to_write_ops (r : WriteRecipe) : res (list WriteOp) := write_ops r (actions r).

Definition is_copy (a : RecipeAction) : bool :=
  match a with CopyRange _ _ => true | InsertData _ => false end.

Definition has_copy_ops (r : WriteRecipe) : bool := existsb is_copy (actions r).

Fixpoint flatten_actions (r : WriteRecipe) (acts : list RecipeAction) : res (list byte) :=
  match acts with
  | [] => Ok []
  | CopyRange _ _ :: acts => flatten_actions r acts
  | InsertData i :: acts => d ← data_at r i; rest ← flatten_actions r acts; Ok (d ++ rest)
  end.

Definition flatten_inserts (r : WriteRecipe) : res (list byte) := flatten_actions r (actions r).

Section save.
Context {io_error : Type}.
Context (fs_exists : string -> bool).
Context (fs_read_range : string -> nat -> nat -> io_error + list byte).
Context (rs_encode : RsEncoding -> list N -> list byte).

(** What has been written, and the error that stopped the write. *)
Fixpoint write_actions (r : WriteRecipe) (acts : list RecipeAction) (out : list byte)
    : res (list byte * option (SaveError io_error)) :=
  match acts with
  | [] => Ok (out, None)
  | CopyRange off len :: acts =>
      match src_path r with
      | None => Ok (out, Some CopyWithoutSource)
      | Some p =>
          match fs_read_range p off len with
          | inl e => Ok (out, Some (SaveIo e))
          | inr data => write_actions r acts (out ++ data)
          end
      end
  | InsertData i :: acts => d ← data_at r i; write_actions r acts (out ++ d)
  end.

Definition write_recipe (r : WriteRecipe) : res (list byte * option (SaveError io_error)) :=
  write_actions r (actions r) [].

Definition needs_line_ending_conversion (f : BufferFormat) : bool :=
  line_ending_changed_since_load f
  || (bool_decide (line_ending f = CR) && line_endings_normalized f).

Definition needs_encoding_conversion (f : BufferFormat) (k : BufferFileKind) : bool :=
  negb (is_binary k)
  && (encoding_changed_since_load f
      || negb (bool_decide (encoding f = Utf8 \/ encoding f = Ascii))).

(** The conversions of one piece's bytes. *)
Definition convert_piece (f : BufferFormat) (k : BufferFileKind) (data : list byte) : list byte :=
  let data := if needs_line_ending_conversion f
              then convert_line_endings_to data (line_ending f) else data in
  if needs_encoding_conversion f k then convert_from_utf8 rs_encode data (encoding f) else data.

Definition push_insert (r : WriteRecipe) (data : list byte) : WriteRecipe :=
  mkRecipe (src_path r) (insert_data r ++ [data])
    (actions r ++ [InsertData (length (insert_data r))]).

Definition push_copy (r : WriteRecipe) (off len : nat) : WriteRecipe :=
  mkRecipe (src_path r) (insert_data r) (actions r ++ [CopyRange off len]).

(** The loop over the pieces. *)
Fixpoint recipe_pieces (bs : list StringBuffer) (f : BufferFormat) (k : BufferFileKind)
    (r : WriteRecipe) (pieces : list PieceView) : res (SaveError io_error + WriteRecipe) :=
  match pieces with
  | [] => Ok (inr r)
  | piece :: pieces =>
      let id := buffer_id (pv_location piece) in
      match bs !! id with
      | None => Ok (inl (SaveBufferNotFound id))
      | Some buffer =>
          match sb_data buffer with
          | Unloaded path file_offset _ =>
              let stored := match pv_location piece with Stored _ => true | Added _ => false end in
              if stored && bool_decide (src_path r = Some path) then
                recipe_pieces bs f k
                  (push_copy r (file_offset + pv_buffer_offset piece) (pv_bytes piece)) pieces
              else
                match fs_read_range path (file_offset + pv_buffer_offset piece) (pv_bytes piece) with
                | inl e => Ok (inl (SaveIo e))
                | inr data => recipe_pieces bs f k (push_insert r (convert_piece f k data)) pieces
                end
          | Loaded data _ =>
              let start := pv_buffer_offset piece in
              chunk ← slice data start (start + pv_bytes piece);
              recipe_pieces bs f k (push_insert r (convert_piece f k chunk)) pieces
          end
      end
  end.

Definition src_path_for_copy (f : BufferFormat) (k : BufferFileKind) (p : Persistence)
    : option string :=
  if needs_line_ending_conversion f || needs_encoding_conversion f k then None
  else path ← file_path p; if fs_exists path then Some path else None.

Definition build_write_recipe (t : PieceTree) (bs : list StringBuffer) (f : BufferFormat)
    (k : BufferFileKind) (p : Persistence) : res (SaveError io_error + WriteRecipe) :=
  let r := mkRecipe (src_path_for_copy f k p) [] [] in
  let r := match bom_bytes (encoding f) with Some bom => push_insert r bom | None => r end in
  recipe_pieces bs f k r (iter_pieces_in_range t 0 (total_bytes t)).

(** The content of a save: the recipe built and executed. *)
Definition saved_content_of (tb : TextBuffer)
    : res (SaveError io_error + list byte * option (SaveError io_error)) :=
  recipe ← build_write_recipe (piece_tree tb) (tb_buffers tb) (format tb) (file_kind tb)
             (persistence tb);
  match recipe with
  | inl e => Ok (inl e)
  | inr r => w ← write_recipe r; Ok (inr w)
  end.
End save.
