(* ===== verification/BufferSaveInv.v ===== *)
(** * Saving writes the text

    What a save's recipe writes is the text of the buffer: its mark, then every
    piece in order, converted; and with the file written, the buffer that refers to
    the new file still has the same text. *)
From stdpp Require Import base numbers list option strings.
From Stdlib Require Import ssreflect Strings.Byte ZArith.
From S2P Require Import Prelude TextSpec Utf8 StringBuffer PieceTree PieceTreeInv PieceTreeEdit PieceTreeQuery PieceTreeBulk.
From S2P Require Import PieceTreeDiff Persistence BufferFormat Encodings TextBuffer TextBufferInv.
From S2P Require Import TextBufferLoad TextBufferLoadInv BufferSave.

Lemma bind_ext_Forall {A B} (f g : A -> list B) l :
  Forall (fun a => f a = g a) l -> l ≫= f = l ≫= g.
Proof. induction 1 as [|a l Ha _ IH]; [done|]. cbn. rw Ha. f_equal. exact IH. Qed.

(** One piece over a whole unloaded file. *)
Lemma unloaded_tree_ok files bs dest t lf :
  bs = [mkStringBuffer 0 (Unloaded dest 0 (length t)) None] ->
  source files (mkStringBuffer 0 (Unloaded dest 0 (length t)) None) = t ->
  (forall c, lf = Some c -> c = count_newlines t) ->
  tree_inv (content_in files bs) bs (tree_of_buffer (length t) lf)
  /\ text (content_in files bs) (tree_of_buffer (length t) lf) = t.
Proof.
  intros -> Hsrc Hlf. set (b := mkStringBuffer _ _ _) in *. unfold tree_of_buffer.
  case_decide as Hz; last first.
  { destruct t as [|x t]; [|simpl in Hz; lia]. split; [|done].
    split; [done|]. apply Forall_singleton, leaf_ok_empty. }
  set (l := mkLeaf (Stored 0) 0 (length t) lf).
  assert (leaf_text (content_in files [b]) l = t) as Htx.
  { rw (leaf_text_source files [b] l b) //; [by rw Hsrc|]. by rw Hsrc drop_0 take_ge. }
  split; [split; [split; [done|]|]|].
  - unfold doc. simpl. by rw node_cells_Leaf length_leaf_cells.
  - apply Forall_singleton. split; [unfold leaf_bounded, sb_len; simpl; lia|].
    intros c Hc. fold l. rw Htx. by apply Hlf.
  - unfold text, doc. simpl. rw node_cells_Leaf. exact Htx.
Qed.

Section save.
Context (files : string -> list byte).
Context {io_error : Type}.
Context (fs_exists : string -> bool).
Context (fs_read_range : string -> nat -> nat -> io_error + list byte).
Context (rs_encode : RsEncoding -> list N -> list byte).

Hypothesis Hread : forall path off n d, fs_read_range path off n = inr d ->
  d = take n (drop off (files path)) /\ length d = n.

(** ** What a recipe stands for *)
Definition action_bytes (r : WriteRecipe) (a : RecipeAction) : list byte :=
  match a with
  | CopyRange off len => take len (drop off (files (default EmptyString (src_path r))))
  | InsertData i => default [] (insert_data r !! i)
  end.

Definition recipe_text (r : WriteRecipe) : list byte := actions r ≫= action_bytes r.

Definition action_ok (r : WriteRecipe) (a : RecipeAction) : Prop :=
  match a with
  | CopyRange _ _ => is_Some (src_path r)
  | InsertData i => i < length (insert_data r)
  end.

Definition recipe_ok (r : WriteRecipe) : Prop := Forall (action_ok r) (actions r).

Lemma push_insert_ok r data :
  recipe_ok r -> recipe_ok (push_insert r data) /\ recipe_text (push_insert r data) = recipe_text r ++ data.
Proof.
  intros Hr. unfold recipe_ok, recipe_text, push_insert. simpl. split.
  - apply Forall_app. split; [|apply Forall_singleton; simpl; rw length_app /=; lia].
    eapply Forall_impl; [exact Hr|]. intros [off n|i]; simpl; [done|]. rw length_app /=. lia.
  - rw bind_app. f_equal; [|simpl; by rw list_lookup_middle // app_nil_r].
    apply bind_ext_Forall. eapply Forall_impl; [exact Hr|]. intros [off n|i] Ha; simpl; [done|].
    simpl in Ha. by rw lookup_app_l.
Qed.

Lemma push_copy_ok r off n p :
  recipe_ok r -> src_path r = Some p ->
  recipe_ok (push_copy r off n)
  /\ recipe_text (push_copy r off n) = recipe_text r ++ take n (drop off (files p)).
Proof.
  intros Hr Hp. unfold recipe_ok, recipe_text, push_copy. simpl. split.
  - apply Forall_app. split; [exact Hr|]. apply Forall_singleton. exists p. exact Hp.
  - rw bind_app. f_equal. cbn. by rw app_nil_r Hp.
Qed.

(** Executing a recipe writes its text, or stops at a failed read. *)
Lemma write_actions_ok r acts out :
  Forall (action_ok r) acts ->
  exists w err, write_actions fs_read_range r acts out = Ok (w, err)
  /\ ((err = None /\ w = out ++ (acts ≫= action_bytes r)
       /\ actions_len r acts = Ok (length (acts ≫= action_bytes r)))
      \/ exists e, err = Some (SaveIo e)).
Proof.
  intros Ha. revert out. induction Ha as [|a acts Ha _ IH]; intros out; cbn [write_actions actions_len].
  { eexists _, _. split; [done|]. left. by rw app_nil_r. }
  destruct a as [off n|i]; simpl in Ha.
  - destruct Ha as [p Hp]. rw Hp. destruct (fs_read_range p off n) as [e|d] eqn:Hd.
    { eexists _, _. split; [done|]. right. by eexists. }
    apply Hread in Hd as [Hd Hl]. destruct (IH (out ++ d)) as (w & err & -> & Hw).
    eexists _, _. split; [done|]. destruct Hw as [(-> & -> & Hlen)|?]; [left|by right].
    split; [done|]. cbn [mbind list_bind action_bytes]. rw Hp /= -Hd. split; [by rw -app_assoc|].
    rw Hlen. cbn [mbind res_bind]. by rw length_app Hl.
  - destruct (lookup_lt_is_Some_2 _ _ Ha) as [d Hd]. unfold data_at. rw Hd. cbn [mbind res_bind].
    destruct (IH (out ++ d)) as (w & err & -> & Hw). eexists _, _. split; [done|].
    destruct Hw as [(-> & -> & Hlen)|?]; [left|by right]. split; [done|].
    cbn [mbind list_bind action_bytes]. rw Hd /=. split; [by rw -app_assoc|].
    rw Hlen. cbn [mbind res_bind]. by rw length_app.
Qed.

(** ** The pieces *)
Definition view_leaf (p : PieceView) : LeafData :=
  mkLeaf (pv_location p) (pv_buffer_offset p) (pv_bytes p) (pv_line_feed_cnt p).

(** A piece whose buffer exists, within it. *)
Definition piece_backed (bs : list StringBuffer) (l : LeafData) : Prop :=
  leaf_bounded bs l /\ is_Some (bs !! buffer_id (l_location l)).

Local Abbreviation converted tb f k p :=
  (convert_piece rs_encode f k (leaf_text (content_in files (tb_buffers tb)) (view_leaf p))).

Lemma recipe_pieces_ok tb f k ps r :
  tb_inv files tb -> Forall (fun p => piece_backed (tb_buffers tb) (view_leaf p)) ps ->
  recipe_ok r -> (is_Some (src_path r) -> forall d, convert_piece rs_encode f k d = d) ->
  exists res, recipe_pieces fs_read_range rs_encode (tb_buffers tb) f k r ps = Ok res
  /\ ((exists r', res = inr r' /\ recipe_ok r'
        /\ recipe_text r' = recipe_text r ++ (ps ≫= (fun p => converted tb f k p)))
      \/ exists e, res = inl (SaveIo e)).
Proof.
  intros Hinv Hps. revert r. induction Hps as [|p ps [Hb [b Hbuf]] _ IH]; intros r Hr Hsrc;
    cbn [recipe_pieces].
  { eexists. split; [done|]. left. exists r. by rw app_nil_r. }
  pose proof (leaf_in_source files tb (view_leaf p) Hinv Hb b Hbuf) as Hlen. simpl in Hbuf, Hlen.
  pose proof (leaf_text_source files _ (view_leaf p) b Hbuf Hlen) as Htx. simpl in Htx. rw Hbuf.
  assert (forall d, d = leaf_text (content_in files (tb_buffers tb)) (view_leaf p) ->
    exists res, recipe_pieces fs_read_range rs_encode (tb_buffers tb) f k
        (push_insert r (convert_piece rs_encode f k d)) ps = Ok res
    /\ ((exists r', res = inr r' /\ recipe_ok r'
          /\ recipe_text r' = recipe_text r ++ ((p :: ps) ≫= (fun p => converted tb f k p)))
        \/ exists e, res = inl (SaveIo e))) as Hins.
  { intros d ->. destruct (push_insert_ok r (converted tb f k p) Hr) as [Hr' Ht'].
    destruct (IH _ Hr' Hsrc) as (res & Hres & H). exists res. split; [exact Hres|].
    destruct H as [(r' & -> & ? & Hrt)|?]; [left|by right]. exists r'. split_and!; [done..|].
    rw Hrt Ht' -app_assoc. done. }
  unfold source in Hlen, Htx. destruct (sb_data b) as [data ls|path fo n].
  - rw slice_Ok; [lia..|]. cbn [mbind res_bind]. apply Hins. rw Htx. f_equal. lia.
  - rw length_take in Hlen.
    assert (take (pv_bytes p) (drop (fo + pv_buffer_offset p) (files path))
      = leaf_text (content_in files (tb_buffers tb)) (view_leaf p)) as Hfile.
    { rw Htx skipn_firstn_comm drop_drop take_take Nat.min_l //. lia. }
    destruct (_ && _) eqn:Hc.
    + apply andb_true_iff in Hc as [_ Hc]. apply bool_decide_eq_true in Hc.
      destruct (push_copy_ok r (fo + pv_buffer_offset p) (pv_bytes p) path Hr Hc) as [Hr' Ht'].
      destruct (IH _ Hr' Hsrc) as (res & Hres & H). exists res. split; [exact Hres|].
      destruct H as [(r' & -> & ? & Hrt)|?]; [left|by right]. exists r'. split_and!; [done..|].
      rw Hrt Ht' -app_assoc Hfile. f_equal. cbn [mbind list_bind]. by rw Hsrc; [rw Hc; by eexists|].
    + destruct (fs_read_range _ _ _) as [e|d] eqn:Hd.
      { eexists. split; [done|]. right. by eexists. }
      apply Hread in Hd as [-> _]. by apply Hins.
Qed.

(** ** The whole text *)
Lemma view_leaf_views ls d : view_leaf <$> views ls d = ls.
Proof. revert d. induction ls as [|[loc off n c] ls IH]; intros d; [done|]. simpl. f_equal. apply IH. Qed.

(** The pieces an iteration over the whole document skips are empty. *)
Lemma pieces_bind (g : LeafData -> list byte) total ls d :
  (forall l, l_bytes l = 0 -> g l = []) -> d + length (cells_of ls) <= total ->
  List.filter (overlaps 0 total) (views ls d) ≫= (fun p => g (view_leaf p)) = ls ≫= g.
Proof.
  intros Hg. revert d. induction ls as [|l ls IH]; intros d Hd; [done|].
  rw cells_of_cons length_app length_leaf_cells in Hd.
  specialize (IH (d + l_bytes l) ltac:(lia)). cbn [views List.filter].
  destruct (overlaps 0 total _) eqn:Ho; cbn [mbind list_bind] in IH |- *.
  - f_equal; [|exact IH]. f_equal. by destruct l.
  - apply andb_false_iff in Ho. rw !bool_decide_eq_false /= in Ho. rw Hg; [lia|]. exact IH.
Qed.

Definition backed (tb : TextBuffer) : Prop :=
  Forall (fun l => is_Some (tb_buffers tb !! buffer_id (l_location l))) (node_leaves (root (piece_tree tb))).

(** The recipe of a buffer, for a conversion that keeps nothing as nothing. *)
Lemma build_write_recipe_ok tb :
  tb_inv files tb -> backed tb ->
  let conv := convert_piece rs_encode (format tb) (file_kind tb) in
  conv [] = [] ->
  exists res, build_write_recipe fs_exists fs_read_range rs_encode (piece_tree tb) (tb_buffers tb)
      (format tb) (file_kind tb) (persistence tb) = Ok res
  /\ ((exists r, res = inr r /\ recipe_ok r
        /\ recipe_text r = default [] (bom_bytes (encoding (format tb)))
             ++ (node_leaves (root (piece_tree tb)) ≫= (fun l =>
                  conv (leaf_text (content_in files (tb_buffers tb)) l))))
      \/ exists e, res = inl (SaveIo e)).
Proof.
  intros Hinv Hbk conv Hnil. pose proof Hinv as (Ht & _). pose proof Ht as [[Hwf Htot] _].
  unfold build_write_recipe. rw iter_pieces_eq //.
  set (r0 := mkRecipe _ [] []).
  set (r1 := match bom_bytes _ with Some bom => push_insert r0 bom | None => r0 end).
  assert (recipe_ok r1 /\ recipe_text r1 = default [] (bom_bytes (encoding (format tb)))
    /\ src_path r1 = src_path r0) as (Hr1 & Ht1 & Hs1).
  { assert (recipe_ok r0) as Hr0 by (apply Forall_nil; exact I). unfold r1.
    destruct (bom_bytes _) as [bom|]; [|by split_and!].
    destruct (push_insert_ok r0 bom Hr0) as [? Hrt]. split_and!; [done|exact Hrt|done]. }
  destruct (recipe_pieces_ok tb (format tb) (file_kind tb)
    (List.filter (overlaps 0 (total_bytes (piece_tree tb))) (views (node_leaves (root (piece_tree tb))) 0)) r1)
    as (res & -> & Hres); [done| |done| |].
  - apply Forall_forall. intros p [Hp _]%list_elem_of_In%filter_In.
    assert (view_leaf p ∈ node_leaves (root (piece_tree tb))) as Hin.
    { apply list_elem_of_In, (list_elem_of_fmap_2 view_leaf) in Hp. by rw view_leaf_views in Hp. }
    split; [exact (proj1 (Forall_forall _ _) (tree_inv_bounded _ _ _ Ht) _ Hin)|].
    exact (proj1 (Forall_forall _ _) Hbk _ Hin).
  - rw Hs1. simpl. unfold src_path_for_copy. intros [p Hp] d.
    destruct (needs_line_ending_conversion _ || _) eqn:E; [done|].
    apply orb_false_iff in E as [E1 E2]. unfold convert_piece. by rw E1 E2.
  - eexists. split; [done|]. destruct Hres as [(r' & -> & Hok & Hrt)|?]; [left|by right].
    exists r'. split_and!; [done..|]. rw Hrt Ht1. f_equal.
    apply (pieces_bind (fun l => conv (leaf_text (content_in files (tb_buffers tb)) l))).
    + intros [loc off n c] Hz. simpl in Hz. subst n. apply Hnil.
    + unfold doc, node_cells in Htot. lia.
Qed.

(** ** Conversions piece by piece *)

(** No piece ends between the two bytes of a CRLF. *)
Definition crlf_whole (chunks : list (list byte)) : Prop :=
  forall a b, chunks = a ++ b ->
  ~ (list.last (mjoin a) = Some cr /\ list.head (mjoin b) = Some lf).

Lemma convert_chunks e chunks :
  crlf_whole chunks ->
  chunks ≫= (fun c => convert_line_endings_to c e) = convert_line_endings_to (mjoin chunks) e.
Proof.
  induction chunks as [|c chunks IH]; intros Hw; [by destruct e|].
  cbn [mbind list_bind mjoin list_join]. rw convert_app.
  - intros [Hl Hh]. apply (Hw [c] chunks eq_refl). simpl. by rw app_nil_r.
  - f_equal. apply IH. intros a b -> [Hl Hh]. apply (Hw (c :: a) b eq_refl). split; [|done].
    cbn [mjoin list_join]. destruct (mjoin a) as [|x m]; [done|]. by rw last_app Hl.
Qed.

Definition piece_texts (tb : TextBuffer) : list (list byte) :=
  leaf_text (content_in files (tb_buffers tb)) <$> node_leaves (root (piece_tree tb)).

Lemma piece_texts_join tb : mjoin (piece_texts tb) = tb_text files tb.
Proof.
  unfold piece_texts, tb_text, text, doc, node_cells.
  induction (node_leaves _) as [|l ls IH]; [done|]. rw cells_of_cons fmap_app -IH. done.
Qed.

Lemma leaves_text tb :
  node_leaves (root (piece_tree tb)) ≫= leaf_text (content_in files (tb_buffers tb)) = tb_text files tb.
Proof.
  rw -(piece_texts_join tb). unfold piece_texts.
  induction (node_leaves _) as [|l ls IH]; [done|]. cbn. f_equal. exact IH.
Qed.

(** The bytes a save should write. *)
Definition expected_file (tb : TextBuffer) : list byte :=
  default [] (bom_bytes (encoding (format tb)))
  ++ (if needs_line_ending_conversion (format tb)
      then convert_line_endings_to (tb_text files tb) (line_ending (format tb)) else tb_text files tb).

Definition keeps_utf8 (tb : TextBuffer) : Prop :=
  needs_encoding_conversion (format tb) (file_kind tb) = true ->
  encoding (format tb) = Utf8 \/ encoding (format tb) = Ascii \/ encoding (format tb) = Utf8Bom.

Lemma saved_content_ok tb :
  tb_inv files tb -> backed tb -> keeps_utf8 tb ->
  (needs_line_ending_conversion (format tb) = true -> crlf_whole (piece_texts tb)) ->
  exists res, saved_content_of fs_exists fs_read_range rs_encode tb = Ok res
  /\ (res = inr (expected_file tb, None)
      \/ exists e, res = inl (SaveIo e) \/ exists w, res = inr (w, Some (SaveIo e))).
Proof.
  intros Hinv Hbk Hutf Hcr. unfold saved_content_of.
  assert (forall d, convert_piece rs_encode (format tb) (file_kind tb) d
    = if needs_line_ending_conversion (format tb)
      then convert_line_endings_to d (line_ending (format tb)) else d) as Hconv.
  { intros d. unfold convert_piece. destruct (needs_encoding_conversion _ _) eqn:E; [|done].
    by destruct (Hutf E) as [-> | [-> | ->]]. }
  destruct (build_write_recipe_ok tb Hinv Hbk) as (res & -> & Hres).
  { rw Hconv. destruct (needs_line_ending_conversion _); [|done]. by destruct (line_ending _). }
  cbn [mbind res_bind]. destruct Hres as [(r & -> & Hok & Hrt)|(e & ->)].
  2: { eexists. split; [done|]. right. exists e. by left. }
  unfold write_recipe. destruct (write_actions_ok r (actions r) [] Hok) as (w & err & -> & Hw).
  cbn [mbind res_bind]. eexists. split; [done|].
  destruct Hw as [(-> & -> & _)|(e & ->)]; [left|right; exists e; right; by eexists].
  do 3 f_equal. cbn [app]. fold (recipe_text r). rw Hrt. unfold expected_file. f_equal.
  transitivity (piece_texts tb ≫= convert_piece rs_encode (format tb) (file_kind tb)).
  { clear Hrt. unfold piece_texts. induction (node_leaves _) as [|l ls IH]; [done|]. cbn. f_equal. exact IH. }
  rw -(piece_texts_join tb). destruct (needs_line_ending_conversion (format tb)) eqn:E.
  - rw -convert_chunks; [by apply Hcr|]. apply bind_ext_Forall, Forall_forall. intros d _. apply Hconv.
  - clear Hcr. induction (piece_texts tb) as [|d ds IH]; [done|]. cbn. rw Hconv. f_equal. exact IH.
Qed.

(** C7: a save writes the text of the buffer: for an encoding stored as UTF-8, the
    mark of the encoding and then the text, with its line endings converted when the
    target asks for it, and it never panics or loses a piece; it stops early only
    when a read of the file system fails.  The conversion works piece by piece, so a
    piece must not end between the two bytes of a CRLF. *)
Theorem save_writes_text tb :
  tb_inv files tb -> backed tb -> keeps_utf8 tb ->
  (needs_line_ending_conversion (format tb) = true -> crlf_whole (piece_texts tb)) ->
  exists res, saved_content_of fs_exists fs_read_range rs_encode tb = Ok res
  /\ (res = inr (expected_file tb, None)
      \/ exists e, res = inl (SaveIo e) \/ exists w, res = inr (w, Some (SaveIo e))).
Proof. apply saved_content_ok. Qed.

(** ** The buffer after the save *)

(** The files once [dest] holds [w]. *)
Definition written (dest : string) (w : list byte) (path : string) : list byte :=
  if decide (path = dest) then w else files path.

(** C29: saving a large file keeps the text: after the content was written to the
    destination, the buffer, which now is one unloaded piece over the new file, has
    the text it had before and its invariant, and counts as unmodified.  This needs
    a file that is written as it is, without a mark and without conversion. *)
Theorem large_save_keeps_text tb dest w :
  tb_inv files tb -> backed tb -> large_file (file_kind tb) = true ->
  needs_line_ending_conversion (format tb) = false ->
  needs_encoding_conversion (format tb) (file_kind tb) = false ->
  bom_bytes (encoding (format tb)) = None ->
  saved_content_of fs_exists fs_read_range rs_encode tb = Ok (inr (w, None)) ->
  let tb' := finalize_save tb dest (length w) in
  tb_inv (written dest w) tb' /\ tb_text (written dest w) tb' = tb_text files tb
  /\ modified (persistence tb') = false.
Proof.
  intros Hinv Hbk Hlarge Hle Hen Hbom Hsave tb'.
  destruct (saved_content_ok tb Hinv Hbk) as (res & Hres & Hw); [by rw /keeps_utf8 Hen|by rw Hle|].
  rw Hsave in Hres. injection Hres as <-.
  destruct Hw as [[= ->]|(e & [?|[w' ?]])]; [|done..]. unfold expected_file in *.
  rw Hle Hbom /= in tb' |- *. set (t := tb_text files tb) in *.
  set (bs := tb_buffers tb').
  assert (exists lf, piece_tree tb' = tree_of_buffer (length t) lf
    /\ bs = [mkStringBuffer 0 (Unloaded dest 0 (length t)) None] /\ next_buffer_id tb' = 1
    /\ (forall c, lf = Some c -> c = count_newlines t)) as (lf & Htree & Hbs & Hid & Hlf).
  { unfold bs, tb', finalize_save, consolidate_after_save. simpl. rw Hlarge. simpl.
    eexists. split_and!; [done..|]. intros c. destruct (line_feeds_scanned _); [|done].
    intros (n & Hn & ->)%fmap_Some.
    destruct (line_count_ok _ _ _ (proj1 Hinv)) as [_ Hc]. rw (Hc n Hn) Nat.add_sub. done. }
  assert (source (written dest t) (mkStringBuffer 0 (Unloaded dest 0 (length t)) None) = t) as Hsrc.
  { unfold source, written. simpl. case_decide; [|done]. by rw drop_0 take_ge. }
  destruct (unloaded_tree_ok (written dest t) bs dest t lf Hbs Hsrc Hlf) as [Hti Htx].
  split_and!; [|by rw /tb_text Htree|done].
  split; [by rw Htree|]. split; [by rw Hid; fold bs; rw Hbs|]. fold bs. rw Hbs. apply Forall_singleton.
  split; [by intros ls d|]. by rw Hsrc.
Qed.
End save.

(** ** Examples *)
Definition no_read (path : string) (off n : nat) : unit + list byte := inl tt.

Lemma no_read_ok (files : string -> list byte) path off n d : no_read path off n = inr d ->
  d = take n (drop off (files path)) /\ length d = n.
Proof. done. Qed.

Definition two_lines : TextBuffer :=
  let tb := from_utf8_detected [x61; lf; x62] Utf8 false in
  set_format tb (format_set_line_ending (format tb) CRLF).

Lemma save_writes_text_witness :
  exists res, saved_content_of (fun _ => true) no_read (fun _ _ => []) two_lines = Ok res
  /\ (res = inr ([x61; cr; lf; x62], None)
      \/ exists e, res = inl (SaveIo e) \/ exists w, res = inr (w, Some (SaveIo e))).
Proof.
  apply (save_writes_text (fun _ => []) (fun _ => true) no_read (fun _ _ => []) (no_read_ok _) two_lines).
  - destruct (from_utf8_detected_ok (fun _ => []) [x61; lf; x62] Utf8 false) as [H _]. exact H.
  - repeat constructor. exists (sb_new 0 [x61; lf; x62]). reflexivity.
  - intros H. vm_compute in H. discriminate H.
  - intros _ [|c [|c' a]] b E; vm_compute in E; intros [H1 H2];
      [vm_compute in H1; discriminate H1|injection E as <- E; destruct b; [|discriminate E]|discriminate E].
    vm_compute in H2. discriminate H2.
Defined.

Lemma large_save_keeps_text_witness :
  let tb' := finalize_save digits_buffer EmptyString 12 in
  tb_text (written (fun _ => digits) EmptyString digits) tb' = digits.
Proof.
  destruct (open_unloaded_ok (fun _ => digits) 4 2 ltac:(lia) ltac:(lia) EmptyString LF Utf8 false)
    as (Hinv & Hld & Htx); [done|].
  cbv zeta. rw -{2}Htx.
  apply (large_save_keeps_text (fun _ => digits) (fun _ => true) digits_read_some (fun _ _ => [])
           digits_read_ok digits_buffer EmptyString digits Hinv); try (vm_compute; reflexivity).
  repeat constructor. eexists. reflexivity.
Defined.

(** ** Where it stops *)

(** A piece that ends between CR and LF: an edit between them that was undone leaves
    the text as it was and cuts it there, and converting to LF writes two line
    breaks for one. *)
Theorem split_crlf_doubles_break :
  let tb0 := from_utf8_detected [x61; cr; lf; x62] Utf8 false in
  exists tb1 cursor tb2,
    insert_bytes no_read tb0 2 [x58] = Ok (tb1, cursor) /\ delete_bytes no_read tb1 2 1 = Ok tb2
    /\ tb_text (fun _ => []) tb2 = [x61; cr; lf; x62]
    /\ saved_content_of (fun _ => true) no_read (fun _ _ => [])
         (set_format tb2 (format_set_line_ending (format tb2) LF))
       = Ok (inr ([x61; lf; lf; x62], None)).
Proof. cbv zeta. do 3 eexists. split_and!; by vm_compute. Qed.

(** A large file in an encoding with a mark: the save writes the mark, and the buffer
    then takes the whole new file, mark included, for its text; the next save writes
    the mark twice. *)
Theorem large_marked_save_grows :
  let tb := set_file_kind (from_utf8_detected [x61; x62] Utf8Bom false) (mkFileKind true false false) in
  let w := utf8_bom ++ [x61; x62] in
  let read path off n : unit + list byte := inr (take n (drop off w)) in
  let save := saved_content_of (fun _ => true) read (fun _ _ => []) in
  let tb' := finalize_save tb EmptyString (length w) in
  save tb = Ok (inr (w, None)) /\ tb_text (fun _ => w) tb' = w
  /\ save tb' = Ok (inr (utf8_bom ++ w, None)).
Proof. cbv zeta. split_and!; by vm_compute. Qed.
