(* ===== verification/BufferOpen.v ===== *)
(** * Opening files

    Models the loaders of crates/fresh-editor-core/src/model/buffer/mod.rs: choosing
    between reading a file whole and opening it lazily, detecting its encoding, and
    building the buffer; and the save of a whole buffer, which writes nothing for an
    empty one.  The file system ([metadata], [read_file], [read_range]) and the codecs
    are parameters. *)
From stdpp Require Import base numbers list option strings.
From Stdlib Require Import ssreflect Strings.Byte ZArith.
From S2P Require Import Prelude TextSpec Utf8 StringBuffer PieceTree PieceTreeInv PieceTreeEdit PieceTreeQuery.
From S2P Require Import PieceTreeDiff Persistence BufferFormat Encodings TextBuffer TextBufferInv.
From S2P Require Import TextBufferLoad TextBufferLoadInv BufferSave BufferSaveInv.

Inductive OpenError {io_error : Type} : Type :=
| OpenIo (e : io_error)
| LargeFileEncodingConfirmation (path : string) (file_size : nat) (e : Encoding).
Arguments OpenError : clear implicits.

Definition set_large_file (tb : TextBuffer) (large : bool) : TextBuffer :=
  set_file_kind tb
    (mkFileKind large (line_feeds_scanned (file_kind tb)) (is_binary (file_kind tb))).

Definition set_binary (tb : TextBuffer) (binary : bool) : TextBuffer :=
  set_file_kind tb
    (mkFileKind (large_file (file_kind tb)) (line_feeds_scanned (file_kind tb)) binary).

Definition set_config (tb : TextBuffer) (c : BufferConfig) : TextBuffer :=
  mkTextBuffer (piece_tree tb) (tb_buffers tb) (next_buffer_id tb) (persistence tb)
    (file_kind tb) (format tb) (version tb) c.

(** [set_file_path] and [clear_modified], which every loader does together. *)
Definition loaded_from (tb : TextBuffer) (path : string) : TextBuffer :=
  set_persistence tb (clear_modified (set_file_path (persistence tb) path)).

Section open.
Context {io_error : Type}.
Context (fs_size : string -> io_error + nat).
Context (fs_read_file : string -> io_error + list byte).
Context (fs_read_range : string -> nat -> nat -> io_error + list byte).
Context (fs_exists : string -> bool).
Context (guess : list byte -> RsEncoding * bool).
Context (rs_decode : RsEncoding -> list byte -> list byte).
Context (rs_encode : RsEncoding -> list N -> list byte).

Definition from_bytes_normalizing (content : list byte) (normalize_cr : bool) : res TextBuffer :=
  '(e, utf8_content) ← detect_and_convert guess rs_decode content;
  Ok (from_utf8_detected utf8_content e normalize_cr).

Definition from_bytes (content : list byte) : res TextBuffer := from_bytes_normalizing content true.

Definition from_bytes_with_encoding (content : list byte) (e : Encoding) : TextBuffer :=
  from_utf8_detected (convert_to_utf8 rs_decode content e) e true.

Definition load_small_file (path : string) (force_text normalize_cr : bool)
    : res (OpenError io_error + TextBuffer) :=
  match fs_read_file path with
  | inl e => Ok (inl (OpenIo e))
  | inr contents =>
      '(e, detected_binary) ← detect_encoding_or_binary guess contents false;
      let binary := detected_binary && negb force_text in
      tb ← (if binary then Ok (from_bytes_raw contents)
            else from_bytes_normalizing contents normalize_cr);
      let tb := set_binary (set_large_file (loaded_from tb path) false) binary in
      Ok (inr (if binary then set_format tb (format_set_default_encoding (format tb) e) else tb))
  end.

Definition load_large_file_internal (path : string) (file_size : nat)
    (force_full_load force_text normalize_cr : bool) : res (OpenError io_error + TextBuffer) :=
  let sample_size := Nat.min file_size (8 * 1024) in
  match fs_read_range path 0 sample_size with
  | inl e => Ok (inl (OpenIo e))
  | inr sample =>
      '(e, detected_binary) ←
        detect_encoding_or_binary guess sample (bool_decide (sample_size < file_size));
      let binary := detected_binary && negb force_text in
      if negb binary && requires_full_file_load e && negb force_full_load
      then Ok (inl (LargeFileEncodingConfirmation path file_size e))
      else if negb binary && negb (bool_decide (e = Utf8 \/ e = Ascii)) then
        match fs_read_file path with
        | inl e => Ok (inl (OpenIo e))
        | inr contents =>
            tb ← from_bytes_normalizing contents normalize_cr;
            Ok (inr (set_binary (set_large_file (loaded_from tb path) true) binary))
        end
      else Ok (inr (open_unloaded path file_size (detect_line_ending sample) e binary))
  end.

Definition with_threshold (tb : TextBuffer) (threshold : nat) : TextBuffer :=
  set_config tb (mkConfig (estimated_line_length (config tb)) (Some threshold)).

Definition load_from_file_internal (path : string) (threshold : nat)
    (force_text normalize_cr : bool) : res (OpenError io_error + TextBuffer) :=
  match fs_size path with
  | inl e => Ok (inl (OpenIo e))
  | inr file_size =>
      r ← (if decide (threshold <= file_size)
           then load_large_file_internal path file_size false force_text normalize_cr
           else load_small_file path force_text normalize_cr);
      Ok (match r with inl e => inl e | inr tb => inr (with_threshold tb threshold) end)
  end.

Definition load_from_file (path : string) (threshold : nat) := load_from_file_internal path threshold false false.

Definition load_from_file_for_editing (path : string) (threshold : nat) :=
  load_from_file_internal path threshold false true.

Definition load_from_file_force_text (path : string) (threshold : nat) :=
  load_from_file_internal path threshold true false.

Definition load_large_file_confirmed (path : string) (threshold : nat)
    : res (OpenError io_error + TextBuffer) :=
  match fs_size path with
  | inl e => Ok (inl (OpenIo e))
  | inr file_size =>
      r ← load_large_file_internal path file_size true false true;
      Ok (match r with inl e => inl e | inr tb => inr (with_threshold tb threshold) end)
  end.

Definition load_from_file_with_encoding (path : string) (e : Encoding) (c : BufferConfig)
    : OpenError io_error + TextBuffer :=
  match fs_read_file path with
  | inl err => inl (OpenIo err)
  | inr contents => inr (set_config (loaded_from (from_bytes_with_encoding contents e) path) c)
  end.

(** What [save_to_file] writes: zero bytes for an empty buffer. *)
Definition save_bytes (tb : TextBuffer)
    : res (SaveError io_error + list byte * option (SaveError io_error)) :=
  if decide (tb_total_bytes tb = 0) then w ← write_recipe fs_read_range recipe_empty; Ok (inr w)
  else saved_content_of fs_exists fs_read_range rs_encode tb.

(** ** Opening and saving *)

(** Saving a buffer that is one loaded piece. *)
Lemma save_whole_ok tb t c :
  t <> [] -> piece_tree tb = tree_new (Stored 0) 0 (length t) c -> tb_buffers tb = [sb_new 0 t] ->
  save_bytes tb
  = Ok (inr (default [] (bom_bytes (encoding (format tb)))
             ++ convert_piece rs_encode (format tb) (file_kind tb) t, None)).
Proof.
  intros Hne Ht Hbs. assert (0 < length t) as Hpos by (destruct t; [done|simpl; lia]).
  unfold save_bytes, saved_content_of, build_write_recipe, tb_total_bytes. rw Ht Hbs.
  case_decide as Hz; [simpl in Hz; lia|].
  assert (iter_pieces_in_range (tree_new (Stored 0) 0 (length t) c) 0
            (total_bytes (tree_new (Stored 0) 0 (length t) c))
          = [mkPieceView (Stored 0) 0 (length t) 0 c]) as ->.
  { rw iter_pieces_eq //. cbn. by rw /overlaps /= !bool_decide_eq_true_2. }
  cbn [recipe_pieces pv_location buffer_id].
  cbn [lookup list_lookup sb_data sb_new new_loaded pv_buffer_offset pv_bytes].
  rw slice_Ok; [lia..|]. rw drop_0 take_ge; [lia|]. cbn [mbind res_bind].
  destruct (bom_bytes _) as [bom|]; cbn; by rw ?app_nil_r.
Qed.

(** C8: opening and saving changes nothing.  A file below the large-file threshold that holds
    a non-empty, valid UTF-8 text in UTF-8 (with or without mark), ASCII or UTF-16 is opened
    as that text, unmodified, and saving it unchanged writes the same bytes.  In an encoding
    without a mark the text must not itself start with the UTF-8 mark nor contain the control
    characters that make a file binary; the decoder is assumed to decode UTF-16. *)
Theorem open_save_identity files path threshold e t :
  decodes_utf16 rs_decode -> is_unicode e = true -> from_utf8 t = None -> t <> [] ->
  (bom_bytes e = None ->
     starts_with t utf8_bom = false /\ existsb is_binary_control_char t = false) ->
  let content := file_bytes rs_encode t e in
  fs_size path = inr (length content) -> fs_read_file path = inr content ->
  length content < threshold ->
  exists tb, load_from_file path threshold = Ok (inr tb)
  /\ tb_text files tb = t /\ modified (persistence tb) = false
  /\ save_bytes tb = Ok (inr (content, None)).
Proof.
  intros Hd He Hv Hne Ht content Hsize Hfile Hlt.
  destruct (reopen_ok guess rs_decode rs_encode e t Hd He Hv Ht) as (e' & Hc & Hb & Hu & Hbom).
  unfold load_from_file, load_from_file_internal, load_small_file, from_bytes_normalizing.
  rw Hsize. rw decide_False; [lia|]. rw Hfile /content Hb //. cbn [mbind res_bind andb]. rw Hc.
  cbn [mbind res_bind]. eexists. split; [done|].
  destruct (from_utf8_detected_ok files t e' false) as [_ Htx]. split; [exact Htx|]. split; [done|].
  rw (save_whole_ok _ t (line_feed_count (sb_new 0 t)) Hne).
  { cbn. unfold tree_of_buffer. rw decide_True //. destruct t; [done|simpl; lia]. }
  { done. }
  cbn. rw Hbom. unfold file_bytes. do 4 f_equal. unfold convert_piece. cbn.
  replace (needs_line_ending_conversion _) with false.
  2: { unfold needs_line_ending_conversion, line_ending_changed_since_load. cbn.
       rw andb_false_r (bool_decide_eq_false_2 (_ <> _)) //. }
  unfold needs_encoding_conversion, encoding_changed_since_load. cbn.
  by destruct e, e'.
Qed.
End open.

Definition utf8_mixed : list byte := [x63; xc3; xa9; x0a].

Lemma open_save_identity_witness :
  let content := [xff; xfe; x63; x00; xe9; x00; x0a; x00] in
  exists tb, load_from_file (fun _ => inr 8) (fun _ => inr content) no_read
      (fun _ => (OTHER_ENCODING, false)) unicode_decode EmptyString 100 = Ok (inr tb)
  /\ tb_text (fun _ => []) tb = utf8_mixed /\ modified (persistence tb) = false
  /\ save_bytes no_read (fun _ => true) (fun _ _ => []) tb = Ok (inr (content, None)).
Proof.
  cbv zeta.
  apply (open_save_identity (fun _ => inr 8) (fun _ => inr [xff; xfe; x63; x00; xe9; x00; x0a; x00])
           no_read (fun _ => true) (fun _ => (OTHER_ENCODING, false)) unicode_decode (fun _ _ => [])
           (fun _ => []) EmptyString 100 Utf16Le utf8_mixed unicode_decode_ok);
    try (vm_compute; reflexivity); [discriminate|discriminate|]. vm_compute. lia.
Defined.
