(* ===== verification/RecoveryChunks.v ===== *)
(** * Recovery chunks

    Models crates/fresh-editor-core/src/model/buffer/recovery_chunks.rs: the changes a
    large file's buffer makes to the file on disk, as replacements of stretches of the
    original; and [reconstruct_from_chunks] of
    crates/fresh-editor/src/services/recovery/storage.rs, which applies them to the
    file again.  [read_range] of the file system is a parameter. *)
From stdpp Require Import base numbers list option strings.
From Stdlib Require Import ssreflect Strings.Byte ZArith.
From S2P Require Import Prelude TextSpec StringBuffer PieceTree PieceTreeInv PieceTreeQuery PieceTreeDiff.
From S2P Require Import Persistence TextBuffer TextBufferInv.

Record RecoveryChunk : Type := mkRecoveryChunk {
  rc_offset : nat; rc_original_len : nat; rc_content : list byte;
}.

(** A stretch of a chunk's content: bytes in memory, or a range of a file. *)
Inductive Part : Type :=
| PartBytes (bytes : list byte)
| PartFile (path : string) (start end_ : nat).

Record Pending : Type := mkPending {
  pd_offset : nat; pd_original_len : nat; pd_parts : list Part;
}.

Record Chunker : Type := mkChunker {
  ck_chunks : list RecoveryChunk;
  ck_pending : option Pending;
  ck_gap : option (list Part * nat);
  ck_cursor : nat;
}.

Inductive ChunkError {io_error : Type} : Type :=
| ChunkIo (e : io_error)
| FileShrunk (path : string).
Arguments ChunkError : clear implicits.

(** RECOVERY_MERGE_GAP and READ_SPAN_GAP are parameters (1 KiB and 64 KiB in the
    code). *)
Section chunks.
Context {io_error : Type}.
Context (fs_read_range : string -> nat -> nat -> io_error + list byte).
Context (merge_gap span_gap : nat).

(** The loop of [read_spans]; the spans seen so far with the last one first. *)
Fixpoint read_spans_loop (parts : list Part) (spans : list (string * (nat * nat)))
    (span_of : list nat) : list (string * (nat * nat)) * list nat :=
  match parts with
  | [] => (rev spans, rev span_of)
  | PartBytes _ :: parts => read_spans_loop parts spans span_of
  | PartFile path start end_ :: parts =>
      let spans :=
        match spans with
        | (p, (s, e)) :: rest =>
            if decide (p = path /\ s <= start /\ start <= e + span_gap)
            then (p, (s, Nat.max e end_)) :: rest
            else (path, (start, end_)) :: spans
        | [] => [(path, (start, end_))]
        end in
      read_spans_loop parts spans (length spans - 1 :: span_of)
  end.

Definition read_spans (parts : list Part) : list (string * (nat * nat)) * list nat :=
  read_spans_loop parts [] [].

(** Each span read in one go; the first failure ends it. *)
Fixpoint read_all (spans : list (string * (nat * nat))) : ChunkError io_error + list (list byte) :=
  match spans with
  | [] => inr []
  | (path, (s, e)) :: spans =>
      match fs_read_range path s (e - s) with
      | inl err => inl (ChunkIo err)
      | inr bytes =>
          if decide (length bytes <> e - s) then inl (FileShrunk path) else
          match read_all spans with
          | inl err => inl err
          | inr rest => inr (bytes :: rest)
          end
      end
  end.

(** The content put together from the parts; [spans[i]] and the slices panic out of
    range, and [span_of.next()] when there are fewer entries than file parts. *)
Fixpoint assemble (parts : list Part) (span_of : list nat) (spans : list (string * (nat * nat)))
    (read : list (list byte)) (content : list byte) : res (list byte) :=
  match parts with
  | [] => Ok content
  | PartBytes bytes :: parts => assemble parts span_of spans read (content ++ bytes)
  | PartFile _ start end_ :: parts =>
      match span_of with
      | [] => Panic
      | i :: span_of =>
          match spans !! i, read !! i with
          | Some (_, (s, _)), Some bytes =>
              a ← usub start s;
              b ← usub end_ s;
              part ← slice bytes a b;
              assemble parts span_of spans read (content ++ part)
          | _, _ => Panic
          end
      end
  end.

Definition complete (p : Pending) : res (ChunkError io_error + RecoveryChunk) :=
  let '(spans, span_of) := read_spans (pd_parts p) in
  match read_all spans with
  | inl err => Ok (inl err)
  | inr read =>
      content ← assemble (pd_parts p) span_of spans read [];
      Ok (inr (mkRecoveryChunk (pd_offset p) (pd_original_len p) content))
  end.

Definition change (c : Chunker) (original_len : nat) (content : option Part)
    : res (ChunkError io_error + Chunker) :=
  let cursor := ck_cursor c + original_len in
  match ck_pending c, ck_gap c with
  | Some chunk, Some (unchanged, len) =>
      let chunk := mkPending (pd_offset chunk) (pd_original_len chunk + (len + original_len))
                     (pd_parts chunk ++ unchanged ++ option_list content) in
      Ok (inr (mkChunker (ck_chunks c) (Some chunk) (Some ([], 0)) cursor))
  | pending, _ =>
      let next := mkPending (ck_cursor c) original_len (option_list content) in
      match pending with
      | None => Ok (inr (mkChunker (ck_chunks c) (Some next) (Some ([], 0)) cursor))
      | Some chunk =>
          r ← complete chunk;
          match r with
          | inl err => Ok (inl err)
          | inr chunk =>
              Ok (inr (mkChunker (ck_chunks c ++ [chunk]) (Some next) (Some ([], 0)) cursor))
          end
      end
  end.

Definition unchanged (c : Chunker) (at_ bytes : nat) (part : option Part)
    : res (ChunkError io_error + Chunker) :=
  r ← (if decide (ck_cursor c < at_) then change c (at_ - ck_cursor c) None else Ok (inr c));
  match r with
  | inl err => Ok (inl err)
  | inr c =>
      let gap :=
        match ck_pending c with
        | None => ck_gap c
        | Some _ =>
            match ck_gap c, part with
            | Some (parts, len), Some part =>
                if decide (len + bytes <= merge_gap) then Some (parts ++ [part], len + bytes)
                else None
            | _, _ => None
            end
        end in
      Ok (inr (mkChunker (ck_chunks c) (ck_pending c) gap (at_ + bytes)))
  end.

Definition finish (c : Chunker) (original_size : nat)
    : res (ChunkError io_error + list RecoveryChunk) :=
  r ← (if decide (ck_cursor c < original_size)
       then change c (original_size - ck_cursor c) None else Ok (inr c));
  match r with
  | inl err => Ok (inl err)
  | inr c =>
      match ck_pending c with
      | None => Ok (inr (ck_chunks c))
      | Some p =>
          r ← complete p;
          Ok (match r with inl err => inl err | inr chunk => inr (ck_chunks c ++ [chunk]) end)
      end
  end.

(** The bytes of a piece, as a part of a chunk. *)
Definition part_of (bs : list StringBuffer) (piece : PieceView) : option Part :=
  buffer ← bs !! buffer_id (pv_location piece);
  let start := pv_buffer_offset piece in
  let end_ := start + pv_bytes piece in
  match sb_data buffer with
  | Loaded data _ => PartBytes <$> slice_get data start end_
  | Unloaded path file_offset _ => Some (PartFile path (file_offset + start) (file_offset + end_))
  end.

(** Where a piece's bytes are in the original file, if they are taken for its. *)
Definition original_offset (bs : list StringBuffer) (piece : PieceView) : option nat :=
  match pv_location piece with
  | Stored _ => Some (pv_buffer_offset piece)
  | Added id =>
      (fun file_offset => file_offset + pv_buffer_offset piece) <$> (bs !! id ≫= stored_file_offset)
  end.

Definition chunk_piece (bs : list StringBuffer) (c : Chunker) (piece : PieceView)
    : res (ChunkError io_error + Chunker) :=
  let part := part_of bs piece in
  match original_offset bs piece with
  | Some at_ =>
      if decide (ck_cursor c <= at_) then unchanged c at_ (pv_bytes piece) part else change c 0 part
  | None => change c 0 part
  end.

Fixpoint chunk_pieces (bs : list StringBuffer) (c : Chunker) (pieces : list PieceView)
    : res (ChunkError io_error + Chunker) :=
  match pieces with
  | [] => Ok (inr c)
  | piece :: pieces =>
      r ← chunk_piece bs c piece;
      match r with
      | inl err => Ok (inl err)
      | inr c => chunk_pieces bs c pieces
      end
  end.

Definition get_recovery_chunks (tb : TextBuffer) : res (ChunkError io_error + list RecoveryChunk) :=
  r ← chunk_pieces (tb_buffers tb) (mkChunker [] None (Some ([], 0)) 0)
        (iter_pieces_in_range (piece_tree tb) 0 (tb_total_bytes tb));
  match r with
  | inl err => Ok (inl err)
  | inr c => finish c (default 0 (saved_file_size (persistence tb)))
  end.
End chunks.

(** The loop of [reconstruct_from_chunks]. *)
Fixpoint apply_chunks (original : list byte) (original_pos : nat) (chunks : list RecoveryChunk)
    (result : list byte) : res (list byte) :=
  match chunks with
  | [] => Ok (result ++ drop original_pos original)
  | chunk :: chunks =>
      before ← (if decide (original_pos < rc_offset chunk)
                then slice original original_pos (rc_offset chunk) else Ok []);
      apply_chunks original (rc_offset chunk + rc_original_len chunk) chunks
        (result ++ before ++ rc_content chunk)
  end.

(** [None] for the error that the original's size is not the recorded one. *)
Definition reconstruct_from_chunks (original : list byte) (original_size : nat)
    (chunks : list RecoveryChunk) : res (option (list byte)) :=
  if decide (length original <> original_size) then Ok None
  else r ← apply_chunks original 0 chunks []; Ok (Some r).
