(* ===== verification/RecoveryChunksInv.v ===== *)
(** * Recovery gives the text back

    As long as every piece that claims to be a stretch of the original file is one,
    the chunks of a buffer, applied to the original, rebuild exactly its text. *)
From stdpp Require Import base numbers list option strings.
From Stdlib Require Import ssreflect Strings.Byte ZArith.
From S2P Require Import Prelude TextSpec StringBuffer PieceTree PieceTreeInv PieceTreeQuery PieceTreeDiff.
From S2P Require Import Persistence BufferFormat TextBuffer TextBufferInv TextBufferLoad TextBufferLoadInv.
From S2P Require Import BufferSave BufferSaveInv RecoveryChunks.

Section chunks.
Context (files : string -> list byte).
Context {io_error : Type}.
Context (fs_read_range : string -> nat -> nat -> io_error + list byte).
Context (merge_gap span_gap : nat).

Hypothesis Hread : forall path off n d, fs_read_range path off n = inr d ->
  d = take n (drop off (files path)) /\ length d = n.

(** ** Completing a chunk *)
Definition part_bytes (p : Part) : list byte :=
  match p with
  | PartBytes bytes => bytes
  | PartFile path s e => take (e - s) (drop s (files path))
  end.

Definition part_ok (p : Part) : Prop :=
  match p with PartBytes _ => True | PartFile path s e => s <= e end.

Definition span_ok (sp : string * (nat * nat)) : Prop := sp.2.1 <= sp.2.2.

(** The spans [F] hold what the spans so far (last first) hold. *)
Definition grows (spans F : list (string * (nat * nat))) : Prop :=
  forall j p s e, rev spans !! j = Some (p, (s, e)) -> exists e', F !! j = Some (p, (s, e')) /\ e <= e'.

Fixpoint covered (parts : list Part) (idx : list nat) (F : list (string * (nat * nat))) : Prop :=
  match parts with
  | [] => True
  | PartBytes _ :: parts => covered parts idx F
  | PartFile path s e :: parts =>
      match idx with
      | [] => False
      | i :: idx => (exists s' e', F !! i = Some (path, (s', e')) /\ s' <= s /\ e <= e')
                    /\ covered parts idx F
      end
  end.

Lemma grows_cons sp spans F : grows (sp :: spans) F -> grows spans F.
Proof.
  intros Hg j p s e Hj. apply Hg. simpl. by apply lookup_app_l_Some.
Qed.

Lemma rev_last_lookup {A} (x : A) l : rev (x :: l) !! length l = Some x.
Proof. simpl. apply list_lookup_middle. by rw length_rev. Qed.

Lemma read_spans_ok parts spans span_of :
  Forall part_ok parts -> Forall span_ok spans ->
  exists F idx, read_spans_loop span_gap parts spans span_of = (F, rev span_of ++ idx)
  /\ Forall span_ok F /\ grows spans F /\ covered parts idx F.
Proof.
  intros Hp. revert spans span_of. induction Hp as [|p parts Hp _ IH]; intros spans span_of Hs;
    cbn [read_spans_loop].
  { exists (rev spans), []. rw app_nil_r. split_and!; [done|by apply Forall_rev| |done].
    intros j p s e Hj. by exists e. }
  destruct p as [bytes|path start end_].
  { destruct (IH spans span_of Hs) as (F & idx & -> & ?). by exists F, idx. }
  simpl in Hp. set (spans' := match spans with [] => _ | _ => _ end).
  assert (exists s e rest, spans' = (path, (s, e)) :: rest /\ s <= start /\ end_ <= e
    /\ Forall span_ok spans' /\ forall F, grows spans' F -> grows spans F)
    as (s & e & rest & Heq & Hss & Hee & Hok & Hgr).
  { unfold spans'. destruct spans as [|[p [s e]] rest].
    - exists start, end_, []. split_and!; [done..|by apply Forall_singleton|]. intros F _ j p s e. done.
    - apply Forall_cons_1 in Hs as Hs'. destruct Hs' as [Hsp Hrest]. unfold span_ok in Hsp. simpl in Hsp.
      case_decide as Hd.
      + destruct Hd as (-> & ? & ?). exists s, (Nat.max e end_), rest.
        split_and!; [done|lia|lia|apply Forall_cons_2; [unfold span_ok; simpl; lia|done]|].
        intros F Hg j p' s' e' Hj. simpl in Hj. apply lookup_app_Some in Hj as [Hj|[Hge Hj]].
        * apply Hg. simpl. by apply lookup_app_l_Some.
        * apply list_lookup_singleton_Some in Hj as [Hz [= <- <- <-]].
          destruct (Hg j path s (Nat.max e end_)) as (e' & ? & ?).
          { simpl. rw lookup_app_r // Hz. done. }
          exists e'. split; [done|lia].
      + exists start, end_, ((p, (s, e)) :: rest).
        split_and!; [done..|apply Forall_cons_2; [done|by apply Forall_cons_2]|].
        intros F. apply grows_cons. }
  destruct (IH spans' (length spans' - 1 :: span_of) Hok) as (F & idx & -> & HF & Hg & Hc).
  exists F, (length spans' - 1 :: idx). split_and!; [by rw /= -app_assoc|done|by apply Hgr|].
  split; [|done]. destruct (Hg (length spans' - 1) path s e) as (e' & ? & ?).
  { rw Heq /= Nat.sub_0_r. apply (rev_last_lookup (path, (s, e)) rest). }
  exists s, e'. split_and!; [done..|lia].
Qed.

Definition span_bytes (sp : string * (nat * nat)) : list byte :=
  take (sp.2.2 - sp.2.1) (drop sp.2.1 (files sp.1)).

Definition span_read (sp : string * (nat * nat)) : Prop := length (span_bytes sp) = sp.2.2 - sp.2.1.

Lemma read_all_ok F :
  (exists e, read_all fs_read_range F = inl (ChunkIo e))
  \/ (read_all fs_read_range F = inr (span_bytes <$> F) /\ Forall span_read F).
Proof.
  induction F as [|[path [s e]] F IH]; [by right|]. cbn [read_all].
  destruct (fs_read_range path s (e - s)) as [err|d] eqn:Hd; [left; by eexists|].
  apply Hread in Hd as [-> Hl]. rw decide_False; [by intros H|].
  destruct IH as [(err & ->)|[-> IH]]; [left; by eexists|right]. split; [done|]. by apply Forall_cons_2.
Qed.

Lemma assemble_ok parts idx F content :
  Forall part_ok parts -> Forall span_read F -> covered parts idx F ->
  assemble parts idx F (span_bytes <$> F) content = Ok (content ++ (parts ≫= part_bytes)).
Proof.
  intros Hp HF. revert idx content. induction Hp as [|p parts Hp _ IH]; intros idx content Hc;
    cbn [assemble].
  { by rw app_nil_r. }
  destruct p as [bytes|path start end_]; simpl in Hc, Hp.
  { rw IH // -app_assoc. done. }
  destruct idx as [|i idx]; [done|]. destruct Hc as [(s & e & Hi & Hs & He) Hc].
  rw Hi list_lookup_fmap Hi. cbn [fmap option_fmap option_map span_bytes fst snd].
  pose proof (Forall_lookup_1 _ _ _ _ HF Hi) as Hok. unfold span_read in Hok. simpl in Hok.
  rw !usub_Ok; [lia..|]. cbn [mbind res_bind]. rw slice_Ok; [lia|lia|].
  cbn [mbind res_bind]. rw IH // -app_assoc. cbn [mbind list_bind part_bytes]. do 3 f_equal.
  unfold span_bytes. simpl. rw skipn_firstn_comm drop_drop take_take. f_equal; [lia|f_equal; lia].
Qed.

Lemma complete_ok p :
  Forall part_ok (pd_parts p) ->
  exists r, complete fs_read_range span_gap p = Ok r
  /\ ((exists e, r = inl (ChunkIo e))
      \/ r = inr (mkRecoveryChunk (pd_offset p) (pd_original_len p) (pd_parts p ≫= part_bytes))).
Proof.
  intros Hp. unfold complete, read_spans.
  destruct (read_spans_ok (pd_parts p) [] [] Hp) as (F & idx & -> & HF & _ & Hc); [done|].
  cbn [rev app]. destruct (read_all_ok F) as [(e & ->)|[-> HFr]]; [eexists; split; [done|]; left; by eexists|].
  rw assemble_ok //. cbn [mbind res_bind app]. eexists. split; [done|]. by right.
Qed.

(** ** Applying chunks *)
Context (O : list byte).

(** The original from [a] to [b]. *)
Definition seg (a b : nat) : list byte := take (b - a) (drop a O).

Lemma seg_app a b c : a <= b <= c -> seg a b ++ seg b c = seg a c.
Proof.
  intros. unfold seg. replace (drop b O) with (drop (a + (b - a)) O) by (f_equal; lia).
  rw take_drop_app. f_equal. lia.
Qed.

Lemma seg_nil a : seg a a = [].
Proof. unfold seg. by rw Nat.sub_diag. Qed.

Fixpoint chunk_doc (pos : nat) (cs : list RecoveryChunk) : list byte :=
  match cs with
  | [] => []
  | c :: cs => seg pos (rc_offset c) ++ rc_content c ++ chunk_doc (rc_offset c + rc_original_len c) cs
  end.

Fixpoint chunk_end (pos : nat) (cs : list RecoveryChunk) : nat :=
  match cs with [] => pos | c :: cs => chunk_end (rc_offset c + rc_original_len c) cs end.

Fixpoint ordered (pos : nat) (cs : list RecoveryChunk) : Prop :=
  match cs with
  | [] => True
  | c :: cs => pos <= rc_offset c /\ ordered (rc_offset c + rc_original_len c) cs
  end.

Lemma chunk_end_ge pos cs : ordered pos cs -> pos <= chunk_end pos cs.
Proof.
  revert pos. induction cs as [|c cs IH]; intros pos; simpl; [done|]. intros [H1 H2]. apply IH in H2. lia.
Qed.

Lemma apply_chunks_ok pos cs result :
  ordered pos cs -> chunk_end pos cs <= length O ->
  apply_chunks O pos cs result = Ok (result ++ chunk_doc pos cs ++ drop (chunk_end pos cs) O).
Proof.
  revert pos result. induction cs as [|c cs IH]; intros pos result; simpl; [done|].
  intros [Hp Ho] He. pose proof (chunk_end_ge _ _ Ho).
  replace (if decide (pos < rc_offset c) then slice O pos (rc_offset c) else Ok [])
    with (Ok (seg pos (rc_offset c))).
  2: { case_decide; [by rw slice_Ok; [lia..|]|]. replace pos with (rc_offset c) by lia. by rw seg_nil. }
  cbn [mbind res_bind]. rw IH // -!app_assoc. done.
Qed.

Lemma chunk_doc_snoc pos cs c :
  chunk_doc pos (cs ++ [c])
  = chunk_doc pos cs ++ seg (chunk_end pos cs) (rc_offset c) ++ rc_content c.
Proof.
  revert pos. induction cs as [|d cs IH]; intros pos; simpl; [by rw app_nil_r|]. by rw IH -!app_assoc.
Qed.

Lemma chunk_end_snoc pos cs c : chunk_end pos (cs ++ [c]) = rc_offset c + rc_original_len c.
Proof. revert pos. induction cs as [|d cs IH]; intros pos; [done|]. apply IH. Qed.

Lemma ordered_snoc pos cs c :
  ordered pos cs -> chunk_end pos cs <= rc_offset c -> ordered pos (cs ++ [c]).
Proof.
  revert pos. induction cs as [|d cs IH]; intros pos; simpl; [done|]. intros [? ?] ?. split; [done|].
  by apply IH.
Qed.

(** ** The chunker *)

Abbreviation parts_bytes ps := (ps ≫= part_bytes).

Definition gap_ok (pd_end cursor : nat) (gap : option (list Part * nat)) : Prop :=
  match gap with
  | Some (ps, len) => Forall part_ok ps /\ parts_bytes ps = seg pd_end cursor /\ len = cursor - pd_end
  | None => True
  end.

(** What the chunker stands for: the document text seen so far. *)
Definition chunker_inv (c : Chunker) (T : list byte) : Prop :=
  let e := chunk_end 0 (ck_chunks c) in
  ordered 0 (ck_chunks c) /\ ck_cursor c <= length O /\
  match ck_pending c with
  | None => e <= ck_cursor c /\ T = chunk_doc 0 (ck_chunks c) ++ seg e (ck_cursor c)
  | Some p =>
      let pd_end := pd_offset p + pd_original_len p in
      e <= pd_offset p /\ pd_end <= ck_cursor c /\ Forall part_ok (pd_parts p)
      /\ T = chunk_doc 0 (ck_chunks c) ++ seg e (pd_offset p) ++ parts_bytes (pd_parts p)
             ++ seg pd_end (ck_cursor c)
      /\ gap_ok pd_end (ck_cursor c) (ck_gap c)
  end.

(** The outcome of a step: a failed read, or the chunker with more text. *)
Definition step_ok (r : res (ChunkError io_error + Chunker)) (T : list byte) (cursor : nat) : Prop :=
  exists r', r = Ok r' /\ ((exists e, r' = inl (ChunkIo e))
    \/ exists c, r' = inr c /\ chunker_inv c T /\ ck_cursor c = cursor).

Lemma new_pending_ok chunks T cursor olen content :
  ordered 0 chunks -> chunk_end 0 chunks <= cursor -> cursor + olen <= length O ->
  Forall part_ok (option_list content) ->
  T = chunk_doc 0 chunks ++ seg (chunk_end 0 chunks) cursor ->
  chunker_inv (mkChunker chunks (Some (mkPending cursor olen (option_list content))) (Some ([], 0))
                 (cursor + olen)) (T ++ parts_bytes (option_list content)).
Proof.
  intros Ho He Hc Hp ->. unfold chunker_inv. cbn [ck_chunks ck_cursor ck_pending ck_gap pd_offset pd_original_len pd_parts].
  split_and!; [done|done|done|done|done|rw seg_nil app_nil_r -app_assoc //|].
  split_and!; [done|by rw seg_nil|lia].
Qed.

Lemma change_ok c T olen content :
  chunker_inv c T -> ck_cursor c + olen <= length O -> Forall part_ok (option_list content) ->
  step_ok (change fs_read_range span_gap c olen content) (T ++ parts_bytes (option_list content))
    (ck_cursor c + olen).
Proof.
  intros (Ho & Hcur & Hp) Hlen Hcont. unfold change. destruct (ck_pending c) as [p|] eqn:Ep.
  2: { eexists. split; [by destruct (ck_gap c) as [[]|]|]. right. eexists. split; [done|]. split; [|done].
       destruct Hp as [He ->]. by apply new_pending_ok. }
  destruct Hp as (He & Hpe & Hparts & -> & Hgap). destruct (ck_gap c) as [[ps len]|].
  - destruct Hgap as (Hps & Hpb & ->). eexists. split; [done|]. right. eexists. split; [done|].
    split; [|done]. unfold chunker_inv.
    cbn [ck_chunks ck_cursor ck_pending ck_gap pd_offset pd_original_len pd_parts].
    replace (pd_offset p + _) with (ck_cursor c + olen) by lia.
    split_and!; [done|done|done|done|by rw !Forall_app| |].
    + rw seg_nil app_nil_r !bind_app -Hpb -!app_assoc. done.
    + split_and!; [done|by rw seg_nil|lia].
  - destruct (complete_ok p Hparts) as (r & -> & [(e & ->)| ->]); cbn [mbind res_bind].
    { eexists. split; [done|]. left. by eexists. }
    eexists. split; [done|]. right. eexists. split; [done|]. split; [|done].
    apply new_pending_ok; [apply ordered_snoc; simpl; done|by rw chunk_end_snoc|done|done|].
    rw chunk_doc_snoc chunk_end_snoc -!app_assoc. done.
Qed.

Lemma unchanged_ok c T at_ bytes part :
  chunker_inv c T -> ck_cursor c <= at_ -> at_ + bytes <= length O ->
  (forall p, part = Some p -> part_ok p /\ part_bytes p = seg at_ (at_ + bytes)) ->
  step_ok (unchanged fs_read_range merge_gap span_gap c at_ bytes part) (T ++ seg at_ (at_ + bytes))
    (at_ + bytes).
Proof.
  intros Hinv Hat Hlen Hpart. unfold unchanged.
  assert (step_ok (if decide (ck_cursor c < at_) then change fs_read_range span_gap c (at_ - ck_cursor c) None
                   else Ok (inr c)) T at_) as (r & -> & Hr).
  { case_decide as Hd.
    - destruct (change_ok c T (at_ - ck_cursor c) None Hinv) as (r & Hr & H); [lia|done|].
      exists r. split; [done|]. simpl in H. rw app_nil_r in H.
      by replace (ck_cursor c + (at_ - ck_cursor c)) with at_ in H by lia.
    - eexists. split; [done|]. right. exists c. split_and!; [done..|lia]. }
  cbn [mbind res_bind]. destruct Hr as [(e & ->)|(c' & -> & Hinv' & Hcur)].
  { eexists. split; [done|]. left. by eexists. }
  eexists. split; [done|]. right. eexists. split; [done|]. split; [|done].
  destruct Hinv' as (Ho & _ & Hp). unfold chunker_inv.
  cbn [ck_chunks ck_cursor ck_pending ck_gap]. rw Hcur in Hp.
  split; [done|]. split; [done|]. destruct (ck_pending c') as [p|].
  - destruct Hp as (He & Hpe & Hparts & -> & Hgap).
    split_and!; [done|lia|done|rw -!app_assoc seg_app //; lia|].
    destruct (ck_gap c') as [[ps len]|]; [|done]. destruct part as [part|]; [|done].
    destruct Hgap as (Hps & Hpb & ->). destruct (Hpart part eq_refl) as [Hpok Hpbs].
    case_decide; [|done]. split_and!; [apply Forall_app; split; [done|by apply Forall_singleton]| |lia].
    rw bind_app Hpb. cbn. rw app_nil_r Hpbs seg_app //. lia.
  - destruct Hp as [He ->]. split; [lia|]. rw -app_assoc seg_app //. lia.
Qed.

Lemma finish_ok c T :
  chunker_inv c T ->
  exists r, finish fs_read_range span_gap c (length O) = Ok r
  /\ ((exists e, r = inl (ChunkIo e))
      \/ exists cs, r = inr cs /\ ordered 0 cs /\ apply_chunks O 0 cs [] = Ok T).
Proof.
  intros Hinv. pose proof Hinv as (_ & Hcur & _). unfold finish.
  assert (step_ok (if decide (ck_cursor c < length O)
      then change fs_read_range span_gap c (length O - ck_cursor c) None else Ok (inr c)) T (length O))
    as (r & -> & Hr).
  { case_decide as Hd.
    - destruct (change_ok c T (length O - ck_cursor c) None Hinv) as (r & Hr & H); [lia|done|].
      exists r. split; [done|]. simpl in H. rw app_nil_r in H.
      by replace (ck_cursor c + (length O - ck_cursor c)) with (length O) in H by lia.
    - eexists. split; [done|]. right. exists c. split_and!; [done..|lia]. }
  cbn [mbind res_bind]. destruct Hr as [(e & ->)|(c' & -> & (Ho & _ & Hp) & Hcur')].
  { eexists. split; [done|]. left. by eexists. }
  assert (forall a, seg a (length O) = drop a O) as Hseg.
  { intros a. unfold seg. rw take_ge // length_drop //. }
  rw Hcur' in Hp. destruct (ck_pending c') as [p|].
  - destruct Hp as (He & Hpe & Hparts & -> & _).
    destruct (complete_ok p Hparts) as (r & -> & [(e & ->)| ->]); cbn [mbind res_bind].
    { eexists. split; [done|]. left. by eexists. }
    eexists. split; [done|]. right. eexists. split; [done|].
    assert (ordered 0 (ck_chunks c' ++ [mkRecoveryChunk (pd_offset p) (pd_original_len p) (parts_bytes (pd_parts p))]))
      as Hord by (by apply ordered_snoc).
    split; [done|]. rw apply_chunks_ok //; [by rw chunk_end_snoc|].
    rw chunk_doc_snoc chunk_end_snoc -!app_assoc Hseg. done.
  - destruct Hp as [He ->]. eexists. split; [done|]. right. eexists. split; [done|]. split; [done|].
    by rw apply_chunks_ok // Hseg.
Qed.

(** ** The whole buffer *)

(** A piece taken for a stretch of the original is one. *)
Definition truthful_piece (tb : TextBuffer) (p : PieceView) : Prop :=
  forall at_, original_offset (tb_buffers tb) p = Some at_ ->
  at_ + pv_bytes p <= length O
  /\ leaf_text (content_in files (tb_buffers tb)) (view_leaf p) = seg at_ (at_ + pv_bytes p).

Definition truthful (tb : TextBuffer) : Prop :=
  Forall (truthful_piece tb) (views (node_leaves (root (piece_tree tb))) 0).

Lemma part_of_ok tb p :
  tb_inv files tb -> leaf_bounded (tb_buffers tb) (view_leaf p) ->
  let t := leaf_text (content_in files (tb_buffers tb)) (view_leaf p) in
  Forall part_ok (option_list (part_of (tb_buffers tb) p))
  /\ parts_bytes (option_list (part_of (tb_buffers tb) p)) = t
  /\ (forall part, part_of (tb_buffers tb) p = Some part -> part_ok part /\ part_bytes part = t).
Proof.
  intros Hinv Hb t.
  assert ((exists part, part_of (tb_buffers tb) p = Some part /\ part_ok part /\ part_bytes part = t)
    \/ (part_of (tb_buffers tb) p = None /\ t = [])) as [(part & -> & Hok & Hbs)|[-> ->]].
  - unfold part_of, t. destruct (tb_buffers tb !! buffer_id (pv_location p)) as [b|] eqn:Hbuf.
    2: { right. split; [done|]. unfold leaf_bounded in Hb. simpl in Hb. rw Hbuf in Hb.
         destruct Hb as [_ Hz]. unfold leaf_text, leaf_cells. simpl. by rw Hz. }
    left. pose proof (leaf_in_source files tb (view_leaf p) Hinv Hb b Hbuf) as Hlen. simpl in Hlen.
    rw (leaf_text_source files _ (view_leaf p) b Hbuf Hlen). cbn [mbind option_bind view_leaf l_bytes l_offset].
    unfold source in *. destruct (sb_data b) as [data ls|path fo n].
    + rw slice_get_Some; [lia..|]. eexists. split; [done|]. split; [done|]. simpl. f_equal. lia.
    + rw length_take length_drop in Hlen. eexists. split; [done|]. simpl. split; [lia|].
      rw skipn_firstn_comm drop_drop take_take. f_equal. lia.
  - split_and!; [by apply Forall_singleton|by cbn; rw app_nil_r|]. by intros ? [= <-].
  - split_and!; [by apply Forall_nil|done|]. by intros part.
Qed.

Lemma chunk_pieces_ok tb ps c T :
  tb_inv files tb -> Forall (fun p => leaf_bounded (tb_buffers tb) (view_leaf p)) ps ->
  Forall (truthful_piece tb) ps -> chunker_inv c T ->
  exists r, chunk_pieces fs_read_range merge_gap span_gap (tb_buffers tb) c ps = Ok r
  /\ ((exists e, r = inl (ChunkIo e))
      \/ exists c', r = inr c' /\ chunker_inv c' (T ++ (ps ≫= (fun p =>
           leaf_text (content_in files (tb_buffers tb)) (view_leaf p))))).
Proof.
  intros Hinv Hps. revert c T. induction Hps as [|p ps Hb _ IH]; intros c T Htr Hc; cbn [chunk_pieces].
  { eexists. split; [done|]. right. exists c. by rw app_nil_r. }
  apply Forall_cons_1 in Htr as [Htp Htr]. destruct (part_of_ok tb p Hinv Hb) as (Hpo & Hpb & Hpart).
  set (t := leaf_text _ (view_leaf p)) in *.
  assert (exists cursor, step_ok (chunk_piece fs_read_range merge_gap span_gap (tb_buffers tb) c p)
    (T ++ t) cursor) as (cursor & r & -> & Hr).
  { unfold chunk_piece. pose proof Hc as (_ & Hcur & _).
    assert (exists cursor, step_ok (change fs_read_range span_gap c 0 (part_of (tb_buffers tb) p)) (T ++ t) cursor)
      as Hch. { eexists. rw -Hpb. apply change_ok; [done|lia|done]. }
    destruct (original_offset _ p) as [at_|] eqn:Hat; [|exact Hch]. case_decide; [|exact Hch].
    destruct (Htp at_ Hat) as [Hlen Hseg]. fold t in Hseg. eexists. rw Hseg.
    apply unchanged_ok; [done..|]. intros part Hp. destruct (Hpart part Hp) as [? ->]. by rw Hseg. }
  cbn [mbind res_bind]. destruct Hr as [(e & ->)|(c' & -> & Hc' & _)].
  { eexists. split; [done|]. left. by eexists. }
  destruct (IH c' (T ++ t) Htr Hc') as (r & -> & Hr). eexists. split; [done|].
  destruct Hr as [?|(c2 & -> & Hc2)]; [by left|right]. exists c2. split; [done|].
  rw -app_assoc in Hc2. exact Hc2.
Qed.

(** C9: recovery gives the text back: when every piece that counts as a stretch of
    the original file is one, the recovery chunks of a buffer are ordered and do not
    overlap, and applying them to the original file, as the recovery service does,
    rebuilds exactly the text of the buffer; building them fails only when the file
    cannot be read. *)
Theorem recovery_roundtrip tb :
  tb_inv files tb -> truthful tb -> saved_file_size (persistence tb) = Some (length O) ->
  exists r, get_recovery_chunks fs_read_range merge_gap span_gap tb = Ok r
  /\ ((exists e, r = inl (ChunkIo e))
      \/ exists cs, r = inr cs /\ ordered 0 cs
          /\ reconstruct_from_chunks O (length O) cs = Ok (Some (tb_text files tb))).
Proof.
  intros Hinv Htr Hsize. pose proof Hinv as (Ht & _). pose proof Ht as [[Hwf Htot] _].
  unfold get_recovery_chunks. rw iter_pieces_eq // Hsize.
  assert (chunker_inv (mkChunker [] None (Some ([], 0)) 0) []) as Hinit.
  { split; [done|]. split; [simpl; lia|]. split; [done|]. by rw seg_nil. }
  set (ps := List.filter _ _).
  assert (forall p, p ∈ ps -> p ∈ views (node_leaves (root (piece_tree tb))) 0) as Hsub.
  { intros p [Hp _]%list_elem_of_In%filter_In. by apply list_elem_of_In. }
  destruct (chunk_pieces_ok tb ps (mkChunker [] None (Some ([], 0)) 0) [] Hinv) as (r & -> & Hr); [| |exact Hinit|].
  { apply Forall_forall. intros p Hp%Hsub.
    apply (list_elem_of_fmap_2 view_leaf) in Hp. rw view_leaf_views in Hp.
    exact (proj1 (Forall_forall _ _) (tree_inv_bounded _ _ _ Ht) _ Hp). }
  { apply Forall_forall. intros p Hp%Hsub. exact (proj1 (Forall_forall _ _) Htr _ Hp). }
  cbn [mbind res_bind]. destruct Hr as [(e & ->)|(c & -> & Hc)].
  { eexists. split; [done|]. left. by eexists. }
  destruct (finish_ok c _ Hc) as (r & Hf & Hr). exists r. split; [exact Hf|].
  destruct Hr as [?|(cs & -> & Hord & Happ)]; [by left|right]. exists cs. split_and!; [done..|].
  unfold reconstruct_from_chunks. rw decide_False; [by intros H|]. rw Happ. cbn [mbind res_bind app].
  do 2 f_equal. unfold ps, tb_total_bytes.
  rw (pieces_bind (leaf_text (content_in files (tb_buffers tb)))).
  - intros [loc off n cc] Hz. simpl in Hz. by subst n.
  - unfold doc, node_cells in Htot. lia.
  - apply leaves_text.
Qed.
End chunks.

(** ** Examples *)

(** The twelve digits with an X after the third and the last four deleted. *)
Definition edited_digits : res TextBuffer :=
  '(tb, _) ← insert_bytes digits_read_some digits_buffer 3 [x58];
  delete_bytes digits_read_some tb 9 4.

Lemma edited_digits_inv : exists tb, edited_digits = Ok tb /\ tb_inv (fun _ => digits) tb.
Proof.
  destruct (open_unloaded_ok (fun _ => digits) 4 2 ltac:(lia) ltac:(lia) EmptyString LF Utf8 false)
    as (Hinv & _ & _); [done|]. unfold edited_digits.
  destruct (insert_bytes_ok (fun _ => digits) digits_read_some digits_read_ok digits_buffer 3 [x58] Hinv)
    as (tb1 & cur & -> & Hinv1 & _).
  destruct (delete_bytes_ok (fun _ => digits) digits_read_some digits_read_ok tb1 9 4 Hinv1)
    as (tb2 & H & Hinv2 & _). by exists tb2.
Qed.

Lemma recovery_roundtrip_witness :
  exists tb r, edited_digits = Ok tb
  /\ get_recovery_chunks digits_read_some 2 4 tb = Ok r
  /\ ((exists e, r = inl (ChunkIo e))
      \/ exists cs, r = inr cs /\ ordered 0 cs
          /\ reconstruct_from_chunks digits (length digits) cs = Ok (Some (tb_text (fun _ => digits) tb))).
Proof.
  destruct edited_digits_inv as (tb & He & Hinv). exists tb.
  destruct (recovery_roundtrip (fun _ => digits) digits_read_some 2 4 digits_read_ok digits tb Hinv)
    as (r & Hr & H).
  - vm_compute in He. injection He as <-. vm_compute.
    repeat apply Forall_cons_2; try apply Forall_nil_2; intros at_ H; try discriminate H;
      injection H as <-; (split; [vm_compute; lia|vm_compute; reflexivity]).
  - vm_compute in He. injection He as <-. reflexivity.
  - exists r. split; [exact He|]. split; [exact Hr|exact H].
Defined.

(** Text typed at the end of a loaded chunk is appended to the chunk's buffer and
    takes part in its claim to be a stretch of the file: the recovered text does not
    have it. *)
Theorem recovery_drops_appended_text :
  exists tb1 r tb2 cursor cs,
    get_text_range_mut digits_read_some digits_count 4 2 digits_buffer 4 4 = Ok (tb1, r)
    /\ insert_bytes digits_read_some tb1 8 [x58] = Ok (tb2, cursor)
    /\ x58 ∈ tb_text (fun _ => digits) tb2
    /\ get_recovery_chunks digits_read_some 2 4 tb2 = Ok (inr cs)
    /\ Forall (fun c => x58 ∉ rc_content c) cs.
Proof.
  do 5 eexists. split_and!; [by vm_compute..|apply (bool_decide_unpack _); by vm_compute|by vm_compute|].
  apply (bool_decide_unpack _). by vm_compute.
Qed.
