(* ===== verification/Event.v ===== *)
(** * Events

    Models crates/fresh-editor-core/src/model/event.rs up to the event log: the text
    an edit carries, the events that change an editor's state, with the data of the
    presentational ones (overlays, popups, margins, from fresh-core's api.rs where the
    code takes them from there), and their inverses.

    A 32-bit float is its bit pattern, an id is its number, a string of the user
    interface is a [string].  [undo_sentinel] stands for [CursorId::UNDO_SENTINEL]
    (the largest id). *)
From stdpp Require Import base numbers list option strings.
From Stdlib Require Import ssreflect Strings.Byte ZArith.
From S2P Require Import Prelude TextSpec Utf8 PieceTree StringBuffer TextBuffer.

(** ** The text of an edit *)
Record EditText : Type := mkEditText { et_text : list byte; et_raw : option (list byte) }.

Definition et_from_bytes (bytes : list byte) : EditText :=
  match from_utf8 bytes with
  | None => mkEditText bytes None
  | Some _ => mkEditText (encode_all (from_utf8_lossy bytes)) (Some bytes)
  end.

(** [From<String>] *)
Definition et_from_string (text : list byte) : EditText := mkEditText text None.

Definition as_bytes (t : EditText) : list byte := default (et_text t) (et_raw t).
Definition et_len (t : EditText) : nat := length (as_bytes t).
Definition et_is_empty (t : EditText) : bool := bool_decide (as_bytes t = []).
Definition as_str (t : EditText) : list byte := et_text t.

(** Equality with a string. *)
Definition et_eq_str (t : EditText) (s : list byte) : bool := bool_decide (as_bytes t = s).

Inductive EditTextRepr : Type :=
| ReprText (text : list byte)
| ReprBytes (bytes : list byte).

Definition et_serialize (t : EditText) : EditTextRepr :=
  match et_raw t with None => ReprText (et_text t) | Some raw => ReprBytes raw end.

Definition et_deserialize (r : EditTextRepr) : EditText :=
  match r with ReprText text => et_from_string text | ReprBytes bytes => et_from_bytes bytes end.

(** ** Presentational data *)
Abbreviation rgb := (Z * Z * Z)%type.

Inductive OverlayColorSpec : Type := Rgb (r g b : Z) | ThemeKey (key : string).

Record OverlayOptions : Type := mkOverlayOptions {
  oo_fg : option OverlayColorSpec;
  oo_bg : option OverlayColorSpec;
  oo_underline : bool; oo_bold : bool; oo_italic : bool; oo_strikethrough : bool;
  oo_extend_to_line_end : bool; oo_reversed : bool; oo_fg_on_collision_only : bool;
  oo_url : option string;
}.

Inductive UnderlineStyle : Type := Straight | Wavy | Dotted | Dashed.

Inductive OverlayFace : Type :=
| FaceUnderline (color : rgb) (style : UnderlineStyle)
| FaceBackground (color : rgb)
| FaceForeground (color : rgb)
| FaceStyle (options : OverlayOptions).

Inductive PopupKindHint : Type := PopupCompletion | PopupList | PopupText.

Record PopupListItemData : Type := mkPopupItem {
  pi_id : string; pi_text : string; pi_detail : option string; pi_icon : option string;
  pi_data : option string;
}.

Inductive PopupContentData : Type :=
| PopupContentText (lines : list string)
| PopupContentList (items : list PopupListItemData) (selected : nat).

Inductive PopupPositionData : Type :=
| AtCursor | BelowCursor | AboveCursor | FixedAt (x y : Z) | Centered | BottomRight.

Record PopupData : Type := mkPopup {
  pp_kind : PopupKindHint; pp_title : option string; pp_description : option string;
  pp_transient : bool; pp_content : PopupContentData; pp_position : PopupPositionData;
  pp_width : Z; pp_max_height : Z; pp_bordered : bool;
}.

Inductive MarginPositionData : Type := MarginLeft | MarginRight.

Inductive MarginContentData : Type :=
| MarginText (text : string)
| MarginSymbol (text : string) (color : option rgb)
| MarginEmpty.

Inductive SplitDirection : Type := Horizontal | Vertical.

(** ** Events *)
Abbreviation cursor_state := (nat * nat * option nat)%type.

#[warnings="-register-all"]
Inductive Event : Type :=
| Insert (position : nat) (text : EditText) (cursor : nat)
| Delete (start end_ : nat) (deleted_text : EditText) (cursor : nat)
| MoveCursor (cursor old_position new_position : nat) (old_anchor new_anchor : option nat)
    (old_sticky_column new_sticky_column : option nat)
| AddCursor (cursor position : nat) (anchor : option nat)
| RemoveCursor (cursor position : nat) (anchor : option nat)
| Scroll (line_offset : Z)
| Recenter
| SetAnchor (cursor position : nat)
| CancelAnchor (cursor : nat)
| ClearAnchor (cursor : nat)
| ChangeMode (mode : string)
| AddOverlay (namespace : option string) (start end_ : nat) (face : OverlayFace) (priority : Z)
    (message : option string) (extend_to_line_end : bool) (url : option string)
| RemoveOverlay (handle : string)
| RemoveOverlaysInRange (start end_ : nat)
| ClearNamespace (namespace : string)
| ClearOverlays
| ShowPopup (popup : PopupData)
| HidePopup
| ClearPopups
| PopupSelectNext
| PopupSelectPrev
| PopupPageDown
| PopupPageUp
| AddMarginAnnotation (line : nat) (position : MarginPositionData) (content : MarginContentData)
    (annotation_id : option string)
| RemoveMarginAnnotation (annotation_id : string)
| RemoveMarginAnnotationsAtLine (line : nat) (position : MarginPositionData)
| ClearMarginPosition (position : MarginPositionData)
| ClearMargins
| SetLineNumbers (enabled : bool)
| SplitPane (direction : SplitDirection) (new_buffer_id : nat) (ratio_bits : Z)
| CloseSplit (split_id : nat)
| SetActiveSplit (split_id : nat)
| AdjustSplitRatio (split_id : nat) (delta_bits : Z)
| NextSplit
| PrevSplit
| NextPane
| PrevPane
| Batch (events : list Event) (description : string)
| BulkEdit (old_snapshot new_snapshot : option BufferSnapshot)
    (old_cursors new_cursors : list cursor_state) (description : string)
    (edits : list (nat * nat * nat)) (displaced_markers : list (Z * nat)).

Section inverse.
Context (undo_sentinel : nat).

Fixpoint inverse (e : Event) : option Event :=
  match e with
  | Insert position text _ => Some (Delete position (position + et_len text) text undo_sentinel)
  | Delete start _ deleted_text _ => Some (Insert start deleted_text undo_sentinel)
  | Batch events description =>
      (* the inverses in reverse order, none as soon as one event has none *)
      let inverted :=
        (fix invert (events : list Event) : option (list Event) :=
           match events with
           | [] => Some []
           | e :: events =>
               match invert events, inverse e with
               | Some rest, Some i => Some (rest ++ [i])
               | _, _ => None
               end
           end) events in
      (fun inverted_events => Batch inverted_events ("Undo: " +:+ description)) <$> inverted
  | AddCursor cursor position anchor => Some (RemoveCursor cursor position anchor)
  | RemoveCursor cursor position anchor => Some (AddCursor cursor position anchor)
  | MoveCursor cursor old_position new_position old_anchor new_anchor old_sticky new_sticky =>
      Some (MoveCursor cursor new_position old_position new_anchor old_anchor new_sticky old_sticky)
  | Scroll line_offset => Some (Scroll (- line_offset))
  | BulkEdit old_snapshot new_snapshot old_cursors new_cursors description edits displaced =>
      Some (BulkEdit new_snapshot old_snapshot new_cursors old_cursors
              ("Undo: " +:+ description)
              ((fun '(pos, del_len, ins_len) => (pos, ins_len, del_len)) <$> edits) displaced)
  | _ => None
  end.
End inverse.

Fixpoint modifies_buffer (e : Event) : bool :=
  match e with
  | Insert _ _ _ | Delete _ _ _ _ | BulkEdit _ _ _ _ _ _ _ => true
  | Batch events _ => existsb modifies_buffer events
  | _ => false
  end.

Fixpoint is_write_action (e : Event) : bool :=
  match e with
  | Insert _ _ _ | Delete _ _ _ _ | BulkEdit _ _ _ _ _ _ _ => true
  | AddCursor _ _ _ | RemoveCursor _ _ _ => true
  | Batch events _ => existsb is_write_action events
  | _ => false
  end.

Definition event_cursor_id (e : Event) : option nat :=
  match e with
  | Insert _ _ c | Delete _ _ _ c | MoveCursor c _ _ _ _ _ _ | AddCursor c _ _
  | RemoveCursor c _ _ => Some c
  | _ => None
  end.

(** ** Applying an event to the document

    What [EditorState::apply] does to the buffer: the arms that touch it, with the
    guard of each; every other event leaves the buffer alone. *)
Section apply.
Context {io_error : Type} (fs_read_range : string -> nat -> nat -> io_error + list byte).

(** The arms of insertions and deletions. *)
Definition apply_edit_event (e : Event) (tb : TextBuffer) : res TextBuffer :=
  match e with
  | Insert position text _ => r ← insert_bytes fs_read_range tb position (as_bytes text); Ok r.1
  | Delete start end_ _ _ => tb_delete fs_read_range tb start end_
  | _ => Ok tb
  end.

(** [apply_bulk_edit] on the buffer. *)
Definition apply_bulk_edit (new_snapshot : option BufferSnapshot) (tb : TextBuffer) : TextBuffer :=
  match new_snapshot with Some s => restore_buffer_state tb s | None => tb end.

Fixpoint apply_to_buffer (e : Event) (tb : TextBuffer) : res TextBuffer :=
  match e with
  | Batch events _ =>
      (fix apply_all (events : list Event) (tb : TextBuffer) : res TextBuffer :=
         match events with
         | [] => Ok tb
         | e :: events => tb ← apply_to_buffer e tb; apply_all events tb
         end) events tb
  | BulkEdit _ new_snapshot _ _ _ _ _ => Ok (apply_bulk_edit new_snapshot tb)
  | _ => apply_edit_event e tb
  end.

Fixpoint apply_events (es : list Event) (tb : TextBuffer) : res TextBuffer :=
  match es with
  | [] => Ok tb
  | e :: es => tb ← apply_to_buffer e tb; apply_events es tb
  end.
End apply.
