(* ===== verification/EventText.v ===== *)
(** * Events on texts

    What an event means for the text of the document, independently of how the buffer
    stores it: a partial function on byte lists, defined where the event fits the
    text.  Applying the event to a buffer does exactly that to its text, and the
    inverse event takes it back. *)
From stdpp Require Import base numbers list option strings.
From Stdlib Require Import ssreflect Strings.Byte ZArith.
From S2P Require Import Prelude TextSpec Utf8 PieceTree StringBuffer TextBuffer TextBufferInv Event.

(** Induction through the lists of events of a batch. *)
Section event_ind.
Context (P : Event -> Prop).
Hypothesis Hbatch : forall es d, Forall P es -> P (Batch es d).
Hypothesis Hother : forall e, (forall es d, e <> Batch es d) -> P e.

Fixpoint event_ind' (e : Event) : P e.
Proof.
  destruct e; try (apply Hother; discriminate).
  apply Hbatch. induction events as [|e es IH]; constructor; [apply event_ind'|exact IH].
Qed.
End event_ind.

(** ** Edit texts *)

(** The text an edit carries keeps the exact bytes it was made from, valid UTF-8
    or not, together with a rendering that always is valid UTF-8, and survives being
    written to and read from an event log. *)
Theorem edit_text_exact bytes :
  let t := et_from_bytes bytes in
  as_bytes t = bytes /\ from_utf8 (as_str t) = None /\ et_deserialize (et_serialize t) = t.
Proof.
  cbv zeta. unfold et_from_bytes. destruct (from_utf8 bytes) as [p|] eqn:E; [|done].
  split; [done|]. split; [|cbn; unfold et_from_bytes; by rw E].
  apply from_utf8_encoded, lossy_chars_scalar.
Qed.

Section texts.
Context (files : string -> list byte).

Fixpoint event_text (e : Event) (T : list byte) : option (list byte) :=
  match e with
  | Insert p t _ => if decide (p <= length T) then Some (splice T p 0 (as_bytes t)) else None
  | Delete s e d _ =>
      if decide (s <= e <= length T /\ as_bytes d = take (e - s) (drop s T))
      then Some (splice T s (e - s) []) else None
  | BulkEdit (Some o) (Some n) _ _ _ _ _ =>
      if decide (snap_text files o = T) then Some (snap_text files n) else None
  | BulkEdit None None _ _ _ _ _ => Some T
  | BulkEdit _ _ _ _ _ _ _ => None
  | Batch es _ =>
      (fix all (es : list Event) (T : list byte) : option (list byte) :=
         match es with
         | [] => Some T
         | e :: es => T ← event_text e T; all es T
         end) es T
  | _ => Some T
  end.

Fixpoint events_text (es : list Event) (T : list byte) : option (list byte) :=
  match es with
  | [] => Some T
  | e :: es => T ← event_text e T; events_text es T
  end.

(** The snapshots an event carries are sound. *)
Fixpoint event_inv (e : Event) : Prop :=
  match e with
  | BulkEdit o n _ _ _ _ _ =>
      match o with Some s => snap_inv files s | None => True end
      /\ match n with Some s => snap_inv files s | None => True end
  | Batch es _ => (fix all (es : list Event) : Prop :=
                     match es with [] => True | e :: es => event_inv e /\ all es end) es
  | _ => True
  end.

Lemma event_text_batch es d T : event_text (Batch es d) T = events_text es T.
Proof. simpl. revert T. induction es as [|e es IH]; intros T; [done|]. simpl. destruct (event_text e T); [apply IH|done]. Qed.

Lemma event_inv_batch es d : event_inv (Batch es d) <-> Forall event_inv es.
Proof.
  simpl. induction es as [|e es IH]; [done|]. rw Forall_cons -IH. done.
Qed.

Lemma events_text_app es fs T : events_text (es ++ fs) T = T' ← events_text es T; events_text fs T'.
Proof.
  revert T. induction es as [|e es IH]; intros T; [done|]. simpl. destruct (event_text e T); [apply IH|done].
Qed.

(** ** Buffers *)
Section apply.
Context {io_error : Type} (fs_read_range : string -> nat -> nat -> io_error + list byte).
Hypothesis Hread : forall path off n d, fs_read_range path off n = inr d ->
  d = take n (drop off (files path)) /\ length d = n.

Definition applies (r : res TextBuffer) (T' : list byte) : Prop :=
  exists tb', r = Ok tb' /\ tb_inv files tb' /\ tb_text files tb' = T'.

Lemma apply_batch es d tb :
  apply_to_buffer fs_read_range (Batch es d) tb = apply_events fs_read_range es tb.
Proof.
  simpl. revert tb. induction es as [|e es IH]; intros tb; [done|]. simpl.
  destruct (apply_to_buffer fs_read_range e tb); [apply IH|done].
Qed.

Lemma apply_events_from es tb T' :
  Forall (fun e => forall tb T', tb_inv files tb -> event_inv e ->
    event_text e (tb_text files tb) = Some T' -> applies (apply_to_buffer fs_read_range e tb) T') es ->
  tb_inv files tb -> Forall event_inv es -> events_text es (tb_text files tb) = Some T' ->
  applies (apply_events fs_read_range es tb) T'.
Proof.
  intros Hes. revert tb. induction Hes as [|e es He _ IH]; intros tb Hinv Hev Ht.
  { injection Ht as <-. by exists tb. }
  apply Forall_cons in Hev as [Hev Hevs]. simpl in Ht.
  destruct (event_text e (tb_text files tb)) as [T1|] eqn:E; [|done]. simpl in Ht.
  destruct (He tb T1 Hinv Hev E) as (tb1 & H1 & Hinv1 & <-). simpl. rw H1. by apply IH.
Qed.

Lemma apply_to_buffer_ok e tb T' :
  tb_inv files tb -> event_inv e -> event_text e (tb_text files tb) = Some T' ->
  applies (apply_to_buffer fs_read_range e tb) T'.
Proof.
  revert tb T'. induction e as [es d IH|e Hne] using event_ind'; intros tb T' Hinv Hev.
  - rw event_text_batch apply_batch. apply apply_events_from; [done..|].
    by apply (event_inv_batch es d).
  - destruct e; cbn [event_text apply_to_buffer apply_edit_event apply_bulk_edit]; intros Ht;
      try (injection Ht as <-; by exists tb); [..|by destruct (Hne events description)|].
    + case_decide; [|done]. injection Ht as <-.
      destruct (insert_bytes_ok files fs_read_range Hread tb position (as_bytes text) Hinv)
        as (tb' & cur & -> & ? & ? & _). by exists tb'.
    + case_decide; [|done]. injection Ht as <-.
      destruct (tb_delete_ok files fs_read_range Hread tb start end_ Hinv) as (tb' & -> & ? & ? & _).
      by exists tb'.
    + destruct Hev as [_ Hn]. destruct old_snapshot as [o|], new_snapshot as [n|]; [|done..|].
      * case_decide; [|done]. injection Ht as <-. destruct (restore_ok files tb n Hn). by eexists.
      * injection Ht as <-. by exists tb.
Qed.

Lemma apply_events_ok es tb T' :
  tb_inv files tb -> Forall event_inv es -> events_text es (tb_text files tb) = Some T' ->
  applies (apply_events fs_read_range es tb) T'.
Proof.
  apply apply_events_from. apply Forall_forall. intros e _ tb' T1. apply apply_to_buffer_ok.
Qed.
End apply.

(** ** Inverses *)
Context (undo_sentinel : nat).
Local Abbreviation inverse := (inverse undo_sentinel).

(** The inverses of a list of events, last first. *)
Fixpoint invert_all (es : list Event) : option (list Event) :=
  match es with
  | [] => Some []
  | e :: es =>
      match invert_all es, inverse e with Some rest, Some i => Some (rest ++ [i]) | _, _ => None end
  end.

Lemma inverse_batch es d :
  inverse (Batch es d) = (fun invs => Batch invs ("Undo: " +:+ d)) <$> invert_all es.
Proof.
  cbn [Event.inverse]. f_equal.
Qed.

Lemma splice_insert_delete (T : list byte) p t :
  p <= length T ->
  splice (splice T p 0 t) p (p + length t - p) [] = T
  /\ take (p + length t - p) (drop p (splice T p 0 t)) = t.
Proof.
  intros Hp. unfold splice. rw Nat.add_0_r. replace (p + length t - p) with (length t) by lia.
  assert (length (take p T) = p) as Hl by (rw length_take; lia).
  rw take_app_le; [lia|]. rw (take_ge (take p T)); [lia|].
  rw drop_app_ge; [lia|]. rw Hl. replace (p + length t - p) with (length t) by lia.
  rw drop_app_length /= take_drop. split; [done|].
  rw drop_app_ge; [lia|]. by rw Hl Nat.sub_diag drop_0 take_app_length.
Qed.

Lemma splice_delete_insert (T : list byte) s e :
  s <= e <= length T -> splice (splice T s (e - s) []) s 0 (take (e - s) (drop s T)) = T.
Proof.
  intros H. unfold splice. rw Nat.add_0_r /=. replace (s + (e - s)) with e by lia.
  assert (length (take s T) = s) as Hl by (rw length_take; lia).
  rw take_app_le; [lia|]. rw (take_ge (take s T)); [lia|].
  rw drop_app_ge; [lia|]. rw Hl Nat.sub_diag drop_0.
  replace (drop e T) with (drop (e - s) (drop s T)) by (rw drop_drop; f_equal; lia).
  by rw take_drop take_drop.
Qed.

Lemma invert_all_text es invs T T' :
  Forall (fun e => forall i T T', inverse e = Some i -> event_text e T = Some T' ->
    event_text i T' = Some T) es ->
  invert_all es = Some invs -> events_text es T = Some T' -> events_text invs T' = Some T.
Proof.
  intros Hes. revert invs T. induction Hes as [|e es He _ IH]; intros invs T; simpl.
  { by intros [= <-] [= <-]. }
  destruct (invert_all es) as [rest|]; [|done]. destruct (inverse e) as [i|] eqn:Hi; [|done].
  intros [= <-]. destruct (event_text e T) as [T1|] eqn:E; [|done]. simpl. intros Ht.
  rw events_text_app (IH rest T1) //. cbn [mbind option_bind events_text].
  by rw (He i T T1 eq_refl E).
Qed.

Lemma inverse_text e i T T' :
  inverse e = Some i -> event_text e T = Some T' -> event_text i T' = Some T.
Proof.
  revert i T T'. induction e as [es d IH|e Hne] using event_ind'; intros i T T'.
  - rw inverse_batch event_text_batch. intros (invs & His & ->)%fmap_Some Ht.
    rw event_text_batch. by apply (invert_all_text es).
  - destruct e; cbn [Event.inverse]; try done; try (by destruct (Hne events description));
      intros [= <-]; cbn [event_text]; try (by intros [= <-]).
    + case_decide as Hp; [|done]. intros [= <-]. destruct (splice_insert_delete T position (as_bytes text) Hp) as [H1 H2].
      unfold et_len. rw decide_True; [|by rw H1]. split; [|by rw H2].
      pose proof (length_splice T position 0 (as_bytes text)). lia.
    + case_decide as Hp; [|done]. intros [= <-]. destruct Hp as [Hr ->].
      rw decide_True; [|by rw splice_delete_insert]. pose proof (length_splice T start (end_ - start) []).
      simpl in *. lia.
    + destruct old_snapshot as [o|], new_snapshot as [n|]; [|done..|].
      * case_decide as Ho; [|done]. intros [= <-]. rw decide_True //. by rw Ho.
      * by intros [= <-].
Qed.

Lemma inverse_inv e i : inverse e = Some i -> event_inv e -> event_inv i.
Proof.
  revert i. induction e as [es d IH|e Hne] using event_ind'; intros i.
  - rw inverse_batch event_inv_batch. intros (invs & His & ->)%fmap_Some Hev. rw event_inv_batch.
    revert invs His Hev. induction IH as [|e es He _ IH']; intros invs; simpl; [by intros [= <-]|].
    destruct (invert_all es) as [rest|]; [|done]. destruct (inverse e) as [j|] eqn:Hj; [|done].
    intros [= <-] [Hev Hevs]%Forall_cons. apply Forall_app. split; [by apply IH'|].
    apply Forall_singleton. by apply He.
  - destruct e; cbn [Event.inverse]; try done; try (by destruct (Hne events description));
      intros [= <-]; try done. cbn [event_inv]. intros [? ?]. done.
Qed.

(** An event that does not modify the buffer leaves the text as it is. *)
Lemma readonly_text e T T' :
  modifies_buffer e = false -> event_text e T = Some T' -> T' = T.
Proof.
  revert T T'. induction e as [es d IH|e Hne] using event_ind'; intros T T'.
  - rw event_text_batch. simpl. revert T. induction IH as [|e es He _ IH']; intros T; simpl.
    { by intros _ [= <-]. }
    intros [Hm Hms]%orb_false_iff. destruct (event_text e T) as [T1|] eqn:E; [|done]. simpl.
    intros Ht. rw (IH' T1 Hms Ht). by apply He.
  - destruct e; cbn [modifies_buffer event_text]; try done; try (by intros _ [= <-]).
    by destruct (Hne events description).
Qed.
End texts.

Lemma write_of_modifies e : modifies_buffer e = true -> is_write_action e = true.
Proof.
  induction e as [es d IH|e Hne] using event_ind'.
  - simpl. rw !existsb_exists. intros (e & Hin & He). exists e. split; [done|].
    apply (proj1 (Forall_forall _ _) IH e); [by apply list_elem_of_In|done].
  - destruct e; try done. by destruct (Hne events description).
Qed.
