(* ===== verification/EventLog.v ===== *)
(** * The event log

    Models [LogEntry], [Snapshot] and [EventLog] of
    crates/fresh-editor-core/src/model/event.rs: the log of an editor's events with a
    current position, undo and redo, undo groups and the saved position.

    The clock is the argument [now] of [append]; streaming the log to a file is left
    out.  Indexing [entries] out of range panics. *)
From stdpp Require Import base numbers list option strings.
From Stdlib Require Import ssreflect Strings.Byte ZArith.
From S2P Require Import Prelude TextSpec TextBuffer Event.

Record LogEntry : Type := mkEntry {
  le_event : Event;
  le_timestamp : Z;
  le_description : option string;
  le_displaced_markers : list (Z * nat);
  le_group_id : option nat;
}.

Definition entry_new (now : Z) (event : Event) : LogEntry := mkEntry event now None [] None.

Definition with_description (e : LogEntry) (description : string) : LogEntry :=
  mkEntry (le_event e) (le_timestamp e) (Some description) (le_displaced_markers e) (le_group_id e).

Record Snapshot : Type := mkLogSnapshot {
  sn_log_index : nat; sn_cursor_positions : list cursor_state;
}.

Record EventLog : Type := mkLog {
  entries : list LogEntry;
  current_index : nat;
  snapshots : list Snapshot;
  snapshot_interval : nat;
  saved_at_index : option nat;
  next_group_id : nat;
  current_group : option nat;
  group_depth : nat;
}.

Definition log_new : EventLog := mkLog [] 0 [] 100 (Some 0) 0 None 0.

Definition begin_undo_group (l : EventLog) : EventLog :=
  if decide (group_depth l = 0)
  then mkLog (entries l) (current_index l) (snapshots l) (snapshot_interval l) (saved_at_index l)
         (S (next_group_id l)) (Some (next_group_id l)) 1
  else mkLog (entries l) (current_index l) (snapshots l) (snapshot_interval l) (saved_at_index l)
         (next_group_id l) (current_group l) (S (group_depth l)).

Definition end_undo_group (l : EventLog) : EventLog :=
  match group_depth l with
  | 0 => l
  | S depth =>
      mkLog (entries l) (current_index l) (snapshots l) (snapshot_interval l) (saved_at_index l)
        (next_group_id l) (if decide (depth = 0) then None else current_group l) depth
  end.

Definition set_saved_at (l : EventLog) (saved : option nat) : EventLog :=
  mkLog (entries l) (current_index l) (snapshots l) (snapshot_interval l) saved
    (next_group_id l) (current_group l) (group_depth l).

Definition log_mark_saved (l : EventLog) : EventLog := set_saved_at l (Some (current_index l)).

Definition clear_saved_position (l : EventLog) : EventLog := set_saved_at l None.

Definition is_at_saved_position (l : EventLog) : res bool :=
  match saved_at_index l with
  | None => Ok false
  | Some saved_idx =>
      if decide (saved_idx = current_index l) then Ok true else
      let '(start, end_) :=
        if decide (saved_idx < current_index l) then (saved_idx, current_index l)
        else (current_index l, saved_idx) in
      range ← slice (entries l) start end_;
      Ok (forallb (fun entry => negb (modifies_buffer (le_event entry))) range)
  end.

(** The log with other entries and another position. *)
Definition set_entries (l : EventLog) (es : list LogEntry) (index : nat) : EventLog :=
  mkLog es index (snapshots l) (snapshot_interval l) (saved_at_index l)
    (next_group_id l) (current_group l) (group_depth l).

(** Pushing the new entry; [self.current_index - 1] is the index returned. *)
Definition push_entry (l : EventLog) (now : Z) (event : Event) : EventLog * nat :=
  let e := entry_new now event in
  let e := mkEntry (le_event e) (le_timestamp e) (le_description e) (le_displaced_markers e)
             (current_group l) in
  let es := entries l ++ [e] in
  (set_entries l es (length es), length es - 1).

Definition append (l : EventLog) (now : Z) (event : Event) : EventLog * nat :=
  if decide (current_index l < length (entries l)) then
    if is_write_action event then
      let l := set_entries l (take (current_index l) (entries l)) (current_index l) in
      let l := match saved_at_index l with
               | Some saved_idx =>
                   if decide (current_index l < saved_idx) then set_saved_at l None else l
               | None => l
               end in
      push_entry l now event
    else (l, current_index l)
  else push_entry l now event.

Definition set_displaced_markers_on_last (l : EventLog) (markers : list (Z * nat)) : EventLog :=
  set_entries l
    (alter (fun e => mkEntry (le_event e) (le_timestamp e) (le_description e) markers (le_group_id e))
       (length (entries l) - 1) (entries l))
    (current_index l).

Definition can_undo (l : EventLog) : bool := bool_decide (0 < current_index l).
Definition can_redo (l : EventLog) : bool := bool_decide (current_index l < length (entries l)).

(** Whether the walk of [undo] or [redo] stops before an entry, once a write action
    of the group [group] was found. *)
Definition stops (group entry_group : option nat) : bool :=
  match group with
  | None => true
  | Some g => negb (bool_decide (entry_group = Some g))
  end.

Section undo.
Context (undo_sentinel : nat).

Fixpoint undo_loop (es : list LogEntry) (index : nat) (found : bool) (group : option nat)
    (inverses : list (Event * list (Z * nat))) : res (nat * list (Event * list (Z * nat))) :=
  match index with
  | 0 => Ok (0, inverses)
  | S idx =>
      match es !! idx with
      | None => Panic
      | Some entry =>
          let is_write := is_write_action (le_event entry) in
          let entry_group := le_group_id entry in
          if found && stops group entry_group then Ok (index, inverses) else
          let '(found, group) :=
            if is_write && negb found then (true, entry_group) else (found, group) in
          let inverses :=
            match inverse undo_sentinel (le_event entry) with
            | Some i => inverses ++ [(i, le_displaced_markers entry)]
            | None => inverses
            end in
          undo_loop es idx found group inverses
      end
  end.

Definition undo (l : EventLog) : res (EventLog * list (Event * list (Z * nat))) :=
  '(index, inverses) ← undo_loop (entries l) (current_index l) false None [];
  Ok (set_entries l (entries l) index, inverses).
End undo.

(** The entries still ahead are [rest]; [index] is the position of the first. *)
Fixpoint redo_loop (rest : list LogEntry) (index : nat) (found : bool) (group : option nat)
    (events : list Event) : nat * list Event :=
  match rest with
  | [] => (index, events)
  | entry :: rest =>
      let is_write := is_write_action (le_event entry) in
      let entry_group := le_group_id entry in
      if found && is_write && stops group entry_group then (index, events) else
      let '(found, group) :=
        if is_write && negb found then (true, entry_group) else (found, group) in
      redo_loop rest (S index) found group (events ++ [le_event entry])
  end.

Definition redo (l : EventLog) : EventLog * list Event :=
  let '(index, events) :=
    redo_loop (drop (current_index l) (entries l)) (current_index l) false None [] in
  (set_entries l (entries l) index, events).

Definition log_clear (l : EventLog) : EventLog :=
  mkLog [] 0 [] (snapshot_interval l) (saved_at_index l) (next_group_id l) (current_group l)
    (group_depth l).
