(* ===== verification/EventLogInv.v ===== *)
(** * Undo and redo

    Sessions of edits, undo and redo on a buffer and its log, as a reachability
    relation.  The invariant: the log's entries are the steps of a history of texts,
    the buffer holds the text of the current position, and no undo group is cut by it.
    It makes undo and redo exact and the saved position sound. *)
From stdpp Require Import base numbers list option strings.
From Stdlib Require Import ssreflect Strings.Byte ZArith.
From S2P Require Import Prelude TextSpec PieceTree StringBuffer TextBuffer TextBufferInv.
From S2P Require Import BufferFormat Event EventText EventLog.

(** ** Groups and positions *)
Abbreviation is_write e := (is_write_action (le_event e)).

(** No write action among the entries from [a] to [b]. *)
Definition quiet (es : list LogEntry) (a b : nat) : Prop :=
  forall k e, a <= k < b -> es !! k = Some e -> is_write e = false.

(** The entries of a group are consecutive. *)
Definition contiguous (es : list LogEntry) : Prop :=
  forall i j k ei ej ek g, i <= j <= k -> es !! i = Some ei -> es !! j = Some ej -> es !! k = Some ek ->
  le_group_id ei = Some g -> le_group_id ek = Some g -> le_group_id ej = Some g.

(** No group has write actions on both sides of a position. *)
Definition uncut (es : list LogEntry) (cur : nat) : Prop :=
  forall i j ei ej g, i < cur <= j -> es !! i = Some ei -> es !! j = Some ej ->
  is_write ei = true -> is_write ej = true -> le_group_id ei = Some g -> le_group_id ej <> Some g.

(** Where the walk of [undo] stops once it found a write action of [group] at or
    after [i]. *)
Definition undo_end (es : list LogEntry) (group : option nat) (i j : nat) : Prop :=
  j <= i /\ (group = None -> j = i)
  /\ (forall k e, j <= k < i -> es !! k = Some e -> le_group_id e = group)
  /\ (forall e, 0 < j -> es !! (j - 1) = Some e -> is_Some group -> le_group_id e <> group).

(** Where [undo] from [i] stops: at the start if there is nothing to undo, else
    around the last write action [w]. *)
Definition undo_stop (es : list LogEntry) (i j : nat) : Prop :=
  (quiet es 0 i /\ j = 0)
  \/ exists w e, w < i /\ es !! w = Some e /\ is_write e = true /\ quiet es (S w) i
     /\ undo_end es (le_group_id e) w j.

Section undo.
Context (undo_sentinel : nat).
Local Abbreviation inverse := (inverse undo_sentinel).
Local Abbreviation undo_loop := (undo_loop undo_sentinel).

(** The inverses of the entries from [j] up to [i], last first. *)
Fixpoint undone (es : list LogEntry) (j n : nat) : list (Event * list (Z * nat)) :=
  match n with
  | 0 => []
  | S n =>
      match es !! (j + n) with
      | Some e => match inverse (le_event e) with
                  | Some i => [(i, le_displaced_markers e)] | None => [] end
      | None => []
      end ++ undone es j n
  end.

Lemma undo_loop_found es group i acc :
  i <= length es ->
  exists j, undo_loop es i true group acc = Ok (j, acc ++ undone es j (i - j)) /\ undo_end es group i j.
Proof.
  revert acc. induction i as [|i IH]; intros acc Hi; cbn [EventLog.undo_loop].
  { exists 0. rw app_nil_r. split; [done|]. split_and!; [done..|intros; lia|intros; lia]. }
  destruct (lookup_lt_is_Some_2 es i) as [e He]; [lia|]. rw He. cbn [andb negb].
  rw andb_false_r. destruct (stops group (le_group_id e)) eqn:Hs.
  - exists (S i). rw Nat.sub_diag app_nil_r. split; [done|]. split_and!; [done..|intros; lia|].
    intros e' _ He' [g ->]. simpl in He', Hs. rw Nat.sub_0_r He in He'. injection He' as <-.
    by apply negb_true_iff, bool_decide_eq_false in Hs.
  - unfold stops in Hs. destruct group as [g|]; [|done].
    apply negb_false_iff, bool_decide_eq_true in Hs.
    set (acc' := match inverse _ with Some i => acc ++ [(i, _)] | None => acc end).
    destruct (IH acc' ltac:(lia)) as (j & -> & Hj & _ & Hk & Hl).
    exists j. split.
    + do 2 f_equal. replace (S i - j) with (S (i - j)) by lia. cbn [undone].
      replace (j + (i - j)) with i by lia. rw He. unfold acc'.
      destruct (inverse (le_event e)); [by rw -app_assoc|done].
    + split_and!; [lia|done| |done]. intros k e' Hkr He'. destruct (decide (k = i)) as [->|].
      * rw He in He'. by injection He' as <-.
      * apply (Hk k); [lia|done].
Qed.

Lemma undo_loop_ok es i acc :
  i <= length es ->
  exists j, undo_loop es i false None acc = Ok (j, acc ++ undone es j (i - j)) /\ undo_stop es i j.
Proof.
  revert acc. induction i as [|i IH]; intros acc Hi; cbn [EventLog.undo_loop].
  { exists 0. rw app_nil_r. split; [done|]. left. split; [|done]. intros k e Hk. lia. }
  destruct (lookup_lt_is_Some_2 es i) as [e He]; [lia|]. rw He. cbn [andb negb]. rw andb_true_r.
  set (acc' := match inverse _ with Some i => acc ++ [(i, _)] | None => acc end).
  assert (forall j, j <= i -> acc ++ undone es j (S i - j) = acc' ++ undone es j (i - j)) as Hacc.
  { intros j Hj. replace (S i - j) with (S (i - j)) by lia. cbn [undone].
    replace (j + (i - j)) with i by lia. rw He. unfold acc'.
    destruct (inverse (le_event e)); [by rw -app_assoc|done]. }
  destruct (is_write e) eqn:Hw.
  - destruct (undo_loop_found es (le_group_id e) i acc' ltac:(lia)) as (j & -> & Hj).
    exists j. split; [rw Hacc //; apply Hj|]. right. exists i, e. split_and!; [lia|done..| |done].
    intros k e' Hk. lia.
  - destruct (IH acc' ltac:(lia)) as (j & -> & Hj). exists j.
    assert (j <= i) as Hji.
    { destruct Hj as [[_ ->]|(w & e' & Hwi & _ & _ & _ & Hend & _)]; lia. }
    split; [by rw Hacc|]. 
    assert (forall a, quiet es a i -> quiet es a (S i)) as Hq.
    { intros a Ha k e' Hk He'. destruct (decide (k = i)) as [->|]; [rw He in He'; by injection He' as <-|].
      apply (Ha k); [lia|done]. }
    destruct Hj as [[Hqu ->]|(w & e' & Hwi & ? & ? & ? & ?)]; [left; by auto|right].
    exists w, e'. split_and!; [lia|done..|by apply Hq|done].
Qed.
End undo.

(** Where [redo] stops once it found a write action of [group] before [k]. *)
Definition redo_end (es : list LogEntry) (group : option nat) (k m : nat) : Prop :=
  k <= m <= length es
  /\ (forall x e, k <= x < m -> es !! x = Some e -> is_write e = true ->
        is_Some group /\ le_group_id e = group)
  /\ (forall e, es !! m = Some e -> is_write e = true /\ stops group (le_group_id e) = true).

Definition redo_stop (es : list LogEntry) (k m : nat) : Prop :=
  (quiet es k (length es) /\ m = length es)
  \/ exists w e, k <= w /\ es !! w = Some e /\ is_write e = true /\ quiet es k w
     /\ redo_end es (le_group_id e) (S w) m.

Lemma redo_events es k m :
  k < m -> m <= length es ->
  exists e, es !! k = Some e
  /\ le_event <$> take (m - k) (drop k es) = le_event e :: (le_event <$> take (m - S k) (drop (S k) es)).
Proof.
  intros Hk Hm. destruct (lookup_lt_is_Some_2 es k) as [e He]; [lia|]. exists e. split; [done|].
  rw (drop_S _ _ _ He). replace (m - k) with (S (m - S k)) by lia. done.
Qed.

Lemma redo_loop_found es group k acc :
  k <= length es ->
  exists m, redo_loop (drop k es) k true group acc = (m, acc ++ (le_event <$> take (m - k) (drop k es)))
  /\ redo_end es group k m.
Proof.
  remember (length es - k) as n eqn:Hn. revert k acc Hn.
  induction n as [|n IH]; intros k acc Hn Hk.
  { exists k. rw Nat.sub_diag app_nil_r drop_ge; [lia|]. split; [done|].
    split_and!; [lia|lia|intros; lia|]. intros e He%lookup_lt_Some. lia. }
  destruct (lookup_lt_is_Some_2 es k) as [e He]; [lia|]. rw {1}(drop_S _ _ _ He). cbn [redo_loop andb negb].
  rw andb_false_r. destruct (is_write e && stops group (le_group_id e)) eqn:Hs.
  - apply andb_true_iff in Hs as [Hw Hs]. exists k. rw Nat.sub_diag app_nil_r. split; [done|].
    split_and!; [lia|lia|intros; lia|]. intros e' He'. rw He in He'. by injection He' as <-.
  - destruct (IH (S k) (acc ++ [le_event e])) as (m & -> & Hm & Hx & Hend); [lia..|].
    destruct (redo_events es k m) as (e' & He' & Hev); [lia..|]. rw He in He'. injection He' as <-.
    exists m. split; [by rw Hev -app_assoc|]. split_and!; [lia|lia| |done].
    intros x e' Hxr He' Hw. destruct (decide (x = k)) as [->|]; [|apply (Hx x); [lia|done..]].
    rw He in He'. injection He' as <-. rw Hw /= in Hs. unfold stops in Hs. destruct group as [g|]; [|done].
    apply negb_false_iff, bool_decide_eq_true in Hs. by eauto.
Qed.

Lemma redo_loop_ok es k acc :
  k <= length es ->
  exists m, redo_loop (drop k es) k false None acc = (m, acc ++ (le_event <$> take (m - k) (drop k es)))
  /\ k <= m <= length es /\ redo_stop es k m.
Proof.
  remember (length es - k) as n eqn:Hn. revert k acc Hn.
  induction n as [|n IH]; intros k acc Hn Hk.
  { exists k. rw Nat.sub_diag app_nil_r drop_ge; [lia|]. split; [done|]. split; [lia|]. left.
    split; [|lia]. intros x e Hx He%lookup_lt_Some. lia. }
  destruct (lookup_lt_is_Some_2 es k) as [e He]; [lia|]. rw {1}(drop_S _ _ _ He). cbn [redo_loop andb negb].
  rw andb_true_r. destruct (is_write e) eqn:Hw.
  - destruct (redo_loop_found es (le_group_id e) (S k) (acc ++ [le_event e])) as (m & -> & Hm); [lia|].
    pose proof Hm as (Hmr & _). destruct (redo_events es k m) as (e' & He' & Hev); [lia..|].
    rw He in He'. injection He' as <-. exists m. split; [by rw Hev -app_assoc|]. split; [lia|]. right.
    exists k, e. split_and!; [done..| |done]. intros x e' Hx. lia.
  - destruct (IH (S k) (acc ++ [le_event e])) as (m & -> & Hmr & Hm); [lia..|].
    destruct (redo_events es k m) as (e' & He' & Hev); [lia..|].
    rw He in He'. injection He' as <-. exists m. split; [by rw Hev -app_assoc|]. split; [lia|].
    assert (forall b, quiet es (S k) b -> quiet es k b) as Hq.
    { intros b Hb x e' Hx He'. destruct (decide (x = k)) as [->|]; [rw He in He'; by injection He' as <-|].
      apply (Hb x); [lia|done]. }
    destruct Hm as [[Hqu ->]|(w & e' & ? & ? & ? & ? & ?)]; [left; by auto|right].
    exists w, e'. split_and!; [lia|done..|by apply Hq|done].
Qed.

(** ** Undo and redo keep groups whole *)
Lemma uncut_undo es i j : contiguous es -> i <= length es -> undo_stop es i j -> uncut es j.
Proof.
  intros Hc Hi [[_ ->]|(w & e & Hwi & He & Hw & _ & Hend)] a b ea eb g Hab Ha Hb Hwa Hwb Hga; [lia|].
  intros Hgb. destruct Hend as (Hj & Hnone & Hall & Hstop).
  assert (le_group_id e = Some g) as Hg.
  { destruct (decide (w <= b)); [apply (Hc a w b ea e eb); [lia|done..]|].
    rw -(Hall b eb) //. lia. }
  destruct (lookup_lt_is_Some_2 es (j - 1)) as [e' He'].
  { pose proof (lookup_lt_Some _ _ _ He). lia. }
  apply (Hstop e'); [lia|done|by rw Hg|]. rw Hg. apply (Hc a (j - 1) b ea e' eb g); [lia|done..].
Qed.

Lemma uncut_redo es k m : contiguous es -> k <= m <= length es -> redo_stop es k m -> uncut es m.
Proof.
  intros Hc Hm [[_ ->]|(w & e & Hwi & He & Hw & _ & Hend)] a b ea eb g Hab Ha Hb Hwa Hwb Hga Hgb.
  { apply lookup_lt_Some in Hb. lia. }
  destruct Hend as (Hr & Hall & Hstop).
  destruct (lookup_lt_is_Some_2 es m) as [em Hem]; [apply lookup_lt_Some in Hb; lia|].
  assert (le_group_id em = Some g) as Hgm by (apply (Hc a m b ea em eb); [lia|done..]).
  assert (le_group_id e = Some g) as Hg.
  { destruct (decide (a <= w)) as [Haw|Haw]; [apply (Hc a w b ea e eb); [lia|done..]|].
    destruct (Hall a ea) as [_ <-]; [lia|done..]. }
  destruct (Hstop em Hem) as [_ Hs]. rw Hg Hgm in Hs. simpl in Hs. by rw bool_decide_eq_true_2 in Hs.
Qed.

(** Redo after an undo that found something comes back to the position, or past it
    over entries that change nothing. *)
Lemma undo_redo_position es i j m w e :
  contiguous es -> uncut es i -> i <= length es ->
  w < i -> es !! w = Some e -> is_write e = true -> quiet es (S w) i -> undo_end es (le_group_id e) w j ->
  j <= m <= length es -> redo_stop es j m -> i <= m /\ quiet es i m.
Proof.
  intros Hc Hu Hi Hwi He Hw Hq (Hj & Hnone & Hall & _) Hm [[Hqu ->]|(w0 & e0 & Hjw & He0 & Hw0 & Hq0 & Hend)].
  { exfalso. rw (Hqu w e) // in Hw. lia. }
  destruct Hend as (Hr & Hin & Hstop).
  assert (w0 <= w) as Hw0w.
  { destruct (decide (w0 <= w)); [done|]. exfalso. rw (Hq0 w e) // in Hw. lia. }
  assert (le_group_id e0 = le_group_id e) as Hg.
  { destruct (decide (w0 = w)) as [->|]; [congruence|]. apply (Hall w0); [lia|done]. }
  assert (i <= m) as Him.
  { destruct (decide (i <= m)); [done|]. exfalso.
    destruct (lookup_lt_is_Some_2 es m) as [em Hem]; [lia|].
    destruct (Hstop em Hem) as [Hwm Hs]. rw Hg in Hs.
    destruct (decide (m <= w)) as [Hmw|]; [|rw (Hq m em) // in Hwm; lia].
    assert (is_Some (le_group_id e)) as [g Hgs].
    { destruct (le_group_id e) as [g|]; [by eexists|]. rw (Hnone eq_refl) in Hjw. lia. }
    assert (le_group_id em = Some g) as Hgm.
    { destruct (decide (m = w)) as [->|]; [congruence|]. rw -Hgs. apply (Hall m); [lia|done]. }
    rw Hgs Hgm /= bool_decide_eq_true_2 // in Hs. }
  split; [done|]. intros x ex Hx Hex. destruct (is_write ex) eqn:Hwx; [|done]. exfalso.
  destruct (Hin x ex) as [[g Hgs] Hgx]; [lia|done..|].
  apply (Hu w x e ex g); [lia|done..|congruence|congruence].
Qed.

(** ** Undo groups *)
Definition groups_inv (l : EventLog) : Prop :=
  contiguous (entries l)
  /\ (forall i e g, entries l !! i = Some e -> le_group_id e = Some g -> g < next_group_id l)
  /\ (group_depth l = 0 -> current_group l = None)
  /\ (forall g, current_group l = Some g -> g < next_group_id l
      /\ forall i j ei ej, i <= j -> entries l !! i = Some ei -> entries l !! j = Some ej ->
           le_group_id ei = Some g -> le_group_id ej = Some g).

Lemma groups_truncate l n :
  groups_inv l -> groups_inv (set_entries l (take n (entries l)) n).
Proof.
  intros (Hc & Hlt & Hd & Ho).
  assert (forall i e, take n (entries l) !! i = Some e -> entries l !! i = Some e) as Hl.
  { intros i e H. apply lookup_take_Some in H as [? _]. done. }
  split_and!; cbn; [|by eauto|done|].
  - intros i j k ei ej ek g Hij Hi%Hl Hj%Hl Hk%Hl. by apply (Hc i j k).
  - intros g Hg. destruct (Ho g Hg) as [? Hsuf]. split; [done|].
    intros i j ei ej Hij Hi%Hl Hj%Hl. by apply (Hsuf i j).
Qed.

Lemma groups_saved l sv : groups_inv l -> groups_inv (set_saved_at l sv).
Proof. done. Qed.

Lemma groups_index l n : groups_inv l -> groups_inv (set_entries l (entries l) n).
Proof. done. Qed.

Lemma groups_push l now e : groups_inv l -> groups_inv (push_entry l now e).1.
Proof.
  intros (Hc & Hlt & Hd & Ho). unfold push_entry, groups_inv. cbn.
  set (new := mkEntry e now None [] (current_group l)). set (es := entries l) in *.
  assert (forall i x, (es ++ [new]) !! i = Some x -> es !! i = Some x \/ (i = length es /\ x = new)) as Hl.
  { intros i x [H|[Hge H]]%lookup_app_Some; [by left|right].
    apply list_lookup_singleton_Some in H as [? <-]. split; [lia|done]. }
  assert (forall i x, es !! i = Some x -> i < length es) as Hb
    by (intros i x; apply lookup_lt_Some).
  assert (forall i j ei ej g, i <= j -> es !! i = Some ei -> (es ++ [new]) !! j = Some ej ->
    le_group_id ei = Some g -> current_group l = Some g -> le_group_id ej = Some g) as Hsuf.
  { intros i j ei ej g Hij Hi Hj Hgi Hg. destruct (Ho g Hg) as [_ H].
    apply Hl in Hj as [Hj|[_ ->]]; [by apply (H i j ei ej)|done]. }
  split_and!; [| |done|].
  - intros i j k ei ej ek g Hij Hi Hj Hk Hgi Hgk. apply Hl in Hk as [Hk|[-> ->]].
    + apply Hl in Hi as [Hi|[-> _]]; [|apply Hb in Hk; lia].
      apply Hl in Hj as [Hj|[-> _]]; [|apply Hb in Hk; lia]. by apply (Hc i j k ei ej ek).
    + cbn in Hgk. apply Hl in Hi as [Hi|[-> ->]].
      * apply (Hsuf i j ei); [lia|done..].
      * assert (j = length es) as -> by lia. apply Hl in Hj as [Hj|[_ ->]]; [apply Hb in Hj; lia|done].
  - intros i x g [Hx|[_ ->]]%Hl Hg; [by apply (Hlt i x)|]. cbn in Hg. by destruct (Ho g Hg).
  - intros g Hg. destruct (Ho g Hg) as [? _]. split; [done|]. intros i j ei ej Hij Hi Hj Hgi.
    apply Hl in Hi as [Hi|[-> ->]]; [by apply (Hsuf i j ei)|].
    apply Hl in Hj as [Hj|[_ ->]]; [apply Hb in Hj; lia|done].
Qed.

Lemma groups_append l now e : groups_inv l -> groups_inv (append l now e).1.
Proof.
  intros H. unfold append. case_decide; [|by apply groups_push].
  destruct (is_write_action e); [|done]. apply groups_push.
  pose proof (groups_truncate l (current_index l) H) as Ht.
  cbn. destruct (saved_at_index l); [|done]. by case_decide.
Qed.

Lemma groups_begin l : groups_inv l -> groups_inv (begin_undo_group l).
Proof.
  intros (Hc & Hlt & Hd & Ho). unfold begin_undo_group. case_decide; last first.
  { split_and!; cbn; [exact Hc|exact Hlt|lia|exact Ho]. }
  split_and!; cbn; [done| |done|].
  - intros i e g Hi Hg. specialize (Hlt i e g Hi Hg). lia.
  - intros g [= <-]. split; [lia|]. intros i j ei ej _ Hi _ Hg. specialize (Hlt i ei _ Hi Hg). lia.
Qed.

Lemma groups_end l : groups_inv l -> groups_inv (end_undo_group l).
Proof.
  intros (Hc & Hlt & Hd & Ho). unfold end_undo_group. destruct (group_depth l) as [|n] eqn:En.
  { split_and!; [exact Hc|exact Hlt|by rw En|exact Ho]. }
  split_and!; cbn; [done..| |].
  - intros ->. by case_decide.
  - intros g. case_decide; [done|]. apply Ho.
Qed.

Lemma groups_displaced l ms : groups_inv l -> groups_inv (set_displaced_markers_on_last l ms).
Proof.
  intros (Hc & Hlt & Hd & Ho). unfold set_displaced_markers_on_last. cbn.
  set (f := fun e => mkEntry _ _ _ ms _). set (es' := alter f _ (entries l)).
  assert (forall i e, es' !! i = Some e -> exists e0, entries l !! i = Some e0 /\ le_group_id e = le_group_id e0)
    as Hl.
  { intros i e. unfold es'. destruct (decide (length (entries l) - 1 = i)) as [<-|].
    - rw list_lookup_alter_eq. intros (e0 & H0 & ->)%fmap_Some. by exists e0.
    - rw list_lookup_alter_ne //. by exists e. }
  split_and!; cbn; [| |done|].
  - intros i j k ei ej ek g Hij (? & Hi & ->)%Hl (? & Hj & ->)%Hl (? & Hk & ->)%Hl. by apply (Hc i j k).
  - intros i e g (? & Hi & ->)%Hl. by apply (Hlt i).
  - intros g Hg. destruct (Ho g Hg) as [? Hsuf]. split; [done|].
    intros i j ei ej Hij (? & Hi & ->)%Hl (? & Hj & ->)%Hl. by apply (Hsuf i j).
Qed.

(** ** Histories *)
Section session.
Context (files : string -> list byte) (undo_sentinel : nat).
Context {io_error : Type} (fs_read_range : string -> nat -> nat -> io_error + list byte).
Hypothesis Hread : forall path off n d, fs_read_range path off n = inr d ->
  d = take n (drop off (files path)) /\ length d = n.

Local Abbreviation inverse := (inverse undo_sentinel).
Local Abbreviation event_text := (event_text files).
Local Abbreviation events_text := (events_text files).
Local Abbreviation event_inv := (event_inv files).

(** Undo can take back whatever an event does to the text. *)
Definition undoable (e : Event) : Prop := inverse e = None -> modifies_buffer e = false.

Definition entry_step (e : LogEntry) (a b : list byte) : Prop :=
  event_inv (le_event e) /\ undoable (le_event e) /\ event_text (le_event e) a = Some b.

(** [H] holds the text at every position of the log. *)
Definition history (es : list LogEntry) (H : list (list byte)) : Prop :=
  length H = S (length es)
  /\ forall k e, es !! k = Some e ->
       exists a b, H !! k = Some a /\ H !! S k = Some b /\ entry_step e a b.

Lemma history_undone es H j n T :
  history es H -> j + n <= length es -> H !! (j + n) = Some T ->
  exists T', H !! j = Some T' /\ events_text (fst <$> undone undo_sentinel es j n) T = Some T'
  /\ Forall event_inv (fst <$> undone undo_sentinel es j n).
Proof.
  intros [Hl Hs]. revert T. induction n as [|n IH]; intros T Hn HT.
  { rw Nat.add_0_r in HT. by exists T. }
  destruct (lookup_lt_is_Some_2 es (j + n)) as [e He]; [lia|].
  destruct (Hs _ _ He) as (a & b & Ha & Hb & Hinv & Hun & Hev).
  replace (j + S n) with (S (j + n)) in HT by lia. rw Hb in HT. injection HT as <-.
  destruct (IH a) as (T' & HT' & Htx & Hall); [lia|done|]. exists T'. split; [done|].
  cbn [undone]. rw He fmap_app events_text_app Forall_app. destruct (inverse (le_event e)) as [i|] eqn:Hi.
  - cbn [fmap list_fmap fst EventText.events_text]. rw (inverse_text files undo_sentinel _ _ _ _ Hi Hev). split; [done|].
    split; [|done]. apply Forall_singleton. by apply (inverse_inv files undo_sentinel (le_event e)).
  - rw (readonly_text files _ _ _ (Hun Hi) Hev) in Htx |- *. done.
Qed.

Lemma history_redone es H k m T :
  history es H -> k <= m <= length es -> H !! k = Some T ->
  exists T', H !! m = Some T' /\ events_text (le_event <$> take (m - k) (drop k es)) T = Some T'
  /\ Forall event_inv (le_event <$> take (m - k) (drop k es)).
Proof.
  intros Hh. remember (m - k) as n eqn:Hn. revert k T Hn. induction n as [|n IH]; intros k T Hn Hk HT.
  { assert (m = k) as -> by lia. by exists T. }
  destruct (lookup_lt_is_Some_2 es k) as [e He]; [lia|].
  destruct (proj2 Hh _ _ He) as (a & b & Ha & Hb & Hinv & _ & Hev). rw HT in Ha. injection Ha as <-.
  destruct (IH (S k) b) as (T' & HT' & Htx & Hall); [lia..|done|]. exists T'. split; [done|].
  rw (drop_S _ _ _ He). cbn [take fmap list_fmap EventText.events_text]. rw Hev. split; [done|].
  by constructor.
Qed.

Lemma history_still es H a b :
  history es H -> a <= b <= length es ->
  (forall k e, a <= k < b -> es !! k = Some e -> modifies_buffer (le_event e) = false) ->
  H !! b = H !! a.
Proof.
  intros [Hl Hs]. remember (b - a) as n eqn:Hn. revert a Hn.
  induction n as [|n IH]; intros a Hn Hab Hq; [by replace b with a by lia|].
  destruct (lookup_lt_is_Some_2 es a) as [e He]; [lia|].
  destruct (Hs _ _ He) as (x & y & Hx & Hy & _ & _ & Hev).
  rw (IH (S a)); [lia|lia|intros k ek Hk; apply Hq; lia|]. rw Hx Hy. f_equal.
  apply (readonly_text files (le_event e)); [|done]. apply (Hq a); [lia|done].
Qed.

Lemma history_quiet es H a b :
  history es H -> quiet es a b -> a <= b <= length es -> H !! b = H !! a.
Proof.
  intros Hh Hq Hab. apply (history_still es); [done..|]. intros k e Hk He.
  destruct (modifies_buffer (le_event e)) eqn:Hm; [|done]. apply write_of_modifies in Hm.
  by rw (Hq k e) in Hm.
Qed.

Lemma history_range es H a b :
  history es H -> a <= b <= length es ->
  forallb (fun e => negb (modifies_buffer (le_event e))) (take (b - a) (drop a es)) = true ->
  H !! b = H !! a.
Proof.
  intros Hh Hab Hall. rw forallb_forall in Hall. apply (history_still es); [done..|].
  intros k e Hk He. apply negb_true_iff, Hall. apply list_elem_of_In, list_elem_of_lookup.
  exists (k - a). rw lookup_take_lt; [lia|]. rw lookup_drop. by replace (a + (k - a)) with k by lia.
Qed.

Lemma history_truncate es H n :
  history es H -> n <= length es -> history (take n es) (take (S n) H).
Proof.
  intros [Hl Hs] Hn. split; [rw !length_take; lia|]. intros k e [He Hk]%lookup_take_Some.
  destruct (Hs _ _ He) as (a & b & Ha & Hb & Hst). exists a, b. by rw !lookup_take_lt; [lia..|].
Qed.

Lemma history_push es H e T T' :
  history es H -> H !! length es = Some T -> entry_step e T T' -> history (es ++ [e]) (H ++ [T']).
Proof.
  intros [Hl Hs] HT Hst. split; [rw !length_app Hl; done|].
  intros k x [Hx|[Hge Hx]]%lookup_app_Some.
  - destruct (Hs _ _ Hx) as (a & b & Ha & Hb & ?). exists a, b.
    split_and!; [by apply lookup_app_l_Some..|done].
  - apply list_lookup_singleton_Some in Hx as [? <-]. assert (k = length es) as -> by lia.
    exists T, T'. split_and!; [by apply lookup_app_l_Some|by rw -Hl list_lookup_middle|done].
Qed.

(** ** Sessions *)
Record session : Type := mkSession { s_buffer : TextBuffer; s_log : EventLog }.

Definition s_text (s : session) : list byte := tb_text files (s_buffer s).

Definition do_event (now : Z) (e : Event) (s : session) : res session :=
  tb ← apply_to_buffer fs_read_range e (s_buffer s);
  Ok (mkSession tb (append (s_log s) now e).1).

Definition do_undo (s : session) : res session :=
  '(l, inverses) ← undo undo_sentinel (s_log s);
  tb ← apply_events fs_read_range (fst <$> inverses) (s_buffer s);
  Ok (mkSession tb l).

Definition do_redo (s : session) : res session :=
  let '(l, events) := redo (s_log s) in
  tb ← apply_events fs_read_range events (s_buffer s);
  Ok (mkSession tb l).

(** The sessions that can be reached, with the text that was last saved. *)
Inductive reach : session -> list byte -> Prop :=
| reach_new tb : tb_inv files tb -> reach (mkSession tb log_new) (tb_text files tb)
| reach_do s sv now e s' :
    reach s sv -> event_inv e -> undoable e -> is_Some (event_text e (s_text s)) ->
    do_event now e s = Ok s' -> reach s' sv
| reach_undo s sv s' : reach s sv -> do_undo s = Ok s' -> reach s' sv
| reach_redo s sv s' : reach s sv -> do_redo s = Ok s' -> reach s' sv
| reach_begin s sv : reach s sv -> reach (mkSession (s_buffer s) (begin_undo_group (s_log s))) sv
| reach_end s sv : reach s sv -> reach (mkSession (s_buffer s) (end_undo_group (s_log s))) sv
| reach_displaced s sv ms :
    reach s sv -> reach (mkSession (s_buffer s) (set_displaced_markers_on_last (s_log s) ms)) sv
| reach_same_text s sv tb :
    reach s sv -> tb_inv files tb -> tb_text files tb = s_text s -> reach (mkSession tb (s_log s)) sv
| reach_save s sv : reach s sv -> reach (mkSession (s_buffer s) (log_mark_saved (s_log s))) (s_text s)
| reach_forget s sv : reach s sv -> reach (mkSession (s_buffer s) (clear_saved_position (s_log s))) sv.

(** [H] is the history of the session [s]. *)
Definition session_at (s : session) (sv : list byte) (H : list (list byte)) : Prop :=
  tb_inv files (s_buffer s) /\ groups_inv (s_log s)
  /\ uncut (entries (s_log s)) (current_index (s_log s))
  /\ history (entries (s_log s)) H
  /\ H !! current_index (s_log s) = Some (s_text s)
  /\ forall i, saved_at_index (s_log s) = Some i -> H !! i = Some sv.

Lemma history_index es H i T : history es H -> H !! i = Some T -> i <= length es.
Proof. intros [Hl _] Hi%lookup_lt_Some. lia. Qed.

(** Pushing an entry for an event that was applied. *)
Lemma push_entry_ok l H now e tb T T' sv :
  tb_inv files tb -> tb_text files tb = T' -> groups_inv l -> history (entries l) H ->
  H !! length (entries l) = Some T -> event_inv e -> undoable e -> event_text e T = Some T' ->
  (forall i, saved_at_index l = Some i -> H !! i = Some sv) ->
  session_at (mkSession tb (push_entry l now e).1) sv (H ++ [T']).
Proof.
  intros Hinv Htx Hg Hh HT Hev Hun Het Hsv. split_and!; [done|by apply groups_push|..]; cbn.
  - intros i j ei ej g Hij _ Hj%lookup_lt_Some. lia.
  - by apply (history_push _ _ _ T).
  - pose proof (proj1 Hh) as Hl. rw lookup_app_r; [rw length_app /=; lia|]. rw length_app Hl /=.
    replace (length (entries l) + 1 - S (length (entries l))) with 0 by lia. unfold s_text. by rw /= Htx.
  - intros i Hi. by apply lookup_app_l_Some, Hsv.
Qed.

Lemma do_event_ok s sv H now e T' :
  session_at s sv H -> event_inv e -> undoable e -> event_text e (s_text s) = Some T' ->
  exists s' H', do_event now e s = Ok s' /\ session_at s' sv H' /\ s_text s' = T'
  /\ s_log s' = (append (s_log s) now e).1
  /\ forall k, k <= current_index (s_log s) -> H' !! k = H !! k.
Proof.
  intros (Hinv & Hg & Hu & Hh & Hcur & Hsv) Hev Hun Het. unfold do_event.
  destruct (apply_to_buffer_ok files fs_read_range Hread e (s_buffer s) T' Hinv Hev Het)
    as (tb & -> & Hinv' & Htx). cbn [mbind res_bind].
  set (l := s_log s) in *. pose proof (history_index _ _ _ _ Hh Hcur) as Hci. pose proof (proj1 Hh) as Hlen.
  unfold append. case_decide as Hlt.
  - destruct (is_write_action e) eqn:Hw.
    + set (l1 := set_entries l (take (current_index l) (entries l)) (current_index l)).
      set (l2 := match saved_at_index l1 with Some _ => _ | None => l1 end).
      assert (entries l2 = take (current_index l) (entries l) /\ groups_inv l2
        /\ forall i, saved_at_index l2 = Some i -> i <= current_index l /\ H !! i = Some sv)
        as (He2 & Hg2 & Hsv2).
      { pose proof (groups_truncate l (current_index l) Hg) as Hgt. fold l1 in Hgt. unfold l2. cbn.
        destruct (saved_at_index l) as [i|] eqn:Ei; [|by rw Ei].
        case_decide; [done|]. cbn. split_and!; [done..|]. rw Ei. intros i' [= <-]. split; [lia|by apply Hsv]. }
      eexists _, (take (S (current_index l)) H ++ [T']). split; [done|]. split_and!; [|done..|].
      * apply (push_entry_ok l2 _ now e tb (s_text s) T'); [done|done|done|..|done|done|done|].
        -- rw He2. by apply history_truncate.
        -- rw He2 length_take Nat.min_l // lookup_take_lt //; lia.
        -- intros i Hi. destruct (Hsv2 i Hi). rw lookup_take_lt //. lia.
      * intros k Hk. rw lookup_app_l; [rw length_take; lia|]. rw lookup_take_lt //. lia.
    + assert (T' = s_text s) as ->.
      { apply (readonly_text files e); [|done]. destruct (modifies_buffer e) eqn:Hm; [|done].
        apply write_of_modifies in Hm. congruence. }
      eexists _, H. split; [done|]. split_and!; [|done..]. split_and!; [done..| |done].
      unfold s_text at 1. cbn. by rw Htx.
  - assert (current_index l = length (entries l)) as Hce by lia.
    eexists _, (H ++ [T']). split; [done|]. split_and!; [|done..|].
    + rw Hce in Hcur. by apply (push_entry_ok l H now e tb (s_text s) T').
    + intros k Hk. rw lookup_app_l //. lia.
Qed.

(** Moving the position of the log along its history. *)
Lemma move_ok s sv H i tb T :
  session_at s sv H -> H !! i = Some T -> uncut (entries (s_log s)) i ->
  tb_inv files tb -> tb_text files tb = T ->
  session_at (mkSession tb (set_entries (s_log s) (entries (s_log s)) i)) sv H.
Proof. intros (_ & Hg & _ & Hh & _ & Hsv) HT Hu Hinv <-. done. Qed.

Lemma do_undo_ok s sv H :
  session_at s sv H ->
  exists j s', do_undo s = Ok s' /\ session_at s' sv H
  /\ s_log s' = set_entries (s_log s) (entries (s_log s)) j
  /\ undo_stop (entries (s_log s)) (current_index (s_log s)) j.
Proof.
  intros Hs. pose proof Hs as (Hinv & Hg & Hu & Hh & Hcur & Hsv).
  pose proof (history_index _ _ _ _ Hh Hcur) as Hci. unfold do_undo, undo.
  destruct (undo_loop_ok undo_sentinel _ _ [] Hci) as (j & -> & Hj). cbn [mbind res_bind app].
  assert (j <= current_index (s_log s)) as Hji.
  { destruct Hj as [[_ ->]|(w & e & Hwi & _ & _ & _ & Hend & _)]; lia. }
  destruct (history_undone _ H j (current_index (s_log s) - j) (s_text s) Hh) as (T' & HT' & Htx & Hall);
    [lia|by replace (j + _) with (current_index (s_log s)) by lia|].
  destruct (apply_events_ok files fs_read_range Hread _ (s_buffer s) T' Hinv Hall Htx)
    as (tb & -> & Hinv' & Htx'). cbn [mbind res_bind].
  exists j. eexists. split; [done|]. split; [|done]. apply (move_ok s sv H j tb T'); [done..| |done|done].
  apply (uncut_undo _ (current_index (s_log s))); [apply Hg|done..].
Qed.

Lemma do_redo_ok s sv H :
  session_at s sv H ->
  exists m s', do_redo s = Ok s' /\ session_at s' sv H
  /\ s_log s' = set_entries (s_log s) (entries (s_log s)) m
  /\ current_index (s_log s) <= m <= length (entries (s_log s))
  /\ redo_stop (entries (s_log s)) (current_index (s_log s)) m.
Proof.
  intros Hs. pose proof Hs as (Hinv & Hg & Hu & Hh & Hcur & Hsv).
  pose proof (history_index _ _ _ _ Hh Hcur) as Hci. unfold do_redo, redo.
  destruct (redo_loop_ok _ _ [] Hci) as (m & -> & Hm & Hst). cbn [app].
  destruct (history_redone _ H (current_index (s_log s)) m (s_text s) Hh Hm Hcur) as (T' & HT' & Htx & Hall).
  destruct (apply_events_ok files fs_read_range Hread _ (s_buffer s) T' Hinv Hall Htx)
    as (tb & -> & Hinv' & Htx'). cbn [mbind res_bind].
  exists m. eexists. split; [done|]. split; [|done]. apply (move_ok s sv H m tb T'); [done..| |done|done].
  apply (uncut_redo _ (current_index (s_log s))); [apply Hg|done..].
Qed.

Lemma begin_ok s sv H :
  session_at s sv H -> session_at (mkSession (s_buffer s) (begin_undo_group (s_log s))) sv H.
Proof.
  intros (Hinv & Hg & Hu & Hh & Hcur & Hsv). pose proof (groups_begin _ Hg) as Hg'.
  unfold session_at, begin_undo_group in *. by case_decide.
Qed.

Lemma end_ok s sv H :
  session_at s sv H -> session_at (mkSession (s_buffer s) (end_undo_group (s_log s))) sv H.
Proof.
  intros (Hinv & Hg & Hu & Hh & Hcur & Hsv). pose proof (groups_end _ Hg) as Hg'.
  unfold session_at, end_undo_group in *. cbn in *. by destruct (group_depth (s_log s)).
Qed.

Lemma displaced_ok s sv H ms :
  session_at s sv H -> session_at (mkSession (s_buffer s) (set_displaced_markers_on_last (s_log s) ms)) sv H.
Proof.
  intros (Hinv & Hg & Hu & Hh & Hcur & Hsv). set (l := s_log s) in *.
  assert (forall i e, entries (set_displaced_markers_on_last l ms) !! i = Some e ->
    exists e0, entries l !! i = Some e0 /\ le_event e = le_event e0 /\ le_group_id e = le_group_id e0) as Hl.
  { intros i e. cbn. destruct (decide (length (entries l) - 1 = i)) as [<-|].
    - rw list_lookup_alter_eq. intros (e0 & H0 & ->)%fmap_Some. by exists e0.
    - rw list_lookup_alter_ne //. by exists e. }
  split_and!; [done|by apply groups_displaced|..|done|done].
  - intros i j ei ej g Hij (e1 & H1 & -> & ->)%Hl (e2 & H2 & -> & ->)%Hl. by apply (Hu i j).
  - destruct Hh as [Hlen Hst]. split; [cbn; by rw length_alter|].
    intros k e (e0 & H0 & He & _)%Hl. destruct (Hst k e0 H0) as (a & b & ? & ? & Hes).
    exists a, b. unfold entry_step. by rw He.
Qed.

Lemma reach_inv s sv : reach s sv -> exists H, session_at s sv H.
Proof.
  induction 1 as [tb Hinv|s sv now e s' _ [H IH] Hev Hun [T' Het] Hdo|s sv s' _ [H IH] Hdo|s sv s' _ [H IH] Hdo
    |s sv _ [H IH]|s sv _ [H IH]|s sv ms _ [H IH]|s sv tb _ [H IH] Hinv Htx|s sv _ [H IH]|s sv _ [H IH]].
  - exists [tb_text files tb]. split_and!; [done| |by intros i j ei ej g Hij; cbn in *; lia|by split|done|].
    + split_and!; cbn; [by intros i j k ei ej ek g|by intros|done|done].
    + by intros i [= <-].
  - destruct (do_event_ok s sv H now e T' IH Hev Hun Het) as (s1 & H' & H1 & ? & _). exists H'. congruence.
  - destruct (do_undo_ok s sv H IH) as (j & s1 & H1 & ? & _). exists H. congruence.
  - destruct (do_redo_ok s sv H IH) as (j & s1 & H1 & ? & _). exists H. congruence.
  - exists H. by apply begin_ok.
  - exists H. by apply end_ok.
  - exists H. by apply displaced_ok.
  - exists H. destruct IH as (_ & Hg & Hu & Hh & Hcur & Hsv). split_and!; [done..| |done].
    unfold s_text at 1. cbn. by rw Htx.
  - exists H. destruct IH as (Hinv & Hg & Hu & Hh & Hcur & Hsv). split_and!; [done..|]. by intros i [= <-].
  - exists H. by destruct IH as (Hinv & Hg & Hu & Hh & Hcur & Hsv).
Qed.


(** C10: the saved position is sound.  Take a session from a fresh log that applies events,
    undoes, redoes, opens and closes groups, records displaced markers, loads, saves and
    forgets the saved position, but does not clear the log, and where every event fits the
    text it is applied to and can be undone (an event without inverse changes no text).
    There asking whether the log is at its saved position never panics, and a positive answer
    means that the buffer holds the text that was last saved. *)
Theorem saved_position_sound s sv :
  reach s sv -> exists b, is_at_saved_position (s_log s) = Ok b /\ (b = true -> s_text s = sv).
Proof.
  intros [H (_ & _ & _ & Hh & Hcur & Hsv)]%reach_inv. unfold is_at_saved_position.
  destruct (saved_at_index (s_log s)) as [i|]; [|by exists false]. specialize (Hsv i eq_refl).
  pose proof (history_index _ _ _ _ Hh Hcur) as Hci. pose proof (history_index _ _ _ _ Hh Hsv) as Hi.
  case_decide as Hne; [exists true; split; [done|intros _; congruence]|].
  destruct (decide (i < current_index (s_log s))) as [Hlt|Hlt].
  all: rw slice_Ok; [lia..|]; cbn [mbind res_bind]; eexists; split; [done|]; intros Hall.
  all: apply (history_range _ H) in Hall; [congruence|done|lia].
Qed.

(** ** One undo takes back a whole group *)
Fixpoint do_events (evs : list (Z * Event)) (s : session) : res session :=
  match evs with
  | [] => Ok s
  | (now, e) :: evs => s ← do_event now e s; do_events evs s
  end.

(** The events between [begin_undo_group] and [end_undo_group]. *)
Definition do_group (evs : list (Z * Event)) (s : session) : res session :=
  s ← do_events evs (mkSession (s_buffer s) (begin_undo_group (s_log s)));
  Ok (mkSession (s_buffer s) (end_undo_group (s_log s))).

(** A log in the group [g] that was opened at [es0] and [c]; [w] says whether the
    group has a write action. *)
Definition in_group (es0 : list LogEntry) (c g : nat) (w : bool) (l : EventLog) : Prop :=
  current_group l = Some g /\ c <= current_index l /\ take c (entries l) = take c es0
  /\ ((w = false /\ entries l = es0 /\ current_index l = c /\ c < length es0)
      \/ (current_index l = length (entries l)
          /\ (forall k e, c <= k -> entries l !! k = Some e -> le_group_id e = Some g)
          /\ (w = true -> exists k e, c <= k /\ entries l !! k = Some e /\ is_write e = true))).

Lemma in_group_push es0 c g w l now e :
  current_group l = Some g -> c <= length (entries l) -> take c (entries l) = take c es0 ->
  (forall k e, c <= k -> entries l !! k = Some e -> le_group_id e = Some g) ->
  (w = true -> exists k e, c <= k /\ entries l !! k = Some e /\ is_write e = true) ->
  in_group es0 c g (w || is_write_action e) (push_entry l now e).1.
Proof.
  intros Hg Hc Ht Hall Hw. unfold in_group. cbn. split; [done|]. rw length_app /=.
  split; [lia|]. split; [by rw take_app_le|]. right. split; [done|]. split.
  - intros k x Hk [Hx|[_ [_ <-]%list_lookup_singleton_Some]]%lookup_app_Some; [by apply (Hall k)|done].
  - destruct (is_write_action e) eqn:He.
    + intros _. exists (length (entries l)). eexists. split; [done|].
      split; [by apply list_lookup_middle|done].
    + rw orb_false_r. intros (k & x & ? & Hx & ?)%Hw. exists k, x.
      split_and!; [done|by apply lookup_app_l_Some|done].
Qed.

Lemma in_group_append es0 c g w l now e :
  in_group es0 c g w l -> in_group es0 c g (w || is_write_action e) (append l now e).1.
Proof.
  intros (Hg & Hc & Ht & Hl). unfold append. case_decide as Hlt; last first.
  { destruct Hl as [(_ & He & Hi & Hl)|(Hi & Hall & Hw)]; [exfalso; rw He in Hlt; lia|].
    apply in_group_push; [done|lia|done..]. }
  destruct Hl as [(-> & He & Hi & Hl)|(Hi & _)]; [|lia].
  destruct (is_write_action e) eqn:Hw; [|by split_and!; [done..|left]]. rw -Hw.
  set (l1 := set_entries l _ _). set (l2 := match saved_at_index l1 with Some _ => _ | None => l1 end).
  assert (entries l2 = take c es0 /\ current_group l2 = Some g) as [He2 Hg2].
  { unfold l2. cbn. destruct (saved_at_index l); [case_decide|]; cbn; by rw He Hi. }
  apply in_group_push; [done|rw He2 length_take; lia|by rw He2 take_take Nat.min_id| |done].
  intros k x Hk. rw He2. intros Hx%lookup_lt_Some. rw length_take in Hx. lia.
Qed.

Lemma do_events_ok es0 c g evs s sv H w T T' :
  session_at s sv H -> H !! c = Some T -> in_group es0 c g w (s_log s) ->
  Forall event_inv (snd <$> evs) -> Forall undoable (snd <$> evs) ->
  events_text (snd <$> evs) (s_text s) = Some T' ->
  exists s' H', do_events evs s = Ok s' /\ session_at s' sv H' /\ s_text s' = T' /\ H' !! c = Some T
  /\ in_group es0 c g (w || existsb is_write_action (snd <$> evs)) (s_log s').
Proof.
  revert s H w. induction evs as [|[now e] evs IH]; intros s H w Hs Hc Hin Hev Hun Ht.
  { injection Ht as <-. exists s, H. cbn. by rw orb_false_r. }
  cbn in Hev, Hun, Ht. apply Forall_cons in Hev as [He Hev]. apply Forall_cons in Hun as [Hu Hun].
  destruct (event_text e (s_text s)) as [T1|] eqn:E; [|done].
  destruct (do_event_ok s sv H now e T1 Hs He Hu E) as (s1 & H1 & Hdo & Hs1 & Htx & Hl & Hpre).
  cbn [do_events fmap list_fmap snd existsb]. rw Hdo. cbn [mbind res_bind]. rw orb_assoc.
  apply (IH s1 H1); [done| | |done|done|by rw Htx].
  - rw Hpre //. apply Hin.
  - rw Hl. by apply in_group_append.
Qed.

Lemma group_undo_stop es0 c g l j :
  in_group es0 c g true l ->
  (forall i e h, es0 !! i = Some e -> le_group_id e = Some h -> h < g) -> undo_stop (entries l) (current_index l) j ->
  j = c.
Proof.
  intros (_ & Hcl & Htake & [[? _]|(Hend & Hall & Hk)]) Hlt Hst; [done|].
  destruct (Hk eq_refl) as (k & e & Hck & He & Hwe). pose proof (lookup_lt_Some _ _ _ He) as Hklt.
  rw Hend in Hst.
  destruct Hst as [[Hq _]|(x & ex & Hx & Hex & Hwx & Hq & Hj & Hnone & Hgr & Hstop)]; [rw (Hq k e) // in Hwe; lia|].
  assert (k <= x) as Hkx by (destruct (decide (k <= x)); [done|rw (Hq k e) // in Hwe; lia]).
  assert (le_group_id ex = Some g) as Hgx by (apply (Hall x); [lia|done]). rw Hgx in Hgr Hstop.
  destruct (decide (j < c)) as [Hjc|]; [|destruct (decide (c < j)) as [Hcj|]; [|lia]]; exfalso.
  - destruct (lookup_lt_is_Some_2 (entries l) j) as [ej Hej]; [lia|].
    pose proof (Hgr j ej ltac:(lia) Hej) as Hgj.
    assert (es0 !! j = Some ej) as Hej0.
    { by rw -(lookup_take_lt _ c) // -Htake lookup_take_lt. }
    specialize (Hlt j ej _ Hej0 Hgj). lia.
  - destruct (lookup_lt_is_Some_2 (entries l) (j - 1)) as [ej Hej]; [lia|].
    apply (Hstop ej); [lia|done|done|]. apply (Hall (j - 1)); [lia|done].
Qed.

Lemma end_undo_group_entries l :
  entries (end_undo_group l) = entries l /\ current_index (end_undo_group l) = current_index l.
Proof. unfold end_undo_group. by destruct (group_depth l). Qed.

(** C5: one undo takes back a whole undo group.  Take a session as for the exactness of undo
    (from a fresh log, every event fitting its text and undoable) in which no group is open,
    and apply between [begin_undo_group] and [end_undo_group] events that fit the text one
    after the other and can be undone (an event without inverse changes no text), at least one
    of them a write action.  They give their text, and a single undo gives back the text and
    the position of the log from before the group. *)
Theorem undo_reverts_group s sv evs T' :
  reach s sv -> group_depth (s_log s) = 0 ->
  Forall event_inv (snd <$> evs) -> Forall undoable (snd <$> evs) ->
  events_text (snd <$> evs) (s_text s) = Some T' -> existsb is_write_action (snd <$> evs) = true ->
  exists s1 s2, do_group evs s = Ok s1 /\ s_text s1 = T' /\ do_undo s1 = Ok s2
  /\ s_text s2 = s_text s /\ current_index (s_log s2) = current_index (s_log s).
Proof.
  intros [H Hs]%reach_inv Hd Hev Hun Ht Hw. pose proof (begin_ok s sv H Hs) as Hb.
  destruct Hs as (_ & (_ & Hlt & _) & _ & Hh & Hcur & _). pose proof (history_index _ _ _ _ Hh Hcur) as Hci.
  set (c := current_index (s_log s)) in *. set (g := next_group_id (s_log s)) in *.
  destruct (do_events_ok (entries (s_log s)) c g evs _ sv H false (s_text s) T' Hb) as
    (s1 & H1 & Hdo & Hs1 & Htx & Hc & Hin); [done| |done..|].
  { unfold begin_undo_group. rw decide_True //. unfold in_group. cbn. split_and!; [done..|].
    destruct (decide (c < length (entries (s_log s)))); [by left|right]. split; [unfold c; lia|]. split; [|done].
    intros k e Hk He%lookup_lt_Some. lia. }
  unfold do_group. rw Hdo. cbn [mbind res_bind]. rw Hw /= in Hin.
  pose proof (end_ok s1 sv H1 Hs1) as Hs1'.
  destruct (do_undo_ok _ sv H1 Hs1') as (j & s2 & Hu & Hs2 & Hl2 & Hst).
  eexists _, s2. split; [done|]. split; [done|]. split; [done|].
  destruct (end_undo_group_entries (s_log s1)) as [Ee Ei]. cbn in Hst, Hl2. rw Ee Ei in Hst.
  pose proof (group_undo_stop _ _ _ _ _ Hin Hlt Hst) as ->.
  rw Hl2 /=. split; [|done]. destruct Hs2 as (_ & _ & _ & _ & Hc2 & _). rw Hl2 /= Hc in Hc2. by injection Hc2.
Qed.
End session.

(** ** Example sessions *)
Definition no_file (path : string) (off n : nat) : unit + list byte := inl tt.

Lemma no_file_ok (files : string -> list byte) path off n d : no_file path off n = inr d ->
  d = take n (drop off (files path)) /\ length d = n.
Proof. done. Qed.

Definition type_at (p : nat) (bytes : list byte) : Event := Insert p (et_from_bytes bytes) 0.

(** A buffer with "ab" in which "cd" was typed. *)
Definition fresh_session : session := mkSession (from_utf8_detected [x61; x62] Utf8 false) log_new.
Definition typed_session : session :=
  match do_event no_file 7 (type_at 1 [x63; x64]) fresh_session with Ok s => s | Panic => fresh_session end.

Lemma fresh_reach : reach (fun _ => []) 99 no_file fresh_session [x61; x62].
Proof.
  destruct (from_utf8_detected_ok (fun _ => []) [x61; x62] Utf8 false) as [H _].
  exact (reach_new (fun _ => []) 99 no_file _ H).
Qed.

Lemma typed_reach : reach (fun _ => []) 99 no_file typed_session [x61; x62].
Proof.
  apply (reach_do (fun _ => []) 99 no_file fresh_session _ 7 (type_at 1 [x63; x64]));
    [exact fresh_reach|done|done|by eexists|reflexivity].
Qed.


Lemma saved_position_sound_witness :
  exists b, is_at_saved_position (s_log typed_session) = Ok b
  /\ (b = true -> s_text (fun _ => []) typed_session = [x61; x62]).
Proof. exact (saved_position_sound (fun _ => []) 99 no_file (no_file_ok _) _ _ typed_reach). Defined.

Lemma undo_reverts_group_witness :
  exists s1 s2, do_group no_file [(8%Z, type_at 0 [x65]); (9%Z, type_at 1 [x66])] typed_session = Ok s1
  /\ do_undo 99 no_file s1 = Ok s2 /\ s_text (fun _ => []) s2 = [x61; x63; x64; x62]
  /\ current_index (s_log s2) = 1.
Proof.
  destruct (undo_reverts_group (fun _ => []) 99 no_file (no_file_ok _) typed_session [x61; x62]
    [(8%Z, type_at 0 [x65]); (9%Z, type_at 1 [x66])] [x65; x66; x61; x63; x64; x62])
    as (s1 & s2 & H1 & _ & H2 & H3 & H4).
  - exact typed_reach.
  - reflexivity.
  - repeat constructor.
  - repeat constructor; done.
  - reflexivity.
  - reflexivity.
  - exists s1, s2. exact (conj H1 (conj H2 (conj H3 H4))).
Defined.

(** ** Limits *)
(** A batch with one event that has no inverse has none itself: undo moves the log
    back over it and leaves its text in the buffer. *)
Theorem batch_without_inverse_stays :
  (s1 ← do_event no_file 7 (Batch [type_at 1 [x63]; HidePopup] EmptyString) fresh_session;
   s2 ← do_undo 99 no_file s1; Ok (current_index (s_log s2), s_text (fun _ => []) s2))
  = Ok (0, [x61; x63; x62]).
Proof. vm_compute. reflexivity. Qed.

(** [clear] empties the log and keeps the saved position, which can then lie past the
    end: asking for it panics. *)
Theorem saved_position_after_clear_panics :
  is_at_saved_position (log_clear (log_mark_saved (s_log typed_session))) = Panic.
Proof. reflexivity. Qed.
