(* ===== verification/InputKeys.v ===== *)
(** * Keys, modifiers and mouse events

    The vocabulary of the terminal input parser, crates/fresh-input-parser: the key
    codes, modifiers, key and mouse events (the data types of the crossterm crate that
    the parser produces), and the tables of keypad.rs and media_modifier.rs, which name
    the keys of the kitty keyboard protocol.  Characters are code points, modifiers are
    sets of bits. *)
From stdpp Require Import base numbers list option strings.
From Stdlib Require Import ssreflect Strings.Byte NArith.
From S2P Require Import Prelude Utf8.

(** ** Key codes *)
Inductive MediaKeyCode : Set :=
| Play | MediaPause | PlayPause | Reverse | Stop | FastForward | Rewind | TrackNext | TrackPrevious | MediaRecord | LowerVolume | RaiseVolume | MuteVolume.

Inductive ModifierKeyCode : Set :=
| LeftShift | LeftControl | LeftAlt | LeftSuper | LeftHyper | LeftMeta | RightShift | RightControl | RightAlt | RightSuper | RightHyper | RightMeta | IsoLevel3Shift | IsoLevel5Shift.

Inductive KeyCode : Set :=
| Backspace | Enter | KLeft | KRight | Up | Down | Home | KEnd | PageUp | PageDown
| Tab | BackTab | Delete | Insert | F (n : N) | Char (c : N) | Null | Esc
| CapsLock | ScrollLock | NumLock | PrintScreen | Pause | Menu | KeypadBegin
| Media (m : MediaKeyCode) | Modifier (m : ModifierKeyCode).

#[export] Instance KeyCode_eq_dec : EqDecision KeyCode.
Proof. unfold EqDecision, Decision. repeat decide equality. Defined.

Inductive KeyEventKind : Set := Press | Repeat | Release.

#[export] Instance KeyEventKind_eq_dec : EqDecision KeyEventKind.
Proof. solve_decision. Defined.

(** ** Modifiers *)
Abbreviation KeyModifiers := N.

Definition SHIFT : KeyModifiers := 1.
Definition CONTROL : KeyModifiers := 2.
Definition ALT : KeyModifiers := 4.
Definition SUPER : KeyModifiers := 8.
Definition HYPER : KeyModifiers := 16.
Definition META : KeyModifiers := 32.

Definition mods_contain (mods m : KeyModifiers) : bool := (N.land mods m =? m)%N.
Definition mods_remove (mods m : KeyModifiers) : KeyModifiers := N.ldiff mods m.

(** ** Events *)
Record KeyEvent : Set := mkKeyEvent {
  ke_code : KeyCode; ke_modifiers : KeyModifiers; ke_kind : KeyEventKind;
}.

Definition key_event (code : KeyCode) (modifiers : KeyModifiers) : KeyEvent :=
  mkKeyEvent code modifiers Press.

Inductive MouseButton : Set := BLeft | BRight | BMiddle.

Inductive MouseEventKind : Set :=
| MDown (b : MouseButton) | MUp (b : MouseButton) | MDrag (b : MouseButton) | MMoved
| ScrollDown | ScrollUp | ScrollLeft | ScrollRight.

#[export] Instance MouseButton_eq_dec : EqDecision MouseButton.
Proof. solve_decision. Defined.
#[export] Instance MouseEventKind_eq_dec : EqDecision MouseEventKind.
Proof. solve_decision. Defined.

Record MouseEvent : Set := mkMouseEvent {
  me_kind : MouseEventKind; me_column : N; me_row : N; me_modifiers : KeyModifiers;
}.

Record KeyPress : Set := mkKeyPress { kp_event : KeyEvent; kp_layout_char : option N }.

Definition key_press_new (e : KeyEvent) : KeyPress := mkKeyPress e None.

Inductive InputEvent : Set :=
| FocusGained | FocusLost
| Key (press : KeyPress)
| Mouse (event : MouseEvent)
| Paste (text : list N)
| Resize (width height : N).

Definition event_key (e : KeyEvent) : InputEvent := Key (key_press_new e).

(** ** The keypad, media and modifier keys *)
Record NamedKey : Set := mkNamedKey {
  nk_kitty_codepoint : N; nk_keysym : string; nk_code : KeyCode;
}.

Definition KP_BEGIN : N := 57427.
Definition KP_0 : N := 57399.

Definition KEYPAD_KEYS : list NamedKey := [
  mkNamedKey 57399 "kp_0" (Char 48);
  mkNamedKey 57400 "kp_1" (Char 49);
  mkNamedKey 57401 "kp_2" (Char 50);
  mkNamedKey 57402 "kp_3" (Char 51);
  mkNamedKey 57403 "kp_4" (Char 52);
  mkNamedKey 57404 "kp_5" (Char 53);
  mkNamedKey 57405 "kp_6" (Char 54);
  mkNamedKey 57406 "kp_7" (Char 55);
  mkNamedKey 57407 "kp_8" (Char 56);
  mkNamedKey 57408 "kp_9" (Char 57);
  mkNamedKey 57409 "kp_decimal" (Char 46);
  mkNamedKey 57410 "kp_divide" (Char 47);
  mkNamedKey 57411 "kp_multiply" (Char 42);
  mkNamedKey 57412 "kp_subtract" (Char 45);
  mkNamedKey 57413 "kp_add" (Char 43);
  mkNamedKey 57414 "kp_enter" Enter;
  mkNamedKey 57415 "kp_equal" (Char 61);
  mkNamedKey 57416 "kp_separator" (Char 44);
  mkNamedKey 57417 "kp_left" KLeft;
  mkNamedKey 57418 "kp_right" KRight;
  mkNamedKey 57419 "kp_up" Up;
  mkNamedKey 57420 "kp_down" Down;
  mkNamedKey 57421 "kp_page_up" PageUp;
  mkNamedKey 57422 "kp_page_down" PageDown;
  mkNamedKey 57423 "kp_home" Home;
  mkNamedKey 57424 "kp_end" KEnd;
  mkNamedKey 57425 "kp_insert" Insert;
  mkNamedKey 57426 "kp_delete" Delete;
  mkNamedKey KP_BEGIN "kp_begin" KeypadBegin
]%string.

Definition MEDIA_KEYS : list NamedKey := [
  mkNamedKey 57428 "media_play" (Media Play);
  mkNamedKey 57429 "media_pause" (Media MediaPause);
  mkNamedKey 57430 "media_play_pause" (Media PlayPause);
  mkNamedKey 57431 "media_reverse" (Media Reverse);
  mkNamedKey 57432 "media_stop" (Media Stop);
  mkNamedKey 57433 "media_fast_forward" (Media FastForward);
  mkNamedKey 57434 "media_rewind" (Media Rewind);
  mkNamedKey 57435 "media_next" (Media TrackNext);
  mkNamedKey 57436 "media_previous" (Media TrackPrevious);
  mkNamedKey 57437 "media_record" (Media MediaRecord);
  mkNamedKey 57438 "volume_down" (Media LowerVolume);
  mkNamedKey 57439 "volume_up" (Media RaiseVolume);
  mkNamedKey 57440 "volume_mute" (Media MuteVolume)
]%string.

Definition MODIFIER_KEYS : list NamedKey := [
  mkNamedKey 57441 "left_shift" (Modifier LeftShift);
  mkNamedKey 57442 "left_ctrl" (Modifier LeftControl);
  mkNamedKey 57443 "left_alt" (Modifier LeftAlt);
  mkNamedKey 57444 "left_super" (Modifier LeftSuper);
  mkNamedKey 57445 "left_hyper" (Modifier LeftHyper);
  mkNamedKey 57446 "left_meta" (Modifier LeftMeta);
  mkNamedKey 57447 "right_shift" (Modifier RightShift);
  mkNamedKey 57448 "right_ctrl" (Modifier RightControl);
  mkNamedKey 57449 "right_alt" (Modifier RightAlt);
  mkNamedKey 57450 "right_super" (Modifier RightSuper);
  mkNamedKey 57451 "right_hyper" (Modifier RightHyper);
  mkNamedKey 57452 "right_meta" (Modifier RightMeta);
  mkNamedKey 57453 "iso_level3_shift" (Modifier IsoLevel3Shift);
  mkNamedKey 57454 "iso_level5_shift" (Modifier IsoLevel5Shift)
]%string.

Definition key_by (p : NamedKey -> bool) (keys : list NamedKey) : option KeyCode :=
  nk_code <$> List.find p keys.

Definition code_for_keysym (name : string) : option KeyCode :=
  key_by (fun k => bool_decide (nk_keysym k = name)) KEYPAD_KEYS.

Definition code_for_kitty_codepoint (cp : N) : option KeyCode :=
  key_by (fun k => (nk_kitty_codepoint k =? cp)%N) KEYPAD_KEYS.

Definition code_for_digit (digit : N) : option KeyCode :=
  if (9 <? digit)%N then None else code_for_kitty_codepoint (KP_0 + digit).

Definition all_named_keys : list NamedKey := MEDIA_KEYS ++ MODIFIER_KEYS.

Definition media_code_for_keysym (name : string) : option KeyCode :=
  key_by (fun k => bool_decide (nk_keysym k = name)) all_named_keys.

Definition media_code_for_kitty_codepoint (cp : N) : option KeyCode :=
  key_by (fun k => (nk_kitty_codepoint k =? cp)%N) all_named_keys.

Definition media_keysym_for_code (code : KeyCode) : option string :=
  nk_keysym <$> List.find (fun k => bool_decide (nk_code k = code)) all_named_keys.

Definition FIRST : N := 57428.
Definition LAST : N := 57454.

(** ** Functional keys of the kitty protocol *)
Definition kitty_functional_key (cp : N) : option KeyCode :=
  if (cp =? 57358)%N then Some CapsLock
  else if (cp =? 57359)%N then Some ScrollLock
  else if (cp =? 57360)%N then Some NumLock
  else if (cp =? 57361)%N then Some PrintScreen
  else if (cp =? 57362)%N then Some Pause
  else if (cp =? 57363)%N then Some Menu
  else if in_range 57376 57398 cp then Some (F (13 + (cp - 57376)))
  else if in_range 57399 KP_BEGIN cp then code_for_kitty_codepoint cp
  else if in_range FIRST LAST cp then media_code_for_kitty_codepoint cp
  else None.

(** [char::from_u32] gives the scalar values only. *)
Definition functional_or_char (codepoint : N) : option KeyCode :=
  if (codepoint =? 9)%N then Some Tab
  else if (codepoint =? 13)%N then Some Enter
  else if (codepoint =? 27)%N then Some Esc
  else if (codepoint =? 127)%N then Some Backspace
  else if in_range 0xE000 0xF8FF codepoint then kitty_functional_key codepoint
  else if is_scalar codepoint then Some (Char codepoint) else None.

Definition modifiers_from_param (param : N) : KeyModifiers :=
  let param := (param - 1)%N in
  let add (mods bit m : N) := if (N.land param bit =? 0)%N then mods else N.lor mods m in
  add (add (add (add (add (add 0%N 1%N SHIFT) 2%N ALT) 4%N CONTROL) 8%N SUPER) 16%N HYPER) 32%N META.
