(* ===== verification/InputMouse.v ===== *)
(** * Mouse reports

    The decoding of mouse reports in crates/fresh-input-parser/src/lib.rs: the
    classification of the button byte for SGR and X10 reports, whole reports, the
    scanner that recognises reports in a raw byte stream, and the coalescing of pointer
    motion.  Bytes are bytes, 16-bit coordinates are numbers below 2^16. *)
From stdpp Require Import base numbers list option strings.
From Stdlib Require Import ssreflect Strings.Byte NArith.
From S2P Require Import Prelude TextSpec Utf8 InputKeys.

Definition u8_max : N := 255.
Definition u16_max : N := 65535.
Definition u32_max : N := 4294967295.

(** ** Text of parameters *)
Definition byte_eqb (a b : byte) : bool := bool_decide (a = b).

(** [str::split] at a one-byte separator: there is always a first part. *)
Fixpoint split_on (sep : byte) (s : list byte) : list (list byte) :=
  match s with
  | [] => [[]]
  | b :: s =>
      if byte_eqb b sep then [] :: split_on sep s
      else match split_on sep s with
           | part :: parts => (b :: part) :: parts
           | [] => [[b]]
           end
  end.

Fixpoint parse_digits (max acc : N) (s : list byte) : option N :=
  match s with
  | [] => Some acc
  | b :: s =>
      if in_range 48 57 (code b) then
        let acc := (acc * 10 + (code b - 48))%N in
        if (max <? acc)%N then None else parse_digits max acc s
      else None
  end.

(** [str::parse] of an unsigned integer type with maximum [max]: digits, optionally
    after a plus sign; nothing else and no more than [max]. *)
Definition parse_uint (max : N) (s : list byte) : option N :=
  let digits := match s with b :: rest => if byte_eqb b x2b then rest else s | [] => [] end in
  match digits with [] => None | _ => parse_digits max 0 digits end.

(** [std::str::from_utf8(params).unwrap_or("")] *)
Definition params_text (params : list byte) : list byte :=
  match from_utf8 params with None => params | Some _ => [] end.

(** ** Classification *)
Definition button_of (button_bits : N) : MouseButton :=
  if (button_bits =? 0)%N then BLeft else if (button_bits =? 1)%N then BMiddle
  else if (button_bits =? 2)%N then BRight else BLeft.

Definition scroll_of (button_bits : N) : MouseEventKind :=
  if (button_bits =? 0)%N then ScrollUp else if (button_bits =? 1)%N then ScrollDown
  else if (button_bits =? 2)%N then ScrollLeft else ScrollRight.

Definition bit_set (cb mask : N) : bool := negb (N.land cb mask =? 0)%N.

Definition sgr_mouse_kind (cb : N) (pressed : bool) : option MouseEventKind :=
  if bit_set cb 128 then None else
  let button_bits := N.land cb 3 in
  let button := button_of button_bits in
  Some (if bit_set cb 64 then scroll_of button_bits
        else if (button_bits =? 3)%N then MMoved
        else if bit_set cb 32 then MDrag button
        else if pressed then MDown button
        else MUp button).

Definition x10_mouse_kind (cb : N) : option MouseEventKind :=
  if bit_set cb 128 then None else
  let button_bits := N.land cb 3 in
  let button := button_of button_bits in
  Some (if bit_set cb 64 then scroll_of button_bits
        else if bit_set cb 32 then if (button_bits =? 3)%N then MMoved else MDrag button
        else if (button_bits =? 3)%N then MUp BLeft
        else MDown button).

Definition mouse_modifiers (cb : N) : KeyModifiers :=
  let mods := 0%N in
  let mods := if bit_set cb 4 then N.lor mods SHIFT else mods in
  let mods := if bit_set cb 8 then N.lor mods ALT else mods in
  if bit_set cb 16 then N.lor mods CONTROL else mods.

(** ** Whole reports *)
Definition sgr_mouse_event (params : list byte) (pressed : bool) : option InputEvent :=
  match params with
  | [] => None
  | _ :: rest =>
      match from_utf8 rest with
      | Some _ => None
      | None =>
          match split_on x3b rest with
          | f0 :: f1 :: f2 :: _ =>
              cb ← parse_uint u8_max f0;
              let cx := default 1%N (parse_uint u16_max f1) in
              let cy := default 1%N (parse_uint u16_max f2) in
              kind ← sgr_mouse_kind cb pressed;
              Some (Mouse (mkMouseEvent kind (cx - 1) (cy - 1) (mouse_modifiers cb)))
          | _ => None
          end
      end
  end.

(** [u8::wrapping_sub(32)] *)
Definition debias (b : byte) : N := ((code b + 224) mod 256)%N.

Definition x10_mouse_event (b0 b1 b2 : byte) : option InputEvent :=
  let cb := debias b0 in
  kind ← x10_mouse_kind cb;
  Some (Mouse (mkMouseEvent kind (debias b1 - 1) (debias b2 - 1) (mouse_modifiers cb))).

(** ** The scanner *)
Inductive MouseScan : Set := NotAReport | Partial | Complete (kind : option MouseEventKind).

Inductive ScanState : Set := SGround | SEsc | SCsi | SSgr | SX10 (have : N).

Record MouseReportScanner : Set := mkScanner {
  sc_state : ScanState; sc_cb : N; sc_on_first_param : bool; sc_x10_cb : N; sc_button_down : bool;
}.

Definition scanner_new : MouseReportScanner := mkScanner SGround 0 true 0 false.

Definition scanner_to (s : MouseReportScanner) (st : ScanState) : MouseReportScanner :=
  mkScanner st (sc_cb s) (sc_on_first_param s) (sc_x10_cb s) (sc_button_down s).

Definition scan_complete (s : MouseReportScanner) (kind : option MouseEventKind)
    : MouseReportScanner * MouseScan :=
  let down := match kind with
              | Some (MDown _) => true | Some (MUp _) => false | _ => sc_button_down s end in
  (mkScanner SGround (sc_cb s) (sc_on_first_param s) (sc_x10_cb s) down, Complete kind).

Definition offer (s : MouseReportScanner) (b : byte) : option (MouseReportScanner * MouseScan) :=
  match sc_state s with
  | SGround => if byte_eqb b x1b then Some (scanner_to s SEsc, Partial) else None
  | SEsc => if byte_eqb b x5b then Some (scanner_to s SCsi, Partial) else None
  | SCsi =>
      if byte_eqb b x3c then
        Some (mkScanner SSgr 0 true (sc_x10_cb s) (sc_button_down s), Partial)
      else if byte_eqb b x4d then Some (scanner_to s (SX10 0), Partial)
      else None
  | SSgr =>
      if in_range 48 57 (code b) then
        let cb := if sc_on_first_param s
                  then N.min u32_max (N.min u32_max (sc_cb s * 10) + (code b - 48)) else sc_cb s in
        Some (mkScanner SSgr cb (sc_on_first_param s) (sc_x10_cb s) (sc_button_down s), Partial)
      else if byte_eqb b x3b then
        Some (mkScanner SSgr (sc_cb s) false (sc_x10_cb s) (sc_button_down s), Partial)
      else if byte_eqb b x4d || byte_eqb b x6d then
        let kind := if (sc_cb s <=? u8_max)%N then sgr_mouse_kind (sc_cb s) (byte_eqb b x4d) else None in
        Some (scan_complete s kind)
      else None
  | SX10 n =>
      if (n =? 0)%N then
        Some (mkScanner (SX10 1) (sc_cb s) (sc_on_first_param s) (debias b) (sc_button_down s), Partial)
      else if (n <? 2)%N then Some (scanner_to s (SX10 (n + 1)), Partial)
      else Some (scan_complete s (x10_mouse_kind (sc_x10_cb s)))
  end.

Definition scan_step (s : MouseReportScanner) (b : byte) : MouseReportScanner * MouseScan :=
  match offer s b with
  | Some r => r
  | None =>
      let s := scanner_to s SGround in
      match offer s b with Some r => r | None => (s, NotAReport) end
  end.

Fixpoint scan_feed (s : MouseReportScanner) (bytes : list byte) : MouseReportScanner :=
  match bytes with
  | [] => s
  | b :: bytes => scan_feed (scan_step s b).1 bytes
  end.

(** ** Coalescing pointer motion *)
Definition motion_run (ev : InputEvent) : option (MouseEventKind * KeyModifiers) :=
  match ev with
  | Mouse m => match me_kind m with
               | MMoved | MDrag _ => Some (me_kind m, me_modifiers m) | _ => None end
  | _ => None
  end.

(** The queued event after the new one was offered to it, and the new one if it is
    still to be queued. *)
Definition coalesce_motion_into (last : option InputEvent) (ev : InputEvent)
    : option InputEvent * option InputEvent :=
  match last with
  | Some l =>
      if bool_decide (is_Some (motion_run ev) /\ motion_run l = motion_run ev)
      then (Some ev, None) else (Some l, Some ev)
  | None => (None, Some ev)
  end.

Fixpoint coalesce_loop (out : list InputEvent) (events : list InputEvent) : list InputEvent :=
  match events with
  | [] => out
  | ev :: events =>
      let out :=
        match coalesce_motion_into (list.last out) ev with
        | (Some l, None) => take (length out - 1) out ++ [l]
        | (_, Some ev) => out ++ [ev]
        | (None, None) => out
        end in
      coalesce_loop out events
  end.

Definition coalesce_motion (events : list InputEvent) : list InputEvent := coalesce_loop [] events.
