(* ===== verification/InputParser.v ===== *)
(** * The terminal input parser

    Models [InputParser] of crates/fresh-input-parser/src/lib.rs: the state machine that
    turns the bytes of a terminal into key, mouse, paste and focus events.  Each state's
    handler is a function from the parser and a byte to the new parser, the events it
    emits and whether the byte was consumed; a byte that was not is fed again.

    The case mapping of characters ([char::is_alphabetic] with [char::to_uppercase]) is
    the parameter [uppercase_of]: the characters an alphabetic character becomes, none
    for other characters. *)
From stdpp Require Import base numbers list option strings.
From Stdlib Require Import ssreflect Strings.Byte NArith.
From S2P Require Import Prelude TextSpec Utf8 InputKeys InputMouse.

Definition PASTE_END : list byte := [x1b; x5b; x32; x30; x31; x7e].
Definition MAX_CSI_PARAMS : nat := 128.
Definition MAX_PASTE : N := 64 * 1024 * 1024.

Inductive State : Set :=
| Ground
| Escape
| Csi
| Ss3
| CsiIgnore
| X10 (buf : list byte) (have : nat)
| Utf8State (width : nat) (alt : bool)
| PasteState
| PasteOverflow
| StringSeq (saw_esc : bool) (pending_alt : option byte).

#[export] Instance State_eq_dec : EqDecision State.
Proof. solve_decision. Defined.

Record InputParser : Set := mkParser {
  ip_state : State; ip_buffer : list byte; ip_paste : list byte;
}.

Definition parser_new : InputParser := mkParser Ground [] [].

Definition to_state (p : InputParser) (s : State) : InputParser :=
  mkParser s (ip_buffer p) (ip_paste p).

(** ** Single bytes *)
Definition is_utf8_start_byte (b : byte) : bool := in_range 0xC2 0xF4 (code b).

Definition utf8_char_width (b : byte) : nat :=
  if in_range 0xC2 0xDF (code b) then 2
  else if in_range 0xE0 0xEF (code b) then 3
  else if in_range 0xF0 0xF4 (code b) then 4 else 0.

Definition c0_control_modifier (b : byte) : KeyModifiers :=
  let x := code b in
  if (x <? 32)%N && negb (x =? 9)%N && negb (x =? 13)%N && negb (x =? 27)%N then CONTROL else 0%N.

Definition byte_to_keycode (b : byte) : KeyCode :=
  let x := code b in
  if (x =? 0)%N then Char 64
  else if (x =? 9)%N then Tab
  else if (x =? 13)%N then Enter
  else if in_range 1 26 x then Char (97 + x - 1)
  else if (x =? 27)%N then Esc
  else if in_range 28 30 x then Char (92 + x - 28)
  else if (x =? 31)%N then Char 47
  else if (x =? 32)%N then Char 32
  else if (x =? 127)%N then Backspace
  else if in_range 32 126 x then Char x
  else Null.

Definition byte_to_event (b : byte) : InputEvent :=
  event_key (key_event (byte_to_keycode b) (c0_control_modifier b)).

(** ** Parameters of control sequences *)
Definition first_subparam (field : list byte) : list byte := default field (head (split_on x3a field)).

Definition event_kind_of (mods_field : list byte) : KeyEventKind :=
  match (s ← split_on x3a mods_field !! 1; parse_uint u8_max s) with
  | Some 2%N => Repeat
  | Some 3%N => Release
  | _ => Press
  end.

(** [&s[s.find(';')? + 1..]] *)
Fixpoint after_first (sep : byte) (s : list byte) : option (list byte) :=
  match s with
  | [] => None
  | b :: s => if byte_eqb b sep then Some s else after_first sep s
  end.

Definition kind_of (params : list byte) : KeyEventKind :=
  match after_first x3b (params_text params) with
  | Some rest => event_kind_of rest
  | None => Press
  end.

Definition modifiers_of (params : list byte) : KeyModifiers :=
  match after_first x3b (params_text params) with
  | Some rest => match parse_uint u16_max (first_subparam rest) with
                 | Some mods => modifiers_from_param mods | None => 0%N end
  | None => 0%N
  end.

Definition csi_key (code : KeyCode) (params : list byte) : InputEvent :=
  event_key (mkKeyEvent code (modifiers_of params) (kind_of params)).

Definition is_modified_f1_f4 (params : list byte) : bool :=
  match split_on x3b (params_text params) with
  | f0 :: f1 :: _ =>
      bool_decide (f0 = [x31])
      && match parse_uint u16_max (first_subparam f1) with
         | Some mods => in_range 2 64 mods | None => false end
  | _ => false
  end.

Definition shifted_subparam (key_field : list byte) : option N :=
  s ← split_on x3a key_field !! 1; parse_uint u32_max s.

(** ** Pasted text *)
Definition is_control (c : N) : bool := (c <? 32)%N || in_range 127 159 c.

Definition sanitize_paste (bytes : list byte) : list N :=
  List.filter (fun c => negb (is_control c)
                 || (c =? 9)%N || (c =? 10)%N || (c =? 13)%N || (c =? 27)%N)
    (from_utf8_lossy bytes).

Definition ends_with (s suffix : list byte) : bool :=
  bool_decide (drop (length s - length suffix) s = suffix).

Section parser.
Context (uppercase_of : N -> list N).

Definition uppercase_letter (base : N) : option N :=
  match uppercase_of base with
  | [c] => if (c =? base)%N then None else Some c
  | _ => None
  end.

Definition shifted_char (key_field : list byte) (code : KeyCode) (modifiers : KeyModifiers) : option N :=
  if negb (mods_contain modifiers SHIFT) || mods_contain modifiers CONTROL then None else
  match code with
  | Char base =>
      match shifted_subparam key_field with
      | Some codepoint => match functional_or_char codepoint with
                          | Some (Char shifted) => Some shifted | _ => None end
      | None => if (modifiers =? SHIFT)%N then uppercase_letter base else None
      end
  | _ => None
  end.

Definition hidden_layout_char (key_field : list byte) (code : KeyCode) (modifiers : KeyModifiers)
    : option N :=
  if negb (mods_contain modifiers SHIFT) then None else
  match code with
  | Char base =>
      codepoint ← shifted_subparam key_field;
      match functional_or_char codepoint with
      | Some (Char shifted) =>
          if negb (shifted =? base)%N && bool_decide (uppercase_letter base <> Some shifted)
          then Some shifted else None
      | _ => None
      end
  | _ => None
  end.

(** ** Dispatch of complete CSI sequences *)
Definition dispatch_csi_u (params : list byte) : list InputEvent :=
  let parts := split_on x3b (params_text params) in
  let key_field := default [] (head parts) in
  let codepoint := default 0%N (parse_uint u32_max (first_subparam key_field)) in
  let mods_field := default [] (parts !! 1) in
  let mods_param := default 1%N (parse_uint u16_max (first_subparam mods_field)) in
  let modifiers := modifiers_from_param mods_param in
  let kind := event_kind_of mods_field in
  match functional_or_char codepoint with
  | None => []
  | Some code =>
      match shifted_char key_field code modifiers with
      | Some shifted =>
          [Key (mkKeyPress (mkKeyEvent (Char shifted) (mods_remove modifiers SHIFT) kind) None)]
      | None =>
          [Key (mkKeyPress (mkKeyEvent code modifiers kind)
                  (hidden_layout_char key_field code modifiers))]
      end
  end.

Definition tilde_key (num : N) : option KeyCode :=
  match num with
  | 1 => Some Home | 2 => Some Insert | 3 => Some Delete | 4 => Some KEnd
  | 5 => Some PageUp | 6 => Some PageDown | 7 => Some Home | 8 => Some KEnd
  | 11 => Some (F 1) | 12 => Some (F 2) | 13 => Some (F 3) | 14 => Some (F 4)
  | 15 => Some (F 5) | 17 => Some (F 6) | 18 => Some (F 7) | 19 => Some (F 8)
  | 20 => Some (F 9) | 21 => Some (F 10) | 23 => Some (F 11) | 24 => Some (F 12)
  | _ => None
  end%N.

Definition dispatch_tilde (p : InputParser) (params : list byte) : InputParser * list InputEvent :=
  let parts := split_on x3b (params_text params) in
  let rest :=
    let num := default 0%N (s ← head parts; parse_uint u8_max s) in
    let mods_field := default [] (parts !! 1) in
    let mods := default 1%N (parse_uint u16_max (first_subparam mods_field)) in
    if (num =? 200)%N then (mkParser PasteState (ip_buffer p) [], [])
    else if (num =? 201)%N then (p, [event_key (key_event Null 0)])
    else match tilde_key num with
         | Some code =>
             (p, [event_key (mkKeyEvent code (modifiers_from_param mods) (event_kind_of mods_field))])
         | None => (p, [])
         end in
  match parts with
  | [f0; f1; f2] =>
      if bool_decide (f0 = [x32; x37]) then
        let mods_param := default 1%N (parse_uint u16_max (first_subparam f1)) in
        let codepoint := default 0%N (parse_uint u32_max (first_subparam f2)) in
        match functional_or_char codepoint with
        | Some code => (p, [event_key (key_event code (modifiers_from_param mods_param))])
        | None => (p, [])
        end
      else rest
  | _ => rest
  end.

(** A parameter list that starts with [?] or [>] is the reply of a device. *)
Definition is_reply (params : list byte) : bool :=
  match params with b :: _ => byte_eqb b x3f || byte_eqb b x3e | [] => false end.

Definition dispatch_csi (p : InputParser) (final : byte) : InputParser * list InputEvent :=
  let params := ip_buffer p in
  let p := mkParser Ground [] (ip_paste p) in
  if is_reply params then (p, []) else
  match final with
  | x41 => (p, [csi_key Up params])
  | x42 => (p, [csi_key Down params])
  | x43 => (p, [csi_key KRight params])
  | x44 => (p, [csi_key KLeft params])
  | x48 => (p, [csi_key Home params])
  | x46 => (p, [csi_key KEnd params])
  | x45 => (p, [csi_key KeypadBegin params])
  | x50 => (p, if is_modified_f1_f4 params then [csi_key (F 1) params] else [])
  | x51 => (p, if is_modified_f1_f4 params then [csi_key (F 2) params] else [])
  | x52 => (p, if is_modified_f1_f4 params then [csi_key (F 3) params] else [])
  | x53 => (p, if is_modified_f1_f4 params then [csi_key (F 4) params] else [])
  | x7e => dispatch_tilde p params
  | x4d | x6d =>
      if bool_decide (head params = Some x3c) then
        (p, option_list (sgr_mouse_event params (byte_eqb final x4d)))
      else if bool_decide (params = []) && byte_eqb final x4d
      then (to_state p (X10 [x00; x00; x00] 0), [])
      else (p, [])
  | x5a => (p, [event_key (mkKeyEvent BackTab SHIFT (kind_of params))])
  | x49 => (p, [FocusGained])
  | x4f => (p, [FocusLost])
  | x75 => (p, dispatch_csi_u params)
  | _ => (p, [])
  end.

(** ** The handlers of the states *)
Definition feed_result : Set := InputParser * list InputEvent * bool.

Definition feed_ground (p : InputParser) (b : byte) : feed_result :=
  if byte_eqb b x1b then (to_state p Escape, [], true)
  else if is_utf8_start_byte b
  then (mkParser (Utf8State (utf8_char_width b) false) [b] (ip_paste p), [], true)
  else if (0x80 <=? code b)%N then (p, [], true)
  else (p, [byte_to_event b], true).

Definition is_string_introducer (b : byte) : bool :=
  byte_eqb b x50 || byte_eqb b x5d || byte_eqb b x5f || byte_eqb b x5e || byte_eqb b x58.

Definition feed_escape (p : InputParser) (b : byte) : feed_result :=
  if byte_eqb b x5b then (mkParser Csi [] (ip_paste p), [], true)
  else if byte_eqb b x4f then (to_state p Ss3, [], true)
  else if is_string_introducer b then (to_state p (StringSeq false (Some b)), [], true)
  else if byte_eqb b x1b then (p, [event_key (key_event Esc 0)], true)
  else if is_utf8_start_byte b
  then (mkParser (Utf8State (utf8_char_width b) true) [b] (ip_paste p), [], true)
  else (to_state p Ground,
        [event_key (key_event (byte_to_keycode b) (N.lor (c0_control_modifier b) ALT))], true).

Definition feed_csi (p : InputParser) (b : byte) : feed_result :=
  if in_range 0x20 0x3f (code b) then
    if decide (MAX_CSI_PARAMS <= length (ip_buffer p)) then (to_state p CsiIgnore, [], true)
    else (mkParser (ip_state p) (ip_buffer p ++ [b]) (ip_paste p), [], true)
  else if in_range 0x40 0x7e (code b) then (dispatch_csi p b, true)
  else (mkParser Ground [] (ip_paste p), [], false).

Definition feed_csi_ignore (p : InputParser) (b : byte) : feed_result :=
  if in_range 0x20 0x3f (code b) then (p, [], true)
  else if in_range 0x40 0x7e (code b) then (to_state p Ground, [], true)
  else (to_state p Ground, [], false).

Definition ss3_key (b : byte) : option KeyCode :=
  match b with
  | x50 => Some (F 1) | x51 => Some (F 2) | x52 => Some (F 3) | x53 => Some (F 4)
  | x41 => Some Up | x42 => Some Down | x43 => Some KRight | x44 => Some KLeft
  | x48 => Some Home | x46 => Some KEnd
  | x4d => code_for_keysym "kp_enter"
  | x45 => code_for_keysym "kp_begin"
  | x58 => code_for_keysym "kp_equal"
  | x6a => code_for_keysym "kp_multiply"
  | x6b => code_for_keysym "kp_add"
  | x6c => code_for_keysym "kp_separator"
  | x6d => code_for_keysym "kp_subtract"
  | x6e => code_for_keysym "kp_decimal"
  | x6f => code_for_keysym "kp_divide"
  | _ => if in_range 0x70 0x79 (code b) then code_for_digit (code b - 0x70) else None
  end.

Definition feed_ss3 (p : InputParser) (b : byte) : feed_result :=
  (to_state p Ground,
   match ss3_key b with Some code => [event_key (key_event code 0)] | None => [] end, true).

Definition feed_x10 (p : InputParser) (b : byte) (buf : list byte) (have : nat) : res feed_result :=
  if (code b <? 0x20)%N then Ok (to_state p Ground, [], false) else
  if decide (have < length buf) then
    let buf := <[have := b]> buf in
    if decide (S have = 3) then
      match buf with
      | [b0; b1; b2] => Ok (to_state p Ground, option_list (x10_mouse_event b0 b1 b2), true)
      | _ => Panic
      end
    else Ok (to_state p (X10 buf (S have)), [], true)
  else Panic.

Definition feed_utf8 (p : InputParser) (b : byte) (width : nat) (alt : bool) : feed_result :=
  if negb (is_cont b) then (mkParser Ground [] (ip_paste p), [], false) else
  let buffer := ip_buffer p ++ [b] in
  if decide (length buffer < width) then (mkParser (ip_state p) buffer (ip_paste p), [], true) else
  let modifiers := if alt then ALT else 0%N in
  let events :=
    match from_utf8 buffer with
    | None => match head (from_utf8_lossy buffer) with
              | Some c => [event_key (key_event (Char c) modifiers)] | None => [] end
    | Some _ => []
    end in
  (mkParser Ground [] (ip_paste p), events, true).

Definition feed_string (p : InputParser) (b : byte) (saw_esc : bool) : feed_result :=
  if saw_esc then
    if byte_eqb b x5c then (to_state p Ground, [], true) else (to_state p Escape, [], false)
  else if byte_eqb b x07 then (to_state p Ground, [], true)
  else if byte_eqb b x1b then (to_state p (StringSeq true None), [], true)
  else (to_state p (StringSeq false None), [], true).

Definition feed_paste (p : InputParser) (b : byte) : feed_result :=
  let paste := ip_paste p ++ [b] in
  if byte_eqb b x7e && ends_with paste PASTE_END then
    let content := take (length paste - length PASTE_END) paste in
    (mkParser Ground (ip_buffer p) [], [Paste (sanitize_paste content)], true)
  else if (MAX_PASTE <=? N.of_nat (length paste))%N then
    (mkParser PasteOverflow (ip_buffer p) [], [Paste (sanitize_paste paste)], true)
  else (mkParser (ip_state p) (ip_buffer p) paste, [], true).

Definition feed_paste_overflow (p : InputParser) (b : byte) : feed_result :=
  if byte_eqb b x1b then (to_state p Ground, [], false) else (p, [], true).

(** One turn of the loop of [feed]. *)
Definition feed_once (p : InputParser) (b : byte) : res feed_result :=
  match ip_state p with
  | Ground => Ok (feed_ground p b)
  | Escape => Ok (feed_escape p b)
  | Csi => Ok (feed_csi p b)
  | Ss3 => Ok (feed_ss3 p b)
  | CsiIgnore => Ok (feed_csi_ignore p b)
  | X10 buf have => feed_x10 p b buf have
  | Utf8State width alt => Ok (feed_utf8 p b width alt)
  | PasteState => Ok (feed_paste p b)
  | PasteOverflow => Ok (feed_paste_overflow p b)
  | StringSeq saw_esc _ => Ok (feed_string p b saw_esc)
  end.

Fixpoint feed_loop (fuel : nat) (p : InputParser) (b : byte) : res (InputParser * list InputEvent) :=
  match fuel with
  | 0 => Panic
  | S fuel =>
      '(p, events, consumed) ← feed_once p b;
      if consumed : bool then Ok (p, events) else
      '(p, more) ← feed_loop fuel p b;
      Ok (p, events ++ more)
  end.

(** Two turns are enough for every byte. *)
Definition feed (p : InputParser) (b : byte) : res (InputParser * list InputEvent) := feed_loop 2 p b.

Fixpoint parse (p : InputParser) (bytes : list byte) : res (InputParser * list InputEvent) :=
  match bytes with
  | [] => Ok (p, [])
  | b :: bytes =>
      '(p, events) ← feed p b;
      '(p, more) ← parse p bytes;
      Ok (p, events ++ more)
  end.
End parser.

(** ** Ambiguous prefixes *)
Definition escape_pending (p : InputParser) : bool :=
  match ip_state p with
  | Escape => true
  | Csi => bool_decide (ip_buffer p = [])
  | StringSeq false (Some _) => true
  | _ => false
  end.

Definition flush (p : InputParser) : InputParser * list InputEvent :=
  let key :=
    match ip_state p with
    | Escape => Some (key_event Esc 0)
    | Csi => if bool_decide (ip_buffer p = []) then Some (key_event (Char 91) ALT) else None
    | StringSeq false (Some introducer) => Some (key_event (byte_to_keycode introducer) ALT)
    | _ => None
    end in
  match key with
  | Some key => (to_state p Ground, [event_key key])
  | None => (p, [])
  end.
