(* ===== verification/InputParserInv.v ===== *)
(** * Correctness of the terminal input parser

    The invariant of the parser and that every byte keeps it: no byte panics or makes
    the parser loop, its buffers stay bounded, and it can always be brought back to the
    ground state.  Then what whole inputs mean: typed text, pastes, control strings and
    mouse reports, which the parser and the report scanner read alike. *)
From stdpp Require Import base numbers list option strings.
From Stdlib Require Import ssreflect Strings.Byte NArith.
From S2P Require Import Prelude TextSpec Utf8 InputKeys InputMouse InputParser.

(** ** The invariant *)
Definition is_param (b : byte) : bool := in_range 0x20 0x3f (code b).

Definition state_inv (p : InputParser) : Prop :=
  match ip_state p with
  | Csi => forallb is_param (ip_buffer p) = true
  | X10 buf have => length buf = 3 /\ have < 3
  | Utf8State width _ => 1 <= length (ip_buffer p) < width /\ width <= 4
  | _ => True
  end.

Definition parser_inv (p : InputParser) : Prop :=
  length (ip_buffer p) <= MAX_CSI_PARAMS /\ (N.of_nat (length (ip_paste p)) < MAX_PASTE)%N
  /\ (ip_state p <> PasteState -> ip_paste p = []) /\ state_inv p.

Lemma byte_eqb_spec a b : byte_eqb a b = true <-> a = b.
Proof. apply bool_decide_eq_true. Qed.

Lemma byte_eqb_ne a b : a <> b -> byte_eqb a b = false.
Proof. apply bool_decide_eq_false_2. Qed.

Lemma start_byte_width b :
  is_utf8_start_byte b = true -> 2 <= utf8_char_width b <= 4.
Proof.
  unfold is_utf8_start_byte, utf8_char_width. rw in_range_spec. intros H.
  destruct (in_range 0xC2 0xDF (code b)) eqn:E1; [lia|]. destruct (in_range 0xE0 0xEF (code b)) eqn:E2; [lia|].
  destruct (in_range 0xF0 0xF4 (code b)) eqn:E3; [lia|]. exfalso.
  assert (~ (0xC2 <= code b <= 0xDF)%N) by (rw -in_range_spec E1; done).
  assert (~ (0xE0 <= code b <= 0xEF)%N) by (rw -in_range_spec E2; done).
  assert (~ (0xF0 <= code b <= 0xF4)%N) by (rw -in_range_spec E3; done). lia.
Qed.

(** A parser of the invariant outside paste and collection states. *)
Lemma idle_inv s paste buffer :
  length buffer <= MAX_CSI_PARAMS -> paste = [] ->
  match s with Csi | X10 _ _ | Utf8State _ _ | PasteState => False | _ => True end ->
  parser_inv (mkParser s buffer paste).
Proof. intros Hb -> Hs. split_and!; [done|done|done|by destruct s]. Qed.

Section parser.
Context (uppercase_of : N -> list N).
Local Abbreviation feed_once := (feed_once uppercase_of).
Local Abbreviation feed_loop := (feed_loop uppercase_of).
Local Abbreviation feed := (feed uppercase_of).
Local Abbreviation parse := (parse uppercase_of).
Local Abbreviation dispatch_csi := (dispatch_csi uppercase_of).

Lemma dispatch_tilde_inv p params :
  ip_state p = Ground -> parser_inv p -> parser_inv (dispatch_tilde p params).1.
Proof.
  intros Hg Hp. assert (parser_inv (mkParser PasteState (ip_buffer p) [])) as Hpaste by (by destruct Hp).
  unfold dispatch_tilde. repeat case_match; simpl; done.
Qed.

Lemma dispatch_csi_inv p b : ip_state p = Csi -> parser_inv p -> parser_inv (dispatch_csi p b).1.
Proof.
  intros Hs (Hb & Hm & Hp & _). assert (ip_paste p = []) as Hpe by (apply Hp; by rw Hs).
  assert (parser_inv (mkParser Ground [] (ip_paste p))) as Hg by (apply idle_inv; [simpl; lia|done..]).
  assert (parser_inv (to_state (mkParser Ground [] (ip_paste p)) (X10 [x00; x00; x00] 0))) as Hx.
  { rw Hpe. split_and!; [simpl; lia|done|done|]. split; [done|lia]. }
  assert (parser_inv (dispatch_tilde (mkParser Ground [] (ip_paste p)) (ip_buffer p)).1) as Ht
    by by apply dispatch_tilde_inv.
  unfold InputParser.dispatch_csi. destruct (is_reply (ip_buffer p)); [done|].
  destruct b; try exact Hg; try exact Ht; case_bool_decide; try done; by case_match.
Qed.

(** A byte that is fed again finds the parser on the ground or after an escape. *)
Definition settled (p : InputParser) : Prop := ip_state p = Ground \/ ip_state p = Escape.

Lemma feed_once_ok p b :
  parser_inv p ->
  exists p' evs c, feed_once p b = Ok (p', evs, c) /\ parser_inv p' /\ (c = false -> settled p').
Proof.
  intros Hinv. pose proof Hinv as (Hb & Hm & Hp & Hst). destruct p as [s buffer paste]. cbn in Hb, Hm, Hp.
  assert (forall c, is_utf8_start_byte b = true -> paste = [] ->
    parser_inv (mkParser (Utf8State (utf8_char_width b) c) [b] paste)) as Hutf8.
  { intros c H%start_byte_width ->. split_and!; [simpl; unfold MAX_CSI_PARAMS; lia|done|done|]. cbn. lia. }
  unfold InputParser.feed_once. destruct s as [| | | | |buf have|width alt| | |saw pend]; cbn [ip_state] in *.
  - unfold feed_ground. repeat case_match; (eexists _, _, _; split; [done|]; split; [|done]); cbn;
      [by apply idle_inv; auto|by apply Hutf8; auto|done|done].
  - unfold feed_escape. repeat case_match; (eexists _, _, _; split; [done|]; split; [|done]); cbn;
      try (by apply idle_inv; auto); [|by apply Hutf8; auto].
    rw Hp //. by split_and!; [simpl; lia|..].
  - unfold feed_csi. destruct (in_range 0x20 0x3f (code b)) eqn:Er.
    + case_decide as Hd; cbn [ip_buffer] in Hd; (eexists _, _, _; split; [done|]; split; [|done]); cbn; [by apply idle_inv; auto|].
      split_and!; [cbn; rw length_app /=; unfold MAX_CSI_PARAMS in *; lia|done|done|]. cbn in Hst |- *. rw forallb_app Hst /= andb_true_r. done.
    + destruct (in_range 0x40 0x7e (code b)).
      * eexists _, _, _. split; [rw (surjective_pairing (dispatch_csi _ _)); done|]. split; [|done].
        by apply dispatch_csi_inv.
      * eexists _, _, _. split; [done|]. split; [|by left]. apply idle_inv; [simpl; lia|auto|done].
  - eexists _, _, _. split; [done|]. split; [|done]. apply idle_inv; auto.
  - unfold feed_csi_ignore. repeat case_match; (eexists _, _, _; split; [done|]; split); try done;
      try (by left); by apply idle_inv; auto.
  - destruct Hst as [Hl Hh]. unfold feed_x10. destruct (code b <? 32)%N.
    { eexists _, _, _. split; [done|]. split; [by apply idle_inv; auto|by left]. }
    rw decide_True; [lia|]. case_decide as Hn.
    + destruct buf as [|b0 [|b1 [|b2 [|? ?]]]]; try done. assert (have = 2) as -> by lia.
      eexists _, _, _. split; [done|]. split; [by apply idle_inv; auto|done].
    + eexists _, _, _. split; [done|]. split; [|done]. split_and!; [done|done|by auto|]. cbn.
      rw length_insert. lia.
  - cbn in Hst. unfold feed_utf8. destruct (is_cont b); cbn [negb].
    + case_decide as Hw; (eexists _, _, _; split; [done|]; split; [|done]).
      * rw length_app /= in Hw. split_and!; cbn; [rw length_app /=; unfold MAX_CSI_PARAMS; lia|done|by auto|].
        rw length_app /=. lia.
      * apply idle_inv; [simpl; lia|auto|done].
    + eexists _, _, _. split; [done|]. split; [apply idle_inv; [simpl; lia|auto|done]|by left].
  - unfold feed_paste. cbn [ip_state ip_buffer ip_paste].
    destruct (byte_eqb b x7e && _); [eexists _, _, _; split; [done|]; split; [by apply idle_inv|done]|].
    destruct (N.leb_spec MAX_PASTE (N.of_nat (length (paste ++ [b]))));
      (eexists _, _, _; split; [done|]; split; [|done]); [by apply idle_inv|]. by split_and!.
  - unfold feed_paste_overflow. case_match; (eexists _, _, _; split; [done|]; split); try done; [|by left].
    by apply idle_inv; auto.
  - unfold feed_string. repeat case_match; (eexists _, _, _; split; [done|]; split); try done;
      try (by right); by apply idle_inv; auto.
Qed.

Lemma feed_once_settled p b :
  settled p -> exists p' evs, feed_once p b = Ok (p', evs, true).
Proof.
  unfold InputParser.feed_once. intros [-> | ->]; [unfold feed_ground|unfold feed_escape];
    repeat case_match; by eexists _, _.
Qed.

Lemma feed_ok p b : parser_inv p -> exists p' evs, feed p b = Ok (p', evs) /\ parser_inv p'.
Proof.
  intros Hp. destruct (feed_once_ok p b Hp) as (p1 & evs & c & H1 & Hp1 & Hc).
  unfold InputParser.feed. cbn [InputParser.feed_loop]. rw H1. cbn [mbind res_bind].
  destruct c; [by eexists _, _|].
  destruct (feed_once_settled p1 b (Hc eq_refl)) as (p2 & evs2 & H2).
  destruct (feed_once_ok p1 b Hp1) as (p3 & evs3 & c3 & H3 & Hp3 & _).
  rw H2 in H3. injection H3 as <- <- <-. rw H2. cbn. by eexists _, _.
Qed.

Lemma parse_ok p bytes :
  parser_inv p -> exists p' evs, parse p bytes = Ok (p', evs) /\ parser_inv p'.
Proof.
  revert p. induction bytes as [|b bytes IH]; intros p Hp; [by eexists _, _|].
  destruct (feed_ok p b Hp) as (p1 & evs1 & H1 & Hp1). destruct (IH p1 Hp1) as (p2 & evs2 & H2 & Hp2).
  cbn [InputParser.parse]. rw H1. cbn [mbind res_bind]. rw H2. cbn. by eexists _, _.
Qed.

Lemma parse_app p bs cs :
  parse p (bs ++ cs) = ('(p, evs) ← parse p bs; '(p, more) ← parse p cs; Ok (p, evs ++ more)).
Proof.
  revert p. induction bs as [|b bs IH]; intros p; cbn [app InputParser.parse].
  - cbn [mbind res_bind]. by destruct (parse p cs) as [[? ?]|].
  - destruct (feed p b) as [[p1 e1]|]; [|done]. cbn [mbind res_bind]. rw IH.
    destruct (parse p1 bs) as [[p2 e2]|]; [|done]. cbn [mbind res_bind].
    destruct (parse p2 cs) as [[p3 e3]|]; [|done]. cbn. by rw app_assoc.
Qed.

Lemma parser_new_inv : parser_inv parser_new.
Proof. apply idle_inv; [simpl; lia|done..]. Qed.

(** After the escape of a terminator. *)
Lemma escape_lands p :
  parser_inv p -> ip_state p <> PasteState ->
  exists p' evs, feed p x1b = Ok (p', evs)
  /\ (ip_state p' = Ground \/ ip_state p' = Escape \/ ip_state p' = StringSeq true None).
Proof.
  intros (_ & _ & _ & Hst) Hne. destruct p as [s buffer paste]. cbn in Hne, Hst.
  destruct s as [| | | | |buf have|width alt| | |[] pend]; try done;
    (eexists _, _; split; [reflexivity|cbn; by auto]).
Qed.

Lemma terminator_rest_lands p :
  ip_state p = Ground \/ ip_state p = Escape \/ ip_state p = StringSeq true None ->
  exists p' evs, parse p (drop 1 PASTE_END) = Ok (p', evs) /\ ip_state p' = Ground.
Proof.
  destruct p as [s buffer paste]. cbn [ip_state].
  intros [-> | [-> | ->]]; (eexists _, _; split; [reflexivity|reflexivity]).
Qed.

Lemma terminator_lands p :
  parser_inv p -> ip_state p <> PasteState ->
  exists p' evs, parse p PASTE_END = Ok (p', evs) /\ ip_state p' = Ground.
Proof.
  intros Hp Hne. destruct (escape_lands p Hp Hne) as (p1 & e1 & H1 & Hs).
  destruct (terminator_rest_lands p1 Hs) as (p2 & e2 & H2 & Hg).
  change PASTE_END with (x1b :: drop 1 PASTE_END). cbn [InputParser.parse]. rw H1. cbn [mbind res_bind].
  rw H2. cbn. by eexists _, _.
Qed.

(** A paste takes the terminator's bytes, or overflows and drops the rest of them. *)
Lemma overflow_drops p bs :
  ip_state p = PasteOverflow -> Forall (fun b => b <> x1b) bs -> parse p bs = Ok (p, []).
Proof.
  intros Hs. induction 1 as [|b bs Hb _ IH]; [done|]. cbn [InputParser.parse]. unfold InputParser.feed.
  cbn [InputParser.feed_loop]. unfold InputParser.feed_once. rw Hs. unfold feed_paste_overflow.
  rw byte_eqb_ne //.
  cbn [mbind res_bind]. by rw IH.
Qed.

Lemma paste_takes p b bs :
  ip_state p = PasteState -> b <> x7e -> Forall (fun b => b <> x1b) bs ->
  (exists evs, parse p (b :: bs) = Ok (mkParser PasteOverflow (ip_buffer p) [], evs))
  \/ parse p (b :: bs) = parse (mkParser PasteState (ip_buffer p) (ip_paste p ++ [b])) bs.
Proof.
  intros Hs Hb Hbs. cbn [InputParser.parse]. unfold InputParser.feed. cbn [InputParser.feed_loop].
  unfold InputParser.feed_once. rw Hs. unfold feed_paste. rw Hs.
  rw byte_eqb_ne //. cbn [andb].
  destruct (MAX_PASTE <=? _)%N; cbn [mbind res_bind].
  - left. rw overflow_drops //. by eexists.
  - right. by destruct (parse _ bs) as [[? ?]|].
Qed.

Lemma paste_terminator p :
  ip_state p = PasteState ->
  exists p' evs, parse p PASTE_END = Ok (p', evs) /\ (ip_state p' = Ground \/ ip_state p' = PasteOverflow).
Proof.
  intros Hs. destruct p as [s buffer paste]. cbn in Hs. subst s. unfold PASTE_END.
  do 5 (match goal with |- context [parse (mkParser _ ?bf ?pa) (?b :: ?bs)] =>
    destruct (paste_takes (mkParser PasteState bf pa) b bs) as [[evs ->] | ->];
      [done|done|by repeat constructor|by eexists _, _; split; [done|right]|]; cbn [ip_buffer ip_paste] end).
  cbn [InputParser.parse]. unfold InputParser.feed. cbn [InputParser.feed_loop].
  unfold InputParser.feed_once, feed_paste. cbn [ip_state ip_paste ip_buffer].
  rw -!app_assoc. cbn [app]. unfold ends_with. change (length PASTE_END) with 6.
  rw length_app. cbn [length]. replace (length paste + 6 - 6) with (length paste) by lia. rw drop_app_length.
  cbn. eexists _, _. split; [done|by left].
Qed.

Lemma terminators_land p :
  parser_inv p ->
  exists p' evs, parse p (PASTE_END ++ PASTE_END) = Ok (p', evs) /\ ip_state p' = Ground.
Proof.
  intros Hp. rw parse_app.
  assert (exists p1 e1, parse p PASTE_END = Ok (p1, e1) /\ ip_state p1 <> PasteState) as (p1 & e1 & H1 & Hne).
  { destruct (decide (ip_state p = PasteState)) as [Hs|Hs].
    - destruct (paste_terminator p Hs) as (p1 & e1 & H1 & [Hg|Hg]); exists p1, e1; (split; [exact H1|congruence]).
    - destruct (terminator_lands p Hp Hs) as (p1 & e1 & H1 & Hg). exists p1, e1. split; [exact H1|congruence]. }
  rw H1. cbn [mbind res_bind]. destruct (parse_ok p PASTE_END Hp) as (p1' & e1' & H1' & Hp1).
  rw H1 in H1'. injection H1' as <- <-.
  destruct (terminator_lands p1 Hp1 Hne) as (p2 & e2 & -> & Hg). cbn. by eexists _, _.
Qed.
(** C11: no input can break the parser.  Whatever bytes it is fed, each is handled in at
    most two turns and nothing panics; the buffered parameters stay within 128 bytes, a
    partial character within its width and a paste below its limit; and the bytes of two
    paste terminators always bring the parser back to the ground state. *)
Theorem parser_recovers bytes :
  exists p evs, parse parser_new bytes = Ok (p, evs) /\ parser_inv p
  /\ exists p' evs', parse p (PASTE_END ++ PASTE_END) = Ok (p', evs') /\ ip_state p' = Ground.
Proof.
  destruct (parse_ok parser_new bytes parser_new_inv) as (p & evs & H & Hp).
  exists p, evs. split_and!; [done|done|by apply terminators_land].
Qed.

(** ** Typed text *)
Lemma parse_consumed p b bs p1 e1 p2 e2 :
  feed_once p b = Ok (p1, e1, true) -> parse p1 bs = Ok (p2, e2) -> parse p (b :: bs) = Ok (p2, e1 ++ e2).
Proof.
  intros H1 H2. cbn [InputParser.parse]. unfold InputParser.feed. cbn [InputParser.feed_loop]. rw H1.
  cbn [mbind res_bind]. by rw H2.
Qed.

Lemma parse_silent p b p1 bs :
  feed_once p b = Ok (p1, [], true) -> parse p (b :: bs) = parse p1 bs.
Proof.
  intros H. cbn [InputParser.parse]. unfold InputParser.feed. cbn [InputParser.feed_loop]. rw H.
  cbn [mbind res_bind]. by destruct (parse p1 bs) as [[? ?]|].
Qed.

Definition printable (c : N) : Prop := is_scalar c = true /\ (32 <= c)%N /\ c <> 127%N.

Definition typed (c : N) : InputEvent := event_key (key_event (Char c) 0).

Lemma byte_eqb_false a b : code a <> code b -> byte_eqb a b = false.
Proof. intros H. apply bool_decide_eq_false_2. congruence. Qed.

Lemma ascii_typed p c bs p2 e2 :
  (32 <= c < 127)%N -> ip_state p = Ground -> parse p bs = Ok (p2, e2) ->
  parse p (encode_utf8 c ++ bs) = Ok (p2, typed c :: e2).
Proof.
  intros Hc Hg H2. unfold encode_utf8. replace (c <? 128)%N with true by (symmetry; apply N.ltb_lt; lia).
  cbn [fmap list_fmap app]. assert (code (byte_of c) = c) as Hb by (apply code_byte_of; lia).
  apply (parse_consumed p (byte_of c) bs p [typed c] p2 e2); [|done]. unfold InputParser.feed_once. rw Hg.
  unfold feed_ground, is_utf8_start_byte, byte_to_event, byte_to_keycode, c0_control_modifier. rw Hb.
  rw byte_eqb_false; [rw Hb; cbn; lia|]. rw in_range_false; [lia|].
  replace (128 <=? c)%N with false by (symmetry; apply N.leb_gt; lia).
  replace (c <? 32)%N with false by (symmetry; apply N.ltb_ge; lia). cbn [andb].
  do 3 (rw (proj2 (N.eqb_neq c _)); [lia|]). rw in_range_false; [lia|]. rw (proj2 (N.eqb_neq c _)); [lia|].
  rw in_range_false; [lia|]. rw (proj2 (N.eqb_neq c _)); [lia|].
  destruct (N.eqb_spec c 32) as [->|]; [done|]. rw (proj2 (N.eqb_neq c _)); [lia|].
  by rw in_range_true; [lia|].
Qed.

(** The bytes of a character after the first are collected and decoded. *)
Lemma collected c alt pre bs buffer rest p2 e2 paste :
  is_scalar c = true -> encode_utf8 c = pre ++ bs -> bs <> [] -> forallb is_cont bs = true ->
  buffer = pre -> parse (mkParser Ground [] paste) rest = Ok (p2, e2) ->
  parse (mkParser (Utf8State (length (encode_utf8 c)) alt) buffer paste) (bs ++ rest)
  = Ok (p2, event_key (key_event (Char c) (if alt : bool then ALT else 0%N)) :: e2).
Proof.
  intros Hc. revert pre buffer. induction bs as [|b bs IH]; intros pre buffer He Hne Hcont -> H2; [done|].
  cbn in Hcont. apply andb_true_iff in Hcont as [Hb Hbs].
  assert (length (encode_utf8 c) = length pre + S (length bs)) as Hlen by (by rw He length_app).
  destruct bs as [|b' bs].
  - apply (parse_consumed _ b rest (mkParser Ground [] paste)
      [event_key (key_event (Char c) (if alt : bool then ALT else 0%N))]); [|done].
    unfold InputParser.feed_once. cbn [ip_state]. unfold feed_utf8. rw Hb. cbn [negb ip_buffer ip_paste].
    rw -He. rw decide_False; [lia|].
    destruct (from_utf8_encoded [c]) as [Hv Hl]; [by constructor|].
    unfold encode_all in Hv, Hl. cbn [mbind list_bind] in Hv, Hl. rw app_nil_r in Hv Hl. by rw Hv Hl.
  - apply (parse_consumed _ b _ (mkParser (Utf8State (length (encode_utf8 c)) alt) (pre ++ [b]) paste) []).
    + unfold InputParser.feed_once. cbn [ip_state]. unfold feed_utf8. rw Hb. cbn [negb ip_buffer ip_paste ip_state].
      rw decide_True //. rw length_app Hlen /=. lia.
    + apply (IH (pre ++ [b])); [by rw -app_assoc|done..].
Qed.

(** The first byte of a character of several bytes announces its width. *)
Lemma encode_utf8_shape c :
  is_scalar c = true -> (128 <= c)%N ->
  exists b bs, encode_utf8 c = b :: bs /\ bs <> [] /\ forallb is_cont bs = true
  /\ is_utf8_start_byte b = true /\ utf8_char_width b = S (length bs).
Proof.
  intros Hc%is_scalar_spec Hge. unfold encode_utf8, is_utf8_start_byte, utf8_char_width, is_cont.
  replace (c <? 128)%N with false by (symmetry; apply N.ltb_ge; lia).
  destruct (N.ltb_spec c 0x800); [|destruct (N.ltb_spec c 0x10000)]; cbn [fmap list_fmap];
    (eexists _, _; split; [done|]); (split; [done|]); cbn [forallb]; rw !code_byte_of; try lia.
  - rw !in_range_true; [lia..|]. done.
  - rw (in_range_false 0xC2 0xDF); [lia|]. rw !in_range_true; [lia..|]. done.
  - rw (in_range_false 0xC2 0xDF); [lia|]. rw (in_range_false 0xE0 0xEF); [lia|]. rw !in_range_true; [lia..|]. done.
Qed.

(** Typed text arrives as typed.  The UTF-8 bytes of any text without control
    characters, fed to a parser on the ground in any chunks, give one key press per
    character, with that character and no modifier, and leave the parser on the ground. *)
Theorem typed_text_arrives p cs :
  ip_state p = Ground -> Forall printable cs ->
  exists p', parse p (encode_all cs) = Ok (p', typed <$> cs) /\ ip_state p' = Ground
  /\ ip_paste p' = ip_paste p.
Proof.
  intros Hg Hcs. revert p Hg. induction Hcs as [|c cs (Hc & Hlo & Hne) _ IH]; intros p Hg; [by exists p|].
  rw encode_all_cons. destruct (decide (c < 128)%N) as [Hlt|Hge].
  - destruct (IH p Hg) as (p' & H & Hg' & Hp). exists p'. split_and!; [|done..].
    apply ascii_typed; [lia|done..].
  - destruct (encode_utf8_shape c Hc) as (b & bs & He & Hbs & Hcont & Hst & Hw); [lia|].
    destruct (IH (mkParser Ground [] (ip_paste p)) eq_refl) as (p' & H & Hg' & Hp).
    exists p'. split_and!; [|done..]. rw He. cbn [app].
    apply (parse_consumed p b _ (mkParser (Utf8State (utf8_char_width b) false) [b] (ip_paste p)) []).
    + unfold InputParser.feed_once. rw Hg. unfold feed_ground. rw Hst.
      rw byte_eqb_false //. apply in_range_spec in Hst. cbn. lia.
    + rw Hw. replace (S (length bs)) with (length (encode_utf8 c)) by by rw He.
      by apply (collected c false [b] bs).
Qed.
(** ** Pastes *)
Definition PASTE_START : list byte := [x1b; x5b; x32; x30; x30; x7e].

Lemma paste_start p :
  ip_state p = Ground ->
  exists buffer, parse p PASTE_START = Ok (mkParser PasteState buffer [], []).
Proof. destruct p as [s buffer paste]. cbn. intros ->. eexists. reflexivity. Qed.

Lemma paste_push p b :
  ip_state p = PasteState ->
  byte_eqb b x7e && ends_with (ip_paste p ++ [b]) PASTE_END = false ->
  (N.of_nat (S (length (ip_paste p))) < MAX_PASTE)%N ->
  feed_once p b = Ok (mkParser PasteState (ip_buffer p) (ip_paste p ++ [b]), [], true).
Proof.
  intros Hs He Hl. unfold InputParser.feed_once. rw Hs. unfold feed_paste. rw He.
  replace (MAX_PASTE <=? _)%N with false; [by rw Hs|]. symmetry. apply N.leb_gt. rw length_app /=. lia.
Qed.

Lemma ends_with_suffix s suffix : ends_with s suffix = true -> exists a, s = a ++ suffix.
Proof. unfold ends_with. intros H%bool_decide_eq_true. exists (take (length s - length suffix) s).
  pose proof (take_drop (length s - length suffix) s) as E. by rw H in E.
Qed.

(** Content without the end marker is collected. *)
Lemma paste_collects buffer pre content :
  (N.of_nat (length (pre ++ content)) < MAX_PASTE)%N ->
  (forall a c, pre ++ content <> a ++ PASTE_END ++ c) ->
  parse (mkParser PasteState buffer pre) content = Ok (mkParser PasteState buffer (pre ++ content), []).
Proof.
  revert pre. induction content as [|b content IH]; intros pre Hl Hno; [by rw app_nil_r|].
  apply (parse_consumed _ _ _ (mkParser PasteState buffer (pre ++ [b])) []).
  - apply paste_push; [done| |rw length_app /= in Hl; cbn; lia]. cbn [ip_paste].
    destruct (byte_eqb b x7e); [|done]. cbn [andb]. destruct (ends_with _ _) eqn:He; [|done]. exfalso.
    apply ends_with_suffix in He as [a Ha]. apply (Hno a content). by rw (app_assoc a) -Ha -app_assoc.
  - rw (IH (pre ++ [b])); [by rw -app_assoc|by rw -app_assoc|by rw -app_assoc].
Qed.

(** The marker after the content ends the paste. *)
Lemma paste_ends buffer pre :
  (N.of_nat (length pre) + 6 <= MAX_PASTE)%N ->
  parse (mkParser PasteState buffer pre) PASTE_END
  = Ok (mkParser Ground buffer [], [Paste (sanitize_paste pre)]).
Proof.
  intros Hl. unfold PASTE_END.
  do 5 (eapply (parse_consumed _ _ _ _ []);
    [apply paste_push; [done|done|cbn [ip_paste]; rw ?length_app; cbn [length]; lia]|cbn [ip_buffer ip_paste]]).
  eapply (parse_consumed _ _ [] _ [_] _ []); [|done]. unfold InputParser.feed_once. cbn [ip_state].
  unfold feed_paste. cbn [ip_paste ip_buffer]. rw -!app_assoc. cbn [app].
  unfold ends_with. rw length_app. change (length PASTE_END) with 6. cbn [length].
  replace (length pre + 6 - 6) with (length pre) by lia. rw drop_app_length take_app_length. done.
Qed.

(** Characters a paste keeps. *)
Definition pasteable (c : N) : bool :=
  negb (is_control c) || (c =? 9)%N || (c =? 10)%N || (c =? 13)%N || (c =? 27)%N.

Lemma sanitize_keeps cs :
  Forall (fun c => is_scalar c = true) cs -> forallb pasteable cs = true ->
  sanitize_paste (encode_all cs) = cs.
Proof.
  intros Hcs Hp. unfold sanitize_paste. rw (proj2 (from_utf8_encoded cs Hcs)). clear Hcs.
  induction cs as [|c cs IH]; [done|]. cbn in Hp. apply andb_true_iff in Hp as [Hc Hp].
  cbn [List.filter]. unfold pasteable in Hc. rw Hc. by rw IH.
Qed.

(** A paste arrives as one event.  Whatever bytes stand between the paste markers,
    as long as the end marker is not among them and the limit is not reached, they give
    a single paste event and no key press, and the parser is back on the ground; text
    without control characters (tabs, line breaks and escapes aside) arrives unchanged. *)
Theorem paste_arrives p content :
  ip_state p = Ground -> (N.of_nat (length content) + 6 <= MAX_PASTE)%N ->
  (forall a c, content <> a ++ PASTE_END ++ c) ->
  exists p', parse p (PASTE_START ++ content ++ PASTE_END) = Ok (p', [Paste (sanitize_paste content)])
  /\ ip_state p' = Ground /\ ip_paste p' = []
  /\ (forall cs, content = encode_all cs -> Forall (fun c => is_scalar c = true) cs ->
      forallb pasteable cs = true -> sanitize_paste content = cs).
Proof.
  intros Hg Hl Hno. destruct (paste_start p Hg) as [buffer Hs]. exists (mkParser Ground buffer []).
  rw parse_app Hs. cbn [mbind res_bind]. rw parse_app paste_collects //; [cbn; lia|]. cbn [mbind res_bind app].
  rw paste_ends //. split_and!; [done..|]. intros cs ->. apply sanitize_keeps.
Qed.

(** ** Control strings and replies *)
Lemma string_body p body bs :
  (exists alt, ip_state p = StringSeq false alt) -> Forall (fun b => b <> x07 /\ b <> x1b) body ->
  exists p', parse p (body ++ bs) = parse p' bs /\ (exists alt, ip_state p' = StringSeq false alt)
  /\ ip_paste p' = ip_paste p.
Proof.
  intros Hp Hb. revert p Hp. induction Hb as [|b body [H7 He] _ IH]; intros p Hp; [by exists p|].
  destruct Hp as [alt Hs]. destruct (IH (to_state p (StringSeq false None))) as (p' & H & ? & ?); [by eexists|].
  exists p'. split_and!; [|done..]. rw -H. apply parse_silent. unfold InputParser.feed_once. rw Hs.
  unfold feed_string. by rw !byte_eqb_ne.
Qed.

Lemma csi_params p params bs :
  ip_state p = Csi -> forallb is_param params = true ->
  length (ip_buffer p) + length params <= MAX_CSI_PARAMS ->
  parse p (params ++ bs) = parse (mkParser Csi (ip_buffer p ++ params) (ip_paste p)) bs.
Proof.
  revert p. induction params as [|b params IH]; intros p Hs Hb Hl.
  { cbn [app]. rw app_nil_r -Hs. by destruct p. }
  cbn in Hb. apply andb_true_iff in Hb as [Hb Hbs]. cbn [length] in Hl. unfold MAX_CSI_PARAMS in Hl.
  pose proof (IH (mkParser Csi (ip_buffer p ++ [b]) (ip_paste p)) eq_refl Hbs) as E.
  cbn [ip_buffer ip_paste] in E. rw length_app -app_assoc /= in E. rw -E; [unfold MAX_CSI_PARAMS; lia|].
  apply parse_silent. unfold InputParser.feed_once. rw Hs. unfold feed_csi. unfold is_param in Hb. rw Hb Hs.
  by rw decide_False; [unfold MAX_CSI_PARAMS; lia|].
Qed.

(** Entering a control sequence. *)
Lemma csi_start p bs :
  ip_state p = Ground -> parse p (x1b :: x5b :: bs) = parse (mkParser Csi [] (ip_paste p)) bs.
Proof.
  intros Hg. rw (parse_silent p x1b (to_state p Escape)).
  { unfold InputParser.feed_once. by rw Hg. }
  by apply parse_silent.
Qed.

(** A complete control sequence is dispatched on its final byte. *)
Lemma csi_sequence p params final bs :
  ip_state p = Ground -> forallb is_param params = true -> length params <= MAX_CSI_PARAMS ->
  in_range 0x40 0x7e (code final) = true ->
  parse p (x1b :: x5b :: params ++ final :: bs)
  = ('(p, evs) ← Ok (dispatch_csi (mkParser Csi params (ip_paste p)) final);
     '(p, more) ← parse p bs; Ok (p, evs ++ more)).
Proof.
  intros Hg Hp Hl Hf. rw (csi_start p) // csi_params //. cbn [ip_buffer ip_paste app InputParser.parse].
  unfold InputParser.feed. cbn [InputParser.feed_loop]. unfold InputParser.feed_once. cbn [ip_state].
  unfold feed_csi. rw Hf in_range_false; [apply in_range_spec in Hf; lia|].
  rw (surjective_pairing (dispatch_csi _ _)). cbn [mbind res_bind]. done.
Qed.

Lemma string_terminated p term rest :
  (exists alt, ip_state p = StringSeq false alt) -> term = [x07] \/ term = [x1b; x5c] ->
  parse p (term ++ rest) = parse (to_state p Ground) rest.
Proof.
  intros [alt Hs] [-> | ->]; cbn [app].
  - apply parse_silent. unfold InputParser.feed_once. by rw Hs.
  - rw (parse_silent p x1b (to_state p (StringSeq true None))); [unfold InputParser.feed_once; by rw Hs|].
    by apply parse_silent.
Qed.

(** Replies of the terminal never turn into key presses.  A control string of any
    of the five kinds, whatever its content, up to either terminator, and a report that
    answers a device query give no event at all, and what follows them is parsed as if
    they were not there. *)
Theorem replies_are_silent p introducer body term params final rest :
  ip_state p = Ground -> is_string_introducer introducer = true ->
  Forall (fun b => b <> x07 /\ b <> x1b) body -> term = [x07] \/ term = [x1b; x5c] ->
  forallb is_param params = true -> is_reply params = true -> length params <= MAX_CSI_PARAMS ->
  in_range 0x40 0x7e (code final) = true ->
  exists p1 p2, ip_state p1 = Ground /\ ip_state p2 = Ground
  /\ parse p (x1b :: introducer :: body ++ term ++ rest) = parse p1 rest
  /\ parse p (x1b :: x5b :: params ++ final :: rest) = parse p2 rest.
Proof.
  intros Hg Hi Hbody Hterm Hparams Hreply Hl Hf.
  destruct (string_body (to_state p (StringSeq false (Some introducer))) body (term ++ rest))
    as (p1 & H1 & Hs1 & _); [by eexists|done|].
  exists (to_state p1 Ground), (mkParser Ground [] (ip_paste p)). split_and!; [done..| |].
  - rw -(string_terminated p1 term) // -H1.
    rw (parse_silent p x1b (to_state p Escape)); [unfold InputParser.feed_once; by rw Hg|].
    apply parse_silent. unfold InputParser.feed_once. cbn [ip_state to_state]. unfold feed_escape.
    assert (byte_eqb introducer x5b = false /\ byte_eqb introducer x4f = false) as [-> ->].
    { clear - Hi. split; apply bool_decide_eq_false_2; intros ->; discriminate. }
    by rw Hi.
  - rw csi_sequence //. unfold InputParser.dispatch_csi. cbn [ip_buffer ip_paste]. rw Hreply. cbn [mbind res_bind].
    by destruct (parse _ rest) as [[? ?]|].
Qed.
End parser.

(** ** Ambiguous prefixes *)
(** [flush] resolves exactly the prefixes that are pending, each to one key press, and
    leaves every other partial sequence alone. *)
Theorem flush_resolves p :
  if escape_pending p then
    (exists key, (flush p).2 = [event_key key]) /\ ip_state (flush p).1 = Ground /\ escape_pending (flush p).1 = false
  else flush p = (p, []).
Proof.
  unfold escape_pending, flush. destruct (ip_state p) as [| | | | | | | | |[] []]; try done;
    try case_bool_decide; try done; (split; [by eexists|done]).
Qed.
