(* ===== verification/InputReports.v ===== *)
(** * Mouse reports, end to end

    Models crates/fresh-input-parser/src/encode.rs, the encoder of SGR mouse reports, and
    shows that the parser decodes what it encodes; that the report scanner classifies every report as the parser does; and what
    the coalescing of pointer motion keeps.  At the end, concrete inputs. *)
From stdpp Require Import base numbers list option strings.
From Stdlib Require Import ssreflect Strings.Byte NArith.
From S2P Require Import Prelude TextSpec Utf8 InputKeys InputMouse InputParser InputParserInv.

(** ** Decimal numbers *)
Fixpoint print_dec (fuel : nat) (n : N) : list byte :=
  match fuel with
  | 0 => []
  | S fuel => (if (n <? 10)%N then [] else print_dec fuel (n / 10)) ++ [byte_of (48 + n mod 10)]
  end.

(** Twenty digits are enough for 64-bit numbers. *)
Definition print_uint (n : N) : list byte := print_dec 20 n.

Definition is_digit (b : byte) : bool := in_range 48 57 (code b).

Lemma digit_code n : (n < 10)%N -> code (byte_of (48 + n)) = (48 + n)%N.
Proof. intros. apply code_byte_of. lia. Qed.

Lemma print_dec_digits fuel n : forallb is_digit (print_dec fuel n) = true.
Proof.
  revert n. induction fuel as [|fuel IH]; intros n; [done|]. cbn [print_dec]. rw forallb_app.
  assert (n mod 10 < 10)%N by (apply N.mod_lt; done).
  cbn [forallb]. unfold is_digit at 2. rw digit_code // in_range_true; [lia|].
  rw !andb_true_r. by destruct (n <? 10)%N.
Qed.

Lemma print_dec_length fuel n : length (print_dec fuel n) <= fuel.
Proof.
  revert n. induction fuel as [|fuel IH]; intros n; [done|]. cbn [print_dec]. rw length_app /=.
  specialize (IH (n / 10)%N). destruct (n <? 10)%N; simpl; lia.
Qed.

Lemma parse_digits_app max a s t :
  parse_digits max a (s ++ t) = (a ← parse_digits max a s; parse_digits max a t).
Proof.
  revert a. induction s as [|b s IH]; intros a; [done|]. cbn [app parse_digits].
  destruct (in_range 48 57 (code b)); [|done]. destruct (max <? _)%N; [done|]. apply IH.
Qed.

Lemma print_dec_parse max fuel n :
  (n < 10 ^ N.of_nat fuel)%N -> fuel <> 0 ->
  parse_digits max 0 (print_dec fuel n) = if (n <=? max)%N then Some n else None.
Proof.
  revert n. induction fuel as [|fuel IH]; intros n Hn Hf; [done|]. cbn [print_dec].
  assert (n mod 10 < 10)%N by (apply N.mod_lt; done).
  assert (n = 10 * (n / 10) + n mod 10)%N as Hdiv by (apply N.div_mod; done).
  assert (parse_digits max (n / 10) [byte_of (48 + n mod 10)] = if (n <=? max)%N then Some n else None) as Hlast.
  { cbn [parse_digits]. rw digit_code // in_range_true; [lia|].
    replace (n / 10 * 10 + (48 + n mod 10 - 48))%N with n by lia.
    by destruct (N.ltb_spec max n), (N.leb_spec n max); try lia. }
  destruct (N.ltb_spec n 10) as [Hlt|Hge].
  - cbn [app]. by rw N.div_small in Hlast.
  - rw parse_digits_app IH.
    + replace (N.of_nat (S fuel)) with (N.succ (N.of_nat fuel)) in Hn by lia. rw N.pow_succ_r' in Hn.
      apply N.Div0.div_lt_upper_bound. lia.
    + destruct fuel; [cbn in Hn; lia|done].
    + destruct (N.leb_spec (n / 10) max); [done|]. cbn [mbind option_bind].
      by destruct (N.leb_spec n max); [lia|].
Qed.

Lemma parse_print max n :
  (n < 10 ^ 20)%N -> parse_uint max (print_uint n) = if (n <=? max)%N then Some n else None.
Proof.
  intros Hn. pose proof (print_dec_parse max 20 n Hn ltac:(done)) as H.
  pose proof (print_dec_digits 20 n) as Hd. fold (print_uint n) in H, Hd. unfold parse_uint.
  destruct (print_uint n) as [|b s] eqn:E.
  { cbn [print_uint print_dec] in E. unfold print_uint in E. cbn [print_dec] in E. by destruct (if (n <? 10)%N then _ else _). }
  cbn in Hd. apply andb_true_iff in Hd as [Hb _]. rw byte_eqb_ne //. intros ->. discriminate.
Qed.

(** ** Reports *)
Definition sgr_report (cb column row : N) (pressed : bool) : list byte :=
  [x1b; x5b; x3c] ++ print_uint cb ++ [x3b] ++ print_uint column ++ [x3b] ++ print_uint row
  ++ [if pressed then x4d else x6d].

Lemma split_on_digits s t :
  forallb is_digit s = true ->
  split_on x3b (s ++ x3b :: t) = s :: split_on x3b t /\ split_on x3b s = [s].
Proof.
  induction s as [|b s IH]; intros Hd; [done|]. cbn in Hd. apply andb_true_iff in Hd as [Hb Hd].
  cbn [app split_on]. rw byte_eqb_ne; [intros ->; discriminate|]. by destruct (IH Hd) as [-> ->].
Qed.

Lemma digit_param b : is_digit b = true -> is_param b = true /\ (code b <? 128)%N = true.
Proof.
  unfold is_digit, is_param. rw !in_range_spec N.ltb_lt. lia.
Qed.

Lemma digits_params s :
  forallb is_digit s = true -> forallb is_param s = true /\ forallb (fun b => (code b <? 128)%N) s = true.
Proof.
  induction s as [|b s IH]; [done|]. cbn. intros [Hb Hs]%andb_true_iff.
  destruct (digit_param b Hb) as [-> ->]. by apply IH.
Qed.

(** What a report means. *)
Definition report_kind (cb : N) (pressed : bool) : option MouseEventKind :=
  if (cb <=? u8_max)%N then sgr_mouse_kind cb pressed else None.

Definition report_event (cb column row : N) (pressed : bool) : option InputEvent :=
  kind ← report_kind cb pressed;
  Some (Mouse (mkMouseEvent kind (column - 1) (row - 1) (mouse_modifiers cb))).

Section reports.
Context (uppercase_of : N -> list N).
Local Abbreviation parse := (parse uppercase_of).

Lemma sgr_event_ok cb column row pressed :
  (cb < 10 ^ 20)%N -> (column <= u16_max)%N -> (row <= u16_max)%N ->
  sgr_mouse_event (x3c :: print_uint cb ++ x3b :: print_uint column ++ x3b :: print_uint row) pressed
  = report_event cb column row pressed.
Proof.
  intros Hcb Hc Hr. unfold sgr_mouse_event.
  pose proof (print_dec_digits 20 cb) as Db. pose proof (print_dec_digits 20 column) as Dc.
  pose proof (print_dec_digits 20 row) as Dr. fold (print_uint cb) in Db. fold (print_uint column) in Dc.
  fold (print_uint row) in Dr.
  replace (from_utf8 _) with (@None (nat * option nat)).
  2: { symmetry. apply utf8_scan_ascii. rw forallb_app. cbn [forallb]. rw forallb_app. cbn [forallb].
       by rw (proj2 (digits_params _ Db)) (proj2 (digits_params _ Dc)) (proj2 (digits_params _ Dr)). }
  rw (proj1 (split_on_digits _ _ Db)) (proj1 (split_on_digits _ _ Dc)) (proj2 (split_on_digits _ [] Dr)).
  unfold u16_max in *. rw !parse_print; [lia..|]. rw (proj2 (N.leb_le column _) Hc) (proj2 (N.leb_le row _) Hr).
  cbn [default]. unfold report_event, report_kind. by destruct (cb <=? u8_max)%N.
Qed.

Lemma sgr_report_parsed p cb column row pressed :
  ip_state p = Ground -> (cb < 10 ^ 20)%N -> (column <= u16_max)%N -> (row <= u16_max)%N ->
  exists p', parse p (sgr_report cb column row pressed)
    = Ok (p', option_list (report_event cb column row pressed)) /\ ip_state p' = Ground.
Proof.
  intros Hg Hcb Hc Hr. exists (mkParser Ground [] (ip_paste p)). split; [|done].
  set (params := x3c :: print_uint cb ++ x3b :: print_uint column ++ x3b :: print_uint row).
  replace (sgr_report cb column row pressed) with (x1b :: x5b :: params ++ [if pressed then x4d else x6d]).
  2: { unfold sgr_report, params. cbn [app]. do 2 (rw -app_assoc; cbn [app]). done. }
  rw csi_sequence //.
  - unfold params. cbn [forallb]. rw forallb_app. cbn [forallb]. rw forallb_app. cbn [forallb].
    by rw !(proj1 (digits_params _ (print_dec_digits 20 _))).
  - unfold params. cbn [length]. rw length_app. cbn [length]. rw length_app. cbn [length].
    pose proof (print_dec_length 20 cb). pose proof (print_dec_length 20 column). pose proof (print_dec_length 20 row).
    unfold print_uint, MAX_CSI_PARAMS. lia.
  - by destruct pressed.
  - unfold dispatch_csi. cbn [ip_buffer ip_paste]. change (is_reply params) with false. cbn [mbind res_bind].
    rw -(sgr_event_ok cb column row pressed) //. fold params.
    by destruct pressed; cbn -[sgr_mouse_event params]; destruct (sgr_mouse_event params _).
Qed.

(** ** Encoding and decoding *)
Definition button (b : MouseButton) : N :=
  match b with BLeft => 0 | BMiddle => 1 | BRight => 2 end.

Definition kind_code (k : MouseEventKind) : N * bool :=
  match k with
  | MDown b => (button b, false)
  | MUp b => (button b, true)
  | MDrag b => ((32 + button b)%N, false)
  | MMoved => (35%N, false)
  | ScrollUp => (64%N, false)
  | ScrollDown => (65%N, false)
  | ScrollLeft => (66%N, false)
  | ScrollRight => (67%N, false)
  end.

Definition mouse_to_sgr (event : MouseEvent) : list byte :=
  let '(cb, release) := kind_code (me_kind event) in
  let cb := if mods_contain (me_modifiers event) SHIFT then (cb + 4)%N else cb in
  let cb := if mods_contain (me_modifiers event) ALT then (cb + 8)%N else cb in
  let cb := if mods_contain (me_modifiers event) CONTROL then (cb + 16)%N else cb in
  sgr_report cb (me_column event + 1) (me_row event + 1) (negb release).

(** The button byte of an event says what the event is. *)
Lemma mouse_to_sgr_report e :
  (me_modifiers e < 8)%N ->
  exists cb pressed, mouse_to_sgr e = sgr_report cb (me_column e + 1) (me_row e + 1) pressed
  /\ (cb <= u8_max)%N /\ mouse_modifiers cb = me_modifiers e
  /\ sgr_mouse_kind cb pressed = Some (me_kind e).
Proof.
  destruct e as [k column row mods]. unfold mouse_to_sgr. cbn [me_kind me_column me_row me_modifiers].
  intros H.
  assert (mods = 0 \/ mods = 1 \/ mods = 2 \/ mods = 3 \/ mods = 4 \/ mods = 5 \/ mods = 6 \/ mods = 7)%N as Hc by lia.
  destruct_or! Hc; subst mods; destruct k as [[]|[]|[]| | | | |]; cbn -[sgr_report];
    (eexists _, _; split; [reflexivity|]); split_and!; by vm_compute.
Qed.

(** Mouse reports round-trip.  Every mouse event with Shift, Control and Alt among
    its modifiers and coordinates below 2^16 - 1, encoded by the client for the console
    mouse and fed to a parser on the ground, comes back as exactly that event, and the
    parser is on the ground again. *)
Theorem mouse_report_roundtrip p e :
  ip_state p = Ground -> (me_modifiers e < 8)%N ->
  (me_column e < u16_max)%N -> (me_row e < u16_max)%N ->
  exists p', parse p (mouse_to_sgr e) = Ok (p', [Mouse e]) /\ ip_state p' = Ground.
Proof.
  intros Hg Hm Hc Hr. destruct (mouse_to_sgr_report e Hm) as (cb & pressed & -> & Hcb & Hmods & Hk).
  destruct (sgr_report_parsed p cb (me_column e + 1) (me_row e + 1) pressed Hg)
    as (p' & Hp & Hg'); [unfold u8_max in Hcb; lia|lia..|].
  exists p'. split; [|done]. rw Hp. unfold report_event, report_kind. rw (proj2 (N.leb_le _ _) Hcb) Hk.
  cbn [mbind option_bind option_list]. rw Hmods !N.add_sub. by destruct e.
Qed.

(** ** The scanner *)
Fixpoint scan_results (s : MouseReportScanner) (bytes : list byte) : MouseReportScanner * list MouseScan :=
  match bytes with
  | [] => (s, [])
  | b :: bytes => let '(s, r) := scan_step s b in let '(s, rs) := scan_results s bytes in (s, r :: rs)
  end.

Definition partials (bytes : list byte) : list MouseScan := (fun _ => Partial) <$> bytes.

Lemma scan_results_feed s bytes : (scan_results s bytes).1 = scan_feed s bytes.
Proof.
  revert s. induction bytes as [|b bytes IH]; intros s; [done|]. cbn [scan_results scan_feed].
  destruct (scan_step s b) as [s1 r]. specialize (IH s1). by destruct (scan_results s1 bytes).
Qed.

Lemma scan_partial s b s1 bytes s2 rs :
  offer s b = Some (s1, Partial) -> scan_results s1 bytes = (s2, rs) ->
  scan_results s (b :: bytes) = (s2, Partial :: rs).
Proof. intros H1 H2. cbn [scan_results]. unfold scan_step. by rw H1 H2. Qed.

Fixpoint dec_value (acc : N) (s : list byte) : N :=
  match s with [] => acc | b :: s => dec_value (acc * 10 + (code b - 48)) s end.

Lemma dec_value_app acc s t : dec_value acc (s ++ t) = dec_value (dec_value acc s) t.
Proof. revert acc. induction s as [|b s IH]; intros acc; [done|]. apply IH. Qed.

Lemma dec_value_print fuel n : (n < 10 ^ N.of_nat fuel)%N -> dec_value 0 (print_dec fuel n) = n.
Proof.
  revert n. induction fuel as [|fuel IH]; intros n Hn; [cbn in *; lia|]. cbn [print_dec].
  assert (n mod 10 < 10)%N by (apply N.mod_lt; done).
  assert (n = 10 * (n / 10) + n mod 10)%N as Hdiv by (apply N.div_mod; done).
  rw dec_value_app. cbn [dec_value]. rw digit_code //. destruct (N.ltb_spec n 10) as [Hlt|Hge].
  - rw N.mod_small //. cbn. lia.
  - rw IH; [|lia]. replace (N.of_nat (S fuel)) with (N.succ (N.of_nat fuel)) in Hn by lia.
    rw N.pow_succ_r' in Hn. apply N.Div0.div_lt_upper_bound. lia.
Qed.

(** The digits of the first parameter are accumulated, those of the others skipped. *)
Lemma scan_digits digits bytes v first x10 down s2 rs :
  forallb is_digit digits = true ->
  scan_results (mkScanner SSgr (N.min u32_max (if first : bool then dec_value v digits else v)) first x10 down) bytes = (s2, rs) ->
  scan_results (mkScanner SSgr (N.min u32_max v) first x10 down) (digits ++ bytes)
  = (s2, partials digits ++ rs).
Proof.
  revert v. induction digits as [|b digits IH]; intros v Hd H; [by destruct first|].
  cbn in Hd. apply andb_true_iff in Hd as [Hb Hd].
  eapply (scan_partial _ b (mkScanner SSgr (N.min u32_max (if first then v * 10 + (code b - 48) else v)%N) first x10 down)).
  - unfold offer. cbn [sc_state]. unfold is_digit in Hb. rw Hb. cbn [sc_cb sc_on_first_param sc_x10_cb sc_button_down].
    do 3 f_equal. destruct first; [|done]. unfold u32_max. lia.
  - apply IH; [done|]. by destruct first.
Qed.

Lemma scan_separator bytes v first x10 down s2 rs :
  scan_results (mkScanner SSgr v false x10 down) bytes = (s2, rs) ->
  scan_results (mkScanner SSgr v first x10 down) (x3b :: bytes) = (s2, Partial :: rs).
Proof. intros H. by eapply scan_partial. Qed.

(** The button state after a report. *)
Definition held_after (down : bool) (kind : option MouseEventKind) : bool :=
  match kind with Some (MDown _) => true | Some (MUp _) => false | _ => down end.

(** A report whose three fields are the digits [fa], [fb] and [fc]. *)
Lemma fields_scanned s fa fb fc cb (pressed : bool) :
  sc_state s = SGround -> forallb is_digit fa = true -> forallb is_digit fb = true ->
  forallb is_digit fc = true -> dec_value 0 fa = cb ->
  let init := [x1b; x5b; x3c] ++ fa ++ [x3b] ++ fb ++ [x3b] ++ fc in
  exists s', scan_results s (init ++ [if pressed then x4d else x6d])
    = (s', partials init ++ [Complete (report_kind cb pressed)])
  /\ sc_state s' = SGround /\ sc_button_down s' = held_after (sc_button_down s) (report_kind cb pressed).
Proof.
  intros Hs Ha Hb Hc Hcb. cbv zeta.
  set (done_ := mkScanner SSgr (N.min u32_max cb) false (sc_x10_cb s) (sc_button_down s)).
  exists (scan_complete done_ (report_kind cb pressed)).1.
  split; [|by destruct (report_kind cb pressed) as [[]|]]. cbn [app partials fmap list_fmap].
  do 3 (eapply scan_partial; [unfold offer; by rw ?Hs|]).
  change (mkScanner SSgr 0 true _ _)
    with (mkScanner SSgr (N.min u32_max 0) true (sc_x10_cb s) (sc_button_down s)).
  do 2 (rw -app_assoc; cbn [app]). rw fmap_app. cbn [fmap list_fmap]. rw fmap_app. cbn [fmap list_fmap].
  rw -!app_assoc. cbn [app]. rw -app_assoc.
  apply (scan_digits fa); [done|]. cbn [dec_value]. rw Hcb.
  apply scan_separator. apply (scan_digits fb _ _ false); [done|].
  apply scan_separator. apply (scan_digits fc _ _ false); [done|]. fold done_.
  cbn [scan_results]. unfold scan_step, offer. cbn [sc_state done_].
  destruct pressed; cbn -[N.min u32_max u8_max sgr_mouse_kind scan_complete];
    unfold report_kind; (destruct (N.leb_spec (N.min u32_max cb) u8_max), (N.leb_spec cb u8_max);
      unfold u32_max, u8_max in *; try lia; [by rw N.min_r; [lia|]|done]).
Qed.

Lemma x10_parsed p b0 b1 b2 :
  ip_state p = Ground -> (32 <= code b0)%N -> (32 <= code b1)%N -> (32 <= code b2)%N ->
  exists p', parse p [x1b; x5b; x4d; b0; b1; b2] = Ok (p', option_list (x10_mouse_event b0 b1 b2))
  /\ ip_state p' = Ground.
Proof.
  intros Hg H0 H1 H2. exists (mkParser Ground [] (ip_paste p)). split; [|done].
  change [x1b; x5b; x4d; b0; b1; b2] with (x1b :: x5b :: [] ++ x4d :: [b0; b1; b2]).
  rw csi_sequence //; [cbn; lia|].
  change (dispatch_csi uppercase_of (mkParser Csi [] (ip_paste p)) x4d)
    with (mkParser (X10 [x00; x00; x00] 0) [] (ip_paste p), @nil InputEvent). cbn [mbind res_bind].
  rw (parse_silent _ _ _ (mkParser (X10 [b0; x00; x00] 1) [] (ip_paste p))).
  { unfold feed_once. cbn [ip_state]. unfold feed_x10. by rw (proj2 (N.ltb_ge _ _)). }
  rw (parse_silent _ _ _ (mkParser (X10 [b0; b1; x00] 2) [] (ip_paste p))).
  { unfold feed_once. cbn [ip_state]. unfold feed_x10. by rw (proj2 (N.ltb_ge _ _)). }
  rw (parse_consumed uppercase_of _ b2 [] (mkParser Ground [] (ip_paste p))
        (option_list (x10_mouse_event b0 b1 b2)) (mkParser Ground [] (ip_paste p)) []) //.
  { unfold feed_once. cbn [ip_state]. unfold feed_x10. by rw (proj2 (N.ltb_ge _ _)). }
  cbn [mbind res_bind app]. by rw app_nil_r.
Qed.

(** C12: the scanner and the parser read mouse reports alike.  For every SGR report with
    a button number of up to twenty digits and 16-bit coordinates, and every X10 report
    whose bytes are at least 32, the scanner takes each byte as part of the report,
    completes it on the last one with the kind of the event that the parser gives, or
    with none exactly when the parser gives no event, and a button is held after it
    exactly when the report was a press, or was neither press nor release and one was
    held before. *)
Theorem scanner_agrees_with_parser s p cb column row pressed b0 b1 b2 :
  sc_state s = SGround -> ip_state p = Ground ->
  (cb < 10 ^ 20)%N -> (column <= u16_max)%N -> (row <= u16_max)%N ->
  (32 <= code b0)%N -> (32 <= code b1)%N -> (32 <= code b2)%N ->
  Forall (fun report =>
    exists s' p' kind event init final,
      report = init ++ [final] /\ scan_results s report = (s', partials init ++ [Complete kind])
      /\ sc_state s' = SGround /\ sc_button_down s' = held_after (sc_button_down s) kind
      /\ parse p report = Ok (p', option_list (Mouse <$> event)) /\ ip_state p' = Ground
      /\ kind = me_kind <$> event)
    [sgr_report cb column row pressed; [x1b; x5b; x4d; b0; b1; b2]].
Proof.
  intros Hs Hp Hcb Hc Hr H0 H1 H2. repeat constructor.
  - destruct (sgr_report_parsed p cb column row pressed Hp Hcb Hc Hr) as (p' & Hpa & Hg).
    destruct (fields_scanned s (print_uint cb) (print_uint column) (print_uint row) cb pressed)
      as (s' & Hsc & Hs' & Hd); [done|apply print_dec_digits..|by apply dec_value_print|].
    set (init := [x1b; x5b; x3c] ++ _) in Hsc.
    assert (sgr_report cb column row pressed = init ++ [if pressed then x4d else x6d]) as Hrep.
    { unfold sgr_report, init. cbn [app]. do 2 (rw -app_assoc; cbn [app]). done. }
    exists s', p', (report_kind cb pressed),
      ((fun k => mkMouseEvent k (column - 1) (row - 1) (mouse_modifiers cb)) <$> report_kind cb pressed),
      init, (if pressed then x4d else x6d).
    split_and!; [done|by rw Hrep|done|done| |done|by destruct (report_kind cb pressed)].
    rw Hpa. unfold report_event. by destruct (report_kind cb pressed).
  - destruct (x10_parsed p b0 b1 b2 Hp H0 H1 H2) as (p' & Hpa & Hg).
    set (x := mkScanner (SX10 2) (sc_cb s) (sc_on_first_param s) (debias b0) (sc_button_down s)).
    exists (scan_complete x (x10_mouse_kind (debias b0))).1, p', (x10_mouse_kind (debias b0)),
      ((fun k => mkMouseEvent k (debias b1 - 1) (debias b2 - 1) (mouse_modifiers (debias b0)))
         <$> x10_mouse_kind (debias b0)), [x1b; x5b; x4d; b0; b1], b2.
    split_and!; [done| |done| | |done|by destruct (x10_mouse_kind (debias b0))].
    + do 5 (eapply scan_partial; [unfold offer; cbn; by rw ?Hs|]). done.
    + by destruct (x10_mouse_kind (debias b0)) as [[]|].
    + rw Hpa. unfold x10_mouse_event. by destruct (x10_mouse_kind (debias b0)).
Qed.
End reports.

(** ** Coalescing *)
Definition same_motion (a b : InputEvent) : bool :=
  bool_decide (is_Some (motion_run b) /\ motion_run a = motion_run b).

(** The reference: an event stays unless the next one continues its motion. *)
Fixpoint keep_last (events : list InputEvent) : list InputEvent :=
  match events with
  | [] => []
  | ev :: rest =>
      match rest with
      | next :: _ => if same_motion ev next then keep_last rest else ev :: keep_last rest
      | [] => [ev]
      end
  end.

Lemma coalesce_loop_ok out l events :
  coalesce_loop (out ++ [l]) events = out ++ keep_last (l :: events).
Proof.
  revert out l. induction events as [|ev events IH]; intros out l; [done|].
  cbn [coalesce_loop keep_last]. rw last_snoc. unfold coalesce_motion_into.
  unfold same_motion. case_bool_decide.
  - rw length_app Nat.add_sub take_app_length. apply IH.
  - rw IH. by rw -app_assoc.
Qed.

(** Coalescing keeps what still holds.  The queue after a batch of events is the
    batch without the motion reports that the next event continues: of every run of the
    same motion the last report stays, everything else stays, and the order is kept. *)
Theorem coalesce_motion_keeps_last events : coalesce_motion events = keep_last events.
Proof. destruct events as [|ev events]; [done|]. apply (coalesce_loop_ok [] ev). Qed.

(** ** Examples *)
Definition no_case (c : N) : list N := [].

Lemma typed_text_arrives_witness :
  exists p', parse no_case parser_new [x68; xc3; xa9; xf0; x9f; x98; x80]
    = Ok (p', typed <$> [104; 233; 128512]%N) /\ ip_state p' = Ground /\ ip_paste p' = [].
Proof.
  apply (typed_text_arrives no_case parser_new [104; 233; 128512]%N); [reflexivity|].
  repeat (apply Forall_cons_2; [split; [reflexivity|split; lia]|]). apply Forall_nil_2.
Defined.

Lemma paste_arrives_witness :
  exists p', parse no_case parser_new (PASTE_START ++ [x61; x1b; x5b; x0a] ++ PASTE_END)
    = Ok (p', [Paste [97; 27; 91; 10]%N]) /\ ip_state p' = Ground.
Proof.
  destruct (paste_arrives no_case parser_new [x61; x1b; x5b; x0a]) as (p' & H & Hg & _).
  - reflexivity.
  - vm_compute. intros H. discriminate H.
  - intros a c H. apply (f_equal length) in H. rw !length_app /= in H. lia.
  - exists p'. exact (conj H Hg).
Defined.

Lemma replies_are_silent_witness :
  exists p1 p2, ip_state p1 = Ground /\ ip_state p2 = Ground
  /\ parse no_case parser_new [x1b; x5d; x35; x32; x3b; x63; x1b; x5c; x61] = parse no_case p1 [x61]
  /\ parse no_case parser_new [x1b; x5b; x3f; x31; x75; x61] = parse no_case p2 [x61].
Proof.
  apply (replies_are_silent no_case parser_new x5d [x35; x32; x3b; x63] [x1b; x5c] [x3f; x31] x75 [x61]);
    try reflexivity; [|by right|unfold MAX_CSI_PARAMS; simpl; lia].
  repeat (apply Forall_cons_2; [split; discriminate|]). apply Forall_nil_2.
Defined.

Lemma mouse_report_roundtrip_witness :
  let e := mkMouseEvent (MDrag BRight) 79 23 5 in
  exists p', parse no_case parser_new (mouse_to_sgr e) = Ok (p', [Mouse e]) /\ ip_state p' = Ground.
Proof. apply (mouse_report_roundtrip no_case parser_new); reflexivity. Defined.

Lemma scanner_agrees_with_parser_witness :
  Forall (fun report =>
    exists s' p' kind event init final,
      report = init ++ [final] /\ scan_results scanner_new report = (s', partials init ++ [Complete kind])
      /\ sc_state s' = SGround /\ sc_button_down s' = held_after false kind
      /\ parse no_case parser_new report = Ok (p', option_list (Mouse <$> event)) /\ ip_state p' = Ground
      /\ kind = me_kind <$> event)
    [sgr_report 0 10 20 true; [x1b; x5b; x4d; x20; x2a; x34]].
Proof.
  apply (scanner_agrees_with_parser no_case scanner_new parser_new 0 10 20 true x20 x2a x34);
    first [reflexivity | (vm_compute; intros H; discriminate H)].
Defined.

(** ** Limits *)
(** The scanner takes a report without a button number for a press of the left button,
    where the parser drops it as malformed. *)
Theorem scanner_accepts_malformed :
  let report := [x1b; x5b; x3c; x3b; x31; x3b; x31; x4d] in
  list.last (scan_results scanner_new report).2 = Some (Complete (Some (MDown BLeft)))
  /\ snd <$> (match parse no_case parser_new report with Ok r => Some r | Panic => None end) = Some [].
Proof. by vm_compute. Qed.
