(* ===== verification/LineDiff.v ===== *)
(** * Line diff

    Models crates/fresh-core/src/diff.rs: the patience diff of two texts by lines, the
    mapping of an offset through it, and the byte geometry of a comparison.

    Lines are interned to 32-bit ids; line numbers are [nat], exact as long as a text
    has fewer than 2^32 lines.  Hunks pushed onto the output are the list a function
    returns.  Loops over two slices from their ends are loops over the reversed slices,
    and the dense table of the longest common subsequence is the list of its rows. *)
From stdpp Require Import base numbers list option gmap.
From Stdlib Require Import ssreflect Strings.Byte NArith.
From S2P Require Import Prelude TextSpec Utf8.

#[export] Instance byte_countable : Countable byte :=
  inj_countable Byte.to_N Byte.of_N Byte.of_to_N.

Record LineDiffHunk := mkHunk {
  h_old_start : nat; h_old_count : nat; h_new_start : nat; h_new_count : nat;
}.

#[export] Instance LineDiffHunk_eq_dec : EqDecision LineDiffHunk.
Proof. solve_decision. Defined.

Definition h_old_end (h : LineDiffHunk) : nat := h_old_start h + h_old_count h.
Definition h_new_end (h : LineDiffHunk) : nat := h_new_start h + h_new_count h.

Definition FALLBACK_LCS_CELLS : N := 1000000.
Definition MAX_PATIENCE_DEPTH : nat := 32.

(** [str::split_inclusive('\n')]: the lines with their line feeds. *)
Fixpoint split_inclusive (t : list byte) : list (list byte) :=
  match t with
  | [] => []
  | b :: t =>
      if is_nl b then [b] :: split_inclusive t
      else match split_inclusive t with [] => [[b]] | l :: ls => (b :: l) :: ls end
  end.

(** ** Interning *)
Abbreviation LineInterner := (gmap (list byte) N).

Definition intern (map : LineInterner) (line : list byte) : LineInterner * N :=
  let next := (N.of_nat (size map) mod 2 ^ 32)%N in
  match map !! line with
  | Some id => (map, id)
  | None => (<[line := next]> map, next)
  end.

Fixpoint intern_all (map : LineInterner) (lines : list (list byte)) : LineInterner * list N :=
  match lines with
  | [] => (map, [])
  | l :: lines =>
      let '(map, id) := intern map l in
      let '(map, ids) := intern_all map lines in (map, id :: ids)
  end.

(** ** Patience anchors *)
Record Occurrence := mkOccurrence { oc_old_count : nat; oc_new_count : nat; oc_old_pos : nat }.

Fixpoint count_old (occurrences : gmap N Occurrence) (i : nat) (old_mid : list N) : gmap N Occurrence :=
  match old_mid with
  | [] => occurrences
  | id :: old_mid =>
      let e := default (mkOccurrence 0 0 0) (occurrences !! id) in
      count_old (<[id := mkOccurrence (oc_old_count e + 1) (oc_new_count e) i]> occurrences)
        (S i) old_mid
  end.

Fixpoint count_new (occurrences : gmap N Occurrence) (new_mid : list N) : gmap N Occurrence :=
  match new_mid with
  | [] => occurrences
  | id :: new_mid =>
      count_new
        match occurrences !! id with
        | Some e => <[id := mkOccurrence (oc_old_count e) (oc_new_count e + 1) (oc_old_pos e)]> occurrences
        | None => occurrences
        end new_mid
  end.

Fixpoint candidate_pairs (occurrences : gmap N Occurrence) (j : nat) (new_mid : list N) : list (nat * nat) :=
  match new_mid with
  | [] => []
  | id :: new_mid =>
      match occurrences !! id with
      | Some e => if (oc_old_count e =? 1) && (oc_new_count e =? 1) then [(oc_old_pos e, j)] else []
      | None => []
      end ++ candidate_pairs occurrences (S j) new_mid
  end.

Definition unique_pairs (old_mid new_mid : list N) : list (nat * nat) :=
  candidate_pairs (count_new (count_old ∅ 0 old_mid) new_mid) 0 new_mid.

(** The longest increasing subsequence by patience sorting.  [tails] holds indices of
    [pairs], in range and with increasing old positions ([lis_inv]), [back] the
    backpointers. *)
Definition old_pos_at (pairs : list (nat * nat)) (t : nat) : nat := default 0 (fst <$> pairs !! t).

Definition lis_step (pairs : list (nat * nat)) (st : list nat * list (option nat)) (idx old_pos : nat)
    : list nat * list (option nat) :=
  let '(tails, back) := st in
  let insert_at := partition_point (fun t => old_pos_at pairs t <? old_pos) tails in
  let back := if 0 <? insert_at then <[idx := tails !! (insert_at - 1)]> back else back in
  let tails := if insert_at =? length tails then tails ++ [idx] else <[insert_at := idx]> tails in
  (tails, back).

Fixpoint lis_loop (pairs : list (nat * nat)) (st : list nat * list (option nat)) (idx : nat)
    (rest : list (nat * nat)) : list nat * list (option nat) :=
  match rest with
  | [] => st
  | (old_pos, _) :: rest => lis_loop pairs (lis_step pairs st idx old_pos) (S idx) rest
  end.

(** The loop over the backpointers; each is smaller than the one it is found at, so
    the number of pairs bounds the steps. *)
Fixpoint follow_back (pairs : list (nat * nat)) (back : list (option nat)) (fuel : nat)
    (cursor : option nat) (chain : list (nat * nat)) : res (list (nat * nat)) :=
  match cursor with
  | None => Ok chain
  | Some idx =>
      match fuel, pairs !! idx, back !! idx with
      | S fuel, Some p, Some next => follow_back pairs back fuel next (p :: chain)
      | _, _, _ => Panic
      end
  end.

Definition lis (pairs : list (nat * nat)) : res (list (nat * nat)) :=
  let '(tails, back) := lis_loop pairs ([], replicate (length pairs) None) 0 pairs in
  follow_back pairs back (length pairs) (last tails) [].

Definition patience_anchors (old_mid new_mid : list N) : res (option (list (nat * nat))) :=
  let pairs := unique_pairs old_mid new_mid in
  match pairs with
  | [] => Ok None
  | _ => chain ← lis pairs; Ok (Some chain)
  end.

(** ** Dense LCS *)
Fixpoint dp_row (oi : N) (new : list N) (diag : nat) (above : list nat) (left : nat) : list nat :=
  match new, above with
  | nj :: new, up :: above =>
      let v := if (oi =? nj)%N then diag + 1 else Nat.max up left in
      v :: dp_row oi new up above v
  | _, _ => []
  end.

Definition next_row (oi : N) (new : list N) (prev : list nat) : list nat :=
  match prev with
  | p :: above => 0 :: dp_row oi new p above 0
  | [] => []
  end.

Fixpoint dp_rows (old new : list N) (row : list nat) : list (list nat) :=
  row :: match old with [] => [] | oi :: old => dp_rows old new (next_row oi new row) end.

Definition dp_table (old new : list N) : list (list nat) := dp_rows old new (replicate (length new + 1) 0).

Definition dp_at (dp : list (list nat)) (i j : nat) : nat := default 0 (dp !! i ≫= (fun row => row !! j)).

Inductive Step := SEqual | SDelete | SInsert.

#[export] Instance Step_eq_dec : EqDecision Step.
Proof. solve_decision. Defined.

(** The steps are pushed last first, so each goes in front of the ones before it. *)
Fixpoint backtrack (old new : list N) (dp : list (list nat)) (fuel i j : nat) (steps : list Step) : list Step :=
  match fuel, i, j with
  | S fuel, S i', S j' =>
      if decide (old !! i' = new !! j') then backtrack old new dp fuel i' j' (SEqual :: steps)
      else if dp_at dp i j' <=? dp_at dp i' j then backtrack old new dp fuel i' j (SDelete :: steps)
      else backtrack old new dp fuel i j' (SInsert :: steps)
  | _, _, _ => replicate j SInsert ++ replicate i SDelete ++ steps
  end.

Definition lcs_steps (old new : list N) : list Step :=
  backtrack old new (dp_table old new) (length old + length new) (length old) (length new) [].

(** The forward walk: [open] is where the current run of changes started. *)
Definition close_hunk (old_base new_base : nat) (open : option (nat * nat)) (old_pos new_pos : nat)
    : list LineDiffHunk :=
  match open with
  | Some (o, n) => [mkHunk (old_base + o) (old_pos - o) (new_base + n) (new_pos - n)]
  | None => []
  end.

Fixpoint group_steps (old_base new_base : nat) (open : option (nat * nat)) (old_pos new_pos : nat)
    (steps : list Step) : list LineDiffHunk :=
  match steps with
  | [] => close_hunk old_base new_base open old_pos new_pos
  | SEqual :: steps =>
      close_hunk old_base new_base open old_pos new_pos
      ++ group_steps old_base new_base None (S old_pos) (S new_pos) steps
  | SDelete :: steps =>
      group_steps old_base new_base (Some (default (old_pos, new_pos) open)) (S old_pos) new_pos steps
  | SInsert :: steps =>
      group_steps old_base new_base (Some (default (old_pos, new_pos) open)) old_pos (S new_pos) steps
  end.

Definition lcs_diff (old new : list N) (old_base new_base : nat) : list LineDiffHunk :=
  group_steps old_base new_base None 0 0 (lcs_steps old new).

(** ** The recursion *)
Fixpoint common_prefix {A} `{EqDecision A} (old new : list A) : nat :=
  match old, new with
  | a :: old, b :: new => if decide (a = b) then S (common_prefix old new) else 0
  | _, _ => 0
  end.

Fixpoint diff_gaps (diff : list N -> list N -> nat -> nat -> res (list LineDiffHunk))
    (old_mid new_mid : list N) (old_base new_base : nat) (anchors : list (nat * nat))
    (prev_old prev_new : nat) : res (list LineDiffHunk) :=
  match anchors with
  | [] =>
      old ← slice old_mid prev_old (length old_mid);
      new ← slice new_mid prev_new (length new_mid);
      diff old new (old_base + prev_old) (new_base + prev_new)
  | (a_old, a_new) :: anchors =>
      old ← slice old_mid prev_old a_old;
      new ← slice new_mid prev_new a_new;
      hunks ← diff old new (old_base + prev_old) (new_base + prev_new);
      rest ← diff_gaps diff old_mid new_mid old_base new_base anchors (a_old + 1) (a_new + 1);
      Ok (hunks ++ rest)
  end.

Definition diff_fallback (old_mid new_mid : list N) (old_base new_base : nat) : list LineDiffHunk :=
  if (N.of_nat (length old_mid) * N.of_nat (length new_mid) <=? FALLBACK_LCS_CELLS)%N
  then lcs_diff old_mid new_mid old_base new_base
  else [mkHunk old_base (length old_mid) new_base (length new_mid)].

(** [levels] is MAX_PATIENCE_DEPTH less the depth of the recursion. *)
Fixpoint diff_range (levels : nat) (old new : list N) (old_base new_base : nat) : res (list LineDiffHunk) :=
  let start := common_prefix old new in
  let suffix := common_prefix (reverse (drop start old)) (reverse (drop start new)) in
  old_mid ← slice old start (length old - suffix);
  new_mid ← slice new start (length new - suffix);
  let old_mid_base := old_base + start in
  let new_mid_base := new_base + start in
  if decide (old_mid = [] /\ new_mid = []) then Ok []
  else if decide (old_mid = [] \/ new_mid = [])
  then Ok [mkHunk old_mid_base (length old_mid) new_mid_base (length new_mid)]
  else
    match levels with
    | S levels =>
        anchors ← patience_anchors old_mid new_mid;
        match anchors with
        | Some anchors =>
            diff_gaps (diff_range levels) old_mid new_mid old_mid_base new_mid_base anchors 0 0
        | None => Ok (diff_fallback old_mid new_mid old_mid_base new_mid_base)
        end
    | 0 => Ok (diff_fallback old_mid new_mid old_mid_base new_mid_base)
    end.

Definition diff_interned_lines (old_ids new_ids : list N) : res (list LineDiffHunk) :=
  diff_range MAX_PATIENCE_DEPTH old_ids new_ids 0 0.

Definition compute_line_diff (old_text new_text : list byte) : res (list LineDiffHunk) :=
  let '(map, old_ids) := intern_all ∅ (split_inclusive old_text) in
  let '(_, new_ids) := intern_all map (split_inclusive new_text) in
  diff_interned_lines old_ids new_ids.

(** ** Offsets through a diff *)
Definition vec_at {A} (v : list A) (i : nat) : res A :=
  match v !! i with Some x => Ok x | None => Panic end.

Fixpoint line_starts (pos : nat) (lines : list (list byte)) : list nat :=
  pos :: match lines with [] => [] | l :: lines => line_starts (pos + length l) lines end.

Definition line_start_offsets (text : list byte) : list nat := line_starts 0 (split_inclusive text).

Definition len_utf8 (c : N) : nat := length (encode_utf8 c).

(** The bytes of the common first characters. *)
Fixpoint common_chars (a b : list N) : nat :=
  match a, b with
  | x :: a, y :: b => if (x =? y)%N then len_utf8 x + common_chars a b else 0
  | _, _ => 0
  end.

(** The texts are strings: their characters are those of the lossy decoding. *)
Definition map_offset_within_replacement (old new : list byte) (rel : nat) : nat :=
  let prefix := common_chars (from_utf8_lossy old) (from_utf8_lossy new) in
  if rel <=? prefix then rel else
  let suffix := common_chars (reverse (from_utf8_lossy (drop prefix old)))
                             (reverse (from_utf8_lossy (drop prefix new))) in
  if length old - rel <=? suffix then length new - (length old - rel) else prefix.

Fixpoint map_offset_loop (old_text new_text : list byte) (old_starts new_starts : list nat)
    (offset : nat) (delta : Z) (hunks : list LineDiffHunk) : res nat :=
  let done_ := Nat.min (Z.to_nat (Z.max (Z.of_nat offset + delta) 0)) (length new_text) in
  match hunks with
  | [] => Ok done_
  | h :: hunks =>
      old_start ← vec_at old_starts (h_old_start h);
      if offset <? old_start then Ok done_ else
      old_end ← vec_at old_starts (h_old_start h + h_old_count h);
      new_start ← vec_at new_starts (h_new_start h);
      new_end ← vec_at new_starts (h_new_start h + h_new_count h);
      if offset <? old_end then
        old ← slice old_text old_start old_end;
        new ← slice new_text new_start new_end;
        Ok (new_start + map_offset_within_replacement old new (offset - old_start))
      else
        map_offset_loop old_text new_text old_starts new_starts offset
          (delta + ((Z.of_nat new_end - Z.of_nat new_start) - (Z.of_nat old_end - Z.of_nat old_start)))
          hunks
  end.

Definition map_offset_through_diff (old_text new_text : list byte) (offset : nat) : res nat :=
  let offset := Nat.min offset (length old_text) in
  hunks ← compute_line_diff old_text new_text;
  map_offset_loop old_text new_text (line_start_offsets old_text) (line_start_offsets new_text)
    offset 0 hunks.

(** ** Comparison in bytes *)
Record CompareSide := mkCompareSide {
  cs_start : nat; cs_count : nat; cs_from : nat; cs_to : nat; cs_jump : nat;
  cs_lines : list (nat * nat); cs_spans : list (option (nat * nat));
}.

Record CompareHunk := mkCompareHunk { ch_left : CompareSide; ch_right : CompareSide; ch_eol_only : bool }.

Definition strip_suffix (b : byte) (line : list byte) : list byte :=
  match last line with
  | Some x => if decide (x = b) then take (length line - 1) line else line
  | None => line
  end.

(** A line without its terminator. *)
Definition line_body (line : list byte) : list byte := strip_suffix x0d (strip_suffix x0a line).

Definition is_continuation (b : option byte) : bool :=
  match b with Some b => (N.land (Byte.to_N b) 192 =? 128)%N | None => false end.

(** [while n > 0 && cut(n) { n -= 1 }] *)
Fixpoint back_off (cut : nat -> bool) (n : nat) : nat :=
  match n with 0 => 0 | S m => if cut n then back_off cut m else n end.

Definition changed_span (a b : list byte) : option ((nat * nat) * (nat * nat)) :=
  if decide (a = b) then None else
  let max := Nat.min (length a) (length b) in
  let pre := back_off (fun pre => is_continuation (a !! pre) || is_continuation (b !! pre))
               (common_prefix a b) in
  let suf := back_off (fun suf => is_continuation (a !! (length a - suf))
                                  || is_continuation (b !! (length b - suf)))
               (common_prefix (take (max - pre) (reverse a)) (reverse b)) in
  Some ((pre, length a - suf), (pre, length b - suf)).

Fixpoint side_lines (starts : list nat) (lines : list (list byte)) (start count : nat)
    : res (list (nat * nat)) :=
  match count with
  | 0 => Ok []
  | S count =>
      s ← vec_at starts start;
      l ← vec_at lines start;
      rest ← side_lines starts lines (S start) count;
      Ok ((s, s + length (line_body l)) :: rest)
  end.

Definition compare_side (starts : list nat) (lines : list (list byte)) (start count : nat)
    : res CompareSide :=
  let at_ i := vec_at starts (Nat.min i (length starts - 1)) in
  from ← at_ start;
  to ← at_ (start + count);
  jump ← (if (count =? 0) && (0 <? start) then at_ (start - 1) else at_ start);
  ls ← side_lines starts lines start count;
  Ok (mkCompareSide start count from to jump ls []).

(** The spans of [paired] lines on both sides, and whether no body differs. *)
Fixpoint pair_spans (old_starts new_starts : list nat) (old_lines new_lines : list (list byte))
    (os ns paired : nat) : res (list (option (nat * nat)) * list (option (nat * nat)) * bool) :=
  match paired with
  | 0 => Ok ([], [], true)
  | S paired =>
      a ← vec_at old_lines os;
      b ← vec_at new_lines ns;
      a0 ← vec_at old_starts os;
      b0 ← vec_at new_starts ns;
      '(lspans, rspans, eol) ← pair_spans old_starts new_starts old_lines new_lines (S os) (S ns) paired;
      Ok match changed_span (line_body a) (line_body b) with
         | Some ((ls, le), (rs, re)) => (Some (a0 + ls, a0 + le) :: lspans, Some (b0 + rs, b0 + re) :: rspans, false)
         | None => (None :: lspans, None :: rspans, eol)
         end
  end.

Definition with_spans (side : CompareSide) (spans : list (option (nat * nat))) : CompareSide :=
  mkCompareSide (cs_start side) (cs_count side) (cs_from side) (cs_to side) (cs_jump side) (cs_lines side) spans.

Definition compare_hunk (old_starts new_starts : list nat) (old_lines new_lines : list (list byte))
    (h : LineDiffHunk) : res CompareHunk :=
  let paired := Nat.min (h_old_count h) (h_new_count h) in
  lside ← compare_side old_starts old_lines (h_old_start h) (h_old_count h);
  rside ← compare_side new_starts new_lines (h_new_start h) (h_new_count h);
  '(ls, rs, eol) ← pair_spans old_starts new_starts old_lines new_lines (h_old_start h) (h_new_start h) paired;
  Ok (mkCompareHunk (with_spans lside ls) (with_spans rside rs) ((h_old_count h =? h_new_count h) && eol)).

Fixpoint compare_hunks (old_starts new_starts : list nat) (old_lines new_lines : list (list byte))
    (hunks : list LineDiffHunk) : res (list CompareHunk) :=
  match hunks with
  | [] => Ok []
  | h :: hunks =>
      c ← compare_hunk old_starts new_starts old_lines new_lines h;
      cs ← compare_hunks old_starts new_starts old_lines new_lines hunks;
      Ok (c :: cs)
  end.

Definition compare_texts (old new : list byte) : res (list CompareHunk) :=
  let old_lines := split_inclusive old in
  let new_lines := split_inclusive new in
  let '(ids, old_ids) := intern_all ∅ old_lines in
  let '(_, new_ids) := intern_all ids new_lines in
  hunks ← diff_interned_lines old_ids new_ids;
  compare_hunks (line_starts 0 old_lines) (line_starts 0 new_lines) old_lines new_lines hunks.
