(* ===== verification/LineDiffInv.v ===== *)
(** * The line diff is a diff

    A script walks two sequences in step: common elements are passed over, and between
    them hunks replace a stretch of the old sequence by a stretch of the new one, never
    two in a row.  The patience diff of any two texts is such a script of their lines;
    its anchors are a longest chain of lines that occur once on either side, and its
    fallback keeps a longest common subsequence. *)
From stdpp Require Import base numbers list option gmap sorting.
From Stdlib Require Import ssreflect Strings.Byte NArith.
From S2P Require Import Prelude TextSpec Utf8 LineDiff.

(** ** Scripts *)
Inductive script {A} : bool -> nat -> nat -> list A -> list A -> list LineDiffHunk -> Prop :=
| script_nil f o n : script f o n [] [] []
| script_eq f o n x old new hs :
    script true (S o) (S n) old new hs -> script f o n (x :: old) (x :: new) hs
| script_hunk o n del ins old new hs :
    del <> [] \/ ins <> [] -> script false (o + length del) (n + length ins) old new hs ->
    script true o n (del ++ old) (ins ++ new) (mkHunk o (length del) n (length ins) :: hs).
#[export] Hint Constructors script : fresh.

Lemma script_weaken {A} f o n (a b : list A) hs : script f o n a b hs -> script true o n a b hs.
Proof. destruct 1; eauto with fresh. Qed.

Lemma script_refl {A} f o n (a : list A) : script f o n a a [].
Proof. revert f o n. induction a; eauto with fresh. Qed.

Lemma script_app {A} f o n (a b c d : list A) hs hs' :
  script f o n a b hs -> script false (o + length a) (n + length b) c d hs' ->
  script f o n (a ++ c) (b ++ d) (hs ++ hs').
Proof.
  intros H. revert c d hs'. induction H as [f o n|f o n x old new hs H IH|o n del ins old new hs Hne H IH];
    intros c d hs' Hs; simpl in *.
  - rw !Nat.add_0_r in Hs. destruct f; [eauto using script_weaken|done].
  - apply script_eq, IH. by rw -!Nat.add_succ_comm in Hs.
  - rw -!app_assoc. apply script_hunk; [done|]. apply IH. by rw !length_app !Nat.add_assoc in Hs.
Qed.

(** A replacement of everything. *)
Lemma script_replace {A} o n (a b : list A) :
  a <> [] \/ b <> [] -> script true o n a b [mkHunk o (length a) n (length b)].
Proof.
  intros H. pose proof (script_hunk o n a b [] [] [] H (script_nil _ _ _)) as Hs. by rw !app_nil_r in Hs.
Qed.

(** Elements that are in one-to-one correspondence have the same scripts. *)
Lemma script_transfer {A B} (R : A -> B -> Prop) f o n (a b : list A) hs (a' b' : list B) :
  (forall x y y', R x y -> R x y' -> y = y') ->
  script f o n a b hs -> Forall2 R a a' -> Forall2 R b b' -> script f o n a' b' hs.
Proof.
  intros Hinj H. revert a' b'.
  induction H as [f o n|f o n x old new hs H IH|o n del ins old new hs Hne H IH]; intros a' b' Ha Hb.
  - apply Forall2_nil_inv_l in Ha as ->. apply Forall2_nil_inv_l in Hb as ->. constructor.
  - apply Forall2_cons_inv_l in Ha as (y & l & Hy & Hl & ->).
    apply Forall2_cons_inv_l in Hb as (y' & l' & Hy' & Hl' & ->).
    rw (Hinj _ _ _ Hy' Hy). eauto with fresh.
  - apply Forall2_app_inv_l in Ha as (d' & l & Hd & Hl & ->).
    apply Forall2_app_inv_l in Hb as (i' & l' & Hi & Hl' & ->).
    rw (Forall2_length _ _ _ Hd) (Forall2_length _ _ _ Hi). apply script_hunk.
    + destruct Hne as [?|?]; [left|right]; intros ->; [by inversion Hd; subst|by inversion Hi; subst].
    + rw -(Forall2_length _ _ _ Hd) -(Forall2_length _ _ _ Hi). auto.
Qed.

(** ** Common ends *)
Lemma common_prefix_le {A} `{EqDecision A} (a b : list A) :
  common_prefix a b <= length a /\ common_prefix a b <= length b.
Proof.
  revert b. induction a as [|x a IH]; intros [|y b]; simpl; try lia.
  case_decide; [|lia]. specialize (IH b). lia.
Qed.

Lemma common_prefix_take {A} `{EqDecision A} (a b : list A) :
  take (common_prefix a b) a = take (common_prefix a b) b.
Proof.
  revert b. induction a as [|x a IH]; intros [|y b]; try done. simpl.
  case_decide; [|done]. simpl. by subst; rw IH.
Qed.

Lemma common_prefix_split {A} `{EqDecision A} (a b : list A) :
  exists p a' b', a = p ++ a' /\ b = p ++ b' /\ length p = common_prefix a b.
Proof.
  exists (take (common_prefix a b) a), (drop (common_prefix a b) a), (drop (common_prefix a b) b).
  rw take_drop. rw common_prefix_take take_drop. split_and!; [done..|].
  rw length_take. pose proof (common_prefix_le a b). lia.
Qed.

(** What the two loops of [diff_range] leave. *)
Lemma common_ends {A} `{EqDecision A} (a b : list A) :
  let start := common_prefix a b in
  let suffix := common_prefix (reverse (drop start a)) (reverse (drop start b)) in
  exists p a' b' s, a = p ++ a' ++ s /\ b = p ++ b' ++ s /\ length p = start
  /\ slice a start (length a - suffix) = Ok a' /\ slice b start (length b - suffix) = Ok b'.
Proof.
  cbv zeta. destruct (common_prefix_split a b) as (p & a1 & b1 & Ha & Hb & Hp).
  rw -Hp. replace (drop (length p) a) with a1 by (by rw Ha drop_app_length).
  replace (drop (length p) b) with b1 by (by rw Hb drop_app_length). clear Hp.
  destruct (common_prefix_split (reverse a1) (reverse b1)) as (s & a2 & b2 & Ha2 & Hb2 & Hs).
  apply (f_equal reverse) in Ha2, Hb2. rw reverse_involutive reverse_app in Ha2.
  rw reverse_involutive reverse_app in Hb2. rw -Hs.
  exists p, (reverse a2), (reverse b2), (reverse s).
  subst a b a1 b1. split_and!; [done..| |].
  all: rw slice_Ok !length_app ?length_reverse; try lia;
    rw drop_app_length; f_equal; rw take_app_le ?length_reverse; try lia;
    rw take_ge ?length_reverse //; lia.
Qed.

(** ** Longest common subsequences *)
Fixpoint walk (steps : list Step) (old new : list N) : Prop :=
  match steps with
  | [] => old = [] /\ new = []
  | SEqual :: steps => exists x old' new', old = x :: old' /\ new = x :: new' /\ walk steps old' new'
  | SDelete :: steps => exists x old', old = x :: old' /\ walk steps old' new
  | SInsert :: steps => exists y new', new = y :: new' /\ walk steps old new'
  end.

Lemma walk_inserts new : walk (replicate (length new) SInsert) [] new.
Proof. induction new as [|y new IH]; [done|]. by exists y, new. Qed.

Lemma walk_app s s' a b a' b' : walk s a b -> walk s' a' b' -> walk (s ++ s') (a ++ a') (b ++ b').
Proof.
  revert a b. induction s as [|[] s IH]; intros a b H H'.
  - by destruct H as [-> ->].
  - destruct H as (x & a1 & b1 & -> & -> & H). exists x, (a1 ++ a'), (b1 ++ b'). auto.
  - destruct H as (x & a1 & -> & H). exists x, (a1 ++ a'). auto.
  - destruct H as (y & b1 & -> & H). exists y, (b1 ++ b'). auto.
Qed.

Lemma walk_deletes old : walk (replicate (length old) SDelete) old [].
Proof. induction old as [|x old IH]; [done|]. by exists x, old. Qed.

Lemma drop_lookup_cons {A} (l : list A) i x : l !! i = Some x -> drop i l = x :: drop (S i) l.
Proof. intros H. by apply drop_S. Qed.

Lemma backtrack_walk old new dp fuel i j steps :
  i <= length old -> j <= length new -> i + j <= fuel ->
  walk steps (drop i old) (drop j new) -> walk (backtrack old new dp fuel i j steps) old new.
Proof.
  revert i j steps. induction fuel as [|fuel IH]; intros i j steps Hi Hj Hf Hw; simpl.
  { assert (i = 0) as -> by lia. by assert (j = 0) as -> by lia. }
  assert (forall i j, i <= length old -> j <= length new -> i = 0 \/ j = 0 ->
    walk steps (drop i old) (drop j new) -> walk (replicate j SInsert ++ replicate i SDelete ++ steps) old new) as Hend.
  { clear. intros i j Hi Hj H0 Hw. rw -(take_drop i old) -(take_drop j new).
    change (take i old ++ drop i old) with ([] ++ take i old ++ drop i old). apply walk_app.
    - rw -{1}(length_take_le new j) //. apply walk_inserts.
    - change (drop j new) with ([] ++ drop j new). apply walk_app; [|done].
      rw -{1}(length_take_le old i) //. apply walk_deletes. }
  destruct i as [|i]; [apply (Hend 0 j); auto; lia|].
  destruct j as [|j]; [apply (Hend (S i) 0); auto; lia|].
  destruct (lookup_lt_is_Some_2 old i) as [x Hx]; [lia|].
  destruct (lookup_lt_is_Some_2 new j) as [y Hy]; [lia|].
  case_decide as He; [|destruct (_ <=? _)]; apply IH; try lia; cbn [walk].
  - rw Hx Hy in He. injection He as <-.
    exists x, (drop (S i) old), (drop (S j) new). by rw (drop_lookup_cons old i x) // (drop_lookup_cons new j x).
  - exists x, (drop (S i) old). by rw (drop_lookup_cons old i x).
  - exists y, (drop (S j) new). by rw (drop_lookup_cons new j y).
Qed.

Lemma group_steps_script ob nb steps : forall op np a b,
  walk steps a b ->
  script true (ob + op) (nb + np) a b (group_steps ob nb None op np steps)
  /\ forall del ins o n, length del = op - o -> length ins = np - n -> o <= op -> n <= np ->
     (del <> [] \/ ins <> []) ->
     script true (ob + o) (nb + n) (del ++ a) (ins ++ b) (group_steps ob nb (Some (o, n)) op np steps).
Proof.
  induction steps as [|[] steps IH]; intros op np a b Hw; cbn [walk] in Hw.
  - destruct Hw as [-> ->]. split; [constructor|]. intros del ins o n Hd Hi ? ? Hne.
    cbn. rw -Hd -Hi !app_nil_r. by apply script_replace.
  - destruct Hw as (x & a' & b' & -> & -> & Hw). destruct (IH (S op) (S np) a' b' Hw) as [H1 _].
    rw !Nat.add_succ_r in H1. split.
    + cbn. by constructor.
    + intros del ins o n Hd Hi ? ? Hne. cbn. rw -Hd -Hi. apply script_hunk; [done|].
      replace (ob + o + length del) with (ob + op) by lia. replace (nb + n + length ins) with (nb + np) by lia.
      by constructor.
  - destruct Hw as (x & a' & -> & Hw). destruct (IH (S op) np a' b Hw) as [_ H2]. split.
    + apply (H2 [x] []); simpl; try lia. by left.
    + intros del ins o n Hd Hi ? ? Hne. cbn. change (x :: a') with ([x] ++ a'). rw app_assoc.
      apply H2; rw ?length_app /=; try lia. left. by destruct del.
  - destruct Hw as (y & b' & -> & Hw). destruct (IH op (S np) a b' Hw) as [_ H2]. split.
    + apply (H2 [] [y]); simpl; try lia. by right.
    + intros del ins o n Hd Hi ? ? Hne. cbn. change (y :: b') with ([y] ++ b'). rw (app_assoc ins).
      apply H2; rw ?length_app /=; try lia. right. by destruct ins.
Qed.

Lemma lcs_diff_script old new ob nb : script true ob nb old new (lcs_diff old new ob nb).
Proof.
  unfold lcs_diff. rw -{1}(Nat.add_0_r ob) -{1}(Nat.add_0_r nb). apply group_steps_script.
  unfold lcs_steps. apply backtrack_walk; [done..|]. by rw !drop_all.
Qed.

(** ** Increasing chains *)
Definition increasing (l : list (nat * nat)) : Prop := StronglySorted (fun a b => a.1 < b.1) l.

Section lis.
Context (pairs : list (nat * nat)).
Local Abbreviation pos := (old_pos_at pairs).

(** The indices of the chain that ends at [t], last first. *)
Inductive back_chain (back : list (option nat)) : nat -> list nat -> Prop :=
| back_chain_end t : back !! t = Some None -> back_chain back t [t]
| back_chain_link t t' l :
    back !! t = Some (Some t') -> t' < t -> pos t' < pos t ->
    back_chain back t' l -> back_chain back t (t :: l).

Lemma back_chain_below back t l : back_chain back t l -> Forall (fun i => i <= t) l.
Proof.
  induction 1 as [t|t t' l Hb Ht Hp Hc IH]; [by constructor|]. constructor; [done|].
  eapply Forall_impl; [exact IH|]. simpl. lia.
Qed.

Lemma back_chain_insert back idx v t l :
  t < idx -> back_chain back t l -> back_chain (<[idx := v]> back) t l.
Proof.
  intros Ht Hc. induction Hc as [t Hb|t t' l Hb Hlt Hp Hc IH].
  - constructor. rw list_lookup_insert_ne //. lia.
  - apply back_chain_link with t'; [by rw list_lookup_insert_ne; [lia|]|done|done|]. apply IH. lia.
Qed.

(** After [idx] pairs: [tails] at [k] is the end of a chain of [k + 1] pairs, and no
    such chain ends at a smaller old position. *)
Record lis_inv (idx : nat) (tails : list nat) (back : list (option nat)) : Prop := {
  li_len : length back = length pairs;
  li_fresh t : idx <= t -> t < length pairs -> back !! t = Some None;
  li_chain k t : tails !! k = Some t -> t < idx /\ exists l, back_chain back t l /\ length l = S k;
  li_sorted k k' t t' : tails !! k = Some t -> tails !! k' = Some t' -> k < k' -> pos t < pos t';
  li_best s p : s ++ [p] `sublist_of` take idx pairs -> increasing (s ++ [p]) ->
    exists t, tails !! length s = Some t /\ pos t <= p.1;
}.

Lemma partition_point_below {A} (p : A -> bool) l k x :
  k < partition_point p l -> l !! k = Some x -> p x = true.
Proof.
  revert k. induction l as [|y l IH]; intros k Hk Hx; [done|]. simpl in Hk.
  destruct (p y) eqn:E; [|lia]. destruct k as [|k]; [by injection Hx as <-|]. by apply (IH k); [lia|].
Qed.

Lemma partition_point_at {A} (p : A -> bool) l x :
  l !! partition_point p l = Some x -> p x = false.
Proof.
  induction l as [|y l IH]; [done|]. simpl. destruct (p y) eqn:E; [by apply IH|]. by intros [= <-].
Qed.

Lemma old_pos_at_eq idx p : pairs !! idx = Some p -> pos idx = p.1.
Proof. intros H. unfold old_pos_at. by rw H. Qed.

(** What one step does to [tails]: the new index at [insert_at], nothing else. *)
Lemma lis_step_tails tails back idx o :
  let i := partition_point (fun t => pos t <? o) tails in
  let tails' := (lis_step pairs (tails, back) idx o).1 in
  i <= length tails /\ tails' !! i = Some idx /\ (forall k, k <> i -> tails' !! k = tails !! k)
  /\ (forall k t, k < i -> tails !! k = Some t -> pos t < o)
  /\ (forall t, tails !! i = Some t -> o <= pos t).
Proof.
  cbv zeta. set (i := partition_point _ tails).
  assert (i <= length tails) as Hi by apply partition_point_le.
  unfold lis_step. fold i. cbn [fst]. split; [done|]. split_and!.
  - destruct (Nat.eqb_spec i (length tails)) as [E|?].
    + rw lookup_app_r E; [done|]. by rw Nat.sub_diag.
    + rw list_lookup_insert_eq //. lia.
  - intros k Hk. destruct (Nat.eqb_spec i (length tails)) as [E|?].
    + destruct (decide (k < length tails)); [by rw lookup_app_l|].
      rw !lookup_ge_None_2 ?length_app //=; lia.
    + by apply list_lookup_insert_ne, not_eq_sym.
  - intros k t Hk Ht. apply Nat.ltb_lt. by apply (partition_point_below (fun t => pos t <? o) tails k).
  - intros t Ht. apply Nat.ltb_ge. by apply (partition_point_at (fun t => pos t <? o) tails).
Qed.

(** The new index ends a chain one longer than the one it is put behind. *)
Lemma lis_step_back tails back idx o n :
  lis_inv idx tails back -> pairs !! idx = Some (o, n) ->
  let i := partition_point (fun t => pos t <? o) tails in
  let back' := (lis_step pairs (tails, back) idx o).2 in
  length back' = length pairs
  /\ (forall t, t <> idx -> back' !! t = back !! t)
  /\ (forall t l, t < idx -> back_chain back t l -> back_chain back' t l)
  /\ exists l, back_chain back' idx l /\ length l = S i.
Proof.
  intros Hinv Hp. cbv zeta. destruct (lis_step_tails tails back idx o) as (Hi & _ & _ & Hlow & _).
  unfold lis_step. set (i := partition_point _ tails) in *. cbn [snd].
  assert (idx < length pairs) as Hidx by (eapply lookup_lt_Some, Hp).
  destruct (Nat.ltb_spec 0 i) as [H0|H0].
  - split; [by rw length_insert (li_len _ _ _ Hinv)|].
    split; [intros t Ht; by apply list_lookup_insert_ne, not_eq_sym|].
    split; [intros; by apply back_chain_insert|].
    destruct (lookup_lt_is_Some_2 tails (i - 1)) as [t Ht]; [lia|].
    destruct (li_chain _ _ _ Hinv _ _ Ht) as (Htidx & l & Hl & Hlen). exists (idx :: l).
    split; [|simpl; lia]. apply back_chain_link with t; [|done| |by apply back_chain_insert].
    + rw list_lookup_insert_eq ?(li_len _ _ _ Hinv) //. by rw Ht.
    + rw (old_pos_at_eq idx (o, n)) //. eapply Hlow; [|exact Ht]. lia.
  - split; [by apply (li_len _ _ _ Hinv)|]. split; [done|]. split; [done|].
    exists [idx]. split; [|simpl; lia]. apply back_chain_end. by apply (li_fresh _ _ _ Hinv).
Qed.

Lemma increasing_last s p q : increasing ((s ++ [p]) ++ [q]) -> p.1 < q.1.
Proof.
  intros H. refine (StronglySorted_app_1_elem_of (fun a b => a.1 < b.1) (s ++ [p]) [q] p q H _ _).
  - apply elem_of_app. right. by apply list_elem_of_singleton.
  - by apply list_elem_of_singleton.
Qed.

Lemma lis_step_inv idx tails back o n :
  lis_inv idx tails back -> pairs !! idx = Some (o, n) ->
  lis_inv (S idx) (lis_step pairs (tails, back) idx o).1 (lis_step pairs (tails, back) idx o).2.
Proof.
  intros Hinv Hp. pose proof (old_pos_at_eq _ _ Hp) as Ho. simpl in Ho.
  destruct (lis_step_tails tails back idx o) as (Hi & Hat & Hne & Hlow & Hhigh).
  destruct (lis_step_back tails back idx o n Hinv Hp) as (Hlen & Hbne & Hkeep & l & Hl & Hll).
  set (i := partition_point _ tails) in *. split.
  - done.
  - intros t Ht Htl. rw Hbne; [lia|]. apply (li_fresh _ _ _ Hinv); [lia|done].
  - intros k t Hk. destruct (decide (k = i)) as [->|Hki].
    + rw Hat in Hk. injection Hk as <-. split; [lia|]. by exists l.
    + rw Hne // in Hk. destruct (li_chain _ _ _ Hinv _ _ Hk) as (Ht & l' & Hl' & Hlen'). split; [lia|].
      exists l'. split; [by apply Hkeep|done].
  - intros k k' t t' Hk Hk' Hlt.
    destruct (decide (k = i)) as [->|Hki], (decide (k' = i)) as [->|Hki']; [lia| | |].
    + rw Hat in Hk. injection Hk as <-. rw Hne // in Hk'. rw Ho.
      destruct (lookup_lt_is_Some_2 tails i) as [ti Hti]; [apply lookup_lt_Some in Hk'; lia|].
      pose proof (Hhigh _ Hti). pose proof (li_sorted _ _ _ Hinv i k' ti t' Hti Hk' Hlt). lia.
    + rw Hat in Hk'. injection Hk' as <-. rw Hne // in Hk. rw Ho. eapply Hlow, Hk. done.
    + rw Hne // in Hk. rw Hne // in Hk'. by apply (li_sorted _ _ _ Hinv k k').
  - intros s p Hsub Hinc. rw (take_S_r _ _ _ Hp) in Hsub.
    assert (forall s p, s ++ [p] `sublist_of` take idx pairs -> increasing (s ++ [p]) ->
      exists t, (lis_step pairs (tails, back) idx o).1 !! length s = Some t /\ pos t <= p.1) as Hold.
    { clear s p Hsub Hinc. intros s p Hsub Hinc. destruct (li_best _ _ _ Hinv _ _ Hsub Hinc) as (t & Ht & Hle).
      destruct (decide (length s = i)) as [E|?]; [|exists t; by rw Hne].
      exists idx. rw E. split; [done|]. rw E in Ht. pose proof (Hhigh _ Ht). lia. }
    apply sublist_app_r in Hsub as (l1 & l2 & Heq & Hl1 & Hl2).
    apply sublist_cons_r in Hl2 as [->%sublist_nil_r|(l3 & -> & ->%sublist_nil_r)].
    { rw app_nil_r in Heq. subst l1. by apply Hold. }
    apply app_inj_tail in Heq as [<- ->]. simpl.
    assert (length s <= i) as Hsi.
    { destruct s as [|p s _] using rev_ind; [simpl; lia|].
      destruct (li_best _ _ _ Hinv s p Hl1) as (t & Ht & Hle).
      { eapply StronglySorted_app_1_l, Hinc. }
      pose proof (increasing_last _ _ _ Hinc) as Hlt. simpl in Hlt. rw length_app /=.
      destruct (decide (length s < i)); [lia|]. exfalso.
      destruct (decide (length s = i)) as [E|?].
      - rw E in Ht. pose proof (Hhigh _ Ht). lia.
      - destruct (lookup_lt_is_Some_2 tails i) as [ti Hti]; [apply lookup_lt_Some in Ht; lia|].
        pose proof (Hhigh _ Hti). pose proof (li_sorted _ _ _ Hinv i (length s) ti t Hti Ht ltac:(lia)). lia. }
    destruct (decide (length s = i)) as [->|Hsne]; [exists idx; split; [done|lia]|].
    destruct (lookup_lt_is_Some_2 tails (length s)) as [t Ht]; [lia|].
    exists t. rw Hne //. split; [done|]. pose proof (Hlow (length s) t ltac:(lia) Ht). lia.
Qed.
End lis.

(** Following the backpointers from [t] gives the chain that ends there. *)
Lemma follow_back_chain pairs back t l :
  length back = length pairs -> back_chain pairs back t l ->
  exists ps p, pairs !! t = Some p /\ length l = S (length ps)
  /\ ps ++ [p] `sublist_of` take (S t) pairs /\ increasing (ps ++ [p])
  /\ forall fuel acc, length l <= fuel -> follow_back pairs back fuel (Some t) acc = Ok (ps ++ p :: acc).
Proof.
  intros Hlen Hc. induction Hc as [t Hb|t t' l Hb Hlt Hpos Hc IH].
  - destruct (lookup_lt_is_Some_2 pairs t) as [p Hp]; [apply lookup_lt_Some in Hb; lia|].
    exists [], p. rw (take_S_r _ _ _ Hp). split_and!; [done|done| |by repeat constructor|].
    + by apply sublist_inserts_l.
    + intros fuel acc Hf. destruct fuel as [|fuel]; [simpl in Hf; lia|]. cbn [follow_back]. rw Hp Hb. by destruct fuel.
  - destruct IH as (ps & p' & Hp' & Hl & Hsub & Hinc & Hrun).
    destruct (lookup_lt_is_Some_2 pairs t) as [p Hp]; [apply lookup_lt_Some in Hb; lia|].
    exists (ps ++ [p']), p. split_and!; [done|rw length_app /=; lia| | |].
    + rw (take_S_r _ _ _ Hp). apply sublist_app; [|done]. etrans; [exact Hsub|].
      replace (take (S t') pairs) with (take (S t') (take t pairs)); [apply sublist_take|].
      rw take_take. f_equal. lia.
    + rw (old_pos_at_eq pairs t p) // (old_pos_at_eq pairs t' p') // in Hpos.
      apply StronglySorted_app_2; [|done|by repeat constructor].
      intros x y Hx ->%list_elem_of_singleton. apply elem_of_app in Hx as [Hx| ->%list_elem_of_singleton]; [|done].
      pose proof (StronglySorted_app_1_elem_of (fun a b => a.1 < b.1) ps [p'] x p' Hinc Hx).
      rw list_elem_of_singleton in H. specialize (H eq_refl). simpl in H. lia.
    + intros fuel acc Hf. destruct fuel as [|fuel]; [simpl in Hf; lia|]. cbn [follow_back]. rw Hp Hb.
      simpl in Hf. rw Hrun; [lia|]. by rw -app_assoc.
Qed.

Lemma lis_loop_inv pairs idx rest tails back :
  drop idx pairs = rest -> idx <= length pairs -> lis_inv pairs idx tails back ->
  lis_inv pairs (length pairs) (lis_loop pairs (tails, back) idx rest).1 (lis_loop pairs (tails, back) idx rest).2.
Proof.
  revert idx tails back. induction rest as [|[o n] rest IH]; intros idx tails back Hd Hi Hinv; cbn [lis_loop].
  - apply (f_equal length) in Hd. rw length_drop /= in Hd. by replace (length pairs) with idx by lia.
  - assert (pairs !! idx = Some (o, n)) as Hp by (by rw -(Nat.add_0_r idx) -lookup_drop Hd).
    rw (surjective_pairing (lis_step pairs (tails, back) idx o)). apply IH.
    + by rw (drop_S _ _ _ Hp) in Hd; injection Hd.
    + by apply lookup_lt_Some in Hp.
    + by apply (lis_step_inv _ _ _ _ _ n).
Qed.

Lemma lis_correct pairs :
  exists chain, lis pairs = Ok chain /\ chain `sublist_of` pairs /\ increasing chain
  /\ forall s, s `sublist_of` pairs -> increasing s -> length s <= length chain.
Proof.
  assert (lis_inv pairs 0 [] (replicate (length pairs) None)) as H0.
  { split; [by rw length_replicate|intros; by apply lookup_replicate_2|done|done|].
    intros s p Hs. apply sublist_nil_r in Hs. by destruct s. }
  pose proof (lis_loop_inv pairs 0 pairs [] _ (drop_0 _) (Nat.le_0_l _) H0) as Hinv. unfold lis.
  destruct (lis_loop pairs _ 0 pairs) as [tails back]. cbn [fst snd] in Hinv.
  assert (forall s, s `sublist_of` pairs -> increasing s -> length s <= length tails) as Hbest.
  { intros s Hs Hinc. destruct s as [|p s _] using rev_ind; [simpl; lia|].
    destruct (li_best _ _ _ _ Hinv s p) as (t & Ht & _); [by rw firstn_all|done|].
    apply lookup_lt_Some in Ht. rw length_app /=. lia. }
  destruct (last tails) as [t|] eqn:E.
  - rw last_lookup in E. destruct (li_chain _ _ _ _ Hinv _ _ E) as (Ht & l & Hl & Hlen).
    destruct (follow_back_chain _ _ _ _ (li_len _ _ _ _ Hinv) Hl) as (ps & p & Hp & Hll & Hsub & Hinc & Hrun).
    exists (ps ++ [p]). split_and!.
    + apply Hrun. apply sublist_length in Hsub. rw length_app length_take in Hsub. cbn [length] in Hsub. lia.
    + etrans; [exact Hsub|apply sublist_take].
    + done.
    + intros s Hs Hi. specialize (Hbest s Hs Hi). apply lookup_lt_Some in E. rw length_app /=. lia.
  - apply last_None in E. subst tails. exists []. split_and!; [by destruct (length pairs)|apply sublist_nil_l|constructor|exact Hbest].
Qed.

(** ** Lines that occur once *)
Definition occurrences (id : N) (l : list N) : nat := length (filter (fun x => x = id) l).

Lemma occurrences_cons id x l :
  occurrences id (x :: l) = (if decide (x = id) then 1 else 0) + occurrences id l.
Proof. unfold occurrences. rw filter_cons. by case_decide. Qed.

Lemma occurrences_elem id l : id ∈ l -> 0 < occurrences id l.
Proof.
  induction 1 as [id l|id x l H IH]; rw occurrences_cons; [rw decide_True //; lia|lia].
Qed.

Lemma occurs_once_unique id l i j :
  occurrences id l = 1 -> l !! i = Some id -> l !! j = Some id -> i = j.
Proof.
  revert i j. induction l as [|x l IH]; intros i j H1 Hi Hj; [done|]. rw occurrences_cons in H1.
  destruct i as [|i], j as [|j]; simpl in Hi, Hj; [done| | |].
  - injection Hi as ->. apply list_elem_of_lookup_2, occurrences_elem in Hj. rw decide_True // in H1. lia.
  - injection Hj as ->. apply list_elem_of_lookup_2, occurrences_elem in Hi. rw decide_True // in H1. lia.
  - f_equal. apply IH; [|done..]. apply list_elem_of_lookup_2, occurrences_elem in Hi. case_decide; lia.
Qed.

Lemma count_old_spec occ i old id :
  (occurrences id old = 0 /\ count_old occ i old !! id = occ !! id)
  \/ exists k, old !! k = Some id /\ count_old occ i old !! id
     = Some (mkOccurrence (default 0 (oc_old_count <$> occ !! id) + occurrences id old)
                          (default 0 (oc_new_count <$> occ !! id)) (i + k)).
Proof.
  revert occ i. induction old as [|x old IH]; intros occ i; [by left|]. cbn [count_old].
  rw occurrences_cons. set (occ' := <[x := _]> occ).
  destruct (decide (x = id)) as [->|Hx].
  - right. assert (occ' !! id = Some (mkOccurrence (default 0 (oc_old_count <$> occ !! id) + 1)
      (default 0 (oc_new_count <$> occ !! id)) i)) as Hocc.
    { unfold occ'. rw lookup_insert_eq. by destruct (occ !! id) as [[]|]. }
    destruct (IH occ' (S i)) as [[H0 Hk]|(k & Hk & He)].
    + exists 0. split; [done|]. rw Hk Hocc H0. do 2 f_equal; lia.
    + exists (S k). split; [done|]. rw He Hocc. cbn [fmap option_fmap option_map default].
      do 2 f_equal; simpl; lia.
  - assert (occ' !! id = occ !! id) as Hocc by (by apply lookup_insert_ne).
    destruct (IH occ' (S i)) as [[H0 Hk]|(k & Hk & He)]; [left; by rw Hk|right].
    exists (S k). split; [done|]. rw He Hocc. do 2 f_equal; simpl; lia.
Qed.

Lemma count_new_spec occ new id :
  count_new occ new !! id =
  (fun e => mkOccurrence (oc_old_count e) (oc_new_count e + occurrences id new) (oc_old_pos e)) <$> occ !! id.
Proof.
  revert occ. induction new as [|x new IH]; intros occ; cbn [count_new].
  - destruct (occ !! id) as [[]|]; [|done]. cbn. do 2 f_equal. lia.
  - rw IH occurrences_cons. destruct (decide (x = id)) as [->|Hx].
    + destruct (occ !! id) as [e|] eqn:E; [|by rw E]. rw lookup_insert_eq. cbn. do 2 f_equal. lia.
    + destruct (occ !! x); [by rw lookup_insert_ne|done].
Qed.

Lemma elem_of_candidates occ j new p :
  p ∈ candidate_pairs occ j new <->
  exists k id e, new !! k = Some id /\ occ !! id = Some e /\ oc_old_count e = 1 /\ oc_new_count e = 1
  /\ p = (oc_old_pos e, j + k).
Proof.
  revert j. induction new as [|x new IH]; intros j; cbn [candidate_pairs].
  { split; [by intros ?%not_elem_of_nil|]. by intros (? & ? & ? & ? & _). }
  rw elem_of_app IH. split.
  - intros [H|(k & id & e & Hk & H)].
    + destruct (occ !! x) as [e|] eqn:E; [|by apply not_elem_of_nil in H].
      destruct (Nat.eqb_spec (oc_old_count e) 1), (Nat.eqb_spec (oc_new_count e) 1);
        try by apply not_elem_of_nil in H.
      apply list_elem_of_singleton in H. exists 0, x, e. by rw Nat.add_0_r.
    + exists (S k), id, e. by rw Nat.add_succ_r.
  - intros ([|k] & id & e & Hk & He & H1 & H2 & ->).
    + left. injection Hk as ->. rw He H1 H2 /= Nat.add_0_r. by apply list_elem_of_singleton.
    + right. exists k, id, e. by rw Nat.add_succ_r.
Qed.

Lemma candidates_sorted occ j new :
  StronglySorted (fun a b => a.2 < b.2) (candidate_pairs occ j new).
Proof.
  revert j. induction new as [|x new IH]; intros j; cbn [candidate_pairs]; [constructor|].
  apply StronglySorted_app_2; [|repeat case_match; by repeat constructor|apply IH].
  intros p q Hp Hq. apply elem_of_candidates in Hq as (k & id & e & _ & _ & _ & _ & ->). simpl.
  repeat case_match; try by apply not_elem_of_nil in Hp. apply list_elem_of_singleton in Hp as ->. simpl. lia.
Qed.

(** The candidates are the lines that occur once on each side. *)
Lemma elem_of_unique_pairs old new i j :
  (i, j) ∈ unique_pairs old new <->
  exists id, old !! i = Some id /\ new !! j = Some id /\ occurrences id old = 1 /\ occurrences id new = 1.
Proof.
  unfold unique_pairs. rw elem_of_candidates. split.
  - intros (k & id & e & Hk & He & H1 & H2 & [= -> ->]). exists id. rw count_new_spec in He.
    destruct (count_old_spec ∅ 0 old id) as [[_ H]|(k' & Hk' & H)]; rw H lookup_empty in He; [done|].
    cbn in He. injection He as <-. cbn in *. by split_and!.
  - intros (id & Hi & Hj & H1 & H2). exists j, id.
    destruct (count_old_spec ∅ 0 old id) as [[H0 _]|(k' & Hk' & H)]; [lia|].
    rw count_new_spec H lookup_empty. cbn. eexists. split; [done|]. split; [done|]. cbn. split_and!; [done..|].
    by rw (occurs_once_unique id old i k').
Qed.

(** Anchors from [(i, j)] on: equal lines, in order on both sides. *)
Fixpoint anchored (old new : list N) (i j : nat) (anchors : list (nat * nat)) : Prop :=
  match anchors with
  | [] => i <= length old /\ j <= length new
  | (a, b) :: anchors =>
      i <= a /\ j <= b /\ (exists x, old !! a = Some x /\ new !! b = Some x) /\ anchored old new (S a) (S b) anchors
  end.

Lemma anchored_intro old new i j anchors :
  i <= length old -> j <= length new ->
  Forall (fun p => i <= p.1 /\ j <= p.2 /\ exists x, old !! p.1 = Some x /\ new !! p.2 = Some x) anchors ->
  increasing anchors -> StronglySorted (fun a b => a.2 < b.2) anchors ->
  anchored old new i j anchors.
Proof.
  revert i j. induction anchors as [|[a b] anchors IH]; intros i j Hi Hj Hall Hi1 Hi2; [done|].
  apply Forall_cons_1 in Hall as [(Ha & Hb & x & Hx & Hy) Hall]. simpl in *.
  inversion Hi1 as [|? ? Hi1' Hf1]; subst. inversion Hi2 as [|? ? Hi2' Hf2]; subst.
  split_and!; [done|done|by exists x|]. apply IH; [by apply lookup_lt_Some in Hx|by apply lookup_lt_Some in Hy| |done|done].
  rw Forall_forall in Hall. rw Forall_forall in Hf1. rw Forall_forall in Hf2. apply Forall_forall.
  intros p Hp. specialize (Hall p Hp) as (_ & _ & H). specialize (Hf1 p Hp). specialize (Hf2 p Hp). simpl in *.
  split_and!; [lia|lia|done].
Qed.

Lemma sublist_elem {A} (l k : list A) x : l `sublist_of` k -> x ∈ l -> x ∈ k.
Proof.
  induction 1 as [|y l k Hs IH|y l k Hs IH]; [done| |]; intros Hx; [|by right; apply IH].
  apply elem_of_cons in Hx as [->|Hx]; [by left|right; by apply IH].
Qed.

Lemma sublist_StronglySorted {A} (R : A -> A -> Prop) l k :
  l `sublist_of` k -> StronglySorted R k -> StronglySorted R l.
Proof.
  induction 1 as [|x l k Hs IH|x l k Hs IH]; [done| |]; intros H; inversion H as [|? ? H' Hf]; subst; [|by apply IH].
  constructor; [by apply IH|]. apply Forall_forall. rw Forall_forall in Hf. intros y Hy.
  apply Hf. by apply (sublist_elem l).
Qed.

Lemma patience_anchors_ok old new :
  exists r, patience_anchors old new = Ok r
  /\ match r with
     | Some anchors => anchored old new 0 0 anchors
         /\ (forall s, s `sublist_of` unique_pairs old new -> increasing s -> length s <= length anchors)
     | None => unique_pairs old new = []
     end.
Proof.
  unfold patience_anchors. destruct (unique_pairs old new) as [|p0 pairs] eqn:E; [by exists None|].
  rw -E. clear E p0 pairs.
  destruct (lis_correct (unique_pairs old new)) as (chain & -> & Hsub & Hinc & Hbest).
  exists (Some chain). split; [done|]. split.
  - apply anchored_intro; [lia..| |done|].
    + apply Forall_forall. intros [i j] Hp. apply (sublist_elem _ _ _ Hsub) in Hp.
      apply elem_of_unique_pairs in Hp as (id & Hi & Hj & _). split_and!; [simpl; lia..|]. by exists id.
    + eapply sublist_StronglySorted, candidates_sorted. exact Hsub.
  - exact Hbest.
Qed.

(** ** The recursion *)
Lemma take_to_lookup {A} (l : list A) i a x :
  i <= a -> l !! a = Some x -> drop i l = take (a - i) (drop i l) ++ x :: drop (S a) l.
Proof.
  intros Hi Hx. rw -{1}(take_drop (a - i) (drop i l)) drop_drop. f_equal.
  replace (i + (a - i)) with a by lia. by apply drop_S.
Qed.

Lemma diff_gaps_script diff old new ob nb anchors i j :
  (forall a b o n, exists hs, diff a b o n = Ok hs /\ script true o n a b hs) ->
  anchored old new i j anchors ->
  exists hs, diff_gaps diff old new ob nb anchors i j = Ok hs
  /\ script true (ob + i) (nb + j) (drop i old) (drop j new) hs.
Proof.
  intros Hdiff. revert i j. induction anchors as [|[a b] anchors IH]; intros i j H; cbn [diff_gaps anchored] in *.
  - destruct H as [Hi Hj]. rw !slice_Ok //. cbn [mbind res_bind].
    rw !take_ge ?length_drop //.
  - destruct H as (Hi & Hj & (x & Hx & Hy) & H). pose proof (lookup_lt_Some _ _ _ Hx) as Lx. pose proof (lookup_lt_Some _ _ _ Hy) as Ly.
    rw !slice_Ok; [lia..|]. cbn [mbind res_bind].
    destruct (Hdiff (take (a - i) (drop i old)) (take (b - j) (drop j new)) (ob + i) (nb + j)) as (hs1 & -> & H1).
    rw !Nat.add_1_r. destruct (IH _ _ H) as (hs2 & -> & H2). cbn [mbind res_bind].
    exists (hs1 ++ hs2). split; [done|]. rw (take_to_lookup old i a x) // (take_to_lookup new j b x) //.
    apply script_app; [done|]. apply script_eq. rw !length_take !length_drop.
    replace (S (ob + i + _)) with (ob + S a) by lia. by replace (S (nb + j + _)) with (nb + S b) by lia.
Qed.

Lemma diff_fallback_script old new ob nb :
  old <> [] -> script true ob nb old new (diff_fallback old new ob nb).
Proof.
  intros Ho. unfold diff_fallback. destruct (_ <=? _)%N; [apply lcs_diff_script|].
  apply script_replace. by left.
Qed.

Lemma script_ends {A} o n (p a b s : list A) hs :
  script true (o + length p) (n + length p) a b hs -> script true o n (p ++ a ++ s) (p ++ b ++ s) hs.
Proof.
  revert o n. induction p as [|x p IH]; intros o n H; simpl in *.
  - rw !Nat.add_0_r in H. rw -(app_nil_r hs). apply script_app; [done|apply script_refl].
  - apply script_eq, IH. by rw !Nat.add_succ_comm.
Qed.

Lemma diff_range_script levels old new ob nb :
  exists hs, diff_range levels old new ob nb = Ok hs /\ script true ob nb old new hs.
Proof.
  revert old new ob nb. induction levels as [|levels IH]; intros old new ob nb;
    destruct (common_ends old new) as (p & a & b & s & Ho & Hn & Hp & Hsa & Hsb);
    cbn [diff_range]; rw Hsa; cbn [mbind res_bind]; rw Hsb; cbn [mbind res_bind]; rw -Hp Ho Hn;
    (case_decide as H0; [destruct H0 as [-> ->]; exists []; split; [done|]; apply script_ends; constructor|]);
    (case_decide as H1; [eexists; split; [done|]; apply script_ends, script_replace; tauto|]).
  - eexists. split; [done|]. apply script_ends, diff_fallback_script. tauto.
  - destruct (patience_anchors_ok a b) as ([anchors|] & -> & Hr); cbn [mbind res_bind].
    + destruct Hr as [Hr _].
      destruct (diff_gaps_script (diff_range levels) a b (ob + length p) (nb + length p) anchors 0 0 IH Hr)
        as (hs & -> & Hs). exists hs. split; [done|]. apply script_ends. by rw !Nat.add_0_r in Hs.
    + eexists. split; [done|]. apply script_ends, diff_fallback_script. tauto.
Qed.

(** ** Interning *)
Definition interner_ok (m : LineInterner) : Prop :=
  (forall l id, m !! l = Some id -> (id < N.of_nat (size m))%N)
  /\ (forall l l' id, m !! l = Some id -> m !! l' = Some id -> l = l').

Lemma intern_all_ok m lines m' ids :
  interner_ok m -> (N.of_nat (size m + length lines) <= 2 ^ 32)%N -> intern_all m lines = (m', ids) ->
  interner_ok m' /\ m ⊆ m' /\ size m' <= size m + length lines
  /\ Forall2 (fun id l => m' !! l = Some id) ids lines.
Proof.
  revert m ids. induction lines as [|l lines IH]; intros m ids Hm Hsz Hi; cbn [intern_all] in Hi.
  { injection Hi as <- <-. split_and!; [done|done|simpl; lia|constructor]. }
  assert (exists m1 id, intern m l = (m1, id) /\ interner_ok m1 /\ m ⊆ m1 /\ size m1 <= S (size m) /\ m1 !! l = Some id)
    as (m1 & id & E & Hm1 & Hsub & Hs1 & Hid).
  { unfold intern. destruct (m !! l) as [id|] eqn:El; [exists m, id; split_and!; auto; lia|].
    cbn [length] in Hsz. rw N.mod_small; [lia|].
    eexists _, _. split; [done|]. split_and!.
    - destruct Hm as [Hlt Hinj]. split.
      + intros k i. rw map_size_insert_None //. rw lookup_insert_Some.
        intros [[<- <-]|[_ Hk]]; [lia|]. apply Hlt in Hk. lia.
      + intros k k' i. rw !lookup_insert_Some.
        intros [[<- <-]|[_ Hk]] [[<- E']|[_ Hk']]; [done| | |by apply (Hinj k k' i)].
        * apply Hlt in Hk'. lia.
        * apply Hlt in Hk. lia.
    - by apply insert_subseteq.
    - rw map_size_insert_None //.
    - by rw lookup_insert_eq. }
  rw E in Hi. destruct (intern_all m1 lines) as [m2 ids2] eqn:E2. injection Hi as <- <-. cbn [length] in *.
  destruct (IH m1 ids2 Hm1 ltac:(lia) E2) as (Hm2 & Hsub2 & Hs2 & Hf).
  split_and!; [done|etrans; [exact Hsub|exact Hsub2]|lia|]. constructor; [|done].
  eapply lookup_weaken; [exact Hid|exact Hsub2].
Qed.

Lemma compute_line_diff_script old new :
  (N.of_nat (length (split_inclusive old) + length (split_inclusive new)) <= 2 ^ 32)%N ->
  exists hs, compute_line_diff old new = Ok hs
  /\ script true 0 0 (split_inclusive old) (split_inclusive new) hs.
Proof.
  intros Hlen. unfold compute_line_diff.
  assert (interner_ok ∅) as H0 by (split; intros ? ?; by rw lookup_empty).
  destruct (intern_all ∅ (split_inclusive old)) as [m1 ids1] eqn:E1.
  destruct (intern_all_ok ∅ (split_inclusive old) m1 ids1 H0) as (Hm1 & _ & Hs1 & Hf1); [rw map_size_empty; lia|done|].
  rw map_size_empty in Hs1.
  destruct (intern_all m1 (split_inclusive new)) as [m2 ids2] eqn:E2.
  destruct (intern_all_ok m1 (split_inclusive new) m2 ids2 Hm1) as (Hm2 & Hsub & _ & Hf2); [lia|done|].
  destruct (diff_range_script MAX_PATIENCE_DEPTH ids1 ids2 0 0) as (hs & Hd & Hs).
  exists hs. split; [done|]. refine (script_transfer (fun id l => m2 !! l = Some id) _ _ _ _ _ _ _ _ _ Hs _ Hf2).
  - intros id l l' H1 H2. by apply (proj2 Hm2 l l' id).
  - eapply Forall2_impl; [exact Hf1|]. intros id l Hl. by apply (lookup_weaken m1).
Qed.

(** ** The fallback keeps a longest common subsequence *)
Fixpoint lcs (a : list N) : list N -> nat :=
  match a with
  | [] => fun _ => 0
  | x :: a' => fix inner b :=
      match b with
      | [] => 0
      | y :: b' => if decide (x = y) then S (lcs a' b') else Nat.max (lcs a' b) (inner b')
      end
  end.

Lemma lcs_nil_r a : lcs a [] = 0.
Proof. by destruct a. Qed.

Lemma lcs_cons x y a b :
  lcs (x :: a) (y :: b) = if decide (x = y) then S (lcs a b) else Nat.max (lcs a (y :: b)) (lcs (x :: a) b).
Proof. done. Qed.

Lemma lcs_max s a b : s `sublist_of` a -> s `sublist_of` b -> length s <= lcs a b.
Proof.
  revert s b. induction a as [|x a IHa]; intros s b Ha; [apply sublist_nil_r in Ha as ->; simpl; lia|].
  revert s Ha. induction b as [|y b IHb]; intros s Ha Hb; [apply sublist_nil_r in Hb as ->; simpl; lia|].
  rw lcs_cons. pose proof Ha as Ha0. pose proof Hb as Hb0.
  apply sublist_cons_r in Ha as [Ha|(s1 & -> & Ha)]; apply sublist_cons_r in Hb as [Hb|(s2 & E & Hb)].
  - case_decide; [specialize (IHa s b Ha Hb); lia|]. specialize (IHb s Ha0 Hb). lia.
  - subst s. case_decide as D.
    + subst y. specialize (IHa s2 b). simpl. apply le_n_S, IHa; [|done].
      apply sublist_cons_l in Ha as (k1 & k2 & -> & Ha). by apply sublist_inserts_l, sublist_cons.
    + specialize (IHa (y :: s2) (y :: b) Ha Hb0). lia.
  - case_decide as D.
    + subst y. simpl. apply le_n_S, IHa; [done|].
      apply sublist_cons_l in Hb as (k1 & k2 & -> & Hb). by apply sublist_inserts_l, sublist_cons.
    + specialize (IHb (x :: s1) Ha0 Hb). lia.
  - injection E as -> ->. rw decide_True //. simpl. by apply le_n_S, IHa.
Qed.

Section table.
Context (old new : list N).
Local Abbreviation L i j := (lcs (reverse (take i old)) (reverse (take j new))).

Lemma lcs_step i j x y : old !! i = Some x -> new !! j = Some y ->
  L (S i) (S j) = if decide (x = y) then S (L i j) else Nat.max (L i (S j)) (L (S i) j).
Proof. intros Hx Hy. rw (take_S_r _ _ _ Hx) (take_S_r _ _ _ Hy) !reverse_snoc. apply lcs_cons. Qed.

Lemma dp_row_ok i x rest j : old !! i = Some x -> drop j new = rest ->
  dp_row x rest (L i j) ((fun j => L i j) <$> seq (S j) (length rest)) (L (S i) j)
  = (fun j => L (S i) j) <$> seq (S j) (length rest).
Proof.
  intros Hx. revert j. induction rest as [|y rest IH]; intros j Hd; [done|]. cbn [length seq].
  assert (new !! j = Some y) as Hy by (by rw -(Nat.add_0_r j) -lookup_drop Hd).
  rw (drop_S _ _ _ Hy) in Hd. injection Hd as Hd. rw !fmap_cons. cbn [dp_row].
  assert ((if (x =? y)%N then L i j + 1 else L i (S j) `max` L (S i) j) = L (S i) (S j)) as ->.
  { rw (lcs_step i j x y) //. destruct (N.eqb_spec x y); [rw decide_True //; lia|by rw decide_False]. }
  f_equal. by apply IH.
Qed.

Lemma dp_rows_ok i k : i + k <= length old ->
  dp_rows (drop i old) new ((fun j => L i j) <$> seq 0 (S (length new))) !! k
  = Some ((fun j => L (i + k) j) <$> seq 0 (S (length new))).
Proof.
  revert i. induction k as [|k IH]; intros i Hi.
  { rw Nat.add_0_r. by destruct (drop i old). }
  destruct (lookup_lt_is_Some_2 old i) as [x Hx]; [lia|]. rw (drop_S _ _ _ Hx). cbn [dp_rows lookup list_lookup].
  rw -Nat.add_succ_comm -IH; [lia|]. f_equal. cbn [seq]. rw !fmap_cons. cbn [next_row].
  pose proof (dp_row_ok i x new 0 Hx (drop_0 _)) as H.
  assert (forall i, L i 0 = 0) as H0 by (intros; apply lcs_nil_r). rw !H0 in H. by rw !H0 H.
Qed.

Lemma dp_at_ok i j : i <= length old -> j <= length new -> dp_at (dp_table old new) i j = L i j.
Proof.
  intros Hi Hj. unfold dp_at, dp_table. pose proof (dp_rows_ok 0 i Hi) as H. rw drop_0 in H.
  assert (replicate (length new + 1) 0 = (fun j => L 0 j) <$> seq 0 (S (length new))) as ->.
  { clear. rw Nat.add_1_r. generalize 0 at 3. induction (S (length new)) as [|n IH]; intros k; [done|].
    cbn. f_equal. apply IH. }
  rw H. cbn [mbind option_bind]. rw list_lookup_fmap lookup_seq_lt; [lia|done].
Qed.

Definition kept (steps : list Step) : nat := length (filter (fun s => s = SEqual) steps).

Lemma kept_equal steps : kept (SEqual :: steps) = S (kept steps).
Proof. done. Qed.

Lemma kept_change s steps : s <> SEqual -> kept (s :: steps) = kept steps.
Proof. by destruct s. Qed.

Lemma kept_app s t : kept (s ++ t) = kept s + kept t.
Proof. unfold kept. by rw filter_app length_app. Qed.

Lemma kept_replicate n s : s <> SEqual -> kept (replicate n s) = 0.
Proof. intros H. induction n as [|n IH]; [done|]. cbn [replicate]. by rw kept_change. Qed.

Lemma backtrack_kept fuel i j steps :
  i <= length old -> j <= length new -> i + j <= fuel ->
  kept (backtrack old new (dp_table old new) fuel i j steps) = L i j + kept steps.
Proof.
  revert i j steps. induction fuel as [|fuel IH]; intros i j steps Hi Hj Hf.
  { assert (i = 0) as -> by lia. by assert (j = 0) as -> by lia. }
  destruct i as [|i]; [cbn [backtrack]; rw !kept_app !kept_replicate //|].
  destruct j as [|j]; [cbn [backtrack]; rw !kept_app !kept_replicate // take_0 lcs_nil_r //|].
  destruct (lookup_lt_is_Some_2 old i) as [x Hx]; [lia|].
  destruct (lookup_lt_is_Some_2 new j) as [y Hy]; [lia|].
  cbn [backtrack]. rw (lcs_step i j x y) //. rw !dp_at_ok; [lia..|]. rw Hx Hy.
  destruct (decide (x = y)) as [->|Hne].
  - rw decide_True // IH; [lia..|]. rw kept_equal. lia.
  - rw decide_False; [congruence|]. destruct (Nat.leb_spec (L (S i) j) (L i (S j))); rw IH; try lia;
      rw kept_change //; lia.
Qed.
End table.

Lemma sublist_reverse {A} (l k : list A) : l `sublist_of` k -> reverse l `sublist_of` reverse k.
Proof.
  induction 1 as [|x l k Hs IH|x l k Hs IH]; [done| |]; rw !reverse_cons.
  - by apply sublist_app.
  - by apply sublist_inserts_r.
Qed.

Definition deleted (hs : list LineDiffHunk) : nat := sum_list (h_old_count <$> hs).

Lemma group_steps_deleted ob nb steps : forall op np a b,
  walk steps a b ->
  deleted (group_steps ob nb None op np steps) + kept steps = length a
  /\ forall o n, o <= op -> deleted (group_steps ob nb (Some (o, n)) op np steps) + kept steps = op - o + length a.
Proof.
  assert (forall h hs, deleted (h :: hs) = h_old_count h + deleted hs) as Hcons by done.
  induction steps as [|[] steps IH]; intros op np a b Hw; cbn [walk] in Hw;
    cbn [group_steps close_hunk app].
  - destruct Hw as [-> ->]. split; [done|]. intros. rw Hcons. cbn. lia.
  - destruct Hw as (x & a' & b' & -> & -> & Hw). destruct (IH (S op) (S np) a' b' Hw) as [H1 _].
    rw kept_equal. cbn [length]. split; [lia|]. intros. rw Hcons. cbn [h_old_count]. lia.
  - destruct Hw as (x & a' & -> & Hw). destruct (IH (S op) np a' b Hw) as [_ H2]. rw kept_change //.
    cbn [length]. split; [specialize (H2 op np ltac:(lia))|intros o n Ho; specialize (H2 o n ltac:(lia))];
      cbn [default from_option id] in *; lia.
  - destruct Hw as (y & b' & -> & Hw). destruct (IH op (S np) a b' Hw) as [_ H2]. rw kept_change //.
    split; [specialize (H2 op np ltac:(lia))|intros o n Ho; specialize (H2 o n ltac:(lia))];
      cbn [default from_option id] in *; lia.
Qed.

(** The fallback keeps as much as possible.  The lines that the dense comparison of two
    chunks leaves outside its hunks are as many as any common subsequence of the chunks
    has. *)
Theorem lcs_diff_longest old new ob nb s :
  s `sublist_of` old -> s `sublist_of` new ->
  length s + deleted (lcs_diff old new ob nb) <= length old.
Proof.
  intros Ho Hn. unfold lcs_diff, lcs_steps.
  assert (walk (lcs_steps old new) old new) as Hw.
  { unfold lcs_steps. apply backtrack_walk; [done..|]. by rw !drop_all. }
  destruct (group_steps_deleted ob nb _ 0 0 old new Hw) as [H _]. unfold lcs_steps in H.
  rw backtrack_kept // !firstn_all in H.
  assert (length s <= lcs (reverse old) (reverse new)).
  { rw -(length_reverse s). apply lcs_max; by apply sublist_reverse. }
  change (kept []) with 0 in H. lia.
Qed.

(** Strictly ordered lists are sublists of one another as soon as they are subsets. *)
Lemma ordered_subset_sublist (s k : list (nat * nat)) :
  StronglySorted (fun a b => a.2 < b.2) s -> StronglySorted (fun a b => a.2 < b.2) k ->
  (forall p, p ∈ s -> p ∈ k) -> s `sublist_of` k.
Proof.
  intros Hs Hk. revert s Hs. induction k as [|y k IH]; intros s Hs Hsub.
  { destruct s as [|x s]; [done|]. by destruct (not_elem_of_nil x); apply Hsub; left. }
  inversion Hk as [|? ? Hk' Hky]; subst. rw Forall_forall in Hky.
  destruct s as [|x s]; [apply sublist_nil_l|]. inversion Hs as [|? ? Hs' Hsx]; subst. rw Forall_forall in Hsx.
  assert (x ∈ y :: k) as Hx by (apply Hsub; by left). apply elem_of_cons in Hx as [->|Hx].
  - apply sublist_skip, IH; [done..|]. intros p Hp. assert (p ∈ y :: k) as H by (apply Hsub; by right).
    apply elem_of_cons in H as [->|H]; [|done]. specialize (Hsx y Hp). simpl in Hsx. lia.
  - apply sublist_cons, IH; [done..|]. intros p Hp. assert (p ∈ y :: k) as H by (by apply Hsub).
    apply elem_of_cons in H as [->|H]; [|done]. specialize (Hky x Hx). simpl in Hky.
    apply elem_of_cons in Hp as [E|Hp]; [subst; lia|]. specialize (Hsx y Hp). simpl in Hsx. lia.
Qed.

(** Anchors are a longest chain of unique lines.  Two chunks have no anchors exactly when
    no line occurs once on each side; otherwise the anchors are pairs of equal lines in
    order on both sides, and no chain of lines that occur once on each side, in order on
    both sides, is longer. *)
Theorem patience_anchors_longest old new :
  exists r, patience_anchors old new = Ok r
  /\ match r with
     | Some anchors =>
         anchored old new 0 0 anchors
         /\ forall s, increasing s -> StronglySorted (fun a b => a.2 < b.2) s ->
            Forall (fun p => exists id, old !! p.1 = Some id /\ new !! p.2 = Some id
              /\ occurrences id old = 1 /\ occurrences id new = 1) s -> length s <= length anchors
     | None => forall id, ~ (occurrences id old = 1 /\ occurrences id new = 1)
     end.
Proof.
  destruct (patience_anchors_ok old new) as (r & Hr & H). exists r. split; [done|]. destruct r as [anchors|].
  - destruct H as [Ha Hbest]. split; [done|]. intros s Hinc Hsort Hall. apply Hbest; [|done].
    apply ordered_subset_sublist; [done|apply candidates_sorted|]. rw Forall_forall in Hall.
    intros [i j] Hp. apply elem_of_unique_pairs. by apply (Hall (i, j)).
  - intros id [H1 H2].
    assert (forall l, occurrences id l = 1 -> exists i, l !! i = Some id) as Hex.
    { clear. intros l Hl. unfold occurrences in Hl.
      destruct (filter (fun x => x = id) l) as [|x k] eqn:E; [done|].
      assert (x ∈ filter (fun x => x = id) l) as Hx by (rw E; by left).
      apply list_elem_of_filter in Hx as [-> Hx]. by apply list_elem_of_lookup_1. }
    destruct (Hex old H1) as [i Hi]. destruct (Hex new H2) as [j Hj].
    assert ((i, j) ∈ unique_pairs old new) as Hin by (apply elem_of_unique_pairs; by exists id).
    rw H in Hin. by apply not_elem_of_nil in Hin.
Qed.
