(* ===== verification/LineDiffText.v ===== *)
(** * What a line diff means for the texts

    Carrying out the hunks of a diff on the old lines gives the new lines; offsets are
    mapped line by line, to the same place of a common line and to a character boundary
    everywhere; and the byte ranges of a comparison, replaced in the old text, give the
    new text. *)
From stdpp Require Import base numbers list option gmap sorting.
From Stdlib Require Import ssreflect Strings.Byte NArith.
From S2P Require Import Prelude TextSpec Utf8 LineDiff LineDiffInv.

(** ** Lines *)
Lemma concat_split t : concat (split_inclusive t) = t.
Proof.
  induction t as [|b t IH]; [done|]. cbn [split_inclusive]. destruct (is_nl b); [simpl; by rw IH|].
  destruct (split_inclusive t) as [|l ls]; simpl in *; by rw -IH.
Qed.

Lemma split_inclusive_nonempty t : Forall (fun l => l <> []) (split_inclusive t).
Proof.
  induction t as [|b t IH]; cbn [split_inclusive]; [constructor|]. destruct (is_nl b); [by constructor|].
  destruct (split_inclusive t) as [|l ls]; [by repeat constructor|].
  apply Forall_cons_1 in IH as [_ IH]. by constructor.
Qed.

Lemma split_inclusive_inj t u : split_inclusive t = split_inclusive u -> t = u.
Proof. intros H. by rw -(concat_split t) -(concat_split u) H. Qed.

(** The bytes before line [k]. *)
Definition bytes_before (lines : list (list byte)) (k : nat) : nat := length (concat (take k lines)).

Lemma line_starts_lookup pos lines k :
  k <= length lines -> line_starts pos lines !! k = Some (pos + bytes_before lines k).
Proof.
  unfold bytes_before. revert pos k. induction lines as [|l lines IH]; intros pos k Hk; cbn [line_starts].
  - simpl in Hk. assert (k = 0) as -> by lia. by rw Nat.add_0_r.
  - destruct k as [|k]; [by rw Nat.add_0_r|]. simpl in Hk. cbn [lookup list_lookup take concat].
    rw IH; [lia|]. rw length_app. f_equal. lia.
Qed.

Lemma line_starts_at pos lines k :
  k <= length lines -> vec_at (line_starts pos lines) k = Ok (pos + bytes_before lines k).
Proof. intros Hk. unfold vec_at. by rw line_starts_lookup. Qed.

Lemma bytes_before_all (a b : list (list byte)) : bytes_before (a ++ b) (length a) = length (concat a).
Proof. unfold bytes_before. by rw take_app_length. Qed.

(** ** Carrying out a diff *)

(** [hunks_ordered sep o n hs ol nl]: from line [o] of the old and [n] of the new text,
    the hunks are in order, none is empty, the same number of lines is between two of
    them on both sides, at least one ([sep] says whether a hunk may come at once), and
    the rest after the last has the same number of lines. *)
Fixpoint hunks_ordered (sep : bool) (o n : nat) (hs : list LineDiffHunk) (ol nl : nat) : Prop :=
  match hs with
  | [] => o <= ol /\ n <= nl /\ ol - o = nl - n
  | h :: hs =>
      o <= h_old_start h /\ n <= h_new_start h /\ h_old_start h - o = h_new_start h - n
      /\ (sep = true \/ o < h_old_start h) /\ (0 < h_old_count h \/ 0 < h_new_count h)
      /\ hunks_ordered false (h_old_end h) (h_new_end h) hs ol nl
  end.

(** Replace each hunk's lines of [old], which starts at line [o], by those of [new]. *)
Fixpoint patch {A} (new : list A) (o : nat) (old : list A) (hs : list LineDiffHunk) : list A :=
  match hs with
  | [] => old
  | h :: hs =>
      take (h_old_start h - o) old ++ take (h_new_count h) (drop (h_new_start h) new)
      ++ patch new (h_old_end h) (drop (h_old_end h - o) old) hs
  end.

Lemma hunks_ordered_line sep o n hs ol nl :
  hunks_ordered true (S o) (S n) hs ol nl -> hunks_ordered sep o n hs ol nl.
Proof. destruct hs as [|h hs]; simpl; [lia|]. intros (? & ? & ? & ? & ? & ?). split_and!; solve [lia|done|right; lia]. Qed.

Lemma script_ordered {A} f o n (a b : list A) hs :
  script f o n a b hs -> hunks_ordered f o n hs (o + length a) (n + length b).
Proof.
  induction 1 as [f o n|f o n x old new hs H IH|o n del ins old new hs Hne H IH].
  - simpl. lia.
  - apply hunks_ordered_line. cbn [length]. by rw -!Nat.add_succ_comm.
  - cbn [hunks_ordered h_old_start h_new_start h_old_count h_new_count].
    split_and!; [lia..|by left| |].
    + destruct Hne as [Hd|Hi]; [left|right]; by apply Nat.neq_0_lt_0; intros ?%nil_length_inv.
    + rw !length_app !Nat.add_assoc. exact IH.
Qed.

Lemma script_patch {A} f o n (a b : list A) hs pre :
  script f o n a b hs -> length pre = n -> patch (pre ++ b) o a hs = b.
Proof.
  intros H. revert pre. induction H as [f o n|f o n x old new hs H IH|o n del ins old new hs Hne H IH];
    intros pre Hpre.
  - done.
  - specialize (IH (pre ++ [x])). rw length_app -app_assoc in IH. specialize (IH ltac:(simpl; lia)). cbn [app] in IH.
    destruct hs as [|h hs]; cbn [patch] in *; [by rw IH|].
    apply script_ordered in H as (Hle & _). replace (h_old_start h - o) with (S (h_old_start h - S o)) by lia.
    unfold h_old_end in *. replace (h_old_start h + h_old_count h - o) with (S (h_old_start h + h_old_count h - S o)) by lia.
    cbn [take drop app]. by rw IH.
  - cbn [patch]. unfold h_old_end. cbn [h_old_start h_old_count h_new_start h_new_count].
    rw Nat.sub_diag take_0. cbn [app]. rw -{1}Hpre drop_app_length take_app_length. f_equal.
    replace (o + length del - o) with (length del) by lia. rw drop_app_length app_assoc.
    apply IH. rw length_app. lia.
Qed.

(** Equal sequences have no hunks. *)
Lemma common_prefix_refl {A} `{EqDecision A} (a : list A) : common_prefix a a = length a.
Proof. induction a as [|x a IH]; [done|]. simpl. by rw decide_True // IH. Qed.

Lemma diff_range_refl levels a ob nb : diff_range levels a a ob nb = Ok [].
Proof.
  destruct levels; cbn [diff_range]; rw common_prefix_refl drop_all /= Nat.sub_0_r slice_Ok //;
    by rw Nat.sub_diag take_0.
Qed.

Lemma intern_known (m : LineInterner) lines ids :
  Forall2 (fun id l => m !! l = Some id) ids lines -> intern_all m lines = (m, ids).
Proof. induction 1 as [|id l ids lines Hl H IH]; [done|]. cbn [intern_all]. unfold intern. by rw Hl IH. Qed.

Lemma compute_line_diff_same t :
  (N.of_nat (length (split_inclusive t)) <= 2 ^ 32)%N -> compute_line_diff t t = Ok [].
Proof.
  intros Hlen. unfold compute_line_diff.
  assert (interner_ok ∅) as H0 by (split; intros ? ?; by rw lookup_empty).
  destruct (intern_all ∅ (split_inclusive t)) as [m ids] eqn:E.
  destruct (intern_all_ok ∅ (split_inclusive t) m ids H0) as (_ & _ & _ & Hf); [by rw map_size_empty|done|].
  rw (intern_known _ _ _ Hf). apply diff_range_refl.
Qed.

(** C13: a line diff is a diff.  For texts of fewer than 2^32 lines in all, the diff never
    panics; its hunks are in order, not empty, and separated by lines that are counted
    alike on both sides; replacing the hunks' lines of the old text by their lines of the
    new text gives the new text, so that all other lines are equal; and there is no hunk
    exactly when the texts are the same. *)
Theorem line_diff_correct old new :
  (N.of_nat (length (split_inclusive old) + length (split_inclusive new)) <= 2 ^ 32)%N ->
  exists hs, compute_line_diff old new = Ok hs
  /\ hunks_ordered true 0 0 hs (length (split_inclusive old)) (length (split_inclusive new))
  /\ concat (patch (split_inclusive new) 0 (split_inclusive old) hs) = new
  /\ (hs = [] <-> old = new).
Proof.
  intros Hlen. destruct (compute_line_diff_script old new Hlen) as (hs & Hd & Hs).
  pose proof (script_patch _ _ _ _ _ _ [] Hs eq_refl) as Hp. cbn [app] in Hp.
  exists hs. split_and!; [done|by apply script_ordered in Hs|by rw Hp concat_split|]. split.
  - intros ->. by apply split_inclusive_inj.
  - intros <-. rw compute_line_diff_same in Hd; [lia|]. by injection Hd.
Qed.

(** ** The loop of [map_offset_through_diff]

    [da] and [db] are the lines already passed on either side, [rel] is the offset
    relative to their end. *)
Definition total (lines : list (list byte)) : nat := length (concat lines).

Lemma total_app a b : total (a ++ b) = total a + total b.
Proof. unfold total. by rw concat_app length_app. Qed.

Lemma total_cons l a : total (l :: a) = length l + total a.
Proof. unfold total. by rw /= length_app. Qed.

Lemma slice_middle {A} (a b c : list A) : slice (a ++ b ++ c) (length a) (length a + length b) = Ok b.
Proof.
  rw slice_Ok; [lia|rw !length_app; lia|]. rw drop_app_length. f_equal.
  replace (length a + length b - length a) with (length b) by lia. by rw take_app_length.
Qed.

(** The line of the new text that line [i] of the old one is, if it is in no hunk. *)
Fixpoint line_image (o n : nat) (hs : list LineDiffHunk) (i : nat) : option nat :=
  match hs with
  | [] => Some (n + (i - o))
  | h :: hs =>
      if i <? h_old_start h then Some (n + (i - o))
      else if i <? h_old_end h then None
      else line_image (h_old_end h) (h_new_end h) hs i
  end.

Lemma line_image_S o n hs i : S o <= i -> line_image o n hs i = line_image (S o) (S n) hs i.
Proof.
  intros Hi. destruct hs as [|h hs]; cbn [line_image]; [|destruct (i <? h_old_start h); [|done]]; f_equal; lia.
Qed.

Lemma bytes_before_split da a i :
  length da <= i -> bytes_before (da ++ a) i = total da + bytes_before a (i - length da).
Proof. intros Hi. unfold bytes_before, total. by rw take_app_ge // concat_app length_app. Qed.

Lemma bytes_before_line lines i l : lines !! i = Some l -> bytes_before lines i + length l <= total lines.
Proof.
  intros Hl. unfold bytes_before, total. rw -{2}(take_drop i lines) (drop_S _ _ _ Hl) concat_app length_app /= length_app.
  lia.
Qed.

Section offsets.
Context (old_lines new_lines : list (list byte)).
Local Abbreviation loop offset delta hs :=
  (map_offset_loop (concat old_lines) (concat new_lines) (line_starts 0 old_lines) (line_starts 0 new_lines)
     offset delta hs).
Local Abbreviation shift da db := (Z.of_nat (total db) - Z.of_nat (total da))%Z.

(** An offset before the first hunk moves with its line. *)
Lemma loop_done da db b hs rel :
  new_lines = db ++ b -> rel <= total b ->
  match hs with [] => True | h :: _ => h_old_start h <= length old_lines /\ total da + rel < bytes_before old_lines (h_old_start h) end ->
  loop (total da + rel) (shift da db) hs = Ok (total db + rel).
Proof.
  intros Hn Hrel Hh.
  assert (Nat.min (Z.to_nat (Z.max (Z.of_nat (total da + rel) + shift da db) 0)) (length (concat new_lines))
          = total db + rel) as Hd.
  { change (length (concat new_lines)) with (total new_lines). rw Hn total_app. lia. }
  destruct hs as [|h hs]; cbn [map_offset_loop]; rw Hd //.
  destruct Hh as [Hb Hlt]. rw (line_starts_at 0 old_lines (h_old_start h)) //. cbn [mbind res_bind]. rw Nat.add_0_l.
  by rw (proj2 (Nat.ltb_lt _ _) Hlt).
Qed.

Lemma script_first {A} f o n (a b : list A) hs :
  script f o n a b hs ->
  match hs with [] => True | h :: _ => o <= h_old_start h /\ h_old_start h <= o + length a end.
Proof.
  intros H. induction H as [| |]; [done| |cbn; lia]. destruct hs; [done|]. cbn in *. lia.
Qed.

Lemma bytes_before_app da a k :
  old_lines = da ++ a -> length da <= k -> total da <= bytes_before old_lines k.
Proof.
  intros -> Hk. unfold bytes_before, total. rw take_app_ge // concat_app length_app. lia.
Qed.

Lemma loop_line f da db x a b hs rel :
  old_lines = da ++ x :: a -> new_lines = db ++ x :: b ->
  script f (S (length da)) (S (length db)) a b hs -> rel < length x ->
  loop (total da + rel) (shift da db) hs = Ok (total db + rel).
Proof.
  intros Ho Hn Hs Hrel. apply (loop_done _ _ (x :: b)); [done|rw total_cons; lia|].
  apply script_first in Hs. destruct hs as [|h hs]; [done|]. rw Ho length_app /=. split; [lia|].
  rw -Ho. eapply Nat.lt_le_trans; [|apply (bytes_before_app (da ++ [x]) a)].
  - rw total_app total_cons. lia.
  - by rw -app_assoc.
  - rw length_app /=. lia.
Qed.

Lemma loop_hunk da db del ins a b hs rel :
  old_lines = da ++ del ++ a -> new_lines = db ++ ins ++ b ->
  loop (total da + rel) (shift da db) (mkHunk (length da) (length del) (length db) (length ins) :: hs)
  = if rel <? total del
    then Ok (total db + map_offset_within_replacement (concat del) (concat ins) rel)
    else loop (total (da ++ del) + (rel - total del)) (shift (da ++ del) (db ++ ins)) hs.
Proof.
  intros Ho Hn. cbn [map_offset_loop h_old_start h_old_count h_new_start h_new_count].
  assert (forall lines p m r, lines = p ++ m ++ r ->
    vec_at (line_starts 0 lines) (length p) = Ok (total p)
    /\ vec_at (line_starts 0 lines) (length p + length m) = Ok (total p + total m)) as Hat.
  { intros lines p m r ->. rw !line_starts_at ?length_app; try lia. rw bytes_before_all.
    rw app_assoc -length_app bytes_before_all. rw -total_app. done. }
  destruct (Hat _ _ _ _ Ho) as [-> ->]. destruct (Hat _ _ _ _ Hn) as [-> ->]. cbn [mbind res_bind].
  rw (proj2 (Nat.ltb_ge (total da + rel) (total da))); [lia|].
  destruct (Nat.ltb_spec rel (total del)) as [Hlt|Hge].
  - rw (proj2 (Nat.ltb_lt (total da + rel) (total da + total del))); [lia|].
    unfold total. rw {1}Ho {1}Hn !concat_app !slice_middle. cbn [mbind res_bind].
    by replace (length (concat da) + rel - length (concat da)) with rel by lia.
  - rw (proj2 (Nat.ltb_ge (total da + rel) (total da + total del))); [lia|]. rw !total_app.
    f_equal; lia.
Qed.

(** Lines in no hunk keep their offsets. *)
Lemma loop_common f o n a b hs : script f o n a b hs ->
  forall da db i j l c, old_lines = da ++ a -> new_lines = db ++ b -> length da = o -> length db = n ->
  line_image o n hs i = Some j -> o <= i -> a !! (i - o) = Some l -> c < length l ->
  n <= j /\ b !! (j - n) = Some l
  /\ loop (bytes_before old_lines i + c) (shift da db) hs = Ok (bytes_before new_lines j + c).
Proof.
  induction 1 as [f o n|f o n x old new hs H IH|o n del ins old new hs Hne H IH];
    intros da db i j l c Ho Hn Hda Hdb Hj Hi Hl Hc.
  - done.
  - destruct (decide (i = o)) as [->|Hne].
    + rw Nat.sub_diag in Hl. injection Hl as <-.
      assert (j = n) as ->.
      { pose proof (script_first _ _ _ _ _ _ H) as Hf. destruct hs as [|h hs]; cbn [line_image] in Hj.
        - injection Hj as <-. lia.
        - rw (proj2 (Nat.ltb_lt o (h_old_start h))) in Hj; [lia|]. injection Hj as <-. lia. }
      rw Nat.sub_diag. split; [lia|]. split; [done|].
      rw Ho Hn !bytes_before_split; [lia..|]. rw Hda Hdb !Nat.sub_diag. unfold bytes_before. rw take_0 !Nat.add_0_r.
      rw -Ho -Hn. apply (loop_line true _ _ x old new); [done..| |done]. by rw Hda Hdb.
    + rw line_image_S in Hj; [lia|]. replace (i - o) with (S (i - S o)) in Hl by lia.
      destruct (IH (da ++ [x]) (db ++ [x]) i j l c) as (Hnj & Hl' & Hloop);
        [by rw -app_assoc|by rw -app_assoc|rw length_app /=; lia..|done|lia|done|done|].
      split; [lia|]. split; [by replace (j - n) with (S (j - S n)) by lia|].
      rw -Hloop. f_equal. rw !total_app. lia.
  - cbn [line_image h_old_start h_old_count] in Hj. unfold h_old_end, h_new_end in Hj. cbn [h_old_start h_old_count h_new_start h_new_count] in Hj.
    rw (proj2 (Nat.ltb_ge i o)) // in Hj. destruct (Nat.ltb_spec i (o + length del)) as [|Hge]; [done|].
    destruct (IH (da ++ del) (db ++ ins) i j l c) as (Hnj & Hl' & Hloop);
      [by rw -app_assoc|by rw -app_assoc|rw length_app; lia..|done|lia| |done|].
    { rw lookup_app_r in Hl; [lia|]. by rw Nat.sub_add_distr. }
    split; [lia|]. split; [rw lookup_app_r; [lia|]; by rw -Nat.sub_add_distr|].
    rw -Hloop. subst o n. rw {1 3}Ho bytes_before_split; [lia|]. rw -Ho.
    rw -Nat.add_assoc (loop_hunk da db del ins old new) //.
    rw bytes_before_split; [lia|]. rw (proj2 (Nat.ltb_ge _ _)); [lia|].
    f_equal. rw Ho app_assoc bytes_before_split length_app; [lia|]. rw total_app.
    replace (i - (length da + length del)) with (i - length da - length del) by lia. lia.
Qed.
End offsets.

(** Offsets stay with their lines.  An offset in a line that is in no hunk of the diff is
    mapped to the same place of the line's copy in the new text. *)
Theorem map_offset_keeps_lines old new hs i j l c :
  (N.of_nat (length (split_inclusive old) + length (split_inclusive new)) <= 2 ^ 32)%N ->
  compute_line_diff old new = Ok hs -> line_image 0 0 hs i = Some j ->
  split_inclusive old !! i = Some l -> c < length l ->
  split_inclusive new !! j = Some l
  /\ map_offset_through_diff old new (bytes_before (split_inclusive old) i + c)
     = Ok (bytes_before (split_inclusive new) j + c).
Proof.
  intros Hlen Hd Hj Hl Hc. destruct (compute_line_diff_script old new Hlen) as (hs' & Hd' & Hs).
  rw Hd in Hd'. injection Hd' as <-.
  destruct (loop_common (split_inclusive old) (split_inclusive new) _ _ _ _ _ _ Hs [] [] i j l c)
    as (_ & Hl' & Hloop); [done..|lia|by rw Nat.sub_0_r|done|]. rw Nat.sub_0_r in Hl'. split; [done|].
  rw !concat_split in Hloop. rw -Hloop. unfold map_offset_through_diff. rw Hd. cbn [mbind res_bind].
  f_equal. apply Nat.min_l. pose proof (bytes_before_line _ _ _ Hl) as H. unfold total in H.
  rw concat_split in H. lia.
Qed.

(** ** Character boundaries *)
Local Abbreviation scalars := (Forall (fun c => is_scalar c = true)).
Local Abbreviation size_of cs := (length (encode_all cs)).

Lemma size_of_app cs ds : size_of (cs ++ ds) = size_of cs + size_of ds.
Proof. by rw encode_all_app length_app. Qed.

Lemma size_of_cons c cs : size_of (c :: cs) = len_utf8 c + size_of cs.
Proof. by rw encode_all_cons length_app. Qed.

Lemma size_of_length cs : length cs <= size_of cs.
Proof.
  induction cs as [|c cs IH]; [done|]. rw size_of_cons. pose proof (length_encode_utf8 c). unfold len_utf8. simpl. lia.
Qed.

(** Sizes order the prefixes of a text. *)
Lemma size_of_take_le cs j k : j <= k -> size_of (take j cs) <= size_of (take k cs).
Proof.
  intros Hjk. replace (take k cs) with (take j cs ++ take (k - j) (drop j cs)).
  - rw size_of_app. lia.
  - rw take_take_drop. f_equal. lia.
Qed.

Lemma size_of_take_lt cs j k : j < k -> j < length cs -> size_of (take j cs) < size_of (take k cs).
Proof.
  intros Hjk Hj. destruct (lookup_lt_is_Some_2 cs j Hj) as [c Hc].
  eapply Nat.lt_le_trans; [|apply (size_of_take_le cs (S j) k); lia].
  rw (take_S_r _ _ _ Hc) size_of_app. pose proof (size_of_length [c]). simpl in *. lia.
Qed.

(** The common ends of two texts, in characters. *)
Lemma common_chars_split a b :
  exists p a' b', a = p ++ a' /\ b = p ++ b' /\ size_of p = common_chars a b.
Proof.
  revert b. induction a as [|x a IH]; intros b; [by exists [], [], b|].
  destruct b as [|y b]; [by exists [], (x :: a), []|]. cbn [common_chars].
  destruct (N.eqb_spec x y) as [<-|]; [|by exists [], (x :: a), (y :: b)].
  destruct (IH b) as (p & a' & b' & -> & -> & Hp). exists (x :: p), a', b'. by rw size_of_cons Hp.
Qed.

Lemma common_suffix_boundary u v s k :
  k <= length (u ++ s) -> size_of (drop k (u ++ s)) <= size_of s ->
  exists j, j <= length (v ++ s) /\ size_of (v ++ s) - size_of (drop k (u ++ s)) = size_of (take j (v ++ s)).
Proof.
  intros Hk Hle. rw length_app in Hk.
  assert (length u <= k) as Huk.
  { destruct (decide (length u <= k)) as [|Hlt]; [done|]. exfalso. rw drop_app_le in Hle; [lia|].
    rw size_of_app in Hle. pose proof (size_of_length (drop k u)) as H. rw length_drop in H. lia. }
  exists (length v + (k - length u)). rw length_app. split; [lia|]. rw drop_app_ge // take_app_add !size_of_app.
  rw -{1}(take_drop (k - length u) s) size_of_app. lia.
Qed.

Lemma within_boundary a b k :
  scalars a -> scalars b -> k <= length a ->
  exists j, j <= length b
  /\ map_offset_within_replacement (encode_all a) (encode_all b) (size_of (take k a)) = size_of (take j b).
Proof.
  intros Ha Hb Hk. unfold map_offset_within_replacement.
  rw (proj2 (from_utf8_encoded a Ha)) (proj2 (from_utf8_encoded b Hb)).
  destruct (common_chars_split a b) as (p & a1 & b1 & -> & -> & <-).
  apply Forall_app in Ha as [_ Ha]. apply Forall_app in Hb as [_ Hb].
  destruct (Nat.leb_spec (size_of (take k (p ++ a1))) (size_of p)) as [Hle|Hgt].
  { assert (k <= length p) as Hkp.
    { destruct (decide (k <= length p)) as [|Hgt]; [done|]. exfalso.
      pose proof (size_of_take_lt (p ++ a1) (length p) k ltac:(lia) ltac:(lia)) as H.
      rw take_app_length in H. lia. }
    exists k. rw length_app. split; [lia|]. by rw !take_app_le. }
  rw !encode_all_app !drop_app_length (proj2 (from_utf8_encoded a1 Ha)) (proj2 (from_utf8_encoded b1 Hb)).
  destruct (common_chars_split (reverse a1) (reverse b1)) as (s & a2 & b2 & Ha1 & Hb1 & Hs).
  rw -Hs !length_app. apply (f_equal reverse) in Ha1, Hb1. rw reverse_involutive reverse_app in Ha1.
  rw reverse_involutive reverse_app in Hb1.
  assert (size_of (reverse s) = size_of s) as <-.
  { clear. induction s as [|c s IH]; [done|]. rw reverse_cons size_of_app !size_of_cons IH. simpl. lia. }
  rw -!size_of_app. replace (size_of (p ++ a1) - _) with (size_of (drop k (p ++ a1))).
  2: { rw -{2}(take_drop k (p ++ a1)) size_of_app. lia. }
  destruct (Nat.leb_spec (size_of (drop k (p ++ a1))) (size_of (reverse s))) as [Hle|Hlt].
  - subst a1 b1. rw -length_app. rw !(app_assoc p) in Hk, Hle |- *. by apply common_suffix_boundary.
  - exists (length p). split; [lia|]. by rw take_app_length.
Qed.

(** The lines of a text are cut between characters. *)
Lemma encode_no_newline c : is_scalar c = true -> c <> 10%N -> Forall (fun b => is_nl b = false) (encode_utf8 c).
Proof.
  intros Hs Hc. apply is_scalar_spec in Hs. unfold encode_utf8.
  assert (forall n, (n < 256)%N -> n <> 10%N -> is_nl (byte_of n) = false) as Hb.
  { intros n Hn Hne. unfold is_nl. destruct (Byte.eqb (byte_of n) x0a) eqn:E; [|done]. apply Byte.byte_dec_bl in E.
    apply (f_equal code) in E. rw code_byte_of // in E. }
  assert (forall n, n mod 64 < 64)%N as Hm by (intros; by apply N.mod_lt).
  destruct (N.ltb_spec c 128); [|destruct (N.ltb_spec c 2048); [|destruct (N.ltb_spec c 65536)]];
    repeat apply Forall_cons_2; try apply Forall_nil_2; apply Hb; try lia;
    try (specialize (Hm c)); try (specialize (Hm (c / 64)%N)); try (specialize (Hm (c / 4096)%N)); lia.
Qed.

Lemma split_inclusive_prepend p t :
  Forall (fun b => is_nl b = false) p -> p <> [] ->
  split_inclusive (p ++ t) = match split_inclusive t with [] => [p] | l :: ls => (p ++ l) :: ls end.
Proof.
  induction p as [|b p IH]; intros Hp Hne; [done|]. apply Forall_cons_1 in Hp as [Hb Hp].
  cbn [app split_inclusive]. rw Hb. destruct p as [|b' p]; [done|]. rw IH //.
  by destruct (split_inclusive t).
Qed.

Lemma split_inclusive_chars cs :
  scalars cs -> exists lines, split_inclusive (encode_all cs) = encode_all <$> lines /\ concat lines = cs.
Proof.
  induction 1 as [|c cs Hc Hcs IH]; [by exists []|]. destruct IH as (lines & Hl & Hcat). rw encode_all_cons.
  destruct (decide (c = 10%N)) as [->|Hne].
  - exists ([10%N] :: lines). cbn [concat app]. rw Hcat. split; [|done]. cbn [encode_utf8]. 
    change (encode_utf8 10 ++ encode_all cs) with (x0a :: encode_all cs). cbn [split_inclusive]. by rw Hl.
  - rw split_inclusive_prepend; [by apply encode_no_newline| |].
    { pose proof (length_encode_utf8 c) as H. by destruct (encode_utf8 c); [simpl in H; lia|]. }
    rw Hl. destruct lines as [|l lines].
    + exists [[c]]. simpl in *. subst cs. by rw app_nil_r.
    + exists ((c :: l) :: lines). simpl in *. by rw Hcat.
Qed.

Lemma concat_encode lines : concat (encode_all <$> lines) = encode_all (concat lines).
Proof. induction lines as [|l lines IH]; [done|]. simpl. by rw IH encode_all_app. Qed.

Lemma total_encode lines : total (encode_all <$> lines) = size_of (concat lines).
Proof. unfold total. by rw concat_encode. Qed.

Section boundaries.
Context (old_lines new_lines : list (list byte)).
Local Abbreviation loop offset delta hs :=
  (map_offset_loop (concat old_lines) (concat new_lines) (line_starts 0 old_lines) (line_starts 0 new_lines)
     offset delta hs).
Local Abbreviation shift da db := (Z.of_nat (total db) - Z.of_nat (total da))%Z.

Lemma loop_boundary f o n a b hs : script f o n a b hs ->
  forall da db ac bc k, old_lines = da ++ a -> new_lines = db ++ b -> length da = o -> length db = n ->
  a = encode_all <$> ac -> b = encode_all <$> bc -> scalars (concat ac) -> scalars (concat bc) ->
  k <= length (concat ac) ->
  exists j, j <= length (concat bc)
  /\ loop (total da + size_of (take k (concat ac))) (shift da db) hs = Ok (total db + size_of (take j (concat bc))).
Proof.
  induction 1 as [f o n|f o n x old new hs H IH|o n del ins old new hs Hne H IH];
    intros da db ac bc k Ho Hn Hda Hdb Ha Hb Hsa Hsb Hk.
  - symmetry in Ha, Hb. apply fmap_nil_inv in Ha as ->. apply fmap_nil_inv in Hb as ->. exists 0. split; [done|].
    rw !take_nil. by apply (loop_done old_lines new_lines da db []).
  - symmetry in Ha, Hb. apply fmap_cons_inv in Ha as (xc & oc & Hx & Ho' & ->).
    apply fmap_cons_inv in Hb as (xc' & nc & Hx' & Hn' & ->). cbn [concat] in *.
    apply Forall_app in Hsa as [Hsx Hso]. apply Forall_app in Hsb as [Hsx' Hsn].
    assert (xc' = xc) as ->.
    { by rw -(proj2 (from_utf8_encoded xc Hsx)) -Hx Hx' (proj2 (from_utf8_encoded xc' Hsx')). }
    destruct (decide (k < length xc)) as [Hlt|Hge].
    + exists k. rw length_app. split; [lia|]. rw !take_app_le; [lia..|].
      apply (loop_line _ _ true _ _ x old new); [done|done|by rw Hda Hdb|].
      rw Hx -{2}(firstn_all xc). by apply size_of_take_lt.
    + destruct (IH (da ++ [x]) (db ++ [x]) oc nc (k - length xc)) as (j & Hj & Hl);
        [by rw -app_assoc|by rw -app_assoc|rw length_app /=; lia..|done|done|done|done|rw length_app in Hk; lia|].
      exists (length xc + j). rw length_app. split; [lia|].
      rw take_app_add (take_app_ge xc); [lia|]. rw !size_of_app. rw !total_app in Hl.
      assert (total [x] = size_of xc) as Ht by (unfold total; by rw /= app_nil_r Hx).
      rw Ht -!Nat.add_assoc in Hl. rw -Hl. f_equal. lia.
  - symmetry in Ha, Hb. apply fmap_app_inv in Ha as (dc & oc & Hd & Ho' & ->).
    apply fmap_app_inv in Hb as (ic & nc & Hi & Hn' & ->).
    rw !concat_app in Hsa, Hsb, Hk |- *. apply Forall_app in Hsa as [Hsd Hso]. apply Forall_app in Hsb as [Hsi Hsn].
    subst o n. rw (loop_hunk _ _ da db del ins old new) //. rw Hd Hi !total_encode !concat_encode.
    destruct (decide (k < length (concat dc))) as [Hlt|Hge].
    + rw (take_app_le (concat dc)); [lia|]. rw (proj2 (Nat.ltb_lt _ _)).
      { rw -{2}(firstn_all (concat dc)). by apply size_of_take_lt. }
      destruct (within_boundary (concat dc) (concat ic) k Hsd Hsi ltac:(lia)) as (j & Hj & ->).
      exists j. rw length_app. split; [lia|]. by rw take_app_le.
    + rw (take_app_ge (concat dc)); [lia|]. rw size_of_app (proj2 (Nat.ltb_ge _ _)); [lia|].
      destruct (IH (da ++ del) (db ++ ins) oc nc (k - length (concat dc))) as (j & Hj & Hl);
        [by rw -app_assoc|by rw -app_assoc|by rw length_app..|done|done|done|done|rw length_app in Hk; lia|].
      exists (length (concat ic) + j). rw length_app. split; [lia|]. rw take_app_add size_of_app.
      rw !total_app in Hl. rw !total_app. rw Hd Hi !total_encode in Hl |- *. rw -!Nat.add_assoc in Hl |- *.
      rw -Hl. f_equal. lia.
Qed.
End boundaries.

(** Mapped offsets are character boundaries.  For two strings, an offset before some
    character of the old one is mapped to an offset before some character of the new one,
    or to its end; in particular the mapping never panics and stays inside the text. *)
Theorem map_offset_on_boundary cs ds k :
  scalars cs -> scalars ds -> k <= length cs ->
  (N.of_nat (length (split_inclusive (encode_all cs)) + length (split_inclusive (encode_all ds))) <= 2 ^ 32)%N ->
  exists j, j <= length ds
  /\ map_offset_through_diff (encode_all cs) (encode_all ds) (size_of (take k cs)) = Ok (size_of (take j ds)).
Proof.
  intros Hcs Hds Hk Hlen. destruct (compute_line_diff_script _ _ Hlen) as (hs & Hd & Hs).
  destruct (split_inclusive_chars cs Hcs) as (ac & Ha & Hca). destruct (split_inclusive_chars ds Hds) as (bc & Hb & Hcb).
  destruct (loop_boundary (split_inclusive (encode_all cs)) (split_inclusive (encode_all ds))
    _ _ _ _ _ _ Hs [] [] ac bc k) as (j & Hj & Hl); rw ?Hca ?Hcb //.
  exists j. rw Hca Hcb in Hj, Hl. split; [done|]. unfold map_offset_through_diff. rw Hd. cbn [mbind res_bind].
  rw Nat.min_l; [rw -{2}(firstn_all cs); by apply size_of_take_le|]. by rw !concat_split in Hl.
Qed.

(** ** Comparisons *)
Lemma length_line_starts pos lines : length (line_starts pos lines) = S (length lines).
Proof. revert pos. induction lines as [|l lines IH]; intros pos; [done|]. simpl. by rw IH. Qed.

Lemma side_lines_ok lines start count :
  start + count <= length lines ->
  exists ls, side_lines (line_starts 0 lines) lines start count = Ok ls.
Proof.
  revert start. induction count as [|count IH]; intros start H; cbn [side_lines]; [by eexists|].
  destruct (lookup_lt_is_Some_2 lines start) as [l Hl]; [lia|]. destruct (IH (S start)) as (ls & Hls); [lia|].
  rw line_starts_at; [lia|]. unfold vec_at. rw Hl. cbn [mbind res_bind]. rw Hls. by eexists.
Qed.

Lemma compare_side_ok lines start count :
  start + count <= length lines ->
  exists jump ls, compare_side (line_starts 0 lines) lines start count
  = Ok (mkCompareSide start count (bytes_before lines start) (bytes_before lines (start + count)) jump ls []).
Proof.
  intros H. unfold compare_side. rw length_line_starts. cbn [Nat.sub]. rw Nat.sub_0_r.
  rw !Nat.min_l; try lia. rw !line_starts_at; try lia. cbn [mbind res_bind].
  destruct (side_lines_ok lines start count H) as (ls & ->).
  destruct ((count =? 0) && (0 <? start)); cbn [mbind res_bind]; by eexists _, _.
Qed.

Lemma pair_spans_ok old new os ns paired :
  os + paired <= length old -> ns + paired <= length new ->
  exists r, pair_spans (line_starts 0 old) (line_starts 0 new) old new os ns paired = Ok r.
Proof.
  revert os ns. induction paired as [|paired IH]; intros os ns Ho Hn; cbn [pair_spans]; [by eexists|].
  destruct (lookup_lt_is_Some_2 old os) as [a Ha]; [lia|]. destruct (lookup_lt_is_Some_2 new ns) as [b Hb]; [lia|].
  destruct (IH (S os) (S ns)) as ([[l r] e] & Hr); [lia..|].
  rw !line_starts_at; [lia..|]. unfold vec_at. rw Ha Hb. cbn [mbind res_bind]. rw Hr. by eexists.
Qed.

(** Replace the left range of every hunk, last first, by the right one. *)
Fixpoint replace_hunks (new old : list byte) (hs : list CompareHunk) : list byte :=
  match hs with
  | [] => old
  | h :: hs =>
      let l := ch_left h in let r := ch_right h in
      splice (replace_hunks new old hs) (cs_from l) (cs_to l - cs_from l)
        (take (cs_to r - cs_from r) (drop (cs_from r) new))
  end.

Lemma compare_hunk_ok da db del ins a b :
  exists c, compare_hunk (line_starts 0 (da ++ del ++ a)) (line_starts 0 (db ++ ins ++ b))
      (da ++ del ++ a) (db ++ ins ++ b) (mkHunk (length da) (length del) (length db) (length ins)) = Ok c
  /\ cs_from (ch_left c) = total da /\ cs_to (ch_left c) = total da + total del
  /\ cs_from (ch_right c) = total db /\ cs_to (ch_right c) = total db + total ins.
Proof.
  assert (forall p m r : list (list byte), bytes_before (p ++ m ++ r) (length p) = total p
    /\ bytes_before (p ++ m ++ r) (length p + length m) = total p + total m) as Hb.
  { intros p m r. split; [apply bytes_before_all|]. by rw app_assoc -length_app bytes_before_all -total_app. }
  unfold compare_hunk. cbn [h_old_start h_old_count h_new_start h_new_count].
  destruct (compare_side_ok (da ++ del ++ a) (length da) (length del)) as (j1 & l1 & ->); [rw !length_app; lia|].
  destruct (compare_side_ok (db ++ ins ++ b) (length db) (length ins)) as (j2 & l2 & ->); [rw !length_app; lia|].
  cbn [mbind res_bind].
  destruct (pair_spans_ok (da ++ del ++ a) (db ++ ins ++ b) (length da) (length db)
    (length del `min` length ins)) as ([[l r] e] & ->); [rw !length_app; lia..|].
  cbn [mbind res_bind]. destruct (Hb da del a) as [-> ->]. destruct (Hb db ins b) as [-> ->]. by eexists.
Qed.

Lemma compare_hunks_script f o n a b hs : script f o n a b hs ->
  forall old new da db, old = da ++ a -> new = db ++ b -> length da = o -> length db = n ->
  exists cs, compare_hunks (line_starts 0 old) (line_starts 0 new) old new hs = Ok cs
  /\ length cs = length hs /\ replace_hunks (concat new) (concat old) cs = concat (da ++ b).
Proof.
  induction 1 as [f o n|f o n x a b hs H IH|o n del ins a b hs Hne H IH];
    intros old new da db Ho Hn Hda Hdb.
  - exists []. by rw Ho.
  - destruct (IH old new (da ++ [x]) (db ++ [x])) as (cs & Hc & Hlen & Hr);
      [by rw -app_assoc|by rw -app_assoc|rw length_app /=; lia..|].
    exists cs. split; [done|]. split; [done|]. by rw Hr -app_assoc.
  - destruct (IH old new (da ++ del) (db ++ ins)) as (cs & Hc & Hlen & Hr);
      [by rw -app_assoc|by rw -app_assoc|rw length_app; lia..|].
    destruct (compare_hunk_ok da db del ins a b) as (c & Hcc & Hf & Ht & Hrf & Hrt).
    exists (c :: cs). cbn [compare_hunks replace_hunks]. rw Hr Hc. subst o n. rw -Ho -Hn in Hcc. rw Hcc.
    split; [done|]. split; [simpl; by rw Hlen|]. rw Hf Ht Hrf Hrt Hn !concat_app. unfold splice, total.
    rw -!app_assoc take_app_length. f_equal. rw drop_app_length.
    replace (length (concat db) + _ - _) with (length (concat ins)) by lia. rw take_app_length. f_equal.
    replace (length (concat da) + _) with (length (concat da ++ concat del)) by (rw length_app; lia).
    by rw app_assoc drop_app_length.
Qed.

Lemma compare_texts_unfold old new :
  compare_texts old new =
  (hs ← compute_line_diff old new;
   compare_hunks (line_starts 0 (split_inclusive old)) (line_starts 0 (split_inclusive new))
     (split_inclusive old) (split_inclusive new) hs).
Proof.
  unfold compare_texts, compute_line_diff. destruct (intern_all ∅ _) as [m ids]. by destruct (intern_all m _).
Qed.

(** A comparison's byte ranges are the difference.  For any two texts of fewer than
    2^32 lines in all, the comparison never panics, and replacing the left byte range of
    each hunk by the bytes of its right range, last hunk first, turns the old text into
    the new one, whether or not they are valid UTF-8; there is no hunk exactly when the
    texts are the same. *)
Theorem compare_texts_replaces old new :
  (N.of_nat (length (split_inclusive old) + length (split_inclusive new)) <= 2 ^ 32)%N ->
  exists cs, compare_texts old new = Ok cs /\ replace_hunks new old cs = new /\ (cs = [] <-> old = new).
Proof.
  intros Hlen. destruct (compute_line_diff_script old new Hlen) as (hs & Hd & Hs).
  destruct (compare_hunks_script _ _ _ _ _ _ Hs (split_inclusive old) (split_inclusive new) [] [])
    as (cs & Hc & Hl & Hr); [done..|]. rw !concat_split in Hr. exists cs. rw compare_texts_unfold Hd.
  split; [done|]. split; [done|]. split.
  - by intros ->.
  - intros <-. rw compute_line_diff_same in Hd; [lia|]. injection Hd as <-. by destruct cs.
Qed.

(** ** Spans *)
Lemma back_off_le cut n : back_off cut n <= n.
Proof. induction n as [|n IH]; cbn [back_off]; [done|]. destruct (cut (S n)); lia. Qed.

Lemma back_off_stop cut n : back_off cut n = 0 \/ cut (back_off cut n) = false.
Proof. induction n as [|n IH]; cbn [back_off]; [by left|]. destruct (cut (S n)) eqn:E; [done|by right]. Qed.

Lemma take_common_le {A} `{EqDecision A} (a b : list A) k : k <= common_prefix a b -> take k a = take k b.
Proof.
  intros Hk. pose proof (common_prefix_take a b) as H. apply (f_equal (take k)) in H.
  rw !take_take !Nat.min_l // in H.
Qed.

(** The span of a changed line is what differs.  Two equal lines have none; otherwise
    the span lies inside both lines, what is before it and what is after it is equal in
    both, and neither end of it, unless at an end of the line, is inside a UTF-8 sequence of
    one of the lines. *)
Theorem changed_span_exact a b :
  match changed_span a b with
  | None => a = b
  | Some ((s, e), (s', e')) =>
      a <> b /\ s = s' /\ s <= e /\ e <= length a /\ s <= e' /\ e' <= length b
      /\ take s a = take s b /\ drop e a = drop e' b
      /\ (s = 0 \/ is_continuation (a !! s) = false /\ is_continuation (b !! s) = false)
      /\ (e = length a \/ is_continuation (a !! e) = false /\ is_continuation (b !! e') = false)
  end.
Proof.
  unfold changed_span. case_decide as Hne; [done|].
  set (pre := back_off _ (common_prefix a b)). set (suf := back_off _ (common_prefix (take _ _) _)).
  assert (pre <= common_prefix a b) as Hp by apply back_off_le.
  assert (suf <= common_prefix (take (length a `min` length b - pre) (reverse a)) (reverse b)) as Hs by apply back_off_le.
  pose proof (common_prefix_le a b) as [Hpa Hpb].
  pose proof (common_prefix_le (take (length a `min` length b - pre) (reverse a)) (reverse b)) as [Hsa Hsb].
  rw length_take !length_reverse in Hsa, Hsb.
  split_and!; [done|done|lia|lia|lia|lia|by apply take_common_le| | |].
  - assert (suf <= length a `min` length b - pre) as Hm by lia.
    apply take_common_le in Hs. rw take_take Nat.min_l // in Hs. apply (f_equal reverse) in Hs.
    by rw !take_reverse !reverse_involutive in Hs.
  - destruct (back_off_stop (fun pre => is_continuation (a !! pre) || is_continuation (b !! pre)) (common_prefix a b))
      as [E|E]; fold pre in E; [by left|right; by apply orb_false_iff].
  - destruct (back_off_stop (fun suf => is_continuation (a !! (length a - suf)) || is_continuation (b !! (length b - suf)))
      (common_prefix (take (length a `min` length b - pre) (reverse a)) (reverse b))) as [E|E]; fold suf in E.
    + left. rw E. lia.
    + right. by apply orb_false_iff.
Qed.

(** ** Examples *)
Definition sample_old : list byte := [x61; x0a; x62; xc3; xa9; x0a; x63; x0a].
Definition sample_new : list byte := [x78; x0a; x61; x0a; x62; xc3; x89; x0a; x63; x0a].

Lemma line_diff_correct_witness :
  exists hs, compute_line_diff sample_old sample_new = Ok hs
  /\ hunks_ordered true 0 0 hs 3 4
  /\ concat (patch (split_inclusive sample_new) 0 (split_inclusive sample_old) hs) = sample_new
  /\ (hs = [] <-> sample_old = sample_new).
Proof. apply (line_diff_correct sample_old sample_new). vm_compute. discriminate. Defined.

Lemma map_offset_keeps_lines_witness :
  split_inclusive sample_new !! 3 = Some [x63; x0a]
  /\ map_offset_through_diff sample_old sample_new 7 = Ok 9.
Proof.
  apply (map_offset_keeps_lines sample_old sample_new [mkHunk 0 0 0 1; mkHunk 1 1 2 1] 2 3 [x63; x0a] 1);
    [vm_compute; discriminate|vm_compute; reflexivity..|simpl; lia].
Defined.

Lemma map_offset_on_boundary_witness :
  exists j, j <= 3 /\ map_offset_through_diff (encode_all [97; 233; 10]%N) (encode_all [97; 201; 10]%N) 3
  = Ok (length (encode_all (take j [97; 201; 10]%N))).
Proof.
  apply (map_offset_on_boundary [97; 233; 10]%N [97; 201; 10]%N 2); [by repeat constructor..|simpl; lia|vm_compute; discriminate].
Defined.

Lemma compare_texts_replaces_witness :
  exists cs, compare_texts sample_old sample_new = Ok cs /\ replace_hunks sample_new sample_old cs = sample_new
  /\ (cs = [] <-> sample_old = sample_new).
Proof. apply (compare_texts_replaces sample_old sample_new). vm_compute. discriminate. Defined.

Lemma lcs_diff_longest_witness :
  length [1; 2; 1]%N + deleted (lcs_diff [1; 1; 2; 1]%N [1; 2; 2; 1]%N 0 0) <= 4.
Proof.
  apply (lcs_diff_longest [1; 1; 2; 1]%N [1; 2; 2; 1]%N 0 0 [1; 2; 1]%N).
  - apply sublist_skip, sublist_cons, sublist_skip, sublist_skip, sublist_nil.
  - apply sublist_skip, sublist_skip, sublist_cons, sublist_skip, sublist_nil.
Defined.
