(* ===== verification/CompositeBuffer.v ===== *)
(** * Composite buffers

    Models crates/fresh-editor-core/src/model/composite_buffer.rs: a view that shows
    several buffers side by side, with the alignment of their lines that is made from the
    hunks of a diff.

    Floating-point ratios are bit patterns; a [while] loop that advances two counters in
    step is a recursion on the number of its iterations. *)
From stdpp Require Import base numbers list option strings.
From Stdlib Require Import ssreflect Strings.Byte Strings.Ascii NArith.
From S2P Require Import Prelude TextSpec Utf8 LineDiff LineDiffInv LineDiffText.

(** ** Alignment *)
Inductive RowType := Context | Deletion | Addition | Modification | HunkHeader.

#[export] Instance RowType_eq_dec : EqDecision RowType.
Proof. solve_decision. Defined.

Record SourceLineRef := mkSourceLineRef { sl_line : nat; sl_byte_range : nat * nat }.

Record AlignedRow := mkAlignedRow { pane_lines : list (option SourceLineRef); row_type : RowType }.

Definition line_ref (line : nat) : SourceLineRef := mkSourceLineRef line (0, 0).

Definition row_context (old_line new_line : nat) : AlignedRow :=
  mkAlignedRow [Some (line_ref old_line); Some (line_ref new_line)] Context.

Definition row_hunk_header : AlignedRow := mkAlignedRow [None; None] HunkHeader.

Definition row_deletion (old_line : nat) : AlignedRow :=
  mkAlignedRow [Some (line_ref old_line); None] Deletion.

Definition row_addition (new_line : nat) : AlignedRow :=
  mkAlignedRow [None; Some (line_ref new_line)] Addition.

Definition get_pane_line (row : AlignedRow) (pane_index : nat) : option SourceLineRef :=
  pane_lines row !! pane_index ≫= id.

Definition has_content (row : AlignedRow) (pane_index : nat) : bool :=
  match pane_lines row !! pane_index with Some (Some _) => true | _ => false end.

Record DiffHunk := mkDiffHunk {
  dh_old_start : nat; dh_old_count : nat; dh_new_start : nat; dh_new_count : nat;
  dh_header : option string; dh_ops : option string;
}.

Definition diff_hunk_new (old_start old_count new_start new_count : nat) : DiffHunk :=
  mkDiffHunk old_start old_count new_start new_count None None.

Definition with_ops (h : DiffHunk) (ops : option string) : DiffHunk :=
  mkDiffHunk (dh_old_start h) (dh_old_count h) (dh_new_start h) (dh_new_count h) (dh_header h) ops.

Definition with_header (h : DiffHunk) (header : string) : DiffHunk :=
  mkDiffHunk (dh_old_start h) (dh_old_count h) (dh_new_start h) (dh_new_count h) (Some header) (dh_ops h).

Abbreviation LineAlignment := (list AlignedRow).

Definition alignment_empty (pane_count : nat) : LineAlignment := [].

Definition alignment_simple (line_count pane_count : nat) : LineAlignment :=
  (fun line => mkAlignedRow (replicate pane_count (Some (line_ref line))) Context) <$> seq 0 line_count.

(** [count] context rows from the given lines on. *)
Fixpoint context_rows (count old_line new_line : nat) : list AlignedRow :=
  match count with
  | 0 => []
  | S count => row_context old_line new_line :: context_rows count (S old_line) (S new_line)
  end.

(** The rows of a hunk that comes with git's classification of its lines. *)
Fixpoint ops_rows (ops : list ascii) (o n : nat) : list AlignedRow :=
  match ops with
  | [] => []
  | op :: ops =>
      if decide (op = " "%char) then row_context o n :: ops_rows ops (S o) (S n)
      else if decide (op = "-"%char) then row_deletion o :: ops_rows ops (S o) n
      else if decide (op = "+"%char) then row_addition n :: ops_rows ops o (S n)
      else ops_rows ops o n
  end.

(** The rows of a hunk without it: lines paired by position. *)
Definition paired_row (h : DiffHunk) (i : nat) : option AlignedRow :=
  let old_idx := if i <? dh_old_count h then Some (dh_old_start h + i) else None in
  let new_idx := if i <? dh_new_count h then Some (dh_new_start h + i) else None in
  row_type ← match old_idx, new_idx with
             | Some _, Some _ => Some Modification
             | Some _, None => Some Deletion
             | None, Some _ => Some Addition
             | None, None => None
             end;
  Some (mkAlignedRow [line_ref <$> old_idx; line_ref <$> new_idx] row_type).

Definition hunk_rows (h : DiffHunk) : list AlignedRow :=
  match dh_ops h with
  | Some ops => ops_rows (String.list_ascii_of_string ops) (dh_old_start h) (dh_new_start h)
  | None => omap (paired_row h) (seq 0 (Nat.max (dh_old_count h) (dh_new_count h)))
  end.

(** The loop over the hunks: the rows, and the lines that come next. *)
Fixpoint hunks_rows (hunks : list DiffHunk) (old_line new_line : nat) : list AlignedRow * nat * nat :=
  match hunks with
  | [] => ([], old_line, new_line)
  | h :: hunks =>
      let before := context_rows (Nat.min (dh_old_start h - old_line) (dh_new_start h - new_line)) old_line new_line in
      let '(rows, o, n) := hunks_rows hunks (dh_old_start h + dh_old_count h) (dh_new_start h + dh_new_count h) in
      (before ++ [row_hunk_header] ++ hunk_rows h ++ rows, o, n)
  end.

Definition from_hunks (hunks : list DiffHunk) (old_line_count new_line_count : nat) : LineAlignment :=
  let '(rows, old_line, new_line) := hunks_rows hunks 0 0 in
  let context := Nat.min (old_line_count - old_line) (new_line_count - new_line) in
  let old_line' := old_line + context in
  let new_line' := new_line + context in
  rows ++ context_rows context old_line new_line
  ++ (row_deletion <$> seq old_line' (old_line_count - old_line'))
  ++ (row_addition <$> seq new_line' (new_line_count - new_line')).

Definition get_row (rows : LineAlignment) (display_row : nat) : option AlignedRow := rows !! display_row.

Definition is_header (row : AlignedRow) : bool := bool_decide (row_type row = HunkHeader).

Definition next_hunk_row (rows : LineAlignment) (after_row : nat) : option nat :=
  (fun p => after_row + 1 + p.1) <$> list_find is_header (drop (after_row + 1) rows).

Definition prev_hunk_row (rows : LineAlignment) (before_row : nat) : option nat :=
  rposition is_header (take before_row rows).

(** ** The composite *)
Inductive GutterStyle := LineNumbers | DiffMarkers | GutterBoth | GutterNone.

Record PaneStyle := mkPaneStyle {
  add_bg : option (N * N * N); remove_bg : option (N * N * N); modify_bg : option (N * N * N);
  gutter_style : GutterStyle;
}.

Definition pane_style_default : PaneStyle := mkPaneStyle None None None LineNumbers.
Definition old_diff : PaneStyle := mkPaneStyle None (Some (80, 30, 30)%N) None GutterBoth.
Definition new_diff : PaneStyle := mkPaneStyle (Some (30, 80, 30)%N) None (Some (80, 80, 30)%N) GutterBoth.

Record SourcePane := mkSourcePane {
  sp_buffer_id : nat; sp_label : string; sp_editable : bool; sp_style : PaneStyle;
  sp_range : option (nat * nat);
}.

Definition source_pane_new (buffer_id : nat) (label : string) (editable : bool) : SourcePane :=
  mkSourcePane buffer_id label editable pane_style_default None.

Definition with_style (p : SourcePane) (style : PaneStyle) : SourcePane :=
  mkSourcePane (sp_buffer_id p) (sp_label p) (sp_editable p) style (sp_range p).

Inductive CompositeLayout :=
| SideBySide (ratios : list N) (show_separator : bool)
| Stacked (spacing : N)
| Unified.

(** The bit pattern of 0.5 is 0x3F000000. *)
Definition layout_default : CompositeLayout := SideBySide [1056964608; 1056964608]%N true.

Record CompositeBuffer := mkComposite {
  cb_id : nat; cb_name : string; cb_layout : CompositeLayout; cb_sources : list SourcePane;
  cb_alignment : LineAlignment; cb_active_pane : nat; cb_mode : string;
  cb_initial_focus_hunk : option nat;
}.

Definition composite_new (id : nat) (name mode : string) (layout : CompositeLayout)
    (sources : list SourcePane) : CompositeBuffer :=
  mkComposite id name layout sources (alignment_empty (length sources)) 0 mode None.

Definition set_active_pane (c : CompositeBuffer) (p : nat) : CompositeBuffer :=
  mkComposite (cb_id c) (cb_name c) (cb_layout c) (cb_sources c) (cb_alignment c) p (cb_mode c)
    (cb_initial_focus_hunk c).

Definition pane_count (c : CompositeBuffer) : nat := length (cb_sources c).

Definition focused_pane (c : CompositeBuffer) : option SourcePane := cb_sources c !! cb_active_pane c.

Definition focus_next (c : CompositeBuffer) : CompositeBuffer :=
  match cb_sources c with
  | [] => c
  | _ => set_active_pane c ((cb_active_pane c + 1) mod length (cb_sources c))
  end.

Definition focus_prev (c : CompositeBuffer) : CompositeBuffer :=
  match cb_sources c with
  | [] => c
  | _ => set_active_pane c ((cb_active_pane c + length (cb_sources c) - 1) mod length (cb_sources c))
  end.

Definition set_alignment (c : CompositeBuffer) (alignment : LineAlignment) : CompositeBuffer :=
  mkComposite (cb_id c) (cb_name c) (cb_layout c) (cb_sources c) alignment (cb_active_pane c) (cb_mode c)
    (cb_initial_focus_hunk c).

Definition row_count (c : CompositeBuffer) : nat := length (cb_alignment c).
