(* ===== verification/CompositeInv.v ===== *)
(** * Aligned rows show every line once

    The alignment of a diff shows each line of both panes in one row, in order; the rows
    of a diff of two texts pair equal lines; the navigation between hunks finds the
    nearest header; the focus stays on a pane. *)
From stdpp Require Import base numbers list option strings.
From Stdlib Require Import ssreflect Strings.Byte Strings.Ascii NArith.
From S2P Require Import Prelude TextSpec Utf8 LineDiff LineDiffInv LineDiffText CompositeBuffer.

(** The lines of a pane, from the first row to the last. *)
Definition pane_column (pane : nat) (rows : list AlignedRow) : list nat :=
  omap (fun row => sl_line <$> get_pane_line row pane) rows.

Lemma pane_column_app p a b : pane_column p (a ++ b) = pane_column p a ++ pane_column p b.
Proof. apply omap_app. Qed.

Lemma context_column k o n :
  pane_column 0 (context_rows k o n) = seq o k /\ pane_column 1 (context_rows k o n) = seq n k.
Proof.
  revert o n. induction k as [|k IH]; intros o n; [done|]. destruct (IH (S o) (S n)) as [H0 H1].
  cbn. unfold pane_column in H0, H1. by rw H0 H1.
Qed.

Lemma deletion_column l :
  pane_column 0 (row_deletion <$> l) = l /\ pane_column 1 (row_deletion <$> l) = [].
Proof. induction l as [|x l [IH0 IH1]]; [done|]. cbn. unfold pane_column in IH0, IH1. by rw IH0 IH1. Qed.

Lemma addition_column l :
  pane_column 0 (row_addition <$> l) = [] /\ pane_column 1 (row_addition <$> l) = l.
Proof. induction l as [|x l [IH0 IH1]]; [done|]. cbn. unfold pane_column in IH0, IH1. by rw IH0 IH1. Qed.

(** ** Hunks *)
Definition is_old_op (op : ascii) : Prop := op = " "%char \/ op = "-"%char.
Definition is_new_op (op : ascii) : Prop := op = " "%char \/ op = "+"%char.

#[export] Instance is_old_op_dec op : Decision (is_old_op op) := _.
#[export] Instance is_new_op_dec op : Decision (is_new_op op) := _.

(** The classification of a hunk's lines, if it has one, has its numbers of lines. *)
Definition ops_ok (h : DiffHunk) : Prop :=
  match dh_ops h with
  | None => True
  | Some ops =>
      length (filter is_old_op (String.list_ascii_of_string ops)) = dh_old_count h
      /\ length (filter is_new_op (String.list_ascii_of_string ops)) = dh_new_count h
  end.

(** Hunks in order, with as many lines between them on both sides. *)
Fixpoint hunks_aligned (o n : nat) (hs : list DiffHunk) (ol nl : nat) : Prop :=
  match hs with
  | [] => o <= ol /\ n <= nl
  | h :: hs =>
      o <= dh_old_start h /\ n <= dh_new_start h /\ dh_old_start h - o = dh_new_start h - n /\ ops_ok h
      /\ hunks_aligned (dh_old_start h + dh_old_count h) (dh_new_start h + dh_new_count h) hs ol nl
  end.

Lemma ops_column ops o n :
  pane_column 0 (ops_rows ops o n) = seq o (length (filter is_old_op ops))
  /\ pane_column 1 (ops_rows ops o n) = seq n (length (filter is_new_op ops)).
Proof.
  revert o n. induction ops as [|op ops IH]; intros o n; [done|]. cbn [ops_rows]. rw !filter_cons.
  destruct (decide (op = " "%char)) as [->|H1]; [|destruct (decide (op = "-"%char)) as [->|H2];
    [|destruct (decide (op = "+"%char)) as [->|H3]]].
  - destruct (IH (S o) (S n)) as [E0 E1]. cbn. unfold pane_column in E0, E1. by rw E0 E1.
  - destruct (IH (S o) n) as [E0 E1]. cbn. unfold pane_column in E0, E1. by rw E0 E1.
  - destruct (IH o (S n)) as [E0 E1]. cbn. unfold pane_column in E0, E1. by rw E0 E1.
  - rw !decide_False; [unfold is_old_op, is_new_op; tauto..|]. apply IH.
Qed.

Lemma omap_prefix_seq (f : nat -> option nat) start a m k :
  (forall i, k <= i -> f i = if i <? k + a then Some (start + (i - k)) else None) -> a <= m ->
  omap f (seq k m) = seq start a.
Proof.
  revert start a k. induction m as [|m IH]; intros start a k Hf Ha.
  { by assert (a = 0) as -> by lia. }
  cbn [seq omap list_omap]. rw Hf; [lia|]. destruct a as [|a].
  - rw (proj2 (Nat.ltb_ge _ _)); [lia|]. apply (IH start 0); [|lia]. intros i Hi. rw Hf; [lia|].
    rw !(proj2 (Nat.ltb_ge _ _)) //; lia.
  - rw (proj2 (Nat.ltb_lt _ _)); [lia|]. rw Nat.sub_diag Nat.add_0_r. cbn [seq]. f_equal. apply IH; [|lia].
    intros i Hi. rw Hf; [lia|]. replace (k + S a) with (S k + a) by lia. destruct (i <? S k + a); [|done]. f_equal. lia.
Qed.

Lemma paired_column h :
  dh_ops h = None ->
  pane_column 0 (hunk_rows h) = seq (dh_old_start h) (dh_old_count h)
  /\ pane_column 1 (hunk_rows h) = seq (dh_new_start h) (dh_new_count h).
Proof.
  intros Hops. unfold hunk_rows, pane_column. rw Hops.
  assert (forall p (l : list nat), omap (fun row => sl_line <$> get_pane_line row p) (omap (paired_row h) l)
    = omap (fun i => paired_row h i ≫= (fun row => sl_line <$> get_pane_line row p)) l) as Hoo.
  { intros p l. induction l as [|x l IH]; [done|]. cbn [omap list_omap].
    by destruct (paired_row h x); cbn [omap list_omap mbind option_bind]; rw IH. }
  rw !Hoo. split; apply omap_prefix_seq; try lia; intros i _; rw Nat.sub_0_r Nat.add_0_l; unfold paired_row;
    by destruct (i <? dh_old_count h), (i <? dh_new_count h).
Qed.

Lemma hunk_column h :
  ops_ok h ->
  pane_column 0 (hunk_rows h) = seq (dh_old_start h) (dh_old_count h)
  /\ pane_column 1 (hunk_rows h) = seq (dh_new_start h) (dh_new_count h).
Proof.
  intros Hok. destruct (dh_ops h) as [ops|] eqn:E; [|by apply paired_column].
  unfold ops_ok in Hok. unfold hunk_rows. rw E in Hok |- *. destruct Hok as [<- <-]. apply ops_column.
Qed.

Lemma seq_join a k m : seq a k ++ seq (a + k) m = seq a (k + m).
Proof. by rw -seq_app. Qed.

Lemma hunks_rows_column hs o n ol nl :
  hunks_aligned o n hs ol nl ->
  let '(rows, o', n') := hunks_rows hs o n in
  o <= o' /\ n <= n' /\ o' <= ol /\ n' <= nl
  /\ pane_column 0 rows = seq o (o' - o) /\ pane_column 1 rows = seq n (n' - n).
Proof.
  revert o n. induction hs as [|h hs IH]; intros o n H; cbn [hunks_rows hunks_aligned] in *.
  { rw !Nat.sub_diag. split_and!; solve [lia|done]. }
  destruct H as (Ho & Hn & Hgap & Hok & H). specialize (IH _ _ H).
  destruct (hunks_rows hs _ _) as [[rows o'] n']. destruct IH as (H1 & H2 & H3 & H4 & E0 & E1).
  split_and!; [lia..| |].
  all: rw !pane_column_app ?E0 ?E1 ?(proj1 (context_column _ _ _)) ?(proj2 (context_column _ _ _))
      ?(proj1 (hunk_column _ Hok)) ?(proj2 (hunk_column _ Hok)); cbn [pane_column omap list_omap get_pane_line row_hunk_header pane_lines lookup list_lookup mbind option_bind id fmap option_fmap option_map app].
  - replace (Nat.min _ _) with (dh_old_start h - o) by lia.
    replace (dh_old_start h) with (o + (dh_old_start h - o)) at 2 by lia. rw app_assoc seq_join.
    replace (dh_old_start h + dh_old_count h) with (o + (dh_old_start h - o + dh_old_count h)) at 1 by lia.
    rw seq_join. f_equal. lia.
  - replace (Nat.min _ _) with (dh_new_start h - n) by lia.
    replace (dh_new_start h) with (n + (dh_new_start h - n)) at 2 by lia. rw app_assoc seq_join.
    replace (dh_new_start h + dh_new_count h) with (n + (dh_new_start h - n + dh_new_count h)) at 1 by lia.
    rw seq_join. f_equal. lia.
Qed.

Lemma from_hunks_columns hs ol nl :
  hunks_aligned 0 0 hs ol nl ->
  pane_column 0 (from_hunks hs ol nl) = seq 0 ol /\ pane_column 1 (from_hunks hs ol nl) = seq 0 nl.
Proof.
  intros H. apply hunks_rows_column in H. unfold from_hunks.
  destruct (hunks_rows hs 0 0) as [[rows o] n]. destruct H as (_ & _ & Ho & Hn & E0 & E1).
  set (k := Nat.min (ol - o) (nl - n)). rw !pane_column_app E0 E1 (proj1 (context_column _ _ _))
    (proj2 (context_column _ _ _)) (proj1 (deletion_column _)) (proj2 (deletion_column _))
    (proj1 (addition_column _)) (proj2 (addition_column _)) !app_nil_r. cbn [app]. rw !Nat.sub_0_r.
  split.
  - rw seq_join. replace (seq o _) with (seq (0 + o) (k + (ol - (o + k)))) by done. rw seq_join. f_equal. lia.
  - rw seq_join. replace (seq n _) with (seq (0 + n) (k + (nl - (n + k)))) by done. rw seq_join. f_equal. lia.
Qed.

(** An alignment shows every line once.  For hunks in order, with as many lines
    between them on both sides and line classifications that match their counts, the rows
    of the alignment show the lines of each pane from the first to the last, each once. *)
Theorem alignment_complete hs ol nl :
  hunks_aligned 0 0 hs ol nl ->
  pane_column 0 (from_hunks hs ol nl) = seq 0 ol /\ pane_column 1 (from_hunks hs ol nl) = seq 0 nl.
Proof. apply from_hunks_columns. Qed.

(** ** The alignment of a diff *)

(** The conversion done where a diff is shown. *)
Definition to_diff_hunk (h : LineDiffHunk) : DiffHunk :=
  diff_hunk_new (h_old_start h) (h_old_count h) (h_new_start h) (h_new_count h).

(** A row that is marked as context shows the same line on both sides. *)
Definition context_equal {A} (old new : list A) (row : AlignedRow) : Prop :=
  row_type row = Context ->
  exists i j l, get_pane_line row 0 = Some (line_ref i) /\ get_pane_line row 1 = Some (line_ref j)
  /\ old !! i = Some l /\ new !! j = Some l.

(** [from_hunks] from the given lines on. *)
Definition align_from (hs : list DiffHunk) (o n ol nl : nat) : list AlignedRow :=
  let '(rows, old_line, new_line) := hunks_rows hs o n in
  let context := Nat.min (ol - old_line) (nl - new_line) in
  rows ++ context_rows context old_line new_line
  ++ (row_deletion <$> seq (old_line + context) (ol - (old_line + context)))
  ++ (row_addition <$> seq (new_line + context) (nl - (new_line + context))).

Lemma align_from_context hs o n ol nl :
  match hs with
  | [] => o < ol /\ n < nl
  | h :: _ => o < dh_old_start h /\ n < dh_new_start h
  end ->
  align_from hs o n ol nl = row_context o n :: align_from hs (S o) (S n) ol nl.
Proof.
  unfold align_from. destruct hs as [|h hs]; cbn [hunks_rows]; intros [Ho Hn].
  - cbn [app]. replace (Nat.min (ol - o) (nl - n)) with (S (Nat.min (ol - S o) (nl - S n))) by lia.
    cbn [context_rows app]. by rw !Nat.add_succ_r.
  - destruct (hunks_rows hs _ _) as [[rows o'] n'].
    replace (Nat.min (dh_old_start h - o) _) with (S (Nat.min (dh_old_start h - S o) (dh_new_start h - S n))) by lia.
    done.
Qed.

Lemma align_from_hunk h hs o n ol nl :
  dh_old_start h = o -> dh_new_start h = n ->
  align_from (h :: hs) o n ol nl
  = row_hunk_header :: hunk_rows h ++ align_from hs (o + dh_old_count h) (n + dh_new_count h) ol nl.
Proof.
  intros <- <-. unfold align_from. cbn [hunks_rows]. rw !Nat.sub_diag. cbn [Nat.min context_rows app].
  destruct (hunks_rows hs _ _) as [[rows o'] n']. cbn [app]. by rw -app_assoc.
Qed.

Lemma paired_not_context {A} (old new : list A) h :
  dh_ops h = None -> Forall (context_equal old new) (hunk_rows h) /\ filter is_header (hunk_rows h) = [].
Proof.
  intros Hops. unfold hunk_rows. rw Hops.
  assert (forall i row, paired_row h i = Some row -> row_type row <> Context /\ is_header row = false) as Hrow.
  { intros i row. unfold paired_row. by destruct (i <? dh_old_count h), (i <? dh_new_count h); intros [= <-]. }
  induction (seq 0 _) as [|i l [IH1 IH2]]; [by split|]. cbn [omap list_omap].
  destruct (paired_row h i) as [row|] eqn:E; [|done]. destruct (Hrow i row E) as [H1 H2]. split.
  - constructor; [|done]. by intros ?.
  - rw filter_cons_False //. by rw H2.
Qed.

Lemma script_rows {A} f o n (a b : list A) hs : script f o n a b hs ->
  forall old new da db, old = da ++ a -> new = db ++ b -> length da = o -> length db = n ->
  let rows := align_from (to_diff_hunk <$> hs) o n (length old) (length new) in
  Forall (context_equal old new) rows /\ length (filter is_header rows) = length hs.
Proof.
  induction 1 as [f o n|f o n x a b hs H IH|o n del ins a b hs Hne H IH];
    intros old new da db Ho Hn Hda Hdb; cbv zeta.
  - rw app_nil_r in Ho. rw app_nil_r in Hn. subst old new o n. unfold align_from. cbn [fmap list_fmap hunks_rows].
    rw !Nat.sub_diag. cbn. rw !Nat.add_0_r !Nat.sub_diag. by split.
  - rw align_from_context.
    { pose proof (script_first _ _ _ _ _ _ H) as Hf. pose proof (script_ordered _ _ _ _ _ _ H) as Hord.
      destruct hs as [|h hs]; cbn [fmap list_fmap to_diff_hunk diff_hunk_new dh_old_start dh_new_start hunks_ordered] in *.
      - subst. rw !length_app /=. lia.
      - lia. }
    destruct (IH old new (da ++ [x]) (db ++ [x])) as [H1 H2];
      [by rw -app_assoc|by rw -app_assoc|rw length_app /=; lia..|].
    split; [|by rw filter_cons_False]. constructor; [|done]. intros _. exists o, n, x. subst.
    split_and!; [done|done|..]; rw lookup_app_r //; by rw Nat.sub_diag.
  - cbn [fmap list_fmap]. rw align_from_hunk //.
    destruct (IH old new (da ++ del) (db ++ ins)) as [H1 H2];
      [by rw -app_assoc|by rw -app_assoc|rw length_app; lia..|].
    cbn [to_diff_hunk diff_hunk_new dh_old_count dh_new_count h_old_count h_new_count].
    destruct (paired_not_context old new (to_diff_hunk (mkHunk o (length del) n (length ins)))) as [H3 H4]; [done|].
    split.
    + constructor; [by intros ?|]. by apply Forall_app.
    + rw filter_cons_True // filter_app. cbn [length]. by rw H4 -H2.
Qed.

Lemma ordered_aligned sep o n hs ol nl :
  hunks_ordered sep o n hs ol nl -> hunks_aligned o n (to_diff_hunk <$> hs) ol nl.
Proof.
  revert sep o n. induction hs as [|h hs IH]; intros sep o n; cbn [hunks_ordered fmap list_fmap hunks_aligned]; [lia|].
  intros (H1 & H2 & H3 & _ & _ & H4). split_and!; [done..|]. by apply IH in H4.
Qed.

(** C14: a side-by-side view shows the diff.  The alignment made from the diff of two texts
    (of at most 2^32 lines together)
    shows every line of both once and in order, has one header per hunk, and every row
    marked as context shows equal lines. *)
Theorem side_by_side_shows_diff old new :
  (N.of_nat (length (split_inclusive old) + length (split_inclusive new)) <= 2 ^ 32)%N ->
  exists hs, compute_line_diff old new = Ok hs
  /\ let rows := from_hunks (to_diff_hunk <$> hs) (length (split_inclusive old)) (length (split_inclusive new)) in
     pane_column 0 rows = seq 0 (length (split_inclusive old))
     /\ pane_column 1 rows = seq 0 (length (split_inclusive new))
     /\ length (filter is_header rows) = length hs
     /\ Forall (context_equal (split_inclusive old) (split_inclusive new)) rows.
Proof.
  intros Hlen. destruct (compute_line_diff_script old new Hlen) as (hs & Hd & Hs). exists hs. split; [done|].
  pose proof (ordered_aligned _ _ _ _ _ _ (script_ordered _ _ _ _ _ _ Hs)) as Ha.
  destruct (script_rows _ _ _ _ _ _ Hs (split_inclusive old) (split_inclusive new) [] []) as [H1 H2]; [done..|].
  cbv zeta.
  destruct (from_hunks_columns _ _ _ Ha) as [E0 E1]. by split_and!.
Qed.

(** ** Navigation *)
Definition header_at (rows : list AlignedRow) (i : nat) : Prop :=
  exists row, rows !! i = Some row /\ is_header row = true.

Lemma rposition_Some {A} (p : A -> bool) l i :
  rposition p l = Some i <->
  (exists x, l !! i = Some x /\ p x = true) /\ forall j x, i < j -> l !! j = Some x -> p x = false.
Proof.
  revert i. induction l as [|y l IH]; intros i; cbn [rposition].
  { split; [done|]. by intros [(x & H & _) _]. }
  destruct (rposition p l) as [k|] eqn:E.
  - destruct (proj1 (IH k) eq_refl) as [(x & Hx & Hp) Hlast]. split.
    + intros [= <-]. split; [by exists x|]. intros [|j] z Hj Hz; [lia|]. by apply (Hlast j); [lia|].
    + intros [(z & Hz & Hpz) Hl]. destruct i as [|i].
      * exfalso. rw (Hl (S k) x) // in Hp. lia.
      * f_equal. f_equal. destruct (lt_eq_lt_dec k i) as [[Hlt|?]|Hgt]; [|done|].
        -- exfalso. rw (Hlast i z) // in Hpz.
        -- exfalso. rw (Hl (S k) x) // in Hp. lia.
  - assert (forall j x, l !! j = Some x -> p x = false) as Hnone.
    { intros j x Hx. destruct (p x) eqn:Hp; [|done]. exfalso. clear IH. revert j Hx. induction l as [|w l IHl]; intros j Hx; [done|].
      cbn [rposition] in E. destruct (rposition p l) eqn:E'; [done|]. destruct (p w) eqn:Hw; [done|].
      destruct j as [|j]; [by injection Hx as ->; rw Hp in Hw|]. by apply (IHl eq_refl j). }
    destruct (p y) eqn:Hy; split.
    + intros [= <-]. split; [by exists y|]. intros [|j] z Hj Hz; [lia|]. by apply (Hnone j).
    + intros [(z & Hz & Hpz) _]. destruct i as [|i]; [done|]. rw (Hnone i z) // in Hpz.
    + done.
    + intros [(z & Hz & Hpz) _]. destruct i as [|i]; [by injection Hz as ->; rw Hy in Hpz|].
      rw (Hnone i z) // in Hpz.
Qed.

(** Navigation finds the nearest hunk.  The next hunk row is the first header after the
    given row and the previous one the last header before it; there is none exactly when
    there is no such header. *)
Theorem hunk_navigation rows r i :
  (next_hunk_row rows r = Some i <->
     header_at rows i /\ r < i /\ forall j, r < j -> j < i -> ~ header_at rows j)
  /\ (prev_hunk_row rows r = Some i <->
     header_at rows i /\ i < r /\ forall j, i < j -> j < r -> ~ header_at rows j).
Proof.
  unfold next_hunk_row, prev_hunk_row, header_at. split.
  - rw fmap_Some. split.
    + intros ([k row] & Hf & ->). apply list_find_Some in Hf as (Hk & Hh & Hmin). rw lookup_drop in Hk. simpl.
      split; [exists row; split; [done|by destruct (is_header row)]|]. split; [lia|].
      intros j Hj Hji (row' & Hr & Hh'). apply (Hmin (j - (r + 1)) row'); [|lia|by rw Hh'].
      rw lookup_drop -Hr. f_equal. lia.
    + intros ((row & Hr & Hh) & Hri & Hmin). exists (i - (r + 1), row). split; [|simpl; lia].
      apply list_find_Some. split_and!.
      * rw lookup_drop -Hr. f_equal. lia.
      * by rw Hh.
      * intros j y Hy Hj Hhy. rw lookup_drop in Hy. apply (Hmin (r + 1 + j)); [lia..|]. exists y. split; [done|].
        by destruct (is_header y).
  - rw rposition_Some. split.
    + intros [(row & Hr & Hh) Hlast]. apply lookup_take_Some in Hr as [Hr Hi]. split; [by exists row|]. split; [done|].
      intros j Hij Hjr (row' & Hr' & Hh'). rw (Hlast j row') // in Hh'. by rw lookup_take_lt.
    + intros ((row & Hr & Hh) & Hir & Hlast). split; [exists row; by rw lookup_take_lt|].
      intros j x Hij Hx. apply lookup_take_Some in Hx as [Hx Hj]. destruct (is_header x) eqn:E; [|done].
      exfalso. apply (Hlast j); [done..|]. by exists x.
Qed.

(** ** Focus *)
Definition focus_ok (c : CompositeBuffer) : Prop :=
  cb_sources c = [] \/ cb_active_pane c < length (cb_sources c).

(** Moving the focus stays on a pane, and the two moves undo each other. *)
Theorem focus_moves c :
  focus_ok c ->
  focus_ok (focus_next c) /\ focus_ok (focus_prev c)
  /\ focus_prev (focus_next c) = c /\ focus_next (focus_prev c) = c.
Proof.
  destruct c as [id name layout sources al active mode init]. unfold focus_ok, focus_next, focus_prev.
  cbn [cb_sources cb_active_pane]. destruct sources as [|s sources]; [intros _; by split_and!; auto|].
  intros [?|Ha]; [done|]. cbn [set_active_pane cb_sources cb_active_pane cb_id cb_name cb_layout cb_alignment cb_mode cb_initial_focus_hunk].
  set (k := length (s :: sources)) in *. assert (k <> 0) as Hk by done.
  assert ((active + 1) mod k < k) as H1 by (by apply Nat.mod_upper_bound).
  assert ((active + k - 1) mod k < k) as H2 by (by apply Nat.mod_upper_bound).
  split_and!; [by right|by right| |]; unfold set_active_pane;
    cbn [cb_sources cb_active_pane cb_id cb_name cb_layout cb_alignment cb_mode cb_initial_focus_hunk]; f_equal; fold k.
  - destruct (decide (active + 1 = k)) as [E|E].
    + rw E Nat.Div0.mod_same Nat.mod_small; lia.
    + rw (Nat.mod_small (active + 1)); [lia|]. replace (active + 1 + k - 1) with (active + 1 * k) by lia.
      rw Nat.Div0.mod_add. by apply Nat.mod_small.
  - destruct active as [|active].
    + rw (Nat.mod_small (0 + k - 1)); [lia|]. replace (0 + k - 1 + 1) with k by lia. apply Nat.Div0.mod_same.
    + replace (S active + k - 1) with (active + 1 * k) by lia. rw Nat.Div0.mod_add (Nat.mod_small active); [lia|].
      rw Nat.mod_small; lia.
Qed.

(** ** Examples *)
Lemma side_by_side_shows_diff_witness :
  exists hs, compute_line_diff sample_old sample_new = Ok hs
  /\ let rows := from_hunks (to_diff_hunk <$> hs) 3 4 in
     pane_column 0 rows = [0; 1; 2] /\ pane_column 1 rows = [0; 1; 2; 3]
     /\ length (filter is_header rows) = length hs
     /\ Forall (context_equal (split_inclusive sample_old) (split_inclusive sample_new)) rows.
Proof. apply (side_by_side_shows_diff sample_old sample_new). vm_compute. discriminate. Defined.

Lemma alignment_complete_witness :
  let hs := [with_ops (diff_hunk_new 1 2 1 2) (Some " -+"%string); diff_hunk_new 4 0 4 1] in
  pane_column 0 (from_hunks hs 5 6) = [0; 1; 2; 3; 4] /\ pane_column 1 (from_hunks hs 5 6) = [0; 1; 2; 3; 4; 5].
Proof.
  apply (alignment_complete [with_ops (diff_hunk_new 1 2 1 2) (Some " -+"%string); diff_hunk_new 4 0 4 1] 5 6).
  cbn. split_and!; by vm_compute || lia.
Defined.
