(* ===== verification/PathEncode.v ===== *)
(** * Paths as file names

    Models crates/fresh-editor-core/src/path_encode.rs, which names the files of a
    workspace after its path, and [decode_filename_to_path] of
    crates/fresh-editor/src/workspace.rs.

    A path is the characters of its (lossily decoded) string, a name its bytes; the
    64-bit hash is a number with its wrap-around written out. *)
From stdpp Require Import base numbers list option.
From Stdlib Require Import ssreflect Strings.Byte NArith.
From S2P Require Import Prelude TextSpec Utf8 LineDiff LineDiffText.

Definition MAX_ENCODED_LEN : nat := 255.
Definition FOLD_MARK : byte := x7e.
Definition SUFFIX_LEN : nat := 17.

Fixpoint fold_hash_loop (h : N) (bytes : list byte) : N :=
  match bytes with
  | [] => h
  | b :: bytes => fold_hash_loop (N.lxor h (code b) * 0x100000001b3 mod 2 ^ 64)%N bytes
  end.

Definition fold_hash (bytes : list byte) : N := fold_hash_loop 0xcbf29ce484222325 bytes.

(** Hexadecimal digits: upper case for escapes, lower case for the hash. *)
Definition hex_upper (d : N) : byte := byte_of (if (d <? 10)%N then 48 + d else 55 + d)%N.
Definition hex_lower (d : N) : byte := byte_of (if (d <? 10)%N then 48 + d else 87 + d)%N.

Fixpoint hex_digits (count : nat) (n : N) : list byte :=
  match count with
  | 0 => []
  | S count => hex_digits count (n / 16) ++ [hex_lower (n mod 16)]
  end.

(** [str::is_char_boundary]. *)
Definition is_char_boundary (name : list byte) (k : nat) : bool :=
  (k =? 0) || (k =? length name)
  || match name !! k with Some b => negb (is_continuation (Some b)) | None => false end.

(** A cut inside an escape backs off to its start. *)
Definition back_off_escape (head : list byte) : list byte :=
  if decide (list.last head = Some x25) then take (length head - 1) head
  else if decide (2 <= length head /\ head !! (length head - 2) = Some x25) then take (length head - 2) head
  else head.

Definition fold_to_len (name : list byte) (max_len : nat) : list byte :=
  if length name <=? max_len then name else
  let keep := back_off (fun k => negb (is_char_boundary name k)) (max_len - SUFFIX_LEN) in
  let head := back_off_escape (take keep name) in
  head ++ [FOLD_MARK] ++ hex_digits 16 (fold_hash name).

Definition fold_to_max_len (encoded : list byte) : list byte :=
  if length encoded <=? MAX_ENCODED_LEN then encoded else fold_to_len encoded MAX_ENCODED_LEN.

Definition is_ascii_alphanumeric (c : N) : bool :=
  ((48 <=? c) && (c <=? 57) || (65 <=? c) && (c <=? 90) || (97 <=? c) && (c <=? 122))%N.

Definition percent (b : byte) : list byte := [x25; hex_upper (code b / 16); hex_upper (code b mod 16)].

Definition encode_char (c : N) : list byte :=
  if ((c =? 47) || (c =? 92))%N then [x5f]
  else if is_ascii_alphanumeric c then encode_utf8 c
  else if ((c =? 45) || (c =? 46))%N then encode_utf8 c
  else if (c =? 95)%N then [x25; x35; x46]
  else encode_utf8 c ≫= percent.

Fixpoint trim_start_underscores (s : list byte) : list byte :=
  match s with
  | b :: s' => if decide (b = x5f) then trim_start_underscores s' else s
  | [] => []
  end.

Fixpoint collapse_underscores (last_was_underscore : bool) (s : list byte) : list byte :=
  match s with
  | [] => []
  | b :: s =>
      if decide (b = x5f)
      then (if last_was_underscore then [] else [b]) ++ collapse_underscores true s
      else b :: collapse_underscores false s
  end.

(** The name before it is shortened. *)
Definition encode_unfolded (path : list N) : list byte :=
  match collapse_underscores false (trim_start_underscores (path ≫= encode_char)) with
  | [] => [x72; x6f; x6f; x74]
  | name => name
  end.

Definition encode_path_for_filename (path : list N) : list byte := fold_to_max_len (encode_unfolded path).

(** ** Decoding *)
Definition hex_value (c : N) : option N :=
  (if (48 <=? c) && (c <=? 57) then Some (c - 48)
   else if (65 <=? c) && (c <=? 70) then Some (c - 55)
   else if (97 <=? c) && (c <=? 102) then Some (c - 87)
   else None)%N.

(** [u8::from_str_radix(hex, 16)] on two characters: a leading plus sign is accepted. *)
Definition from_hex2 (a b : N) : option N :=
  if (a =? 43)%N then hex_value b
  else h ← hex_value a; l ← hex_value b; Some (16 * h + l)%N.

(** An escape that is not one is dropped; one at the end of the name takes what is there. *)
Fixpoint decode_chars (chars : list N) : list N :=
  match chars with
  | [] => []
  | c :: chars =>
      if (c =? 37)%N then
        match chars with
        | a :: b :: rest => match from_hex2 a b with Some n => [n] | None => [] end ++ decode_chars rest
        | _ => []
        end
      else (if (c =? 95)%N then 47%N else c) :: decode_chars chars
  end.

Definition decode_filename_to_path (encoded : list byte) : option (list N) :=
  if decide (encoded = [x72; x6f; x6f; x74]) then Some [47%N]
  else if decide (FOLD_MARK ∈ encoded) then None
  else Some (47%N :: decode_chars (from_utf8_lossy encoded)).

(** ** File names of paths: safe, short, reversible

    A name fits the file system and holds only safe bytes; names of absolute normalised
    paths are distinct, apart from the root directory's; ASCII paths come back from their
    names; a shortened name never ends inside an escape. *)
Local Abbreviation scalars := (Forall (fun c => is_scalar c = true)).

(** ** Hexadecimal *)
Lemma hex_upper_code d : (d < 16)%N ->
  code (hex_upper d) = (if (d <? 10)%N then 48 + d else 55 + d)%N.
Proof. intros Hd. unfold hex_upper. apply code_byte_of. destruct (d <? 10)%N eqn:E; lia. Qed.

Lemma hex_value_upper d : (d < 16)%N -> hex_value (code (hex_upper d)) = Some d.
Proof.
  intros Hd. rw hex_upper_code //. unfold hex_value.
  destruct (N.ltb_spec d 10); [rw (proj2 (N.leb_le 48 _)); [lia|]; rw (proj2 (N.leb_le _ 57)); [lia|]; f_equal; lia|].
  rw (proj2 (N.leb_gt _ 57)); [lia|]. rw andb_false_r. rw (proj2 (N.leb_le 65 _)); [lia|]. rw (proj2 (N.leb_le _ 70)); [lia|].
  f_equal. lia.
Qed.

Lemma nibbles b : (code b / 16 < 16)%N /\ (code b mod 16 < 16)%N /\ (16 * (code b / 16) + code b mod 16 = code b)%N.
Proof.
  pose proof (code_lt b). split; [apply N.Div0.div_lt_upper_bound; lia|]. split; [by apply N.mod_lt|].
  symmetry. by apply N.div_mod.
Qed.

Lemma from_hex2_percent b : from_hex2 (code (hex_upper (code b / 16))) (code (hex_upper (code b mod 16))) = Some (code b).
Proof.
  destruct (nibbles b) as (H1 & H2 & H3). unfold from_hex2.
  rw (proj2 (N.eqb_neq (code (hex_upper (code b / 16))) 43)).
  { rw hex_upper_code //. destruct (_ <? 10)%N; lia. }
  rw !hex_value_upper //. cbn [mbind option_bind]. by rw H3.
Qed.

(** ** Safe bytes *)
Definition safe_byte (b : byte) : bool :=
  is_ascii_alphanumeric (code b) || bool_decide (b ∈ [x2d; x2e; x5f; x25; x7e]).

Lemma hex_safe d : (d < 16)%N ->
  safe_byte (hex_upper d) = true /\ safe_byte (hex_lower d) = true /\ hex_upper d <> x5f /\ hex_upper d <> x25
  /\ hex_lower d <> x7e /\ hex_upper d <> x7e /\ (code (hex_upper d) < 128)%N.
Proof.
  intros Hd.
  assert (forall k, k < 16 -> let d := N.of_nat k in
    safe_byte (hex_upper d) = true /\ safe_byte (hex_lower d) = true /\ hex_upper d <> x5f /\ hex_upper d <> x25
    /\ hex_lower d <> x7e /\ hex_upper d <> x7e /\ (code (hex_upper d) < 128)%N) as H.
  { intros k Hk. do 16 (destruct k as [|k]; [by vm_compute|]). lia. }
  specialize (H (N.to_nat d)). rw N2Nat.id in H. apply H. lia.
Qed.

(** The bytes of a character's code: no separator unless it is one, no fold mark, all safe. *)
Definition plain_byte (b : byte) : Prop := safe_byte b = true /\ b <> x5f /\ b <> x7e /\ (code b < 128)%N.

Lemma percent_plain b : Forall plain_byte (percent b).
Proof.
  destruct (nibbles b) as (H1 & H2 & _). unfold percent, plain_byte.
  destruct (hex_safe _ H1) as (? & _ & ? & ? & ? & ? & ?). destruct (hex_safe _ H2) as (? & _ & ? & ? & ? & ? & ?).
  repeat apply Forall_cons_2; try apply Forall_nil_2; split_and!; done.
Qed.

Lemma ascii_encode c : (c < 128)%N -> encode_utf8 c = [byte_of c].
Proof. intros Hc. unfold encode_utf8. by rw (proj2 (N.ltb_lt _ _)). Qed.

Lemma alphanumeric_ascii c : is_ascii_alphanumeric c = true -> (c < 128)%N /\ c <> 95%N /\ c <> 126%N /\ c <> 37%N /\ c <> 47%N /\ c <> 92%N.
Proof. unfold is_ascii_alphanumeric. rw !orb_true_iff !andb_true_iff !N.leb_le. lia. Qed.

(** A character that is kept as it is. *)
Definition kept_char (c : N) : bool := is_ascii_alphanumeric c || (c =? 45)%N || (c =? 46)%N.

Lemma kept_char_ascii c : kept_char c = true -> (c < 128)%N /\ c <> 95%N /\ c <> 126%N /\ c <> 37%N /\ c <> 47%N /\ c <> 92%N.
Proof.
  unfold kept_char. intros [[H|H%N.eqb_eq]%orb_true_iff|H%N.eqb_eq]%orb_true_iff; [by apply alphanumeric_ascii|lia..].
Qed.

Lemma encode_char_cases c :
  c <> 47%N -> c <> 92%N ->
  encode_char c = if kept_char c then encode_utf8 c else encode_utf8 c ≫= percent.
Proof.
  intros H1 H2. unfold encode_char, kept_char. rw (proj2 (N.eqb_neq c 47)) // (proj2 (N.eqb_neq c 92)) //.
  cbn [orb]. destruct (is_ascii_alphanumeric c); [done|]. cbn [orb].
  destruct ((c =? 45) || (c =? 46))%N; [done|]. by destruct (N.eqb_spec c 95) as [->|].
Qed.

Lemma Forall_bind {A B} (P : B -> Prop) (f : A -> list B) l : (forall x, Forall P (f x)) -> Forall P (l ≫= f).
Proof. intros H. induction l as [|x l IH]; [constructor|]. cbn. apply Forall_app. by split. Qed.

Lemma encode_char_plain c : c <> 47%N -> c <> 92%N -> Forall plain_byte (encode_char c) /\ encode_char c <> [].
Proof.
  intros H1 H2. rw encode_char_cases //. destruct (kept_char c) eqn:E.
  - pose proof E as Hk. apply kept_char_ascii in E as (Hc & H95 & H126 & _). rw ascii_encode //. split; [|done].
    apply Forall_cons_2; [|constructor]. unfold plain_byte.
    assert (code (byte_of c) = c) as Hcode by (apply code_byte_of; lia). split_and!.
    + unfold safe_byte. rw Hcode. unfold kept_char in Hk. destruct (is_ascii_alphanumeric c); [done|].
      cbn [orb] in *. apply orb_true_iff in Hk as [Hk|Hk]; apply N.eqb_eq in Hk as ->; by vm_compute.
    + intros E'. apply (f_equal code) in E'. rw Hcode in E'. done.
    + intros E'. apply (f_equal code) in E'. rw Hcode in E'. done.
    + by rw Hcode.
  - split; [apply Forall_bind, percent_plain|]. pose proof (length_encode_utf8 c) as H.
    by destruct (encode_utf8 c); [simpl in H; lia|].
Qed.

(** ** Normalised paths *)

(** No backslash and no two separators in a row ([prev]: the last character was one). *)
Fixpoint normalised (prev : bool) (path : list N) : Prop :=
  match path with
  | [] => True
  | c :: path =>
      c <> 92%N /\ (if (c =? 47)%N then prev = false /\ normalised true path else normalised false path)
  end.

Lemma collapse_plain s rest flag :
  Forall plain_byte s -> s <> [] ->
  collapse_underscores flag (s ++ rest) = s ++ collapse_underscores false rest.
Proof.
  revert flag. induction s as [|b s IH]; intros flag Hs Hne; [done|]. apply Forall_cons_1 in Hs as [Hb Hs].
  cbn [app collapse_underscores]. rw decide_False; [apply Hb|]. f_equal. destruct s as [|b' s]; [done|]. by apply IH.
Qed.

Lemma collapse_normalised prev path :
  normalised prev path -> collapse_underscores prev (path ≫= encode_char) = path ≫= encode_char.
Proof.
  revert prev. induction path as [|c path IH]; intros prev; [done|]. intros [H92 H]. cbn [mbind list_bind].
  destruct (N.eqb_spec c 47) as [->|H47].
  - destruct H as [-> H]. cbn. by rw IH.
  - destruct (encode_char_plain c H47 H92) as [Hp Hne]. rw collapse_plain //. by rw IH.
Qed.

Lemma trim_normalised path :
  normalised true path -> trim_start_underscores (path ≫= encode_char) = path ≫= encode_char.
Proof.
  destruct path as [|c path]; [done|]. intros [H92 H]. cbn [mbind list_bind].
  destruct (N.eqb_spec c 47) as [->|H47]; [by destruct H|].
  destruct (encode_char_plain c H47 H92) as [Hp Hne]. destruct (encode_char c) as [|b s]; [done|].
  apply Forall_cons_1 in Hp as [Hb _]. cbn [app trim_start_underscores]. rw decide_False //. apply Hb.
Qed.

(** The name of the normalised absolute path [/path]. *)
Lemma encode_absolute path :
  normalised true path ->
  encode_unfolded (47%N :: path) = match path with [] => [x72; x6f; x6f; x74] | _ => path ≫= encode_char end.
Proof.
  intros H. unfold encode_unfolded.
  change ((47%N :: path) ≫= encode_char) with (x5f :: (path ≫= encode_char)).
  change (trim_start_underscores (x5f :: ?s)) with (trim_start_underscores s). rw trim_normalised //.
  assert (normalised false path) as H'.
  { destruct path as [|c path]; [done|]. destruct H as [H92 H]. split; [done|]. destruct (c =? 47)%N; tauto. }
  rw collapse_normalised //. destruct path as [|c path]; [done|]. cbn [mbind list_bind].
  destruct H as [H92 H]. destruct (N.eqb_spec c 47) as [->|H47]; [by destruct H|].
  destruct (encode_char_plain c H47 H92) as [_ Hne]. by destruct (encode_char c).
Qed.

(** ** A decoder for names in full *)
Fixpoint undo_escapes (s : list byte) : list byte :=
  match s with
  | [] => []
  | b :: s =>
      if decide (b = x25) then
        match s with
        | h :: l :: rest => option_list (byte_of <$> from_hex2 (code h) (code l)) ++ undo_escapes rest
        | _ => []
        end
      else (if decide (b = x5f) then x2f else b) :: undo_escapes s
  end.

Lemma undo_percent bytes rest : undo_escapes ((bytes ≫= percent) ++ rest) = bytes ++ undo_escapes rest.
Proof.
  induction bytes as [|b bytes IH]; [done|]. cbn [mbind list_bind]. rw -app_assoc.
  assert (forall h l s, undo_escapes (x25 :: h :: l :: s)
    = option_list (byte_of <$> from_hex2 (code h) (code l)) ++ undo_escapes s) as Hesc by done.
  unfold percent at 1. cbn [app]. rw Hesc from_hex2_percent. cbn [fmap option_fmap option_map option_list app].
  by rw byte_of_code IH.
Qed.

Lemma undo_encode path : Forall (fun c => c <> 92%N) path -> undo_escapes (path ≫= encode_char) = encode_all path.
Proof.
  induction 1 as [|c path H92 _ IH]; [done|]. cbn [mbind list_bind]. rw encode_all_cons.
  destruct (decide (c = 47%N)) as [->|H47].
  - change (encode_utf8 47 ++ encode_all path) with (x2f :: encode_all path). rw -IH. done.
  - rw encode_char_cases //. destruct (kept_char c) eqn:E; [|by rw undo_percent IH].
    apply kept_char_ascii in E as (Hc & H95 & _ & H37 & _). rw ascii_encode //. cbn [app undo_escapes].
    assert (code (byte_of c) = c) as Hcode by (apply code_byte_of; lia).
    rw !decide_False; [intros E'; apply (f_equal code) in E'; by rw Hcode in E'..|]. by rw IH.
Qed.

Lemma normalised_no_backslash prev path : normalised prev path -> Forall (fun c => c <> 92%N) path.
Proof.
  revert prev. induction path as [|c path IH]; intros prev; [constructor|]. intros [H92 H]. constructor; [done|].
  destruct (c =? 47)%N; [destruct H as [_ H]|]; eapply IH, H.
Qed.

Definition root_dir : list N := [47]%N.
Definition root_home : list N := [47; 114; 111; 111; 116]%N.

(** The spelling of a path that the encoder is meant to tell from others: single separators
    and none at the end. *)
Definition canonical (path : list N) : Prop := normalised true path /\ list.last path <> Some 47%N.

(** C27: names tell paths apart.  Two absolute paths of Unicode characters without backslashes,
    repeated separators or a separator at the end have the same unshortened name only if they
    are the same path, or are the root directory and the directory /root. *)
Theorem path_names_distinct p q :
  scalars p -> scalars q -> canonical p -> canonical q ->
  encode_unfolded (47%N :: p) = encode_unfolded (47%N :: q) ->
  p = q \/ (47%N :: p = root_dir /\ 47%N :: q = root_home) \/ (47%N :: p = root_home /\ 47%N :: q = root_dir).
Proof.
  intros Hp Hq [Hnp _] [Hnq _]. rw !encode_absolute //.
  assert (forall p q, scalars p -> scalars q -> normalised true p -> normalised true q ->
    p ≫= encode_char = q ≫= encode_char -> p = q) as Hinj.
  { clear. intros p q Hp Hq Hnp Hnq H. apply (f_equal undo_escapes) in H.
    rw !undo_encode in H; [eapply normalised_no_backslash; eassumption..|]. apply (f_equal from_utf8_lossy) in H.
    by rw (proj2 (from_utf8_encoded p Hp)) (proj2 (from_utf8_encoded q Hq)) in H. }
  assert (forall q, scalars q -> normalised true q -> [x72; x6f; x6f; x74] = q ≫= encode_char -> 47%N :: q = root_home) as Hroot.
  { intros q' Hq' Hn H. unfold root_home. f_equal. symmetry. apply Hinj; [by repeat constructor|done|by vm_compute|done|done]. }
  destruct p as [|c p], q as [|d q]; intros H; [by left|right; left|right; right|left; by apply Hinj].
  - split; [done|]. by apply Hroot.
  - split; [|done]. by apply Hroot.
Qed.

(** ** Decoding *)
Lemma lossy_ascii s : Forall (fun b => (code b < 128)%N) s -> from_utf8_lossy s = code <$> s.
Proof.
  unfold from_utf8_lossy. induction 1 as [|b s Hb _ IH]; [done|]. cbn [lossy_chars]. rw code_ascii //. cbn. by rw IH.
Qed.

Lemma decode_encode_char c rest :
  (c < 128)%N -> c <> 92%N ->
  decode_chars ((code <$> encode_char c) ++ rest) = c :: decode_chars rest.
Proof.
  intros Hc H92. destruct (decide (c = 47%N)) as [->|H47]; [done|]. rw encode_char_cases // ascii_encode //.
  assert (code (byte_of c) = c) as Hcode by (apply code_byte_of; lia).
  destruct (kept_char c) eqn:E.
  - apply kept_char_ascii in E as (_ & H95 & _ & H37 & _). cbn [fmap list_fmap app decode_chars]. rw Hcode.
    by rw (proj2 (N.eqb_neq c 37)) // (proj2 (N.eqb_neq c 95)).
  - cbn [mbind list_bind percent app fmap list_fmap]. change (code x25) with 37%N. cbn [decode_chars].
    change (37 =? 37)%N with true. cbv iota. rw from_hex2_percent Hcode. done.
Qed.

Lemma encode_char_ascii_bytes c : Forall (fun b => (code b < 128)%N /\ b <> FOLD_MARK) (encode_char c).
Proof.
  destruct (decide (c = 47%N)) as [->|H47]; [by repeat constructor|].
  destruct (decide (c = 92%N)) as [->|H92]; [by repeat constructor|].
  destruct (encode_char_plain c H47 H92) as [H _].
  eapply Forall_impl; [|exact H]. by intros b (_ & _ & ? & ?).
Qed.

(** C28: ASCII paths come back from their names.  An absolute normalised path of ASCII
    characters other than /root, whose name fits the file system, is what decoding its
    name gives. *)
Theorem path_name_roundtrip p :
  Forall (fun c => (c < 128)%N) p -> normalised true p -> 47%N :: p <> root_home ->
  length (encode_unfolded (47%N :: p)) <= MAX_ENCODED_LEN ->
  decode_filename_to_path (encode_path_for_filename (47%N :: p)) = Some (47%N :: p).
Proof.
  intros Hp Hn Hr Hlen. unfold encode_path_for_filename, fold_to_max_len. rw (proj2 (Nat.leb_le _ _) Hlen).
  rw encode_absolute //. destruct p as [|c p]; [by vm_compute|]. set (q := c :: p) in *. unfold decode_filename_to_path.
  assert (Forall (fun b => (code b < 128)%N /\ b <> FOLD_MARK) (q ≫= encode_char)) as Hs
    by apply Forall_bind, encode_char_ascii_bytes.
  rw decide_False.
  { intros E. apply Hr. unfold root_home. f_equal.
    assert (Forall (fun c => c <> 92%N) q) as Hb by (eapply normalised_no_backslash; eassumption).
    pose proof (undo_encode q Hb) as H. rw E in H. apply (f_equal from_utf8_lossy) in H.
    rw (proj2 (from_utf8_encoded q _)) in H; [|by vm_compute in H]. eapply Forall_impl; [|exact Hp].
    intros x Hx. apply is_scalar_spec. simpl in Hx. lia. }
  rw decide_False.
  { intros Hin. apply list_elem_of_In in Hin. rw Forall_forall in Hs. by apply (Hs _ Hin). }
  f_equal. f_equal. rw lossy_ascii; [eapply Forall_impl; [|exact Hs]; by intros b [? _]|].
  apply normalised_no_backslash in Hn. clearbody q. clear -Hp Hn. induction q as [|c q IH]; [done|].
  apply Forall_cons_1 in Hp as [Hc Hp]. apply Forall_cons_1 in Hn as [H92 Hn]. cbn [mbind list_bind].
  rw fmap_app decode_encode_char //. f_equal. by apply IH.
Qed.

(** ** Shortened names *)
Definition is_hex (b : byte) : bool := match hex_value (code b) with Some _ => true | None => false end.

(** Every percent sign is followed by two hexadecimal digits. *)
Fixpoint whole_escapes (s : list byte) : bool :=
  match s with
  | [] => true
  | b :: s =>
      if decide (b = x25) then
        match s with h :: l :: rest => is_hex h && is_hex l && whole_escapes rest | _ => false end
      else whole_escapes s
  end.

Lemma whole_escape h l s : whole_escapes (x25 :: h :: l :: s) = is_hex h && is_hex l && whole_escapes s.
Proof. done. Qed.

Lemma whole_plain b s : b <> x25 -> whole_escapes (b :: s) = whole_escapes s.
Proof. intros Hb. cbn [whole_escapes]. by rw decide_False. Qed.

Lemma hex_not_special b : is_hex b = true -> b <> x25 /\ b <> x5f.
Proof. intros H. split; intros ->; by vm_compute in H. Qed.

(** Escapes and other bytes, one by one. *)
Lemma whole_ind (P : list byte -> Prop) :
  P [] -> (forall b s, b <> x25 -> whole_escapes s = true -> P s -> P (b :: s)) ->
  (forall h l s, is_hex h = true -> is_hex l = true -> whole_escapes s = true -> P s -> P (x25 :: h :: l :: s)) ->
  forall s, whole_escapes s = true -> P s.
Proof.
  intros H0 H1 H2 s. remember (length s) as n eqn:Hn. revert s Hn. induction n as [n IH] using lt_wf_ind.
  intros [|b s] -> Hs; [done|]. destruct (decide (b = x25)) as [->|Hb].
  - destruct s as [|h [|l s]]; [done..|]. rw whole_escape in Hs.
    apply andb_true_iff in Hs as [[Hh Hl]%andb_true_iff Hs]. apply H2; [done..|]. by apply (IH (length s)); [simpl; lia|..].
  - rw whole_plain // in Hs. apply H1; [done..|]. by apply (IH (length s)); [simpl; lia|..].
Qed.

Lemma whole_app s t : whole_escapes s = true -> whole_escapes (s ++ t) = whole_escapes t.
Proof.
  revert s. apply (whole_ind (fun s => whole_escapes (s ++ t) = whole_escapes t)); [done| |].
  - intros b s Hb Hs IH. cbn [app]. by rw whole_plain.
  - intros h l s Hh Hl Hs IH. cbn [app]. by rw whole_escape Hh Hl IH.
Qed.

(** A whole name ends with neither half of an escape. *)
Lemma whole_last s :
  whole_escapes s = true -> list.last s <> Some x25 /\ (2 <= length s -> s !! (length s - 2) <> Some x25).
Proof.
  revert s. apply (whole_ind (fun s => list.last s <> Some x25 /\ (2 <= length s -> s !! (length s - 2) <> Some x25))).
  - split; [done|]. simpl. lia.
  - intros b s Hb Hs [IH1 IH2]. destruct s as [|c s]; [split; [by intros [= ?]|simpl; lia]|]. split; [done|]. intros _.
    destruct s as [|d s]; [by intros [= ?]|]. cbn [length] in *. specialize (IH2 ltac:(lia)).
    replace (S (S (S (length s))) - 2) with (S (S (S (length s)) - 2)) by lia. done.
  - intros h l s Hh Hl Hs [IH1 IH2]. apply hex_not_special in Hh as [Hh _]. apply hex_not_special in Hl as [Hl _].
    destruct s as [|c s]; [split; [by intros [= ?]|by intros _ [= ?]]|]. split; [done|]. intros _.
    destruct s as [|d s]; [by intros [= ?]|]. cbn [length] in *. specialize (IH2 ltac:(lia)).
    replace (S (S (S (S (S (length s))))) - 2) with (S (S (S (S (S (length s)) - 2)))) by lia. done.
Qed.

(** A cut leaves whole escapes and at most the start of one. *)
Lemma whole_take s k :
  whole_escapes s = true ->
  exists t r, take k s = t ++ r /\ whole_escapes t = true
  /\ (r = [] \/ r = [x25] \/ exists h, r = [x25; h] /\ h <> x25).
Proof.
  intros Hs. revert s Hs k. apply (whole_ind (fun s => forall k, exists t r, take k s = t ++ r /\ whole_escapes t = true
    /\ (r = [] \/ r = [x25] \/ exists h, r = [x25; h] /\ h <> x25)));
    [intros k|intros b s Hb Hs IH k|intros h l s Hh Hl Hs IH k].
  - exists [], []. rw take_nil. by split_and!; [..|left].
  - destruct k as [|k]; [exists [], []; by split_and!; [..|left]|].
    destruct (IH k) as (t & r & Ht & Hw & Hr). exists (b :: t), r. cbn [take]. rw Ht whole_plain //.
  - destruct k as [|[|[|k]]].
    + exists [], []. by split_and!; [..|left].
    + exists [], [x25]. by split_and!; [..|right; left].
    + exists [], [x25; h]. split_and!; [done..|]. right; right. exists h. split; [done|]. by apply hex_not_special.
    + destruct (IH k) as (t & r & Ht & Hw & Hr). exists (x25 :: h :: l :: t), r. cbn [take app].
      by rw Ht whole_escape Hh Hl Hw.
Qed.

Lemma back_off_escape_whole s k :
  whole_escapes s = true ->
  whole_escapes (back_off_escape (take k s)) = true
  /\ exists k', back_off_escape (take k s) = take k' s /\ k' <= k.
Proof.
  intros Hs. destruct (whole_take s k Hs) as (t & r & Ht & Hw & Hr).
  assert (back_off_escape (take k s) = t) as ->.
  { rw Ht. unfold back_off_escape. destruct Hr as [->|[->|(h & -> & Hh)]].
    - rw app_nil_r. destruct (whole_last t Hw) as [H1 H2]. rw decide_False //.
      rw decide_False //. intros [? ?]. by apply H2.
    - rw list.last_snoc length_app. destruct (decide (Some x25 = Some x25)); [|done].
      cbn [length]. by rw Nat.add_sub take_app_length.
    - change [x25; h] with ([x25] ++ [h]). rw app_assoc list.last_snoc.
      destruct (decide (Some h = Some x25)); [congruence|].
      rw -app_assoc. cbn [app]. rw length_app. cbn [length]. case_decide as H; rw Nat.add_sub in H |- *;
        [by rw take_app_length|].
      exfalso. apply H. split; [lia|]. by rw lookup_app_r // Nat.sub_diag. }
  split; [done|]. exists (length t).
  assert (length t <= k) as Hk.
  { apply (f_equal length) in Ht. rw length_take length_app in Ht. lia. }
  split; [|done]. apply (f_equal (take (length t))) in Ht. rw take_app_length take_take Nat.min_l // in Ht.
Qed.

Lemma encode_char_whole c : whole_escapes (encode_char c) = true.
Proof.
  destruct (decide (c = 47%N)) as [->|H47]; [done|]. destruct (decide (c = 92%N)) as [->|H92]; [done|].
  rw encode_char_cases //. destruct (kept_char c) eqn:E.
  - apply kept_char_ascii in E as (Hc & _ & _ & H37 & _). rw ascii_encode // whole_plain //.
    intros E. apply (f_equal code) in E. rw code_byte_of in E; [lia|]. done.
  - induction (encode_utf8 c) as [|b bs IH]; [done|]. cbn [mbind list_bind]. rw whole_app //.
    unfold percent. destruct (nibbles b) as (H1 & H2 & _). rw whole_escape. unfold is_hex. by rw !hex_value_upper.
Qed.

Lemma encode_chars_whole path : whole_escapes (path ≫= encode_char) = true.
Proof.
  induction path as [|c path IH]; [done|]. cbn [mbind list_bind]. by rw whole_app // encode_char_whole.
Qed.

Lemma trim_whole s : whole_escapes s = true -> whole_escapes (trim_start_underscores s) = true.
Proof.
  revert s. apply (whole_ind (fun s => whole_escapes (trim_start_underscores s) = true)); [done| |].
  - intros b s Hb Hs IH. cbn [trim_start_underscores]. case_decide; [done|]. by rw whole_plain.
  - intros h l s Hh Hl Hs IH. change (trim_start_underscores (x25 :: h :: l :: s)) with (x25 :: h :: l :: s).
    by rw whole_escape Hh Hl.
Qed.

Lemma collapse_whole s flag : whole_escapes s = true -> whole_escapes (collapse_underscores flag s) = true.
Proof.
  intros Hs. revert s Hs flag.
  apply (whole_ind (fun s => forall flag, whole_escapes (collapse_underscores flag s) = true)); [done| |].
  - intros b s Hb Hs IH flag. cbn [collapse_underscores]. case_decide as E; [|by rw whole_plain].
    destruct flag; cbn [app]; [done|]. by rw whole_plain.
  - intros h l s Hh Hl Hs IH flag. apply hex_not_special in Hh as H1. apply hex_not_special in Hl as H2.
    change (collapse_underscores flag (x25 :: h :: l :: s)) with (x25 :: collapse_underscores false (h :: l :: s)).
    cbn [collapse_underscores]. rw !decide_False; [apply H1|apply H2|]. by rw whole_escape Hh Hl IH.
Qed.

Lemma encode_unfolded_whole path : whole_escapes (encode_unfolded path) = true.
Proof.
  unfold encode_unfolded. pose proof (collapse_whole _ false (trim_whole _ (encode_chars_whole path))) as H.
  by destruct (collapse_underscores _ _).
Qed.

Lemma sub_bytes (P : byte -> Prop) s flag :
  Forall P s -> Forall P (trim_start_underscores s) /\ Forall P (collapse_underscores flag s).
Proof.
  intros H. split.
  - induction H as [|b s Hb Hs IH]; [done|]. cbn [trim_start_underscores]. case_decide; [done|by constructor].
  - revert flag. induction H as [|b s Hb Hs IH]; intros flag; [done|]. cbn [collapse_underscores].
    case_decide; [|by constructor]. apply Forall_app. split; [|done]. destruct flag; by repeat constructor.
Qed.

Lemma encode_unfolded_bytes path :
  Forall (fun b => safe_byte b = true /\ b <> FOLD_MARK) (encode_unfolded path) /\ encode_unfolded path <> [].
Proof.
  assert (Forall (fun b => safe_byte b = true /\ b <> FOLD_MARK) (path ≫= encode_char)) as H.
  { apply Forall_bind. intros c. destruct (decide (c = 47%N)) as [->|H47]; [by repeat constructor|].
    destruct (decide (c = 92%N)) as [->|H92]; [by repeat constructor|].
    destruct (encode_char_plain c H47 H92) as [Hp _]. eapply Forall_impl; [|exact Hp]. by intros b (? & _ & ? & _). }
  destruct (sub_bytes _ _ false H) as [Ht _]. destruct (sub_bytes _ _ false Ht) as [_ Hc].
  unfold encode_unfolded. destruct (collapse_underscores _ _); [|done]. split; [|done].
  repeat (apply Forall_cons_2; [by vm_compute|]). constructor.
Qed.

Lemma hex_digits_safe k n : Forall (fun b => safe_byte b = true) (hex_digits k n) /\ length (hex_digits k n) = k.
Proof.
  revert n. induction k as [|k IH]; intros n; [done|]. cbn [hex_digits]. destruct (IH (n / 16)%N) as [H1 H2]. split.
  - apply Forall_app. split; [done|]. constructor; [|constructor]. apply hex_safe. by apply N.mod_lt.
  - rw length_app H2 /=. lia.
Qed.

(** The shortened name: a whole start of the name, the mark and the hash. *)
Lemma fold_to_len_shape name max_len :
  max_len < length name -> whole_escapes name = true ->
  exists k, k <= max_len - SUFFIX_LEN /\ whole_escapes (take k name) = true
  /\ fold_to_len name max_len = take k name ++ [FOLD_MARK] ++ hex_digits 16 (fold_hash name).
Proof.
  intros Hlen Hw. unfold fold_to_len. rw (proj2 (Nat.leb_gt _ _) Hlen).
  set (keep := back_off _ _). destruct (back_off_escape_whole name keep Hw) as (H1 & k & Hk & Hle).
  exists k. rw Hk in H1 |- *. split; [|done]. pose proof (back_off_le (fun k => negb (is_char_boundary name k)) (max_len - SUFFIX_LEN)).
  fold keep in H. lia.
Qed.

(** Names are safe.  The name of any path has between 1 and 255 bytes, all of them
    letters, digits, dots, dashes, underscores, percent signs or the fold mark. *)
Theorem path_name_safe path :
  1 <= length (encode_path_for_filename path) <= MAX_ENCODED_LEN
  /\ Forall (fun b => safe_byte b = true) (encode_path_for_filename path).
Proof.
  destruct (encode_unfolded_bytes path) as [Hs Hne]. unfold encode_path_for_filename, fold_to_max_len.
  assert (Forall (fun b => safe_byte b = true) (encode_unfolded path)) as Hsafe
    by (eapply Forall_impl; [|exact Hs]; by intros b [? _]).
  destruct (Nat.leb_spec (length (encode_unfolded path)) MAX_ENCODED_LEN) as [Hle|Hgt].
  - split; [|done]. split; [|done]. destruct (encode_unfolded path); [done|simpl; lia].
  - destruct (fold_to_len_shape _ _ Hgt (encode_unfolded_whole path)) as (k & Hk & _ & ->).
    destruct (hex_digits_safe 16 (fold_hash (encode_unfolded path))) as [Hh Hl].
    revert Hh Hl. generalize (hex_digits 16 (fold_hash (encode_unfolded path))). intros hx Hh Hl. split.
    + rw !length_app Hl length_take. unfold SUFFIX_LEN, MAX_ENCODED_LEN in *. cbn [length]. lia.
    + apply Forall_app. split; [by apply Forall_take|]. by constructor.
Qed.

(** Shortening keeps escapes whole.  The name of a path that does not fit is a start of
    the full name in which no escape is cut, then the fold mark and the hash of the full
    name; decoding declines it. *)
Theorem folded_name_whole path :
  MAX_ENCODED_LEN < length (encode_unfolded path) ->
  (exists k, whole_escapes (take k (encode_unfolded path)) = true
   /\ encode_path_for_filename path
      = take k (encode_unfolded path) ++ [FOLD_MARK] ++ hex_digits 16 (fold_hash (encode_unfolded path)))
  /\ decode_filename_to_path (encode_path_for_filename path) = None.
Proof.
  intros Hgt. unfold encode_path_for_filename, fold_to_max_len. rw (proj2 (Nat.leb_gt _ _) Hgt).
  destruct (fold_to_len_shape _ _ Hgt (encode_unfolded_whole path)) as (k & Hk & Hw & ->).
  split; [by exists k|]. unfold decode_filename_to_path.
  assert (FOLD_MARK ∈ take k (encode_unfolded path) ++ [FOLD_MARK] ++ hex_digits 16 (fold_hash (encode_unfolded path))) as Hin.
  { apply elem_of_app. right. by left. }
  rw decide_False; [|by rw decide_True]. intros E. rw E in Hin. by repeat (apply elem_of_cons in Hin as [?|Hin]; [done|]); apply not_elem_of_nil in Hin.
Qed.

(** ** Examples *)
Definition sample_path : list N := [104; 47; 109; 121; 32; 112; 95; 126]%N.

Lemma path_name_roundtrip_witness :
  decode_filename_to_path (encode_path_for_filename (47%N :: sample_path)) = Some (47%N :: sample_path).
Proof.
  apply (path_name_roundtrip sample_path); [by repeat constructor|by vm_compute|done|vm_compute; lia].
Defined.

Lemma path_names_distinct_witness :
  let q := [114; 111; 111; 116]%N in
  encode_unfolded [47]%N = encode_unfolded (47%N :: q)
  /\ ([] = q \/ ([47]%N = root_dir /\ 47%N :: q = root_home) \/ ([47]%N = root_home /\ 47%N :: q = root_dir)).
Proof.
  split; [by vm_compute|].
  apply (path_names_distinct [] [114; 111; 111; 116]%N);
    [by repeat constructor..| by vm_compute | by vm_compute | by vm_compute].
Defined.

Lemma folded_name_whole_witness :
  let path := 47%N :: replicate 300 97%N in
  decode_filename_to_path (encode_path_for_filename path) = None.
Proof. apply (folded_name_whole (47%N :: replicate 300 97%N)). vm_compute. lia. Defined.

(** Where reversing stops: a path with a character that is not ASCII decodes to another path,
    and the directory /root has the name of the root directory. *)
Lemma path_decode_limits :
  decode_filename_to_path (encode_path_for_filename [47; 233]%N) = Some [47; 195; 169]%N
  /\ encode_path_for_filename root_home = encode_path_for_filename root_dir
  /\ decode_filename_to_path (encode_path_for_filename root_home) = Some root_dir.
Proof. by vm_compute. Qed.

(** A trailing separator is kept, as an underscore. *)
Lemma trailing_separator_differs :
  encode_path_for_filename [47; 97; 47; 98; 47]%N <> encode_path_for_filename [47; 97; 47; 98]%N.
Proof. by vm_compute. Qed.
