(* ===== verification/WrapMachine.v ===== *)
(** * The wrap machine

    Models crates/fresh-editor-core/src/wrap_machine.rs, which decides where visual rows
    end, with [visual_width], [tab_expansion_width] and [wrap_str_to_width] of
    primitives/visual_layout.rs, the escape-sequence state of [AnsiParser] of
    primitives/ansi.rs, and the view tokens of crates/fresh-core/src/api.rs.

    Texts are their UTF-8 bytes.  The crates unicode-segmentation and unicode-width are
    parameters: [graphemes] cuts a text into its grapheme clusters, [word_bounds] gives
    the offsets of its word boundaries, [char_width] and [str_width] are display widths.
    Styles are carried along unread.  The loop of [split_text] takes fuel; running out of
    it is [Panic], and so is the unwrapping of a missing character in the escape parser. *)
From stdpp Require Import base numbers list option.
From Stdlib Require Import ssreflect Strings.Byte NArith.
From S2P Require Import Prelude TextSpec Utf8.

Inductive ViewTokenWireKind :=
| Text (text : list byte)
| Newline
| Space
| Break
| BinaryByte (b : N).

Record ViewTokenWire {Style : Type} := mkToken {
  vt_source_offset : option nat; vt_kind : ViewTokenWireKind; vt_style : option Style;
}.
Arguments ViewTokenWire : clear implicits.
Arguments mkToken {Style}.

Definition MIN_CONTINUATION_CONTENT_WIDTH : nat := 10.
Definition MAX_LOOKBACK : nat := 16.
Definition TAB_WIDTH : nat := 8.

Definition tab_expansion_width (col : nat) : nat := TAB_WIDTH - col mod TAB_WIDTH.

Inductive WrapRule :=
| Word (content_width gutter_width : nat) (hanging : bool)
| Grid (cols : nat)
| Chop (chars : nat).

Definition available_width (r : WrapRule) : nat :=
  match r with
  | Word content_width gutter_width _ => content_width - gutter_width
  | Grid cols => cols
  | Chop chars => chars
  end.

Definition is_degenerate (r : WrapRule) : bool :=
  match r with Word _ _ _ => available_width r <? 2 | _ => false end.

Definition hanging_indent (r : WrapRule) : bool :=
  match r with Word _ _ hanging => hanging | _ => false end.

Record RowCarry := mkRowCarry {
  rc_line_indent : nat; rc_on_continuation : bool; rc_ansi_in_escape : bool; rc_chars_in_row : nat;
}.

Definition carry_default : RowCarry := mkRowCarry 0 false false 0.

Record RowInfo := mkRowInfo {
  ri_source_byte : option nat; ri_carry : RowCarry; ri_token_start : nat; ri_token_end : nat;
}.

(** ** The escape-sequence parser, without the styles it computes *)
Record AnsiParser := mkAnsi { escape_buffer : list N; in_escape : bool }.

Definition ansi_new : AnsiParser := mkAnsi [] false.
Definition set_in_escape (p : AnsiParser) (b : bool) : AnsiParser := mkAnsi (escape_buffer p) b.
Definition ansi_reset (p : AnsiParser) : AnsiParser := ansi_new.

Definition is_ascii_alphabetic (c : N) : bool :=
  ((65 <=? c) && (c <=? 90) || (97 <=? c) && (c <=? 122))%N.

Definition starts_with (buf prefix : list N) : bool := bool_decide (take (length prefix) buf = prefix).
Definition ends_with_chars (buf suffix : list N) : bool :=
  bool_decide (drop (length buf - length suffix) buf = suffix).

(** The length of a string is that of its bytes. *)
Definition is_escape_complete (p : AnsiParser) : bool :=
  let buf := escape_buffer p in
  let len := length (encode_all buf) in
  if len <? 2 then false
  else if starts_with buf [27; 91]%N then
    match list.last buf with Some c => is_ascii_alphabetic c | None => false end
  else if starts_with buf [27; 93]%N then ends_with_chars buf [7]%N || ends_with_chars buf [27; 92]%N
  else if len =? 2 then
    match buf !! 1 with Some c => negb ((c =? 91) || (c =? 93))%N | None => false end
  else 32 <? len.

(** [second_char_missing]: two bytes that are one character, which [is_escape_complete]
    unwraps the second character of.  Only a parser that was put inside an escape without
    its introducer gets there. *)
Definition second_char_missing (buf : list N) : bool :=
  (length (encode_all buf) =? 2) && bool_decide (buf !! 1 = None).

(** [parse_char]: the new state and whether the character is displayed. *)
Definition parse_char (p : AnsiParser) (ch : N) : AnsiParser * bool :=
  if in_escape p then
    let p := mkAnsi (escape_buffer p ++ [ch]) true in
    (if is_escape_complete p then mkAnsi [] false else p, false)
  else if (ch =? 27)%N then (mkAnsi [ch] true, false)
  else (p, true).

(** A call of [parse_char] that unwraps a missing character. *)
Definition parse_panics (p : AnsiParser) (ch : N) : bool :=
  in_escape p && second_char_missing (escape_buffer p ++ [ch]).

Definition contains_ansi_codes (text : list byte) : bool := bool_decide (x1b ∈ text).

Section machine.
Context {Style : Type}.
Context (graphemes : list byte -> list (list byte)) (word_bounds : list byte -> list nat).
Context (char_width : N -> nat) (str_width : list byte -> nat) (usize_max : nat).

Local Abbreviation Token := (ViewTokenWire Style).

(** ** Widths *)
Fixpoint visual_width_loop (chars : list N) (p : AnsiParser) (col : nat) : nat :=
  match chars with
  | [] => col
  | ch :: chars =>
      let '(p, visible) := parse_char p ch in
      if negb visible then visual_width_loop chars p col
      else visual_width_loop chars p (col + if (ch =? 9)%N then tab_expansion_width col else char_width ch)
  end.

Definition visual_width (s : list byte) (start_col : nat) : nat :=
  if negb (contains_ansi_codes s) && negb (bool_decide (x09 ∈ s)) then str_width s
  else visual_width_loop (from_utf8_lossy s) ansi_new start_col - start_col.

Definition grapheme_width (g : list byte) (col : nat) : nat :=
  if decide (g = [x09]) then tab_expansion_width col else str_width g.

(** ** State *)
Record WrapOutput := mkWrapOutput { wo_tokens : list Token; wo_rows : list RowInfo }.

Record WrapMachine := mkMachine {
  m_rule : WrapRule; m_line_indent : nat; m_on_continuation : bool; m_measuring_indent : bool;
  m_chars_in_row : nat; m_col : nat; m_ansi : AnsiParser;
  m_out : list Token; m_rows : list RowInfo;
  m_row_tokens : list Token; m_row_source_byte : option nat;
  m_row_token_start : nat; m_row_carry : RowCarry;
}.

Definition NO_WRAP : nat := usize_max / 4.

Definition break_token : Token := mkToken None Break None.
Definition indent_token (width : nat) : Token := mkToken None (Text (replicate width x20)) None.

Definition with_indent (m : WrapMachine) (line_indent : nat) (measuring : bool) : WrapMachine :=
  mkMachine (m_rule m) line_indent (m_on_continuation m) measuring (m_chars_in_row m) (m_col m) (m_ansi m)
    (m_out m) (m_rows m) (m_row_tokens m) (m_row_source_byte m) (m_row_token_start m) (m_row_carry m).

Definition with_col (m : WrapMachine) (col : nat) : WrapMachine :=
  mkMachine (m_rule m) (m_line_indent m) (m_on_continuation m) (m_measuring_indent m) (m_chars_in_row m) col (m_ansi m)
    (m_out m) (m_rows m) (m_row_tokens m) (m_row_source_byte m) (m_row_token_start m) (m_row_carry m).

Definition with_ansi (m : WrapMachine) (p : AnsiParser) : WrapMachine :=
  mkMachine (m_rule m) (m_line_indent m) (m_on_continuation m) (m_measuring_indent m) (m_chars_in_row m) (m_col m) p
    (m_out m) (m_rows m) (m_row_tokens m) (m_row_source_byte m) (m_row_token_start m) (m_row_carry m).

Definition with_continuation (m : WrapMachine) (on_continuation : bool) (chars_in_row : nat) : WrapMachine :=
  mkMachine (m_rule m) (m_line_indent m) on_continuation (m_measuring_indent m) chars_in_row (m_col m) (m_ansi m)
    (m_out m) (m_rows m) (m_row_tokens m) (m_row_source_byte m) (m_row_token_start m) (m_row_carry m).

Definition with_row (m : WrapMachine) (tokens : list Token) (source_byte : option nat) : WrapMachine :=
  mkMachine (m_rule m) (m_line_indent m) (m_on_continuation m) (m_measuring_indent m) (m_chars_in_row m) (m_col m) (m_ansi m)
    (m_out m) (m_rows m) tokens source_byte (m_row_token_start m) (m_row_carry m).

Definition with_row_carry (m : WrapMachine) (carry : RowCarry) : WrapMachine :=
  mkMachine (m_rule m) (m_line_indent m) (m_on_continuation m) (m_measuring_indent m) (m_chars_in_row m) (m_col m) (m_ansi m)
    (m_out m) (m_rows m) (m_row_tokens m) (m_row_source_byte m) (m_row_token_start m) carry.

(** [RowAccum::push] *)
Definition row_push (m : WrapMachine) (token : Token) : WrapMachine :=
  with_row m (m_row_tokens m ++ [token])
    match m_row_source_byte m with Some b => Some b | None => vt_source_offset token end.

Fixpoint row_push_all (m : WrapMachine) (tokens : list Token) : WrapMachine :=
  match tokens with [] => m | t :: tokens => row_push_all (row_push m t) tokens end.

Definition carry (m : WrapMachine) : RowCarry :=
  mkRowCarry (m_line_indent m) (m_on_continuation m) (in_escape (m_ansi m)) (m_chars_in_row m).

Definition resume (rule : WrapRule) (c : RowCarry) : WrapMachine :=
  let machine :=
    mkMachine rule (rc_line_indent c) (rc_on_continuation c) (hanging_indent rule && negb (rc_on_continuation c))
      (rc_chars_in_row c) (if rc_on_continuation c then rc_line_indent c else 0)
      (set_in_escape ansi_new (rc_ansi_in_escape c)) [] [] [] None 0 c in
  if rc_on_continuation c && (0 <? rc_line_indent c) then row_push machine (indent_token (rc_line_indent c))
  else machine.

Definition machine_new (rule : WrapRule) : WrapMachine := resume rule carry_default.

Definition close_row (m : WrapMachine) (final_row : bool) : WrapMachine :=
  if final_row && bool_decide (m_row_tokens m = []) && negb (bool_decide (m_rows m = [])) then m else
  let out := m_out m ++ m_row_tokens m in
  mkMachine (m_rule m) (m_line_indent m) (m_on_continuation m) (m_measuring_indent m) (m_chars_in_row m) (m_col m) (m_ansi m)
    out (m_rows m ++ [mkRowInfo (m_row_source_byte m) (m_row_carry m) (m_row_token_start m) (length out)])
    [] None (length out) (carry m).

Definition emit_break (m : WrapMachine) (indent : bool) : WrapMachine :=
  let m := with_continuation (row_push m break_token) true 0 in
  let m := with_col (close_row m false) 0 in
  if indent && (0 <? m_line_indent m)
  then with_col (row_push m (indent_token (m_line_indent m))) (m_line_indent m)
  else m.

(** ** Word rule *)

(** The leading blanks of a text: how many characters and columns. *)
Fixpoint leading_blanks (chars : list N) (line_indent ws_chars ws_width : nat) : nat * nat :=
  match chars with
  | c :: chars =>
      if (c =? 32)%N then leading_blanks chars line_indent (ws_chars + 1) (ws_width + 1)
      else if (c =? 9)%N
      then leading_blanks chars line_indent (ws_chars + 1) (ws_width + tab_expansion_width (line_indent + ws_width))
      else (ws_chars, ws_width)
  | [] => (ws_chars, ws_width)
  end.

Definition clamp_indent (line_indent eff : nat) : nat :=
  if eff <? line_indent + MIN_CONTINUATION_CONTENT_WIDTH then 0 else line_indent.

Definition measure_indent (m : WrapMachine) (text : list byte) (eff : nat) : WrapMachine :=
  let chars := from_utf8_lossy text in
  let '(ws_chars, ws_width) := leading_blanks chars (m_line_indent m) 0 0 in
  with_indent m (clamp_indent (m_line_indent m + ws_width) eff)
    (if ws_chars =? length chars then m_measuring_indent m else false).

(** [grapheme_indices]: every cluster with its offset. *)
Fixpoint indices_from (off : nat) (gs : list (list byte)) : list (nat * list byte) :=
  match gs with [] => [] | g :: gs => (off, g) :: indices_from (off + length g) gs end.

Definition row_floor (eff : nat) : nat := Nat.max (eff - MAX_LOOKBACK) (eff / 2).

(** The offset of cluster [i], the end of the text past the last one. *)
Definition offset_at (gs : list (nat * list byte)) (text : list byte) (i : nat) : nat :=
  match gs !! i with Some (off, _) => off | None => length text end.

(** The chunk of clusters that fits, as its width and number. *)
Fixpoint fit_chunk (gs : list (nat * list byte)) (remaining : nat) (row_has_content : bool)
    (chunk_w chunk_n col : nat) : nat * nat :=
  match gs with
  | [] => (chunk_w, chunk_n)
  | (_, g) :: gs =>
      let gw := grapheme_width g col in
      if (remaining <? chunk_w + gw) && ((0 <? chunk_n) || row_has_content) then (chunk_w, chunk_n)
      else fit_chunk gs remaining row_has_content (chunk_w + gw) (chunk_n + 1) (col + gw)
  end.

Fixpoint chunk_width (gs : list (nat * list byte)) (col : nat) : nat :=
  match gs with
  | [] => 0
  | (_, g) :: gs => let w := grapheme_width g col in w + chunk_width gs (col + w)
  end.

Definition prefer_word_boundary (m : WrapMachine) (gs : list (nat * list byte)) (bounds : list nat)
    (wb_lo idx chunk_n eff : nat) (text : list byte) : nat * option nat :=
  let slice_start := offset_at gs text idx in
  let slice_end_hard := offset_at gs text (idx + chunk_n) in
  let floor_from_cursor := row_floor eff - m_col m in
  let floor_byte := if floor_from_cursor <? chunk_n then offset_at gs text (idx + floor_from_cursor) else slice_end_hard in
  let wb_lo := wb_lo + partition_point (fun b => b <=? slice_start) (drop wb_lo bounds) in
  let in_slice := take (partition_point (fun b => b <=? slice_end_hard) (drop wb_lo bounds)) (drop wb_lo bounds) in
  let best := snd <$> list_find (fun b => floor_byte <= b) (reverse in_slice) in
  let end_byte := length text in
  let best :=
    if (slice_start <? end_byte) && (floor_byte <=? end_byte) && (end_byte <=? slice_end_hard)
    then Some match best with Some b => Nat.max b end_byte | None => end_byte end
    else best in
  (wb_lo,
   target ← best;
   new_count ← fst <$> list_find (fun g => g.1 = target) (drop idx gs);
   if (0 <? new_count) && (new_count <? chunk_n) then Some new_count else None).

Fixpoint split_loop (fuel : nat) (m : WrapMachine) (token : Token) (text : list byte)
    (gs : list (nat * list byte)) (bounds : list nat) (wb_lo idx eff : nat) : res WrapMachine :=
  if length gs <=? idx then Ok m else
  match fuel with
  | 0 => Panic
  | S fuel =>
      let remaining := eff - m_col m in
      if remaining =? 0 then split_loop fuel (emit_break m true) token text gs bounds wb_lo idx eff else
      let row_has_content := m_line_indent m <? m_col m in
      let '(chunk_w, chunk_n) := fit_chunk (drop idx gs) remaining row_has_content 0 0 (m_col m) in
      if (chunk_n =? 0) && row_has_content
      then split_loop fuel (emit_break m true) token text gs bounds wb_lo idx eff
      else
        let '(chunk_w, chunk_n) :=
          if chunk_n =? 0 then (chunk_width (take 1 (drop idx gs)) (m_col m), 1) else (chunk_w, chunk_n) in
        let '(wb_lo, shrunk) :=
          if 1 <? chunk_n then prefer_word_boundary m gs bounds wb_lo idx chunk_n eff text else (wb_lo, None) in
        let '(chunk_w, chunk_n) :=
          match shrunk with
          | Some n => (chunk_width (take n (drop idx gs)) (m_col m), n)
          | None => (chunk_w, chunk_n)
          end in
        let start_byte := offset_at gs text idx in
        let end_byte := offset_at gs text (idx + chunk_n) in
        let m := row_push m (mkToken ((fun b => b + start_byte) <$> vt_source_offset token)
                   (Text (take (end_byte - start_byte) (drop start_byte text))) (vt_style token)) in
        let m := with_col m (m_col m + chunk_w) in
        let m := match shrunk with Some _ => emit_break m true | None => m end in
        split_loop fuel m token text gs bounds wb_lo (idx + chunk_n) eff
  end.

Definition split_text (m : WrapMachine) (token : Token) (text : list byte) (eff : nat) : res WrapMachine :=
  let gs := indices_from 0 (graphemes text) in
  split_loop (2 * length gs) m token text gs (word_bounds text) 0 0 eff.

Definition feed_word_text (m : WrapMachine) (token : Token) (text : list byte) (eff : nat) : res WrapMachine :=
  let m := if m_measuring_indent m then measure_indent m text eff else m in
  let text_w := visual_width text (m_col m) in
  let fresh_capacity := eff - m_line_indent m in
  let '(m, text_w) :=
    if (m_line_indent m <? m_col m) && (eff <? m_col m + text_w)
       && ((text_w <=? fresh_capacity) || (row_floor eff <=? m_col m))
    then let m := emit_break m true in (m, visual_width text (m_col m))
    else (m, text_w) in
  if (eff <? m_col m + text_w) && negb (contains_ansi_codes text) then split_text m token text eff
  else Ok (with_col (row_push m token) (m_col m + text_w)).

(** Where the row's last word starts and how wide it is, if it can move to the next row. *)
Fixpoint last_space (toks : list Token) (i : nat) (found : option nat) : option nat :=
  match toks with
  | [] => found
  | t :: toks =>
      last_space toks (S i) match vt_kind t with
                            | Break | Newline => None
                            | Space => Some i
                            | _ => found
                            end
  end.

Fixpoint tail_cols (toks : list Token) (col : nat) : option nat :=
  match toks with
  | [] => Some col
  | t :: toks =>
      match vt_kind t with
      | Text s => tail_cols toks (col + visual_width s col)
      | Space => tail_cols toks (col + 1)
      | BinaryByte _ => tail_cols toks (col + 4)
      | _ => None
      end
  end.

Definition is_space (t : Token) : bool := match vt_kind t with Space => true | _ => false end.

Definition back_up_plan (m : WrapMachine) (eff : nat) : option (nat * nat) :=
  let toks := m_row_tokens m in
  space_idx ← last_space toks 0 None;
  let tail_start := space_idx + 1 in
  if length toks <=? tail_start then None else
  if forallb is_space (take space_idx toks) then None else
  col ← tail_cols (drop tail_start toks) (m_line_indent m);
  let tail_width := col - m_line_indent m in
  if m_line_indent m + tail_width <=? eff then Some (tail_start, tail_width) else None.

Definition first_source (toks : list Token) : option nat := head (omap vt_source_offset toks).

Definition space_overflow (m : WrapMachine) (eff : nat) : WrapMachine :=
  match back_up_plan m eff with
  | None => emit_break m true
  | Some (tail_start, tail_width) =>
      let tail := drop tail_start (m_row_tokens m) in
      let kept := take tail_start (m_row_tokens m) in
      let m := emit_break (with_row m kept (first_source kept)) true in
      let m := row_push_all m tail in
      with_col m (m_col m + tail_width)
  end.

Definition feed_word (m : WrapMachine) (token : Token) : res WrapMachine :=
  let eff := if is_degenerate (m_rule m) then NO_WRAP else available_width (m_rule m) in
  match vt_kind token with
  | Newline =>
      let m := with_col (close_row (row_push m token) false) 0 in
      let m := with_continuation (with_indent m 0 (hanging_indent (m_rule m))) false (m_chars_in_row m) in
      Ok (with_row_carry m (carry m))
  | Break => Ok (emit_break m true)
  | Space =>
      let m := if m_measuring_indent m
               then with_indent m (clamp_indent (m_line_indent m + 1) eff) (m_measuring_indent m) else m in
      let m := if eff <? m_col m + 1 then space_overflow m eff else m in
      Ok (with_col (row_push m token) (m_col m + 1))
  | BinaryByte _ =>
      let m := with_indent m (m_line_indent m) false in
      let m := if (m_line_indent m <? m_col m) && (eff <? m_col m + 4) then emit_break m true else m in
      Ok (with_col (row_push m token) (m_col m + 4))
  | Text text => feed_word_text m token text eff
  end.

(** ** Grid rule *)
Fixpoint parse_chars (p : AnsiParser) (chars : list N) : res AnsiParser :=
  match chars with
  | [] => Ok p
  | c :: chars => if parse_panics p c then Panic else parse_chars (parse_char p c).1 chars
  end.

Definition sub_token (token : Token) (text : list byte) (start end_ : nat) : Token :=
  mkToken ((fun s => s + start) <$> vt_source_offset token) (Text (take (end_ - start) (drop start text))) (vt_style token).

Fixpoint grid_loop (m : WrapMachine) (token : Token) (text : list byte) (gs : list (nat * list byte))
    (cols seg_start : nat) : res (WrapMachine * nat) :=
  match gs with
  | [] => Ok (m, seg_start)
  | (byte_offset, g) :: gs =>
      let chars := from_utf8_lossy g in
      let first := default 0%N (head chars) in
      if parse_panics (m_ansi m) first then Panic else
      let '(p, visible) := parse_char (m_ansi m) first in
      if negb visible
      then p ← parse_chars p (tail chars); grid_loop (with_ansi m p) token text gs cols seg_start
      else
        let m := with_ansi m p in
        let width := grapheme_width g (m_col m) in
        if (0 <? m_col m) && (cols <? m_col m + width) then
          let '(m, seg_start) :=
            if seg_start <? byte_offset
            then (row_push m (sub_token token text seg_start byte_offset), byte_offset)
            else (m, seg_start) in
          let m := emit_break m false in
          let width := grapheme_width g (m_col m) in
          grid_loop (with_col m (m_col m + width)) token text gs cols seg_start
        else grid_loop (with_col m (m_col m + width)) token text gs cols seg_start
  end.

Definition feed_grid_text (m : WrapMachine) (token : Token) (text : list byte) (cols : nat) : res WrapMachine :=
  '(m, seg_start) ← grid_loop m token text (indices_from 0 (graphemes text)) cols 0;
  Ok (if seg_start =? 0 then row_push m token
      else if seg_start <? length text then row_push m (sub_token token text seg_start (length text))
      else m).

Definition feed_grid (m : WrapMachine) (token : Token) : res WrapMachine :=
  let cols := available_width (m_rule m) in
  if cols =? 0 then Ok (row_push m token) else
  match vt_kind token with
  | Newline =>
      let m := with_col (close_row (row_push m token) false) 0 in
      let m := with_ansi m (ansi_reset (m_ansi m)) in
      Ok (with_row_carry m (carry m))
  | Break => Ok (with_col (close_row (row_push m token) false) 0)
  | Space =>
      let m := if (0 <? m_col m) && (cols <? m_col m + 1) then emit_break m false else m in
      Ok (with_col (row_push m token) (m_col m + 1))
  | BinaryByte _ =>
      let m := if (0 <? m_col m) && (cols <? m_col m + 4) then emit_break m false else m in
      Ok (with_col (row_push m token) (m_col m + 4))
  | Text text => feed_grid_text m token text cols
  end.

(** ** Chop rule *)
Fixpoint chop_loop (m : WrapMachine) (token : Token) (chars : list N) (limit : nat) (buf : list byte)
    (buf_start emitted : nat) : WrapMachine :=
  match chars with
  | [] =>
      if decide (buf = []) then m
      else row_push m (mkToken ((fun s => s + buf_start) <$> vt_source_offset token) (Text buf) (vt_style token))
  | ch :: chars =>
      let '(m, buf, buf_start) :=
        if limit <=? m_chars_in_row m then
          let m := if decide (buf = []) then m
                   else row_push m (mkToken ((fun s => s + buf_start) <$> vt_source_offset token) (Text buf) (vt_style token)) in
          (emit_break m false, [], emitted)
        else (m, buf, buf_start) in
      let m := with_continuation m (m_on_continuation m) (m_chars_in_row m + 1) in
      chop_loop m token chars limit (buf ++ encode_utf8 ch) buf_start (emitted + length (encode_utf8 ch))
  end.

Definition feed_chop (m : WrapMachine) (token : Token) : WrapMachine :=
  let limit := available_width (m_rule m) in
  match vt_kind token with
  | Newline =>
      let m := close_row (row_push m token) false in
      let m := with_continuation m (m_on_continuation m) 0 in
      with_row_carry m (carry m)
  | Break =>
      let m := close_row (row_push m token) false in
      with_continuation m (m_on_continuation m) 0
  | Text text => chop_loop m token (from_utf8_lossy text) limit [] 0 0
  | _ =>
      let m := if limit <=? m_chars_in_row m then emit_break m false else m in
      let m := row_push m token in
      with_continuation m (m_on_continuation m) (m_chars_in_row m + 1)
  end.

(** ** Runs *)
Definition feed (m : WrapMachine) (token : Token) : res WrapMachine :=
  match m_rule m with
  | Grid _ => feed_grid m token
  | Chop _ => Ok (feed_chop m token)
  | Word _ _ _ => feed_word m token
  end.

Definition finish (m : WrapMachine) : WrapOutput :=
  let m := close_row m true in mkWrapOutput (m_out m) (m_rows m).

Fixpoint feed_all (m : WrapMachine) (tokens : list Token) : res WrapMachine :=
  match tokens with
  | [] => Ok m
  | t :: tokens => m ← feed m t; feed_all m tokens
  end.

Definition run_from (tokens : list Token) (rule : WrapRule) (c : RowCarry) : res WrapOutput :=
  m ← feed_all (resume rule c) tokens; Ok (finish m).

Definition run (tokens : list Token) (rule : WrapRule) : res WrapOutput := run_from tokens rule carry_default.

(** ** The driver for plain strings *)
Fixpoint ranges_from (starts : list nat) (end_ : nat) : list (nat * nat) :=
  match starts with
  | [] => []
  | s :: starts => (s, default end_ (head starts)) :: ranges_from starts end_
  end.

Definition wrap_str_to_width (text : list byte) (wrap_width : nat) : res (list (nat * nat)) :=
  if decide (text = []) then Ok [] else
  if wrap_width =? 0 then Ok [(0, length text)] else
  out ← run [mkToken (Some 0) (Text text) None] (Word wrap_width 0 false);
  let starts := omap ri_source_byte (wo_rows out) in
  Ok match starts with [] => [(0, length text)] | _ => ranges_from starts (length text) end.
End machine.
