(* ===== verification/WrapInv.v ===== *)
(** * Wrapping keeps the content

    Whatever the rule, a run ends, and its output is its input with breaks and indents
    added: every byte of the source, and every newline, space and binary byte, comes out
    once, in order, at its source offset; and the rows are the output cut after each
    break or newline. *)
From stdpp Require Import base numbers list option.
From Stdlib Require Import ssreflect Strings.Byte NArith.
From S2P Require Import Prelude TextSpec Utf8 WrapMachine.

(** ** Content *)
Inductive atom := CByte (b : byte) | CNewline | CSpace | CBinary (b : N).

(** Two machines of the same rows, one of them behind a closed row. *)
Ltac same_rows m := repeat split; first [done | cbn; by destruct (m_rows m)].

Section wrap.
Context {Style : Type}.
Local Abbreviation Token := (ViewTokenWire Style).
Local Abbreviation Machine := (WrapMachine (Style := Style)).

(** What a row shows, with its source offset and style. *)
Definition cell : Type := option nat * option Style * atom.

Fixpoint text_cells (off : option nat) (style : option Style) (s : list byte) : list cell :=
  match s with [] => [] | b :: s => (off, style, CByte b) :: text_cells (S <$> off) style s end.

Lemma text_cells_app off style s t :
  text_cells off style (s ++ t) = text_cells off style s ++ text_cells ((fun b => b + length s) <$> off) style t.
Proof.
  revert off. induction s as [|b s IH]; intros off; cbn [app text_cells].
  - destruct off as [off|]; [|done]. cbn. by rw Nat.add_0_r.
  - rw IH. destruct off as [off|]; [|done]. cbn. by rw -Nat.add_succ_r.
Qed.

Definition token_cells (t : Token) : list cell :=
  match vt_kind t with
  | Text s => text_cells (vt_source_offset t) (vt_style t) s
  | Newline => [(vt_source_offset t, vt_style t, CNewline)]
  | Space => [(vt_source_offset t, vt_style t, CSpace)]
  | BinaryByte b => [(vt_source_offset t, vt_style t, CBinary b)]
  | Break => []
  end.

(** The tokens a wrap may add: breaks, and indents of spaces that no source has. *)
Definition layout (t : Token) : Prop := t = break_token \/ exists n, t = indent_token n.

(** [content ts cs]: without tokens that a wrap may add, [ts] shows [cs]. *)
Inductive content : list Token -> list cell -> Prop :=
| content_nil : content [] []
| content_token t ts cs : content ts cs -> content (t :: ts) (token_cells t ++ cs)
| content_layout t ts cs : layout t -> content ts cs -> content (t :: ts) cs.

Lemma content_app a b x y : content a x -> content b y -> content (a ++ b) (x ++ y).
Proof.
  induction 1 as [|t ts cs _ IH|t ts cs Ht _ IH]; intros H; cbn [app]; [done|rw -app_assoc; constructor; auto|].
  apply content_layout; auto.
Qed.

Lemma content_split a b cs : content (a ++ b) cs -> exists x y, cs = x ++ y /\ content a x /\ content b y.
Proof.
  revert cs. induction a as [|t a IH]; intros cs H; [exists [], cs; split_and!; [done|constructor|done]|].
  inversion H as [|? ? cs' H'|? ? ? Ht H']; subst; destruct (IH _ H') as (x & y & -> & Hx & Hy).
  - exists (token_cells t ++ x), y. split_and!; [by rw app_assoc|by constructor|done].
  - exists x, y. split_and!; [done|by apply content_layout|done].
Qed.

Lemma content_one t : content [t] (token_cells t).
Proof. rw -(app_nil_r (token_cells t)). constructor. constructor. Qed.

Lemma content_one_layout t : layout t -> content [t] [].
Proof. intros Ht. apply content_layout; [done|constructor]. Qed.

Lemma content_all ts : content ts (ts ≫= token_cells).
Proof. induction ts as [|t ts IH]; [constructor|]. cbn. by constructor. Qed.

(** ** Rows *)
Definition ends_row (t : Token) : bool := match vt_kind t with Break | Newline => true | _ => false end.

(** The reference: cut after every break and newline; nothing after the last is no row. *)
Fixpoint cut_rows (ts : list Token) : list (list Token) :=
  match ts with
  | [] => []
  | t :: ts =>
      if ends_row t then [t] :: cut_rows ts
      else match cut_rows ts with [] => [[t]] | r :: rs => (t :: r) :: rs end
  end.

Lemma cut_rows_closed body t ts :
  Forall (fun t => ends_row t = false) body -> ends_row t = true ->
  cut_rows (body ++ t :: ts) = (body ++ [t]) :: cut_rows ts.
Proof.
  intros Hb Ht. induction Hb as [|x body Hx _ IH]; cbn [app cut_rows]; [by rw Ht|]. by rw Hx IH.
Qed.

Lemma cut_rows_open body :
  Forall (fun t => ends_row t = false) body -> cut_rows body = match body with [] => [] | _ => [body] end.
Proof.
  induction 1 as [|x body Hx Hb IH]; [done|]. cbn [cut_rows]. rw Hx IH. by destruct body.
Qed.

(** The tokens of a row of the output. *)
Definition row_slice (ts : list Token) (r : RowInfo) : list Token :=
  take (ri_token_end r - ri_token_start r) (drop (ri_token_start r) ts).

(** [rows] describes [rs], consecutive slices of the tokens from position [start] on. *)
Fixpoint describes (start : nat) (rows : list RowInfo) (rs : list (list Token)) : Prop :=
  match rows, rs with
  | [], [] => True
  | row :: rows, r :: rs =>
      ri_token_start row = start /\ ri_token_end row = start + length r
      /\ ri_source_byte row = first_source r /\ describes (start + length r) rows rs
  | _, _ => False
  end.

Lemma describes_snoc start rows rs row r :
  describes start rows rs ->
  ri_token_start row = start + length (concat rs) -> ri_token_end row = start + length (concat rs) + length r ->
  ri_source_byte row = first_source r ->
  describes start (rows ++ [row]) (rs ++ [r]).
Proof.
  revert start rs. induction rows as [|w rows IH]; intros start [|x rs] H Hs He Hb; try done.
  - simpl in *. rw Nat.add_0_r in Hs, He. by split_and!.
  - destruct H as (H1 & H2 & H3 & H4). cbn [app describes]. split_and!; [done..|].
    simpl in Hs, He. rw length_app in Hs, He. apply IH; [done|lia|lia|done].
Qed.

(** ** The invariant of the bookkeeping *)
Record rows_inv (rs : list (list Token)) (m : Machine) : Prop := {
  wi_out : m_out m = concat rs;
  wi_rows : describes 0 (m_rows m) rs;
  wi_start : m_row_token_start m = length (m_out m);
  wi_source : m_row_source_byte m = first_source (m_row_tokens m);
  wi_closed : Forall (fun r => exists body t, r = body ++ [t] /\ ends_row t = true
                               /\ Forall (fun t => ends_row t = false) body) rs;
  wi_open : Forall (fun t => ends_row t = false) (m_row_tokens m);
}.

(** Everything in the machine, sealed or not. *)
Definition held (m : Machine) : list Token := m_out m ++ m_row_tokens m.

Lemma first_source_snoc toks (t : Token) :
  first_source (toks ++ [t]) = match first_source toks with Some b => Some b | None => vt_source_offset t end.
Proof.
  unfold first_source. rw omap_app. destruct (omap vt_source_offset toks); [|done]. cbn. by destruct (vt_source_offset t).
Qed.

Lemma rows_inv_push rs m t : rows_inv rs m -> ends_row t = false -> rows_inv rs (row_push m t).
Proof.
  intros [H1 H2 H3 H4 H5 H6] Ht. split; cbn [row_push with_row m_out m_rows m_row_token_start m_row_source_byte m_row_tokens]; try done.
  - by rw first_source_snoc -H4.
  - apply Forall_app. split; [done|]. by constructor.
Qed.

(** Closing the row behind a terminator. *)
Lemma rows_inv_close rs m t :
  rows_inv rs m -> ends_row t = true ->
  rows_inv (rs ++ [m_row_tokens m ++ [t]]) (close_row (row_push m t) false).
Proof.
  intros [H1 H2 H3 H4 H5 H6] Ht. unfold close_row.
  split; cbn [andb row_push with_row m_out m_rows m_row_token_start m_row_source_byte m_row_tokens m_row_carry]; try done.
  - by rw H1 concat_app /= app_nil_r.
  - apply describes_snoc; cbn [ri_token_start ri_token_end ri_source_byte]; [done|by rw H3 H1|by rw H1 length_app|].
    by rw first_source_snoc -H4.
  - apply Forall_app. split; [done|]. constructor; [|constructor]. by exists (m_row_tokens m), t.
Qed.

Lemma held_push m t : held (row_push m t) = held m ++ [t].
Proof. unfold held. cbn. by rw app_assoc. Qed.

Lemma held_close m : held (close_row m false) = held m.
Proof. unfold held, close_row. cbn. by rw app_nil_r. Qed.

(** ** What the parts of a step do *)

(** A source offset belongs to content. *)
Definition solid (t : Token) : Prop := vt_source_offset t = None \/ token_cells t <> [].

Context (usize_max : nat).

(** The columns a row of the word rule has. *)
Definition word_width (r : WrapRule) : nat :=
  if is_degenerate r then NO_WRAP usize_max else available_width r.

Definition indent_fits (r : WrapRule) (line_indent : nat) : Prop :=
  match r with
  | Word _ _ _ => line_indent = 0 \/ line_indent + MIN_CONTINUATION_CONTENT_WIDTH <= word_width r
  | _ => True
  end.

(** An escape under way starts with its introducer. *)
Definition escape_begun (p : AnsiParser) : Prop := in_escape p = true -> head (escape_buffer p) = Some 27%N.

(** What a machine needs to go on: an indent that leaves room, for words, and the start of
    the escape it is in, for the grid. *)
Definition fits (m : Machine) : Prop :=
  indent_fits (m_rule m) (m_line_indent m) /\ match m_rule m with Grid _ => escape_begun (m_ansi m) | _ => True end.

(** The carry of the first row, closed or not. *)
Definition first_carry (m : Machine) : RowCarry := match m_rows m with [] => m_row_carry m | r :: _ => ri_carry r end.

(** They add tokens with the given cells and keep the rows; the rule with no columns ends
    no row at a newline. *)
Record extends (m m' : Machine) (cs : list cell) : Prop := {
  ext_rule : m_rule m' = m_rule m;
  ext_content : forall cs0, content (held m) cs0 -> content (held m') (cs0 ++ cs);
  ext_rows : m_rule m <> Grid 0 -> forall rs, rows_inv rs m -> exists rs', rows_inv rs' m';
  ext_first : first_carry m' = first_carry m;
  ext_solid : Forall solid (held m) -> Forall solid (held m');
  ext_fits : fits m -> fits m';
}.

Lemma extends_refl m : extends m m [].
Proof. split; [done|intros cs; by rw app_nil_r|eauto|done|done|done]. Qed.

Lemma extends_chain m1 m2 m3 c1 c2 : extends m1 m2 c1 -> extends m2 m3 c2 -> extends m1 m3 (c1 ++ c2).
Proof.
  intros [R1 C1 I1 F1 S1 N1] [R2 C2 I2 F2 S2 N2].
  split; [by rw R2|intros cs0 H; rw app_assoc; auto| |by rw F2|by auto|by auto].
  intros HG rs H. destruct (I1 HG rs H) as [rs' H']. apply (I2 ltac:(by rw R1) rs' H').
Qed.

Lemma extends_nil m1 m2 m3 cs : extends m1 m2 [] -> extends m2 m3 cs -> extends m1 m3 cs.
Proof. intros H1 H2. apply (extends_chain _ _ _ _ _ H1 H2). Qed.

Lemma extends_then m1 m2 m3 cs : extends m1 m2 cs -> extends m2 m3 [] -> extends m1 m3 cs.
Proof. intros H1 H2. rw -(app_nil_r cs). apply (extends_chain _ _ _ _ _ H1 H2). Qed.

(** Changes of the other fields. *)
Definition same_rows (m m' : Machine) : Prop :=
  m_rule m' = m_rule m /\ m_out m' = m_out m /\ m_rows m' = m_rows m /\ m_row_tokens m' = m_row_tokens m
  /\ m_row_source_byte m' = m_row_source_byte m /\ m_row_token_start m' = m_row_token_start m
  /\ (m_rows m = [] -> m_row_carry m' = m_row_carry m).

Lemma extends_fields m m' :
  same_rows m m' -> (fits m -> fits m') -> extends m m' [].
Proof.
  intros (H0 & H1 & H2 & H3 & H4 & H5 & H6) HN. split; [done|intros cs; unfold held; by rw H1 H3 app_nil_r| | | |done].
  - intros _ rs [I1 I2 I3 I4 I5 I6]. exists rs. split; by rw ?H1 ?H2 ?H3 ?H4 ?H5.
  - unfold first_carry. rw H2. destruct (m_rows m); [by auto|done].
  - unfold held. by rw H1 H3.
Qed.

Lemma extends_same m m' :
  same_rows m m' -> m_line_indent m' = m_line_indent m -> m_ansi m' = m_ansi m -> extends m m' [].
Proof. intros H HN HA. apply extends_fields; [done|]. unfold fits. destruct H as [-> _]. by rw HN HA. Qed.

Lemma extends_row_push m t : ends_row t = false -> solid t -> extends m (row_push m t) (token_cells t).
Proof.
  intros Ht Hs. split; [done|intros cs H; rw held_push; by apply content_app, content_one| |done| |done].
  - intros _ rs H. exists rs. by apply rows_inv_push.
  - intros H. rw held_push. apply Forall_app. split; [done|]. by constructor.
Qed.

Lemma extends_close m t :
  ends_row t = true -> solid t -> extends m (close_row (row_push m t) false) (token_cells t).
Proof.
  intros Ht Hs. split; [done|intros cs H; rw held_close held_push; by apply content_app, content_one| | | |done].
  - intros _ rs H. exists (rs ++ [m_row_tokens m ++ [t]]). by apply rows_inv_close.
  - unfold first_carry, close_row. cbn. by destruct (m_rows m).
  - intros H. rw held_close held_push. apply Forall_app. split; [done|]. by constructor.
Qed.

(** A token the wrap adds. *)
Lemma extends_push_layout m t : ends_row t = false -> layout t -> extends m (row_push m t) [].
Proof.
  intros Ht Hl. split; [done|intros cs H; rw held_push; by apply content_app, content_one_layout| |done| |done].
  - intros _ rs H. exists rs. by apply rows_inv_push.
  - intros H. rw held_push. apply Forall_app. split; [done|]. constructor; [|done]. left. by destruct Hl as [->|[n ->]].
Qed.

Lemma extends_col m col : extends m (with_col m col) [].
Proof. by apply extends_same. Qed.

Lemma extends_push_col m t col cs :
  ends_row t = false -> solid t -> token_cells t = cs -> extends m (with_col (row_push m t) col) cs.
Proof. intros Ht Hs <-. eapply extends_then; [by apply extends_row_push|apply extends_col]. Qed.

Lemma extends_break m indent : extends m (emit_break m indent) [].
Proof.
  unfold emit_break. set (m1 := with_continuation (row_push m break_token) true 0).
  set (m2 := with_col (close_row m1 false) 0).
  assert (extends m m2 []) as H.
  { apply (extends_chain m (close_row (row_push m break_token) false) m2 [] []);
      [apply (extends_close m break_token); [done|by left]|apply extends_same; [same_rows m|done|done]]. }
  destruct (indent && (0 <? m_line_indent m2)); [|done].
  eapply extends_nil; [exact H|]. eapply extends_then; [apply (extends_push_layout m2 (indent_token (m_line_indent m2))); [done|right; by eexists]|apply extends_col].
Qed.

Lemma extends_break_if (b : bool) m indent : extends m (if b then emit_break m indent else m) [].
Proof. destruct b; [apply extends_break|apply extends_refl]. Qed.

Lemma emit_break_rule (m : Machine) indent : m_rule (emit_break m indent) = m_rule m.
Proof. unfold emit_break. by case_match. Qed.

Lemma emit_break_indent (m : Machine) indent : m_line_indent (emit_break m indent) = m_line_indent m.
Proof. unfold emit_break. by case_match. Qed.

Lemma emit_break_col (m : Machine) : m_col (emit_break m true) = m_line_indent m.
Proof. unfold emit_break. cbn. by destruct (m_line_indent m). Qed.

(** ** Slices of a text *)
Lemma text_cells_nil off style s : text_cells off style s = [] -> s = [].
Proof. by destruct s. Qed.

(** A part of a token's text, as a token and as its cells. *)
Definition part_token (token : Token) (start : nat) (s : list byte) : Token :=
  mkToken ((fun b => b + start) <$> vt_source_offset token) (Text s) (vt_style token).

Definition part_cells (token : Token) (start : nat) (s : list byte) : list cell := token_cells (part_token token start s).

Lemma part_token_solid token start s : s <> [] -> solid (part_token token start s).
Proof. intros Hs. right. by intros ?%text_cells_nil. Qed.

Lemma token_cells_text token text : vt_kind token = Text text -> token_cells token = part_cells token 0 text.
Proof.
  intros H. unfold part_cells, token_cells. rw H. cbn. destruct (vt_source_offset token); [|done]. cbn. by rw Nat.add_0_r.
Qed.

Lemma part_cells_app token start s t :
  part_cells token start (s ++ t) = part_cells token start s ++ part_cells token (start + length s) t.
Proof.
  unfold part_cells, token_cells. cbn. rw text_cells_app. destruct (vt_source_offset token); [|done]. cbn. by rw Nat.add_assoc.
Qed.

Lemma part_cells_split token text start end_ :
  start <= end_ -> end_ <= length text ->
  part_cells token start (drop start text)
  = part_cells token start (take (end_ - start) (drop start text)) ++ part_cells token end_ (drop end_ text).
Proof.
  intros H1 H2. rw -{1}(take_drop (end_ - start) (drop start text)) part_cells_app length_take length_drop drop_drop.
  do 2 f_equal; [lia|]. f_equal. lia.
Qed.

(** ** Moving the tail of a row *)
Lemma row_push_all_fields (ts : list Token) : forall m,
  m_rule (row_push_all m ts) = m_rule m /\ m_line_indent (row_push_all m ts) = m_line_indent m
  /\ held (row_push_all m ts) = held m ++ ts
  /\ m_rows (row_push_all m ts) = m_rows m /\ m_row_carry (row_push_all m ts) = m_row_carry m
  /\ m_ansi (row_push_all m ts) = m_ansi m.
Proof.
  induction ts as [|t ts IH]; intros m; [split_and!; [done|done|by rw app_nil_r|done|done|done]|]. cbn [row_push_all].
  destruct (IH (row_push m t)) as (-> & -> & -> & -> & -> & ->). split_and!; [done|done|by rw held_push -app_assoc|done|done|done].
Qed.

Lemma rows_inv_push_all ts : forall rs m,
  rows_inv rs m -> Forall (fun t => ends_row t = false) ts -> rows_inv rs (row_push_all m ts).
Proof.
  induction ts as [|t ts IH]; intros rs m H Ht; [done|]. inversion Ht; subst.
  apply IH; [by apply rows_inv_push|done].
Qed.

Lemma rows_inv_kept rs m n :
  rows_inv rs m -> rows_inv rs (with_row m (take n (m_row_tokens m)) (first_source (take n (m_row_tokens m)))).
Proof. intros [H1 H2 H3 H4 H5 H6]. split; try done. by apply Forall_take. Qed.
End wrap.
