(* ===== verification/WrapKeeps.v ===== *)
(** * The steps of the wrap machine keep the content

    Every rule's step on a token ends and adds exactly the cells of that token. *)
From stdpp Require Import base numbers list option.
From Stdlib Require Import ssreflect Strings.Byte NArith.
From S2P Require Import Prelude TextSpec Utf8 WrapMachine WrapInv.

(** What the machine relies on of the segmentation: the clusters are the text, none empty. *)
Definition segments (graphemes : list byte -> list (list byte)) : Prop :=
  forall s, concat (graphemes s) = s /\ Forall (fun g => g <> []) (graphemes s).

(** ** Offsets of clusters *)
Lemma length_indices gs : forall k, length (indices_from k gs) = length gs.
Proof. induction gs as [|g gs IH]; intros k; [done|]. cbn. by rw IH. Qed.

Lemma offset_at_indices gs text : forall k i,
  k + length (concat gs) = length text ->
  offset_at (indices_from k gs) text i = k + length (concat (take i gs)).
Proof.
  unfold offset_at. induction gs as [|g gs IH]; intros k i H.
  - destruct i; cbn in *; lia.
  - destruct i as [|i]; [cbn; lia|]. cbn [indices_from lookup list_lookup take concat] in *.
    rw length_app in H. rw length_app (IH (k + length g) i); lia.
Qed.

Lemma concat_take_mono (gs : list (list byte)) i n : length (concat (take i gs)) <= length (concat (take (i + n) gs)).
Proof. rw -(take_take_drop gs i n) concat_app length_app. lia. Qed.

Lemma concat_take_le (gs : list (list byte)) i : length (concat (take i gs)) <= length (concat gs).
Proof. rw -{2}(take_drop i gs) concat_app length_app. lia. Qed.

Lemma concat_take_lt (gs : list (list byte)) i n :
  Forall (fun g => g <> []) gs -> i < length gs -> 0 < n ->
  length (concat (take i gs)) < length (concat (take (i + n) gs)).
Proof.
  intros Hne Hi Hn. destruct (lookup_lt_is_Some_2 gs i Hi) as [g Hg].
  apply Nat.lt_le_trans with (length (concat (take (S i) gs))).
  - rw (take_S_r gs i g Hg) concat_app length_app. cbn. rw app_nil_r.
    pose proof (Forall_lookup_1 _ _ _ _ Hne Hg) as Hg0. destruct g; [done|]. cbn. lia.
  - replace (i + n) with (S i + (n - 1)) by lia. apply concat_take_mono.
Qed.

Section word.
Context {Style : Type}.
Local Abbreviation Token := (ViewTokenWire Style).
Local Abbreviation Machine := (WrapMachine (Style := Style)).
Context (char_width : N -> nat) (str_width : list byte -> nat) (usize_max : nat).
Local Abbreviation extends := (extends usize_max).

Lemma extends_space_overflow (m : Machine) eff : extends m (space_overflow char_width str_width m eff) [].
Proof.
  unfold space_overflow. destruct (back_up_plan _ _ m eff) as [[n w]|]; [|apply extends_break].
  set (kept := take n (m_row_tokens m)). set (m1 := with_row m kept (first_source kept)).
  pose proof (extends_break usize_max m1 true) as [B1 B2 B3 B6 B4 B5].
  destruct (row_push_all_fields (drop n (m_row_tokens m)) (emit_break m1 true)) as (P1 & P2 & P3 & P4 & P5 & P6).
  assert (held m = held m1 ++ drop n (m_row_tokens m)) as Hm.
  { unfold held, m1, kept. cbn. by rw -app_assoc take_drop. }
  eapply extends_then; [|apply extends_col]. split.
  - by rw P1 B1.
  - intros cs. rw P3 Hm. intros (x & y & -> & Hx & Hy)%content_split. rw app_nil_r. apply content_app; [|done].
    rw -(app_nil_r x). by apply B2.
  - intros HG rs H. destruct (B3 HG rs (rows_inv_kept rs m n H)) as [rs' H']. exists rs'.
    apply rows_inv_push_all; [done|]. apply Forall_drop, (wi_open _ _ H).
  - unfold first_carry in *. by rw P4 P5.
  - rw P3 Hm. intros [H1 H2]%Forall_app. apply Forall_app. auto.
  - unfold fits in *. rw P1 P2 P6. apply B5.
Qed.

Lemma prefer_word_boundary_pos (m : Machine) gs bounds wb_lo idx chunk_n eff text wb n :
  prefer_word_boundary m gs bounds wb_lo idx chunk_n eff text = (wb, Some n) -> 0 < n.
Proof.
  unfold prefer_word_boundary. intros [= _ H]. apply bind_Some in H as (target & _ & H).
  apply bind_Some in H as (count & _ & H). case_match eqn:E; [|done]. simplify_eq.
  apply andb_true_iff in E as [E _]. by apply Nat.ltb_lt in E.
Qed.

(** What is left of a text from cluster [idx] on. *)
Definition rest_cells (token : Token) (text : list byte) (gs : list (nat * list byte)) (idx : nat) : list cell :=
  part_cells token (offset_at gs text idx) (drop (offset_at gs text idx) text).

(** A chunk of clusters, as a token. *)
Lemma chunk_step token text clusters idx n :
  concat clusters = text -> Forall (fun g => g <> []) clusters -> idx < length clusters -> 0 < n ->
  let gs := indices_from 0 clusters in
  let start := offset_at gs text idx in
  let t := mkToken ((fun b => b + start) <$> vt_source_offset token)
             (Text (take (offset_at gs text (idx + n) - start) (drop start text))) (vt_style token) in
  ends_row t = false /\ solid t /\ rest_cells token text gs idx = token_cells t ++ rest_cells token text gs (idx + n).
Proof.
  intros Hc Hne Hi Hn gs start t.
  assert (forall i, offset_at gs text i = length (concat (take i clusters))) as Ho.
  { intros i. unfold gs. rw offset_at_indices; [by rw Hc|done]. }
  pose proof (concat_take_lt clusters idx n Hne Hi Hn) as Hlt. pose proof (concat_take_le clusters (idx + n)) as Hle.
  rw Hc in Hle. split; [done|]. split.
  - apply part_token_solid. intros E%(f_equal length). unfold start in E.
    rw length_take length_drop !Ho /= in E. lia.
  - unfold rest_cells, start. apply (part_cells_split token text (offset_at gs text idx) (offset_at gs text (idx + n))); rw !Ho; lia.
Qed.

(** A break makes room, so two rounds per cluster are enough. *)
Lemma split_loop_ok token text clusters bounds eff fuel : forall (m : Machine) wb_lo idx,
  concat clusters = text -> Forall (fun g => g <> []) clusters -> m_line_indent m < eff ->
  2 * (length clusters - idx) <= fuel \/ m_col m = m_line_indent m /\ 2 * (length clusters - idx) <= S fuel ->
  exists m', split_loop str_width fuel m token text (indices_from 0 clusters) bounds wb_lo idx eff = Ok m'
    /\ extends m m' (rest_cells token text (indices_from 0 clusters) idx).
Proof.
  induction fuel as [|fuel IH]; intros m wb_lo idx Hc Hne Hroom Hfuel;
    cbn [split_loop]; rw length_indices; destruct (Nat.leb_spec (length clusters) idx) as [Hend|Hidx].
  1,3: exists m; split; [done|]; unfold rest_cells, offset_at;
    rw (lookup_ge_None_2 _ idx); [by rw length_indices|]; rw drop_all;
    apply extends_refl.
  - lia.
  - assert (forall m1, m_line_indent m1 = m_line_indent m -> m_col m1 = m_line_indent m1 ->
      m_col m <> m_line_indent m -> extends m m1 [] -> exists m', split_loop str_width fuel m1 token text (indices_from 0 clusters) bounds wb_lo idx eff = Ok m'
      /\ extends m m' (rest_cells token text (indices_from 0 clusters) idx)) as Hbreak.
    { intros m1 H1 H2 H3 H4. destruct (IH m1 wb_lo idx Hc Hne) as (m' & E & H); [by rw H1|right; split; [done|lia]|].
      exists m'. split; [done|]. eapply extends_nil; [exact H4|exact H]. }
    destruct (Nat.eqb_spec (eff - m_col m) 0) as [H0|H0].
    { apply Hbreak; [apply emit_break_indent|by rw emit_break_col emit_break_indent|lia|apply extends_break]. }
    destruct (fit_chunk _ _ _ _ _ _ _) as [chunk_w chunk_n].
    destruct ((chunk_n =? 0) && (m_line_indent m <? m_col m)) eqn:Hfull.
    { apply andb_true_iff in Hfull as [_ ?%Nat.ltb_lt].
      apply Hbreak; [apply emit_break_indent|by rw emit_break_col emit_break_indent|lia|apply extends_break]. }
    destruct (if chunk_n =? 0 then _ else _) as [w1 n1] eqn:E1.
    assert (0 < n1) as Hn1 by (destruct (Nat.eqb_spec chunk_n 0); simplify_eq; lia).
    destruct (if 1 <? n1 then _ else _) as [wb shrunk] eqn:E2.
    destruct (match shrunk with Some _ => _ | None => _ end) as [w2 n2] eqn:E3.
    assert (0 < n2) as Hn2.
    { destruct shrunk as [n|]; simplify_eq; [|done]. destruct (1 <? n1); [|done]. eapply prefer_word_boundary_pos, E2. }
    destruct (chunk_step token text clusters idx n2 Hc Hne Hidx Hn2) as (Ht1 & Ht2 & Hcells).
    cbv zeta in Ht1, Ht2, Hcells |- *. set (t := mkToken _ _ _) in *. set (m1 := with_col (row_push m t) _).
    set (m2 := match shrunk with Some _ => emit_break m1 true | None => m1 end).
    assert (m_line_indent m2 = m_line_indent m) as Hi2.
    { unfold m2. destruct shrunk; [|done]. by rw emit_break_indent. }
    destruct (IH m2 wb (idx + n2) Hc Hne) as (m' & E & H); [by rw Hi2|left; lia|].
    exists m'. split; [done|]. rw Hcells. eapply extends_chain; [|exact H].
    eapply extends_then; [apply extends_push_col; [exact Ht1|exact Ht2|reflexivity]|]. unfold m2. destruct shrunk; [apply extends_break|apply extends_refl].
Qed.

Context (graphemes : list byte -> list (list byte)) (word_bounds : list byte -> list nat).

(** The valid tokens: their texts are UTF-8, and a source offset belongs to content. *)
Definition valid_token (t : Token) : Prop :=
  solid t /\ match vt_kind t with Text text => from_utf8 text = None | _ => True end.

Lemma indent_room rule line_indent c g h :
  rule = Word c g h -> 4 <= usize_max -> indent_fits usize_max rule line_indent -> line_indent < word_width usize_max rule.
Proof.
  intros -> Hmax. unfold indent_fits, word_width, NO_WRAP, MIN_CONTINUATION_CONTENT_WIDTH.
  pose proof (Nat.Div0.div_le_mono 4 usize_max 4 Hmax) as Hd. change (4 / 4) with 1 in Hd.
  unfold is_degenerate. destruct (Nat.ltb_spec (available_width (Word c g h)) 2); lia.
Qed.

Lemma clamp_fits rule line_indent c g h :
  rule = Word c g h -> indent_fits usize_max rule (clamp_indent line_indent (word_width usize_max rule)).
Proof.
  intros ->. unfold clamp_indent, indent_fits.
  destruct (Nat.ltb_spec (word_width usize_max (Word c g h)) (line_indent + MIN_CONTINUATION_CONTENT_WIDTH)); auto.
Qed.

Lemma extends_indent (m : Machine) line_indent measuring :
  indent_fits usize_max (m_rule m) line_indent -> extends m (with_indent m line_indent measuring) [].
Proof. intros H. apply extends_fields; [done|]. by intros [_ H']. Qed.

Lemma extends_measure (m : Machine) text c g h :
  m_rule m = Word c g h -> extends m (measure_indent m text (word_width usize_max (m_rule m))) [].
Proof.
  intros Hr. unfold measure_indent. destruct (leading_blanks _ _ _ _) as [n w]. eapply extends_indent, clamp_fits, Hr.
Qed.

(** From here to the end of a token's step. *)
Definition steps_to (m : Machine) (r : res Machine) (cs : list cell) : Prop :=
  exists m', r = Ok m' /\ extends m m' cs.

Lemma steps_after m m1 r cs : extends m m1 [] -> steps_to m1 r cs -> steps_to m r cs.
Proof. intros H (m' & E & H'). exists m'. split; [done|]. eapply extends_nil; [exact H|exact H']. Qed.

Lemma feed_word_text_ok (m : Machine) token text c g h :
  m_rule m = Word c g h -> 4 <= usize_max -> segments graphemes -> solid token -> vt_kind token = Text text ->
  fits usize_max m ->
  steps_to m (feed_word_text graphemes word_bounds char_width str_width m token text (word_width usize_max (m_rule m)))
    (token_cells token).
Proof.
  intros Hr Hmax Hseg Hs Hk Hfit. unfold feed_word_text.
  set (m1 := if m_measuring_indent m then _ else m).
  assert (extends m m1 []) as H1 by (unfold m1; case_match; [eapply extends_measure, Hr|apply extends_refl]).
  eapply steps_after; [exact H1|].
  destruct (if _ && _ && _ then _ else _) as [m2 w2] eqn:E2.
  assert (extends m1 m2 []) as H2 by (case_match; simplify_eq; [apply extends_break|apply extends_refl]).
  eapply steps_after; [exact H2|]. clear E2.
  destruct (_ && _).
  - destruct (Hseg text) as [Hc Hne].
    assert (m_line_indent m2 < word_width usize_max (m_rule m)) as Hroom.
    { rw -(ext_rule _ _ _ _ H1) -(ext_rule _ _ _ _ H2). apply (indent_room (m_rule m2) _ c g h); [|done|by apply (ext_fits _ _ _ _ H2), (ext_fits _ _ _ _ H1)].
      by rw (ext_rule _ _ _ _ H2) (ext_rule _ _ _ _ H1). }
    unfold split_text. rw length_indices.
    destruct (split_loop_ok token text (graphemes text) (word_bounds text) _ (2 * length (graphemes text)) m2 0 0 Hc Hne Hroom)
      as (m' & E & H); [lia|].
    exists m'. split; [done|]. rw (token_cells_text _ _ Hk). move: H. unfold rest_cells.
    rw offset_at_indices; [by rw Hc|]. done.
  - eexists. split; [done|]. apply extends_push_col; [|done|done]. unfold ends_row. by rw Hk.
Qed.

Lemma feed_word_ok (m : Machine) token c g h :
  m_rule m = Word c g h -> 4 <= usize_max -> segments graphemes -> solid token ->
  fits usize_max m ->
  steps_to m (feed_word graphemes word_bounds char_width str_width usize_max m token) (token_cells token).
Proof.
  intros Hr Hmax Hseg Hs Hfit. unfold feed_word. fold (word_width usize_max (m_rule m)).
  destruct (vt_kind token) as [text| | | |b] eqn:Hk.
  - by apply (feed_word_text_ok m token text c g h).
  - eexists. split; [done|]. eapply extends_then; [apply extends_close; [unfold ends_row; by rw Hk|done]|].
    apply extends_fields; [same_rows m|]. intros _. split; cbn; rw Hr; [by left|done].
  - eapply (steps_after m (if m_measuring_indent m then _ else m)).
    { instantiate (1 := with_indent m (clamp_indent (m_line_indent m + 1) (word_width usize_max (m_rule m))) (m_measuring_indent m)).
      case_match; [eapply extends_indent, clamp_fits, Hr|apply extends_refl]. }
    set (m1 := if m_measuring_indent m then _ else m).
    set (m2 := if _ <? m_col m1 + 1 then _ else m1).
    assert (extends m1 m2 []) as H2 by (unfold m2; case_match; [apply extends_space_overflow|apply extends_refl]).
    eapply steps_after; [exact H2|]. eexists. split; [done|]. apply extends_push_col; [unfold ends_row; by rw Hk|done|done].
  - assert (token_cells token = []) as -> by (unfold token_cells; by rw Hk).
    eexists. split; [done|]. apply extends_break.
  - eapply steps_after; [apply (extends_indent m (m_line_indent m) false), Hfit|].
    eapply steps_after; [apply extends_break_if|]. eexists. split; [done|].
    apply extends_push_col; [unfold ends_row; by rw Hk|done|done].
Qed.
(** ** The grid rule *)
Lemma sub_token_step (token : Token) text start end_ :
  start < end_ -> end_ <= length text ->
  ends_row (sub_token token text start end_) = false /\ solid (sub_token token text start end_)
  /\ part_cells token start (drop start text)
     = token_cells (sub_token token text start end_) ++ part_cells token end_ (drop end_ text).
Proof.
  intros H1 H2. split; [done|]. split.
  - apply part_token_solid. intros E%(f_equal length). rw length_take length_drop /= in E. lia.
  - unfold sub_token. apply part_cells_split; lia.
Qed.

Lemma escape_head p ch : escape_begun p -> in_escape p = true -> head (escape_buffer p ++ [ch]) = Some 27%N.
Proof. intros H Hp. specialize (H Hp). by destruct (escape_buffer p). Qed.

(** An escape that has begun is never short of a character. *)
Lemma parse_safe p ch : escape_begun p -> parse_panics p ch = false /\ escape_begun (parse_char p ch).1.
Proof.
  intros H. unfold parse_panics, parse_char. destruct (in_escape p) eqn:Hp.
  - pose proof (escape_head p ch H Hp) as Hh. destruct (escape_buffer p ++ [ch]) as [|c buf] eqn:Eb; [done|].
    injection Hh as ->. split.
    + unfold second_char_missing. rw encode_all_cons length_app. destruct buf; [done|]. by rw andb_false_r.
    + case_match; [done|]. by intros _.
  - split; [done|]. destruct (ch =? 27)%N eqn:Ec; [|by intros E; rw /= Hp in E].
    apply N.eqb_eq in Ec as ->. by intros _.
Qed.

Lemma parse_chars_safe chars : forall p, escape_begun p -> exists p', parse_chars p chars = Ok p' /\ escape_begun p'.
Proof.
  induction chars as [|c chars IH]; intros p H; [by exists p|]. cbn [parse_chars].
  destruct (parse_safe p c H) as [-> H']. by apply IH.
Qed.

Lemma extends_ansi (m : Machine) p : escape_begun p -> extends m (with_ansi m p) [].
Proof. intros H. apply extends_fields; [done|]. intros [H1 H2]. split; [done|]. cbn. by destruct (m_rule m). Qed.

Lemma fits_escape (m : Machine) cols : m_rule m = Grid cols -> fits usize_max m -> escape_begun (m_ansi m).
Proof. intros Hr [_ H]. by rw Hr in H. Qed.

Lemma grid_loop_ok token text cols grid clusters : forall (m : Machine) byte seg,
  m_rule m = Grid grid -> fits usize_max m -> byte + length (concat clusters) = length text -> seg <= byte ->
  exists m' seg' cs, grid_loop str_width m token text (indices_from byte clusters) cols seg = Ok (m', seg')
    /\ extends m m' cs /\ seg <= seg' /\ seg' <= length text
    /\ part_cells token seg (drop seg text) = cs ++ part_cells token seg' (drop seg' text).
Proof.
  induction clusters as [|g clusters IH]; intros m byte seg Hr Hfit Hlen Hseg; cbn [indices_from grid_loop].
  { exists m, seg, []. simpl in Hlen. split_and!; [done|apply extends_refl|lia|lia|done]. }
  cbn [concat] in Hlen. rw length_app in Hlen. cbv zeta.
  destruct (parse_safe (m_ansi m) (default 0%N (head (from_utf8_lossy g))) (fits_escape m grid Hr Hfit)) as [-> Hp].
  destruct (parse_char _ _) as [p visible]. cbn [fst] in Hp.
  assert (forall m1 seg1 cs1, extends m m1 cs1 -> seg <= seg1 -> seg1 <= byte + length g ->
    part_cells token seg (drop seg text) = cs1 ++ part_cells token seg1 (drop seg1 text) ->
    exists m' seg' cs, grid_loop str_width m1 token text (indices_from (byte + length g) clusters) cols seg1 = Ok (m', seg')
      /\ extends m m' cs /\ seg <= seg' /\ seg' <= length text
      /\ part_cells token seg (drop seg text) = cs ++ part_cells token seg' (drop seg' text)) as Hgo.
  { intros m1 seg1 cs1 H1 H2 H3 H4.
    destruct (IH m1 (byte + length g) seg1) as (m' & seg' & cs & C0 & C1 & C2 & C3 & C4);
      [by rw (ext_rule _ _ _ _ H1)|by apply (ext_fits _ _ _ _ H1)|lia|lia|].
    exists m', seg', (cs1 ++ cs). split_and!; [done|eapply extends_chain; [exact H1|exact C1]|lia|lia|]. by rw H4 C4 app_assoc. }
  destruct (negb visible).
  { destruct (parse_chars_safe (tail (from_utf8_lossy g)) p Hp) as (p' & -> & Hp').
    apply (Hgo _ seg []); [by apply extends_ansi|lia|lia|done]. }
  destruct (_ && _).
  - destruct (seg <? byte) eqn:Hlt.
    + apply Nat.ltb_lt in Hlt. destruct (sub_token_step token text seg byte Hlt ltac:(lia)) as (T1 & T2 & T3).
      apply (Hgo _ byte (token_cells (sub_token token text seg byte))); [|lia|lia|done].
      eapply extends_then; [|apply extends_col]. eapply extends_then; [|apply extends_break].
      eapply extends_nil; [|by apply extends_row_push]. by apply extends_ansi.
    + apply (Hgo _ seg []); [|lia|lia|done]. eapply extends_then; [|apply extends_col].
      eapply extends_then; [|apply extends_break]. by apply extends_ansi.
  - apply (Hgo _ seg []); [|lia|lia|done]. eapply extends_then; [|apply extends_col]. by apply extends_ansi.
Qed.

Lemma feed_grid_text_ok (m : Machine) token text cols grid :
  m_rule m = Grid grid -> fits usize_max m -> segments graphemes -> solid token -> vt_kind token = Text text ->
  steps_to m (feed_grid_text graphemes str_width m token text cols) (token_cells token).
Proof.
  intros Hr Hfit Hseg Hs Hk. unfold feed_grid_text. destruct (Hseg text) as [Hc Hne].
  destruct (grid_loop_ok token text cols grid (graphemes text) m 0 0 Hr Hfit) as (m' & seg & cs & C0 & C1 & C2 & C3 & C4);
    [by rw Hc|lia|].
  rw C0. cbn [mbind res_bind]. eexists. split; [done|].
  assert (token_cells token = cs ++ part_cells token seg (drop seg text)) as Hcs
    by by rw -C4 (token_cells_text _ _ Hk).
  destruct (Nat.eqb_spec seg 0) as [->|Hne0]; [|destruct (Nat.ltb_spec seg (length text)) as [Hlt|Hge]].
  - rw (token_cells_text _ _ Hk) in Hcs.
    assert (cs = []) as ->.
    { apply (app_inv_tail (part_cells token 0 text)). symmetry. exact Hcs. }
    eapply extends_nil; [exact C1|]. apply extends_row_push; [unfold ends_row; by rw Hk|done].
  - destruct (sub_token_step token text seg (length text) Hlt ltac:(lia)) as (T1 & T2 & T3).
    rw Hcs T3. eapply extends_chain; [exact C1|]. rw drop_all.
    replace (part_cells token (length text) []) with (@nil (cell (Style := Style))) by done.
    rw app_nil_r. by apply extends_row_push.
  - rw Hcs drop_ge; [lia|]. replace (part_cells token seg []) with (@nil (cell (Style := Style))) by done.
    by rw app_nil_r.
Qed.

Lemma extends_push_any (m : Machine) t : m_rule m = Grid 0 -> solid t -> extends m (row_push m t) (token_cells t).
Proof.
  intros Hr Hs. split; [done|intros cs H; rw held_push; by apply content_app, content_one|done|done| |done].
  intros H. rw held_push. apply Forall_app. split; [done|]. by constructor.
Qed.

Lemma feed_grid_ok (m : Machine) token cols :
  m_rule m = Grid cols -> fits usize_max m -> segments graphemes -> solid token ->
  steps_to m (feed_grid graphemes str_width m token) (token_cells token).
Proof.
  intros Hr Hfit Hseg Hs. unfold feed_grid. rw Hr. cbn [available_width].
  destruct (Nat.eqb_spec cols 0) as [->|Hpos]; [eexists; split; [done|]; by apply extends_push_any|].
  destruct (vt_kind token) as [text| | | |b] eqn:Hk; [by apply (feed_grid_text_ok m token text cols cols)|..];
    (eexists; split; [done|]).
  2,4: eapply extends_nil; [apply extends_break_if|]; apply extends_push_col; [unfold ends_row; by rw Hk|done|done].
  - eapply extends_then; [apply extends_close; [unfold ends_row; by rw Hk|done]|].
    apply extends_fields; [same_rows m|]. intros [H1 _]. split; [done|]. cbn. by rw Hr.
  - eapply extends_then; [apply extends_close; [unfold ends_row; by rw Hk|done]|]. apply extends_same; [same_rows m|done|done].
Qed.

(** ** The chop rule *)
Lemma extends_flush (m : Machine) token start buf :
  extends m (if decide (buf = []) then m else row_push m (part_token token start buf))
    (part_cells token start buf).
Proof.
  destruct (decide (buf = [])) as [->|Hb]; [apply extends_refl|].
  apply extends_row_push; [done|by apply part_token_solid].
Qed.

Lemma chop_loop_ok token limit chars : forall (m : Machine) buf start,
  extends m (chop_loop m token chars limit buf start (start + length buf))
    (part_cells token start (buf ++ encode_all chars)).
Proof.
  induction chars as [|ch chars IH]; intros m buf start; cbn [chop_loop].
  { rw app_nil_r. apply extends_flush. }
  rw encode_all_cons. destruct (limit <=? m_chars_in_row m).
  - rw part_cells_app. eapply extends_chain; [apply extends_flush|].
    eapply extends_nil; [apply extends_break|].
    eapply extends_nil; [|exact (IH _ (encode_utf8 ch) (start + length buf))]. by apply extends_same.
  - rw app_assoc -Nat.add_assoc -length_app. eapply extends_nil; [|apply IH]. by apply extends_same.
Qed.

Lemma feed_chop_ok (m : Machine) token : valid_token token -> extends m (feed_chop m token) (token_cells token).
Proof.
  intros [Hs Hv]. unfold feed_chop. destruct (vt_kind token) as [text| | | |b] eqn:Hk.
  - destruct (from_utf8_valid text Hv) as [Htext _]. rw (token_cells_text _ _ Hk) {2}Htext.
    exact (chop_loop_ok token _ _ m [] 0).
  - eapply extends_then; [apply extends_close; [unfold ends_row; by rw Hk|done]|]. apply extends_same; [same_rows m|done|done].
  - eapply extends_nil; [apply extends_break_if|].
    eapply extends_then; [apply extends_row_push; [unfold ends_row; by rw Hk|done]|]. by apply extends_same.
  - eapply extends_then; [apply extends_close; [unfold ends_row; by rw Hk|done]|]. apply extends_same; [same_rows m|done|done].
  - eapply extends_nil; [apply extends_break_if|].
    eapply extends_then; [apply extends_row_push; [unfold ends_row; by rw Hk|done]|]. by apply extends_same.
Qed.

(** ** Any rule *)
Lemma machine_feed_ok (m : Machine) token :
  4 <= usize_max -> segments graphemes -> valid_token token -> fits usize_max m ->
  steps_to m (feed graphemes word_bounds char_width str_width usize_max m token) (token_cells token).
Proof.
  intros Hmax Hseg Hv Hfit. unfold feed. destruct (m_rule m) as [c g h|cols|chars] eqn:Hr.
  - apply (feed_word_ok m token c g h); [done..|apply Hv|done].
  - apply (feed_grid_ok m token cols); [exact Hr|exact Hfit|exact Hseg|apply Hv].
  - eexists. split; [done|]. by apply feed_chop_ok.
Qed.

Lemma feed_all_ok tokens : forall (m : Machine),
  4 <= usize_max -> segments graphemes -> Forall valid_token tokens -> fits usize_max m ->
  steps_to m (feed_all graphemes word_bounds char_width str_width usize_max m tokens) (tokens ≫= token_cells).
Proof.
  induction tokens as [|t tokens IH]; intros m Hmax Hseg Hv Hfit; [exists m; split; [done|apply extends_refl]|].
  inversion Hv as [|? ? Hv1 Hv2]; subst. cbn [feed_all].
  destruct (machine_feed_ok m t Hmax Hseg Hv1 Hfit) as (m1 & E1 & H1). rw E1. cbn.
  destruct (IH m1 Hmax Hseg Hv2 (ext_fits _ _ _ _ H1 Hfit)) as (m2 & E2 & H2).
  exists m2. split; [done|]. eapply extends_chain; [exact H1|exact H2].
Qed.
End word.
