(* ===== verification/WrapRun.v ===== *)
(** * Runs of the wrap machine

    Whatever the rule, a run ends; its output shows its input with breaks and indents
    added; its rows are the output cut after each break or newline, and start at the
    source bytes of the input in order; the ranges of a wrapped string tile it. *)
From stdpp Require Import base numbers list option sorting.
From Stdlib Require Import ssreflect Strings.Byte NArith.
From S2P Require Import Prelude TextSpec Utf8 WrapMachine WrapInv WrapKeeps.

(** Consecutive, non-empty ranges from one offset to another. *)
Fixpoint tiles (start : nat) (ranges : list (nat * nat)) (end_ : nat) : Prop :=
  match ranges with
  | [] => start = end_
  | (a, b) :: ranges => a = start /\ a < b /\ tiles b ranges end_
  end.

Lemma ranges_from_tile end_ starts : forall s,
  StronglySorted lt (s :: starts) -> Forall (fun x => x < end_) (s :: starts) ->
  tiles s (ranges_from (s :: starts) end_) end_.
Proof.
  induction starts as [|s' starts IH]; intros s Hs [He1 He2]%Forall_cons; [by cbn; split_and!|].
  apply StronglySorted_inv in Hs as [Hs [Hlt _]%Forall_cons]. split; [done|]. split; [done|]. by apply IH.
Qed.

Lemma sorted_sublist (l k : list nat) : l `sublist_of` k -> StronglySorted lt k -> StronglySorted lt l.
Proof.
  induction 1 as [|x l k H IH|x l k H IH]; intros Hs; [done| |]; apply StronglySorted_inv in Hs as [Hs Hx]; [|by auto].
  constructor; [by auto|]. apply Forall_forall. intros y Hy. rw Forall_forall in Hx.
  apply Hx. eapply elem_of_sublist; [exact Hy|exact H].
Qed.

Lemma seq_sorted n : forall start, StronglySorted lt (seq start n).
Proof.
  induction n as [|n IH]; intros start; cbn; constructor; [apply IH|].
  apply Forall_forall. intros x Hx%elem_of_seq. lia.
Qed.

Section runs.
Context {Style : Type}.
Local Abbreviation Token := (ViewTokenWire Style).
Local Abbreviation Machine := (WrapMachine (Style := Style)).

(** The rows of a finished run: the cut, or one empty row. *)
Definition rows_of (ts : list Token) : list (list Token) :=
  match cut_rows ts with [] => [[]] | rs => rs end.

Definition closed_row (r : list Token) : Prop :=
  exists body t, r = body ++ [t] /\ ends_row t = true /\ Forall (fun t => ends_row t = false) body.

Lemma cut_rows_concat rs tail :
  Forall closed_row rs -> cut_rows (concat rs ++ tail) = rs ++ cut_rows tail.
Proof.
  induction 1 as [|r rs (body & t & -> & Ht & Hb) _ IH]; [done|].
  cbn [concat]. by rw -!app_assoc cut_rows_closed // IH.
Qed.

Lemma finish_tokens (m : Machine) : wo_tokens (finish m) = held m.
Proof.
  unfold finish, close_row, held. destruct (true && _ && _) eqn:E; [|done]. cbn.
  apply andb_true_iff in E as [E _]. cbn in E. apply bool_decide_eq_true in E. by rw E app_nil_r.
Qed.

Lemma finish_rows rs (m : Machine) : rows_inv rs m -> describes 0 (wo_rows (finish m)) (rows_of (held m)).
Proof.
  intros [H1 H2 H3 H4 H5 H6]. unfold rows_of, held. rw H1 cut_rows_concat // (cut_rows_open _ H6).
  unfold finish, close_row. destruct (m_row_tokens m) as [|t toks] eqn:Et.
  - rw !app_nil_r. destruct (m_rows m) as [|row rows] eqn:Er, rs as [|r rs]; try done.
    + cbn. by rw H3 H1 H4.
    + rw (bool_decide_eq_false_2 (row :: rows = [])) // bool_decide_eq_true_2 //. cbn [andb negb wo_rows m_rows]. by rw Er.
  - rw (bool_decide_eq_false_2 (t :: toks = [])) //. cbn [andb negb wo_rows m_rows].
    assert (describes 0 (m_rows m ++ [mkRowInfo (m_row_source_byte m) (m_row_carry m) (m_row_token_start m)
      (length (m_out m ++ m_row_tokens m))]) (rs ++ [t :: toks])) as Hd.
    { apply describes_snoc; cbn; [done|by rw H3 H1|by rw Et H1 length_app|by rw H4 ?Et]. }
    rw Et in Hd. destruct (rs ++ [t :: toks]) eqn:E; [by destruct rs|exact Hd].
Qed.

(** A carry a run can resume from: room for its indent and, for the grid, no open escape. *)
Definition resumable (usize_max : nat) (rule : WrapRule) (c : RowCarry) : Prop :=
  indent_fits usize_max rule (rc_line_indent c)
  /\ match rule with Grid _ => rc_ansi_in_escape c = false | _ => True end.

Lemma resume_ansi rule c : m_ansi (resume rule c : Machine) = set_in_escape ansi_new (rc_ansi_in_escape c).
Proof. unfold resume. by destruct (rc_on_continuation c && (0 <? rc_line_indent c)). Qed.

Lemma resume_fields rule c :
  let m : Machine := resume rule c in
  m_rule m = rule /\ m_line_indent m = rc_line_indent c /\ rows_inv [] m /\ content (held m) [] /\ Forall solid (held m).
Proof.
  unfold resume. cbv zeta. set (m0 := mkMachine _ _ _ _ _ _ _ _ _ _ _ _ _).
  assert (rows_inv [] m0) as H0 by by split.
  destruct (rc_on_continuation c && (0 <? rc_line_indent c)).
  - split_and!; [done|done|by apply rows_inv_push| |].
    + apply content_layout; [right; by eexists|constructor].
    + constructor; [by left|done].
  - split_and!; [done|done|done|constructor|done].
Qed.

(** ** Where rows start *)
Definition sources (cs : list (cell (Style := Style))) : list nat := omap (fun c => c.1.1) cs.

Lemma sources_text_none style s : sources (text_cells None style s) = [].
Proof. induction s as [|b s IH]; [done|]. exact IH. Qed.

Lemma sources_text style s : forall off, sources (text_cells (Some off) style s) = seq off (length s).
Proof. induction s as [|b s IH]; intros off; [done|]. cbn. f_equal. apply (IH (S off)). Qed.

Lemma sources_app a b : sources (a ++ b) = sources a ++ sources b.
Proof. apply omap_app. Qed.

Lemma content_sources ts cs : content ts cs -> sources (ts ≫= token_cells) = sources cs.
Proof.
  induction 1 as [|t ts cs _ IH|t ts cs Ht _ IH]; [done| |]; cbn [mbind list_bind]; rw !sources_app IH; [done|].
  destruct Ht as [->|[n ->]]; [done|]. unfold indent_token, token_cells. cbn [vt_kind vt_source_offset vt_style].
  by rw sources_text_none.
Qed.

Lemma first_source_cells (r : list Token) : Forall solid r -> first_source r = head (sources (r ≫= token_cells)).
Proof.
  induction 1 as [|t r Ht _ IH]; [done|]. cbn [mbind list_bind]. rw sources_app.
  unfold first_source in *. cbn [omap list_omap].
  destruct t as [[off|] k style]; cbn [vt_source_offset].
  - destruct Ht as [Ht|Ht]; [done|]. destruct k as [[|b s]| | | |]; done.
  - rw IH. destruct k as [s| | | |]; try done. unfold token_cells. cbn [vt_kind vt_source_offset vt_style]. by rw sources_text_none.
Qed.

Lemma describes_sources rows (rs : list (list Token)) start : describes start rows rs -> omap ri_source_byte rows = omap first_source rs.
Proof.
  revert start rs. induction rows as [|row rows IH]; intros start [|r rs] H; try done.
  destruct H as (_ & _ & H3 & H4). cbn. rw H3 (IH _ _ H4). done.
Qed.

Lemma row_starts_sublist (rs : list (list Token)) :
  Forall (Forall solid) rs ->
  omap first_source rs `sublist_of` sources (concat rs ≫= token_cells)
  /\ head (omap first_source rs) = head (sources (concat rs ≫= token_cells)).
Proof.
  induction 1 as [|r rs Hr _ [IH1 IH2]]; [done|]. cbn [concat]. rw bind_app sources_app. cbn [omap list_omap].
  rw (first_source_cells r Hr). destruct (sources (r ≫= token_cells)) as [|o os]; [by split|].
  cbn. split; [|done]. constructor. by apply sublist_inserts_l.
Qed.

Lemma concat_cut_rows (ts : list Token) : concat (cut_rows ts) = ts.
Proof.
  induction ts as [|t ts IH]; [done|]. cbn [cut_rows]. destruct (ends_row t); [cbn; by rw IH|].
  destruct (cut_rows ts) as [|r rs]; cbn in *; [by rw -IH|]. by rw -IH.
Qed.

Lemma concat_rows_of (ts : list Token) : concat (rows_of ts) = ts.
Proof. unfold rows_of. pose proof (concat_cut_rows ts). by destruct (cut_rows ts). Qed.

Lemma resume_fits usize_max rule c : resumable usize_max rule c -> fits usize_max (resume rule c : Machine).
Proof.
  intros [H1 H2]. destruct (resume_fields rule c) as (R1 & R2 & _). unfold fits. rw R1 R2 resume_ansi.
  split; [done|]. destruct rule; [done| |done]. rw H2. by intros ?.
Qed.

Context (graphemes : list byte -> list (list byte)) (word_bounds : list byte -> list nat).
Context (char_width : N -> nat) (str_width : list byte -> nat) (usize_max : nat).
Local Abbreviation run_from := (run_from (Style := Style) graphemes word_bounds char_width str_width usize_max).

(** Any run ends. *)
Lemma run_from_extends tokens rule c :
  4 <= usize_max -> segments graphemes -> Forall valid_token tokens -> resumable usize_max rule c ->
  exists m, run_from tokens rule c = Ok (finish m) /\ extends usize_max (resume rule c) m (tokens ≫= token_cells).
Proof.
  intros Hmax Hseg Hv Hfit. destruct (resume_fields rule c) as (R1 & R2 & _).
  destruct (feed_all_ok char_width str_width usize_max graphemes word_bounds tokens (resume rule c)) as (m & E & H);
    [done..|by apply resume_fits|].
  exists m. split; [|done]. unfold WrapMachine.run_from. by rw E.
Qed.

(** C17: wrapping a token stream, under any rule and from any row a run can resume from (for
    words, its indent leaves room for content; for the grid, it is not inside an escape
    sequence: [resumable], as the start of a text is), ends, and shows what came
    in: the output is the input, byte for byte, with its source offsets and styles, but for
    breaks and indents that the machine adds.  The tokens' texts are UTF-8 and source offsets
    belong to content, the grapheme clusters of a text are that text, none empty, and widths
    of at least 4 can be counted. *)
Theorem wrap_keeps_content tokens rule c :
  4 <= usize_max -> segments graphemes -> Forall valid_token tokens -> resumable usize_max rule c ->
  exists out, run_from tokens rule c = Ok out /\ content (wo_tokens out) (tokens ≫= token_cells).
Proof.
  intros Hmax Hseg Hv Hfit. destruct (run_from_extends tokens rule c Hmax Hseg Hv Hfit) as (m & E & H).
  exists (finish m). split; [done|]. rw finish_tokens.
  apply (ext_content _ _ _ _ H []). apply resume_fields.
Qed.

(** The rows of a run are its output cut behind every break and newline, in order and
    without gaps, each with the source offset of its first token that has one; a run with
    no output has one empty row.  (The grid of no columns ends no rows.)*)
Theorem wrap_rows_cut tokens rule c :
  4 <= usize_max -> segments graphemes -> Forall valid_token tokens -> resumable usize_max rule c ->
  rule <> Grid 0 ->
  exists out, run_from tokens rule c = Ok out /\ describes 0 (wo_rows out) (rows_of (wo_tokens out)).
Proof.
  intros Hmax Hseg Hv Hfit Hgrid. destruct (run_from_extends tokens rule c Hmax Hseg Hv Hfit) as (m & E & H).
  destruct (resume_fields rule c) as (R1 & _ & R3 & _).
  destruct (ext_rows _ _ _ _ H ltac:(by rw R1) [] R3) as [rs Hrs].
  exists (finish m). split; [done|]. rw finish_tokens. eapply finish_rows, Hrs.
Qed.

Lemma run_sources tokens rule c :
  4 <= usize_max -> segments graphemes -> Forall valid_token tokens -> resumable usize_max rule c ->
  rule <> Grid 0 ->
  exists out, run_from tokens rule c = Ok out
    /\ omap ri_source_byte (wo_rows out) `sublist_of` sources (tokens ≫= token_cells)
    /\ head (omap ri_source_byte (wo_rows out)) = head (sources (tokens ≫= token_cells)).
Proof.
  intros Hmax Hseg Hv Hfit Hgrid. destruct (run_from_extends tokens rule c Hmax Hseg Hv Hfit) as (m & E & H).
  destruct (resume_fields rule c) as (R1 & _ & R3 & R4 & R5).
  destruct (ext_rows _ _ _ _ H ltac:(by rw R1) [] R3) as [rs Hrs].
  exists (finish m). split; [done|]. rw (describes_sources _ _ _ (finish_rows _ _ Hrs)).
  pose proof (content_sources _ _ (ext_content _ _ _ _ H [] R4)) as Hs. rw app_nil_l in Hs. rw -Hs.
  pose proof (row_starts_sublist (rows_of (held m))) as Hrows. rw concat_rows_of in Hrows. apply Hrows.
  apply List.Forall_concat. rw concat_rows_of. by apply (ext_solid _ _ _ _ H).
Qed.

(** When the tokens come in source order, the rows start at ascending source offsets,
    the first one where the source starts. *)
Theorem row_starts_ascend tokens rule c :
  4 <= usize_max -> segments graphemes -> Forall valid_token tokens -> resumable usize_max rule c ->
  rule <> Grid 0 -> StronglySorted lt (sources (tokens ≫= token_cells)) ->
  exists out, run_from tokens rule c = Ok out
    /\ StronglySorted lt (omap ri_source_byte (wo_rows out))
    /\ head (omap ri_source_byte (wo_rows out)) = head (sources (tokens ≫= token_cells)).
Proof.
  intros Hmax Hseg Hv Hfit Hgrid Hsort.
  destruct (run_sources tokens rule c Hmax Hseg Hv Hfit Hgrid) as (out & E & Hsub & Hhead).
  exists out. split; [done|]. split; [|done]. eapply sorted_sublist; [exact Hsub|exact Hsort].
Qed.

Lemma finish_first (m : Machine) : ri_carry <$> head (wo_rows (finish m)) = Some (first_carry m).
Proof.
  unfold finish, close_row, first_carry. destruct (m_rows m) as [|r rows] eqn:Er.
  - by rw (bool_decide_eq_true_2 ([] = [])) // andb_false_r.
  - destruct (true && _ && _); cbn; by rw ?Er.
Qed.

Lemma resume_first rule c : first_carry (resume rule c : Machine) = c.
Proof. unfold first_carry, resume. by destruct (rc_on_continuation c && (0 <? rc_line_indent c)). Qed.
End runs.

(** A string wraps into non-empty ranges that tile it: each starts where the one before
    ends, the first at the first byte, the last ending at the last. *)
Theorem wrap_str_tiles (Style : Type) graphemes word_bounds char_width str_width usize_max text wrap_width :
  4 <= usize_max -> segments graphemes -> from_utf8 text = None ->
  exists ranges, @wrap_str_to_width Style graphemes word_bounds char_width str_width usize_max text wrap_width = Ok ranges
    /\ tiles 0 ranges (length text).
Proof.
  intros Hmax Hseg Hv. unfold wrap_str_to_width. destruct (decide (text = [])) as [->|Hne]; [by exists []|].
  assert (0 < length text) as Hlen by (destruct text; [done|cbn; lia]).
  destruct (wrap_width =? 0); [exists [(0, length text)]; by split_and!|].
  set (t := mkToken (Some 0) (Text text) None : ViewTokenWire Style).
  assert (sources ([t] ≫= token_cells) = seq 0 (length text)) as Hsrc.
  { cbn. rw app_nil_r. apply sources_text. }
  destruct (run_sources graphemes word_bounds char_width str_width usize_max [t] (Word wrap_width 0 false) carry_default)
    as (out & E & Hsub & Hhead); [done|done| |split; [by left|done]|done|].
  { constructor; [|done]. split; [|done]. right. by intros ?%text_cells_nil. }
  unfold run. rw E. cbn [mbind res_bind]. rw Hsrc in Hsub, Hhead.
  destruct (omap ri_source_byte (wo_rows out)) as [|s starts]; [by destruct text|].
  assert (s = 0) as -> by (destruct text; [done|by injection Hhead]).
  eexists. split; [done|]. apply ranges_from_tile; [eapply sorted_sublist; [exact Hsub|apply seq_sorted]|].
  apply Forall_forall. intros x Hx. eapply elem_of_sublist in Hx; [|exact Hsub]. apply elem_of_seq in Hx. lia.
Qed.

(** ** Witnesses *)

(** A segmentation that satisfies the hypotheses: every byte a cluster of one column. *)
Definition byte_clusters (s : list byte) : list (list byte) := (fun b => [b]) <$> s.

Lemma byte_clusters_segment : segments byte_clusters.
Proof.
  intros s. split; [|apply Forall_fmap, Forall_true; done].
  induction s as [|b s IH]; [done|]. unfold byte_clusters in *. cbn. by rw IH.
Qed.

(** "  one two" with a newline behind it, and a virtual text that no source has. *)
Definition sample_tokens : list (ViewTokenWire nat) :=
  [mkToken (Some 0) Space None; mkToken (Some 1) Space None;
   mkToken (Some 2) (Text [x6f; x6e; x65]) (Some 7); mkToken (Some 5) Space None;
   mkToken None (Text [x3e]) (Some 1); mkToken (Some 6) (Text [x74; x77; x6f]) None; mkToken (Some 9) Newline None].

Lemma sample_tokens_valid : Forall valid_token sample_tokens.
Proof. repeat constructor; cbn; try done; by right. Qed.

Lemma wrap_keeps_content_witness :
  (omap ri_source_byte ∘ wo_rows <$> run_from byte_clusters (fun _ => []) (fun _ => 1) length 400 sample_tokens (Word 7 0 true) carry_default)
    = Ok [0; 6]
  /\ exists out, run_from byte_clusters (fun _ => []) (fun _ => 1) length 400 sample_tokens (Word 7 0 true) carry_default = Ok out
    /\ content (wo_tokens out) (sample_tokens ≫= token_cells).
Proof.
  split; [vm_compute; reflexivity|].
  apply (wrap_keeps_content byte_clusters (fun _ => []) (fun _ => 1) length 400 sample_tokens (Word 7 0 true) carry_default);
    [lia|exact byte_clusters_segment|exact sample_tokens_valid|split; [by left|done]].
Defined.

Lemma wrap_rows_cut_witness :
  exists out, run_from byte_clusters (fun _ => []) (fun _ => 1) length 400 sample_tokens (Chop 4) carry_default = Ok out
    /\ describes 0 (wo_rows out) (rows_of (wo_tokens out)).
Proof.
  apply (wrap_rows_cut byte_clusters (fun _ => []) (fun _ => 1) length 400 sample_tokens (Chop 4) carry_default);
    [lia|exact byte_clusters_segment|exact sample_tokens_valid|done|done].
Defined.

Lemma row_starts_ascend_witness :
  (omap ri_source_byte ∘ wo_rows <$> run_from byte_clusters (fun _ => []) (fun _ => 1) length 400 sample_tokens (Grid 4) carry_default)
    = Ok [0; 4; 7]
  /\ exists out, run_from byte_clusters (fun _ => []) (fun _ => 1) length 400 sample_tokens (Grid 4) carry_default = Ok out
    /\ StronglySorted lt (omap ri_source_byte (wo_rows out))
    /\ head (omap ri_source_byte (wo_rows out)) = head (sources (sample_tokens ≫= token_cells)).
Proof.
  split; [vm_compute; reflexivity|].
  apply (row_starts_ascend byte_clusters (fun _ => []) (fun _ => 1) length 400 sample_tokens (Grid 4) carry_default);
    [lia|exact byte_clusters_segment|exact sample_tokens_valid|done|done|apply (seq_sorted 10 0)].
Defined.

Lemma wrap_str_tiles_witness :
  @wrap_str_to_width nat byte_clusters (fun _ => []) (fun _ => 1) length 400 [x61; x62; x63; x64; x65] 2
    = Ok [(0, 2); (2, 4); (4, 5)]
  /\ exists ranges, @wrap_str_to_width nat byte_clusters (fun _ => []) (fun _ => 1) length 400 [x61; x62; x63; x64; x65] 2 = Ok ranges
    /\ tiles 0 ranges 5.
Proof.
  split; [vm_compute; reflexivity|].
  apply (wrap_str_tiles nat byte_clusters (fun _ => []) (fun _ => 1) length 400 [x61; x62; x63; x64; x65] 2);
    [lia|exact byte_clusters_segment|reflexivity].
Defined.
