(* ===== verification/WrapResume.v ===== *)
(** * Resuming the wrap machine at a line

    The machine never looks back at the rows it has closed, and behind a newline its state
    is that of a machine resumed from the carry of the next row: the lines of a document
    can be wrapped one at a time, or from any line on. *)
From stdpp Require Import base numbers list option.
From Stdlib Require Import ssreflect Strings.Byte NArith.
From S2P Require Import Prelude TextSpec Utf8 WrapMachine WrapInv WrapKeeps WrapRun.

(** A row [k] tokens further on. *)
Definition shift_row (k : nat) (r : RowInfo) : RowInfo :=
  mkRowInfo (ri_source_byte r) (ri_carry r) (k + ri_token_start r) (k + ri_token_end r).

Section resume.
Context {Style : Type}.
Local Abbreviation Token := (ViewTokenWire Style).
Local Abbreviation Machine := (WrapMachine (Style := Style)).

(** ** Closed rows are not looked at *)
Section prepend.
Context (o : list Token) (rs : list RowInfo).

(** The machine with closed rows put in front. *)
Definition prepend (m : Machine) : Machine :=
  mkMachine (m_rule m) (m_line_indent m) (m_on_continuation m) (m_measuring_indent m) (m_chars_in_row m) (m_col m) (m_ansi m)
    (o ++ m_out m) (rs ++ (shift_row (length o) <$> m_rows m))
    (m_row_tokens m) (m_row_source_byte m) (length o + m_row_token_start m) (m_row_carry m).

Lemma close_row_prepend m : close_row (prepend m) false = prepend (close_row m false).
Proof. unfold close_row, prepend. cbn. by rw fmap_app -!app_assoc (length_app o). Qed.

Lemma emit_break_prepend m indent : emit_break (prepend m) indent = prepend (emit_break m indent).
Proof.
  unfold emit_break. change (row_push (prepend m) break_token) with (prepend (row_push m break_token)).
  set (m1 := row_push m break_token). change (with_continuation (prepend m1) true 0) with (prepend (with_continuation m1 true 0)).
  rw close_row_prepend. set (m2 := close_row _ false). change (m_line_indent (with_col (prepend m2) 0)) with (m_line_indent (with_col m2 0)).
  by destruct (indent && _).
Qed.

Lemma row_push_all_prepend ts : forall m, row_push_all (prepend m) ts = prepend (row_push_all m ts).
Proof. induction ts as [|t ts IH]; intros m; [done|]. apply (IH (row_push m t)). Qed.

Context (char_width : N -> nat) (str_width : list byte -> nat) (usize_max : nat).
Context (graphemes : list byte -> list (list byte)) (word_bounds : list byte -> list nat).

Lemma space_overflow_prepend m eff :
  space_overflow char_width str_width (prepend m) eff = prepend (space_overflow char_width str_width m eff).
Proof.
  unfold space_overflow. change (back_up_plan char_width str_width (prepend m) eff) with (back_up_plan char_width str_width m eff).
  destruct (back_up_plan _ _ m eff) as [[n w]|]; [|apply emit_break_prepend].
  cbn [prepend m_row_tokens].
  match goal with |- context [with_row ?p ?a ?b] => change (with_row p a b) with (prepend (with_row m a b)) end.
  by rw emit_break_prepend row_push_all_prepend.
Qed.

Lemma split_loop_prepend token text gs bounds eff fuel : forall m wb_lo idx,
  split_loop str_width fuel (prepend m) token text gs bounds wb_lo idx eff
  = prepend <$> split_loop str_width fuel m token text gs bounds wb_lo idx eff.
Proof.
  induction fuel as [|fuel IH]; intros m wb_lo idx; cbn [split_loop]; destruct (length gs <=? idx); try done.
  change (m_col (prepend m)) with (m_col m). change (m_line_indent (prepend m)) with (m_line_indent m).
  destruct (eff - m_col m =? 0); [rw emit_break_prepend; apply IH|].
  destruct (fit_chunk _ _ _ _ _ _ _) as [w n].
  destruct ((n =? 0) && _); [rw emit_break_prepend; apply IH|].
  destruct (if n =? 0 then _ else _) as [w1 n1].
  change (prefer_word_boundary (prepend m)) with (prefer_word_boundary m).
  destruct (if 1 <? n1 then _ else _) as [wb shrunk].
  destruct (match shrunk with Some _ => _ | None => _ end) as [w2 n2]. cbv zeta.
  set (t := mkToken _ _ _).
  change (with_col (row_push (prepend m) t) (m_col (row_push (prepend m) t) + w2))
    with (prepend (with_col (row_push m t) (m_col (row_push m t) + w2))).
  destruct shrunk; [rw emit_break_prepend|]; apply IH.
Qed.

Lemma break_if_prepend (b : bool) m indent :
  (if b then emit_break (prepend m) indent else prepend m) = prepend (if b then emit_break m indent else m).
Proof. destruct b; [apply emit_break_prepend|done]. Qed.

Lemma feed_word_text_prepend m token text eff :
  feed_word_text graphemes word_bounds char_width str_width (prepend m) token text eff
  = prepend <$> feed_word_text graphemes word_bounds char_width str_width m token text eff.
Proof.
  unfold feed_word_text. cbv zeta.
  change (m_measuring_indent (prepend m)) with (m_measuring_indent m).
  assert ((if m_measuring_indent m then measure_indent (prepend m) text eff else prepend m)
    = prepend (if m_measuring_indent m then measure_indent m text eff else m)) as ->.
  { destruct (m_measuring_indent m); [|done]. unfold measure_indent. cbn [prepend m_line_indent].
    by destruct (leading_blanks _ _ _ _). }
  set (m1 := if m_measuring_indent m then _ else m). cbn [prepend m_line_indent m_col].
  destruct (_ && _ && _).
  - rw emit_break_prepend. set (m2 := emit_break m1 true). cbn [prepend m_col].
    destruct (_ && _); [apply split_loop_prepend|done].
  - destruct (_ && _); [apply split_loop_prepend|done].
Qed.

Lemma feed_word_prepend m token :
  feed_word graphemes word_bounds char_width str_width usize_max (prepend m) token
  = prepend <$> feed_word graphemes word_bounds char_width str_width usize_max m token.
Proof.
  unfold feed_word. change (m_rule (prepend m)) with (m_rule m).
  set (eff := if is_degenerate (m_rule m) then NO_WRAP usize_max else available_width (m_rule m)).
  destruct (vt_kind token) as [text| | | |b].
  - apply feed_word_text_prepend.
  - change (row_push (prepend m) token) with (prepend (row_push m token)). by rw close_row_prepend.
  - change (m_measuring_indent (prepend m)) with (m_measuring_indent m). cbv zeta.
    set (m1 := if m_measuring_indent m then with_indent m (clamp_indent (m_line_indent m + 1) eff) (m_measuring_indent m) else m).
    assert ((if m_measuring_indent m then with_indent (prepend m) (clamp_indent (m_line_indent (prepend m) + 1) eff)
      (m_measuring_indent m) else prepend m) = prepend m1) as -> by (unfold m1; by destruct (m_measuring_indent m)).
    change (m_col (prepend m1)) with (m_col m1).
    destruct (eff <? m_col m1 + 1); [|done]. by rw space_overflow_prepend.
  - cbn. by rw emit_break_prepend.
  - cbv zeta. change (with_indent (prepend m) (m_line_indent (prepend m)) false) with (prepend (with_indent m (m_line_indent m) false)).
    set (m1 := with_indent m _ _). change (m_col (prepend m1)) with (m_col m1).
    change (m_line_indent (prepend m1)) with (m_line_indent m1). by rw break_if_prepend.
Qed.

Lemma grid_loop_prepend token text cols gs : forall m seg,
  grid_loop str_width (prepend m) token text gs cols seg
  = prod_map prepend id <$> grid_loop str_width m token text gs cols seg.
Proof.
  induction gs as [|[byte g] gs IH]; intros m seg; [done|]. cbn [grid_loop].
  change (m_ansi (prepend m)) with (m_ansi m). cbv zeta.
  destruct (parse_panics _ _); [done|]. destruct (parse_char _ _) as [p visible].
  destruct (negb visible); [destruct (parse_chars p _) as [p'|]; [apply (IH (with_ansi m p'))|done]|]. change (with_ansi (prepend m) p) with (prepend (with_ansi m p)). set (m1 := with_ansi m p).
  change (m_col (prepend m1)) with (m_col m1). destruct (_ && _); [|apply (IH (with_col m1 _))].
  destruct (seg <? byte).
  - set (t := sub_token _ _ _ _). change (row_push (prepend m1) t) with (prepend (row_push m1 t)).
    rw emit_break_prepend. set (m2 := emit_break _ _). change (m_col (prepend m2)) with (m_col m2). apply (IH (with_col m2 _)).
  - rw emit_break_prepend. set (m2 := emit_break _ _). change (m_col (prepend m2)) with (m_col m2). apply (IH (with_col m2 _)).
Qed.

Lemma feed_grid_prepend m token :
  feed_grid graphemes str_width (prepend m) token = prepend <$> feed_grid graphemes str_width m token.
Proof.
  unfold feed_grid. change (m_rule (prepend m)) with (m_rule m). destruct (_ =? 0); [done|].
  destruct (vt_kind token) as [text| | | |b].
  - unfold feed_grid_text. rw grid_loop_prepend. destruct (grid_loop _ m _ _ _ _ _) as [[m' seg]|]; [|done].
    cbn [fmap res_fmap mbind res_bind prod_map fst snd id]. unfold id. by destruct (seg =? 0); [|destruct (seg <? length text)].
  - cbv zeta. change (row_push (prepend m) token) with (prepend (row_push m token)). by rw close_row_prepend.
  - cbv zeta. change (m_col (prepend m)) with (m_col m). by rw break_if_prepend.
  - cbv zeta. change (row_push (prepend m) token) with (prepend (row_push m token)). by rw close_row_prepend.
  - cbv zeta. change (m_col (prepend m)) with (m_col m). by rw break_if_prepend.
Qed.

Lemma chop_loop_prepend token limit chars : forall m buf start emitted,
  chop_loop (prepend m) token chars limit buf start emitted = prepend (chop_loop m token chars limit buf start emitted).
Proof.
  induction chars as [|ch chars IH]; intros m buf start emitted; cbn [chop_loop]; [by destruct (decide (buf = []))|].
  change (m_chars_in_row (prepend m)) with (m_chars_in_row m). destruct (limit <=? m_chars_in_row m); [|apply (IH (with_continuation m _ _))].
  set (t := mkToken _ _ _).
  assert ((if decide (buf = []) then prepend m else row_push (prepend m) t) = prepend (if decide (buf = []) then m else row_push m t)) as ->
    by by destruct (decide (buf = [])).
  rw emit_break_prepend. set (m2 := emit_break _ _).
  change (m_on_continuation (prepend m2)) with (m_on_continuation m2).
  change (m_chars_in_row (prepend m2)) with (m_chars_in_row m2). apply (IH (with_continuation m2 (m_on_continuation m2) (m_chars_in_row m2 + 1))).
Qed.

Lemma feed_chop_prepend m token : feed_chop (prepend m) token = prepend (feed_chop m token).
Proof.
  unfold feed_chop. change (m_rule (prepend m)) with (m_rule m).
  destruct (vt_kind token) as [text| | | |b].
  - apply chop_loop_prepend.
  - change (row_push (prepend m) token) with (prepend (row_push m token)). by rw close_row_prepend.
  - change (m_chars_in_row (prepend m)) with (m_chars_in_row m). by rw break_if_prepend.
  - change (row_push (prepend m) token) with (prepend (row_push m token)). by rw close_row_prepend.
  - change (m_chars_in_row (prepend m)) with (m_chars_in_row m). by rw break_if_prepend.
Qed.

Lemma feed_all_prepend tokens : forall m,
  feed_all graphemes word_bounds char_width str_width usize_max (prepend m) tokens
  = prepend <$> feed_all graphemes word_bounds char_width str_width usize_max m tokens.
Proof.
  induction tokens as [|t tokens IH]; intros m; [done|]. cbn [feed_all].
  assert (feed graphemes word_bounds char_width str_width usize_max (prepend m) t
    = prepend <$> feed graphemes word_bounds char_width str_width usize_max m t) as ->.
  { unfold feed. change (m_rule (prepend m)) with (m_rule m). destruct (m_rule m); [apply feed_word_prepend|apply feed_grid_prepend|].
    by rw feed_chop_prepend. }
  destruct (feed _ _ _ _ _ m t) as [m1|]; [apply IH|done].
Qed.

(** Once something has come out, the last row is closed the same way. *)
Lemma finish_prepend m :
  (m_rows m = [] -> m_out m = []) -> wo_tokens (finish m) <> [] ->
  finish (prepend m) = mkWrapOutput (o ++ wo_tokens (finish m)) (rs ++ (shift_row (length o) <$> wo_rows (finish m))).
Proof.
  intros Hrows. rw finish_tokens. unfold held, finish. intros Hne.
  destruct (decide (m_row_tokens m = [])) as [Et|Et].
  - assert (m_rows m <> []) as Er by (intros Er; apply Hne; by rw (Hrows Er) Et).
    assert (forall m' : Machine, m_row_tokens m' = [] -> m_rows m' <> [] -> close_row m' true = m') as Hstop.
    { intros m' H1 H2. unfold close_row. by rw (bool_decide_eq_true_2 _ H1) (bool_decide_eq_false_2 _ H2). }
    rw (Hstop m Et Er) (Hstop (prepend m) Et); [cbn; by destruct rs, (m_rows m)|]. by rw Et app_nil_r.
  - assert (forall m' : Machine, m_row_tokens m' <> [] -> close_row m' true = close_row m' false) as Hgo.
    { intros m' H. unfold close_row. by rw (bool_decide_eq_false_2 _ H). }
    by rw (Hgo m Et) (Hgo (prepend m) Et) close_row_prepend.
Qed.
End prepend.

(** ** The state behind a newline *)

Lemma emit_break_fields (m : Machine) indent :
  m_ansi (emit_break m indent) = m_ansi m /\ m_measuring_indent (emit_break m indent) = m_measuring_indent m.
Proof. unfold emit_break. by case_match. Qed.

Lemma emit_break_col0 (m : Machine) : m_col (emit_break m false) = 0.
Proof. done. Qed.

Context (char_width : N -> nat) (str_width : list byte -> nat) (usize_max : nat).
Context (graphemes : list byte -> list (list byte)) (word_bounds : list byte -> list nat).

(** Only the grid reads escapes. *)
Lemma split_loop_ansi token text gs bounds eff fuel : forall (m : Machine) wb_lo idx m',
  split_loop str_width fuel m token text gs bounds wb_lo idx eff = Ok m' -> m_ansi m' = m_ansi m.
Proof.
  induction fuel as [|fuel IH]; intros m wb_lo idx m'; cbn [split_loop]; destruct (length gs <=? idx); try done.
  1,2: by intros [= ->].
  assert (forall m1 wb_lo idx, m_ansi m1 = m_ansi m -> split_loop str_width fuel m1 token text gs bounds wb_lo idx eff = Ok m' ->
    m_ansi m' = m_ansi m) as Hgo by (intros m1 ? ? <- Hm; eapply IH, Hm).
  destruct (eff - m_col m =? 0); [apply Hgo, emit_break_fields|].
  destruct (fit_chunk _ _ _ _ _ _ _) as [w n].
  destruct ((n =? 0) && _); [apply Hgo, emit_break_fields|].
  destruct (if n =? 0 then _ else _) as [w1 n1].
  destruct (if 1 <? n1 then _ else _) as [wb shrunk].
  destruct (match shrunk with Some _ => _ | None => _ end) as [w2 n2].
  apply Hgo. destruct shrunk; [|done]. by rw (proj1 (emit_break_fields _ _)).
Qed.

Lemma space_overflow_ansi (m : Machine) eff : m_ansi (space_overflow char_width str_width m eff) = m_ansi m.
Proof.
  unfold space_overflow. destruct (back_up_plan _ _ m eff) as [[n w]|]; [|apply emit_break_fields].
  cbn [with_col m_ansi].
  destruct (row_push_all_fields (drop n (m_row_tokens m)) (emit_break (with_row m (take n (m_row_tokens m)) (first_source (take n (m_row_tokens m)))) true))
    as (_ & _ & _ & _ & _ & ->). by rw (proj1 (emit_break_fields _ _)).
Qed.

Lemma feed_word_ansi (m : Machine) token m' :
  feed_word graphemes word_bounds char_width str_width usize_max m token = Ok m' -> m_ansi m' = m_ansi m.
Proof.
  unfold feed_word. destruct (vt_kind token) as [text| | | |b].
  - unfold feed_word_text. set (eff := if is_degenerate (m_rule m) then NO_WRAP usize_max else available_width (m_rule m)).
    set (m1 := if m_measuring_indent m then measure_indent m text eff else m).
    assert (m_ansi m1 = m_ansi m) as <-.
    { unfold m1, measure_indent. destruct (m_measuring_indent m); [|done]. by destruct (leading_blanks _ _ _ _). }
    cbv zeta. destruct (_ && _ && _).
    + rw -(proj1 (emit_break_fields m1 true)). destruct (_ && _); [apply split_loop_ansi|by intros [= <-]].
    + destruct (_ && _); [apply split_loop_ansi|by intros [= <-]].
  - by intros [= <-].
  - intros [= <-]. cbn [with_col row_push with_row m_ansi].
    destruct (m_measuring_indent m); destruct (_ <? _); by rw ?space_overflow_ansi.
  - intros [= <-]. apply emit_break_fields.
  - intros [= <-]. cbn [with_col row_push with_row m_ansi]. destruct (_ && _); [|done]. by rw (proj1 (emit_break_fields _ _)).
Qed.

(** Only words have an indent. *)
Definition same_indent (m m' : Machine) : Prop :=
  m_line_indent m' = m_line_indent m /\ m_measuring_indent m' = m_measuring_indent m.

Lemma same_indent_break (m : Machine) indent : same_indent m (emit_break m indent).
Proof. split; [apply emit_break_indent|apply emit_break_fields]. Qed.

Lemma same_indent_trans m1 m2 m3 : same_indent m1 m2 -> same_indent m2 m3 -> same_indent m1 m3.
Proof. intros [H1 H2] [H3 H4]. split; [by rw H3|by rw H4]. Qed.

Lemma grid_loop_indent token text cols gs : forall (m : Machine) seg m' seg',
  grid_loop str_width m token text gs cols seg = Ok (m', seg') -> same_indent m m'.
Proof.
  induction gs as [|[byte g] gs IH]; intros m seg m' seg'; [by intros [= <- <-]|]. cbn [grid_loop]. cbv zeta.
  assert (forall m1 seg1, same_indent m m1 -> grid_loop str_width m1 token text gs cols seg1 = Ok (m', seg') -> same_indent m m') as Hgo.
  { intros m1 seg1 H E. eapply same_indent_trans; [exact H|eapply IH, E]. }
  destruct (parse_panics _ _); [done|]. destruct (parse_char _ _) as [p visible].
  destruct (negb visible); [destruct (parse_chars p _) as [p'|]; [by apply Hgo|done]|].
  destruct (_ && _); [|by apply Hgo].
  destruct (seg <? byte); apply Hgo.
  - set (t := sub_token _ _ _ _). apply (same_indent_trans m (emit_break (row_push (with_ansi m p) t) false)); [|done].
    apply (same_indent_break (row_push (with_ansi m p) t) false).
  - apply (same_indent_trans m (emit_break (with_ansi m p) false)); [|done]. apply (same_indent_break (with_ansi m p) false).
Qed.

Lemma feed_grid_indent (m : Machine) token m' : feed_grid graphemes str_width m token = Ok m' -> same_indent m m'.
Proof.
  unfold feed_grid. destruct (_ =? 0); [by intros [= <-]|]. destruct (vt_kind token) as [text| | | |b].
  - unfold feed_grid_text. destruct (grid_loop _ _ _ _ _ _ _) as [[m1 seg]|] eqn:E; [|done]. apply grid_loop_indent in E.
    intros [= <-]. by destruct (seg =? 0); [|destruct (seg <? length text)].
  - by intros [= <-].
  - intros [= <-]. destruct (_ && _); [|done]. apply (same_indent_break m false).
  - by intros [= <-].
  - intros [= <-]. destruct (_ && _); [|done]. apply (same_indent_break m false).
Qed.

(** Chopping keeps the column, the escapes and the indent. *)
Definition same_rest (m m' : Machine) : Prop :=
  same_indent m m' /\ m_ansi m' = m_ansi m /\ (m_col m = 0 -> m_col m' = 0).

Lemma same_rest_trans m1 m2 m3 : same_rest m1 m2 -> same_rest m2 m3 -> same_rest m1 m3.
Proof.
  intros (H1 & H2 & H3) (H4 & H5 & H6). split; [eapply same_indent_trans; [exact H1|exact H4]|]. split; [by rw H5|auto].
Qed.

Lemma same_rest_break (m : Machine) : same_rest m (emit_break m false).
Proof. split; [apply same_indent_break|]. split; [apply emit_break_fields|by rw emit_break_col0]. Qed.

Lemma chop_loop_rest token limit chars : forall (m : Machine) buf start emitted,
  same_rest m (chop_loop m token chars limit buf start emitted).
Proof.
  induction chars as [|ch chars IH]; intros m buf start emitted; cbn [chop_loop]; [by destruct (decide (buf = []))|].
  destruct (limit <=? m_chars_in_row m); [|eapply same_rest_trans; [|apply IH]; done].
  set (t := mkToken _ _ _). apply (same_rest_trans m (if decide (buf = []) then m else row_push m t));
    [by destruct (decide (buf = []))|].
  eapply same_rest_trans; [apply same_rest_break|]. eapply same_rest_trans; [|apply IH]. done.
Qed.

Lemma feed_chop_rest (m : Machine) token : same_rest m (feed_chop m token).
Proof.
  unfold feed_chop. destruct (vt_kind token) as [text| | | |b]; [apply chop_loop_rest|done| |done|];
    (destruct (_ <=? _); [|done]; eapply same_rest_trans; [apply same_rest_break|]; done).
Qed.

(** What is settled in a machine of a rule. *)
Definition settled (m : Machine) : Prop :=
  match m_rule m with
  | Word _ _ _ => escape_buffer (m_ansi m) = []
  | Grid _ => m_line_indent m = 0 /\ m_measuring_indent m = false
  | Chop _ => m_line_indent m = 0 /\ m_measuring_indent m = false /\ escape_buffer (m_ansi m) = [] /\ m_col m = 0
  end.

Lemma settled_resume rule c :
  (match rule with Word _ _ _ => True | _ => rc_line_indent c = 0 end) -> settled (resume rule c).
Proof.
  intros Hc. unfold settled. rw (proj1 (resume_fields rule c)). unfold resume.
  destruct rule as [cw g h|cols|chars]; [by case_match|by rw Hc andb_comm|].
  rw Hc andb_comm. cbn. split_and!; [done..|]. by case_match.
Qed.

Lemma settled_feed (m : Machine) token m' :
  settled m -> m_rule m' = m_rule m ->
  feed graphemes word_bounds char_width str_width usize_max m token = Ok m' -> settled m'.
Proof.
  unfold settled, feed. intros Hs Hr. rw Hr. destruct (m_rule m) as [c g h|cols|chars].
  - intros E%feed_word_ansi. by rw E.
  - intros [-> ->]%feed_grid_indent. done.
  - intros [= <-]. destruct (feed_chop_rest m token) as ([-> ->] & -> & Hc). destruct Hs as (H1 & H2 & H3 & H4).
    split_and!; auto.
Qed.

Local Abbreviation feed := (feed (Style := Style) graphemes word_bounds char_width str_width usize_max).
Local Abbreviation feed_all := (feed_all (Style := Style) graphemes word_bounds char_width str_width usize_max).
Local Abbreviation run_from := (run_from (Style := Style) graphemes word_bounds char_width str_width usize_max).

Lemma settled_feed_all tokens : forall (m m' : Machine),
  4 <= usize_max -> segments graphemes -> Forall valid_token tokens -> fits usize_max m ->
  settled m -> feed_all m tokens = Ok m' -> settled m'.
Proof.
  induction tokens as [|t tokens IH]; intros m m' Hmax Hseg Hv Hfit Hs; [by intros [= <-]|].
  inversion Hv as [|? ? Hv1 Hv2]; subst. cbn [WrapMachine.feed_all].
  destruct (machine_feed_ok char_width str_width usize_max graphemes word_bounds m t Hmax Hseg Hv1 Hfit) as (m1 & E1 & H1).
  rw E1. apply IH; [done|done|done|by apply (ext_fits _ _ _ _ H1)|].
  eapply settled_feed; [exact Hs|apply (ext_rule _ _ _ _ H1)|exact E1].
Qed.

Lemma ansi_eta p : escape_buffer p = [] -> set_in_escape ansi_new (in_escape p) = p.
Proof. destruct p as [buf b]. cbn. by intros ->. Qed.

(** Behind a newline the machine is one resumed from the carry of the next row. *)
Lemma newline_resumes (m : Machine) token m' :
  settled m -> m_rule m <> Grid 0 -> vt_kind token = Newline -> feed m token = Ok m' ->
  m' = prepend (m_out m') (m_rows m') (resume (m_rule m) (m_row_carry m')).
Proof.
  unfold settled, WrapMachine.feed. intros Hs Hg Hk. destruct (m_rule m) as [c g h|cols|chars] eqn:Hr.
  - unfold feed_word. rw Hk. intros [= <-]. unfold prepend, resume. cbn.
    rw Hr !app_nil_r Nat.add_0_r ansi_eta //. by rw andb_true_r.
  - unfold feed_grid. rw Hr Hk. cbn [available_width]. destruct (Nat.eqb_spec cols 0) as [->|_]; [done|]. intros [= <-].
    destruct Hs as [Hi Hm]. unfold prepend, resume. cbn. rw Hi Hm Hr andb_false_r !app_nil_r Nat.add_0_r. by destruct (m_on_continuation m).
  - intros [= <-]. unfold feed_chop. rw Hk. destruct Hs as (Hi & Hm & Ha & Hc). unfold prepend, resume. cbn.
    rw Hi Hm Hr Hc andb_false_r !app_nil_r Nat.add_0_r ansi_eta //. by destruct (m_on_continuation m).
Qed.

Lemma feed_all_app a b : forall m : Machine, feed_all m (a ++ b) = m ← feed_all m a; feed_all m b.
Proof.
  induction a as [|t a IH]; intros m; [done|]. cbn [app WrapMachine.feed_all].
  destruct (WrapMachine.feed _ _ _ _ _ m t) as [m1|]; [apply IH|done].
Qed.

Lemma rows_inv_out rs (m : Machine) : rows_inv rs m -> m_rows m = [] -> m_out m = [].
Proof. intros [H1 H2 _ _ _ _] Hr. rw Hr in H2. rw H1. by destruct rs. Qed.

(** Rows behind the closed ones. *)
Definition append_output (a b : WrapOutput (Style := Style)) : WrapOutput :=
  mkWrapOutput (wo_tokens a ++ wo_tokens b) (wo_rows a ++ (shift_row (length (wo_tokens a)) <$> wo_rows b)).

Lemma finish_closed (m : Machine) : m_row_tokens m = [] -> m_rows m <> [] -> finish m = mkWrapOutput (m_out m) (m_rows m).
Proof.
  intros Ht Hr. unfold finish, close_row. by rw (bool_decide_eq_true_2 _ Ht) (bool_decide_eq_false_2 _ Hr).
Qed.

(** Behind a newline no row is open. *)
Lemma newline_closes (m : Machine) token m' :
  m_rule m <> Grid 0 -> vt_kind token = Newline -> feed m token = Ok m' -> m_row_tokens m' = [] /\ m_rows m' <> [].
Proof.
  unfold WrapMachine.feed. intros Hg Hk. destruct (m_rule m) as [c g h|cols|chars] eqn:Hr; intros H.
  - unfold feed_word in H. rw Hk in H. injection H as <-. split; [done|]. cbn. by destruct (m_rows m).
  - unfold feed_grid in H. rw Hr Hk in H. cbn [available_width] in H. destruct (Nat.eqb_spec cols 0) as [->|_]; [done|].
    injection H as <-. split; [done|]. cbn. by destruct (m_rows m).
  - injection H as <-. unfold feed_chop. rw Hk. split; [done|]. cbn. by destruct (m_rows m).
Qed.

(** C18: wrapping can stop behind a newline and resume there: resumed from the carry recorded
    for the row that starts behind the newline, the machine gives the rest of the rows of
    the whole run, and the first of them again records that carry. *)
Theorem wrap_resumes_at_line before nl after rule c :
  4 <= usize_max -> segments graphemes -> Forall valid_token (before ++ nl :: after) ->
  resumable usize_max rule c -> (match rule with Word _ _ _ => True | _ => rc_line_indent c = 0 end) ->
  rule <> Grid 0 -> vt_kind nl = Newline ->
  exists out1 c2 out2, run_from (before ++ [nl]) rule c = Ok out1 /\ run_from after rule c2 = Ok out2
    /\ ri_carry <$> head (wo_rows out2) = Some c2
    /\ (wo_tokens out2 <> [] -> run_from (before ++ nl :: after) rule c = Ok (append_output out1 out2)).
Proof.
  intros Hmax Hseg [Hv1 [Hnl Hv2]%Forall_cons_1]%Forall_app Hfit Hrule Hgrid Hk.
  destruct (resume_fields (Style := Style) rule c) as (R1 & R2 & _).
  destruct (feed_all_ok char_width str_width usize_max graphemes word_bounds before (resume rule c)) as (m1 & E1 & H1);
    [done..|by apply resume_fits|].
  assert (settled m1) as Hs.
  { apply (settled_feed_all before (resume rule c) m1); [done|done|done|by apply resume_fits|by apply settled_resume|done]. }
  assert (m_rule m1 = rule) as Hr1 by by rw (ext_rule _ _ _ _ H1).
  assert (fits usize_max m1) as Hfit1 by by apply (ext_fits _ _ _ _ H1), resume_fits.
  destruct (machine_feed_ok char_width str_width usize_max graphemes word_bounds m1 nl Hmax Hseg Hnl Hfit1) as (m2 & E2 & H2).
  pose proof (newline_resumes m1 nl m2 Hs ltac:(by rw Hr1) Hk E2) as Hm2.
  destruct (newline_closes m1 nl m2 ltac:(by rw Hr1) Hk E2) as [Hc1 Hc2]. rw Hr1 in Hm2.
  destruct (resume_fields (Style := Style) rule (m_row_carry m2)) as (Q1 & Q2 & Q3 & _).
  assert (fits usize_max (resume rule (m_row_carry m2) : Machine)) as Hfit2.
  { pose proof (ext_fits _ _ _ _ H2 Hfit1) as Hf. by rw Hm2 in Hf. }
  destruct (feed_all_ok char_width str_width usize_max graphemes word_bounds after (resume rule (m_row_carry m2)))
    as (m3 & E3 & H3); [done..|].
  exists (finish m2), (m_row_carry m2), (finish m3). split_and!.
  - unfold WrapMachine.run_from. rw feed_all_app E1. cbn. by rw E2.
  - unfold WrapMachine.run_from. by rw E3.
  - by rw finish_first (ext_first _ _ _ _ H3) resume_first.
  - intros Hne. unfold WrapMachine.run_from. rw feed_all_app E1. cbn [mbind res_bind WrapMachine.feed_all]. rw E2. cbn [mbind res_bind].
    rw {1}Hm2 feed_all_prepend E3. cbn [fmap res_fmap mbind res_bind]. f_equal.
    destruct (ext_rows _ _ _ _ H3 ltac:(by rw Q1) [] Q3) as [rs Hrs].
    rw finish_prepend; [by apply (rows_inv_out rs)|done|]. by rw (finish_closed m2 Hc1 Hc2).
Qed.
End resume.

Lemma wrap_resumes_at_line_witness :
  let after := [mkToken (Some 10) (Text [x61; x62; x63]) None] in
  exists out1 c2 out2,
    run_from byte_clusters (fun _ => []) (fun _ => 1) length 400 (removelast sample_tokens ++ [mkToken (Some 9) Newline None])
      (Word 7 0 true) carry_default = Ok out1
    /\ run_from byte_clusters (fun _ => []) (fun _ => 1) length 400 after (Word 7 0 true) c2 = Ok out2
    /\ ri_carry <$> head (wo_rows out2) = Some c2
    /\ (wo_tokens out2 <> [] ->
        run_from byte_clusters (fun _ => []) (fun _ => 1) length 400
          (removelast sample_tokens ++ mkToken (Some 9) Newline None :: after) (Word 7 0 true) carry_default
        = Ok (append_output out1 out2)).
Proof.
  apply (wrap_resumes_at_line (fun _ => 1) length 400 byte_clusters (fun _ => []) (removelast sample_tokens)
    (mkToken (Some 9) Newline None) [mkToken (Some 10) (Text [x61; x62; x63]) None] (Word 7 0 true) carry_default);
    [lia|exact byte_clusters_segment|repeat constructor; cbn; try done; by right|split; [by left|done]|done|done|reflexivity].
Defined.

(** ** Limits *)

(** A row that ends inside the leading blanks of a line loses that they are still being
    measured: fourteen spaces and a word of thirty letters on twelve columns, resumed from
    the carry of the second row, give other rows than the whole run. *)
Theorem resume_mid_indent_differs :
  let tokens : list (ViewTokenWire nat) :=
    ((fun i => mkToken (Some i) Space None) <$> seq 0 14) ++ [mkToken (Some 14) (Text (replicate 30 x61)) None] in
  let rows_from tokens c :=
    omap ri_source_byte ∘ wo_rows <$> run_from byte_clusters (fun _ => []) (fun _ => 1) length 400 tokens (Word 12 0 true) c in
  rows_from tokens carry_default = Ok [0; 12; 23; 33; 43]
  /\ (out ← run_from byte_clusters (fun _ => []) (fun _ => 1) length 400 tokens (Word 12 0 true) carry_default;
      rows_from (drop 12 tokens) (default carry_default (ri_carry <$> (wo_rows out !! 1)))) = Ok [12; 23; 34].
Proof. split; vm_compute; reflexivity. Qed.

(** A grid row that ends inside an escape: resumed from its carry, the parser does not know
    the introducer, and a character of two bytes that comes next makes it panic.  The text
    is an operating system command with a space in its title; the whole run is fine. *)
Theorem resume_in_escape_panics :
  let tokens : list (ViewTokenWire nat) :=
    [mkToken (Some 0) (Text [x61; x62; x1b; x5d]) None; mkToken (Some 4) Space None;
     mkToken (Some 5) (Text [xc3; xa9; x07]) None] in
  let clusters s := encode_utf8 <$> from_utf8_lossy s in
  let open_escape := mkRowCarry 0 true true 0 in
  (fmap ri_carry ∘ wo_rows <$> run_from clusters (fun _ => []) (fun _ => 1) length 400 tokens (Grid 2) carry_default)
    = Ok [carry_default; open_escape]
  /\ run_from clusters (fun _ => []) (fun _ => 1) length 400 (drop 1 tokens) (Grid 2) open_escape = Panic.
Proof. split; vm_compute; reflexivity. Qed.
