(* ===== verification/GlobMatch.v ===== *)
(** * Glob patterns

    Models primitives/glob_match.rs of the core crate: matching file names and paths with
    patterns, by backtracking loops.

    A position in a pattern or text is what is left of it.  The loops take fuel; running out
    of it is [Panic].  The lossy strings of a path and of its file name are arguments of
    [matches_any_entry]. *)
From stdpp Require Import base numbers list option.
From Stdlib Require Import ssreflect Strings.Byte NArith.
From S2P Require Import Prelude TextSpec Utf8.

Abbreviation star := x2a.
Abbreviation question := x3f.
Abbreviation slash := x2f.
Abbreviation backslash := x5c.

Definition is_glob_pattern (pattern : list byte) : bool :=
  bool_decide (star ∈ pattern) || bool_decide (question ∈ pattern).

Definition is_path_pattern (pattern : list byte) : bool :=
  bool_decide (slash ∈ pattern) || bool_decide (backslash ∈ pattern).

Fixpoint skip_stars (p : list byte) : list byte :=
  match p with x :: p' => if decide (x = star) then skip_stars p' else p | [] => [] end.

(** The test behind the loops: only stars are left of the pattern. *)
Definition only_stars (p : list byte) : bool := bool_decide (skip_stars p = []).

(** ** File names *)
Fixpoint glob_loop (fuel : nat) (p t : list byte) (saved : option (list byte * list byte)) : res bool :=
  match t with
  | [] => Ok (only_stars p)
  | c :: t' =>
      match fuel with
      | 0 => Panic
      | S fuel =>
          let backtrack :=
            match saved with
            | Some (star_p, star_t) => glob_loop fuel star_p (tail star_t) (Some (star_p, tail star_t))
            | None => Ok false
            end in
          match p with
          | x :: p' =>
              if decide (x = question \/ x = c) then glob_loop fuel p' t' saved
              else if decide (x = star) then glob_loop fuel p' t (Some (p', t))
              else backtrack
          | [] => backtrack
          end
      end
  end.

Definition glob_match_bytes (pattern text : list byte) : res bool :=
  glob_loop ((length text + 2) * (length pattern + 1)) pattern text None.

(** ** Paths *)
Definition is_path_sep (b : byte) : bool := bool_decide (b = slash) || bool_decide (b = backslash).

Definition path_chars_match (pattern_byte text_byte : byte) : bool :=
  bool_decide (pattern_byte = text_byte) || is_path_sep pattern_byte && is_path_sep text_byte.

Definition skip_sep (p : list byte) : list byte :=
  match p with x :: p' => if is_path_sep x then p' else p | [] => [] end.

Fixpoint path_glob_loop (fuel : nat) (p t : list byte) (dstar single : option (list byte * list byte)) : res bool :=
  match t with
  | [] => Ok (only_stars p)
  | c :: t' =>
      match fuel with
      | 0 => Panic
      | S fuel =>
          let backtrack_dstar :=
            match dstar with
            | Some (dstar_p, dstar_t) => path_glob_loop fuel dstar_p (tail dstar_t) (Some (dstar_p, tail dstar_t)) None
            | None => Ok false
            end in
          let backtrack :=
            match single with
            | Some (star_p, star_t) =>
                if negb (is_path_sep (default x00 (head star_t)))
                then path_glob_loop fuel star_p (tail star_t) dstar (Some (star_p, tail star_t))
                else backtrack_dstar
            | None => backtrack_dstar
            end in
          match p with
          | x :: p' =>
              if decide (x = star) then
                if decide (head p' = Some star) then
                  let next_p := skip_sep (skip_stars p') in
                  path_glob_loop fuel next_p t (Some (next_p, t)) None
                else path_glob_loop fuel p' t dstar (Some (p', t))
              else if bool_decide (x = question) && negb (is_path_sep c) then path_glob_loop fuel p' t' dstar single
              else if path_chars_match x c then path_glob_loop fuel p' t' dstar single
              else backtrack
          | [] => backtrack
          end
      end
  end.

Definition path_glob_match_bytes (pattern text : list byte) : res bool :=
  path_glob_loop ((length text + 2) * ((length text + 3) * (length pattern + 1))) pattern text None None.

(** ** Pattern lists *)
Definition filename_glob_matches (pattern filename : list byte) : res bool := glob_match_bytes pattern filename.
Definition path_glob_matches (pattern path : list byte) : res bool := path_glob_match_bytes pattern path.

Definition literal_entry_matches (pattern filename : list byte) : bool :=
  negb (is_glob_pattern pattern) && bool_decide (pattern = filename).

Definition glob_entry_matches (pattern path filename : list byte) : res bool :=
  if is_glob_pattern pattern
  then if is_path_pattern pattern then path_glob_matches pattern path else filename_glob_matches pattern filename
  else Ok false.

Fixpoint matches_any_entry (patterns : list (list byte)) (path filename : list byte) : res bool :=
  match patterns with
  | [] => Ok false
  | p :: patterns =>
      if literal_entry_matches p filename then Ok true else
      b ← glob_entry_matches p path filename;
      if (b : bool) then Ok true else matches_any_entry patterns path filename
  end.
