(* ===== verification/GlobPath.v ===== *)
(** * Path patterns mean what they say

    The path matcher keeps one place to return to for the last single star and one for the
    last double star; that is enough: it agrees with a reference in which every star may
    match in any way. *)
From stdpp Require Import base numbers list option.
From Stdlib Require Import ssreflect Strings.Byte NArith Wf_nat.
From S2P Require Import Prelude TextSpec Utf8 GlobMatch.

(** ** Glob patterns mean what they say

    The backtracking matchers agree with reference definitions that try every way a star
    can match. *)
(** ** Suffixes *)
Fixpoint tails {A} (l : list A) : list (list A) :=
  l :: match l with [] => [] | _ :: l => tails l end.

Lemma elem_of_tails {A} (s l : list A) : s ∈ tails l <-> s `suffix_of` l.
Proof.
  revert s. induction l as [|x l IH]; intros s; cbn [tails].
  - rw list_elem_of_singleton. split; [by intros ->|]. apply suffix_nil_inv.
  - rw elem_of_cons IH. split; [intros [->|H]; [done|by apply suffix_cons_r]|].
    intros [[|y k] H]; simplify_eq/=; [by left|right; by exists k].
Qed.

Lemma existsb_true {A} (f : A -> bool) l : existsb f l = true <-> exists x, x ∈ l /\ f x = true.
Proof.
  induction l as [|y l IH]; cbn [existsb]; [split; [done|by intros (x & ?%elem_of_nil & _)]|].
  rw orb_true_iff IH. split.
  - intros [H|(x & Hx & H)]; [exists y|exists x]; rw elem_of_cons; auto.
  - intros (x & [->|Hx]%elem_of_cons & H); [by left|right; by exists x].
Qed.

Lemma suffix_length_eq {A} (a b : list A) l : a `suffix_of` l -> b `suffix_of` l -> length a = length b -> a = b.
Proof.
  intros [x ->] [y H] Hl. apply app_inj_2 in H as [_ H]; [done|]. lia.
Qed.

Lemma suffix_shorter {A} (a b : list A) l : a `suffix_of` l -> b `suffix_of` l -> length a <= length b -> a `suffix_of` b.
Proof.
  intros [x ->] [y H] Hl. assert (length y <= length x) as Hxy.
  { apply (f_equal length) in H. rw !length_app in H. lia. }
  exists (drop (length y) x). apply (f_equal (drop (length y))) in H.
  rw drop_app_length in H. rw -H drop_app_le //.
Qed.

(** ** File names *)

(** The reference: a star matches any bytes, a question mark one. *)
Fixpoint glob_matches (p t : list byte) : bool :=
  match p with
  | [] => bool_decide (t = [])
  | x :: p =>
      if decide (x = star) then existsb (glob_matches p) (tails t)
      else match t with
           | [] => false
           | c :: t => bool_decide (x = question \/ x = c) && glob_matches p t
           end
  end.

Lemma glob_star p t : glob_matches (star :: p) t = true <-> exists s, s `suffix_of` t /\ glob_matches p s = true.
Proof. cbn. rw existsb_true. setoid_rewrite elem_of_tails. done. Qed.

Lemma glob_empty p : glob_matches p [] = only_stars p.
Proof.
  induction p as [|x p IH]; [done|]. unfold only_stars in *. cbn [glob_matches skip_stars].
  destruct (decide (x = star)); [|by rw bool_decide_eq_false_2]. cbn. by rw orb_false_r IH.
Qed.

(** Bytes of a pattern without stars, and what they match. *)
Definition matched (w u : list byte) : Prop := Forall2 (fun x c => x <> star /\ (x = question \/ x = c)) w u.

Lemma glob_matched w u p t : matched w u -> glob_matches (w ++ p) (u ++ t) = glob_matches p t.
Proof.
  induction 1 as [|x c w u [Hx Hc] _ IH]; [done|]. cbn [app glob_matches].
  rw decide_False //. by rw (bool_decide_eq_true_2 _ Hc) IH.
Qed.

Lemma glob_matched_inv w u p s :
  matched w u -> glob_matches (w ++ p) s = true -> exists v s', s = v ++ s' /\ length v = length w /\ glob_matches p s' = true.
Proof.
  intros H. revert s. induction H as [|x c w u [Hx _] _ IH]; intros s Hs; [by exists [], s|].
  cbn [app glob_matches] in Hs. rw decide_False // in Hs. destruct s as [|d s]; [done|].
  apply andb_true_iff in Hs as [_ (v & s' & -> & Hv & Hp)%IH]. exists (d :: v), s'. split_and!; [done|cbn; by rw Hv|done].
Qed.

(** The other ways a saved star can match. *)
Definition later (saved : option (list byte * list byte)) : bool :=
  match saved with
  | Some (star_p, _ :: star_t) => existsb (glob_matches star_p) (tails star_t)
  | _ => false
  end.

Lemma later_true star_p star_t :
  later (Some (star_p, star_t)) = true <->
  exists s, s `suffix_of` star_t /\ length s < length star_t /\ glob_matches star_p s = true.
Proof.
  destruct star_t as [|c t]; cbn [later]; [split; [done|intros (s & _ & H & _); cbn in H; lia]|].
  rw existsb_true. setoid_rewrite elem_of_tails. split.
  - intros (s & H1 & H2). exists s. split_and!; [by apply suffix_cons_r| |done]. apply suffix_length in H1. cbn. lia.
  - intros (s & [k H1] & H2 & H3). exists s. split; [|done]. destruct k as [|d k]; simplify_eq/=; [lia|]. by exists k.
Qed.

Definition glob_inv (p t : list byte) (saved : option (list byte * list byte)) : Prop :=
  match saved with
  | Some (star_p, star_t) => exists w u, star_p = w ++ p /\ star_t = u ++ t /\ matched w u
  | None => True
  end.

Lemma glob_inv_fresh p t : glob_inv p t (Some (p, t)).
Proof. exists [], []. split_and!; [done|done|constructor]. Qed.

Lemma later_end p saved : glob_inv p [] saved -> later saved = false.
Proof.
  destruct saved as [[sp st]|]; [|done]. intros (w & u & -> & -> & Hm). apply not_true_iff_false. rw later_true.
  intros (s & _ & Hs & H). apply (glob_matched_inv w u) in H as (v & s' & -> & Hv & _); [|done].
  apply Forall2_length in Hm. rw app_nil_r length_app in Hs. lia.
Qed.

(** A new star makes up for the one before it. *)
Lemma later_star p t saved : glob_inv (star :: p) t saved -> later saved = true -> glob_matches (star :: p) t = true.
Proof.
  destruct saved as [[sp st]|]; [|done]. intros (w & u & -> & -> & Hm). rw later_true.
  intros (s & Hs & Hlt & H). apply (glob_matched_inv w u) in H as (v & s' & -> & Hv & (s2 & Hs2 & H2)%glob_star); [|done].
  apply glob_star. exists s2. split; [|done]. etransitivity; [exact Hs2|].
  apply Forall2_length in Hm. rw !length_app in Hlt.
  apply (suffix_shorter _ _ (u ++ t)); [|by eexists|lia]. etransitivity; [|exact Hs]. by eexists.
Qed.

Definition saved_room (text_len : nat) (saved : option (list byte * list byte)) : nat :=
  match saved with Some (_, star_t) => length star_t | None => S text_len end.

Lemma later_step sp c st :
  later (Some (sp, c :: st)) = glob_matches sp st || later (Some (sp, st)).
Proof. cbn [later]. destruct st as [|d st]; cbn [tails existsb]; [by rw orb_false_r|done]. Qed.

Lemma glob_loop_correct pattern_len text_len fuel : forall p t saved,
  (star ∉ t) -> match saved with Some (sp, st) => (star ∉ st) /\ length sp <= pattern_len | None => True end ->
  length t <= saved_room text_len saved -> length p <= pattern_len -> glob_inv p t saved ->
  saved_room text_len saved * (pattern_len + 1) + length p < fuel ->
  glob_loop fuel p t saved = Ok (glob_matches p t || later saved).
Proof.
  induction fuel as [|fuel IH]; intros p t saved Ht Hsaved Hroom Hp Hinv Hfuel; [lia|].
  destruct t as [|c t]; cbn [glob_loop]; [by rw (later_end _ _ Hinv) glob_empty orb_false_r|].
  assert (glob_matches p (c :: t) = false ->
    match saved with
    | Some (star_p, star_t) => glob_loop fuel star_p (tail star_t) (Some (star_p, tail star_t))
    | None => Ok false
    end = Ok (glob_matches p (c :: t) || later saved)) as Hback.
  { intros ->. destruct saved as [[sp st]|]; [|done]. destruct Hsaved as [Hst Hsp].
    assert (exists d st', st = d :: st') as (d & st' & ->).
    { destruct Hinv as (w & [|d u] & _ & -> & _); by do 2 eexists. }
    cbn [tail orb]. rw later_step. cbn [saved_room length] in Hfuel.
    apply not_elem_of_cons in Hst as [_ Hst].
    apply IH; [done|done|done|done|apply glob_inv_fresh|cbn; lia]. }
  destruct p as [|x p]; [by apply Hback|].
  destruct (decide (x = question \/ x = c)) as [Hx|Hx].
  - assert (x <> star) as Hstar by (intros ->; destruct Hx as [Hx|Hx]; [done|by apply not_elem_of_cons in Ht as [Ht _]]).
    cbn [glob_matches]. rw (decide_False (P := x = star)) // (bool_decide_eq_true_2 _ Hx). cbn in Hp, Hroom, Hfuel.
    apply not_elem_of_cons in Ht as [_ Ht]. apply IH; [done|done|lia|lia| |lia].
    destruct saved as [[sp st]|]; [|done]. destruct Hinv as (w & u & -> & -> & Hm).
    exists (w ++ [x]), (u ++ [c]). split_and!; [by rw -app_assoc|by rw -app_assoc|]. apply Forall2_app; [done|]. constructor; [by split|constructor].
  - destruct (decide (x = star)) as [->|Hstar].
    + cbn [length] in Hp, Hfuel. rw (IH p (c :: t) (Some (p, c :: t))); [done|split; [done|lia]|done|lia|apply glob_inv_fresh| |].
      { cbn [saved_room]. pose proof (Nat.mul_le_mono_r _ _ (pattern_len + 1) Hroom). lia. }
      f_equal. change (glob_matches (star :: p) (c :: t)) with (glob_matches p (c :: t) || later (Some (p, c :: t))).
      destruct (later saved) eqn:El; [|by rw orb_false_r].
      rw orb_true_r. exact (later_star _ _ _ Hinv El).
    + apply Hback. cbn [glob_matches]. rw (decide_False (P := x = star)) //. by rw bool_decide_eq_false_2.
Qed.

Lemma glob_bytes_correct pattern text : star ∉ text -> glob_match_bytes pattern text = Ok (glob_matches pattern text).
Proof.
  intros H. unfold glob_match_bytes.
  rw (glob_loop_correct (length pattern) (length text)); [done|done|cbn; lia|done|done|cbn; lia|].
  by rw orb_false_r.
Qed.

(** A file name matches a pattern exactly when its stars can be replaced by bytes, and
    its question marks by one byte each, to give the name; the matcher always ends.  Names
    that contain a star are excluded. *)
Theorem filename_glob_correct pattern filename :
  star ∉ filename -> filename_glob_matches pattern filename = Ok (glob_matches pattern filename).
Proof. apply glob_bytes_correct. Qed.

(** A star of the pattern is taken literally where the name has a star: the pattern that
    matches every name does not match this one. *)
Theorem glob_literal_star : filename_glob_matches [star] [star; x61] = Ok false /\ glob_matches [star] [star; x61] = true.
Proof. split; reflexivity. Qed.

Lemma filename_glob_correct_witness :
  filename_glob_matches [star; x2e; x72; x63] [x61; x2e; x62; x2e; x72; x63] = Ok true
  /\ filename_glob_matches [star; x2e; x72; x63] [x61; x2e; x62; x2e; x72; x63]
      = Ok (glob_matches [star; x2e; x72; x63] [x61; x2e; x62; x2e; x72; x63]).
Proof.
  split; [reflexivity|]. apply (filename_glob_correct [star; x2e; x72; x63] [x61; x2e; x62; x2e; x72; x63]).
  apply (bool_decide_eq_false_1 (star ∈ [x61; x2e; x62; x2e; x72; x63])). reflexivity.
Defined.

Abbreviation no_sep := (Forall (fun c => is_path_sep c = false)).

(** A byte of a pattern that is not a star, and a byte it matches. *)
Definition lit (x c : byte) : Prop :=
  x <> star /\ (x = question /\ is_path_sep c = false \/ path_chars_match x c = true).

(** ** The reference *)
Inductive path_match : list byte -> list byte -> Prop :=
| pm_end p : only_stars p = true -> path_match p []
| pm_deep p s t :
    head p = Some star -> t <> [] -> s `suffix_of` t -> path_match (skip_sep (skip_stars p)) s ->
    path_match (star :: p) t
| pm_star p a s : head p <> Some star -> no_sep a -> path_match p s -> path_match (star :: p) (a ++ s)
| pm_lit x c p t : lit x c -> path_match p t -> path_match (x :: p) (c :: t).

(** Stretches of a pattern without stars. *)
Definition lits (w u : list byte) : Prop := Forall2 lit w u.

Lemma only_stars_cons x p : only_stars (x :: p) = bool_decide (x = star) && only_stars p.
Proof.
  unfold only_stars. cbn [skip_stars]. destruct (decide (x = star)) as [->|Hx]; [done|].
  by rw (bool_decide_eq_false_2 (x = star)).
Qed.

Lemma path_match_nil p : path_match p [] <-> only_stars p = true.
Proof.
  split; [|by constructor]. remember [] as t eqn:Et. induction 1 as [| |p a s _ _ _ IH|]; try done.
  apply app_eq_nil in Et as [-> ->]. rw only_stars_cons. by apply IH.
Qed.

Lemma path_match_lit x c p t : lit x c -> path_match (x :: p) (c :: t) <-> path_match p t.
Proof. intros Hl. split; [|by constructor]. inversion 1; subst; [by destruct Hl|by destruct Hl|done]. Qed.

Lemma path_match_lits w u p t : lits w u -> path_match (w ++ p) (u ++ t) <-> path_match p t.
Proof. induction 1 as [|x c w u Hl _ IH]; [done|]. cbn [app]. by rw path_match_lit. Qed.

Lemma path_match_lits_inv w u p s :
  lits w u -> path_match (w ++ p) s -> exists v s', s = v ++ s' /\ lits w v /\ path_match p s'.
Proof.
  intros H. revert s. induction H as [|x c w u Hl _ IH]; intros s Hs; [exists [], s; split_and!; [done|constructor|done]|].
  cbn [app] in Hs. inversion Hs as [? Ho| | |? d ? t Hl' Hm]; subst; [|by destruct Hl|by destruct Hl|].
  - rw only_stars_cons in Ho. apply andb_true_iff in Ho as [->%bool_decide_eq_true _]. by destruct Hl.
  - apply IH in Hm as (v & s' & -> & Hv & Hm). exists (d :: v), s'. split_and!; [done|by constructor|done].
Qed.

Lemma path_match_star p t :
  head p <> Some star -> path_match (star :: p) t <-> exists a s, t = a ++ s /\ no_sep a /\ path_match p s.
Proof.
  intros Hp. split; [|intros (a & s & -> & Ha & Hs); by constructor].
  inversion 1 as [? Ho| | |? ? ? ? [? _]]; subst; [|done|by do 2 eexists|done].
  exists [], []. split_and!; [done|constructor|]. constructor. rw only_stars_cons in Ho. by apply andb_true_iff in Ho as [_ Ho].
Qed.

Lemma only_stars_skip p : only_stars p = true -> skip_stars p = [].
Proof. apply bool_decide_eq_true. Qed.

Lemma path_match_deep p t :
  head p = Some star -> t <> [] ->
  path_match (star :: p) t <-> exists s, s `suffix_of` t /\ path_match (skip_sep (skip_stars p)) s.
Proof.
  intros Hp Ht. split; [|intros (s & Hs & H); by apply (pm_deep p s)].
  inversion 1 as [|? s ? ? ? Hs Hm|?|? ? ? ? [? _]]; subst; [done|by exists s|done|done].
Qed.

(** A double star can skip more. *)
Lemma path_match_deep_mono p s t :
  head p = Some star -> t <> [] -> s `suffix_of` t -> path_match (star :: p) s -> path_match (star :: p) t.
Proof.
  intros Hp Ht Hs Hm. apply path_match_deep; [done|done|]. destruct s as [|c s].
  - apply path_match_nil in Hm. rw only_stars_cons in Hm. apply andb_true_iff in Hm as [_ Hm%only_stars_skip].
    exists []. split; [apply suffix_nil|]. rw Hm. by constructor.
  - apply path_match_deep in Hm as (s' & Hs' & Hm); [|done|done]. exists s'. split; [etransitivity; [exact Hs'|exact Hs]|done].
Qed.

(** ** Separators stay in place *)
Lemma lit_sep x c : lit x c -> is_path_sep c = is_path_sep x.
Proof.
  intros [_ [[-> ->]|H]]; [done|]. unfold path_chars_match in H. apply orb_true_iff in H as [->%bool_decide_eq_true|H]; [done|].
  by apply andb_true_iff in H as [-> ->].
Qed.

Lemma lits_sep w u : lits w u -> is_path_sep <$> u = is_path_sep <$> w.
Proof. induction 1 as [|x c w u Hl _ IH]; [done|]. cbn. by rw IH (lit_sep x c). Qed.

(** If the same pattern matches at the start of a text and behind bytes that are no
    separators, neither match has separators. *)
Lemma shifted_no_sep w u v a t s :
  lits w u -> lits w v -> u ++ t = a ++ v ++ s -> a <> [] -> no_sep a -> no_sep (a ++ v).
Proof.
  intros Hu Hv Hst Ha Hs. apply Forall_app. split; [done|]. apply Forall_lookup. intros i.
  apply lits_sep in Hu, Hv. rw -Hv in Hu.
  induction i as [i IH] using lt_wf_ind. intros c Hc.
  assert (exists d, u !! i = Some d /\ is_path_sep d = is_path_sep c) as (d & Hd & <-).
  { assert ((is_path_sep <$> u) !! i = Some (is_path_sep c)) as H by (rw Hu list_lookup_fmap; by rw Hc).
    rw list_lookup_fmap in H. destruct (u !! i) as [d|]; [|done]. exists d. split; [done|]. by injection H. }
  assert ((a ++ v ++ s) !! i = Some d) as Hi by (rw -Hst; by apply lookup_app_l_Some).
  destruct (decide (i < length a)) as [Hlt|Hge].
  - rw lookup_app_l // in Hi. by apply (Forall_lookup_1 _ _ _ _ Hs Hi).
  - assert (0 < length a) by (destruct a; [done|cbn; lia]).
    rw lookup_app_r in Hi; [lia|]. assert (i - length a < length v) as Hv' by (apply lookup_lt_Some in Hc; lia).
    rw lookup_app_l // in Hi. apply (IH (i - length a)); [lia|done].
Qed.

(** ** The places to return to *)
Abbreviation place := (option (list byte * list byte)).

(** What they can still find. *)
Definition later_single (single : place) : Prop :=
  match single with
  | Some (sp, st) => exists a s, st = a ++ s /\ a <> [] /\ no_sep a /\ path_match sp s
  | None => False
  end.

Definition later_deep (dstar : place) : Prop :=
  match dstar with
  | Some (dp, dt) => exists s, s `suffix_of` dt /\ length s < length dt /\ path_match dp s
  | None => False
  end.

(** How the loop got from there to where it is. *)
Definition single_inv (p t : list byte) (single : place) : Prop :=
  match single with
  | Some (sp, st) => head sp <> Some star /\ exists w u, sp = w ++ p /\ st = u ++ t /\ lits w u
  | None => True
  end.

Definition deep_inv (p t : list byte) (dstar single : place) : Prop :=
  match dstar, single with
  | None, _ => True
  | Some (dp, dt), None => exists w u, dp = w ++ p /\ dt = u ++ t /\ lits w u
  | Some (dp, dt), Some (sp, st) =>
      st `suffix_of` dt
      /\ forall s, s `suffix_of` dt -> path_match dp s -> exists s', s' `suffix_of` st /\ path_match sp s'
  end.

Lemma lits_passes w u p t s :
  lits w u -> s `suffix_of` u ++ t -> path_match (w ++ p) s -> exists s2, s2 `suffix_of` t /\ path_match p s2.
Proof.
  intros Hw Hs Hm. apply (path_match_lits_inv w u) in Hm as (v & s2 & -> & Hv & Hm); [|done].
  exists s2. split; [|done]. apply (suffix_shorter _ _ (u ++ t)); [|by eexists|].
  - etransitivity; [|exact Hs]. by eexists.
  - apply suffix_length in Hs. apply Forall2_length in Hw, Hv. rw !length_app in Hs. lia.
Qed.

(** A match from a place to return to passes the pattern's position no earlier than now. *)
Lemma single_passes p t single :
  single_inv p t single -> later_single single -> exists s2, s2 `suffix_of` t /\ path_match p s2.
Proof.
  destruct single as [[sp st]|]; [|done]. intros (_ & w & u & -> & -> & Hw) (a & s & Hst & _ & _ & Hm).
  apply (lits_passes w u p t s); [done| |done]. rw Hst. by eexists.
Qed.

Lemma deep_passes p t dp dt single s :
  single_inv p t single -> deep_inv p t (Some (dp, dt)) single -> s `suffix_of` dt -> path_match dp s ->
  exists s2, s2 `suffix_of` t /\ path_match p s2.
Proof.
  intros Hs Hd Hsuf Hm. destruct single as [[sp st]|].
  - destruct Hs as (_ & w & u & -> & -> & Hw), Hd as [_ Hd]. destruct (Hd s Hsuf Hm) as (s' & Hs' & Hm').
    by apply (lits_passes w u p t s').
  - destruct Hd as (w & u & -> & -> & Hw). by apply (lits_passes w u p t s).
Qed.

Lemma later_passes p t dstar single :
  single_inv p t single -> deep_inv p t dstar single -> later_single single \/ later_deep dstar ->
  exists s2, s2 `suffix_of` t /\ path_match p s2.
Proof.
  intros Hs Hd [H|H]; [by apply (single_passes p t single)|].
  destruct dstar as [[dp dt]|]; [|done]. destruct H as (s & Hsuf & _ & Hm). by apply (deep_passes p t dp dt single s).
Qed.

(** A new single star makes up for the one before it. *)
Lemma single_absorbed p t single :
  head p <> Some star -> single_inv (star :: p) t single -> later_single single -> path_match (star :: p) t.
Proof.
  intros Hp. destruct single as [[sp st]|]; [|done]. intros (_ & w & u & -> & -> & Hw) (a & s & Hst & Ha & Hsep & Hm).
  apply (path_match_lits_inv w u) in Hm as (v & s2 & -> & Hv & (b & s3 & -> & Hb & Hm)%path_match_star); [|done|done].
  pose proof (shifted_no_sep w u v a t (b ++ s3) Hw Hv Hst Ha Hsep) as Hns.
  assert (t = (drop (length u) (a ++ v) ++ b) ++ s3) as ->.
  { apply (f_equal (drop (length u))) in Hst. rw drop_app_length app_assoc in Hst.
    assert (length u <= length (a ++ v)) as Hle by (apply Forall2_length in Hw, Hv; rw length_app; lia).
    by rw Hst drop_app_le // -app_assoc. }
  constructor; [done| |done]. apply Forall_app. split; [by apply Forall_drop|done].
Qed.

(** ** Going back *)
Lemma later_single_step sp d st :
  is_path_sep d = false -> later_single (Some (sp, d :: st)) <-> path_match sp st \/ later_single (Some (sp, st)).
Proof.
  intros Hd. split.
  - intros (a & s & Hst & Ha & Hsep & Hm). destruct a as [|d' a]; [done|]. injection Hst as -> ->.
    apply Forall_cons_1 in Hsep as [_ Hsep]. destruct a as [|e a]; [by left|right]. by exists (e :: a), s.
  - intros [Hm|(a & s & -> & Ha & Hsep & Hm)]; [exists [d], st|exists (d :: a), s]; split_and!; try done; by repeat constructor.
Qed.

Lemma later_single_sep sp d st : is_path_sep d = true -> ~ later_single (Some (sp, d :: st)).
Proof.
  intros Hd ([|d' a] & s & Hst & Ha & Hsep & _); [done|]. injection Hst as -> _.
  apply Forall_cons_1 in Hsep as [Hsep _]. congruence.
Qed.

Lemma suffix_cons_cases {A} (s l : list A) d : s `suffix_of` d :: l <-> s = d :: l \/ s `suffix_of` l.
Proof.
  split; [|intros [->|H]; [done|by apply suffix_cons_r]].
  intros [[|x k] H]; simplify_eq/=; [by left|right; by exists k].
Qed.

Lemma later_deep_step dp d dt : later_deep (Some (dp, d :: dt)) <-> path_match dp dt \/ later_deep (Some (dp, dt)).
Proof.
  split.
  - intros (s & [->|Hs]%suffix_cons_cases & Hl & Hm); [lia|]. destruct (decide (length s = length dt)) as [E|E].
    + left. by rw -(suffix_length_eq s dt dt Hs ltac:(done) E).
    + right. exists s. split_and!; [done| |done]. apply suffix_length in Hs. lia.
  - intros [Hm|(s & Hs & Hl & Hm)]; [exists dt|exists s]; (split_and!; [by apply suffix_cons_r|cbn; lia|done]).
Qed.

(** ** The loop *)
Section loop.
Context (pattern_len text_len : nat).

Definition room (pl : place) : nat := match pl with Some (_, t) => length t | None => S text_len end.
Definition short (pl : place) : Prop := match pl with Some (p, t) => length p <= pattern_len /\ length t <= text_len | None => True end.

Definition measure (p : list byte) (dstar single : place) : nat :=
  room dstar * ((text_len + 2) * (pattern_len + 1)) + room single * (pattern_len + 1) + length p.

Record loop_inv (p t : list byte) (dstar single : place) : Prop := {
  li_single : single_inv p t single;
  li_deep : deep_inv p t dstar single;
  li_p : length p <= pattern_len;
  li_t : length t <= text_len;
  li_short_d : short dstar;
  li_short_s : short single;
}.

Definition answers (r : res bool) (P : Prop) : Prop := exists b, r = Ok b /\ (b = true <-> P).

Lemma answers_iff r P Q : answers r P -> (P <-> Q) -> answers r Q.
Proof. intros (b & -> & H) HPQ. exists b. split; [done|]. by rw H. Qed.

Lemma room_short pl : short pl -> room pl <= S text_len.
Proof. destruct pl as [[? ?]|]; cbn; lia. Qed.

(** A position is not earlier than its places to return to. *)
Lemma single_room p t sp st : single_inv p t (Some (sp, st)) -> p = sp /\ t = st \/ length t < length st.
Proof.
  intros (_ & w & u & -> & -> & Hw). destruct Hw as [|x c w u _ Hw]; [by left|right]. cbn. rw length_app. lia.
Qed.

Lemma single_room_star p t sp st : single_inv (star :: p) t (Some (sp, st)) -> length t < length st.
Proof.
  intros H. destruct (single_room _ _ _ _ H) as [[<- _]|Hlt]; [|done]. by destruct H as [H _].
Qed.

Lemma deep_room p t dp dt single :
  single_inv p t single -> deep_inv p t (Some (dp, dt)) single -> length t <= length dt.
Proof.
  intros Hs Hd. destruct single as [[sp st]|].
  - destruct Hd as [Hd%suffix_length _]. destruct (single_room _ _ _ _ Hs) as [[-> ->]|Hlt]; lia.
  - destruct Hd as (w & u & _ & -> & _). rw length_app. lia.
Qed.

Lemma measure_deeper p d s p' d' s' :
  room d' < room d -> room s' <= S text_len -> length p' <= pattern_len -> measure p' d' s' < measure p d s.
Proof.
  intros Hd Hs Hp. unfold measure. generalize (room d) (room d') (room s) (room s') Hd Hs. intros rd rd' rs rs' H1 H2. nia.
Qed.

Lemma measure_single p d s p' s' :
  room s' < room s -> length p' <= pattern_len -> measure p' d s' < measure p d s.
Proof. intros Hs Hp. unfold measure. nia. Qed.

Lemma measure_pattern p d s p' d' : room d' <= room d -> length p' < length p -> measure p' d' s < measure p d s.
Proof.
  intros Hd Hp. unfold measure. pose proof (Nat.mul_le_mono_r _ _ ((text_len + 2) * (pattern_len + 1)) Hd). lia.
Qed.

Lemma fresh_single p t : head p <> Some star -> single_inv p t (Some (p, t)).
Proof. intros Hp. split; [done|]. exists [], []. split_and!; [done|done|constructor]. Qed.

Lemma fresh_deep p t : deep_inv p t (Some (p, t)) None.
Proof. exists [], []. split_and!; [done|done|constructor]. Qed.

Lemma length_skip_stars p : length (skip_stars p) <= length p.
Proof. induction p as [|x p IH]; [done|]. cbn [skip_stars]. case_decide; cbn in *; lia. Qed.

Lemma length_skip_sep p : length (skip_sep p) <= length p.
Proof. destruct p as [|x p]; [done|]. cbn. case_match; cbn; lia. Qed.

(** The step at a double star. *)
Lemma deep_event p t dstar single :
  loop_inv (star :: p) t dstar single ->
  let next := skip_sep (skip_stars p) in
  loop_inv next t (Some (next, t)) None
  /\ measure next (Some (next, t)) None < measure (star :: p) dstar single.
Proof.
  intros [Hs Hd Hp Ht Hsd Hss] next. cbn [length] in Hp.
  assert (length next <= length p) as Hn.
  { unfold next. pose proof (length_skip_stars p). pose proof (length_skip_sep (skip_stars p)). lia. }
  split; [split; [done|apply fresh_deep|lia|done|cbn; lia|done]|].
  destruct dstar as [[dp dt]|]; [|apply measure_deeper; cbn; lia].
  pose proof (deep_room _ _ _ _ _ Hs Hd) as Hr. destruct single as [[sp st]|].
  - apply single_room_star in Hs. destruct Hd as [Hd%suffix_length _]. apply measure_deeper; cbn; lia.
  - apply measure_pattern; cbn; lia.
Qed.

(** The step at a single star. *)
Lemma single_event p t dstar single :
  head p <> Some star -> loop_inv (star :: p) t dstar single ->
  loop_inv p t dstar (Some (p, t)) /\ measure p dstar (Some (p, t)) < measure (star :: p) dstar single.
Proof.
  intros Hp [Hs Hd Hpl Ht Hsd Hss]. cbn [length] in Hpl. split.
  - split; [by apply fresh_single| |lia|done|done|cbn; lia]. destruct dstar as [[dp dt]|]; [|done]. split.
    + destruct single as [[sp st]|].
      * destruct Hd as [Hd _]. destruct Hs as (_ & w & u & _ & -> & _). etransitivity; [by eexists|exact Hd].
      * destruct Hd as (w & u & _ & -> & _). by eexists.
    + intros s Hsuf Hm. destruct (deep_passes _ _ _ _ _ _ Hs Hd Hsuf Hm) as (s2 & Hs2 & (a & s3 & -> & _ & Hm3)%path_match_star); [|done].
      exists s3. split; [|done]. etransitivity; [by eexists|exact Hs2].
  - destruct single as [[sp st]|]; [apply single_room_star in Hs|]; apply measure_single; cbn; lia.
Qed.

(** The step on a byte. *)
Lemma lit_event x c p t dstar single :
  lit x c -> loop_inv (x :: p) (c :: t) dstar single ->
  loop_inv p t dstar single /\ measure p dstar single < measure (x :: p) dstar single.
Proof.
  intros Hl [Hs Hd Hp Ht Hsd Hss]. cbn [length] in *. split; [|apply measure_pattern; cbn; lia].
  assert (forall w u, lits w u -> lits (w ++ [x]) (u ++ [c])) as Hsnoc.
  { intros w u Hw. apply Forall2_app; [done|]. constructor; [done|constructor]. }
  split; [| |lia|lia|done|done].
  - destruct single as [[sp st]|]; [|done]. destruct Hs as (Hh & w & u & -> & -> & Hw). split; [done|].
    exists (w ++ [x]), (u ++ [c]). rw -!app_assoc. auto.
  - destruct dstar as [[dp dt]|]; [|done]. destruct single as [[sp st]|]; [done|].
    destruct Hd as (w & u & -> & -> & Hw). exists (w ++ [x]), (u ++ [c]). rw -!app_assoc. auto.
Qed.

Definition reachable (p t : list byte) (dstar single : place) : Prop :=
  path_match p t \/ later_single single \/ later_deep dstar.

(** Returning to the last single star. *)
Lemma single_back p t dstar sp d st :
  t <> [] -> ~ path_match p t -> loop_inv p t dstar (Some (sp, d :: st)) -> is_path_sep d = false ->
  loop_inv sp st dstar (Some (sp, st)) /\ measure sp dstar (Some (sp, st)) < measure p dstar (Some (sp, d :: st))
  /\ (reachable sp st dstar (Some (sp, st)) <-> reachable p t dstar (Some (sp, d :: st))).
Proof.
  intros Ht Hm [Hs Hd Hp Htl Hsd [Hsp Hst]] Hsep. cbn [length] in Hst. split_and!.
  - split; [apply fresh_single, Hs| |done|lia|done|cbn; lia]. destruct dstar as [[dp dt]|]; [|done].
    destruct Hd as [Hsuf Hd]. split; [etransitivity; [|exact Hsuf]; by apply suffix_cons_r|].
    intros s Hs' Hms. destruct (Hd s Hs' Hms) as (s' & [->|Hs2]%suffix_cons_cases & Hm'); [|by exists s'].
    exfalso. apply Hm. destruct Hs as (_ & w & u & -> & Hu & Hw). rw Hu in Hm'. by apply (path_match_lits w u p t).
  - apply measure_single; cbn; lia.
  - unfold reachable. rw later_single_step //. tauto.
Qed.

(** Returning to the last double star. *)
Lemma deep_back p t dp d dt single :
  ~ path_match p t -> loop_inv p t (Some (dp, d :: dt)) single -> ~ later_single single ->
  loop_inv dp dt (Some (dp, dt)) None /\ measure dp (Some (dp, dt)) None < measure p (Some (dp, d :: dt)) single
  /\ (reachable dp dt (Some (dp, dt)) None <-> reachable p t (Some (dp, d :: dt)) single).
Proof.
  intros Hm [Hs Hd Hp Htl [Hdp Hdt] Hss] Hsingle. cbn [length] in Hdt. split_and!.
  - split; [done|apply fresh_deep|done|lia|cbn; lia|done].
  - apply measure_deeper; cbn; lia.
  - unfold reachable. rw later_deep_step. cbn [later_single]. tauto.
Qed.

(** What a star can still find is what it matches. *)
Lemma deep_reach p t dstar single :
  head p = Some star -> t <> [] -> single_inv (star :: p) t single -> deep_inv (star :: p) t dstar single ->
  let next := skip_sep (skip_stars p) in
  reachable next t (Some (next, t)) None <-> reachable (star :: p) t dstar single.
Proof.
  intros Hh Ht Hs Hd next. transitivity (path_match (star :: p) t).
  - unfold reachable. rw (path_match_deep p t) //. split.
    + intros [Hm|[[]|(s & Hsuf & _ & Hm)]]; [by exists t|by exists s].
    + intros (s & Hsuf & Hm). destruct (decide (length s = length t)) as [E|E].
      * left. by rw -(suffix_length_eq s t t Hsuf ltac:(done) E).
      * right. right. exists s. split_and!; [done| |done]. apply suffix_length in Hsuf. lia.
  - unfold reachable. split; [by left|]. intros [H|H]; [done|].
    destruct (later_passes _ _ _ _ Hs Hd H) as (s2 & Hs2 & Hm). by apply (path_match_deep_mono p s2).
Qed.

Lemma single_reach p t dstar single :
  head p <> Some star -> single_inv (star :: p) t single ->
  reachable p t dstar (Some (p, t)) <-> reachable (star :: p) t dstar single.
Proof.
  intros Hh Hs. assert (path_match (star :: p) t <-> path_match p t \/ later_single (Some (p, t))) as Heq.
  { rw path_match_star //. split.
    - intros ([|d a] & s & -> & Ha & Hm); [by left|right]. by exists (d :: a), s.
    - intros [Hm|(a & s & -> & _ & Ha & Hm)]; [by exists [], t|by exists a, s]. }
  unfold reachable. rw Heq. split; [tauto|]. intros [H|[H|H]]; [tauto| |tauto].
  pose proof (single_absorbed _ _ _ Hh Hs H) as Hm. apply Heq in Hm. tauto.
Qed.

(** Where to go back to, and whether it helps. *)
Lemma loop_back (go : list byte -> list byte -> place -> place -> res bool) p c t dstar single :
  loop_inv p (c :: t) dstar single -> ~ path_match p (c :: t) ->
  (forall p1 t1 d1 s1, loop_inv p1 t1 d1 s1 -> measure p1 d1 s1 < measure p dstar single ->
    answers (go p1 t1 d1 s1) (reachable p1 t1 d1 s1)) ->
  let deep := match dstar with Some (dp, dt) => go dp (tail dt) (Some (dp, tail dt)) None | None => Ok false end in
  answers
    match single with
    | Some (sp, st) => if negb (is_path_sep (default x00 (head st))) then go sp (tail st) dstar (Some (sp, tail st)) else deep
    | None => deep
    end (reachable p (c :: t) dstar single).
Proof.
  intros Hinv Hm Hgo deep.
  assert (~ later_single single -> answers deep (reachable p (c :: t) dstar single)) as Hdeep.
  { intros Hs. unfold deep. destruct dstar as [[dp dt]|]; [|exists false; split; [done|]; by split; [|intros [?|[?|?]]]].
    destruct dt as [|d dt]; [pose proof (deep_room _ _ _ _ _ (li_single _ _ _ _ Hinv) (li_deep _ _ _ _ Hinv)) as Hr; cbn in Hr; lia|].
    destruct (deep_back _ _ _ _ _ _ Hm Hinv Hs) as (H1 & H2 & H3). eapply answers_iff; [by apply Hgo|exact H3]. }
  destruct single as [[sp st]|]; [|by apply Hdeep].
  destruct st as [|d st].
  { destruct (li_single _ _ _ _ Hinv) as (_ & w & u & _ & Hu & _). by destruct u. }
  change (default x00 (head (d :: st))) with d. cbn [tail]. destruct (is_path_sep d) eqn:Hd; cbn [negb]; [by apply Hdeep, later_single_sep|].
  destruct (single_back p (c :: t) dstar sp d st ltac:(done) Hm Hinv Hd) as (H1 & H2 & H3).
  eapply answers_iff; [by apply Hgo|exact H3].
Qed.

Lemma path_glob_loop_correct fuel : forall p t dstar single,
  loop_inv p t dstar single -> measure p dstar single < fuel ->
  answers (path_glob_loop fuel p t dstar single) (reachable p t dstar single).
Proof.
  induction fuel as [|fuel IH]; intros p t dstar single Hinv Hfuel; [lia|].
  destruct t as [|c t]; cbn [path_glob_loop].
  { exists (only_stars p). split; [done|]. rw -path_match_nil. split; [by left|]. intros [H|H]; [done|].
    destruct (later_passes p [] dstar single) as (s2 & ->%suffix_nil_inv & Hm); [apply Hinv|apply Hinv|done|done]. }
  assert (forall p1 t1 d1 s1, loop_inv p1 t1 d1 s1 -> measure p1 d1 s1 < measure p dstar single ->
    answers (path_glob_loop fuel p1 t1 d1 s1) (reachable p1 t1 d1 s1)) as Hgo by (intros; apply IH; [done|lia]).
  pose proof (loop_back (path_glob_loop fuel) p c t dstar single Hinv) as Hback.
  destruct p as [|x p]; [apply Hback; [by inversion 1|done]|].
  assert (forall x', lit x' c -> x = x' -> answers (path_glob_loop fuel p t dstar single) (reachable (x :: p) (c :: t) dstar single)) as Hlit.
  { intros x' Hl ->. destruct (lit_event _ _ _ _ _ _ Hl Hinv) as [H1 H2]. eapply answers_iff; [by apply Hgo|].
    unfold reachable. by rw path_match_lit. }
  destruct (decide (x = star)) as [->|Hx]; [destruct (decide (head p = Some star)) as [Hh|Hh]|].
  - destruct (deep_event _ _ _ _ Hinv) as [H1 H2]. eapply answers_iff; [by apply Hgo|].
    apply (deep_reach p (c :: t) dstar single); [done|done|apply Hinv|apply Hinv].
  - destruct (single_event _ _ _ _ Hh Hinv) as [H1 H2]. eapply answers_iff; [by apply Hgo|].
    apply (single_reach p (c :: t) dstar single); [done|apply Hinv].
  - destruct (bool_decide (x = question) && negb (is_path_sep c)) eqn:Eq.
    { apply andb_true_iff in Eq as [->%bool_decide_eq_true Hc%negb_true_iff]. apply (Hlit question); [|done]. split; [done|by left]. }
    destruct (path_chars_match x c) eqn:Ec; [apply (Hlit x); [|done]; by split; [|right]|].
    apply Hback; [|done]. inversion 1 as [| | |? ? ? ? [_ [[-> Hsep]|Hcm]]]; subst; [done..| |congruence].
    by rw Hsep in Eq.
Qed.
End loop.

Lemma path_glob_answers pattern path :
  answers (path_glob_matches pattern path) (path_match pattern path).
Proof.
  unfold path_glob_matches, path_glob_match_bytes.
  destruct (path_glob_loop_correct (length pattern) (length path)
    ((length path + 2) * ((length path + 3) * (length pattern + 1))) pattern path None None) as (b & E & H).
  - by split.
  - unfold measure. cbn [room]. lia.
  - exists b. split; [done|]. rw H. unfold reachable. cbn [later_single later_deep]. tauto.
Qed.

(** ** What the documentation says of path patterns

    A byte of the pattern stands for itself, a question mark for one character that is not the
    separator, a star for characters other than the separator, a double star for any
    characters, and a double star with a separator for zero or more directory levels: nothing,
    or characters up to and with a separator. *)
Definition levels (a : list byte) : Prop := a = [] \/ list.last a = Some slash.

Inductive doc_match : list byte -> list byte -> Prop :=
| doc_end : doc_match [] []
| doc_byte x p t : x <> star -> x <> question -> doc_match p t -> doc_match (x :: p) (x :: t)
| doc_question c p t : c <> slash -> doc_match p t -> doc_match (question :: p) (c :: t)
| doc_star p a t : head p <> Some star -> Forall (fun c => c <> slash) a -> doc_match p t -> doc_match (star :: p) (a ++ t)
| doc_deep p a t : head p <> Some star -> head p <> Some slash -> doc_match p t -> doc_match (star :: star :: p) (a ++ t)
| doc_levels p a t : levels a -> doc_match p t -> doc_match (star :: star :: slash :: p) (a ++ t).

Definition contains (w p : list byte) : bool := existsb (fun s => bool_decide (take (length w) s = w)) (tails p).

(** The text the documentation speaks of: characters of one byte, and one kind of separator. *)
Definition plain_path (path : list byte) : Prop := Forall (fun c => (code c < 128)%N /\ c <> backslash) path.

(** Patterns it gives a meaning to: no three stars in a row. *)
Definition plain_pattern (pattern : list byte) : Prop := (backslash ∉ pattern) /\ contains [star; star; star] pattern = false.

(** The last byte is neither a star nor a separator. *)
Definition ends_in_name (pattern : list byte) : Prop :=
  match list.last pattern with Some x => x <> star /\ x <> slash | None => True end.

Lemma contains_cons w x p : contains w (x :: p) = bool_decide (take (length w) (x :: p) = w) || contains w p.
Proof. done. Qed.

Lemma contains_tail w x p : contains w (x :: p) = false -> contains w p = false.
Proof. rw contains_cons. by intros [_ ?]%orb_false_iff. Qed.

Lemma plain_tail x p : plain_pattern (x :: p) -> plain_pattern p.
Proof. intros [[_ H1]%not_elem_of_cons H2%contains_tail]. done. Qed.

Lemma ends_tail x p : ends_in_name (x :: p) -> ends_in_name p.
Proof. unfold ends_in_name. by destruct p. Qed.

Lemma not_sep c : is_path_sep c = false <-> c <> slash /\ c <> backslash.
Proof. unfold is_path_sep. rw orb_false_iff !bool_decide_eq_false. done. Qed.

Lemma skip_stars_cons p : head p <> Some star -> skip_stars p = p.
Proof. destruct p as [|x p]; [done|]. intros H. cbn [skip_stars]. rw decide_False //. intros ->. by apply H. Qed.

Lemma skip_sep_plain p : (backslash ∉ p) -> head p <> Some slash -> skip_sep p = p.
Proof.
  destruct p as [|x p]; [done|]. intros [Hb _]%not_elem_of_cons H. cbn [skip_sep]. rw (proj2 (not_sep x)); [|done]. split; [|congruence].
  intros ->. by apply H.
Qed.

(** The reference the loop implements gives what the documentation says, ... *)
Lemma path_match_doc p t :
  path_match p t -> plain_pattern p -> plain_path t -> contains [star; star; slash] p = false -> doc_match p t.
Proof.
  induction 1 as [p Ho|p s t Hh Ht [a ->] _ IH|p a s Hh Ha _ IH|x c p t [Hx Hl] _ IH]; intros Hp Hpath Hno.
  - destruct p as [|x1 [|x2 p]]; [constructor| |].
    + rw only_stars_cons in Ho. apply andb_true_iff in Ho as [->%bool_decide_eq_true _]. by apply (doc_star [] [] []); [|constructor|constructor].
    + rw !only_stars_cons in Ho. apply andb_true_iff in Ho as [->%bool_decide_eq_true [->%bool_decide_eq_true Ho]%andb_true_iff].
      destruct p as [|x3 p]; [by apply (doc_deep [] [] []); [| |constructor]|]. exfalso.
      rw only_stars_cons in Ho. apply andb_true_iff in Ho as [->%bool_decide_eq_true _]. destruct Hp as [_ Hp].
      rw contains_cons in Hp. by rw bool_decide_eq_true_2 in Hp.
  - destruct p as [|x p]; [done|]. injection Hh as ->. apply Forall_app in Hpath as [_ Hpath].
    assert (head p <> Some star /\ head p <> Some slash) as [H1 H2].
    { destruct Hp as [_ Hp]. rw contains_cons in Hp, Hno. apply orb_false_iff in Hp as [Hp%bool_decide_eq_false _], Hno as [Hno%bool_decide_eq_false _].
      destruct p as [|x p]; [done|]. cbn in Hp, Hno |- *. split; intros [= ->]; [by apply Hp|by apply Hno]. }
    assert (skip_sep (skip_stars (star :: p)) = p) as E.
    { change (skip_stars (star :: p)) with (skip_stars p). rw skip_stars_cons // skip_sep_plain //. by destruct Hp as [[_ [_ Hp]%not_elem_of_cons]%not_elem_of_cons _]. }
    rw E in IH. apply doc_deep; [done|done|]. apply IH; [by do 2 apply plain_tail in Hp|done|]. by do 2 apply contains_tail in Hno.
  - apply Forall_app in Hpath as [_ Hpath]. apply doc_star; [done| |].
    + eapply list.Forall_impl; [exact Ha|]. by intros c [? _]%not_sep.
    + apply IH; [by apply plain_tail in Hp|done|by apply contains_tail in Hno].
  - apply Forall_cons_1 in Hpath as [[_ Hc] Hpath]. assert (doc_match p t) as Hm by (apply IH; [by apply plain_tail in Hp|done|by apply contains_tail in Hno]).
    destruct Hl as [[-> [Hs _]%not_sep]|Hl]; [by constructor|].
    assert (x = c) as ->.
    { unfold path_chars_match in Hl. apply orb_true_iff in Hl as [?%bool_decide_eq_true|Hl]; [done|]. destruct Hp as [[Hb _]%not_elem_of_cons _].
      apply andb_true_iff in Hl as [H1 H2]. unfold is_path_sep in H1, H2. rw orb_true_iff !bool_decide_eq_true in H1. rw orb_true_iff !bool_decide_eq_true in H2.
      destruct H1 as [-> | ->], H2 as [-> | ->]; done. }
    destruct (decide (c = question)) as [->|]; [by apply doc_question|by apply doc_byte].
Qed.

Lemma doc_match_empty p : doc_match p [] -> ends_in_name p -> p = [].
Proof.
  remember [] as t eqn:Et. induction 1 as [| | |p a t Hh Ha _ IH|p a t H1 H2 _ IH|p a t Ha _ IH]; intros He; try done.
  all: apply app_eq_nil in Et as [-> ->]; exfalso.
  - pose proof (IH eq_refl (ends_tail _ _ He)) as ->. by destruct He.
  - pose proof (IH eq_refl (ends_tail _ _ (ends_tail _ _ He))) as ->. by destruct He.
  - pose proof (IH eq_refl (ends_tail _ _ (ends_tail _ _ (ends_tail _ _ He)))) as ->. by destruct He.
Qed.

(** ... and all of it, where a double star with a separator is not the end of the pattern. *)
Lemma doc_path_match p t :
  doc_match p t -> plain_pattern p -> plain_path t -> contains [star; star; slash] p = false \/ ends_in_name p -> path_match p t.
Proof.
  induction 1 as [|x p t Hx Hq _ IH|c p t Hc _ IH|p a t Hh Ha _ IH|p a t H1 H2 _ IH|p a t Ha Hm IH]; intros Hp Hpath Hend.
  - by constructor.
  - apply Forall_cons_1 in Hpath as [_ Hpath]. apply pm_lit; [split; [done|right]; unfold path_chars_match; by rw bool_decide_eq_true_2|].
    apply IH; [by apply plain_tail in Hp|done|]. destruct Hend as [?%contains_tail|?%ends_tail]; auto.
  - apply Forall_cons_1 in Hpath as [[_ Hb] Hpath]. apply pm_lit; [split; [done|left; split; [done|by apply not_sep]]|].
    apply IH; [by apply plain_tail in Hp|done|]. destruct Hend as [?%contains_tail|?%ends_tail]; auto.
  - apply Forall_app in Hpath as [Hpa Hpath]. apply pm_star; [done| |].
    + apply Forall_forall. intros c Hc. apply not_sep. split; [by apply (proj1 (Forall_forall _ _) Ha)|by apply (proj1 (Forall_forall _ _) Hpa c Hc)].
    + apply IH; [by apply plain_tail in Hp|done|]. destruct Hend as [?%contains_tail|?%ends_tail]; auto.
  - apply Forall_app in Hpath as [_ Hpath]. assert (path_match p t) as Hm.
    { apply IH; [by do 2 apply plain_tail in Hp|done|]. destruct Hend as [Hc|He]; [left; by do 2 apply contains_tail in Hc|right; by do 2 apply ends_tail in He]. }
    destruct (decide (a ++ t = [])) as [E|Hne].
    + rw E. apply app_eq_nil in E as [_ ->]. apply path_match_nil in Hm. apply pm_end. by rw !only_stars_cons.
    + apply (pm_deep (star :: p) t); [done|done|by eexists|]. change (skip_stars (star :: p)) with (skip_stars p). rw skip_stars_cons // skip_sep_plain //.
      by destruct Hp as [[_ [_ Hp]%not_elem_of_cons]%not_elem_of_cons _].
  - destruct Hend as [Hc|He]; [by rw contains_cons bool_decide_eq_true_2 in Hc|]. apply Forall_app in Hpath as [_ Hpath].
    pose proof (ends_tail _ _ (ends_tail _ _ (ends_tail _ _ He))) as He'. destruct (decide (a ++ t = [])) as [E|Hne].
    + apply app_eq_nil in E as [_ ->]. pose proof (doc_match_empty p Hm He') as ->. by destruct He.
    + apply (pm_deep (star :: slash :: p) t); [done|done|by eexists|]. cbn. apply IH; [by do 3 apply plain_tail in Hp|done|by right].
Qed.

(** C25: path patterns mean what their documentation says.  For an ASCII path and a pattern
    without backslashes and without three stars in a row, the matcher always answers.  It
    accepts every path that the documentation's reading of the pattern matches ([doc_match]: a
    star for characters other than the separator, a double star for any, a double star with a
    separator for zero or more directory levels, a question mark for one character that is not
    the separator), unless the pattern has a double star with a separator and ends in a star
    or a separator; and a pattern that has no double star with a separator matches no other
    path.  (One that has may match others: its double star can end inside a name.) *)
Theorem path_glob_correct pattern path :
  plain_pattern pattern -> plain_path path ->
  exists b, path_glob_matches pattern path = Ok b
  /\ (contains [star; star; slash] pattern = false \/ ends_in_name pattern -> doc_match pattern path -> b = true)
  /\ (contains [star; star; slash] pattern = false -> b = true -> doc_match pattern path).
Proof.
  intros Hp Ht. destruct (path_glob_answers pattern path) as (b & E & Hb). exists b. split_and!; [done| |].
  - intros Hend Hm. by apply Hb, doc_path_match.
  - intros Hno Hm%Hb. by apply path_match_doc.
Qed.

(** [/e/**/r.c?] matches [/e/r.cd]: no directory between. *)
Lemma path_glob_correct_witness :
  let pattern := [slash; x65; slash; star; star; slash; x72; x2e; x63; question] in
  let path := [slash; x65; slash; x72; x2e; x63; x64] in
  doc_match pattern path /\ exists b, path_glob_matches pattern path = Ok b /\ b = true.
Proof.
  intros pattern path. assert (Hm : doc_match pattern path).
  { do 3 (apply doc_byte; [done|done|]). apply (doc_levels _ [] _); [by left|].
    do 3 (apply doc_byte; [done|done|]). apply doc_question; [done|]. apply doc_end. }
  split; [exact Hm|]. destruct (path_glob_correct pattern path) as (b & E & H & _).
  - split; [apply (bool_decide_eq_false_1 (backslash ∈ pattern)); reflexivity | reflexivity].
  - unfold plain_path. repeat (apply list.Forall_cons_2; [by vm_compute|]). apply list.Forall_nil_2.
  - exists b. split; [exact E|]. apply H; [right; by vm_compute | exact Hm].
Defined.

(** A double star with a separator at the end of a pattern does not match no levels. *)
Lemma trailing_levels_need_text :
  doc_match [slash; x65; slash; star; star; slash] [slash; x65; slash]
  /\ path_glob_matches [slash; x65; slash; star; star; slash] [slash; x65; slash] = Ok false.
Proof.
  split; [|reflexivity]. do 3 (apply doc_byte; [done|done|]). apply (doc_levels [] [] []); [by left|apply doc_end].
Qed.

(** ** Pattern lists *)

(** What an entry of a list matches. *)
Definition entry_matches (path filename pattern : list byte) : Prop :=
  if is_glob_pattern pattern
  then if is_path_pattern pattern then path_match pattern path else glob_matches pattern filename = true
  else pattern = filename.

Lemma entry_answers path filename pattern :
  star ∉ filename ->
  answers (if literal_entry_matches pattern filename then Ok true else glob_entry_matches pattern path filename)
    (entry_matches path filename pattern).
Proof.
  intros Hf. unfold literal_entry_matches, glob_entry_matches, entry_matches.
  destruct (is_glob_pattern pattern); cbn [negb andb].
  - destruct (is_path_pattern pattern); [apply path_glob_answers|].
    exists (glob_matches pattern filename). split; [|done]. unfold filename_glob_matches. by apply glob_bytes_correct.
  - destruct (bool_decide_reflect (pattern = filename)); [by exists true|]. by exists false.
Qed.

(** A path is on a list of patterns exactly when an entry matches it: an entry without
    wildcards its file name, one with separators the whole path, any other the file name. *)
Theorem pattern_list_correct patterns path filename :
  star ∉ filename ->
  exists b, matches_any_entry patterns path filename = Ok b
    /\ (b = true <-> exists p, p ∈ patterns /\ entry_matches path filename p).
Proof.
  intros Hf. induction patterns as [|p patterns (b & E & IH)]; [exists false; split; [done|]; split; [done|by intros (p & ?%elem_of_nil & _)]|].
  cbn [matches_any_entry]. setoid_rewrite elem_of_cons.
  destruct (entry_answers path filename p Hf) as (b0 & E0 & H0). destruct (literal_entry_matches p filename).
  - injection E0 as <-. exists true. split; [done|]. split; [|done]. intros _. exists p. split; [by left|by apply H0].
  - rw E0. cbn [mbind res_bind]. destruct b0.
    + exists true. split; [done|]. split; [|done]. intros _. exists p. split; [by left|by apply H0].
    + exists b. split; [done|]. rw IH. split; [intros (q & Hq & H); exists q; auto|].
      intros (q & [->|Hq] & H); [by apply H0 in H|by exists q].
Qed.

(** The double star does not stop at directory levels: "**/rc" matches "/src". *)
Theorem deep_star_inside_name :
  path_glob_matches [star; star; slash; x72; x63] [slash; x73; x72; x63] = Ok true.
Proof. reflexivity. Qed.

Lemma pattern_list_correct_witness :
  let patterns := [[x61; x62]; [star; star; slash; star; x2e; x72; x73]] in
  matches_any_entry patterns [x73; x72; x63; slash; x61; x2e; x72; x73] [x61; x2e; x72; x73] = Ok true
  /\ exists b, matches_any_entry patterns [x73; x72; x63; slash; x61; x2e; x72; x73] [x61; x2e; x72; x73] = Ok b
    /\ (b = true <-> exists p, p ∈ patterns /\ entry_matches [x73; x72; x63; slash; x61; x2e; x72; x73] [x61; x2e; x72; x73] p).
Proof.
  intros patterns. split; [reflexivity|].
  apply (pattern_list_correct patterns [x73; x72; x63; slash; x61; x2e; x72; x73] [x61; x2e; x72; x73]).
  apply (bool_decide_eq_false_1 (star ∈ [x61; x2e; x72; x73])). reflexivity.
Defined.
