(* ===== verification/TextEdit.v ===== *)
(** * The text edit

    Models primitives/text_edit.rs of the core crate: the editing state of prompts and input
    fields, with the byte-level word boundaries of primitives/word_navigation.rs and the
    cluster boundaries of primitives/grapheme.rs.

    A string is its UTF-8 bytes; an operation of [String] off a character boundary or out of
    range, and an index past the lines, is [Panic].  The last element of a stack is its top.
    The [GraphemeCursor] of unicode-segmentation is a parameter: [cursor_prev] and
    [cursor_next] give the cluster boundary before and after an offset, [cursor_is_boundary]
    whether it is one. *)
From stdpp Require Import base numbers list option.
From Stdlib Require Import ssreflect Strings.Byte NArith.
From S2P Require Import Prelude TextSpec Utf8 LineDiff PathEncode.

(** ** Strings *)
Abbreviation newline := x0a.

Definition check (b : bool) : res unit := if b then Ok tt else Panic.
Definition get {A} (l : list A) (i : nat) : res A := match l !! i with Some x => Ok x | None => Panic end.

(** [&s[start..end]] *)
Definition str_slice (s : list byte) (start end_ : nat) : res (list byte) :=
  _ ← check (is_char_boundary s start && is_char_boundary s end_); slice s start end_.

(** [s.drain(start..end)] *)
Definition str_drain (s : list byte) (start end_ : nat) : res (list byte) :=
  _ ← check ((start <=? end_) && is_char_boundary s start && is_char_boundary s end_);
  Ok (take start s ++ drop end_ s).

(** [s.insert(col, c)] *)
Definition str_insert (s : list byte) (col : nat) (c : N) : res (list byte) :=
  _ ← check (is_char_boundary s col); Ok (take col s ++ encode_utf8 c ++ drop col s).

(** [s.truncate(n)] *)
Definition str_truncate (s : list byte) (n : nat) : res (list byte) :=
  if length s <? n then Ok s else _ ← check (is_char_boundary s n); Ok (take n s).

(** [lines.join("\n")] *)
Fixpoint join_lines (lines : list (list byte)) : list byte :=
  match lines with
  | [] => []
  | [l] => l
  | l :: lines => l ++ newline :: join_lines lines
  end.

(** [text.split('\n')] *)
Fixpoint split_lines (text : list byte) : list (list byte) :=
  match text with
  | [] => [[]]
  | b :: text =>
      if is_nl b then [] :: split_lines text
      else match split_lines text with [] => [[b]] | l :: ls => (b :: l) :: ls end
  end.

(** [text.lines()] *)
Definition str_lines (text : list byte) : list (list byte) :=
  (fun l => if decide (list.last l = Some newline) then strip_suffix x0d (strip_suffix newline l) else l) <$> split_inclusive text.

(** ** Words *)
Definition is_word_char (b : byte) : bool :=
  let c := code b in (in_range 48 57 c || in_range 65 90 c || in_range 97 122 c || (c =? 95))%N.

Fixpoint word_scan_left (bytes : list byte) (n : nat) : nat :=
  match n with
  | 0 => 0
  | S m => match bytes !! m with Some b => if is_word_char b then word_scan_left bytes m else n | None => n end
  end.

Definition find_word_start_bytes (bytes : list byte) (pos : nat) : nat :=
  if pos =? 0 then 0 else
  let pos := Nat.min pos (length bytes) in
  let off_word := match bytes !! pos with Some b => negb (is_word_char b) | None => true end in
  word_scan_left bytes (if off_word && (0 <? pos) then pos - 1 else pos).

Fixpoint count_while (f : byte -> bool) (l : list byte) : nat :=
  match l with b :: l => if f b then S (count_while f l) else 0 | [] => 0 end.

Definition find_word_end_bytes (bytes : list byte) (pos : nat) : nat :=
  let pos := Nat.min pos (length bytes) in
  let start := pos + count_while (fun b => negb (is_word_char b)) (drop pos bytes) in
  start + count_while is_word_char (drop start bytes).

(** ** State *)
Record TextEdit := mkTextEdit {
  te_lines : list (list byte); cursor_row : nat; cursor_col : nat;
  selection_anchor : option (nat * nat); multiline : bool;
  undo_stack : list (list byte * nat); redo_stack : list (list byte * nat);
}.

Definition with_lines (e : TextEdit) (lines : list (list byte)) : TextEdit :=
  mkTextEdit lines (cursor_row e) (cursor_col e) (selection_anchor e) (multiline e) (undo_stack e) (redo_stack e).
Definition with_cursor (e : TextEdit) (row col : nat) : TextEdit :=
  mkTextEdit (te_lines e) row col (selection_anchor e) (multiline e) (undo_stack e) (redo_stack e).
Definition with_anchor (e : TextEdit) (anchor : option (nat * nat)) : TextEdit :=
  mkTextEdit (te_lines e) (cursor_row e) (cursor_col e) anchor (multiline e) (undo_stack e) (redo_stack e).
Definition with_stacks (e : TextEdit) (undo redo : list (list byte * nat)) : TextEdit :=
  mkTextEdit (te_lines e) (cursor_row e) (cursor_col e) (selection_anchor e) (multiline e) undo redo.

Definition text_edit_new : TextEdit := mkTextEdit [[]] 0 0 None true [] [].
Definition single_line : TextEdit := mkTextEdit [[]] 0 0 None false [] [].
Definition with_text (text : list byte) : TextEdit :=
  mkTextEdit (match str_lines text with [] => [[]] | ls => ls end) 0 0 None true [] [].
Definition single_line_with_text (text : list byte) : TextEdit :=
  mkTextEdit [default [] (head (str_lines text))] 0 0 None false [] [].

Definition value (e : TextEdit) : list byte := join_lines (te_lines e).

Definition set_value (e : TextEdit) (text : list byte) : TextEdit :=
  let lines := if multiline e then strip_suffix x0d <$> split_lines text else [default [] (head (str_lines text))] in
  with_anchor (with_cursor (with_lines e lines) 0 0) None.

Definition current_line (e : TextEdit) : list byte := default [] (te_lines e !! cursor_row e).
Definition line_count (e : TextEdit) : nat := length (te_lines e).

(** ** Flat offsets *)
Fixpoint flat_offset_loop (lines : list (list byte)) (row col offset : nat) : nat + nat :=
  match lines with
  | [] => inr offset
  | l :: lines =>
      match row with
      | 0 => inl (offset + Nat.min col (length l))
      | S row => flat_offset_loop lines row col (offset + (length l + 1))
      end
  end.

Definition flat_offset (lines : list (list byte)) (row col : nat) : nat :=
  match flat_offset_loop lines row col 0 with inl off => off | inr off => off - 1 end.

Definition flat_cursor_byte (e : TextEdit) : nat :=
  match flat_offset_loop (te_lines e) (cursor_row e) (cursor_col e) 0 with
  | inl off => off
  | inr _ => length (value e)
  end.

Definition clear_selection (e : TextEdit) : TextEdit := with_anchor e None.

Definition ensure_anchor (e : TextEdit) : TextEdit :=
  match selection_anchor e with Some _ => e | None => with_anchor e (Some (cursor_row e, cursor_col e)) end.

Definition has_selection (e : TextEdit) : bool :=
  match selection_anchor e with
  | Some (row, col) => negb (row =? cursor_row e) || negb (col =? cursor_col e)
  | None => false
  end.

Definition selection_range (e : TextEdit) : option ((nat * nat) * (nat * nat)) :=
  '(anchor_row, anchor_col) ← selection_anchor e;
  let cursor := (cursor_row e, cursor_col e) in
  if (anchor_row =? cursor_row e) && (anchor_col =? cursor_col e) then None
  else if (anchor_row <? cursor_row e) || (anchor_row =? cursor_row e) && (anchor_col <? cursor_col e)
  then Some ((anchor_row, anchor_col), cursor) else Some (cursor, (anchor_row, anchor_col)).

Definition selection_flat_range (e : TextEdit) : option (nat * nat) :=
  '((sr, sc), (er, ec)) ← selection_range e;
  Some (flat_offset (te_lines e) sr sc, flat_offset (te_lines e) er ec).

(** The lines strictly between two rows, each with its newline. *)
Fixpoint middle_lines (lines : list (list byte)) (row count : nat) : res (list byte) :=
  match count with
  | 0 => Ok []
  | S count => l ← get lines row; rest ← middle_lines lines (S row) count; Ok (l ++ newline :: rest)
  end.

Definition selected_text (e : TextEdit) : res (option (list byte)) :=
  match selection_range e with
  | None => Ok None
  | Some ((start_row, start_col), (end_row, end_col)) =>
      if start_row =? end_row then
        line ← get (te_lines e) start_row;
        let end_col := Nat.min end_col (length line) in
        text ← str_slice line (Nat.min start_col end_col) end_col;
        Ok (Some text)
      else
        first_line ← get (te_lines e) start_row;
        first ← str_slice first_line (Nat.min start_col (length first_line)) (length first_line);
        middle ← middle_lines (te_lines e) (S start_row) (end_row - S start_row);
        last_line ← get (te_lines e) end_row;
        last ← str_slice last_line 0 (Nat.min end_col (length last_line));
        Ok (Some (first ++ newline :: middle ++ last))
  end.

(** ** Undo *)
Definition MAX_UNDO : nat := 500.

Definition push_undo_checkpoint (e : TextEdit) : TextEdit :=
  let v := value e in
  if decide (fst <$> list.last (undo_stack e) = Some v) then e else
  let undo := if MAX_UNDO <=? length (undo_stack e) then tail (undo_stack e) else undo_stack e in
  with_stacks e (undo ++ [(v, flat_cursor_byte e)]) [].

Definition delete_selection (e : TextEdit) : res (TextEdit * option (list byte)) :=
  let e := push_undo_checkpoint e in
  match selection_range e with
  | None => Ok (e, None)
  | Some ((start_row, start_col), (end_row, end_col)) =>
      deleted ← selected_text e;
      lines ←
        (if start_row =? end_row then
           line ← get (te_lines e) start_row;
           let end_col := Nat.min end_col (length line) in
           line ← str_drain line (Nat.min start_col end_col) end_col;
           Ok (<[start_row := line]> (te_lines e))
         else
           end_line ← get (te_lines e) end_row;
           after_end ← str_slice end_line (Nat.min end_col (length end_line)) (length end_line);
           start_line ← get (te_lines e) start_row;
           start_line ← str_truncate start_line start_col;
           Ok (take start_row (te_lines e) ++ [start_line ++ after_end] ++ drop (S end_row) (te_lines e)));
      Ok (with_anchor (with_cursor (with_lines e lines) start_row start_col) None, deleted)
  end.

(** ** Cluster boundaries and movement *)
Definition snap_to_char_boundary (s : list byte) (pos : nat) : nat :=
  back_off (fun k => negb (is_char_boundary s k)) (Nat.min pos (length s)).

Section clusters.
Context (cursor_prev cursor_next : list byte -> nat -> option nat) (cursor_is_boundary : list byte -> nat -> bool).

Definition snap_to_grapheme_boundary (s : list byte) (pos : nat) : nat :=
  if (pos =? 0) || bool_decide (s = []) then 0
  else if length s <=? pos then length s
  else let pos := snap_to_char_boundary s pos in
       if cursor_is_boundary s pos then pos else default 0 (cursor_prev s pos).

Definition prev_grapheme_boundary (s : list byte) (pos : nat) : nat :=
  if (pos =? 0) || bool_decide (s = []) then 0 else
  let snapped := snap_to_char_boundary s pos in
  if snapped <? pos then snap_to_grapheme_boundary s snapped else default 0 (cursor_prev s snapped).

Definition next_grapheme_boundary (s : list byte) (pos : nat) : nat :=
  if (length s <=? pos) || bool_decide (s = []) then length s
  else default (length s) (cursor_next s (snap_to_char_boundary s pos)).

(** [set_cursor_from_flat]: the row that holds the offset. *)
Fixpoint flat_position (lines : list (list byte)) (row remaining : nat) : option (nat * nat) :=
  match lines with
  | [] => None
  | l :: lines =>
      if remaining <=? length l then Some (row, snap_to_grapheme_boundary l remaining)
      else flat_position lines (S row) (remaining - (length l + 1))
  end.

Definition last_position (e : TextEdit) : nat * nat :=
  (length (te_lines e) - 1, default 0 (length <$> list.last (te_lines e))).

Definition set_cursor_from_flat (e : TextEdit) (byte : nat) : TextEdit :=
  let e := clear_selection e in
  let '(row, col) := default (last_position e) (flat_position (te_lines e) 0 (Nat.min byte (length (value e)))) in
  with_cursor e row col.

Definition set_cursor_from_flat_selecting (e : TextEdit) (byte : nat) : TextEdit :=
  let anchor := default (cursor_row e, cursor_col e) (selection_anchor e) in
  with_anchor (set_cursor_from_flat e byte) (Some anchor).

Definition move_left_internal (e : TextEdit) : res TextEdit :=
  if 0 <? cursor_col e then
    line ← get (te_lines e) (cursor_row e);
    Ok (with_cursor e (cursor_row e) (prev_grapheme_boundary line (cursor_col e)))
  else if (0 <? cursor_row e) && multiline e then
    line ← get (te_lines e) (cursor_row e - 1);
    Ok (with_cursor e (cursor_row e - 1) (length line))
  else Ok e.

Definition move_right_internal (e : TextEdit) : res TextEdit :=
  if cursor_col e <? length (current_line e) then
    line ← get (te_lines e) (cursor_row e);
    Ok (with_cursor e (cursor_row e) (next_grapheme_boundary line (cursor_col e)))
  else if (cursor_row e + 1 <? length (te_lines e)) && multiline e then Ok (with_cursor e (cursor_row e + 1) 0)
  else Ok e.

Definition move_up_internal (e : TextEdit) : res TextEdit :=
  if 0 <? cursor_row e then
    line ← get (te_lines e) (cursor_row e - 1);
    Ok (with_cursor e (cursor_row e - 1) (Nat.min (cursor_col e) (length line)))
  else Ok e.

Definition move_down_internal (e : TextEdit) : res TextEdit :=
  if cursor_row e + 1 <? length (te_lines e) then
    line ← get (te_lines e) (cursor_row e + 1);
    Ok (with_cursor e (cursor_row e + 1) (Nat.min (cursor_col e) (length line)))
  else Ok e.

Definition move_home_internal (e : TextEdit) : res TextEdit := Ok (with_cursor e (cursor_row e) 0).
Definition move_end_internal (e : TextEdit) : res TextEdit := Ok (with_cursor e (cursor_row e) (length (current_line e))).

Definition move_word_left_internal (e : TextEdit) : res TextEdit :=
  line ← get (te_lines e) (cursor_row e);
  let new_col := find_word_start_bytes line (cursor_col e) in
  if (0 <? cursor_col e) && (new_col <? cursor_col e) then Ok (with_cursor e (cursor_row e) new_col)
  else if (0 <? cursor_row e) && multiline e then
    line ← get (te_lines e) (cursor_row e - 1);
    Ok (with_cursor e (cursor_row e - 1) (length line))
  else Ok e.

Definition move_word_right_internal (e : TextEdit) : res TextEdit :=
  line ← get (te_lines e) (cursor_row e);
  let new_col := find_word_end_bytes line (cursor_col e) in
  if (cursor_col e <? length line) && (cursor_col e <? new_col) then Ok (with_cursor e (cursor_row e) new_col)
  else if (cursor_row e + 1 <? length (te_lines e)) && multiline e then Ok (with_cursor e (cursor_row e + 1) 0)
  else Ok e.

(** A movement clears the selection or, with Shift, extends it. *)
Inductive motion := MLeft | MRight | MUp | MDown | MHome | MEnd | MWordLeft | MWordRight.

Definition move_internal (m : motion) : TextEdit -> res TextEdit :=
  match m with
  | MLeft => move_left_internal | MRight => move_right_internal
  | MUp => move_up_internal | MDown => move_down_internal
  | MHome => move_home_internal | MEnd => move_end_internal
  | MWordLeft => move_word_left_internal | MWordRight => move_word_right_internal
  end.

Definition move (m : motion) (selecting : bool) (e : TextEdit) : res TextEdit :=
  move_internal m (if selecting then ensure_anchor e else clear_selection e).

Definition select_all (e : TextEdit) : TextEdit :=
  let '(row, col) := last_position e in with_cursor (with_anchor e (Some (0, 0))) row col.

(** ** Editing *)
Definition restore (e : TextEdit) (text : list byte) (cursor : nat) : TextEdit :=
  set_cursor_from_flat (set_value e text) cursor.

Definition undo (e : TextEdit) : TextEdit * bool :=
  match list.last (undo_stack e) with
  | Some (text, cursor) =>
      (restore (with_stacks e (take (length (undo_stack e) - 1) (undo_stack e))
                  (redo_stack e ++ [(value e, flat_cursor_byte e)])) text cursor, true)
  | None => (e, false)
  end.

Definition redo (e : TextEdit) : TextEdit * bool :=
  match list.last (redo_stack e) with
  | Some (text, cursor) =>
      (restore (with_stacks e (undo_stack e ++ [(value e, flat_cursor_byte e)])
                  (take (length (redo_stack e) - 1) (redo_stack e))) text cursor, true)
  | None => (e, false)
  end.

Definition delete_if_selected (e : TextEdit) : res TextEdit :=
  if has_selection e then fst <$> delete_selection e else Ok e.

Definition insert_at_cursor (e : TextEdit) (c : N) : res TextEdit :=
  if (c =? 10)%N && multiline e then
    line ← get (te_lines e) (cursor_row e);
    let col := Nat.min (cursor_col e) (length line) in
    _ ← check (is_char_boundary line col);
    let lines := take (cursor_row e) (te_lines e) ++ [take col line; drop col line] ++ drop (S (cursor_row e)) (te_lines e) in
    Ok (with_cursor (with_lines e lines) (cursor_row e + 1) 0)
  else if negb (c =? 10)%N && (cursor_row e <? length (te_lines e)) then
    line ← get (te_lines e) (cursor_row e);
    let col := Nat.min (cursor_col e) (length line) in
    line ← str_insert line col c;
    Ok (with_cursor (with_lines e (<[cursor_row e := line]> (te_lines e))) (cursor_row e) (col + length (encode_utf8 c)))
  else Ok e.

Definition insert_char (e : TextEdit) (c : N) : res TextEdit :=
  e ← delete_if_selected (push_undo_checkpoint e); insert_at_cursor (with_anchor e None) c.

Fixpoint insert_chars (e : TextEdit) (cs : list N) : res TextEdit :=
  match cs with
  | [] => Ok e
  | c :: cs => e ← insert_char e (if (c =? 10)%N && negb (multiline e) then 32%N else c); insert_chars e cs
  end.

Definition insert_str (e : TextEdit) (text : list byte) : res TextEdit :=
  e ← delete_if_selected (push_undo_checkpoint e); insert_chars e (from_utf8_lossy text).

(** A deletion: of the selection if there is one, else what [f] deletes. *)
Definition deleting (f : TextEdit -> res TextEdit) (e : TextEdit) : res TextEdit :=
  let e := push_undo_checkpoint e in
  if has_selection e then fst <$> delete_selection e else f e.

(** Delete bytes of the cursor's line. *)
Definition drain_line (e : TextEdit) (start end_ : nat) : res TextEdit :=
  line ← get (te_lines e) (cursor_row e);
  line ← str_drain line start end_;
  Ok (with_lines e (<[cursor_row e := line]> (te_lines e))).

Definition join_previous (e : TextEdit) : res TextEdit :=
  line ← get (te_lines e) (cursor_row e);
  previous ← get (te_lines e) (cursor_row e - 1);
  let row := cursor_row e - 1 in
  let lines := take row (te_lines e) ++ [previous ++ line] ++ drop (S (cursor_row e)) (te_lines e) in
  Ok (with_cursor (with_lines e lines) row (length previous)).

Definition join_next (e : TextEdit) : res TextEdit :=
  next ← get (te_lines e) (cursor_row e + 1);
  line ← get (te_lines e) (cursor_row e);
  let lines := take (cursor_row e) (te_lines e) ++ [line ++ next] ++ drop (cursor_row e + 2) (te_lines e) in
  Ok (with_lines e lines).

Definition backspace_char (e : TextEdit) : res TextEdit :=
  if 0 <? cursor_col e then
    line ← get (te_lines e) (cursor_row e);
    let del_start := back_off (fun k => negb (is_char_boundary line k)) (cursor_col e - 1) in
    e ← drain_line e del_start (cursor_col e);
    Ok (with_cursor e (cursor_row e) del_start)
  else if (0 <? cursor_row e) && multiline e then join_previous e
  else Ok e.

Definition backspace : TextEdit -> res TextEdit := deleting backspace_char.

Definition delete_cluster (e : TextEdit) : res TextEdit :=
  if cursor_col e <? length (current_line e) then
    line ← get (te_lines e) (cursor_row e);
    drain_line e (cursor_col e) (next_grapheme_boundary line (cursor_col e))
  else if (cursor_row e + 1 <? length (te_lines e)) && multiline e then join_next e
  else Ok e.

Definition delete : TextEdit -> res TextEdit := deleting delete_cluster.

Definition delete_word_after (e : TextEdit) : res TextEdit :=
  line ← get (te_lines e) (cursor_row e);
  let word_end := find_word_end_bytes line (cursor_col e) in
  if cursor_col e <? word_end then drain_line e (cursor_col e) word_end
  else if (cursor_row e + 1 <? length (te_lines e)) && multiline e then join_next e
  else Ok e.

Definition delete_word_forward : TextEdit -> res TextEdit := deleting delete_word_after.

Definition delete_word_before (e : TextEdit) : res TextEdit :=
  line ← get (te_lines e) (cursor_row e);
  let word_start := find_word_start_bytes line (cursor_col e) in
  if word_start <? cursor_col e then
    e ← drain_line e word_start (cursor_col e);
    Ok (with_cursor e (cursor_row e) word_start)
  else if (0 <? cursor_row e) && multiline e then join_previous e
  else Ok e.

Definition delete_word_backward : TextEdit -> res TextEdit := deleting delete_word_before.

Definition delete_line_start (e : TextEdit) : res TextEdit :=
  if 0 <? cursor_col e then
    e ← match te_lines e !! cursor_row e with Some _ => drain_line e 0 (cursor_col e) | None => Ok e end;
    Ok (with_cursor e (cursor_row e) 0)
  else Ok e.

Definition delete_to_start : TextEdit -> res TextEdit := deleting delete_line_start.

Definition delete_line_end (e : TextEdit) : res TextEdit :=
  match te_lines e !! cursor_row e with
  | Some line => line ← str_truncate line (cursor_col e); Ok (with_lines e (<[cursor_row e := line]> (te_lines e)))
  | None => Ok e
  end.

Definition delete_to_end : TextEdit -> res TextEdit := deleting delete_line_end.

Definition clear (e : TextEdit) : TextEdit :=
  let e := push_undo_checkpoint e in with_anchor (with_cursor (with_lines e [[]]) 0 0) None.
End clusters.
