(* ===== verification/TextEditInv.v ===== *)
(** * The text edit refines a flat text

    Positions in lines as offsets of the value, the invariant of the state, and every
    editing operation as a splice of the value. *)
From stdpp Require Import base numbers list option.
From Stdlib Require Import ssreflect Strings.Byte NArith.
From S2P Require Import Prelude TextSpec Utf8 LineDiff LineDiffText PathEncode TextEdit.

(** ** Lines and offsets *)

(** What comes before and after a line. *)
Definition lines_before (ls : list (list byte)) : list byte := ls ≫= (fun l => l ++ [newline]).
Definition lines_after (ls : list (list byte)) : list byte := ls ≫= (fun l => newline :: l).

Lemma join_cons l ls : join_lines (l :: ls) = l ++ lines_after ls.
Proof.
  revert l. induction ls as [|k ls IH]; intros l; [by rw app_nil_r|].
  change (join_lines (l :: k :: ls)) with (l ++ newline :: join_lines (k :: ls)). by rw IH.
Qed.

Lemma join_split before line after :
  join_lines (before ++ line :: after) = lines_before before ++ line ++ lines_after after.
Proof.
  induction before as [|l before IH]; [apply join_cons|]. cbn [app].
  change (lines_before (l :: before)) with ((l ++ [newline]) ++ lines_before before). rw -!app_assoc -IH join_cons.
  f_equal. by destruct before as [|k before]; cbn [app]; rw join_cons.
Qed.

Lemma lines_before_app a b : lines_before (a ++ b) = lines_before a ++ lines_before b.
Proof. apply bind_app. Qed.

Lemma lines_after_app a b : lines_after (a ++ b) = lines_after a ++ lines_after b.
Proof. apply bind_app. Qed.

Lemma flat_offset_split before line after col : forall off,
  flat_offset_loop (before ++ line :: after) (length before) col off
  = inl (off + length (lines_before before) + Nat.min col (length line)).
Proof.
  induction before as [|l before IH]; intros off; [cbn; f_equal; lia|].
  cbn [app length flat_offset_loop]. rw IH. f_equal.
  change (lines_before (l :: before)) with ((l ++ [newline]) ++ lines_before before). rw !length_app. cbn. lia.
Qed.

(** A position: on a line, at a character boundary. *)
Definition pos_ok (lines : list (list byte)) (pos : nat * nat) : Prop :=
  exists line, lines !! pos.1 = Some line /\ pos.2 <= length line /\ is_char_boundary line pos.2 = true.

(** The offset of a position. *)
Definition flat (lines : list (list byte)) (pos : nat * nat) : nat := flat_offset lines pos.1 pos.2.

Lemma pos_split lines row col :
  pos_ok lines (row, col) ->
  exists before line after, lines = before ++ line :: after /\ row = length before /\ col <= length line
    /\ is_char_boundary line col = true
    /\ flat lines (row, col) = length (lines_before before) + col.
Proof.
  intros (line & Hl & Hc & Hb). cbn in *. exists (take row lines), line, (drop (S row) lines).
  pose proof (take_drop_middle lines row line Hl) as Hlines.
  assert (row = length (take row lines)) as Hrow by (rw length_take; apply lookup_lt_Some in Hl; lia).
  split_and!; [done|done|done|done|]. unfold flat, flat_offset. cbn [fst snd].
  pose proof (flat_offset_split (take row lines) line (drop (S row) lines) col 0) as H. rw Hlines -Hrow in H. rw H. lia.
Qed.

Lemma flat_cursor e : pos_ok (te_lines e) (cursor_row e, cursor_col e) -> flat_cursor_byte e = flat (te_lines e) (cursor_row e, cursor_col e).
Proof.
  intros (before & line & after & Hl & Hr & Hc & _)%pos_split. unfold flat_cursor_byte, flat, flat_offset. cbn [fst snd].
  rw Hl Hr. by rw !flat_offset_split.
Qed.

Lemma flat_le lines pos : pos_ok lines pos -> flat lines pos <= length (join_lines lines).
Proof.
  destruct pos as [row col]. intros (before & line & after & -> & -> & Hc & _ & ->)%pos_split.
  rw join_split !length_app. lia.
Qed.

(** ** The invariant *)

(** A text that does not start inside a character. *)
Definition starts_char (s : list byte) : Prop := match s with b :: _ => is_continuation (Some b) = false | [] => True end.

(** The encoding of characters. *)
Definition valid_text (s : list byte) : Prop := exists cs, Forall (fun c => is_scalar c = true) cs /\ s = encode_all cs.

Definition line_ok (l : list byte) : Prop := (newline ∉ l) /\ valid_text l.

Lemma continuation_range b : is_continuation (Some b) = in_range 128 191 (code b).
Proof. by destruct b. Qed.

Lemma char_starts c : is_scalar c = true -> starts_char (encode_utf8 c).
Proof.
  intros Hc%is_scalar_spec. unfold encode_utf8.
  destruct (N.ltb_spec c 128); [|destruct (N.ltb_spec c 2048); [|destruct (N.ltb_spec c 65536)]]; cbn [fmap list_fmap starts_char];
    rw continuation_range code_byte_of; try lia; apply in_range_false; lia.
Qed.

Lemma char_continues c i b : is_scalar c = true -> 0 < i -> encode_utf8 c !! i = Some b -> is_continuation (Some b) = true.
Proof.
  intros Hc%is_scalar_spec Hi. unfold encode_utf8. rw continuation_range. destruct i as [|i]; [lia|].
  assert (forall n, n mod 64 < 64)%N as Hm by (intros; by apply N.mod_lt).
  pose proof (Hm c). pose proof (Hm (c / 64)%N). pose proof (Hm (c / 4096)%N).
  destruct (N.ltb_spec c 128); [|destruct (N.ltb_spec c 2048); [|destruct (N.ltb_spec c 65536)]]; cbn [fmap list_fmap lookup list_lookup];
    repeat (destruct i as [|i]; cbn [lookup list_lookup]; [intros [= <-]; rw code_byte_of; [lia|]; apply in_range_true; lia|]); done.
Qed.

Lemma valid_starts s : valid_text s -> starts_char s.
Proof.
  intros (cs & Hcs & ->). destruct Hcs as [|c cs Hc _]; [done|]. rw encode_all_cons.
  pose proof (char_starts c Hc). pose proof (length_encode_utf8 c). destruct (encode_utf8 c); [cbn in *; lia|done].
Qed.

Lemma valid_app s t : valid_text s -> valid_text t -> valid_text (s ++ t).
Proof.
  intros (cs & Hcs & ->) (ds & Hds & ->). exists (cs ++ ds). split; [by apply Forall_app|]. by rw encode_all_app.
Qed.

(** Past a first part, boundaries are those of the rest; in a character there are none. *)
Lemma boundary_rest s t k : is_char_boundary (s ++ t) (length s + k) = true -> is_char_boundary t k = true.
Proof.
  unfold is_char_boundary. rw lookup_app_r; [lia|]. replace (length s + k - length s) with k by lia. rw length_app.
  destruct (Nat.eqb_spec k 0); [done|]. destruct (Nat.eqb_spec k (length t)); [done|].
  by rw !(proj2 (Nat.eqb_neq _ _)); [lia|lia|].
Qed.

Lemma boundary_in_char c t k :
  is_scalar c = true -> is_char_boundary (encode_utf8 c ++ t) k = true -> k = 0 \/ length (encode_utf8 c) <= k.
Proof.
  intros Hc Hb. destruct (Nat.eq_dec k 0) as [|Hk]; [by left|]. right. destruct (Nat.le_gt_cases (length (encode_utf8 c)) k) as [|Hlt]; [done|].
  exfalso. destruct (lookup_lt_is_Some_2 _ _ Hlt) as [b Eb]. unfold is_char_boundary in Hb.
  rw lookup_app_l // Eb (char_continues c k b) // ?length_app in Hb; [lia|]. rw !(proj2 (Nat.eqb_neq _ _)) // in Hb. lia.
Qed.

(** Cut at a character boundary, both parts are valid. *)
Lemma valid_cut s k :
  valid_text s -> is_char_boundary s k = true -> valid_text (take k s) /\ valid_text (drop k s).
Proof.
  intros (cs & Hcs & ->). revert k. induction Hcs as [|c cs Hc Hcs IH]; intros k Hb.
  - rw take_nil drop_nil. split; by exists [].
  - rw encode_all_cons in Hb |- *. destruct (boundary_in_char c _ k Hc Hb) as [->|Hk].
    + split; [by exists []|]. exists (c :: cs). by split; [constructor|].
    + destruct (Nat.le_exists_sub _ _ Hk) as (j & -> & _). rw Nat.add_comm in Hb |- *.
      apply boundary_rest, IH in Hb as [H1 H2]. rw take_app_add -drop_drop drop_app_length. split; [|done].
      apply valid_app; [|done]. exists [c]. split; [by constructor|]. by rw encode_all_cons app_nil_r.
Qed.

(** An ASCII byte is a character of its own. *)
Lemma ascii_head b t : valid_text (b :: t) -> (code b < 128)%N -> valid_text t.
Proof.
  intros (cs & Hcs & E) Hb. destruct Hcs as [|c cs Hc Hcs]; [done|]. rw encode_all_cons in E.
  assert (encode_utf8 c = [byte_of c]) as Hone; [|rw Hone in E; injection E as _ ->; by exists cs].
  apply is_scalar_spec in Hc. revert E. unfold encode_utf8.
  destruct (N.ltb_spec c 128); [done|]. destruct (N.ltb_spec c 2048); [|destruct (N.ltb_spec c 65536)]; cbn [fmap list_fmap app];
    intros [= -> _]; rw code_byte_of in Hb; lia.
Qed.

Lemma ascii_boundary s i b :
  valid_text s -> s !! i = Some b -> (code b < 128)%N -> is_char_boundary s i = true /\ is_char_boundary s (S i) = true.
Proof.
  intros Hs Hi Hb. assert (is_char_boundary s i = true) as Hbi.
  { unfold is_char_boundary. rw Hi continuation_range in_range_false; [lia|]. by rw !orb_true_r. }
  split; [done|]. destruct (valid_cut s i Hs Hbi) as [_ Hd]. rw (drop_S s b i Hi) in Hd.
  apply ascii_head, valid_starts in Hd; [|done]. unfold is_char_boundary. destruct (drop (S i) s) as [|b' t] eqn:Ed.
  - apply (f_equal length) in Ed. rw length_drop in Ed. apply lookup_lt_Some in Hi. cbn in Ed.
    rw (proj2 (Nat.eqb_eq (S i) (length s))); [lia|]. by rw orb_true_r.
  - apply (f_equal (.!! 0)) in Ed. rw lookup_drop Nat.add_0_r in Ed. cbn in Ed. rw Ed. cbn in Hd |- *. by rw Hd !orb_true_r.
Qed.

Lemma valid_char c : is_scalar c = true -> valid_text (encode_utf8 c).
Proof. intros Hc. exists [c]. split; [by constructor|]. by rw encode_all_cons app_nil_r. Qed.

Lemma valid_join lines : Forall line_ok lines -> valid_text (join_lines lines).
Proof.
  induction 1 as [|l lines Hl Hlines IH]; [by exists []|]. destruct lines as [|l' lines]; [apply Hl|].
  change (join_lines (l :: l' :: lines)) with (l ++ encode_utf8 10 ++ join_lines (l' :: lines)).
  apply valid_app; [apply Hl|]. apply valid_app; [by apply valid_char|done].
Qed.

(** The stacks hold at most [MAX_UNDO] texts. *)
Definition stacks_ok (e : TextEdit) : Prop :=
  length (undo_stack e) + length (redo_stack e) <= MAX_UNDO
  /\ Forall (fun t => valid_text t.1) (undo_stack e) /\ Forall (fun t => valid_text t.1) (redo_stack e).

Record te_ok (e : TextEdit) : Prop := {
  ok_lines : Forall line_ok (te_lines e);
  ok_cursor : pos_ok (te_lines e) (cursor_row e, cursor_col e);
  ok_anchor : forall pos, selection_anchor e = Some pos -> pos_ok (te_lines e) pos;
  ok_single : multiline e = false -> length (te_lines e) = 1;
  ok_stacks : stacks_ok e;
}.

(** The selection, or an empty range at the cursor, in offsets. *)
Definition edit_range (e : TextEdit) : nat * nat :=
  default (flat_cursor_byte e, flat_cursor_byte e) (selection_flat_range e).

Definition pos_lt (a b : nat * nat) : Prop := a.1 < b.1 \/ a.1 = b.1 /\ a.2 < b.2.

Lemma selection_range_spec e a b :
  selection_range e = Some (a, b) ->
  pos_lt a b /\ exists anchor, selection_anchor e = Some anchor
    /\ (a = anchor /\ b = (cursor_row e, cursor_col e) \/ b = anchor /\ a = (cursor_row e, cursor_col e)).
Proof.
  unfold selection_range, pos_lt. destruct (selection_anchor e) as [[r c]|]; [|done]. cbn [mbind option_bind].
  destruct (Nat.eqb_spec r (cursor_row e)), (Nat.eqb_spec c (cursor_col e)); cbn [andb]; try done;
    destruct (Nat.ltb_spec r (cursor_row e)), (Nat.ltb_spec c (cursor_col e)); cbn [orb]; intros [= <- <-]; cbn;
    (split; [lia|eexists; split; [done|auto]]).
Qed.

Lemma selection_range_None e : selection_range e = None <-> has_selection e = false.
Proof.
  unfold selection_range, has_selection. destruct (selection_anchor e) as [[r c]|]; [|done]. cbn [mbind option_bind].
  destruct (r =? cursor_row e), (c =? cursor_col e); cbn; try done; by case_match.
Qed.

(** ** Cutting a range out of the lines *)
Lemma boundary_0 s : is_char_boundary s 0 = true.
Proof. done. Qed.

Lemma boundary_len s : is_char_boundary s (length s) = true.
Proof. unfold is_char_boundary. by rw Nat.eqb_refl orb_true_r. Qed.

Lemma str_slice_ok s a b :
  is_char_boundary s a = true -> is_char_boundary s b = true -> a <= b -> b <= length s ->
  str_slice s a b = Ok (take (b - a) (drop a s)).
Proof. intros Ha Hb H1 H2. unfold str_slice. rw Ha Hb. by apply slice_Ok. Qed.

Lemma str_drain_ok s a b :
  is_char_boundary s a = true -> is_char_boundary s b = true -> a <= b -> str_drain s a b = Ok (take a s ++ drop b s).
Proof. intros Ha Hb H1. unfold str_drain. rw Ha Hb. by rw (proj2 (Nat.leb_le a b) H1). Qed.

Lemma str_truncate_ok s n : is_char_boundary s n = true -> n <= length s -> str_truncate s n = Ok (take n s).
Proof. intros Hb Hn. unfold str_truncate. rw (proj2 (Nat.ltb_ge (length s) n) Hn). by rw Hb. Qed.

Lemma get_Ok {A} (l : list A) i x : l !! i = Some x -> get l i = Ok x.
Proof. unfold get. by intros ->. Qed.

Lemma get_mid {A} (before after : list A) x : get (before ++ x :: after) (length before) = Ok x.
Proof. apply get_Ok, list_lookup_middle. done. Qed.

Lemma insert_mid {A} (before after : list A) x y : <[length before := x]> (before ++ y :: after) = before ++ x :: after.
Proof. rw -{1}(Nat.add_0_r (length before)) insert_app_r. done. Qed.

Lemma middle_lines_ok mid : forall before after,
  middle_lines (before ++ mid ++ after) (length before) (length mid) = Ok (lines_before mid).
Proof.
  induction mid as [|l mid IH]; intros before after; [done|]. cbn [length middle_lines app].
  rw get_mid. cbn [mbind res_bind]. specialize (IH (before ++ [l]) after). rw -app_assoc length_app Nat.add_1_r in IH.
  cbn [app] in IH. rw IH. cbn [mbind res_bind]. change (lines_before (l :: mid)) with ((l ++ [newline]) ++ lines_before mid).
  by rw -app_assoc.
Qed.

(** A range as a cut of the value into three, and of the lines around it. *)
Record range_cut (lines : list (list byte)) (a b : nat * nat) (P D Q : list byte) : Prop := {
  rc_value : join_lines lines = P ++ D ++ Q;
  rc_start : flat lines a = length P;
  rc_end : flat lines b = length P + length D;
}.

Lemma same_row_cut before line after a b :
  a <= b -> b <= length line -> is_char_boundary line a = true -> is_char_boundary line b = true ->
  range_cut (before ++ line :: after) (length before, a) (length before, b)
    (lines_before before ++ take a line) (take (b - a) (drop a line)) (drop b line ++ lines_after after).
Proof.
  intros Hab Hb _ _. split.
  - rw join_split -!app_assoc. f_equal. rw !app_assoc. f_equal.
    rw take_take_drop. replace (a + (b - a)) with b by lia. by rw take_drop.
  - unfold flat, flat_offset. cbn [fst snd]. rw flat_offset_split length_app length_take. lia.
  - unfold flat, flat_offset. cbn [fst snd]. rw flat_offset_split !length_app !length_take length_drop. lia.
Qed.

Lemma rows_cut before first mid last after a b :
  a <= length first -> b <= length last ->
  range_cut (before ++ first :: mid ++ last :: after) (length before, a) (length before + S (length mid), b)
    (lines_before before ++ take a first) (drop a first ++ newline :: lines_before mid ++ take b last)
    (drop b last ++ lines_after after).
Proof.
  intros Ha Hb. set (lines := before ++ first :: mid ++ last :: after).
  assert (lines = (before ++ first :: mid) ++ last :: after) as Hl2 by by unfold lines; rw -app_assoc.
  assert (length before + S (length mid) = length (before ++ first :: mid)) as Hrow by by rw length_app.
  split.
  - rw Hl2 join_split lines_before_app. change (lines_before (first :: mid)) with ((first ++ [newline]) ++ lines_before mid).
    rw -{1}(take_drop a first) -{1}(take_drop b last) -!app_assoc. cbn [app]. by rw -!app_assoc.
  - unfold flat, flat_offset, lines. cbn [fst snd]. rw flat_offset_split length_app length_take. lia.
  - unfold flat, flat_offset. cbn [fst snd]. rw Hrow Hl2 flat_offset_split lines_before_app.
    change (lines_before (first :: mid)) with ((first ++ [newline]) ++ lines_before mid).
    rw !length_app length_take !length_drop /= !length_app length_take. lia.
Qed.

Lemma cut_splice lines a b P D Q ins :
  range_cut lines a b P D Q -> splice (join_lines lines) (flat lines a) (flat lines b - flat lines a) ins = P ++ ins ++ Q.
Proof.
  intros [H1 H2 H3]. rw H1 H2 H3. replace (length P + length D - length P) with (length D) by lia.
  unfold splice. by rw take_app_length -drop_drop drop_app_length drop_app_length.
Qed.

Lemma cut_slice lines a b P D Q :
  range_cut lines a b P D Q -> take (flat lines b - flat lines a) (drop (flat lines a) (join_lines lines)) = D.
Proof.
  intros [H1 H2 H3]. rw H1 H2 H3. replace (length P + length D - length P) with (length D) by lia.
  by rw drop_app_length take_app_length.
Qed.

(** ** Checkpoints leave the text alone *)
Lemma checkpoint_fields e :
  te_lines (push_undo_checkpoint e) = te_lines e /\ cursor_row (push_undo_checkpoint e) = cursor_row e
  /\ cursor_col (push_undo_checkpoint e) = cursor_col e /\ selection_anchor (push_undo_checkpoint e) = selection_anchor e
  /\ multiline (push_undo_checkpoint e) = multiline e.
Proof. unfold push_undo_checkpoint. by case_decide. Qed.

Lemma Forall_tail {A} (P : A -> Prop) l : Forall P l -> Forall P (tail l).
Proof. destruct 1; [constructor|done]. Qed.

Lemma checkpoint_stacks e : te_ok e -> stacks_ok (push_undo_checkpoint e).
Proof.
  intros Hok. destruct (ok_stacks _ Hok) as (H1 & H2 & H3). unfold push_undo_checkpoint.
  case_decide; [done|]. unfold stacks_ok. cbn [with_stacks undo_stack redo_stack].
  split_and!; [| |constructor].
  - rw length_app. destruct (Nat.leb_spec MAX_UNDO (length (undo_stack e))) as [Hle|Hlt].
    + destruct (undo_stack e) as [|u us]; unfold MAX_UNDO in *; cbn [length tail] in *; lia.
    + cbn [length]. lia.
  - apply Forall_app. split; [case_match; [by apply Forall_tail|done]|]. constructor; [|constructor].
    apply valid_join, Hok.
Qed.

Lemma checkpoint_ok e : te_ok e -> te_ok (push_undo_checkpoint e).
Proof.
  intros Hok. destruct (checkpoint_fields e) as (E1 & E2 & E3 & E4 & E5). pose proof (checkpoint_stacks e Hok). destruct Hok as [H1 H2 H3 H4 _].
  by split; rw ?E1 ?E2 ?E3 ?E4 ?E5.
Qed.

Lemma checkpoint_ranges e :
  selection_range (push_undo_checkpoint e) = selection_range e /\ has_selection (push_undo_checkpoint e) = has_selection e
  /\ value (push_undo_checkpoint e) = value e /\ flat_cursor_byte (push_undo_checkpoint e) = flat_cursor_byte e.
Proof. unfold push_undo_checkpoint. by case_decide. Qed.

(** ** Deleting the selection *)
Lemma line_ok_cut l k : line_ok l -> is_char_boundary l k = true -> line_ok (take k l) /\ line_ok (drop k l).
Proof.
  intros [H1 H2] Hb. rw -{1}(take_drop k l) in H1. apply not_elem_of_app in H1 as [H1 H1'].
  by destruct (valid_cut l k H2 Hb).
Qed.

Lemma line_ok_take l k : line_ok l -> is_char_boundary l k = true -> line_ok (take k l).
Proof. intros Hl Hb. by destruct (line_ok_cut l k Hl Hb). Qed.

Lemma line_ok_drop l k : line_ok l -> is_char_boundary l k = true -> line_ok (drop k l).
Proof. intros Hl Hb. by destruct (line_ok_cut l k Hl Hb). Qed.

Lemma line_starts l : line_ok l -> starts_char l.
Proof. intros [_ H]. by apply valid_starts. Qed.

Lemma boundary_drop l k : line_ok l -> is_char_boundary l k = true -> starts_char (drop k l).
Proof. intros Hl Hb. by apply line_starts, line_ok_drop. Qed.

Lemma boundary_app s t : starts_char t -> is_char_boundary (s ++ t) (length s) = true.
Proof.
  intros Ht. unfold is_char_boundary. destruct t as [|b t]; [by rw app_nil_r Nat.eqb_refl orb_true_r|].
  rw list_lookup_middle //. cbn in Ht |- *. by rw Ht !orb_true_r.
Qed.

Lemma line_ok_app s t : line_ok s -> line_ok t -> line_ok (s ++ t).
Proof. intros [H1 H2] [H3 H4]. split; [by intros [H|H]%elem_of_app|by apply valid_app]. Qed.

(** What an edit leaves: the lines [before ++ (s ++ t) :: after] with the cursor behind [s]. *)
Lemma edited_ok e before s t after :
  Forall line_ok (before ++ (s ++ t) :: after) -> starts_char t ->
  te_lines e = before ++ (s ++ t) :: after -> cursor_row e = length before -> cursor_col e = length s ->
  selection_anchor e = None -> (multiline e = false -> length (te_lines e) = 1) ->
  stacks_ok e ->
  te_ok e /\ flat_cursor_byte e = length (lines_before before ++ s).
Proof.
  intros Hl Ht Hlines Hrow Hcol Ha Hm Hu.
  assert (pos_ok (te_lines e) (cursor_row e, cursor_col e)) as Hc.
  { exists (s ++ t). rw Hlines Hrow Hcol. cbn [fst snd]. split; [by apply list_lookup_middle|]. split; [rw length_app; lia|by apply boundary_app]. }
  split; [split; [by rw Hlines|done|by rw Ha|done|done]|].
  rw flat_cursor //. unfold flat, flat_offset. cbn [fst snd]. rw Hlines Hrow Hcol flat_offset_split !length_app. lia.
Qed.

(** Two positions on the lines. *)
Lemma rows_split lines ra ca rb cb :
  pos_ok lines (ra, ca) -> pos_ok lines (rb, cb) -> ra < rb ->
  exists before first mid last after, lines = before ++ first :: mid ++ last :: after
    /\ ra = length before /\ rb = length before + S (length mid)
    /\ ca <= length first /\ is_char_boundary first ca = true /\ cb <= length last /\ is_char_boundary last cb = true.
Proof.
  intros (before & first & rest & -> & -> & Ha1 & Ha2 & _)%pos_split (last & Hl & Hb1 & Hb2) Hlt. cbn [fst snd] in *.
  rw lookup_app_r in Hl; [lia|]. destruct (rb - length before) as [|k] eqn:Ek; [lia|]. cbn in Hl.
  exists before, first, (take k rest), last, (drop (S k) rest).
  assert (length (take k rest) = k) as Hk by (rw length_take; apply lookup_lt_Some in Hl; lia).
  rw take_drop_middle // Hk. split_and!; try done. lia.
Qed.

Definition same_mode (e e' : TextEdit) : Prop :=
  multiline e' = multiline e /\ undo_stack e' = undo_stack e /\ redo_stack e' = redo_stack e.

(** What a deletion between two positions promises. *)
Definition deletes (e : TextEdit) (r : res (TextEdit * option (list byte))) (s f : nat) : Prop :=
  exists e', r = Ok (e', Some (take (f - s) (drop s (value e)))) /\ te_ok e' /\ selection_anchor e' = None
    /\ value e' = splice (value e) s (f - s) [] /\ flat_cursor_byte e' = s /\ same_mode (push_undo_checkpoint e) e'.

Lemma delete_selection_same e row ca cb :
  te_ok e -> selection_range e = Some ((row, ca), (row, cb)) -> ca < cb ->
  pos_ok (te_lines e) (row, ca) -> pos_ok (te_lines e) (row, cb) ->
  deletes e (delete_selection e) (flat (te_lines e) (row, ca)) (flat (te_lines e) (row, cb)).
Proof.
  intros Hok Hsel Hlt Ha (line' & Hl' & Hb1 & Hb2). destruct (pos_split _ _ _ Ha) as (before & line & after & El & -> & Ha1 & Ha2 & _).
  cbn [fst snd] in *. rw El list_lookup_middle // in Hl'. injection Hl' as <-.
  destruct (checkpoint_fields e) as (E1 & E2 & E3 & E4 & E5). destruct (checkpoint_ranges e) as (F1 & F2 & F3 & F4).
  pose proof (same_row_cut before line after ca cb ltac:(lia) Hb1 Ha2 Hb2) as Hcut. rw -El in Hcut.
  pose proof (ok_lines _ Hok) as Hlines. rw El in Hlines. apply Forall_app in Hlines as [HL1 [HL2 HL3]%Forall_cons_1].
  unfold delete_selection. rw F1 Hsel. unfold selected_text. rw F1 Hsel Nat.eqb_refl E1 El get_mid. cbn [mbind res_bind].
  rw (Nat.min_l cb (length line)) // (Nat.min_l ca cb); [lia|]. rw str_slice_ok //; [lia|]. cbn [mbind res_bind].
  rw str_drain_ok //; [lia|]. cbn [mbind res_bind]. rw insert_mid.
  set (e' := with_anchor _ None). rw -El.
  destruct (edited_ok e' before (take ca line) (drop cb line) after) as [Hok' Hcur].
  - apply Forall_app. split; [done|]. constructor; [|done]. apply line_ok_app; [by apply line_ok_take|by apply line_ok_drop].
  - by apply boundary_drop.
  - done.
  - done.
  - cbn. rw length_take. lia.
  - done.
  - cbn. rw E5. intros Hm%(ok_single _ Hok). rw El in Hm. by rw !length_app in Hm |- *.
  - apply (checkpoint_stacks e Hok).
  - exists e'. split_and!; [|done|done| | |done].
    + do 3 f_equal. symmetry. exact (cut_slice _ _ _ _ _ _ Hcut).
    + unfold value at 2. rw (cut_splice _ _ _ _ _ _ [] Hcut). unfold value. cbn. by rw join_split -!app_assoc.
    + rw Hcur. symmetry. apply (rc_start _ _ _ _ _ _ Hcut).
Qed.

Lemma delete_selection_rows e ra ca rb cb :
  te_ok e -> selection_range e = Some ((ra, ca), (rb, cb)) -> ra < rb ->
  pos_ok (te_lines e) (ra, ca) -> pos_ok (te_lines e) (rb, cb) ->
  deletes e (delete_selection e) (flat (te_lines e) (ra, ca)) (flat (te_lines e) (rb, cb)).
Proof.
  intros Hok Hsel Hlt Ha Hb.
  destruct (rows_split _ _ _ _ _ Ha Hb Hlt) as (before & first & mid & last & after & El & -> & -> & Ha1 & Ha2 & Hb1 & Hb2).
  destruct (checkpoint_fields e) as (E1 & E2 & E3 & E4 & E5). destruct (checkpoint_ranges e) as (F1 & F2 & F3 & F4).
  pose proof (rows_cut before first mid last after ca cb Ha1 Hb1) as Hcut. rw -El in Hcut.
  assert (te_lines e = (before ++ first :: mid) ++ last :: after) as El2 by by rw El -app_assoc.
  assert (get (te_lines e) (length before + S (length mid)) = Ok last) as Glast.
  { rw El2. replace (length before + S (length mid)) with (length (before ++ first :: mid)) by by rw length_app. apply get_mid. }
  assert (get (te_lines e) (length before) = Ok first) as Gfirst by (rw El; apply get_mid).
  pose proof (ok_lines _ Hok) as Hlines. rw El in Hlines.
  apply Forall_app in Hlines as [HL1 [HL2 [_ [HL3 HL4]%Forall_cons_1]%Forall_app]%Forall_cons_1].
  assert (middle_lines (te_lines e) (S (length before)) (length before + S (length mid) - S (length before)) = Ok (lines_before mid)) as Hmid.
  { replace (length before + S (length mid) - S (length before)) with (length mid) by lia.
    pose proof (middle_lines_ok mid (before ++ [first]) (last :: after)) as H. rw -app_assoc length_app Nat.add_1_r in H. rw El. exact H. }
  unfold delete_selection. rw F1 Hsel. unfold selected_text. rw F1 Hsel E1 Gfirst Glast.
  rw (proj2 (Nat.eqb_neq _ _)); [lia|]. cbn [mbind res_bind]. rw Hmid. cbn [mbind res_bind].
  rw !Nat.min_l // !str_slice_ok //; try apply boundary_len; [lia|]. cbn [mbind res_bind].
  rw str_truncate_ok //. cbn [mbind res_bind].
  assert (take (length before) (te_lines e) = before) as -> by by rw El take_app_length.
  assert (drop (S (length before + S (length mid))) (te_lines e) = after) as ->.
  { rw El2. replace (S (length before + S (length mid))) with (length (before ++ first :: mid) + 1) by (rw length_app; cbn; lia).
    by rw -drop_drop drop_app_length. }
  rw (take_ge (drop cb last)); [rw length_drop; lia|].
  set (e' := with_anchor _ None).
  destruct (edited_ok e' before (take ca first) (drop cb last) after) as [Hok' Hcur].
  - apply Forall_app. split; [done|]. constructor; [|done]. apply line_ok_app; [by apply line_ok_take|by apply line_ok_drop].
  - by apply boundary_drop.
  - done.
  - done.
  - cbn. rw length_take. lia.
  - done.
  - cbn. rw E5. intros Hm%(ok_single _ Hok). rw El !length_app /= !length_app in Hm. cbn in Hm. lia.
  - apply (checkpoint_stacks e Hok).
  - exists e'. split_and!; [|done|done| | |done].
    + do 3 f_equal. rw (cut_slice _ _ _ _ _ _ Hcut) (take_ge (drop ca first)); [rw length_drop; lia|]. by rw Nat.sub_0_r.
    + unfold value at 2. rw (cut_splice _ _ _ _ _ _ [] Hcut). unfold value. cbn. by rw join_split -!app_assoc.
    + rw Hcur. symmetry. apply (rc_start _ _ _ _ _ _ Hcut).
Qed.

Lemma delete_selection_ok e a b :
  te_ok e -> selection_range e = Some (a, b) -> deletes e (delete_selection e) (flat (te_lines e) a) (flat (te_lines e) b).
Proof.
  intros Hok Hsel. destruct (selection_range_spec e a b Hsel) as (Hlt & anchor & Ha & Hends).
  assert (pos_ok (te_lines e) a /\ pos_ok (te_lines e) b) as [Pa Pb].
  { pose proof (ok_anchor _ Hok anchor Ha). pose proof (ok_cursor _ Hok). destruct Hends as [[-> ->]|[-> ->]]; auto. }
  destruct a as [ra ca], b as [rb cb]. destruct Hlt as [Hlt|[Heq Hlt]]; cbn in *; [by apply delete_selection_rows|].
  subst rb. by apply delete_selection_same.
Qed.

Lemma edit_range_le e : te_ok e -> (edit_range e).1 <= length (value e).
Proof.
  intros Hok. unfold edit_range, selection_flat_range. destruct (selection_range e) as [[a b]|] eqn:Hr.
  - destruct (selection_range_spec e a b Hr) as (_ & anchor & Ha & Hends).
    assert (pos_ok (te_lines e) a) as Pa.
    { pose proof (ok_anchor _ Hok anchor Ha). pose proof (ok_cursor _ Hok). destruct Hends as [[-> _]|[_ ->]]; auto. }
    destruct a, b. by apply (flat_le _ _ Pa).
  - cbn. rw flat_cursor; [apply Hok|]. apply flat_le, Hok.
Qed.

(** ** Inserting *)
Lemma splice_twice {A} (t : list A) s d ins : s <= length t -> splice (splice t s d []) s 0 ins = splice t s d ins.
Proof.
  intros Hs. unfold splice. cbn [app]. rw Nat.add_0_r.
  assert (length (take s t) = s) as Hl by (rw length_take; lia).
  rw take_app_le; [lia|]. rw (take_ge (take s t)); [lia|]. rw drop_app_ge; [lia|]. by rw Hl Nat.sub_diag drop_0.
Qed.

Lemma splice_none {A} (t : list A) s : splice t s 0 [] = t.
Proof. unfold splice. cbn. by rw Nat.add_0_r take_drop. Qed.

(** The state in which text goes in at the cursor: no selection is left. *)
Definition ready (e e' : TextEdit) (s f : nat) : Prop :=
  te_ok e' /\ value e' = splice (value e) s (f - s) [] /\ flat_cursor_byte e' = s /\ has_selection e' = false
  /\ multiline e' = multiline e.

Lemma edit_range_None e : has_selection e = false -> edit_range e = (flat_cursor_byte e, flat_cursor_byte e).
Proof. intros H%selection_range_None. unfold edit_range, selection_flat_range. by rw H. Qed.

Lemma edit_range_Some e a b : selection_range e = Some (a, b) -> edit_range e = (flat (te_lines e) a, flat (te_lines e) b).
Proof. intros H. unfold edit_range, selection_flat_range. rw H. by destruct a, b. Qed.

Lemma edit_range_checkpoint e : edit_range (push_undo_checkpoint e) = edit_range e.
Proof.
  unfold edit_range, selection_flat_range. destruct (checkpoint_ranges e) as (-> & _ & _ & ->).
  by destruct (checkpoint_fields e) as (-> & _).
Qed.

Lemma delete_if_selected_ok e :
  te_ok e -> exists e', delete_if_selected e = Ok e' /\ ready e e' (edit_range e).1 (edit_range e).2.
Proof.
  intros Hok. unfold delete_if_selected. destruct (has_selection e) eqn:Hs.
  - destruct (selection_range e) as [[a b]|] eqn:Hr; [|by apply selection_range_None in Hr; rw Hr in Hs].
    destruct (delete_selection_ok e a b Hok Hr) as (e' & -> & H1 & H2 & H3 & H4 & (H5 & _)).
    rw (edit_range_Some e a b Hr). exists e'. split; [done|]. split_and!; [done|done|done| |].
    + unfold has_selection. by rw H2.
    + rw H5. apply checkpoint_fields.
  - rw edit_range_None //. exists e. split; [done|]. cbn [fst snd]. split_and!; [done| |done|done|done].
    by rw Nat.sub_diag splice_none.
Qed.

Lemma char_line_ok c : is_scalar c = true -> c <> 10%N -> line_ok (encode_utf8 c).
Proof.
  intros Hc Hn. split; [|by apply valid_char]. intros H. pose proof (encode_no_newline c Hc Hn) as Hf.
  apply list_elem_of_lookup_1 in H as [i Hi]. by apply (Forall_lookup_1 _ _ _ _ Hf) in Hi.
Qed.

(** What the insertion of a text promises. *)
Definition inserts (e : TextEdit) (r : res TextEdit) (s f : nat) (ins : list byte) : Prop :=
  exists e', r = Ok e' /\ te_ok e' /\ has_selection e' = false /\ value e' = splice (value e) s (f - s) ins
    /\ flat_cursor_byte e' = s + length ins /\ multiline e' = multiline e.

(** The lines around the cursor. *)
Lemma cursor_split e :
  te_ok e -> exists before line after, te_lines e = before ++ line :: after /\ cursor_row e = length before
    /\ cursor_col e <= length line /\ is_char_boundary line (cursor_col e) = true
    /\ line_ok line /\ Forall line_ok before /\ Forall line_ok after
    /\ value e = (lines_before before ++ take (cursor_col e) line) ++ drop (cursor_col e) line ++ lines_after after
    /\ flat_cursor_byte e = length (lines_before before ++ take (cursor_col e) line).
Proof.
  intros Hok. pose proof (ok_cursor _ Hok) as Hc. destruct (pos_split _ _ _ Hc) as (before & line & after & El & Er & Hle & Hb & Hf).
  pose proof (ok_lines _ Hok) as Hl. rw El in Hl. apply Forall_app in Hl as [HL1 [HL2 HL3]%Forall_cons_1].
  exists before, line, after. split_and!; try done.
  - unfold value. rw El join_split -app_assoc. f_equal. by rw app_assoc take_drop.
  - rw flat_cursor // Hf length_app length_take. lia.
Qed.

Lemma splice_at {A} (P Q ins : list A) : splice (P ++ Q) (length P) 0 ins = P ++ ins ++ Q.
Proof. unfold splice. rw Nat.add_0_r. by rw take_app_length drop_app_length. Qed.

Lemma insert_at_cursor_ok e c :
  te_ok e -> selection_anchor e = None -> is_scalar c = true -> (c <> 10%N \/ multiline e = true) ->
  inserts e (insert_at_cursor e c) (flat_cursor_byte e) (flat_cursor_byte e) (encode_utf8 c).
Proof.
  intros Hok Ha Hc Hn. unfold inserts. rw Nat.sub_diag.
  destruct (cursor_split e Hok) as (before & line & after & El & Er & Hle & Hb & HL & HLb & HLa & Hv & Hf).
  unfold insert_at_cursor. rw El Er get_mid. cbn [mbind res_bind]. rw (Nat.min_l _ _ Hle) Hf Hv splice_at.
  destruct (N.eqb_spec c 10) as [->|Hc10]; cbn [andb negb].
  - destruct Hn as [?|Hm]; [done|]. rw Hm Hb. cbn [check mbind res_bind].
    rw take_app_length. replace (S (length before)) with (length before + 1) by lia. rw -drop_drop drop_app_length.
    set (e' := with_cursor _ _ 0).
    destruct (edited_ok e' (before ++ [take (cursor_col e) line]) [] (drop (cursor_col e) line) after) as [Hok' Hcur'];
      [|by apply boundary_drop|cbn; by rw -app_assoc|cbn; by rw length_app|done|done|cbn; by rw Hm|apply Hok|].
    + rw -app_assoc. cbn [app]. apply Forall_app. split; [done|]. constructor; [by apply line_ok_take|]. constructor; [by apply line_ok_drop|done].
    + eexists. split; [done|]. split_and!; [done|unfold has_selection; cbn; by rw Ha| | |by cbn; rw Hm].
      * unfold value. cbn. rw join_split. change (lines_after (drop (cursor_col e) line :: after)) with (newline :: drop (cursor_col e) line ++ lines_after after).
        by rw -!app_assoc.
      * rw Hcur' lines_before_app. change (lines_before [take (cursor_col e) line]) with ((take (cursor_col e) line ++ [newline]) ++ []).
        rw !length_app. cbn. lia.
  - assert ((length before <? length (before ++ line :: after)) = true) as -> by (apply Nat.ltb_lt; rw length_app; cbn; lia).
    unfold str_insert. rw Hb. cbn [check mbind res_bind].
    rw insert_mid app_assoc. set (e' := with_cursor _ _ _).
    destruct (edited_ok e' before (take (cursor_col e) line ++ encode_utf8 c) (drop (cursor_col e) line) after) as [Hok' Hcur'];
      [|by apply boundary_drop|done|done| |done| |apply Hok|].
    + apply Forall_app. split; [done|]. constructor; [|done].
      apply line_ok_app; [apply line_ok_app; [by apply line_ok_take|by apply char_line_ok]|by apply line_ok_drop].
    + cbn. rw length_app length_take. lia.
    + intros Hm%(ok_single _ Hok). rw El in Hm. cbn. by rw !length_app in Hm |- *.
    + eexists. split; [done|]. split_and!; [done|unfold has_selection; cbn; by rw Ha| | |done].
      * unfold value. cbn. by rw join_split -!app_assoc.
      * rw Hcur' !length_app. lia.
Qed.

Lemma insert_char_ok e c :
  te_ok e -> is_scalar c = true -> (c <> 10%N \/ multiline e = true) ->
  inserts e (insert_char e c) (edit_range e).1 (edit_range e).2 (encode_utf8 c).
Proof.
  intros Hok Hc Hn. unfold insert_char.
  destruct (delete_if_selected_ok _ (checkpoint_ok e Hok)) as (e1 & -> & Hok1 & Hv1 & Hf1 & _ & Hm1). cbn [mbind res_bind].
  rw edit_range_checkpoint in Hv1, Hf1. destruct (checkpoint_ranges e) as (_ & _ & Hv & _). rw Hv in Hv1.
  destruct (checkpoint_fields e) as (_ & _ & _ & _ & Hm). rw Hm in Hm1.
  set (e2 := with_anchor e1 None).
  assert (te_ok e2) as Hok2 by (destruct Hok1 as [H1 H2 H3 H4 H5]; by split).
  destruct (insert_at_cursor_ok e2 c Hok2 eq_refl Hc) as (e' & E & H1 & H2 & H3 & H4 & H5).
  { destruct Hn as [Hn|Hn]; [by left|right; cbn; by rw Hm1]. }
  change (flat_cursor_byte e2) with (flat_cursor_byte e1) in H3, H4. change (value e2) with (value e1) in H3.
  exists e'. split_and!; [done|done|done| |by rw H4 Hf1|by rw H5].
  rw H3 Hf1 Nat.sub_diag Hv1. apply splice_twice. apply edit_range_le, Hok.
Qed.
