(* ===== verification/TextEditOps.v ===== *)
(** * The operations of the text edit

    Insertion and deletion as splices of the value, movements that keep the invariant,
    sessions, and undo. *)
From stdpp Require Import base numbers list option.
From Stdlib Require Import ssreflect Strings.Byte NArith.
From S2P Require Import Prelude TextSpec Utf8 LineDiff PathEncode TextEdit TextEditInv.

(** ** Inserting a text *)

(** What a text becomes: a single line has no newlines. *)
Definition typed_chars (multi : bool) (cs : list N) : list N :=
  if multi then cs else (fun c => if (c =? 10)%N then 32%N else c) <$> cs.

Lemma splice_append {A} (t a b : list A) s :
  s <= length t -> splice (splice t s 0 a) (s + length a) 0 b = splice t s 0 (a ++ b).
Proof.
  intros Hs. unfold splice. rw !Nat.add_0_r (app_assoc (take s t) a (drop s t)).
  assert (length (take s t ++ a) = s + length a) as Hl by (rw length_app length_take; lia).
  rw -Hl take_app_length drop_app_length -!app_assoc. done.
Qed.

Lemma typed_chars_cons multi c cs :
  typed_chars multi (c :: cs) = (if (c =? 10)%N && negb multi then 32%N else c) :: typed_chars multi cs.
Proof. unfold typed_chars. destruct multi; cbn; [by rw andb_false_r|]. by rw andb_true_r. Qed.

Lemma insert_chars_ok cs : forall e,
  te_ok e -> has_selection e = false -> Forall (fun c => is_scalar c = true) cs ->
  inserts e (insert_chars e cs) (flat_cursor_byte e) (flat_cursor_byte e) (encode_all (typed_chars (multiline e) cs)).
Proof.
  induction cs as [|c cs IH]; intros e Hok Hs Hcs.
  - exists e. split_and!; try done; [|by destruct (multiline e); cbn; lia].
    rw Nat.sub_diag. by destruct (multiline e); cbn; rw splice_none.
  - apply Forall_cons_1 in Hcs as [Hc Hcs]. cbn [insert_chars]. rw typed_chars_cons.
    set (c' := if (c =? 10)%N && negb (multiline e) then 32%N else c).
    assert (is_scalar c' = true) as Hc' by (unfold c'; by case_match).
    assert (c' <> 10%N \/ multiline e = true) as Hn.
    { unfold c'. destruct (multiline e); [by right|left]. rw andb_true_r. destruct (N.eqb_spec c 10); done. }
    destruct (insert_char_ok e c' Hok Hc' Hn) as (e1 & -> & H1 & H2 & H3 & H4 & H5). cbn [mbind res_bind].
    rw edit_range_None // in H3, H4. cbn [fst snd] in H3, H4. rw Nat.sub_diag in H3.
    destruct (IH e1 H1 H2 Hcs) as (e2 & -> & G1 & G2 & G3 & G4 & G5). rw H5 H4 in G4. rw H5 H4 Nat.sub_diag H3 in G3.
    assert (flat_cursor_byte e <= length (value e)) as Hle by (rw flat_cursor; [apply Hok|]; apply flat_le, Hok).
    exists e2. split_and!; [done|done|done| | |by rw G5].
    + rw G3 Nat.sub_diag splice_append //.
    + rw G4 encode_all_cons length_app. lia.
Qed.

Lemma insert_str_ok e text :
  te_ok e -> from_utf8 text = None ->
  inserts e (insert_str e text) (edit_range e).1 (edit_range e).2 (encode_all (typed_chars (multiline e) (from_utf8_lossy text))).
Proof.
  intros Hok Ht. destruct (from_utf8_valid text Ht) as [_ Hcs]. unfold insert_str.
  destruct (delete_if_selected_ok _ (checkpoint_ok e Hok)) as (e1 & -> & Hok1 & Hv1 & Hf1 & Hs1 & Hm1). cbn [mbind res_bind].
  rw edit_range_checkpoint in Hv1, Hf1. destruct (checkpoint_ranges e) as (_ & _ & Hv & _). rw Hv in Hv1.
  destruct (checkpoint_fields e) as (_ & _ & _ & _ & Hm). rw Hm in Hm1.
  destruct (insert_chars_ok _ e1 Hok1 Hs1 Hcs) as (e2 & -> & G1 & G2 & G3 & G4 & G5). rw Hm1 Hf1 in G4. rw Hm1 Hf1 Nat.sub_diag Hv1 in G3.
  exists e2. split_and!; [done|done|done| |done|by rw G5]. rw G3. apply splice_twice, edit_range_le, Hok.
Qed.

(** Typing or pasting a text replaces the selection by it, or inserts it at the cursor,
    and leaves the cursor behind it; nothing else of the value changes, and nothing panics.
    In a single line a newline becomes a space. *)
Theorem insert_str_splices e text :
  te_ok e -> from_utf8 text = None ->
  let '(s, f) := edit_range e in
  let typed := if multiline e then text else encode_all (typed_chars false (from_utf8_lossy text)) in
  exists e', insert_str e text = Ok e' /\ te_ok e' /\ value e' = splice (value e) s (f - s) typed
    /\ flat_cursor_byte e' = s + length typed.
Proof.
  intros Hok Ht. destruct (insert_str_ok e text Hok Ht) as (e' & E & H1 & _ & H3 & H4 & _).
  destruct (edit_range e) as [s f]. cbn [fst snd] in *. exists e'.
  destruct (multiline e); cbn [typed_chars] in H3, H4; [|done]. by rw -(proj1 (from_utf8_valid text Ht)) in H3, H4.
Qed.

(** Deleting the selection returns its text and removes exactly that from the value,
    wherever it starts and ends, and leaves the cursor at its start. *)
Theorem delete_selection_splices e :
  te_ok e -> has_selection e = true ->
  exists s f e', selection_flat_range e = Some (s, f)
    /\ delete_selection e = Ok (e', Some (take (f - s) (drop s (value e))))
    /\ te_ok e' /\ value e' = splice (value e) s (f - s) [] /\ flat_cursor_byte e' = s /\ has_selection e' = false.
Proof.
  intros Hok Hs. destruct (selection_range e) as [[a b]|] eqn:Hr; [|by apply selection_range_None in Hr; rw Hr in Hs].
  destruct (delete_selection_ok e a b Hok Hr) as (e' & E & H1 & H2 & H3 & H4 & _).
  exists (flat (te_lines e) a), (flat (te_lines e) b), e'. split_and!; try done.
  - unfold selection_flat_range. rw Hr. by destruct a, b.
  - unfold has_selection. by rw H2.
Qed.

(** ** Deleting *)
Lemma inserts_checkpoint e r s f ins : inserts (push_undo_checkpoint e) r s f ins -> inserts e r s f ins.
Proof.
  intros (e' & H1 & H2 & H3 & H4 & H5 & H6). destruct (checkpoint_ranges e) as (_ & _ & Hv & _).
  destruct (checkpoint_fields e) as (_ & _ & _ & _ & Hm). exists e'. rw Hv in H4. rw Hm in H6. done.
Qed.

Lemma deleting_selected f e :
  te_ok e -> has_selection e = true -> inserts e (deleting f e) (edit_range e).1 (edit_range e).2 [].
Proof.
  intros Hok Hs. unfold deleting. destruct (checkpoint_ranges e) as (_ & Hs1 & _). rw Hs1 Hs.
  pose proof (delete_if_selected_ok _ (checkpoint_ok e Hok)) as H. unfold delete_if_selected in H. rw Hs1 Hs in H.
  destruct H as (e' & -> & H1 & H2 & H3 & H4 & H5). rw edit_range_checkpoint in H2, H3.
  apply inserts_checkpoint. exists e'. split_and!; [done|done|done|done|by rw Nat.add_0_r|done].
Qed.

Lemma deleting_nothing_selected f e s t :
  te_ok e -> has_selection e = false -> inserts (push_undo_checkpoint e) (f (push_undo_checkpoint e)) s t [] ->
  inserts e (deleting f e) s t [].
Proof.
  intros Hok Hs H. unfold deleting. destruct (checkpoint_ranges e) as (_ & Hs1 & _). rw Hs1 Hs. by apply inserts_checkpoint.
Qed.

(** The offset of the cursor's line. *)
Definition line_start (e : TextEdit) : nat := flat_cursor_byte e - cursor_col e.

Lemma drain_line_ok e a b :
  te_ok e -> selection_anchor e = None -> a <= b -> b <= length (current_line e) ->
  is_char_boundary (current_line e) a = true -> is_char_boundary (current_line e) b = true ->
  inserts e (e1 ← drain_line e a b; Ok (with_cursor e1 (cursor_row e1) a)) (line_start e + a) (line_start e + b) [].
Proof.
  intros Hok Ha Hab Hb Ba Bb.
  destruct (cursor_split e Hok) as (before & line & after & El & Er & Hle & _ & HL & HLb & HLa & _ & Hf).
  assert (current_line e = line) as Hcur by (unfold current_line; rw El Er; by rw list_lookup_middle).
  rw Hcur in Hb, Ba, Bb.
  assert (line_start e = length (lines_before before)) as Hls by (unfold line_start; rw Hf length_app length_take; lia).
  pose proof (same_row_cut before line after a b Hab Hb Ba Bb) as Hcut. rw -El in Hcut.
  assert (get (te_lines e) (cursor_row e) = Ok line) as Hget by (rw El Er; apply get_mid).
  unfold drain_line. rw Hget. cbn [mbind res_bind]. rw str_drain_ok //. cbn [mbind res_bind].
  assert (<[cursor_row e := take a line ++ drop b line]> (te_lines e) = before ++ (take a line ++ drop b line) :: after) as ->
    by (rw El Er; apply insert_mid).
  set (e' := with_cursor _ _ a).
  destruct (edited_ok e' before (take a line) (drop b line) after) as [Hok' Hcur'];
    [|by apply boundary_drop|done|done|cbn; rw length_take; lia|done| |apply Hok|].
  - apply Forall_app. split; [done|]. constructor; [|done]. apply line_ok_app; [by apply line_ok_take|by apply line_ok_drop].
  - intros Hm%(ok_single _ Hok). rw El in Hm. cbn. by rw !length_app in Hm |- *.
  - exists e'. split_and!; [done|done|unfold has_selection; cbn; by rw Ha| | |done].
    + pose proof (cut_splice _ _ _ _ _ _ [] Hcut) as Hs. rw (rc_start _ _ _ _ _ _ Hcut) (rc_end _ _ _ _ _ _ Hcut) in Hs.
      unfold value. rw Hls. replace (length (lines_before before) + b - (length (lines_before before) + a)) with (b - a) by lia.
      rw length_app !length_take length_drop in Hs. rw Nat.min_l in Hs; [lia|]. rw Nat.min_l in Hs; [lia|].
      replace (length (lines_before before) + a + (b - a) - (length (lines_before before) + a)) with (b - a) in Hs by lia.
      rw Hs. cbn. by rw join_split -!app_assoc.
    + rw Hcur' Hls length_app length_take. cbn. lia.
Qed.

(** Joining two lines removes the newline between them. *)
Lemma join_lines_ok e e' before line next after :
  Forall line_ok (before ++ line :: next :: after) -> te_lines e = before ++ line :: next :: after ->
  te_lines e' = before ++ (line ++ next) :: after -> cursor_row e' = length before -> cursor_col e' = length line ->
  selection_anchor e' = None -> multiline e = true -> multiline e' = true ->
  stacks_ok e' ->
  let s := length (lines_before before ++ line) in inserts e (Ok e') s (S s) [].
Proof.
  intros Hl El El' Er Ec Ha Hm Hm' Hu s. apply Forall_app in Hl as [HL1 [HL2 [HL3 HL4]%Forall_cons_1]%Forall_cons_1].
  destruct (edited_ok e' before line next after) as [Hok' Hcur'].
  - apply Forall_app. split; [done|]. constructor; [by apply line_ok_app|done].
  - by apply line_starts.
  - done.
  - done.
  - done.
  - done.
  - by rw Hm'.
  - done.
  - exists e'. split_and!; [done|done|unfold has_selection; by rw Ha| |by rw Hcur' Nat.add_0_r|by rw Hm].
    replace (S s - s) with 1 by lia. unfold value. rw El El' !join_split.
    change (lines_after (next :: after)) with (newline :: next ++ lines_after after).
    rw (app_assoc (lines_before before) line). unfold splice. fold s. rw take_app_length -drop_drop drop_app_length. cbn [app drop].
    by rw -!app_assoc.
Qed.

Lemma join_next_ok e :
  te_ok e -> selection_anchor e = None -> multiline e = true -> length (current_line e) <= cursor_col e ->
  cursor_row e + 1 < length (te_lines e) -> inserts e (join_next e) (flat_cursor_byte e) (S (flat_cursor_byte e)) [].
Proof.
  intros Hok Ha Hm Hc Hr.
  destruct (cursor_split e Hok) as (before & line & after & El & Er & Hle & _ & HL & HLb & HLa & _ & Hf).
  assert (current_line e = line) as Hcur by (unfold current_line; rw El Er; by rw list_lookup_middle).
  rw Hcur in Hc. rw take_ge // in Hf. destruct after as [|next after]; [rw El Er length_app /= in Hr; lia|].
  assert (get (te_lines e) (cursor_row e) = Ok line) as G1 by (rw El Er; apply get_mid).
  assert (te_lines e = (before ++ [line]) ++ next :: after) as El2 by by rw El -app_assoc.
  assert (get (te_lines e) (cursor_row e + 1) = Ok next) as G2.
  { rw El2 Er. replace (length before + 1) with (length (before ++ [line])) by by rw length_app. apply get_mid. }
  unfold join_next. rw G2 G1. cbn [mbind res_bind]. rw Hf.
  apply (join_lines_ok e _ before line next after); try done; [by apply Forall_app; split; [|constructor]| |cbn; lia|apply Hok].
  cbn. by rw El Er take_app_length -drop_drop drop_app_length.
Qed.

(** The offset of the cursor's line. *)
Lemma line_start_split e before line :
  cursor_col e <= length line -> flat_cursor_byte e = length (lines_before before ++ take (cursor_col e) line) ->
  line_start e = length (lines_before before).
Proof. intros Hle Hf. unfold line_start. rw Hf length_app length_take. lia. Qed.

Lemma join_previous_ok e :
  te_ok e -> selection_anchor e = None -> multiline e = true -> 0 < cursor_row e ->
  0 < line_start e /\ inserts e (join_previous e) (line_start e - 1) (line_start e) [].
Proof.
  intros Hok Ha Hm Hr.
  destruct (cursor_split e Hok) as (before & line & after & El & Er & Hle & _ & HL & HLb & HLa & _ & Hf).
  pose proof (line_start_split e before line Hle Hf) as Hls.
  destruct before as [|previous before _] using rev_ind; [cbn in Er; lia|].
  rw length_app Nat.add_1_r in Er. rw lines_before_app in Hls.
  change (lines_before [previous]) with ((previous ++ [newline]) ++ []) in Hls. rw app_nil_r app_assoc length_app in Hls. cbn [length] in Hls.
  assert (get (te_lines e) (cursor_row e) = Ok line) as G1.
  { rw El Er. replace (S (length before)) with (length (before ++ [previous])) by (rw length_app; cbn; lia). apply get_mid. }
  assert (te_lines e = before ++ previous :: line :: after) as El2 by by rw El -app_assoc.
  assert (get (te_lines e) (cursor_row e - 1) = Ok previous) as G2 by (rw El2 Er; replace (S (length before) - 1) with (length before) by lia; apply get_mid).
  split; [lia|]. unfold join_previous. rw G1 G2. cbn [mbind res_bind]. rw Er. replace (S (length before) - 1) with (length before) by lia.
  set (s := length (lines_before before ++ previous)) in Hls. replace (line_start e - 1) with s by lia.
  replace (line_start e) with (S s) by lia.
  apply Forall_app in HLb as [HLb [HLp _]%Forall_cons_1].
  apply (join_lines_ok e _ before previous line after); try done; [by apply Forall_app; split; [|constructor; [|constructor]]| |apply Hok].
  cbn. rw El2 take_app_length. replace (S (S (length before))) with (length before + 2) by lia.
  by rw -drop_drop drop_app_length.
Qed.

(** ** Backspace *)

(** Where the character before an offset starts. *)
Definition prev_char (v : list byte) (off : nat) : nat := back_off (fun k => negb (is_char_boundary v k)) (off - 1).

Lemma back_off_le' cut n : back_off cut n <= n.
Proof. induction n as [|n IH]; [done|]. cbn. case_match; lia. Qed.

Lemma back_off_boundary l n : is_char_boundary l (back_off (fun k => negb (is_char_boundary l k)) n) = true.
Proof. induction n as [|n IH]; [done|]. cbn [back_off]. destruct (is_char_boundary l (S n)) eqn:E; [exact E|exact IH]. Qed.

(** Inside a line, characters are those of the value. *)
Lemma boundary_inside P line Q n :
  0 < n < length line -> is_char_boundary (P ++ line ++ Q) (length P + n) = is_char_boundary line n.
Proof.
  intros Hn. unfold is_char_boundary. rw lookup_app_r; [lia|]. replace (length P + n - length P) with n by lia.
  rw lookup_app_l; [lia|]. rw !length_app.
  by rw !(proj2 (Nat.eqb_neq _ _)); [lia|lia|lia|lia|].
Qed.

Lemma boundary_at P line Q : starts_char line -> line <> [] -> is_char_boundary (P ++ line ++ Q) (length P) = true.
Proof. intros Hs Hne. apply boundary_app. by destruct line. Qed.

Lemma back_off_value P line Q n :
  starts_char line -> n < length line ->
  back_off (fun k => negb (is_char_boundary (P ++ line ++ Q) k)) (length P + n)
  = length P + back_off (fun k => negb (is_char_boundary line k)) n.
Proof.
  intros Hs. induction n as [|n IH]; intros Hn.
  - cbn [back_off]. rw Nat.add_0_r. assert (is_char_boundary (P ++ line ++ Q) (length P) = true) as Hb by (apply boundary_at; [done|intros ->; cbn in Hn; lia]).
    destruct (length P) as [|m]; [done|]. cbn [back_off]. by rw Hb.
  - rw Nat.add_succ_r. cbn [back_off]. rw -Nat.add_succ_r boundary_inside; [lia|].
    destruct (is_char_boundary line (S n)); cbn [negb]; [done|]. apply IH. lia.
Qed.

Lemma inserts_nothing e s : te_ok e -> has_selection e = false -> flat_cursor_byte e = s -> inserts e (Ok e) s s [].
Proof. intros Hok Hs <-. exists e. split_and!; [done|done|done| |by rw Nat.add_0_r|done]. by rw Nat.sub_diag splice_none. Qed.

(** A newline is a character of its own. *)
Lemma prev_char_newline P Q : prev_char (P ++ newline :: Q) (S (length P)) = length P.
Proof.
  unfold prev_char. replace (S (length P) - 1) with (length P) by lia. destruct (length P) as [|m] eqn:El; [done|].
  cbn [back_off]. rw -El. pose proof (boundary_app P (newline :: Q) eq_refl) as Hb. by rw Hb.
Qed.

(** No anchor is left behind at the cursor. *)
Definition anchored (e : TextEdit) : Prop := selection_anchor e = None \/ has_selection e = true.

Lemma anchored_none e : anchored e -> has_selection e = false -> selection_anchor e = None.
Proof. intros [H|H] Hs; [done|congruence]. Qed.

Lemma backspace_char_ok e :
  te_ok e -> selection_anchor e = None ->
  inserts e (backspace_char e) (prev_char (value e) (flat_cursor_byte e)) (flat_cursor_byte e) [].
Proof.
  unfold backspace_char.
  intros Hok Ha.
  destruct (cursor_split e Hok) as (before & line & after & El & Er & Hle & Hb & HL & HLb & HLa & Hv & Hf).
  pose proof (line_start_split e before line Hle Hf) as Hls.
  assert (flat_cursor_byte e = line_start e + cursor_col e) as Hcur by (rw Hls Hf length_app length_take; lia).
  assert (current_line e = line) as Hline by (unfold current_line; rw El Er; by rw list_lookup_middle).
  destruct (Nat.ltb_spec 0 (cursor_col e)) as [Hpos|Hzero].
  - assert (get (te_lines e) (cursor_row e) = Ok line) as -> by (rw El Er; apply get_mid). cbn [mbind res_bind]. cbv zeta.
    assert (prev_char (value e) (flat_cursor_byte e) = line_start e + back_off (fun k => negb (is_char_boundary line k)) (cursor_col e - 1)) as ->.
    { rw Hcur Hls. unfold prev_char. replace (length (lines_before before) + cursor_col e - 1) with (length (lines_before before) + (cursor_col e - 1)) by lia.
      rw -(back_off_value (lines_before before) line (lines_after after)); [by apply line_starts|lia|]. rw Hv -app_assoc (app_assoc (take _ line)) take_drop. done. }
    rw Hcur. pose proof (back_off_le' (fun k => negb (is_char_boundary line k)) (cursor_col e - 1)).
    apply drain_line_ok; [done|done|lia|by rw Hline|rw Hline; apply back_off_boundary|by rw Hline].
  - destruct (Nat.ltb_spec 0 (cursor_row e)) as [Hrow|Hrow]; cbn [andb].
    + assert (multiline e = true) as Hm.
      { destruct (multiline e) eqn:Em; [done|]. pose proof (ok_single _ Hok Em) as H1. rw El length_app /= in H1. lia. }
      rw Hm. destruct (join_previous_ok e Hok Ha Hm Hrow) as [Hp H].
      replace (line_start e) with (flat_cursor_byte e) in Hp, H by lia.
      assert (prev_char (value e) (flat_cursor_byte e) = flat_cursor_byte e - 1) as ->; [|done].
      destruct before as [|previous before _] using rev_ind; [cbn in Er; lia|].
      rw Hv Hf. replace (cursor_col e) with 0 by lia. rw app_nil_r lines_before_app.
      change (lines_before [previous]) with ((previous ++ [newline]) ++ []). rw app_nil_r.
      replace (lines_before before ++ previous ++ [newline]) with ((lines_before before ++ previous) ++ [newline]) by by rw -app_assoc.
      generalize (lines_before before ++ previous). intros X. rw length_app Nat.add_1_r -!app_assoc. cbn [app]. rw prev_char_newline. lia.
    + destruct before as [|? ?]; [|cbn in Er; lia]. replace (prev_char (value e) (flat_cursor_byte e)) with (flat_cursor_byte e).
      * apply inserts_nothing; [done| |done]. unfold has_selection. by rw Ha.
      * rw Hf. replace (cursor_col e) with 0 by lia. done.
Qed.

(** ** Deleting forward *)
Lemma drain_after_ok e b :
  te_ok e -> selection_anchor e = None -> cursor_col e <= b -> b <= length (current_line e) ->
  is_char_boundary (current_line e) b = true ->
  inserts e (drain_line e (cursor_col e) b) (flat_cursor_byte e) (line_start e + b) [].
Proof.
  intros Hok Ha Hle Hb Bb.
  destruct (cursor_split e Hok) as (before & line & after & El & Er & Hc & Hcb & _ & _ & _ & _ & Hf).
  assert (current_line e = line) as Hcur by (unfold current_line; rw El Er; by rw list_lookup_middle).
  pose proof (line_start_split e before line Hc Hf) as Hls.
  assert (flat_cursor_byte e = line_start e + cursor_col e) as -> by (rw Hls Hf length_app length_take; lia).
  rw -Hcur in Hcb. pose proof (drain_line_ok e (cursor_col e) b Hok Ha Hle Hb Hcb Bb) as H.
  unfold drain_line in *. destruct (get (te_lines e) (cursor_row e)) as [l|]; [|exact H]. cbn [mbind res_bind] in *.
  by destruct (str_drain l (cursor_col e) b).
Qed.

(** Where the words and clusters of a line end is between characters. *)
Lemma count_while_stop f l :
  count_while f l <= length l /\ (forall i b, i < count_while f l -> l !! i = Some b -> f b = true)
  /\ (count_while f l < length l -> exists b, l !! count_while f l = Some b /\ f b = false).
Proof.
  induction l as [|x l (IH1 & IH2 & IH3)]; [cbn; split_and!; [lia|intros; lia|lia]|]. cbn [count_while].
  destruct (f x) eqn:Ef; cbn [length]; [|split_and!; [lia|intros; lia|by exists x]]. split_and!; [lia| |].
  - intros [|i] b Hi; [by intros [= <-]|]. cbn. apply IH2. lia.
  - intros H. apply IH3. lia.
Qed.

Lemma word_char_ascii b : is_word_char b = true -> (code b < 128)%N.
Proof. by destruct b. Qed.

Lemma find_word_end_ok l pos :
  valid_text l -> pos <= length l ->
  pos <= find_word_end_bytes l pos <= length l /\ is_char_boundary l (find_word_end_bytes l pos) = true.
Proof.
  intros Hl Hp. unfold find_word_end_bytes. rw (Nat.min_l _ _ Hp). cbv zeta.
  set (start := pos + _). destruct (count_while_stop (fun b => negb (is_word_char b)) (drop pos l)) as (H1 & _ & _).
  rw length_drop in H1. fold start in H1. destruct (count_while_stop is_word_char (drop start l)) as (G1 & G2 & G3).
  rw length_drop in G1. assert (start <= length l) by (unfold start; lia). split; [unfold start in *; lia|].
  destruct (count_while is_word_char (drop start l)) as [|n] eqn:En.
  - rw Nat.add_0_r. destruct (Nat.eq_dec start (length l)) as [->|Hne]; [apply boundary_len|].
    destruct (count_while_stop (fun b => negb (is_word_char b)) (drop pos l)) as (_ & _ & K).
    rw length_drop in K. destruct K as (b & Kb & Kw%negb_false_iff); [unfold start in *; lia|]. rw lookup_drop in Kb. fold start in Kb.
    by destruct (ascii_boundary l start b Hl Kb (word_char_ascii b Kw)).
  - destruct (lookup_lt_is_Some_2 (drop start l) n) as [b Kb]; [rw length_drop; lia|].
    pose proof (G2 n b ltac:(lia) Kb) as Kw. rw lookup_drop in Kb. rw Nat.add_succ_r.
    by destruct (ascii_boundary l (start + n) b Hl Kb (word_char_ascii b Kw)).
Qed.

(** ** The deletions *)

(** What the cluster boundaries of a line promise. *)
Class ClusterCursor (cursor_prev cursor_next : list byte -> nat -> option nat) : Prop := {
  cursor_prev_before : forall s pos q, is_char_boundary s pos = true -> cursor_prev s pos = Some q ->
    q < pos /\ is_char_boundary s q = true;
  cursor_next_after : forall s pos q, is_char_boundary s pos = true -> cursor_next s pos = Some q ->
    pos < q <= length s /\ is_char_boundary s q = true;
}.

Section deletions.
Context (cursor_prev cursor_next : list byte -> nat -> option nat) `{!ClusterCursor cursor_prev cursor_next}.

Inductive deletion := DBackspace | DDelete | DWordForward | DWordBackward | DToStart | DToEnd.

Definition delete_unselected (d : deletion) : TextEdit -> res TextEdit :=
  match d with
  | DBackspace => backspace_char | DDelete => delete_cluster cursor_next
  | DWordForward => delete_word_after | DWordBackward => delete_word_before
  | DToStart => delete_line_start | DToEnd => delete_line_end
  end.

Definition delete_by (d : deletion) : TextEdit -> res TextEdit :=
  match d with
  | DBackspace => backspace | DDelete => delete cursor_next
  | DWordForward => delete_word_forward | DWordBackward => delete_word_backward
  | DToStart => delete_to_start | DToEnd => delete_to_end
  end.

(** Up to column [k] of the line, at its end the newline. *)
Definition forward_end (e : TextEdit) (k : nat) : nat :=
  if cursor_col e <? k then line_start e + k
  else if flat_cursor_byte e <? length (value e) then S (flat_cursor_byte e) else flat_cursor_byte e.

(** What is deleted when nothing is selected. *)
Definition deletion_range (d : deletion) (e : TextEdit) : nat * nat :=
  let off := flat_cursor_byte e in
  let line := current_line e in
  match d with
  | DBackspace => (prev_char (value e) off, off)
  | DDelete => (off, forward_end e (next_grapheme_boundary cursor_next line (cursor_col e)))
  | DWordForward => (off, forward_end e (find_word_end_bytes line (cursor_col e)))
  | DWordBackward =>
      let word_start := find_word_start_bytes line (cursor_col e) in
      if word_start <? cursor_col e then (line_start e + word_start, off)
      else if 0 <? cursor_row e then (line_start e - 1, line_start e) else (off, off)
  | DToStart => (line_start e, off)
  | DToEnd => (off, line_start e + length line)
  end.

Definition ascii (l : list byte) : Prop := Forall (fun b => code b < 128)%N l.

(** The words before the cursor are looked up by bytes: the line is ASCII. *)
Definition deletion_safe (d : deletion) (e : TextEdit) : Prop :=
  match d with DWordBackward => ascii (current_line e) | _ => True end.

(** The cursor's line. *)
Record on_line (e : TextEdit) (line : list byte) : Prop := {
  on_get : get (te_lines e) (cursor_row e) = Ok line;
  on_lookup : te_lines e !! cursor_row e = Some line;
  on_current : current_line e = line;
  on_valid : line_ok line;
  on_col : cursor_col e <= length line;
  on_boundary : is_char_boundary line (cursor_col e) = true;
  on_flat : flat_cursor_byte e = line_start e + cursor_col e;
  on_row : 0 < cursor_row e -> multiline e = true;
  on_last : (cursor_row e + 1 <? length (te_lines e)) && multiline e = (line_start e + length line <? length (value e));
}.

Lemma te_ok_line e : te_ok e -> exists line, on_line e line.
Proof.
  intros Hok. destruct (cursor_split e Hok) as (before & line & after & El & Er & Hc & Hcb & HL & _ & _ & Hv & Hf).
  pose proof (line_start_split e before line Hc Hf) as Hls.
  assert (te_lines e !! cursor_row e = Some line) as Hlook by (rw El Er; by apply list_lookup_middle).
  assert (multiline e = false -> before = [] /\ after = []) as Hm.
  { intros Hm%(ok_single _ Hok). rw El length_app /= in Hm. split; apply length_zero_iff_nil; lia. }
  exists line. split; [by apply get_Ok|done|by unfold current_line; rw Hlook|done|done|done|rw Hls Hf length_app length_take; lia| |].
  - intros Hr. destruct (multiline e); [done|]. destruct Hm as [-> ->]; [done|]. cbn in Er. lia.
  - assert (length (value e) = length (lines_before before) + length line + length (lines_after after)) as ->.
    { rw Hv !length_app length_take length_drop. lia. }
    rw Hls El Er length_app. destruct after as [|l after].
    + change (length (lines_after [])) with 0. rw !(proj2 (Nat.ltb_ge _ _)) //; cbn [length]; lia.
    + destruct (multiline e); [|by destruct Hm]. rw !(proj2 (Nat.ltb_lt _ _)) //; [cbn; lia|].
      change (lines_after (l :: after)) with (newline :: l ++ lines_after after). cbn [length]. lia.
Qed.

(** Deleting from the cursor: to a column, at the end of the line the newline. *)
Lemma forward_ok e line k :
  te_ok e -> selection_anchor e = None -> on_line e line -> cursor_col e <= k <= length line ->
  is_char_boundary line k = true -> (k <= cursor_col e -> cursor_col e = length line) ->
  inserts e (if cursor_col e <? k then drain_line e (cursor_col e) k
             else if (cursor_row e + 1 <? length (te_lines e)) && multiline e then join_next e else Ok e)
    (flat_cursor_byte e) (forward_end e k) [].
Proof.
  intros Hok Ha HL Hk Hb Hend. unfold forward_end. destruct (Nat.ltb_spec (cursor_col e) k) as [Hlt|Hge].
  - apply drain_after_ok; rw ?(on_current _ _ HL); try done; lia.
  - rw (on_last _ _ HL) (on_flat _ _ HL) (Hend Hge). destruct (Nat.ltb_spec (line_start e + length line) (length (value e))) as [Hv|Hv].
    + pose proof (on_last _ _ HL) as Hl. rw (proj2 (Nat.ltb_lt _ _) Hv) in Hl. apply andb_true_iff in Hl as [Hr%Nat.ltb_lt Hm].
      pose proof (join_next_ok e Hok Ha Hm) as H. rw (on_flat _ _ HL) (Hend Hge) (on_current _ _ HL) in H. by apply H.
    + apply inserts_nothing; [done|unfold has_selection; by rw Ha|]. by rw (on_flat _ _ HL) (Hend Hge).
Qed.

Lemma snap_char_boundary s pos : pos <= length s -> is_char_boundary s pos = true -> snap_to_char_boundary s pos = pos.
Proof.
  intros Hp Hb. unfold snap_to_char_boundary. rw (Nat.min_l _ _ Hp). destruct pos as [|n]; [done|]. cbn [back_off]. by rw Hb.
Qed.

Lemma next_grapheme_ok s pos :
  pos <= length s -> is_char_boundary s pos = true ->
  let k := next_grapheme_boundary cursor_next s pos in
  pos <= k <= length s /\ is_char_boundary s k = true /\ (k <= pos -> pos = length s).
Proof.
  intros Hp Hb. cbv zeta. unfold next_grapheme_boundary. destruct (Nat.leb_spec (length s) pos) as [Hge|Hlt]; cbn [orb].
  { split_and!; [lia|lia|apply boundary_len|lia]. }
  rw snap_char_boundary //. rw bool_decide_eq_false_2; [intros ->; cbn in Hlt; lia|].
  destruct (cursor_next s pos) as [q|] eqn:Eq; cbn [default from_option id].
  - apply cursor_next_after in Eq as [Hq Hqb]; [|done]. split_and!; [lia|lia|done|lia].
  - split_and!; [lia|lia|apply boundary_len|lia].
Qed.

Lemma delete_cluster_ok e :
  te_ok e -> selection_anchor e = None ->
  inserts e (delete_cluster cursor_next e) (flat_cursor_byte e)
    (forward_end e (next_grapheme_boundary cursor_next (current_line e) (cursor_col e))) [].
Proof.
  intros Hok Ha. destruct (te_ok_line e Hok) as [line HL]. destruct (next_grapheme_ok line (cursor_col e) (on_col _ _ HL) (on_boundary _ _ HL)) as (H1 & H2 & H3).
  pose proof (forward_ok e line _ Hok Ha HL H1 H2 H3) as H. rw (on_current _ _ HL). unfold delete_cluster.
  rw (on_current _ _ HL) (on_get _ _ HL). cbn [mbind res_bind].
  set (k := next_grapheme_boundary cursor_next line (cursor_col e)) in *.
  destruct (Nat.ltb_spec (cursor_col e) (length line)) as [Hlt|Hge], (Nat.ltb_spec (cursor_col e) k); try lia; exact H.
Qed.

Lemma find_word_end_moves l pos : pos < length l -> pos < find_word_end_bytes l pos.
Proof.
  intros Hp. unfold find_word_end_bytes. rw Nat.min_l; [lia|]. cbv zeta.
  destruct (lookup_lt_is_Some_2 l pos Hp) as [b Eb]. rw (drop_S l b pos Eb). cbn [count_while].
  destruct (is_word_char b) eqn:Ew; cbn [negb]; [|lia]. rw Nat.add_0_r (drop_S l b pos Eb). cbn [count_while]. rw Ew. lia.
Qed.

Lemma delete_word_after_ok e :
  te_ok e -> selection_anchor e = None ->
  inserts e (delete_word_after e) (flat_cursor_byte e) (forward_end e (find_word_end_bytes (current_line e) (cursor_col e))) [].
Proof.
  intros Hok Ha. destruct (te_ok_line e Hok) as [line HL].
  destruct (find_word_end_ok line (cursor_col e) (proj2 (on_valid _ _ HL)) (on_col _ _ HL)) as [H1 H2].
  rw (on_current _ _ HL). unfold delete_word_after. rw (on_get _ _ HL). cbn [mbind res_bind]. apply (forward_ok e line); try done.
  intros Hle. pose proof (on_col _ _ HL). destruct (Nat.lt_ge_cases (cursor_col e) (length line)) as [Hlt%find_word_end_moves|]; lia.
Qed.

Lemma ascii_line_boundary l k : ascii l -> is_char_boundary l k = true \/ length l < k.
Proof.
  intros Ha. unfold is_char_boundary. destruct (Nat.lt_trichotomy k (length l)) as [Hk|[->|Hk]].
  - left. destruct (lookup_lt_is_Some_2 l k Hk) as [b Eb]. rw Eb continuation_range.
    pose proof (Forall_lookup_1 _ _ _ _ Ha Eb). cbn beta in *. rw in_range_false; [lia|]. by rw !orb_true_r.
  - left. by rw Nat.eqb_refl orb_true_r.
  - by right.
Qed.

Lemma word_scan_left_le l n : word_scan_left l n <= n.
Proof. induction n as [|n IH]; [done|]. cbn. repeat case_match; lia. Qed.

Lemma find_word_start_le l pos : find_word_start_bytes l pos <= pos.
Proof.
  unfold find_word_start_bytes. destruct (Nat.eqb_spec pos 0); [lia|]. cbv zeta. etransitivity; [apply word_scan_left_le|].
  case_match; lia.
Qed.

Lemma delete_word_before_ok e :
  te_ok e -> selection_anchor e = None -> ascii (current_line e) ->
  let '(s, f) := deletion_range DWordBackward e in inserts e (delete_word_before e) s f [].
Proof.
  intros Hok Ha Hasc. destruct (te_ok_line e Hok) as [line HL]. cbn [deletion_range].
  unfold delete_word_before. rw (on_current _ _ HL) in Hasc |- *. rw (on_get _ _ HL). cbn [mbind res_bind]. cbv zeta.
  set (ws := find_word_start_bytes line (cursor_col e)). pose proof (find_word_start_le line (cursor_col e)) as Hws. fold ws in Hws.
  pose proof (on_col _ _ HL) as Hc. destruct (Nat.ltb_spec ws (cursor_col e)) as [Hlt|Hge].
  - rw (on_flat _ _ HL). apply drain_line_ok; rw ?(on_current _ _ HL); [done|done|lia|done| |apply (on_boundary _ _ HL)].
    destruct (ascii_line_boundary line ws Hasc); [done|lia].
  - destruct (Nat.ltb_spec 0 (cursor_row e)) as [Hr|Hr]; cbn [andb].
    + rw (on_row _ _ HL Hr). by apply join_previous_ok; [..|apply (on_row _ _ HL)|].
    + apply inserts_nothing; [done|unfold has_selection; by rw Ha|done].
Qed.

Lemma delete_line_start_ok e :
  te_ok e -> selection_anchor e = None -> inserts e (delete_line_start e) (line_start e) (flat_cursor_byte e) [].
Proof.
  intros Hok Ha. destruct (te_ok_line e Hok) as [line HL]. unfold delete_line_start. rw (on_flat _ _ HL) (on_lookup _ _ HL).
  destruct (Nat.ltb_spec 0 (cursor_col e)) as [Hc|Hc].
  - pose proof (drain_line_ok e 0 (cursor_col e) Hok Ha) as H. rw (on_current _ _ HL) Nat.add_0_r in H.
    apply H; [lia|apply (on_col _ _ HL)|done|apply (on_boundary _ _ HL)].
  - replace (line_start e + cursor_col e) with (line_start e) by lia.
    apply inserts_nothing; [done|unfold has_selection; by rw Ha|]. rw (on_flat _ _ HL). lia.
Qed.

Lemma delete_line_end_ok e :
  te_ok e -> selection_anchor e = None ->
  inserts e (delete_line_end e) (flat_cursor_byte e) (line_start e + length (current_line e)) [].
Proof.
  intros Hok Ha. destruct (te_ok_line e Hok) as [line HL]. pose proof (on_col _ _ HL) as Hc.
  pose proof (drain_after_ok e (length line) Hok Ha Hc) as H. rw (on_current _ _ HL) in H |- *.
  specialize (H ltac:(lia) (boundary_len line)). unfold delete_line_end. rw (on_lookup _ _ HL) str_truncate_ok //; [apply (on_boundary _ _ HL)|].
  cbn [mbind res_bind]. unfold drain_line in H. rw (on_get _ _ HL) /= str_drain_ok // in H; [apply (on_boundary _ _ HL)|apply boundary_len|].
  cbn [mbind res_bind] in H. by rw drop_all app_nil_r in H.
Qed.

Lemma delete_unselected_ok d e :
  te_ok e -> selection_anchor e = None -> deletion_safe d e ->
  let '(s, f) := deletion_range d e in inserts e (delete_unselected d e) s f [].
Proof.
  intros Hok Ha Hs. destruct d; [by apply backspace_char_ok|by apply delete_cluster_ok|by apply delete_word_after_ok
    |by apply delete_word_before_ok|by apply delete_line_start_ok|by apply delete_line_end_ok].
Qed.

Lemma deletion_range_checkpoint d e : deletion_range d (push_undo_checkpoint e) = deletion_range d e.
Proof. unfold push_undo_checkpoint. by case_decide. Qed.

Lemma deletion_safe_checkpoint d e : deletion_safe d (push_undo_checkpoint e) <-> deletion_safe d e.
Proof. unfold push_undo_checkpoint. by case_decide. Qed.

Lemma delete_by_ok d e :
  te_ok e -> anchored e -> deletion_safe d e ->
  let '(s, f) := if has_selection e then edit_range e else deletion_range d e in inserts e (delete_by d e) s f [].
Proof.
  intros Hok Hanc Hsafe. replace (delete_by d e) with (deleting (delete_unselected d) e) by by destruct d.
  destruct (has_selection e) eqn:Hs.
  - pose proof (deleting_selected (delete_unselected d) e Hok Hs) as H. destruct (edit_range e). exact H.
  - pose proof (delete_unselected_ok d (push_undo_checkpoint e) (checkpoint_ok e Hok)) as H. rw deletion_range_checkpoint in H.
    destruct (deletion_range d e) as [s f]. apply deleting_nothing_selected; [done|done|]. apply H; [|by apply deletion_safe_checkpoint].
    destruct (checkpoint_fields e) as (_ & _ & _ & -> & _). by apply anchored_none.
Qed.

(** What a deletion is meant to remove when nothing is selected: the word before the cursor
    goes from its start, and only at the start of a line the line is joined with the one
    before. *)
Definition meant_range (d : deletion) (e : TextEdit) : nat * nat :=
  match d with
  | DWordBackward =>
      if cursor_col e =? 0 then
        if 0 <? cursor_row e then (line_start e - 1, line_start e) else (flat_cursor_byte e, flat_cursor_byte e)
      else (line_start e + find_word_start_bytes (current_line e) (cursor_col e), flat_cursor_byte e)
  | _ => deletion_range d e
  end.

(** Inside a line behind the first, the word starts before the cursor. *)
Definition word_before (d : deletion) (e : TextEdit) : Prop :=
  match d with
  | DWordBackward => cursor_col e = 0 \/ cursor_row e = 0 \/ find_word_start_bytes (current_line e) (cursor_col e) < cursor_col e
  | _ => True
  end.

Lemma meant_range_eq d e : te_ok e -> word_before d e -> meant_range d e = deletion_range d e.
Proof.
  intros Hok Hw. destruct d; try done. cbn [meant_range deletion_range word_before] in *. destruct (te_ok_line e Hok) as [line Hl].
  destruct (Nat.eqb_spec (cursor_col e) 0) as [E|Hc]; [by rw E|].
  destruct (Nat.ltb_spec (find_word_start_bytes (current_line e) (cursor_col e)) (cursor_col e)) as [|Hge]; [done|].
  destruct Hw as [?|[Hr|?]]; [lia| |lia]. rw Hr. cbn [Nat.ltb Nat.leb]. pose proof (on_flat _ _ Hl). pose proof (find_word_start_le (current_line e) (cursor_col e)).
  f_equal. lia.
Qed.

(** C22: every deletion - backspace, delete, the word before or after the cursor, to the
    start or the end of the line - in a sound field with no anchor left at the cursor without
    a selection, and for the word before the cursor with an ASCII line and not inside a later
    line at the very start of a word, removes the selection if there is one, else exactly its
    range of the value, leaves the cursor where that range began, and does not panic.  The
    cluster boundaries are any that lie between characters. *)
Theorem deletions_splice d e :
  te_ok e -> anchored e -> deletion_safe d e -> word_before d e ->
  let '(s, f) := if has_selection e then edit_range e else meant_range d e in
  exists e', delete_by d e = Ok e' /\ te_ok e' /\ has_selection e' = false
    /\ value e' = splice (value e) s (f - s) [] /\ flat_cursor_byte e' = s.
Proof.
  intros Hok Hanc Hsafe Hw. pose proof (delete_by_ok d e Hok Hanc Hsafe) as H. rw -meant_range_eq // in H.
  destruct (if has_selection e then _ else _) as [s f]. destruct H as (e' & E & H1 & H2 & H3 & H4 & _).
  exists e'. by rw Nat.add_0_r in H4.
Qed.
End deletions.
