(* ===== verification/TextEditSession.v ===== *)
(** * Sessions of the text edit

    Movements and restored texts keep the invariant, so that no sequence of operations
    panics; undo and redo walk a history. *)
From stdpp Require Import base numbers list option.
From Stdlib Require Import ssreflect Strings.Byte NArith.
From S2P Require Import Prelude TextSpec Utf8 LineDiff PathEncode TextEdit TextEditInv TextEditOps.

(** ** Lines of a text *)
Lemma is_nl_spec b : reflect (b = newline) (is_nl b).
Proof. destruct b; constructor; done. Qed.

Lemma split_lines_nonempty t : split_lines t <> [].
Proof. destruct t as [|b t]; [done|]. cbn. destruct (is_nl b); [done|]. by destruct (split_lines t). Qed.

Lemma join_split_lines t : join_lines (split_lines t) = t.
Proof.
  induction t as [|b t IH]; [done|]. cbn [split_lines]. pose proof (split_lines_nonempty t) as Hne. destruct (is_nl_spec b) as [->|Hb].
  - destruct (split_lines t) as [|l ls]; [done|]. rw !join_cons in IH |- *. change (lines_after (l :: ls)) with (newline :: l ++ lines_after ls). by rw IH.
  - destruct (split_lines t) as [|l ls]; [done|]. rw !join_cons in IH |- *. cbn [app]. by rw IH.
Qed.

Lemma split_lines_plain t : Forall (fun l => newline ∉ l) (split_lines t).
Proof.
  induction t as [|b t IH]; [constructor; [apply not_elem_of_nil|constructor]|]. cbn [split_lines].
  destruct (is_nl_spec b) as [->|Hb]; [constructor; [apply not_elem_of_nil|done]|].
  destruct (split_lines t) as [|l ls]; [constructor; [apply not_elem_of_cons; split; [congruence|apply not_elem_of_nil]|constructor]|].
  apply Forall_cons_1 in IH as [H1 H2]. constructor; [apply not_elem_of_cons; split; [congruence|done]|done].
Qed.

Lemma split_lines_app l t : newline ∉ l -> split_lines (l ++ newline :: t) = l :: split_lines t.
Proof.
  induction l as [|b l IH]; intros Hl; [done|]. apply not_elem_of_cons in Hl as [Hb Hl]. cbn [app split_lines].
  destruct (is_nl_spec b); [congruence|]. by rw IH.
Qed.

Lemma split_lines_single l : newline ∉ l -> split_lines l = [l].
Proof.
  induction l as [|b l IH]; intros Hl; [done|]. apply not_elem_of_cons in Hl as [Hb Hl]. cbn [split_lines].
  destruct (is_nl_spec b); [congruence|]. by rw IH.
Qed.

Lemma split_join_lines ls : ls <> [] -> Forall (fun l => newline ∉ l) ls -> split_lines (join_lines ls) = ls.
Proof.
  induction ls as [|l ls IH]; [done|]. intros _ [Hl Hls]%Forall_cons_1. destruct ls as [|l' ls]; [by apply split_lines_single|].
  change (join_lines (l :: l' :: ls)) with (l ++ newline :: join_lines (l' :: ls)). rw split_lines_app // IH //.
Qed.

(** [lines()] gives the lines without an empty last one and without carriage returns. *)
Lemma split_inclusive_lines t : exists ls l, split_lines t = ls ++ [l]
  /\ split_inclusive t = ((fun l => l ++ [newline]) <$> ls) ++ (if decide (l = []) then [] else [l]).
Proof.
  induction t as [|b t (ls & l & E1 & E2)]; [by exists [], []|]. cbn [split_lines split_inclusive]. rw E1 E2.
  destruct (is_nl_spec b) as [->|Hb]; [by exists ([] :: ls), l|].
  destruct ls as [|l' ls]; [exists [], (b :: l)|by exists ((b :: l') :: ls), l]. cbn [app fmap list_fmap]. split; [done|].
  destruct (decide (b :: l = [])); [done|]. by destruct (decide (l = [])); subst.
Qed.

Lemma last_plain l : newline ∉ l -> list.last l <> Some newline.
Proof. intros Hl H%last_Some_elem_of. done. Qed.

Lemma strip_last b l : strip_suffix b (l ++ [b]) = l.
Proof. unfold strip_suffix. rw last_snoc decide_True // length_app take_app_le; [cbn; lia|]. apply take_ge. cbn. lia. Qed.

Lemma str_lines_spec t : exists ls l, split_lines t = ls ++ [l]
  /\ str_lines t = (strip_suffix x0d <$> ls) ++ (if decide (l = []) then [] else [l]).
Proof.
  destruct (split_inclusive_lines t) as (ls & l & E1 & E2). exists ls, l. split; [done|]. unfold str_lines. rw E2 fmap_app -list_fmap_compose.
  f_equal.
  - apply list_fmap_ext. intros i x Hx. cbn. rw decide_True; [by rw last_snoc|]. by rw strip_last.
  - case_decide; [done|]. cbn. pose proof (split_lines_plain t) as H1. rw E1 in H1. apply Forall_app in H1 as [_ [H1 _]%Forall_cons_1].
    rw decide_False //. by apply last_plain.
Qed.

(** The lines of a valid text are valid. *)
Lemma valid_split l t : valid_text (l ++ newline :: t) -> valid_text l /\ valid_text t.
Proof.
  intros H. assert ((l ++ newline :: t) !! length l = Some newline) as Hn by by apply list_lookup_middle.
  destruct (ascii_boundary _ _ _ H Hn ltac:(by cbn)) as [B1 _]. destruct (valid_cut _ _ H B1) as [H1 H2].
  rw take_app_length in H1. rw drop_app_length in H2. split; [done|]. by apply ascii_head in H2.
Qed.

Lemma valid_lines ls : valid_text (join_lines ls) -> Forall valid_text ls.
Proof.
  induction ls as [|l ls IH]; [constructor|]. destruct ls as [|l' ls]; [by constructor|].
  change (join_lines (l :: l' :: ls)) with (l ++ newline :: join_lines (l' :: ls)). intros [H1 H2]%valid_split. constructor; auto.
Qed.

Lemma split_lines_ok t : valid_text t -> Forall line_ok (split_lines t).
Proof.
  intros Ht. rw -(join_split_lines t) in Ht. apply valid_lines in Ht. pose proof (split_lines_plain t) as Hp.
  induction (split_lines t) as [|l ls IH]; [constructor|]. apply Forall_cons_1 in Ht as [? ?], Hp as [? ?].
  constructor; [done|auto].
Qed.

Lemma strip_suffix_ok l : line_ok l -> line_ok (strip_suffix x0d l).
Proof.
  intros Hl. unfold strip_suffix. destruct (list.last l) as [x|] eqn:El; [|done]. case_decide; [subst x|done].
  apply line_ok_take; [done|]. rw last_lookup in El. destruct Hl as [_ Hv]. replace (length l - 1) with (pred (length l)) by lia.
  by destruct (ascii_boundary _ _ _ Hv El ltac:(by cbn)).
Qed.

Lemma strip_lines_ok ls : Forall line_ok ls -> Forall line_ok (strip_suffix x0d <$> ls).
Proof. induction 1; cbn; constructor; [by apply strip_suffix_ok|done]. Qed.

Lemma str_lines_ok t : valid_text t -> Forall line_ok (str_lines t).
Proof.
  intros Ht%split_lines_ok. destruct (str_lines_spec t) as (ls & l & E1 & ->). rw E1 in Ht. apply Forall_app in Ht as [H1 H2].
  apply Forall_app. split; [by apply strip_lines_ok|]. by case_decide.
Qed.

(** ** States with other cursors and texts *)
Lemma with_cursor_ok e row col : te_ok e -> pos_ok (te_lines e) (row, col) -> te_ok (with_cursor e row col).
Proof. intros [H1 H2 H3 H4 H5] Hp. by split. Qed.

Lemma with_anchor_ok e a : te_ok e -> (forall pos, a = Some pos -> pos_ok (te_lines e) pos) -> te_ok (with_anchor e a).
Proof. intros [H1 H2 H3 H4 H5] Hp. by split. Qed.

Lemma with_stacks_ok e u r :
  te_ok e -> length u + length r <= MAX_UNDO -> Forall (fun t => valid_text t.1) u -> Forall (fun t => valid_text t.1) r ->
  te_ok (with_stacks e u r).
Proof. intros [H1 H2 H3 H4 H5] ? ? ?. by split. Qed.

Lemma same_cursor e : with_cursor e (cursor_row e) (cursor_col e) = e.
Proof. by destruct e. Qed.

Lemma ensure_anchor_ok e : te_ok e -> te_ok (ensure_anchor e).
Proof.
  intros Hok. unfold ensure_anchor. destruct (selection_anchor e); [done|]. apply with_anchor_ok; [done|].
  intros pos [= <-]. apply Hok.
Qed.

Lemma line_pos_ok e row line col :
  te_lines e !! row = Some line -> col <= length line -> is_char_boundary line col = true -> pos_ok (te_lines e) (row, col).
Proof. intros H1 H2 H3. by exists line. Qed.

Lemma line_end_ok e row line : te_lines e !! row = Some line -> pos_ok (te_lines e) (row, length line).
Proof. intros H. by apply (line_pos_ok e row line); [..|apply boundary_len]. Qed.

Lemma first_pos_ok e : te_ok e -> pos_ok (te_lines e) (0, 0).
Proof.
  intros Hok. destruct (ok_cursor _ Hok) as (line & Hl & _). apply lookup_lt_Some in Hl. cbn [fst] in Hl.
  destruct (lookup_lt_is_Some_2 (te_lines e) 0) as [l Hl0]; [lia|]. by apply (line_pos_ok e 0 l); [..|lia|].
Qed.

Lemma last_pos_ok e : te_ok e -> pos_ok (te_lines e) (last_position e).
Proof.
  intros Hok. destruct (ok_cursor _ Hok) as (line & Hl & _). apply lookup_lt_Some in Hl. cbn [fst] in Hl. unfold last_position.
  rw last_lookup. destruct (lookup_lt_is_Some_2 (te_lines e) (length (te_lines e) - 1)) as [l Hl0]; [lia|].
  replace (pred (length (te_lines e))) with (length (te_lines e) - 1) by lia. rw Hl0. by apply line_end_ok.
Qed.

Lemma set_value_ok e text : te_ok e -> valid_text text -> te_ok (set_value e text).
Proof.
  intros [H1 H2 H3 H4 H5] Ht. unfold set_value. set (lines := if multiline e then _ else _).
  assert (Forall line_ok lines /\ lines <> [] /\ (multiline e = false -> length lines = 1)) as (L1 & L2 & L3).
  { unfold lines. destruct (multiline e).
    - split_and!; [by apply strip_lines_ok, split_lines_ok| |done]. pose proof (split_lines_nonempty text). by destruct (split_lines text).
    - split_and!; [|done|done]. constructor; [|constructor]. pose proof (str_lines_ok text Ht) as H. destruct H; [|done].
      split; [apply not_elem_of_nil|by exists []]. }
  split; cbn; [done| |done|done|done]. destruct lines as [|l ls]; [done|]. exists l. split_and!; [done|cbn; lia|done].
Qed.

Section sessions.
Context (cursor_prev cursor_next : list byte -> nat -> option nat) (cursor_is_boundary : list byte -> nat -> bool).
Context `{!ClusterCursor cursor_prev cursor_next}.
Local Abbreviation snap := (snap_to_grapheme_boundary cursor_prev cursor_is_boundary).
Local Abbreviation move_internal := (move_internal cursor_prev cursor_next cursor_is_boundary).
Local Abbreviation set_cursor_from_flat := (set_cursor_from_flat cursor_prev cursor_is_boundary).

(** ** Cluster boundaries are between characters *)
Lemma snap_char_ok s pos : snap_to_char_boundary s pos <= length s /\ is_char_boundary s (snap_to_char_boundary s pos) = true.
Proof.
  unfold snap_to_char_boundary. split; [|apply back_off_boundary]. etransitivity; [apply back_off_le'|]. lia.
Qed.

Lemma snap_ok s pos : snap s pos <= length s /\ is_char_boundary s (snap s pos) = true.
Proof.
  unfold snap_to_grapheme_boundary. destruct ((pos =? 0) || bool_decide (s = [])); [by split; [lia|]|].
  destruct (length s <=? pos); [by split; [|apply boundary_len]|]. cbv zeta. destruct (snap_char_ok s pos) as [H1 H2].
  destruct (cursor_is_boundary s _); [done|]. destruct (cursor_prev s _) as [q|] eqn:Eq; cbn [default from_option id]; [|by split; [lia|]].
  apply cursor_prev_before in Eq as [Hq Hb]; [|done]. split; [lia|done].
Qed.

Lemma prev_grapheme_ok s pos :
  pos <= length s -> is_char_boundary s pos = true ->
  prev_grapheme_boundary cursor_prev cursor_is_boundary s pos <= length s
  /\ is_char_boundary s (prev_grapheme_boundary cursor_prev cursor_is_boundary s pos) = true.
Proof.
  intros Hp Hb. unfold prev_grapheme_boundary. destruct ((pos =? 0) || bool_decide (s = [])); [by split; [lia|]|]. cbv zeta.
  rw snap_char_boundary // Nat.ltb_irrefl. destruct (cursor_prev s pos) as [q|] eqn:Eq; cbn [default from_option id]; [|by split; [lia|]].
  apply cursor_prev_before in Eq as [Hq Hqb]; [|done]. split; [lia|done].
Qed.

(** ** Movements *)

(** Rows and words are found by bytes: there the lines are ASCII. *)
Definition motion_safe (m : motion) (e : TextEdit) : Prop :=
  match m with MUp | MDown | MWordLeft => Forall ascii (te_lines e) | _ => True end.

Lemma ascii_pos_ok e row line col :
  Forall ascii (te_lines e) -> te_lines e !! row = Some line -> col <= length line -> pos_ok (te_lines e) (row, col).
Proof.
  intros Ha Hl Hc. apply (line_pos_ok e row line); [done|done|].
  destruct (ascii_line_boundary line col (Forall_lookup_1 _ _ _ _ Ha Hl)); [done|lia].
Qed.

(** A movement goes to a position of the text. *)
Definition goes (e : TextEdit) (r : res TextEdit) : Prop :=
  exists row col, r = Ok (with_cursor e row col) /\ pos_ok (te_lines e) (row, col).

Lemma goes_nowhere e : te_ok e -> goes e (Ok e).
Proof. intros Hok. exists (cursor_row e), (cursor_col e). rw same_cursor. split; [done|]. apply Hok. Qed.

Lemma goes_previous e :
  te_ok e ->
  goes e (if (0 <? cursor_row e) && multiline e then
            line ← get (te_lines e) (cursor_row e - 1); Ok (with_cursor e (cursor_row e - 1) (length line))
          else Ok e).
Proof.
  intros Hok. destruct ((0 <? cursor_row e) && multiline e); [|by apply goes_nowhere].
  destruct (ok_cursor _ Hok) as (line & Hl & _). apply lookup_lt_Some in Hl. cbn [fst] in Hl.
  destruct (lookup_lt_is_Some_2 (te_lines e) (cursor_row e - 1)) as [l Hl0]; [lia|]. rw (get_Ok _ _ _ Hl0). cbn [mbind res_bind].
  eexists _, _. split; [done|]. by apply line_end_ok.
Qed.

Lemma goes_next e :
  te_ok e ->
  goes e (if (cursor_row e + 1 <? length (te_lines e)) && multiline e then Ok (with_cursor e (cursor_row e + 1) 0) else Ok e).
Proof.
  intros Hok. destruct (Nat.ltb_spec (cursor_row e + 1) (length (te_lines e))) as [Hr|Hr]; cbn [andb]; [|by apply goes_nowhere].
  destruct (multiline e); [|by apply goes_nowhere]. destruct (lookup_lt_is_Some_2 (te_lines e) (cursor_row e + 1) Hr) as [l Hl].
  eexists _, _. split; [done|]. by apply (line_pos_ok e _ l); [..|lia|].
Qed.

Lemma move_internal_ok m e : te_ok e -> motion_safe m e -> goes e (move_internal m e).
Proof.
  intros Hok Hs. destruct (te_ok_line e Hok) as [line HL]. pose proof (on_get _ _ HL) as Hget. pose proof (on_lookup _ _ HL) as Hlook.
  pose proof (on_col _ _ HL) as Hc. pose proof (on_boundary _ _ HL) as Hb. pose proof (on_current _ _ HL) as Hcur.
  destruct m; cbn [TextEdit.move_internal].
  - unfold move_left_internal. destruct (0 <? cursor_col e); [|by apply goes_previous]. rw Hget. cbn [mbind res_bind].
    eexists _, _. split; [done|]. apply (line_pos_ok e _ line); [done|by apply prev_grapheme_ok..].
  - unfold move_right_internal. rw Hcur. destruct (cursor_col e <? length line); [|by apply goes_next]. rw Hget. cbn [mbind res_bind].
    destruct (next_grapheme_ok cursor_prev cursor_next line (cursor_col e) Hc Hb) as (H1 & H2 & _).
    eexists _, _. split; [done|]. apply (line_pos_ok e _ line); [done|lia|done].
  - unfold move_up_internal. destruct (0 <? cursor_row e); [|by apply goes_nowhere]. apply lookup_lt_Some in Hlook.
    destruct (lookup_lt_is_Some_2 (te_lines e) (cursor_row e - 1)) as [l Hl]; [lia|]. rw (get_Ok _ _ _ Hl). cbn [mbind res_bind].
    eexists _, _. split; [done|]. apply (ascii_pos_ok e _ l); [done|done|lia].
  - unfold move_down_internal. destruct (Nat.ltb_spec (cursor_row e + 1) (length (te_lines e))) as [Hr|Hr]; [|by apply goes_nowhere].
    destruct (lookup_lt_is_Some_2 _ _ Hr) as [l Hl]. rw (get_Ok _ _ _ Hl). cbn [mbind res_bind].
    eexists _, _. split; [done|]. apply (ascii_pos_ok e _ l); [done|done|lia].
  - eexists _, _. split; [done|]. apply (line_pos_ok e _ line); [done|lia|done].
  - unfold move_end_internal. rw Hcur. eexists _, _. split; [done|]. by apply line_end_ok.
  - unfold move_word_left_internal. rw Hget. cbn [mbind res_bind]. cbv zeta.
    destruct ((0 <? cursor_col e) && (find_word_start_bytes line (cursor_col e) <? cursor_col e)); [|by apply goes_previous].
    eexists _, _. split; [done|]. apply (ascii_pos_ok e _ line); [done|done|]. pose proof (find_word_start_le line (cursor_col e)). lia.
  - unfold move_word_right_internal. rw Hget. cbn [mbind res_bind]. cbv zeta.
    destruct ((cursor_col e <? length line) && (cursor_col e <? find_word_end_bytes line (cursor_col e))); [|by apply goes_next].
    destruct (find_word_end_ok line (cursor_col e) (proj2 (on_valid _ _ HL)) Hc) as [H1 H2].
    eexists _, _. split; [done|]. apply (line_pos_ok e _ line); [done|lia|done].
Qed.

Lemma flat_position_ok lines : forall row remaining pos,
  flat_position cursor_prev cursor_is_boundary lines row remaining = Some pos ->
  row <= pos.1 /\ exists line, lines !! (pos.1 - row) = Some line /\ pos.2 <= length line /\ is_char_boundary line pos.2 = true.
Proof.
  induction lines as [|l lines IH]; intros row remaining pos; [done|]. cbn [flat_position].
  destruct (remaining <=? length l).
  - intros [= <-]. cbn [fst snd]. split; [done|]. exists l. rw Nat.sub_diag. split; [done|]. apply snap_ok.
  - intros (H1 & line & H2 & H3)%IH. split; [lia|]. exists line. split; [|done].
    destruct (pos.1 - row) as [|n] eqn:En; [lia|]. cbn. by replace n with (pos.1 - S row) by lia.
Qed.

Lemma set_cursor_from_flat_ok e byte :
  te_ok e -> goes (clear_selection e) (Ok (set_cursor_from_flat e byte)).
Proof.
  intros Hok. unfold TextEdit.set_cursor_from_flat. cbv zeta.
  destruct (flat_position _ _ _ 0 _) as [[row col]|] eqn:E; cbn [default from_option id].
  - apply flat_position_ok in E as (_ & line & Hl & Hc). cbn [fst snd] in *. rw Nat.sub_0_r in Hl.
    exists row, col. split; [done|]. by exists line.
  - assert (te_ok (clear_selection e)) as Hok' by by apply with_anchor_ok.
    pose proof (last_pos_ok _ Hok') as H. destruct (last_position (clear_selection e)) as [row col]. by exists row, col.
Qed.

(** ** Sessions *)
Inductive te_op :=
| OpInsertChar (c : N) | OpInsertStr (text : list byte) | OpDelete (d : deletion) | OpClear
| OpMove (m : motion) (selecting : bool) | OpSelectAll | OpClearSelection
| OpSetCursor (offset : nat) | OpSetCursorSelecting (offset : nat) | OpSetValue (text : list byte)
| OpUndo | OpRedo.

Definition run_op (op : te_op) (e : TextEdit) : res TextEdit :=
  match op with
  | OpInsertChar c => insert_char e c
  | OpInsertStr text => insert_str e text
  | OpDelete d => delete_by cursor_next d e
  | OpClear => Ok (clear e)
  | OpMove m selecting => move cursor_prev cursor_next cursor_is_boundary m selecting e
  | OpSelectAll => Ok (select_all e)
  | OpClearSelection => Ok (clear_selection e)
  | OpSetCursor offset => Ok (set_cursor_from_flat e offset)
  | OpSetCursorSelecting offset => Ok (set_cursor_from_flat_selecting cursor_prev cursor_is_boundary e offset)
  | OpSetValue text => Ok (set_value e text)
  | OpUndo => Ok (undo cursor_prev cursor_is_boundary e).1
  | OpRedo => Ok (redo cursor_prev cursor_is_boundary e).1
  end.

(** What the caller of an operation provides: text that is UTF-8, no newline typed into a
    single line, no anchor left at the cursor by a deletion, ASCII where bytes are counted. *)
Definition op_safe (op : te_op) (e : TextEdit) : Prop :=
  match op with
  | OpInsertChar c => is_scalar c = true /\ (c <> 10%N \/ multiline e = true)
  | OpInsertStr text => from_utf8 text = None
  | OpSetValue text => valid_text text
  | OpDelete d => anchored e /\ deletion_safe d e
  | OpMove m _ => motion_safe m e
  | _ => True
  end.

Lemma goes_ok e r : te_ok e -> goes e r -> exists e', r = Ok e' /\ te_ok e'.
Proof. intros Hok (row & col & -> & Hp). eexists. split; [done|]. by apply with_cursor_ok. Qed.

Lemma set_cursor_ok e byte : te_ok e -> te_ok (set_cursor_from_flat e byte) /\ te_lines (set_cursor_from_flat e byte) = te_lines e.
Proof.
  intros Hok. destruct (set_cursor_from_flat_ok e byte Hok) as (row & col & [= ->] & Hp).
  split; [|done]. apply with_cursor_ok; [by apply with_anchor_ok|done].
Qed.

Lemma restored_ok e text byte : te_ok e -> valid_text text -> te_ok (restore cursor_prev cursor_is_boundary e text byte).
Proof. intros Hok Ht. by apply set_cursor_ok, set_value_ok. Qed.

Lemma valid_value e : te_ok e -> valid_text (value e).
Proof. intros Hok. apply valid_join, Hok. Qed.

Lemma last_split {A} (l : list A) x : list.last l = Some x -> l = take (length l - 1) l ++ [x].
Proof.
  intros H. rw last_lookup in H. replace (pred (length l)) with (length l - 1) in H by lia.
  pose proof (take_S_r l _ x H) as Ht. rw -Ht. symmetry. apply take_ge. apply lookup_lt_Some in H. lia.
Qed.

Lemma undo_ok e : te_ok e -> te_ok (undo cursor_prev cursor_is_boundary e).1.
Proof.
  intros Hok. destruct (ok_stacks _ Hok) as (H1 & H2 & H3). unfold undo. destruct (list.last (undo_stack e)) as [[text cursor]|] eqn:E; [|done].
  pose proof (last_split _ _ E) as Hl. rw Hl in H1, H2. apply Forall_app in H2 as [H2 [Ht _]%Forall_cons_1]. cbn [fst].
  apply restored_ok; [|done]. apply with_stacks_ok; [done| |done|].
  - rw !length_app in H1 |- *. cbn [length] in *. lia.
  - apply Forall_app. split; [done|]. constructor; [by apply valid_value|constructor].
Qed.

Lemma redo_ok e : te_ok e -> te_ok (redo cursor_prev cursor_is_boundary e).1.
Proof.
  intros Hok. destruct (ok_stacks _ Hok) as (H1 & H2 & H3). unfold redo. destruct (list.last (redo_stack e)) as [[text cursor]|] eqn:E; [|done].
  pose proof (last_split _ _ E) as Hl. rw Hl in H1, H3. apply Forall_app in H3 as [H3 [Ht _]%Forall_cons_1]. cbn [fst].
  apply restored_ok; [|done]. apply with_stacks_ok; [done| | |done].
  - rw !length_app in H1 |- *. cbn [length] in *. lia.
  - apply Forall_app. split; [done|]. constructor; [by apply valid_value|constructor].
Qed.

Lemma clear_ok e : te_ok e -> te_ok (clear e).
Proof.
  intros Hok. pose proof (checkpoint_stacks e Hok) as Hs. unfold clear. split; cbn.
  - constructor; [|constructor]. split; [apply not_elem_of_nil|by exists []].
  - by exists [].
  - done.
  - done.
  - done.
Qed.

Lemma te_op_ok op e : te_ok e -> op_safe op e -> exists e', run_op op e = Ok e' /\ te_ok e'.
Proof.
  intros Hok Hs. destruct op as [c|text|d| |m sel| | |off|off|text| |]; cbn [run_op op_safe] in *.
  - destruct Hs as [Hc Hn]. destruct (insert_char_ok e c Hok Hc Hn) as (e' & E & H & _). by exists e'.
  - destruct (insert_str_ok e text Hok Hs) as (e' & E & H & _). by exists e'.
  - destruct Hs as [Ha Hd]. pose proof (delete_by_ok cursor_prev cursor_next d e Hok Ha Hd) as H.
    destruct (if has_selection e then _ else _) as [s f]. destruct H as (e' & E & H & _). by exists e'.
  - eexists. split; [done|]. by apply clear_ok.
  - unfold move. eapply goes_ok; [|apply move_internal_ok].
    + destruct sel; [by apply ensure_anchor_ok|by apply with_anchor_ok].
    + destruct sel; [by apply ensure_anchor_ok|by apply with_anchor_ok].
    + destruct sel; [|done]. unfold ensure_anchor. by destruct (selection_anchor e).
  - eexists. split; [done|]. unfold select_all. pose proof (last_pos_ok e Hok) as Hl. destruct (last_position e) as [row col].
    apply with_cursor_ok; [|done]. apply with_anchor_ok; [done|]. intros pos [= <-]. by apply first_pos_ok.
  - eexists. split; [done|]. by apply with_anchor_ok.
  - eexists. split; [done|]. by apply set_cursor_ok.
  - eexists. split; [done|]. unfold set_cursor_from_flat_selecting. destruct (set_cursor_ok e off Hok) as [H1 H2].
    apply with_anchor_ok; [done|]. rw H2. intros pos [= <-]. destruct (selection_anchor e) eqn:Ea; [by apply Hok|apply Hok].
  - eexists. split; [done|]. by apply set_value_ok.
  - eexists. split; [done|]. by apply undo_ok.
  - eexists. split; [done|]. by apply redo_ok.
Qed.

(** The states of a session: a new field, then operations as their callers may use them. *)
Inductive te_reachable : TextEdit -> Prop :=
| reach_new : te_reachable text_edit_new
| reach_single_line : te_reachable single_line
| reach_with_text text : valid_text text -> te_reachable (with_text text)
| reach_single_line_with_text text : valid_text text -> te_reachable (single_line_with_text text)
| reach_op e op e' : te_reachable e -> op_safe op e -> run_op op e = Ok e' -> te_reachable e'.

Lemma fresh_ok lines multi :
  Forall line_ok lines -> lines <> [] -> (multi = false -> length lines = 1) -> te_ok (mkTextEdit lines 0 0 None multi [] []).
Proof.
  intros Hl Hne Hm. split; cbn; [done| |done|done|]; [|by split; [unfold MAX_UNDO; cbn; lia|]].
  destruct lines as [|l ls]; [done|]. exists l. split_and!; [done|cbn; lia|done].
Qed.

Lemma reachable_ok e : te_reachable e -> te_ok e.
Proof.
  assert (line_ok []) as Hnil by (split; [apply not_elem_of_nil|by exists []]).
  induction 1 as [| |text Ht|text Ht|e op e' _ IH Hs Hr].
  - by apply fresh_ok; [constructor| |].
  - by apply fresh_ok; [constructor| |].
  - pose proof (str_lines_ok text Ht) as H. unfold with_text. destruct (str_lines text); apply fresh_ok; try done. by constructor.
  - pose proof (str_lines_ok text Ht) as H. unfold single_line_with_text. apply fresh_ok; [|done|done]. constructor; [|constructor].
    by destruct H.
  - destruct (te_op_ok op e IH Hs) as (e2 & E & H). congruence.
Qed.

(** C21: sessions of a text field do not panic.  Start from an empty field or one with UTF-8
    text and run operations - typing, pasting, deleting, moving, selecting, undo, redo - each
    under its condition ([op_safe]): typed, pasted and set text is UTF-8, no newline is typed
    into a single-line field, a deletion does not find an anchor left at the cursor, deleting
    the word before the cursor has an ASCII line, and moving up, down or a word left has ASCII
    lines (these count bytes).  Then the state is sound and the next such operation
    succeeds: lines without newlines in whole characters, cursor and anchor on a line
    between characters, one line in a single-line field, at most 500 texts to undo and redo.
    The cluster boundaries are any that lie between characters. *)
Theorem text_edit_session_safe e op :
  te_reachable e -> op_safe op e ->
  te_ok e /\ exists e', run_op op e = Ok e' /\ te_ok e'.
Proof. intros Hr Hs. pose proof (reachable_ok e Hr) as Hok. split; [done|]. by apply te_op_ok. Qed.
End sessions.
