(* ===== verification/TextEditUndo.v ===== *)
(** * The history of the text edit

    Undo and redo as moves in a history of values, and where the operations of the text edit
    do not do what they mean to. *)
From stdpp Require Import base numbers list option.
From Stdlib Require Import ssreflect Strings.Byte NArith.
From S2P Require Import Prelude TextSpec Utf8 LineDiff PathEncode TextEdit TextEditInv TextEditOps TextEditSession.

(** ** A history: the values before, now and after *)
Record history := mkHistory { past : list (list byte); present : list byte; future : list (list byte) }.

Definition h_undo (h : history) : history :=
  match list.last (past h) with
  | Some v => mkHistory (take (length (past h) - 1) (past h)) v (present h :: future h)
  | None => h
  end.

Definition h_redo (h : history) : history :=
  match future h with v :: f => mkHistory (past h ++ [present h]) v f | [] => h end.

(** A new value.  The present joins the past, unless it is its last value already, and there
    is nothing to redo. *)
Definition h_edit (h : history) (v : list byte) : history :=
  mkHistory
    (if decide (list.last (past h) = Some (present h)) then past h
     else (if MAX_UNDO <=? length (past h) then tail (past h) else past h) ++ [present h]) v [].

(** What the checkpoint of an edit does: where the present is the last value of the past it
    leaves the future alone. *)
Definition h_checkpoint (h : history) (v : list byte) : history :=
  if decide (list.last (past h) = Some (present h)) then mkHistory (past h) v (future h)
  else mkHistory ((if MAX_UNDO <=? length (past h) then tail (past h) else past h) ++ [present h]) v [].

(** Nothing is left to redo where the present is the last value of the past. *)
Definition settled (h : history) : Prop := list.last (past h) = Some (present h) -> future h = [].

Lemma h_checkpoint_edit h v : settled h -> h_checkpoint h v = h_edit h v.
Proof. unfold h_checkpoint, h_edit, settled. case_decide as Hd; [|done]. intros H. by rw H. Qed.

Lemma h_checkpoints_edits vs : forall h, settled h -> foldl h_checkpoint h vs = foldl h_edit h vs.
Proof. induction vs as [|v vs IH]; intros h Hh; [done|]. cbn. rw h_checkpoint_edit //. by apply IH. Qed.

Definition history_of (e : TextEdit) : history :=
  mkHistory (fst <$> undo_stack e) (value e) (reverse (fst <$> redo_stack e)).

(** ** What the operations do to the stacks *)
Lemma same_mode_trans e1 e2 e3 : same_mode e1 e2 -> same_mode e2 e3 -> same_mode e1 e3.
Proof. intros (? & ? & ?) (? & ? & ?). split_and!; congruence. Qed.

Lemma checkpoint_top e : fst <$> list.last (undo_stack (push_undo_checkpoint e)) = Some (value e).
Proof. unfold push_undo_checkpoint. case_decide; [done|]. cbn. by rw last_snoc. Qed.

Lemma checkpoint_twice e : push_undo_checkpoint (push_undo_checkpoint e) = push_undo_checkpoint e.
Proof.
  unfold push_undo_checkpoint at 1. pose proof (checkpoint_top e) as H. destruct (checkpoint_ranges e) as (_ & _ & -> & _).
  by rw decide_True.
Qed.

Lemma delete_selection_mode e e' t : delete_selection e = Ok (e', t) -> same_mode (push_undo_checkpoint e) e'.
Proof. unfold delete_selection. cbv zeta. intros H. repeat (inv_res || case_match); simplify_eq; done. Qed.

Lemma delete_if_selected_mode e e' :
  delete_if_selected (push_undo_checkpoint e) = Ok e' -> same_mode (push_undo_checkpoint e) e'.
Proof.
  unfold delete_if_selected. case_match; [|by intros [= <-]]. destruct (delete_selection _) as [[e1 t]|] eqn:E; [|done].
  intros [= <-]. apply delete_selection_mode in E. by rw checkpoint_twice in E.
Qed.

Lemma insert_at_cursor_mode e c e' : insert_at_cursor e c = Ok e' -> same_mode e e'.
Proof. unfold insert_at_cursor. intros H. repeat (inv_res || case_match); simplify_eq; done. Qed.

Lemma insert_char_mode e c e' : insert_char e c = Ok e' -> same_mode (push_undo_checkpoint e) e'.
Proof.
  unfold insert_char. destruct (delete_if_selected _) as [e1|] eqn:E; [|done]. cbn [mbind res_bind]. intros H%insert_at_cursor_mode.
  apply delete_if_selected_mode in E. by apply (same_mode_trans _ e1).
Qed.

Lemma drain_line_mode e a b e' : drain_line e a b = Ok e' -> same_mode e e'.
Proof. unfold drain_line. intros H. repeat (inv_res || case_match); simplify_eq; done. Qed.

Lemma join_mode e e' : (join_previous e = Ok e' -> same_mode e e') /\ (join_next e = Ok e' -> same_mode e e').
Proof. unfold join_previous, join_next. split; intros H; repeat (inv_res || case_match); simplify_eq; done. Qed.

Lemma delete_unselected_mode next d e e' : delete_unselected next d e = Ok e' -> same_mode e e'.
Proof.
  destruct (join_mode e e') as [J1 J2]. intros H.
  destruct d; cbn [delete_unselected] in H;
    unfold backspace_char, delete_cluster, delete_word_after, delete_word_before, delete_line_start, delete_line_end in H;
    repeat (inv_res || case_match); simplify_eq; try done; try (by apply J1); try (by apply J2);
    try (by eapply drain_line_mode; eauto); match goal with H : drain_line _ _ _ = Ok _ |- _ => apply drain_line_mode in H; done end.
Qed.

Lemma delete_by_mode next d e e' : delete_by next d e = Ok e' -> same_mode (push_undo_checkpoint e) e'.
Proof.
  replace (delete_by next d e) with (deleting (delete_unselected next d) e) by by destruct d. unfold deleting. cbv zeta.
  destruct (has_selection (push_undo_checkpoint e)) eqn:Hs; [|apply delete_unselected_mode]. intros H. apply delete_if_selected_mode. unfold delete_if_selected. by rw Hs.
Qed.

(** ** Restoring a value *)

(** A text that is its lines: none ends in a carriage return, a single line has no newline. *)
Definition restorable (multi : bool) (text : list byte) : Prop :=
  if multi then Forall (fun l => strip_suffix x0d l = l) (split_lines text) else newline ∉ text.

Lemma set_value_value e text : restorable (multiline e) text -> value (set_value e text) = text.
Proof.
  unfold restorable, value, set_value. cbn. destruct (multiline e).
  - intros H. replace (strip_suffix x0d <$> split_lines text) with (split_lines text); [apply join_split_lines|].
    induction H as [|l ls Hl _ IH]; [done|]. cbn. by rw Hl -IH.
  - intros H. destruct (str_lines_spec text) as (ls & l & E1 & ->). rw split_lines_single // in E1.
    destruct ls as [|? [|]]; [|done..]. injection E1 as <-. by destruct text.
Qed.

Section history.
Context (cursor_prev cursor_next : list byte -> nat -> option nat) (cursor_is_boundary : list byte -> nat -> bool).
Local Abbreviation run_op := (run_op cursor_prev cursor_next cursor_is_boundary).
Local Abbreviation undo := (undo cursor_prev cursor_is_boundary).
Local Abbreviation redo := (redo cursor_prev cursor_is_boundary).

Lemma set_cursor_value e off : history_of (set_cursor_from_flat cursor_prev cursor_is_boundary e off) = history_of e
  /\ multiline (set_cursor_from_flat cursor_prev cursor_is_boundary e off) = multiline e.
Proof. unfold set_cursor_from_flat. by destruct (default _ _). Qed.

Lemma restore_history e text off :
  restorable (multiline e) text ->
  history_of (restore cursor_prev cursor_is_boundary e text off) = mkHistory (fst <$> undo_stack e) text (reverse (fst <$> redo_stack e)).
Proof.
  intros H. unfold restore. rw (proj1 (set_cursor_value _ _)). unfold history_of. by rw set_value_value.
Qed.

Lemma undo_history e :
  (forall text, list.last (past (history_of e)) = Some text -> restorable (multiline e) text) ->
  history_of (undo e).1 = h_undo (history_of e).
Proof.
  unfold TextEdit.undo, h_undo, history_of at 1 3 4 5. cbn [past present future]. rw fmap_last.
  destruct (list.last (undo_stack e)) as [[text off]|] eqn:E; cbn [fmap option_fmap option_map fst]; [|done].
  intros H. rw restore_history; [by apply H|]. cbn [with_stacks undo_stack redo_stack]. rw fmap_app reverse_app. f_equal. by rw length_fmap fmap_take.
Qed.

Lemma redo_history e :
  (forall text, head (future (history_of e)) = Some text -> restorable (multiline e) text) ->
  history_of (redo e).1 = h_redo (history_of e).
Proof.
  unfold TextEdit.redo, h_redo. destruct (list.last (redo_stack e)) as [[text off]|] eqn:E.
  - pose proof (last_split _ _ E) as Hl. set (rs := take (length (redo_stack e) - 1) (redo_stack e)) in *.
    assert (future (history_of e) = text :: reverse rs.*1) as -> by (cbn [history_of future]; rw Hl fmap_app reverse_app; done).
    intros H. cbn [fst]. rw restore_history; [by apply H|]. cbn [with_stacks undo_stack redo_stack]. by rw fmap_app.
  - apply last_None in E. assert (future (history_of e) = []) as -> by (cbn [history_of future]; by rw E). done.
Qed.

Lemma checkpoint_history e v :
  mkHistory (fst <$> undo_stack (push_undo_checkpoint e)) v (reverse (fst <$> redo_stack (push_undo_checkpoint e)))
  = h_checkpoint (history_of e) v.
Proof.
  unfold push_undo_checkpoint, h_checkpoint. cbn [history_of past present future]. rw fmap_last. case_decide; [done|]. cbn.
  rw fmap_app length_fmap. do 2 f_equal. case_match; [|done]. by destruct (undo_stack e).
Qed.

Lemma edit_history e e' : same_mode (push_undo_checkpoint e) e' -> history_of e' = h_checkpoint (history_of e) (value e').
Proof. intros (_ & H1 & H2). rw -checkpoint_history -H1 -H2. done. Qed.

Lemma insert_chars_history cs : forall e e', insert_chars e cs = Ok e' ->
  exists vs, length vs = length cs /\ history_of e' = foldl h_checkpoint (history_of e) vs.
Proof.
  induction cs as [|c cs IH]; intros e e'; [intros [= <-]; by exists []|]. cbn [insert_chars].
  destruct (insert_char e _) as [e1|] eqn:E; [|done]. intros (vs & Hl & Hh)%IH. apply insert_char_mode, edit_history in E.
  exists (value e1 :: vs). split; [cbn; by rw Hl|]. cbn. by rw -E.
Qed.

Lemma insert_str_history e text e' :
  insert_str e text = Ok e' ->
  exists vs, length vs = S (length (from_utf8_lossy text)) /\ history_of e' = foldl h_checkpoint (history_of e) vs.
Proof.
  unfold insert_str. destruct (delete_if_selected _) as [e1|] eqn:E; [|done]. cbn [mbind res_bind]. intros (vs & Hl & Hh)%insert_chars_history.
  apply delete_if_selected_mode, edit_history in E. exists (value e1 :: vs). split; [cbn; by rw Hl|]. cbn. by rw -E.
Qed.

(** ** The operations as moves in the history *)
Definition is_edit (op : te_op) : bool := match op with OpInsertChar _ | OpDelete _ | OpClear => true | _ => false end.

Definition history_step (op : te_op) (h h' : history) : Prop :=
  match op with
  | OpUndo => h' = h_undo h
  | OpRedo => h' = h_redo h
  | OpInsertChar _ | OpDelete _ | OpClear => h' = h_edit h (present h')
  | OpInsertStr text => exists vs, length vs = S (length (from_utf8_lossy text)) /\ h' = foldl h_edit h vs
  | OpSetValue _ => h' = mkHistory (past h) (present h') (future h)
  | _ => h' = h
  end.

(** The value that undo or redo goes to survives [set_value]; an edit finds nothing to redo
    where the value is on the stack of undo already. *)
Definition op_restorable (op : te_op) (e : TextEdit) : Prop :=
  match op with
  | OpInsertChar _ | OpInsertStr _ | OpDelete _ | OpClear => settled (history_of e)
  | OpUndo => forall text, list.last (past (history_of e)) = Some text -> restorable (multiline e) text
  | OpRedo => forall text, head (future (history_of e)) = Some text -> restorable (multiline e) text
  | _ => True
  end.

Lemma move_history m sel e e' :
  move cursor_prev cursor_next cursor_is_boundary m sel e = Ok e' -> history_of e' = history_of e.
Proof.
  unfold move. assert (history_of (if sel then ensure_anchor e else clear_selection e) = history_of e) as <-.
  { destruct sel; [|done]. unfold ensure_anchor. by destruct (selection_anchor e). }
  set (e1 := if sel then ensure_anchor e else clear_selection e). intros H.
  destruct m; cbn [move_internal] in H;
    unfold move_left_internal, move_right_internal, move_up_internal, move_down_internal, move_home_internal, move_end_internal,
      move_word_left_internal, move_word_right_internal in H; cbv zeta in H; repeat (inv_res || case_match); done.
Qed.

Lemma edit_mode op e e' : is_edit op = true -> run_op op e = Ok e' -> same_mode (push_undo_checkpoint e) e'.
Proof.
  destruct op; try done; intros _ H; cbn [TextEditSession.run_op] in H.
  - by apply (insert_char_mode _ c).
  - by apply (delete_by_mode cursor_next d).
  - injection H as <-. done.
Qed.

(** C24: undo and redo refine a history of values.  Take an operation that succeeds, with, for
    undo and redo, a text to go to that setting the value keeps (no line of it ends in a
    carriage return, and it is one line in a single-line field), and, for an edit, nothing left
    to redo if the value is already the last to undo to.  An edit puts the value before it on the past, once, from which the oldest of 500
    values goes, and forgets the future.  Undo and redo step back and forth, a movement changes
    nothing, setting the value replaces the present alone, and a pasted text is a first edit
    and one for each of its characters. *)
Theorem text_edit_refines_history op e e' :
  run_op op e = Ok e' -> op_restorable op e -> history_step op (history_of e) (history_of e').
Proof.
  intros H Hr. destruct op as [c|text|d| |m sel| | |off|off|text| |]; cbn [history_step];
    try (cbn [op_restorable] in Hr; rw -h_checkpoint_edit //; apply edit_history; eapply edit_mode; [|exact H]; done); cbn [TextEditSession.run_op] in H.
  - cbn [op_restorable] in Hr. apply insert_str_history in H as (vs & Hl & ->). exists vs. split; [done|]. by apply h_checkpoints_edits.
  - eapply move_history, H.
  - injection H as <-. unfold select_all. by destruct (last_position e).
  - by injection H as <-.
  - injection H as <-. apply set_cursor_value.
  - injection H as <-. unfold set_cursor_from_flat_selecting. apply (set_cursor_value e off).
  - by injection H as <-.
  - injection H as <-. by apply undo_history.
  - injection H as <-. by apply redo_history.
Qed.

Lemma h_undo_edit h v : exists p f, h_undo (h_checkpoint h v) = mkHistory p (present h) (v :: f).
Proof.
  unfold h_undo, h_checkpoint. case_decide as Hl; cbn [past present future]; [rw Hl|rw last_snoc]; by eexists _, _.
Qed.

(** Undo takes back an edit and redo brings it again: the value is exactly the one
    before, then exactly the one after - as long as no line of them ends in a carriage return. *)
Theorem edit_undo_redo op e e' :
  is_edit op = true -> run_op op e = Ok e' ->
  restorable (multiline e) (value e) -> restorable (multiline e) (value e') ->
  value (undo e').1 = value e /\ value (redo (undo e').1).1 = value e'.
Proof.
  intros He H R1 R2. pose proof (edit_mode op e e' He H) as Hm. pose proof (edit_history e e' Hm) as Hh.
  assert (multiline e' = multiline e) as Hml by (destruct Hm as (-> & _); apply checkpoint_fields).
  destruct (h_undo_edit (history_of e) (value e')) as (p & f & Hu). rw -Hh in Hu.
  assert (history_of (undo e').1 = mkHistory p (value e) (value e' :: f)) as Hu'.
  { rw undo_history; [|done]. intros text Ht. unfold h_undo in Hu. rw Ht in Hu. injection Hu as _ -> _. by rw Hml. }
  assert (multiline (undo e').1 = multiline e) as Hmu.
  { unfold TextEdit.undo. destruct (list.last (undo_stack e')) as [[t o]|]; [|done]. cbn [fst]. unfold restore. by rw (proj2 (set_cursor_value _ _)). }
  split; [exact (f_equal present Hu')|]. apply (f_equal present (x := history_of (redo (undo e').1).1) (y := mkHistory (p ++ [value e]) (value e') f)).
  rw redo_history Hu'; [|done]. intros text [= <-]. by rw Hmu.
Qed.
End history.

(** ** The text edit on concrete sessions

    Cluster boundaries that take every character as a cluster, the theorems on a sample
    field, and sessions outside the conditions of the theorems. *)
(** ** Characters as clusters *)
Definition char_prev (s : list byte) (pos : nat) : option nat :=
  if 0 <? pos then Some (prev_char s pos) else None.

Definition char_next (s : list byte) (pos : nat) : option nat :=
  List.find (is_char_boundary s) (seq (S pos) (length s - pos)).

#[export] Instance char_cursor : ClusterCursor char_prev char_next.
Proof.
  split.
  - intros s pos q _. unfold char_prev, prev_char. destruct (Nat.ltb_spec 0 pos); [|done]. intros [= <-].
    pose proof (back_off_le' (fun k => negb (is_char_boundary s k)) (pos - 1)). split; [lia|]. apply back_off_boundary.
  - intros s pos q _ H. apply List.find_some in H as [H1%in_seq H2]. split; [lia|done].
Qed.

Local Abbreviation run_op := (run_op char_prev char_next is_char_boundary).

Fixpoint run_ops (ops : list te_op) (e : TextEdit) : res TextEdit :=
  match ops with [] => Ok e | op :: ops => e ← run_op op e; run_ops ops e end.

(** ** A sample field: two lines, the second with a two-byte character *)
Definition sample_text : list byte := [x61; x62; x0a; x63; xc3; xa9].
Definition sample : TextEdit := mkTextEdit [[x61; x62]; [x63; xc3; xa9]] 1 1 (Some (0, 1)) true [] [].

Lemma sample_text_valid : valid_text sample_text.
Proof. exists [97; 98; 10; 99; 233]%N. split; [repeat constructor|done]. Qed.

Lemma sample_ok : te_ok sample.
Proof.
  apply (with_anchor_ok (with_cursor (with_text sample_text) 1 1) (Some (0, 1))).
  - apply with_cursor_ok.
    + apply (reachable_ok char_prev char_next is_char_boundary), reach_with_text, sample_text_valid.
    + exists [x63; xc3; xa9]. cbn. split_and!; [done|lia|done].
  - intros pos [= <-]. exists [x61; x62]. cbn. split_and!; [done|lia|done].
Qed.

(** Typing an "x" over the selection from the first line into the second. *)
Lemma insert_str_splices_witness :
  exists e', insert_str sample [x78] = Ok e' /\ te_ok e' /\ value e' = [x61; x78; xc3; xa9] /\ flat_cursor_byte e' = 2.
Proof. exact (insert_str_splices sample [x78] sample_ok eq_refl). Defined.

Lemma delete_selection_splices_witness :
  exists s f e', selection_flat_range sample = Some (s, f)
    /\ delete_selection sample = Ok (e', Some (take (f - s) (drop s (value sample))))
    /\ te_ok e' /\ value e' = splice (value sample) s (f - s) [] /\ flat_cursor_byte e' = s /\ has_selection e' = false.
Proof. exact (delete_selection_splices sample sample_ok eq_refl). Defined.

(** Backspace at the end removes the two bytes of the last character. *)
Lemma deletions_splice_witness :
  exists e', backspace (with_anchor (with_cursor sample 1 3) None) = Ok e' /\ te_ok e' /\ has_selection e' = false
    /\ value e' = [x61; x62; x0a; x63] /\ flat_cursor_byte e' = 4.
Proof.
  assert (te_ok (with_anchor (with_cursor sample 1 3) None)) as Hok.
  { apply with_anchor_ok; [|done]. apply with_cursor_ok; [apply sample_ok|].
    exists [x63; xc3; xa9]. cbn. split_and!; [done|lia|done]. }
  exact (deletions_splice char_prev char_next DBackspace _ Hok (or_introl eq_refl) I I).
Defined.

Lemma text_edit_session_safe_witness :
  te_ok (with_text sample_text) /\ exists e', run_op (OpDelete DWordForward) (with_text sample_text) = Ok e' /\ te_ok e'.
Proof.
  apply (text_edit_session_safe char_prev char_next is_char_boundary).
  - apply reach_with_text, sample_text_valid.
  - split; [left; reflexivity|exact I].
Defined.

(** Typing an "x" over the selection, then undo: the future holds the new value. *)
Definition sample_typed : TextEdit := mkTextEdit [[x61; x78; xc3; xa9]] 0 2 None true [(sample_text, 4)] [].

Lemma text_edit_refines_history_witness :
  run_op (OpInsertChar 120) sample = Ok sample_typed
  /\ h_undo (history_of sample_typed) = mkHistory [] sample_text [[x61; x78; xc3; xa9]]
  /\ history_of (undo char_prev is_char_boundary sample_typed).1 = h_undo (history_of sample_typed).
Proof.
  split; [vm_compute; reflexivity|]. split; [reflexivity|].
  apply (text_edit_refines_history char_prev char_next is_char_boundary OpUndo sample_typed); [reflexivity|].
  intros text [= <-]. repeat constructor.
Defined.

Lemma edit_undo_redo_witness :
  value (undo char_prev is_char_boundary sample_typed).1 = sample_text
  /\ value (redo char_prev is_char_boundary (undo char_prev is_char_boundary sample_typed).1).1 = [x61; x78; xc3; xa9].
Proof.
  apply (edit_undo_redo char_prev char_next is_char_boundary (OpInsertChar 120) sample); [reflexivity|vm_compute; reflexivity| |]; repeat constructor.
Defined.

(** ** Outside the conditions *)

(** Up and down keep the column in bytes: it may fall inside a character of the other line,
    and typing there panics. *)
Lemma up_into_character :
  run_ops [OpMove MDown false; OpMove MEnd false; OpMove MUp false; OpInsertChar 121] (with_text [xc3; xa9; x0a; x78]) = Panic.
Proof. vm_compute. reflexivity. Qed.

(** Deleting the word before the cursor steps back one byte first: behind a character of
    several bytes it panics. *)
Lemma delete_word_in_character : run_ops [OpMove MEnd false; OpDelete DWordBackward] (with_text [xc3; xa9]) = Panic.
Proof. vm_compute. reflexivity. Qed.

(** At the start of a word inside a line there is no word before the cursor for
    [find_word_start_bytes]: the line is joined with the one before it and the cursor goes
    there, and moving by a word goes to the end of the line before. *)
Lemma word_start_joins_lines :
  (exists e, run_ops [OpMove MDown false; OpMove MRight false; OpDelete DWordBackward] (with_text [x61; x0a; x20; x62]) = Ok e
    /\ value e = [x61; x20; x62] /\ flat_cursor_byte e = 1)
  /\ (exists e, run_ops [OpMove MDown false; OpMove MRight false; OpMove MWordLeft false] (with_text [x61; x0a; x20; x62]) = Ok e
    /\ flat_cursor_byte e = 1).
Proof. split; eexists; (split; [vm_compute; reflexivity|done]). Qed.

(** Shift+Right and Shift+Left leave an anchor at the cursor, which backspace does not
    clear: it names a line that is gone, and the next character typed panics. *)
Lemma stale_anchor_panics :
  run_ops [OpMove MDown false; OpMove MRight true; OpMove MLeft true; OpDelete DBackspace] (with_text [x61; x0a; x62]) <> Panic
  /\ run_ops [OpMove MDown false; OpMove MRight true; OpMove MLeft true; OpDelete DBackspace; OpInsertChar 120] (with_text [x61; x0a; x62]) = Panic.
Proof. split; [vm_compute; congruence|vm_compute; reflexivity]. Qed.

(** Undo restores a value line by line: a carriage return at the end of a line is lost. *)
Lemma undo_loses_carriage_return :
  exists e1 e2, run_ops [OpInsertChar 97; OpInsertChar 13] text_edit_new = Ok e1
    /\ run_ops [OpInsertChar 98; OpUndo] e1 = Ok e2 /\ value e1 = [x61; x0d] /\ value e2 = [x61].
Proof. eexists _, _. split; [vm_compute; reflexivity|]. split; [vm_compute; reflexivity|done]. Qed.

(** After the value was set back to what undo would restore, an edit keeps what there was to
    redo. *)
Lemma redo_survives_edit :
  exists e, run_ops [OpInsertChar 97; OpInsertChar 98; OpUndo; OpSetValue []; OpInsertChar 120] text_edit_new = Ok e
  /\ value e = [x78] /\ value (redo char_prev is_char_boundary e).1 = [x61; x62].
Proof. eexists. split; [vm_compute; reflexivity|]. split; reflexivity. Qed.
