(* ===== verification/BufferSearch.v ===== *)
(** * Searching a buffer

    Models buffer/search.rs: the search for the matches of a regex, a window of the buffer at
    a time, the search that starts over when the buffer is edited, and replacement templates.

    The regex crate is a parameter: [regex] its compiled patterns, [find_at] the leftmost match
    at or after an offset of a haystack (with the bytes before the offset as context),
    [captures_at] the groups of such a match, [expand] the expansion of a template.  The
    buffer is anything that reads a range of its text ([TextSource]); the text buffer is one.
    A byte budget of [usize::MAX] is [None]. *)
From stdpp Require Import base numbers list option.
From Stdlib Require Import ssreflect Strings.Byte NArith ZArith.
From S2P Require Import Prelude TextSpec Utf8 LineDiff.

(** ** Data *)
Record SearchMatch := mkSearchMatch {
  byte_offset : nat; match_length : nat; match_line : nat; match_column : nat;
  match_context : list N; context_offset : nat;
}.

Definition MATCH_CONTEXT : nat := 4096.
Definition CONTEXT : nat := 4.

Record Lines := mkLines { ln_line : nat; ln_start : nat; counted_to : nat }.

Record RegexSearch := mkRegexSearch {
  rs_version : Z; rs_end : nat; to_buffer_end : bool; rs_overlap : nat; base_window : nat;
  rs_window : nat; rs_pos : nat; last_end : option nat; rs_lines : option Lines; rs_done : bool;
}.

Definition set_window (s : RegexSearch) (w : nat) : RegexSearch :=
  mkRegexSearch (rs_version s) (rs_end s) (to_buffer_end s) (rs_overlap s) (base_window s) w (rs_pos s) (last_end s) (rs_lines s) (rs_done s).
Definition set_pos (s : RegexSearch) (p : nat) : RegexSearch :=
  mkRegexSearch (rs_version s) (rs_end s) (to_buffer_end s) (rs_overlap s) (base_window s) (rs_window s) p (last_end s) (rs_lines s) (rs_done s).
Definition set_last_end (s : RegexSearch) (e : nat) : RegexSearch :=
  mkRegexSearch (rs_version s) (rs_end s) (to_buffer_end s) (rs_overlap s) (base_window s) (rs_window s) (rs_pos s) (Some e) (rs_lines s) (rs_done s).
Definition set_lines (s : RegexSearch) (l : option Lines) : RegexSearch :=
  mkRegexSearch (rs_version s) (rs_end s) (to_buffer_end s) (rs_overlap s) (base_window s) (rs_window s) (rs_pos s) (last_end s) l (rs_done s).
Definition set_done (s : RegexSearch) : RegexSearch :=
  mkRegexSearch (rs_version s) (rs_end s) (to_buffer_end s) (rs_overlap s) (base_window s) (rs_window s) (rs_pos s) (last_end s) (rs_lines s) true.

(** ** Lines of matches *)
Fixpoint count_breaks (bytes : list byte) (pos line start : nat) : nat * nat :=
  match bytes with
  | [] => (line, start)
  | b :: bytes => if is_nl b then count_breaks bytes (S pos) (S line) (S pos) else count_breaks bytes (S pos) line start
  end.

Definition count_lines (s : RegexSearch) (bytes : list byte) (read_from to : nat) : res RegexSearch :=
  match rs_lines s with
  | None => Ok s
  | Some l =>
      if to <=? counted_to l then Ok s else
      from ← usub (counted_to l) read_from;
      until ← usub to read_from;
      part ← slice bytes from until;
      let '(line, start) := count_breaks part (counted_to l) (ln_line l) (ln_start l) in
      Ok (set_lines s (Some (mkLines line start to)))
  end.

(** [while from < start && is_continuation(bytes[from]) { from += 1 }] *)
Fixpoint skip_continuation (bytes : list byte) (from count : nat) : nat :=
  match count with
  | 0 => from
  | S count => if is_continuation (bytes !! from) then skip_continuation bytes (S from) count else from
  end.

(** [while to > end && to < bytes.len() && is_continuation(bytes[to]) { to -= 1 }], with the
    difference of [to] and [end]. *)
Fixpoint back_continuation (bytes : list byte) (end_ above : nat) : nat :=
  match above with
  | 0 => end_
  | S n => if is_continuation (bytes !! (end_ + S n)) then back_continuation bytes end_ n else end_ + S n
  end.

Fixpoint find_newline (bytes : list byte) : option nat :=
  match bytes with [] => None | b :: bytes => if is_nl b then Some 0 else S <$> find_newline bytes end.

Definition match_at (s : RegexSearch) (bytes : list byte) (read_from start end_ : nat) : res (RegexSearch * SearchMatch) :=
  len ← usub end_ start;
  s ← count_lines s bytes read_from start;
  match rs_lines s with
  | None => Ok (s, mkSearchMatch start len 0 0 [] 0)
  | Some l =>
      column ← usub start (ln_start l);
      rel_start ← usub start read_from;
      rel_end ← usub end_ read_from;
      let from := Nat.max (Nat.max (ln_start l) read_from - read_from) (rel_start - MATCH_CONTEXT) in
      let from := skip_continuation bytes from (rel_start - from) in
      let limit := Nat.min (length bytes) (rel_end + MATCH_CONTEXT) in
      rest ← slice bytes rel_start limit;
      let to := match find_newline rest with Some p => rel_start + p | None => limit end in
      let to := if rel_end <? to then back_continuation bytes rel_end (to - rel_end) else to in
      line ← slice bytes from to;
      offset ← usub rel_start from;
      Ok (s, mkSearchMatch start len (ln_line l) (column + 1) (from_utf8_lossy (strip_suffix x0d line)) offset)
  end.

(** ** The buffer *)
Class TextSource (B E : Type) := {
  src_version : B -> Z;
  src_len : B -> nat;
  src_read : B -> nat -> nat -> res (B * (E + list byte));
}.

Inductive search_error (E : Type) := EditedDuringSearch | ReadFailed (e : E).
Arguments EditedDuringSearch {E}.
Arguments ReadFailed {E} e.

Section search.
Context {regex : Type} (find_at : regex -> list byte -> nat -> option (nat * nat)).
Context {B E : Type} `{!TextSource B E}.
Context (usize_max load_chunk_size : nat).

Record SearchQuery := mkSearchQuery { sq_regex : regex; sq_overlap : nat }.

Definition search_new (query : SearchQuery) (range_start range_end : nat) (b : B) : RegexSearch :=
  let end_ := Nat.min range_end (src_len b) in
  mkRegexSearch (src_version b) end_ (end_ =? src_len b) (sq_overlap query) load_chunk_size load_chunk_size
    (Nat.min range_start end_) None None (end_ <? range_start).

Definition with_lines (s : RegexSearch) (first_line : nat) : RegexSearch :=
  set_lines s (Some (mkLines first_line (rs_pos s) (rs_pos s))).

Definition with_window (s : RegexSearch) (window : nat) : RegexSearch :=
  mkRegexSearch (rs_version s) (rs_end s) (to_buffer_end s) (rs_overlap s) (Nat.max window 1) (Nat.max window 1)
    (rs_pos s) (last_end s) (rs_lines s) (rs_done s).

(** A bigger window. *)
Definition grow (s : RegexSearch) : RegexSearch := set_window s (Nat.min (rs_window s * 2) usize_max).

(** What a window is read with, and how its scan ends. *)
Record Window := mkWindow { w_bytes : list byte; w_from : nat; w_to : nat; w_end : nat; w_limit : nat }.
Inductive scan_exit := Finished | Reread | LimitReached | WindowDone.

Fixpoint scan_window (fuel : nat) (re : regex) (w : Window) (end_ limit : nat) (s : RegexSearch) (found : list SearchMatch)
    (at_ : nat) : res (RegexSearch * list SearchMatch * scan_exit) :=
  if w_to w <? at_ then Ok (s, found, WindowDone) else
  match fuel with
  | 0 => Panic
  | S fuel =>
      rel ← usub at_ (w_from w);
      if length (w_bytes w) <? rel then Panic else
      match find_at re (w_bytes w) rel with
      | None => Ok (s, found, WindowDone)
      | Some (m_start, m_end) =>
          let start := w_from w + m_start in
          let match_end := w_from w + m_end in
          if (end_ <? start) || (end_ <? match_end) || (start =? end_) && negb (to_buffer_end s) then
            Ok (set_done s, found, Finished)
          else if (w_end w <? end_) && (w_limit w <? match_end + CONTEXT) then
            let s := if start =? rs_pos s then grow s else s in
            s ← count_lines s (w_bytes w) (w_from w) start;
            Ok (set_pos s start, found, Reread)
          else if (start =? match_end) && bool_decide (last_end s = Some start) then
            scan_window fuel re w end_ limit s found (start + 1)
          else
            '(s, m) ← match_at s (w_bytes w) (w_from w) start match_end;
            let found := found ++ [m] in
            let s := set_last_end s match_end in
            let at_ := if start =? match_end then match_end + 1 else match_end in
            s ← count_lines s (w_bytes w) (w_from w) (Nat.min at_ (w_to w));
            let s := set_pos s at_ in
            if limit <=? length found then Ok (s, found, LimitReached)
            else scan_window fuel re w end_ limit s found at_
      end
  end.

(** What of the buffer is read for a window, and up to where matches count. *)
Definition window_range (s : RegexSearch) (len window_end : nat) : nat * nat :=
  match rs_lines s with
  | Some l => (Nat.min (rs_pos s - CONTEXT) (Nat.max (ln_start l) (rs_pos s - MATCH_CONTEXT)), Nat.min (window_end + MATCH_CONTEXT) len)
  | None => (rs_pos s - CONTEXT, Nat.min (window_end + CONTEXT) len)
  end.

Definition within (max_bytes : option nat) (read : nat) : bool :=
  match max_bytes with Some m => read <? m | None => true end.

Fixpoint step_loop (fuel : nat) (re : regex) (max_bytes : option nat) (limit len end_ : nat) (b : B) (s : RegexSearch)
    (found : list SearchMatch) (read : nat) : res (B * RegexSearch * (search_error E + list SearchMatch)) :=
  if negb (negb (rs_done s) && (length found <? limit) && within max_bytes read) then Ok (b, s, inr found) else
  match fuel with
  | 0 => Panic
  | S fuel =>
      let window_start := rs_pos s in
      if (end_ <? rs_pos s) || (rs_pos s =? end_) && negb (to_buffer_end s) then Ok (b, set_done s, inr found) else
      let window_end := Nat.min (rs_pos s + rs_window s) end_ in
      let '(read_from, read_to) := window_range s (len) window_end in
      count ← usub read_to read_from;
      let match_limit := Nat.min (window_end + CONTEXT) (len) in
      '(b, r) ← src_read b read_from count;
      match r with
      | inl e => Ok (b, s, inl (ReadFailed e))
      | inr bytes =>
          let w := mkWindow bytes read_from read_to window_end match_limit in
          '(s, found, exit) ← scan_window (S (read_to - window_start)) re w end_ limit s found window_start;
          match exit with
          | Finished | LimitReached => Ok (b, s, inr found)
          | Reread => step_loop fuel re max_bytes limit len end_ b s found (read + length bytes)
          | WindowDone =>
              if end_ <=? window_end then Ok (b, set_done s, inr found) else
              let next := Nat.max (rs_pos s) (window_end - rs_overlap s) in
              if next <=? window_start then step_loop fuel re max_bytes limit len end_ b (grow s) found (read + length bytes)
              else
                s ← count_lines s bytes read_from next;
                step_loop fuel re max_bytes limit len end_ b (set_window (set_pos s next) (base_window s)) found (read + length bytes)
          end
      end
  end.

Definition step_fuel (end_ : nat) : nat := S ((end_ + 2) * (end_ + 2)).

Definition search_step (re : regex) (max_bytes : option nat) (limit : nat) (b : B) (s : RegexSearch)
    : res (B * RegexSearch * (search_error E + list SearchMatch)) :=
  if bool_decide (src_version b = rs_version s)
  then
    let len := src_len b in
    let end_ := Nat.min (rs_end s) len in
    step_loop (step_fuel end_) re max_bytes limit len end_ b s [] 0
  else Ok (b, s, inl EditedDuringSearch).

Definition search_run (re : regex) (limit : nat) (b : B) (s : RegexSearch)
    : res (B * RegexSearch * (search_error E + list SearchMatch)) := search_step re None limit b s.

Definition spans (found : list SearchMatch) : list (nat * nat) := (fun m => (byte_offset m, match_length m)) <$> found.

Definition find_regex_matches_in_windows (query : SearchQuery) (range_start range_end limit window : nat) (b : B)
    : res (B * (search_error E + list (nat * nat))) :=
  '(b, _, r) ← (search_run (sq_regex query) limit b (with_window (search_new query range_start range_end b) window)
               : res (B * RegexSearch * (search_error E + list SearchMatch)));
  Ok (b, match r with inl e => inl e | inr found => inr (spans found) end).

Definition find_regex_matches (query : SearchQuery) (range_start range_end limit : nat) (b : B)
    : res (B * (search_error E + list (nat * nat))) :=
  find_regex_matches_in_windows query range_start range_end limit load_chunk_size b.

(** ** A search in time slices *)
Record BufferSearch := mkBufferSearch {
  bs_query : SearchQuery; bs_range : option (nat * nat); bs_lines : bool; bs_limit : nat;
  bs_search : RegexSearch; bs_found : list SearchMatch;
}.

Definition buffer_search (query : SearchQuery) (range : option (nat * nat)) (lines : bool) (b : B) : RegexSearch :=
  let '(range_start, range_end) := default (0, src_len b) range in
  let s := search_new query range_start range_end b in
  if lines then with_lines s 1 else s.

Definition buffer_search_new (query : SearchQuery) (range : option (nat * nat)) (lines : bool) (limit : nat) (b : B) : BufferSearch :=
  mkBufferSearch query range lines limit (buffer_search query range lines b) [].

Definition bs_is_done (bs : BufferSearch) : bool := rs_done (bs_search bs) || (bs_limit bs <=? length (bs_found bs)).

Definition set_search (bs : BufferSearch) (s : RegexSearch) (found : list SearchMatch) : BufferSearch :=
  mkBufferSearch (bs_query bs) (bs_range bs) (bs_lines bs) (bs_limit bs) s found.

(** The loop of [run]: [slices] says after how many steps the deadline has passed. *)
Fixpoint slice_loop (slices : nat) (b : B) (bs : BufferSearch) : res (B * BufferSearch * (search_error E + unit)) :=
  if bs_is_done bs then Ok (b, bs, inr tt) else
  match slices with
  | 0 => Ok (b, bs, inr tt)
  | S slices =>
      limit ← usub (bs_limit bs) (length (bs_found bs));
      '(b, s, r) ← (search_step (sq_regex (bs_query bs)) (Some load_chunk_size) limit b (bs_search bs)
                   : res (B * RegexSearch * (search_error E + list SearchMatch)));
      match r with
      | inl e => Ok (b, set_search bs s (bs_found bs), inl e)
      | inr found => slice_loop slices b (set_search bs s (bs_found bs ++ found))
      end
  end.

Definition buffer_search_run (slices : nat) (b : B) (bs : BufferSearch) : res (B * BufferSearch * (search_error E + unit)) :=
  if bool_decide (src_version b = rs_version (bs_search bs)) then slice_loop slices b bs
  else match bs_range bs with
       | Some _ => Ok (b, bs, inl EditedDuringSearch)
       | None => slice_loop slices b (set_search bs (buffer_search (bs_query bs) (bs_range bs) (bs_lines bs) b) [])
       end.

Definition progress_percent (bs : BufferSearch) (buffer_len : nat) : nat :=
  let '(range_start, range_end) := default (0, buffer_len) (bs_range bs) in
  let range_len := range_end - range_start in
  if range_len =? 0 then 100 else Nat.min ((rs_pos (bs_search bs) - range_start) * 100 / range_len) 100.

(** ** Replacement templates *)
Local Open Scope N_scope.
Fixpoint interpret_escapes (template : list N) : list N :=
  match template with
  | [] => []
  | c :: rest =>
      if negb (c =? 92) then c :: interpret_escapes rest else
      match rest with
      | [] => [92]
      | d :: rest =>
          if d =? 110 then 10 :: interpret_escapes rest
          else if d =? 116 then 9 :: interpret_escapes rest
          else if d =? 114 then 13 :: interpret_escapes rest
          else if d =? 92 then 92 :: interpret_escapes rest
          else 92 :: d :: interpret_escapes rest
      end
  end.

Definition is_ascii_digit (c : N) : bool := in_range 48 57 c.

(** [in_group]: inside the digits of a group that has been opened. *)
Fixpoint normalize_chars (in_group : bool) (template : list N) : list N :=
  match template with
  | [] => if in_group then [125] else []
  | c :: rest =>
      if in_group && is_ascii_digit c then c :: normalize_chars true rest
      else (if in_group then [125] else []) ++
           (if (c =? 36) && match rest with d :: _ => is_ascii_digit d | [] => false end
            then 36 :: 123 :: normalize_chars true rest else c :: normalize_chars false rest)
  end.

Definition normalize_replacement (template : list N) : list N := normalize_chars false template.

Context {captures : Type} (captures_at : regex -> list byte -> nat -> option (nat * nat * captures)).
Context (expand : captures -> list byte -> list byte).

Definition expand_template (re : regex) (haystack : list byte) (start len : nat) (template : list N) : list N :=
  let escaped := interpret_escapes template in
  match captures_at re haystack start with
  | Some (m_start, m_end, caps) =>
      if (Nat.eqb m_start start && Nat.eqb (m_end - m_start) len)%bool
      then from_utf8_lossy (expand caps (encode_all (normalize_replacement escaped))) else escaped
  | None => escaped
  end.

Definition expand_replacement (re : regex) (start len : nat) (template : list N) (b : B) : res (B * (E + list N)) :=
  let from := (start - CONTEXT)%nat in
  count ← usub (start + len + CONTEXT)%nat from;
  '(b, r) ← src_read b from count;
  match r with
  | inl e => Ok (b, inl e)
  | inr bytes =>
      if (length bytes <? start - from)%nat then Panic
      else Ok (b, inr (expand_template re bytes (start - from)%nat len template))
  end.

(** ** Queries *)
Context {build_error : Type} (escape : list N -> list N).
Context (build : list N -> bool -> bool -> build_error + regex).

(** The pattern, whether to ignore case, whether [.] matches a newline. *)
Definition query_new (query : list N) (use_regex whole_word case_sensitive : bool) : build_error + SearchQuery :=
  let pattern := if use_regex then query else escape query in
  let pattern := if whole_word then [92; 98; 40; 63; 58] ++ pattern ++ [41; 92; 98] else pattern in
  match build pattern (negb case_sensitive) (use_regex && bool_decide (10 ∈ query)) with
  | inl e => inl e
  | inr re => inr (mkSearchQuery re (if use_regex then 4096 else length query * 4)%nat)
  end.
End search.
