(* ===== verification/BufferSearchInv.v ===== *)
(** * A search finds the matches of the text

    What is assumed of the regex engine, the matches of a text one after the other, and that
    a search in windows finds exactly these, with their lines. *)
From stdpp Require Import base numbers list option.
From Stdlib Require Import ssreflect Strings.Byte NArith ZArith.
From S2P Require Import Prelude TextSpec Utf8 LineDiff BufferSearch.

(** ** Parts of a text *)
Definition sub {A} (t : list A) (a b : nat) : list A := take (b - a) (drop a t).

Lemma length_sub {A} (t : list A) a b : a <= b -> b <= length t -> length (sub t a b) = b - a.
Proof. intros H1 H2. unfold sub. rw length_take length_drop. lia. Qed.

Lemma sub_app {A} (t : list A) a b c : a <= b -> b <= c -> sub t a b ++ sub t b c = sub t a c.
Proof.
  intros H1 H2. unfold sub. replace (c - a) with ((b - a) + (c - b)) by lia. rw -take_take_drop. f_equal.
  rw drop_drop. do 2 f_equal. lia.
Qed.

Lemma sub_sub {A} (t : list A) a b c d : a <= c -> d <= b -> sub (sub t a b) (c - a) (d - a) = sub t c d.
Proof.
  intros H1 H2. unfold sub. rw skipn_firstn_comm drop_drop take_take. replace (a + (c - a)) with c by lia.
  f_equal. lia.
Qed.

Lemma slice_sub {A} (t : list A) a b c d :
  a <= c -> c <= d -> d <= b -> b <= length t -> slice (sub t a b) (c - a) (d - a) = Ok (sub t c d).
Proof.
  intros H1 H2 H3 H4. rw slice_Ok; [lia|rw length_sub; lia|]. f_equal. by apply (sub_sub t a b c d).
Qed.

(** ** The engine *)
Section engine.
Context {regex : Type} (find_at : regex -> list byte -> nat -> option (nat * nat)).

(** A match that starts where the engine is asked for one. *)
Definition hit (re : regex) (t : list byte) (s e : nat) : Prop := find_at re t s = Some (s, e).

(** [find_at] gives the leftmost match at or after an offset, as the regex crate documents. *)
Record leftmost_engine (re : regex) : Prop := {
  eng_some t at_ s e : find_at re t at_ = Some (s, e) ->
    at_ <= s /\ s <= e /\ e <= length t /\ hit re t s e /\ forall q f, at_ <= q -> q < s -> ~ hit re t q f;
  eng_none t at_ : find_at re t at_ = None -> forall q f, at_ <= q -> ~ hit re t q f;
}.

(** What a search in windows relies on: a match is judged by the [CONTEXT] bytes around it,
    is at most [overlap] bytes long, and in a part of the text the matches before a match are
    seen too and end before it.  Searches for plain text are of this kind. *)
Record windowed_engine (re : regex) (overlap : nat) : Prop := {
  eng_left : leftmost_engine re;
  eng_local t a b s e : a <= s -> s <= e -> e <= b -> b <= length t -> (a = 0 \/ a + CONTEXT <= s) ->
    (b = length t \/ e + CONTEXT <= b) -> hit re (sub t a b) (s - a) (e - a) <-> hit re t s e;
  eng_bounded t s e : hit re t s e -> e <= s + overlap;
  eng_order t a b q f s e : a <= q -> (a = 0 \/ a + CONTEXT <= q) -> b <= length t -> q < s ->
    hit re t q f -> hit re (sub t a b) (s - a) (e - a) -> hit re (sub t a b) (q - a) (f - a);
  eng_mono t a b s e q f : a <= s -> s <= q -> b <= length t -> hit re (sub t a b) (s - a) (e - a) -> hit re t q f -> e <= f;
}.

(** ** The matches of a text

    As [find_iter] gives them, from an offset on: in order, none that overlaps the last, no
    empty match where the last one ended.  The search ends with the first match outside its
    range. *)
Section reference.
Context (re : regex) (t : list byte) (stop : nat) (to_end : bool).

Definition outside (s e : nat) : bool := (stop <? s) || (stop <? e) || (s =? stop) && negb to_end.

Fixpoint find_iter (fuel at_ : nat) (last : option nat) : list (nat * nat) :=
  match fuel with
  | 0 => []
  | S fuel =>
      if length t <? at_ then [] else
      match find_at re t at_ with
      | None => []
      | Some (s, e) =>
          if outside s e then []
          else if (s =? e) && bool_decide (last = Some s) then find_iter fuel (s + 1) last
          else (s, e - s) :: find_iter fuel (if s =? e then e + 1 else e) (Some e)
      end
  end.

Definition matches_from (at_ : nat) (last : option nat) : list (nat * nat) := find_iter (S (S (length t)) - at_) at_ last.

Context (Hre : leftmost_engine re).

Lemma find_iter_fuel n : forall at_ last, S (S (length t)) - at_ <= n -> find_iter n at_ last = matches_from at_ last.
Proof.
  unfold matches_from. induction n as [n IH] using lt_wf_ind. intros at_ last Hn.
  destruct (Nat.le_gt_cases at_ (length t)) as [Hat|Hat].
  - destruct n as [|n]; [lia|]. destruct (S (S (length t)) - at_) as [|m] eqn:Em; [lia|]. cbn [find_iter].
    rw (proj2 (Nat.ltb_ge _ _) Hat). destruct (find_at re t at_) as [[s e]|] eqn:Ef; [|done].
    apply (eng_some re Hre) in Ef as (H1 & H2 & H3 & _ & _). destruct (outside s e); [done|].
    assert (forall k l, at_ < k -> find_iter n k l = find_iter m k l) as Hk.
    { intros k l Hk. rw (IH n); [lia|lia|]. symmetry. apply IH; lia. }
    destruct ((s =? e) && bool_decide (last = Some s)); [apply Hk; lia|]. f_equal. apply Hk. destruct (Nat.eqb_spec s e); lia.
  - assert (forall k l, find_iter k at_ l = []) as Hnil; [|by rw !Hnil].
    intros [|k] l; [done|]. cbn [find_iter]. by rw (proj2 (Nat.ltb_lt _ _) Hat).
Qed.

Lemma matches_from_step at_ last :
  at_ <= length t ->
  matches_from at_ last
  = match find_at re t at_ with
    | None => []
    | Some (s, e) =>
        if outside s e then []
        else if (s =? e) && bool_decide (last = Some s) then matches_from (s + 1) last
        else (s, e - s) :: matches_from (if s =? e then e + 1 else e) (Some e)
    end.
Proof.
  intros Hat. unfold matches_from at 1. replace (S (S (length t)) - at_) with (S (S (length t) - at_)) by lia. cbn [find_iter].
  rw (proj2 (Nat.ltb_ge _ _) Hat). destruct (find_at re t at_) as [[s e]|] eqn:Ef; [|done].
  apply (eng_some re Hre) in Ef as (H1 & H2 & H3 & _ & _). destruct (outside s e); [done|].
  destruct ((s =? e) && bool_decide (last = Some s)); [apply find_iter_fuel; lia|]. f_equal. apply find_iter_fuel.
  destruct (Nat.eqb_spec s e); lia.
Qed.

Lemma matches_from_past at_ last : length t < at_ -> matches_from at_ last = [].
Proof.
  intros H. unfold matches_from. destruct (S (S (length t)) - at_); [done|]. cbn [find_iter]. by rw (proj2 (Nat.ltb_lt _ _) H).
Qed.

Lemma hit_bounds s e : hit re t s e -> s <= e /\ e <= length t.
Proof. intros (_ & H1 & H2 & _)%(eng_some re Hre). done. Qed.

Lemma find_at_first at_ s e :
  at_ <= s -> hit re t s e -> (forall q f, at_ <= q -> q < s -> ~ hit re t q f) -> find_at re t at_ = Some (s, e).
Proof.
  intros Hs Hhit Hno. destruct (find_at re t at_) as [[q f]|] eqn:Ef; [|by destruct (eng_none re Hre _ _ Ef s e Hs)].
  apply (eng_some re Hre) in Ef as (H1 & H2 & H3 & H4 & H5). destruct (Nat.lt_trichotomy q s) as [Hq|[->|Hq]].
  - by destruct (Hno q f H1 Hq).
  - unfold hit in *. congruence.
  - by destruct (H5 s e Hs Hq).
Qed.

Lemma matches_from_none at_ last :
  (forall q f, at_ <= q -> hit re t q f -> outside q f = true) -> matches_from at_ last = [].
Proof.
  intros H. destruct (Nat.le_gt_cases at_ (length t)) as [Hat|Hat]; [|by apply matches_from_past].
  rw matches_from_step //. destruct (find_at re t at_) as [[s e]|] eqn:Ef; [|done].
  apply (eng_some re Hre) in Ef as (H1 & _ & _ & H4 & _). by rw (H s e H1 H4).
Qed.

(** An empty match where the last one ended is passed over. *)
Definition skipped (last : option nat) (s e : nat) : Prop := s = e /\ last = Some s.

Lemma outside_later s e q f : outside s e = true -> s = e -> s < q -> outside q f = true.
Proof.
  unfold outside. intros H -> Hlt. destruct (Nat.ltb_spec stop q) as [|Hq]; [done|].
  rw !orb_true_iff andb_true_iff Nat.eqb_eq Nat.ltb_lt in H. lia.
Qed.

Lemma matches_from_skip p q last :
  p <= q -> (forall s e, p <= s -> s < q -> hit re t s e -> skipped last s e) -> matches_from p last = matches_from q last.
Proof.
  remember (q - p) as n eqn:En. revert p En. induction n as [n IH] using lt_wf_ind. intros p En Hpq Hskip.
  destruct (Nat.le_gt_cases p (length t)) as [Hp|Hp]; [|rw !matches_from_past //; lia].
  rw matches_from_step //. destruct (find_at re t p) as [[s e]|] eqn:Ef.
  - pose proof (eng_some re Hre _ _ _ _ Ef) as (H1 & H2 & H3 & H4 & H5). destruct (Nat.lt_ge_cases s q) as [Hs|Hs].
    + destruct (Hskip s e H1 Hs H4) as [<- Hl]. destruct (outside s s) eqn:Ho.
      * symmetry. apply matches_from_none. intros q' f Hq' _. apply (outside_later s s); [done|done|lia].
      * rw Nat.eqb_refl bool_decide_eq_true_2 //. cbn [andb]. apply (IH (q - (s + 1))); [lia|done|lia|].
        intros s' e' Hs' Hlt. apply Hskip; [lia|done].
    + assert (find_at re t q = Some (s, e)) as Eq by (apply find_at_first; [done|done|intros ? ? ? ?; apply H5; lia]).
      rw (matches_from_step q); [lia|]. by rw Eq.
  - symmetry. apply matches_from_none. intros s e Hs Hh. destruct (eng_none re Hre _ _ Ef s e); [lia|done].
Qed.
End reference.
End engine.

(** ** Lines *)
Lemma count_breaks_app a b : forall pos line start,
  count_breaks (a ++ b) pos line start
  = let '(line, start) := count_breaks a pos line start in count_breaks b (pos + length a) line start.
Proof.
  induction a as [|x a IH]; intros pos line start; [cbn; by rw Nat.add_0_r|]. cbn [app count_breaks length].
  destruct (is_nl x); rw IH; destruct (count_breaks a _ _ _); f_equal; lia.
Qed.

Lemma count_breaks_spec a : forall pos line start,
  start <= pos ->
  let '(line', start') := count_breaks a pos line start in
  line' = line + count_newlines a /\ start <= start' /\ start' <= pos + length a
  /\ (start' = start /\ count_newlines a = 0 \/ pos < start' /\ count_newlines (drop (start' - pos) a) = 0
      /\ exists b, a !! (start' - pos - 1) = Some b /\ is_nl b = true).
Proof.
  induction a as [|x a IH]; intros pos line start Hs; [cbn; split_and!; try lia; by left|]. cbn [count_breaks length].
  rw count_newlines_cons. destruct (is_nl x) eqn:Ex.
  - specialize (IH (S pos) (S line) (S pos) ltac:(lia)). destruct (count_breaks a _ _ _) as [l s]. destruct IH as (H1 & H2 & H3 & H4).
    split_and!; [lia|lia|lia|]. right. destruct H4 as [[-> H4]|(H4 & H5 & b & H6 & H7)].
    + split; [lia|]. replace (S pos - pos) with 1 by lia. split; [exact H4|]. by exists x.
    + split; [lia|]. replace (s - pos) with (S (s - S pos)) by lia. split; [exact H5|]. exists b. split; [|done].
      replace (S (s - S pos) - 1) with (S (s - S pos - 1)) by lia. exact H6.
  - specialize (IH (S pos) line start ltac:(lia)). destruct (count_breaks a _ _ _) as [l s]. destruct IH as (H1 & H2 & H3 & H4).
    split_and!; [lia|lia|lia|]. destruct H4 as [[-> H4]|(H4 & H5 & b & H6 & H7)]; [by left|]. right. split; [lia|].
    replace (s - pos) with (S (s - S pos)) by lia. split; [exact H5|]. exists b. split; [|done].
    replace (S (s - S pos) - 1) with (S (s - S pos - 1)) by lia. exact H6.
Qed.

Lemma find_newline_spec l :
  match find_newline l with
  | Some p => p < length l /\ count_newlines (take p l) = 0
  | None => count_newlines l = 0
  end.
Proof.
  induction l as [|b l IH]; [done|]. cbn [find_newline]. destruct (is_nl b) eqn:Eb; [cbn; split; [lia|done]|].
  destruct (find_newline l) as [p|]; cbn [fmap option_fmap option_map length take]; [|by rw count_newlines_cons Eb].
  destruct IH as [H1 H2]. split; [lia|]. by rw count_newlines_cons Eb.
Qed.

Lemma skip_continuation_le bytes count : forall from, from <= skip_continuation bytes from count <= from + count.
Proof.
  induction count as [|n IH]; intros from; cbn [skip_continuation]; [lia|]. destruct (is_continuation _); [|lia].
  specialize (IH (S from)). lia.
Qed.

Lemma back_continuation_le bytes end_ n : end_ <= back_continuation bytes end_ n <= end_ + n.
Proof. induction n as [|n IH]; cbn [back_continuation]; [lia|]. destruct (is_continuation _); lia. Qed.

Section lines.
Context (t : list byte) (origin first : nat).

(** The line number and the start of the line at an offset. *)
Definition lines_at (k : nat) : nat * nat := count_breaks (sub t origin k) origin first origin.

Lemma lines_at_extend k m :
  origin <= k -> k <= m -> m <= length t -> count_breaks (sub t k m) k (lines_at k).1 (lines_at k).2 = lines_at m.
Proof.
  intros H1 H2 H3. unfold lines_at at 3. rw -(sub_app t origin k m) // count_breaks_app. fold (lines_at k).
  destruct (lines_at k) as [line start]. rw length_sub; [lia|lia|]. cbn [fst snd]. f_equal. lia.
Qed.

Lemma lines_at_start k :
  origin <= k -> k <= length t -> origin <= (lines_at k).2 /\ (lines_at k).2 <= k /\ count_newlines (sub t (lines_at k).2 k) = 0.
Proof.
  intros H1 H2. pose proof (count_breaks_spec (sub t origin k) origin first origin ltac:(lia)) as H. fold (lines_at k) in H.
  destruct (lines_at k) as [line start]. cbn [snd]. destruct H as (_ & H3 & H4 & H5). rw length_sub // in H4. split_and!; [done|lia|].
  destruct H5 as [[-> H5]|(_ & H5 & _)]; [done|]. rw -(sub_sub t origin k start k) //.
  unfold sub at 1. rw take_ge; [rw length_drop length_sub; lia|]. exact H5.
Qed.

(** What a counter holds. *)
Definition counted (l : Lines) : Prop :=
  origin <= counted_to l /\ counted_to l <= length t /\ (ln_line l, ln_start l) = lines_at (counted_to l).

Definition lines_ok (s : RegexSearch) : Prop :=
  forall l, rs_lines s = Some l -> counted l /\ counted_to l <= rs_pos s /\ rs_pos s <= S (counted_to l).

Definition counter_at (k : nat) : Lines := mkLines (lines_at k).1 (lines_at k).2 k.

(** The counter moved on to [k]. *)
Definition advance (s : RegexSearch) (k : nat) : RegexSearch :=
  match rs_lines s with
  | None => s
  | Some l => if k <=? counted_to l then s else set_lines s (Some (counter_at k))
  end.

Lemma search_count_lines_ok s a b to :
  (forall l, rs_lines s = Some l -> counted l /\ a <= counted_to l) -> to <= b -> b <= length t ->
  count_lines s (sub t a b) a to = Ok (advance s to).
Proof.
  intros Hl Hto Hb. unfold count_lines, advance. destruct (rs_lines s) as [l|] eqn:El; [|done].
  destruct (Hl l eq_refl) as [(H1 & H2 & H3) Ha]. destruct (Nat.leb_spec to (counted_to l)) as [|Hlt]; [done|].
  rw (usub_Ok (counted_to l) a); [done|]. rw (usub_Ok to a); [lia|]. cbn [mbind res_bind]. rw slice_sub; [done|lia|done|done|]. cbn [mbind res_bind].
  pose proof (lines_at_extend (counted_to l) to H1 ltac:(lia) ltac:(lia)) as H. rw -H3 in H. cbn [fst snd] in H. rw H.
  unfold counter_at. by destruct (lines_at to).
Qed.

Lemma counter_counted k : origin <= k -> k <= length t -> counted (counter_at k).
Proof. intros H1 H2. split_and!; [done|done|]. cbn [counter_at ln_line ln_start counted_to]. symmetry. apply surjective_pairing. Qed.

(** A match with its line, column and the text around it on its line. *)
Record located (m : SearchMatch) : Prop := {
  loc_line : match_line m = (lines_at (byte_offset m)).1;
  loc_column : match_column m = byte_offset m - (lines_at (byte_offset m)).2 + 1;
  loc_context : exists from to, from + context_offset m = byte_offset m /\ (lines_at (byte_offset m)).2 <= from
    /\ byte_offset m <= to /\ to <= length t /\ count_newlines (sub t from to) = 0
    /\ match_context m = from_utf8_lossy (strip_suffix x0d (sub t from to));
}.

Lemma count_newlines_sub_le a b c d :
  a <= c -> c <= d -> d <= b -> b <= length t -> count_newlines (sub t a b) = 0 -> count_newlines (sub t c d) = 0.
Proof.
  intros H1 H2 H3 H4. rw -(sub_app t a c b) //; [lia|]. rw -(sub_app t c d b) // !count_newlines_app. lia.
Qed.

Lemma match_at_ok s a b start e :
  (forall l, rs_lines s = Some l -> counted l /\ a <= counted_to l /\ counted_to l <= start) ->
  a <= start -> start <= e -> e <= b -> b <= length t ->
  exists m, match_at s (sub t a b) a start e = Ok (advance s start, m)
    /\ byte_offset m = start /\ match_length m = e - start /\ (rs_lines s <> None -> located m).
Proof.
  intros Hl Ha Hse He Hb.
  assert (forall c d, a <= c -> c - a <= d -> d <= b - a -> slice (sub t a b) (c - a) d = Ok (sub t c (a + d))) as slice_rel.
  { intros c d H1 H2 H3. replace d with ((a + d) - a) at 1 by lia. apply slice_sub; lia. }
  unfold match_at. rw (usub_Ok e start); [done|]. cbn [mbind res_bind].
  rw search_count_lines_ok //; [intros l El; by destruct (Hl l El) as (? & ? & ?)|lia|]. cbn [mbind res_bind].
  unfold advance. destruct (rs_lines s) as [l|] eqn:El.
  2: { rw El. eexists. split; [done|]. split_and!; [done|done|]. intros H. by destruct H. }
  destruct (Hl l eq_refl) as ((O1 & O2 & O3) & Ha' & Hc).
  set (s' := if start <=? counted_to l then s else _). set (cs := counter_at start).
  assert (exists l', rs_lines s' = Some l' /\ ln_line l' = (lines_at start).1 /\ ln_start l' = (lines_at start).2) as (l' & -> & L1 & L2).
  { unfold s'. destruct (Nat.leb_spec start (counted_to l)) as [Hle|]; [|by exists cs]. exists l. split; [done|].
    replace (counted_to l) with start in O3 by lia. by rw -O3. }
  destruct (lines_at_start start ltac:(lia) ltac:(lia)) as (B1 & B2 & B3). rw L2. set (ls := (lines_at start).2) in *.
  rw (usub_Ok start ls); [done|]. rw (usub_Ok start a); [done|]. rw (usub_Ok e a); [lia|]. cbn [mbind res_bind]. cbv zeta. rw length_sub; [lia|lia|].
  set (from0 := Nat.max _ _). assert (from0 <= start - a /\ ls <= a + from0) as [F1 F2] by (unfold from0; lia).
  pose proof (skip_continuation_le (sub t a b) (start - a - from0) from0) as F3.
  set (from := skip_continuation _ _ _) in *. set (limit := Nat.min (b - a) _).
  assert (start - a <= limit /\ limit <= b - a) as [K1 K2] by (unfold limit; lia).
  rw (slice_rel start limit); [lia..|]. cbn [mbind res_bind].
  pose proof (find_newline_spec (sub t start (a + limit))) as Hn. rw length_sub in Hn; [lia|lia|].
  set (to0 := match find_newline (sub t start (a + limit)) with Some p => start - a + p | None => limit end).
  assert (start - a <= to0 /\ to0 <= limit /\ count_newlines (sub t start (a + to0)) = 0) as (T1 & T2 & T3).
  { unfold to0. destruct (find_newline _) as [p|]; [|split_and!; [lia|lia|exact Hn]]. destruct Hn as [N1 N2]. split_and!; [lia|lia|].
    replace (sub t start (a + (start - a + p))) with (take p (sub t start (a + limit))); [done|].
    unfold sub. rw take_take. f_equal. lia. }
  set (to := if e - a <? to0 then _ else to0).
  assert (start - a <= to /\ to <= to0) as [T4 T5].
  { unfold to. destruct (Nat.ltb_spec (e - a) to0); [|lia]. pose proof (back_continuation_le (sub t a b) (e - a) (to0 - (e - a))). lia. }
  replace from with ((a + from) - a) by lia. rw (slice_rel (a + from) to); [lia..|]. replace ((a + from) - a) with from by lia.
  cbn [mbind res_bind]. rw usub_Ok; [lia|]. cbn [mbind res_bind].
  eexists. split; [done|]. split_and!; [done|done|]. intros _. split; cbn [byte_offset match_line match_column match_context context_offset]; fold ls; [by rw L1|done|].
  exists (a + from), (a + to). split_and!; [lia|lia|lia|lia| |done].
  rw -(sub_app t (a + from) start (a + to)); [lia|lia|]. rw count_newlines_app.
  pose proof (count_newlines_sub_le ls start (a + from) start ltac:(lia) ltac:(lia) ltac:(lia) ltac:(lia) B3).
  pose proof (count_newlines_sub_le start (a + to0) start (a + to) ltac:(lia) ltac:(lia) ltac:(lia) ltac:(lia) T3). lia.
Qed.
End lines.
