(* ===== verification/BufferSearchLoop.v ===== *)
(** * The loop over windows, and searches of a buffer *)
From stdpp Require Import base numbers list option.
From Stdlib Require Import ssreflect Strings.Byte NArith ZArith.
From S2P Require Import Prelude TextSpec Utf8 LineDiff BufferSearch BufferSearchInv.

(** ** Runs of a search

    The scan of a window, the loop over windows, and the searches of a buffer: they find the
    matches of the text, whatever the windows and time slices. *)
(** The parts of a search that no step changes. *)
Definition same_search (s s' : RegexSearch) : Prop :=
  rs_version s' = rs_version s /\ rs_end s' = rs_end s /\ to_buffer_end s' = to_buffer_end s
  /\ rs_overlap s' = rs_overlap s /\ base_window s' = base_window s /\ (rs_lines s' = None <-> rs_lines s = None).

#[export] Instance same_search_preorder : PreOrder same_search.
Proof.
  split; [intros s; unfold same_search; tauto|]. intros s1 s2 s3 (? & ? & ? & ? & ? & ?) (? & ? & ? & ? & ? & ?).
  split_and!; try congruence. tauto.
Qed.

Section scan.
Context {regex : Type} (find_at : regex -> list byte -> nat -> option (nat * nat)).
Context (usize_max : nat) (re : regex) (overlap : nat) (Hre : windowed_engine find_at re overlap).
Context (t : list byte) (origin first : nat) (stop : nat) (to_end : bool).
Local Abbreviation hit := (hit find_at re).
Local Abbreviation matches_from := (matches_from find_at re t stop to_end).
Local Abbreviation outside := (outside stop to_end).
Local Abbreviation lines_ok := (lines_ok t origin first).
Local Abbreviation located := (located t origin first).
Local Abbreviation advance := (advance t origin first).

(** What is still to be found. *)
Definition remaining (s : RegexSearch) : list (nat * nat) := matches_from (rs_pos s) (last_end s).

Lemma advance_same s k : same_search s (advance s k) /\ rs_pos (advance s k) = rs_pos s /\ last_end (advance s k) = last_end s
  /\ rs_window (advance s k) = rs_window s /\ rs_done (advance s k) = rs_done s.
Proof.
  unfold BufferSearchInv.advance. destruct (rs_lines s) as [l|] eqn:El; [|by split_and!].
  destruct (k <=? counted_to l); [by split_and!|]. unfold same_search. cbn. rw El. split_and!; try done; by split.
Qed.

Lemma advance_lines s k :
  k <= length t -> (forall l, rs_lines s = Some l -> counted t origin first l /\ counted_to l <= k) ->
  forall l, rs_lines (advance s k) = Some l -> counted t origin first l /\ counted_to l = k.
Proof.
  intros Hk Hl l. unfold BufferSearchInv.advance. destruct (rs_lines s) as [l0|] eqn:El; [|by rw El].
  destruct (Hl l0 eq_refl) as [Hc Hle]. destruct (Nat.leb_spec k (counted_to l0)) as [H|H].
  - rw El. intros [= <-]. split; [done|lia].
  - cbn [set_lines rs_lines]. intros [= <-]. split; [|done]. apply counter_counted; [|done]. destruct Hc as [Hc _]. lia.
Qed.

(** ** The scan of a window *)
Record window_ok (w : Window) (pos : nat) : Prop := {
  wo_bytes : w_bytes w = sub t (w_from w) (w_to w);
  wo_from : w_from w <= pos;
  wo_context : w_from w = 0 \/ w_from w + CONTEXT <= pos;
  wo_to : w_to w <= length t;
  wo_stop : stop <= length t;
  wo_end : w_end w <= stop;
  wo_limit : w_limit w = Nat.min (w_end w + CONTEXT) (length t);
  wo_seen : w_limit w <= w_to w;
}.

Lemma window_later w pos pos' : window_ok w pos -> pos <= pos' -> window_ok w pos'.
Proof. intros [H1 H2 H3 H4 H5 H6 H7 H8] Hp. split; try done; lia. Qed.

(** Matches that end where the window sees their context are matches of the text. *)
Lemma window_local w pos s e :
  window_ok w pos -> pos <= s -> s <= e -> e <= w_to w -> w_to w = length t \/ e + CONTEXT <= w_to w ->
  hit (w_bytes w) (s - w_from w) (e - w_from w) <-> hit t s e.
Proof.
  intros [H1 H2 H3 H4 H5 H6 H7 H8] Hs Hse He Hv. rw H1. apply (eng_local _ _ _ Hre); try done; [lia|]. lia.
Qed.

(** The leftmost match in a window: no match of the text starts before it. *)
Record first_seen (w : Window) (at_ s e : nat) : Prop := {
  fs_at : at_ <= s;
  fs_end : s <= e;
  fs_to : e <= w_to w;
  fs_hit : hit (w_bytes w) (s - w_from w) (e - w_from w);
  fs_first q f : at_ <= q -> q < s -> ~ hit t q f;
}.

Lemma window_length w pos : window_ok w pos -> w_from w <= w_to w -> length (w_bytes w) = w_to w - w_from w.
Proof. intros [H1 H2 H3 H4 H5 H6 H7 H8] H. rw H1 length_sub //. Qed.

Lemma window_find w pos at_ :
  window_ok w pos -> pos <= at_ -> at_ <= w_to w ->
  match find_at re (w_bytes w) (at_ - w_from w) with
  | Some (ms, me) => first_seen w at_ (w_from w + ms) (w_from w + me)
  | None => forall q f, at_ <= q -> hit t q f -> w_to w < length t /\ w_to w < f + CONTEXT
  end.
Proof.
  intros Hw Hp Hat. pose proof (wo_from _ _ Hw) as Hf. pose proof (eng_left _ _ _ Hre) as HL.
  pose proof (window_length w pos Hw ltac:(lia)) as Hlen. destruct (find_at re _ _) as [[ms me]|] eqn:Ef.
  - apply (eng_some _ _ HL) in Ef as (H1 & H2 & H3 & H4 & H5). rw Hlen in H3. split; try lia.
    + by replace (w_from w + ms - w_from w) with ms by lia; replace (w_from w + me - w_from w) with me by lia.
    + intros q f Hq Hlt Hhit. apply (H5 (q - w_from w) (f - w_from w)); [lia|lia|].
      rw (wo_bytes _ _ Hw). rw (wo_bytes _ _ Hw) in H4. pose proof (wo_context _ _ Hw) as Hc. pose proof (wo_to _ _ Hw).
      apply (eng_order _ _ _ Hre t _ _ q f (w_from w + ms) (w_from w + me)); try lia; [done|].
      by replace (w_from w + ms - w_from w) with ms by lia; replace (w_from w + me - w_from w) with me by lia.
  - intros q f Hq Hhit. pose proof (hit_bounds find_at re t HL q f Hhit) as [B1 B2]. pose proof (wo_to _ _ Hw) as Ht.
    destruct (decide (w_to w < length t /\ w_to w < f + CONTEXT)) as [|Hn]; [done|]. exfalso.
    apply (eng_none _ _ HL _ _ Ef (q - w_from w) (f - w_from w)); [lia|].
    apply (window_local w pos); try done; [lia| |].
    + unfold CONTEXT in Hn. lia.
    + lia.
Qed.

Lemma outside_mono s e q f : s <= q -> e <= f -> outside s e = true -> outside q f = true.
Proof.
  unfold BufferSearchInv.outside. rw !orb_true_iff !andb_true_iff !Nat.eqb_eq !Nat.ltb_lt negb_true_iff. intros H1 H2 [[H|H]|[H Ht]].
  - left. left. lia.
  - left. right. lia.
  - destruct (Nat.eq_dec q stop); [by right|left; left; lia].
Qed.

(** A match outside the range ends the search. *)
Lemma first_outside w pos at_ s e last :
  window_ok w pos -> pos <= at_ -> first_seen w at_ s e -> outside s e = true -> matches_from at_ last = [].
Proof.
  intros Hw Hp [H1 H2 H3 H4 H5] Ho. apply matches_from_none; [apply (eng_left _ _ _ Hre)|]. intros q f Hq Hhit.
  destruct (Nat.lt_ge_cases q s) as [Hlt|Hge]; [by destruct (H5 q f Hq Hlt)|].
  apply (outside_mono s e); [done| |done]. pose proof (wo_from _ _ Hw). rw (wo_bytes _ _ Hw) in H4.
  apply (eng_mono _ _ _ Hre t (w_from w) (w_to w) s e q f); try done; [lia|apply (wo_to _ _ Hw)].
Qed.

(** A match that is seen with its context is the next match of the text. *)
Lemma first_taken w pos at_ s e :
  window_ok w pos -> pos <= at_ -> first_seen w at_ s e -> outside s e = false ->
  (w_end w <? stop) && (w_limit w <? e + CONTEXT) = false -> find_at re t at_ = Some (s, e) /\ hit t s e.
Proof.
  intros Hw Hp [H1 H2 H3 H4 H5] Ho Hl.
  assert (hit t s e) as Hhit.
  { apply (window_local w pos); try done; [lia|]. unfold BufferSearchInv.outside in Ho.
    rw !orb_false_iff !Nat.ltb_ge in Ho. destruct Ho as [[Ho1 Ho2] _]. rw andb_false_iff !Nat.ltb_ge in Hl.
    pose proof (wo_limit _ _ Hw). pose proof (wo_seen _ _ Hw). pose proof (wo_to _ _ Hw). pose proof (wo_end _ _ Hw). lia. }
  split; [|done]. apply find_at_first; [apply (eng_left _ _ _ Hre)|done..].
Qed.

(** What a scan leaves. *)
Definition scan_result (w : Window) (limit : nat) (s : RegexSearch) (found : list SearchMatch)
    (s' : RegexSearch) (found' : list SearchMatch) (exit : scan_exit) : Prop :=
  exists new, found' = found ++ new /\ (rs_lines s <> None -> Forall located new) /\ same_search s s' /\ lines_ok s'
    /\ rs_pos s <= rs_pos s' /\ rs_pos s' <= S stop
    /\ match exit with
       | Finished => rs_done s' = true /\ remaining s = spans new /\ rs_window s' = rs_window s
       | LimitReached => rs_done s' = rs_done s /\ remaining s = spans new ++ remaining s' /\ limit <= length found' /\ rs_window s' = rs_window s
       | Reread =>
           rs_done s' = rs_done s /\ remaining s = spans new ++ remaining s' /\ w_end w < stop
           /\ (rs_window s' = rs_window s /\ rs_pos s < rs_pos s' \/ rs_window s' = Nat.min (rs_window s * 2) usize_max)
       | WindowDone =>
           rs_done s' = rs_done s /\ remaining s = spans new ++ remaining s' /\ rs_window s' = rs_window s
           /\ (w_end w < stop -> rs_pos s' <= w_to w)
           /\ forall q f, rs_pos s' <= q -> hit t q f -> skipped (last_end s') q f \/ w_to w < length t /\ w_to w < f + CONTEXT
       end.

Lemma scan_more w limit s s1 found m s' found' exit :
  scan_result w limit s1 (found ++ [m]) s' found' exit -> same_search s s1 -> rs_pos s <= rs_pos s1 ->
  rs_window s1 = rs_window s -> rs_done s1 = rs_done s -> (rs_lines s <> None -> located m) ->
  remaining s = (byte_offset m, match_length m) :: remaining s1 ->
  scan_result w limit s found s' found' exit.
Proof.
  intros (new & -> & H1 & H2 & H3 & H4 & H4' & H5) Hs Hp Hw Hd Hm Hr.
  exists (m :: new). split_and!; [by rw -app_assoc| |exact (transitivity Hs H2)|done|lia|done|].
  - intros Hl. constructor; [auto|]. apply H1. intros Hn. apply Hl. apply Hs, Hn.
  - rw Hr -Hd -Hw. destruct exit.
    + destruct H5 as (D1 & D2 & D3). by rw D2.
    + destruct H5 as (D1 & D2 & D3 & D4). rw D2. split_and!; try done. destruct D4 as [[D4 D5]|D4]; [left; split; [done|lia]|by right].
    + destruct H5 as (D1 & D2 & D3). by rw D2.
    + destruct H5 as (D1 & D2 & D3 & D4). by rw D2.
Qed.

(** The state of a scan: the matches before [at_] are done with. *)
Record scanning (w : Window) (s : RegexSearch) (at_ : nat) : Prop := {
  sc_window : window_ok w (rs_pos s);
  sc_lines : lines_ok s;
  sc_counted l : rs_lines s = Some l -> w_from w <= counted_to l;
  sc_end : to_buffer_end s = to_end;
  sc_pos : rs_pos s <= at_;
  sc_stop : rs_pos s <= S stop;
  sc_at : at_ <= S (w_to w);
  sc_seen : w_end w < stop -> rs_pos s <= w_to w;
  sc_skip q f : rs_pos s <= q -> q < at_ -> hit t q f -> skipped (last_end s) q f;
}.

Lemma scan_remaining w s at_ : scanning w s at_ -> remaining s = matches_from at_ (last_end s).
Proof. intros Hs. apply matches_from_skip; [apply (eng_left _ _ _ Hre)|apply Hs..]. Qed.

Lemma scan_done w limit s found at_ :
  scanning w s at_ -> (forall q f, at_ <= q -> hit t q f -> w_to w < length t /\ w_to w < f + CONTEXT) ->
  scan_result w limit s found s found WindowDone.
Proof.
  intros Hs Hun. exists []. split_and!; [by rw app_nil_r|done|reflexivity|apply Hs|done|apply Hs|done|done|done|apply Hs|].
  intros q f Hq Hhit. destruct (Nat.lt_ge_cases q at_) as [Hlt|Hge]; [left; by apply (sc_skip _ _ _ Hs)|right; by apply (Hun q)].
Qed.

Lemma scan_past w limit s found at_ : scanning w s at_ -> w_to w < at_ -> scan_result w limit s found s found WindowDone.
Proof.
  intros Hs Hlt. apply (scan_done w limit s found at_); [done|]. intros q f Hq Hhit.
  apply (hit_bounds _ _ _ (eng_left _ _ _ Hre)) in Hhit as [? ?]. lia.
Qed.

Lemma scan_reread w limit s found at_ start e :
  scanning w s at_ -> first_seen w at_ start e -> outside start e = false -> w_end w < stop ->
  exists s', (s1 ← count_lines (if start =? rs_pos s then grow usize_max s else s) (w_bytes w) (w_from w) start; Ok (set_pos s1 start, found, Reread))
    = Ok (s', found, Reread) /\ scan_result w limit s found s' found Reread.
Proof.
  intros Hs Hf Ho He. set (s1 := if start =? rs_pos s then _ else s). pose proof (sc_window _ _ _ Hs) as Hw.
  pose proof (fs_at _ _ _ _ Hf) as Hat. pose proof (fs_to _ _ _ _ Hf) as Hto. pose proof (fs_end _ _ _ _ Hf) as Hse. pose proof (sc_pos _ _ _ Hs) as Hp.
  pose proof (wo_to _ _ Hw) as Htl.
  assert (rs_lines s1 = rs_lines s /\ rs_pos s1 = rs_pos s /\ last_end s1 = last_end s /\ rs_done s1 = rs_done s /\ same_search s s1) as (L1 & L2 & L3 & L4 & L5).
  { unfold s1. by case_match. }
  assert (forall l, rs_lines s1 = Some l -> counted t origin first l /\ counted_to l <= start) as Hc.
  { intros l El. rw L1 in El. destruct (sc_lines _ _ _ Hs l El) as (? & ? & ?). split; [done|lia]. }
  rw (wo_bytes _ _ Hw). rw (search_count_lines_ok t origin first); [|lia|done|].
  { intros l El. split; [by apply Hc|]. apply (sc_counted _ _ _ Hs). by rw -L1. }
  cbn [mbind res_bind]. eexists. split; [done|]. destruct (advance_same s1 start) as (A1 & A2 & A3 & A4 & A5).
  assert (start <= stop) as Hss.
  { unfold BufferSearchInv.outside in Ho. rw !orb_false_iff !Nat.ltb_ge in Ho. lia. }
  exists []. split_and!; [by rw app_nil_r|done|exact (transitivity L5 A1)| |cbn; lia|cbn; lia|by cbn; rw A5| |done|].
  - intros l El. destruct (advance_lines s1 start ltac:(lia) Hc l El) as [C1 C2]. split; [done|]. cbn. lia.
  - rw (scan_remaining w s at_) //. cbn [app spans fmap list_fmap]. unfold remaining. cbn [set_pos rs_pos last_end]. rw A3 L3.
    apply matches_from_skip; [apply (eng_left _ _ _ Hre)|done|]. intros q f H1 H2 H3. by destruct (fs_first _ _ _ _ Hf q f H1 H2).
  - cbn [set_pos rs_window rs_pos]. rw A4. unfold s1. destruct (Nat.eqb_spec start (rs_pos s)); [by right|left; split; [done|lia]].
Qed.

(** A match is taken. *)
Lemma scan_take w s at_ start e :
  scanning w s at_ -> first_seen w at_ start e -> outside start e = false ->
  (w_end w <? stop) && (w_limit w <? e + CONTEXT) = false -> ((start =? e) && bool_decide (last_end s = Some start)) = false ->
  let at' := if start =? e then e + 1 else e in
  exists s1 m, match_at s (w_bytes w) (w_from w) start e = Ok (s1, m)
    /\ exists s2, count_lines (set_last_end s1 e) (w_bytes w) (w_from w) (Nat.min at' (w_to w)) = Ok s2
    /\ scanning w (set_pos s2 at') at' /\ at_ < at' /\ same_search s (set_pos s2 at') /\ rs_window s2 = rs_window s /\ rs_done s2 = rs_done s
    /\ (rs_lines s <> None -> located m) /\ remaining s = (byte_offset m, match_length m) :: remaining (set_pos s2 at').
Proof.
  intros Hs Hf Ho Hlim Hemp at'. pose proof (sc_window _ _ _ Hs) as Hw.
  destruct (first_taken w (rs_pos s) at_ start e Hw (sc_pos _ _ _ Hs) Hf Ho Hlim) as [Hfind Hhit].
  pose proof (fs_at _ _ _ _ Hf) as Hat. pose proof (fs_to _ _ _ _ Hf) as Hto. pose proof (fs_end _ _ _ _ Hf) as Hse. pose proof (sc_pos _ _ _ Hs) as Hp.
  pose proof (wo_to _ _ Hw) as Htl. pose proof (wo_from _ _ Hw) as Hfr. rw (wo_bytes _ _ Hw).
  assert (start < at' \/ start = e) as Hat' by (unfold at'; destruct (Nat.eqb_spec start e); lia).
  assert (e <= at' /\ at' <= S e /\ start < at') as (At1 & At2 & At3) by (unfold at'; destruct (Nat.eqb_spec start e); lia).
  assert (e <= stop) as Hes. { unfold BufferSearchInv.outside in Ho. rw !orb_false_iff !Nat.ltb_ge in Ho. lia. }
  assert (forall l, rs_lines s = Some l -> counted t origin first l /\ w_from w <= counted_to l /\ counted_to l <= start) as Hc.
  { intros l El. destruct (sc_lines _ _ _ Hs l El) as (? & ? & ?). split_and!; [done|by apply (sc_counted _ _ _ Hs)|lia]. }
  destruct (match_at_ok t origin first s (w_from w) (w_to w) start e Hc ltac:(lia) Hse Hto Htl) as (m & Em & M1 & M2 & M3).
  exists (advance s start), m. split; [done|]. destruct (advance_same s start) as (A1 & A2 & A3 & A4 & A5).
  pose proof (advance_lines s start ltac:(lia) ltac:(intros l El; destruct (Hc l El) as (? & ? & ?); done)) as Hc1.
  set (s1 := set_last_end (advance s start) e). set (k := Nat.min at' (w_to w)).
  assert (forall l, rs_lines s1 = Some l -> counted t origin first l /\ counted_to l <= k) as Hc2.
  { intros l El. destruct (Hc1 l El) as [? ?]. split; [done|unfold k; lia]. }
  exists (advance s1 k). split.
  { apply (search_count_lines_ok t origin first); [|unfold k; lia|done]. intros l El. destruct (Hc1 l El) as [? ?]. split; [done|lia]. }
  destruct (advance_same s1 k) as (B1 & B2 & B3 & B4 & B5). pose proof (advance_lines s1 k ltac:(unfold k; lia) Hc2) as Hc3.
  split_and!; [|lia|exact (transitivity (y := s1) A1 B1)|by rw B4|by rw B5|done|].
  - split; cbn [set_pos rs_pos last_end rs_lines to_buffer_end]; [apply (window_later w (rs_pos s)); [done|lia]| | | |done|lia|lia| |intros; lia].
    + intros l El. destruct (Hc3 l El) as [? E]. split; [done|]. cbn [set_pos rs_pos]. rw E. unfold k. lia.
    + intros l El. destruct (Hc3 l El) as [? E]. rw E. unfold k. lia.
    + destruct B1 as (_ & _ & -> & _). change (to_buffer_end s1) with (to_buffer_end (advance s start)).
      destruct A1 as (_ & _ & -> & _). apply (sc_end _ _ _ Hs).
    + intros He. rw (proj2 (Nat.ltb_lt _ _) He) in Hlim. cbn [andb] in Hlim. apply Nat.ltb_ge in Hlim.
      pose proof (wo_seen _ _ Hw). unfold CONTEXT in Hlim. lia.
  - rw (scan_remaining w s at_) // (matches_from_step find_at re t stop to_end (eng_left _ _ _ Hre)); [lia|].
    rw Hfind Ho Hemp M1 M2. unfold remaining. cbn [set_pos rs_pos last_end]. by rw B3.
Qed.

Lemma scan_window_ok fuel w limit : forall s found at_,
  scanning w s at_ -> S (w_to w) - at_ <= fuel ->
  exists s' found' exit, scan_window find_at usize_max fuel re w stop limit s found at_ = Ok (s', found', exit)
    /\ scan_result w limit s found s' found' exit.
Proof.
  induction fuel as [|fuel IH]; intros s found at_ Hs Hfuel; pose proof (sc_at _ _ _ Hs) as Hat; cbn [scan_window];
    destruct (Nat.ltb_spec (w_to w) at_) as [Hout|Hin]; try lia;
    try (eexists _, _, _; split; [done|]; by apply (scan_past w limit s found at_)).
  pose proof (sc_window _ _ _ Hs) as Hw. pose proof (sc_pos _ _ _ Hs) as Hp. pose proof (wo_from _ _ Hw) as Hfrom.
  rw usub_Ok; [lia|]. cbn [mbind res_bind]. rw (window_length w (rs_pos s)) //; [lia|]. rw (proj2 (Nat.ltb_ge _ _)); [lia|].
  pose proof (window_find w (rs_pos s) at_ Hw Hp Hin) as Hf. destruct (find_at re (w_bytes w) _) as [[ms me]|];
    [|eexists _, _, _; split; [done|]; by apply (scan_done w limit s found at_)].
  cbv zeta. set (start := w_from w + ms) in *. set (e := w_from w + me) in *. rw (sc_end _ _ _ Hs). fold (outside start e).
  destruct (outside start e) eqn:Ho.
  { eexists _, _, _. split; [done|]. exists []. split_and!; [by rw app_nil_r|done|done|apply Hs|done|apply Hs|done| |done].
    rw (scan_remaining w s at_) //. by apply (first_outside w (rs_pos s) at_ start e). }
  destruct ((w_end w <? stop) && (w_limit w <? e + CONTEXT)) eqn:Hlim.
  { assert (w_end w < stop) as He by (apply Nat.ltb_lt; by apply andb_true_iff in Hlim as [? _]).
    destruct (scan_reread w limit s found at_ start e Hs Hf Ho He) as (s' & -> & H). by eexists _, _, _. }
  destruct ((start =? e) && bool_decide (last_end s = Some start)) eqn:Hemp.
  - apply IH; [|pose proof (fs_at _ _ _ _ Hf); lia].
    destruct (first_taken w (rs_pos s) at_ start e Hw Hp Hf Ho Hlim) as [_ Hhit].
    apply andb_true_iff in Hemp as [E1%Nat.eqb_eq E2%bool_decide_eq_true].
    pose proof (fs_at _ _ _ _ Hf) as F1. pose proof (fs_end _ _ _ _ Hf) as F2. pose proof (fs_to _ _ _ _ Hf) as F3.
    destruct Hs as [H1 H2 H3 H4 H5 H6 H7 H7' H8]. split; try done; [lia|lia|]. intros q f Hq Hlt Hh.
    destruct (Nat.lt_ge_cases q at_) as [|Hge]; [by apply H8|]. destruct (Nat.lt_ge_cases q start) as [Hlt'|Hge'].
    + by destruct (fs_first _ _ _ _ Hf q f Hge Hlt').
    + assert (q = start) as -> by lia. unfold BufferSearchInv.hit in *. rw Hh in Hhit. injection Hhit as ->. done.
  - destruct (scan_take w s at_ start e Hs Hf Ho Hlim Hemp) as (s1 & m & -> & s2 & E2 & Hs2 & Hlt & Hsame & Hwin & Hd & Hm & Hr).
    cbn [mbind res_bind]. rw E2. cbn [mbind res_bind]. set (at' := if start =? e then e + 1 else e) in *.
    pose proof (sc_pos _ _ _ Hs2) as Hp2. cbn [set_pos rs_pos] in Hp2.
    assert (rs_pos s <= rs_pos (set_pos s2 at')) as Hle by (cbn; lia).
    destruct (limit <=? length (found ++ [m])) eqn:Hli.
    + eexists _, _, _. split; [done|]. apply (scan_more w limit s (set_pos s2 at') found m); try done.
      exists []. split_and!; [by rw app_nil_r|done|reflexivity|apply Hs2|done|apply (sc_stop _ _ _ Hs2)|done|done|by apply Nat.leb_le|done].
    + destruct (IH (set_pos s2 at') (found ++ [m]) at' Hs2 ltac:(lia)) as (s' & found' & exit & -> & H).
      eexists _, _, _. split; [done|]. by apply (scan_more w limit s (set_pos s2 at') found m).
Qed.
End scan.

(** What a search asks of a buffer: a read gives the text of the range or an error, and
    leaves text and version as they are. *)
Class TextSourceLaws (B E : Type) `{!TextSource B E} (text_of : B -> list byte) (ok : B -> Prop) (fails : E -> Prop) : Prop := {
  law_len b : ok b -> src_len b = length (text_of b);
  law_read b off n : ok b -> exists b' r, src_read b off n = Ok (b', r) /\ ok b' /\ text_of b' = text_of b
    /\ src_version b' = src_version b /\ ((exists e : E, r = inl e /\ fails e) \/ r = inr (take n (drop off (text_of b))));
}.

Lemma context_le : CONTEXT <= MATCH_CONTEXT.
Proof. apply Nat.leb_le. reflexivity. Qed.

Section loop.
Context {regex : Type} (find_at : regex -> list byte -> nat -> option (nat * nat)).
Context {B E : Type} (text_of : B -> list byte) (ok : B -> Prop) {fails : E -> Prop} `{!TextSource B E} `{!TextSourceLaws B E text_of ok fails}.
Context (usize_max : nat) (re : regex) (overlap : nat) (Hre : windowed_engine find_at re overlap).
Context (t : list byte) (origin first : nat) (stop : nat) (to_end : bool).
Local Abbreviation hit := (hit find_at re).
Local Abbreviation matches_from := (matches_from find_at re t stop to_end).
Local Abbreviation remaining := (remaining find_at re t stop to_end).
Local Abbreviation lines_ok := (lines_ok t origin first).
Local Abbreviation located := (located t origin first).
Local Abbreviation outside := (outside stop to_end).

(** What a search has still to find. *)
Definition pending (s : RegexSearch) : list (nat * nat) := if rs_done s then [] else remaining s.

Record searching (b : B) (s : RegexSearch) : Prop := {
  se_ok : ok b;
  se_text : text_of b = t;
  se_stop : rs_end s = stop;
  se_range : stop <= length t;
  se_to_end : to_buffer_end s = to_end;
  se_overlap : rs_overlap s = overlap;
  se_base : 1 <= base_window s;
  se_window : 1 <= rs_window s;
  se_pos : rs_pos s <= S stop;
  se_lines : lines_ok s;
}.

(** What is left of the text, and how much the window can still grow. *)
Definition measure (s : RegexSearch) : nat := (S stop - rs_pos s) * S stop + (stop - rs_window s).

Lemma measure_advance s s' : rs_pos s < rs_pos s' -> rs_pos s' <= S stop -> measure s' < measure s.
Proof.
  intros H1 H2. unfold measure. assert (S (S stop - rs_pos s') * S stop <= (S stop - rs_pos s) * S stop) by (apply Nat.mul_le_mono_r; lia). lia.
Qed.

Lemma measure_grow s s' : rs_pos s <= rs_pos s' -> rs_window s < rs_window s' -> rs_window s < stop -> measure s' < measure s.
Proof.
  intros H1 H2 H3. unfold measure. assert ((S stop - rs_pos s') * S stop <= (S stop - rs_pos s) * S stop) by (apply Nat.mul_le_mono_r; lia). lia.
Qed.

Lemma matches_from_end at_ last :
  (forall q f, at_ <= q -> hit t q f -> skipped last q f \/ outside q f = true) -> matches_from at_ last = [].
Proof.
  intros H. pose proof (eng_left _ _ _ Hre) as HL. destruct (Nat.le_gt_cases at_ (length t)) as [Hat|Hat]; [|by apply matches_from_past].
  rw (matches_from_step find_at re t stop to_end HL) //. destruct (find_at re t at_) as [[s e]|] eqn:Ef; [|done].
  destruct (eng_some _ _ HL _ _ _ _ Ef) as (H1 & H2 & H3 & H4 & H5). destruct (outside s e) eqn:Ho; [done|].
  destruct (H s e H1 H4) as [[-> ->]|H6]; [|congruence]. rw Nat.eqb_refl bool_decide_eq_true_2 //. cbn [andb].
  apply matches_from_none; [done|]. intros q f Hq Hh. destruct (H q f ltac:(lia) Hh) as [[-> [= ->]]|]; [lia|done].
Qed.

(** The window that a search reads next. *)
Definition next_window (s : RegexSearch) : Window :=
  let window_end := Nat.min (rs_pos s + rs_window s) stop in
  let '(read_from, read_to) := window_range s (length t) window_end in
  mkWindow (sub t read_from read_to) read_from read_to window_end (Nat.min (window_end + CONTEXT) (length t)).

Lemma next_window_ok b s :
  searching b s -> rs_pos s <= stop -> scanning find_at re t origin first stop to_end (next_window s) s (rs_pos s) /\ rs_pos s <= w_to (next_window s).
Proof.
  intros Hs Hp. destruct Hs as [S1 S2 S3 S4 S5 S6 S7 S8 S9 S10]. pose proof context_le as Hcl.
  assert (exists from to, window_range s (length t) (Nat.min (rs_pos s + rs_window s) stop) = (from, to)
    /\ (from = 0 \/ from + CONTEXT <= rs_pos s) /\ from <= rs_pos s /\ to <= length t
    /\ Nat.min (Nat.min (rs_pos s + rs_window s) stop + CONTEXT) (length t) <= to) as (from & to & Ew & H1 & H2 & H3 & H4).
  { unfold window_range. destruct (rs_lines s) as [l|]; eexists _, _; (split; [done|]); lia. }
  unfold next_window. rw Ew. cbn [w_to]. split; [|lia]. split; cbn [w_from w_to w_end w_limit w_bytes]; try done; try lia.
  - split; cbn [w_from w_to w_end w_limit w_bytes]; try done; lia.
  - intros l El. destruct (S10 l El) as (_ & ? & ?). unfold CONTEXT in H1. lia.
Qed.

(** What the loop leaves. *)
Definition loop_result (max_bytes : option nat) (limit : nat) (b : B) (s : RegexSearch) (found : list SearchMatch) (read : nat)
    (b' : B) (s' : RegexSearch) (r : search_error E + list SearchMatch) : Prop :=
  searching b' s' /\ same_search s s' /\ src_version b' = src_version b
  /\ ((exists e, r = inl (ReadFailed e) /\ fails e) \/
      exists new, r = inr (found ++ new) /\ (rs_lines s <> None -> Forall located new) /\ pending s = spans new ++ pending s'
        /\ (rs_done s' = true \/ limit <= length (found ++ new)
            \/ max_bytes <> None /\ measure s' <= measure s /\ (measure s' < measure s \/ within max_bytes read = false))).

Lemma loop_more max_bytes limit b b1 s s1 found new1 read read1 b' s' r :
  loop_result max_bytes limit b1 s1 (found ++ new1) read1 b' s' r ->
  same_search s s1 -> src_version b1 = src_version b -> (rs_lines s <> None -> Forall located new1) ->
  pending s = spans new1 ++ pending s1 -> measure s1 < measure s -> loop_result max_bytes limit b s found read b' s' r.
Proof.
  intros (H1 & H2 & H3 & H4) Hs Hv Hl Hp Hm. split_and!; [done|exact (transitivity Hs H2)|by rw H3|].
  destruct H4 as [?|(new & -> & N1 & N2 & N3)]; [by left|right]. exists (new1 ++ new). split_and!; [by rw app_assoc| | |].
  - intros Hn. apply Forall_app. split; [by apply Hl|]. apply N1. intros Hn'. by apply Hn, Hs.
  - rw Hp N2 app_assoc. by unfold spans; rw fmap_app.
  - destruct N3 as [N3|[N3|(N3 & N4 & _)]]; [by left|right; left; by rw app_assoc|right; right]. split_and!; [done|lia|left; lia].
Qed.

(** A window that is read to its end, the last one. *)
Lemma last_window_done w limit s found s' found' :
  window_ok t stop w (rs_pos s) -> scan_result find_at usize_max re t origin first stop to_end w limit s found s' found' WindowDone ->
  stop <= w_end w -> remaining s' = [].
Proof.
  intros Hw (new & _ & _ & _ & _ & _ & _ & _ & _ & _ & _ & Hun) He. apply matches_from_end. intros q f Hq Hhit.
  destruct (Hun q f Hq Hhit) as [|[U1 U2]]; [by left|right]. unfold BufferSearchInv.outside.
  rw (proj2 (Nat.ltb_lt stop f)) ?orb_true_r //. pose proof (wo_limit _ _ _ _ Hw). pose proof (wo_seen _ _ _ _ Hw). lia.
Qed.

(** Nothing is lost between a window and the next. *)
Lemma next_window_start w limit s found s' found' :
  window_ok t stop w (rs_pos s) -> scan_result find_at usize_max re t origin first stop to_end w limit s found s' found' WindowDone ->
  remaining s' = matches_from (Nat.max (rs_pos s') (w_end w - overlap)) (last_end s').
Proof.
  intros Hw (new & _ & _ & _ & _ & _ & _ & _ & _ & _ & _ & Hun). apply matches_from_skip; [apply (eng_left _ _ _ Hre)|lia|].
  intros q f Hq Hlt Hhit. destruct (Hun q f Hq Hhit) as [|[U1 U2]]; [done|]. exfalso. apply (eng_bounded _ _ _ Hre) in Hhit.
  pose proof (wo_limit _ _ _ _ Hw). pose proof (wo_seen _ _ _ _ Hw). lia.
Qed.

Lemma searching_after b b' s s' :
  searching b s -> ok b' -> text_of b' = text_of b -> same_search s s' -> 1 <= rs_window s' -> rs_pos s' <= S stop -> lines_ok s' ->
  searching b' s'.
Proof.
  intros [S1 S2 S3 S4 S5 S6 S7 S8 S9 S10] Hok Ht (Q1 & Q2 & Q3 & Q4 & Q5 & _) Hw Hp Hl.
  split; try done; [by rw Ht|by rw Q2|by rw Q3|by rw Q4|by rw Q5].
Qed.

Lemma lines_counted w pos s l :
  window_ok t stop w pos -> pos <= rs_pos s -> lines_ok s -> rs_lines s = Some l -> counted t origin first l /\ w_from w <= counted_to l.
Proof.
  intros Hw Hp Hl El. destruct (Hl l El) as (H1 & H2 & H3). split; [done|]. pose proof (wo_context _ _ _ _ Hw) as H. unfold CONTEXT in H. lia.
Qed.

(** On to the next window. *)
Lemma window_moves b b1 s w limit found s' found' :
  searching b s -> ok b1 -> text_of b1 = text_of b -> window_ok t stop w (rs_pos s) ->
  scan_result find_at usize_max re t origin first stop to_end w limit s found s' found' WindowDone ->
  w_end w < stop -> let next := Nat.max (rs_pos s') (w_end w - overlap) in rs_pos s < next ->
  exists s2, count_lines s' (w_bytes w) (w_from w) next = Ok s2
    /\ let s3 := set_window (set_pos s2 next) (base_window s2) in
       searching b1 s3 /\ same_search s s3 /\ remaining s3 = remaining s' /\ rs_done s3 = rs_done s' /\ measure s3 < measure s.
Proof.
  intros Hs Hok Ht Hw Hres He next Hlt. pose proof (next_window_start _ _ _ _ _ _ Hw Hres) as Hrem. fold next in Hrem.
  destruct Hres as (new & _ & _ & Hsame & Hl & Hp1 & Hp2 & _ & _ & _ & Hseen & _). specialize (Hseen He).
  pose proof (wo_to _ _ _ _ Hw) as Hto. pose proof (wo_end _ _ _ _ Hw). pose proof (wo_seen _ _ _ _ Hw). pose proof (wo_limit _ _ _ _ Hw). pose proof (wo_stop _ _ _ _ Hw).
  assert (next <= w_to w) as Hn by (unfold next; lia). pose proof (fun l => lines_counted w (rs_pos s) s' l Hw Hp1 Hl) as Hc.
  exists (advance t origin first s' next). rw (wo_bytes _ _ _ _ Hw). rw (search_count_lines_ok t origin first); [done|done|done|]. split; [done|].
  destruct (advance_same t origin first s' next) as (A1 & A2 & A3 & A4 & A5).
  assert (same_search s (set_window (set_pos (advance t origin first s' next) next) (base_window (advance t origin first s' next)))) as Hsame'
    by exact (transitivity Hsame A1).
  cbv zeta. split_and!; [|done| |done|].
  - apply (searching_after b b1 s); try done; cbn; [|unfold next; lia|].
    + destruct Hsame' as (_ & _ & _ & _ & Hb & _). cbn in Hb. rw Hb. apply (se_base _ _ Hs).
    + intros l El. destruct (advance_lines t origin first s' next ltac:(lia)) with (l := l) as [C1 C2]; [|done|].
      { intros l' El'. destruct (Hl l' El') as (? & ? & ?). split; [done|unfold next; lia]. }
      split; [done|]. cbn. lia.
  - rw Hrem. unfold BufferSearchLoop.remaining. cbn. by rw A3.
  - apply measure_advance; [done|]. cbn. unfold next. lia.
Qed.

Lemma grow_measure s s' :
  stop <= usize_max -> 1 <= rs_window s -> rs_window s < stop -> rs_pos s <= rs_pos s' -> rs_window s' = Nat.min (rs_window s * 2) usize_max ->
  1 <= rs_window s' /\ measure s' < measure s.
Proof. intros H1 H2 H3 H4 H5. split; [lia|]. apply measure_grow; lia. Qed.

Lemma same_done s : same_search s (set_done s).
Proof. apply (reflexivity (R := same_search) s). Qed.

Lemma searching_done b s : searching b s -> searching b (set_done s).
Proof. intros [S1 S2 S3 S4 S5 S6 S7 S8 S9 S10]. by split. Qed.

(** [fuel] steps are enough for searches of a smaller measure. *)
Definition loops (max_bytes : option nat) (limit fuel : nat) : Prop := forall b s found read,
  searching b s -> measure s < fuel ->
  exists b' s' r, step_loop find_at usize_max fuel re max_bytes limit (length t) stop b s found read = Ok (b', s', r)
    /\ loop_result max_bytes limit b s found read b' s' r.

Lemma loop_over max_bytes limit b s found read :
  searching b s -> negb (rs_done s) && (length found <? limit) && within max_bytes read = false ->
  loop_result max_bytes limit b s found read b s (inr found).
Proof.
  intros Hs Hgo. split_and!; [done|reflexivity|done|]. right. exists []. rw app_nil_r. split_and!; [done|done|done|].
  destruct (rs_done s); [by left|]. destruct (Nat.ltb_spec (length found) limit); [|by right; left]. cbn [negb andb] in Hgo.
  right. right. split_and!; [by destruct max_bytes|done|by right].
Qed.

Lemma loop_past max_bytes limit b s found read :
  searching b s -> rs_done s = false -> (stop <? rs_pos s) || (rs_pos s =? stop) && negb to_end = true ->
  loop_result max_bytes limit b s found read b (set_done s) (inr found).
Proof.
  intros Hs Hd Hstop. split_and!; [by apply searching_done|apply same_done|done|]. right. exists []. rw app_nil_r.
  split_and!; [done|done| |by left]. unfold pending. rw Hd. cbn. apply matches_from_none; [apply (eng_left _ _ _ Hre)|].
  intros q f Hq Hhit. apply (hit_bounds _ _ _ (eng_left _ _ _ Hre)) in Hhit as [? ?].
  apply (outside_mono stop to_end (rs_pos s) (rs_pos s)); [done|lia|]. unfold BufferSearchInv.outside. by destruct (stop <? rs_pos s).
Qed.

(** Behind a window that has been scanned. *)
Lemma loop_window_done max_bytes limit fuel b b1 s s' w found found' read read' :
  loops max_bytes limit fuel -> stop <= usize_max -> searching b s -> ok b1 -> text_of b1 = text_of b -> src_version b1 = src_version b ->
  rs_done s = false -> measure s < S fuel -> window_ok t stop w (rs_pos s) -> w_end w = Nat.min (rs_pos s + rs_window s) stop ->
  scan_result find_at usize_max re t origin first stop to_end w limit s found s' found' WindowDone ->
  exists b' s2 r, (if stop <=? w_end w then Ok (b1, set_done s', inr found') else
      let next := Nat.max (rs_pos s') (w_end w - rs_overlap s') in
      if next <=? rs_pos s then step_loop find_at usize_max fuel re max_bytes limit (length t) stop b1 (grow usize_max s') found' read'
      else s1 ← count_lines s' (w_bytes w) (w_from w) next;
           step_loop find_at usize_max fuel re max_bytes limit (length t) stop b1 (set_window (set_pos s1 next) (base_window s1)) found' read')
    = Ok (b', s2, r) /\ loop_result max_bytes limit b s found read b' s2 r.
Proof.
  intros IH Hmax Hs Hok1 Ht1 Hv1 Hd Hfuel Hw W3 Hres. pose proof Hres as (new & -> & Hloc & Hsame & Hl' & Hp1 & Hp2 & D1 & D2 & D3 & D4 & D5).
  assert (searching b1 s') as Hs1 by (apply (searching_after b b1 s); try done; rw D3; apply Hs).
  destruct (Nat.leb_spec stop (w_end w)) as [Hlast|Hmore].
  { eexists _, _, _. split; [done|]. split_and!; [by apply searching_done|exact (transitivity Hsame (same_done s'))|done|].
    right. exists new. split_and!; [done|done| |by left]. unfold pending. rw Hd D2. cbn [set_done rs_done].
    by rw (last_window_done w limit s found s' (found ++ new)). }
  rw (se_overlap _ _ Hs1). cbv zeta. destruct (Nat.leb_spec (Nat.max (rs_pos s') (w_end w - overlap)) (rs_pos s)) as [Hstay|Hgo].
  - destruct (grow_measure s (grow usize_max s') Hmax (se_window _ _ Hs) ltac:(lia) Hp1) as [M1 M2]; [cbn; by rw D3|].
    assert (same_search s (grow usize_max s')) as Hsg by exact Hsame.
    assert (searching b1 (grow usize_max s')) as Hs2 by by apply (searching_after b b1 s).
    destruct (IH b1 _ (found ++ new) read' Hs2 ltac:(lia)) as (b2 & s2 & r & -> & Hr2).
    eexists _, _, _. split; [done|]. apply (loop_more max_bytes limit b b1 s _ found new read _ _ _ _ Hr2); try done.
    unfold pending. cbn [grow set_window rs_done]. by rw Hd D1 Hd.
  - destruct (window_moves b b1 s w limit found s' (found ++ new) Hs Hok1 Ht1 Hw Hres Hmore Hgo) as (s2 & -> & Hs2 & Hs3 & Hr3 & Hd3 & Hm3).
    cbn [mbind res_bind]. destruct (IH b1 _ (found ++ new) read' Hs2 ltac:(lia)) as (b2 & s3 & r & -> & Hr2).
    eexists _, _, _. split; [done|]. apply (loop_more max_bytes limit b b1 s _ found new read _ _ _ _ Hr2); try done.
    unfold pending. by rw Hd Hd3 D1 Hd Hr3.
Qed.

Lemma step_loop_ok max_bytes limit fuel : stop <= usize_max -> loops max_bytes limit fuel.
Proof.
  intros Hmax. induction fuel as [|fuel IH]; intros b s found read Hs Hfuel; [lia|]. cbn [step_loop].
  destruct (negb (rs_done s) && (length found <? limit) && within max_bytes read) eqn:Hgo; cbn [negb];
    [|eexists _, _, _; split; [done|]; by apply loop_over].
  apply andb_true_iff in Hgo as [[Hd%negb_true_iff _]%andb_true_iff _].
  pose proof (se_ok _ _ Hs) as Hok. pose proof (se_text _ _ Hs) as Ht. pose proof (se_range _ _ Hs) as Hr.
  rw (se_to_end _ _ Hs).
  destruct ((stop <? rs_pos s) || (rs_pos s =? stop) && negb to_end) eqn:Hstop; [eexists _, _, _; split; [done|]; by apply loop_past|].
  assert (rs_pos s <= stop) as Hpos by (apply orb_false_iff in Hstop as [H%Nat.ltb_ge _]; done).
  destruct (next_window_ok b s Hs Hpos) as [Hsc Hpw]. pose proof (sc_window _ _ _ _ _ _ _ _ _ _ Hsc) as Hw.
  set (w := next_window s) in *. pose proof eq_refl : w = next_window s as Ew. unfold next_window in Ew.
  destruct (window_range s (length t) _) as [from to]. pose proof (wo_from _ _ _ _ Hw) as Hwf.
  assert (w_from w = from /\ w_to w = to /\ w_end w = Nat.min (rs_pos s + rs_window s) stop /\ w_bytes w = sub t from to) as (W1 & W2 & W3 & W4) by by rw Ew.
  rw usub_Ok; [lia|]. cbn [mbind res_bind].
  destruct (law_read (E := E) b from (to - from) Hok) as (b1 & r & -> & Hok1 & Ht1 & Hv1 & Hrd). cbn [mbind res_bind].
  destruct Hrd as [(e & -> & He)| ->].
  { eexists _, _, _. split; [done|]. split_and!; [|reflexivity|done|by left; exists e].
    apply (searching_after b b1 s); try done; apply Hs. }
  rw Ht. fold (sub t from to). rw -Ew.
  destruct (scan_window_ok find_at usize_max re overlap Hre t origin first stop to_end (S (to - rs_pos s)) w limit s found (rs_pos s) Hsc) as
    (s' & found' & exit & -> & Hres); [lia|]. cbn [mbind res_bind].
  destruct exit; [| | |rw -W3 -W4 -W1; by apply (loop_window_done max_bytes limit fuel b b1 s s' w found found' read)];
    destruct Hres as (new & -> & Hloc & Hsame & Hl' & Hp1 & Hp2 & Hex); pose proof (se_window _ _ Hs) as Hwin.
  - destruct Hex as (D1 & D2 & D3). eexists _, _, _. split; [done|].
    split_and!; [apply (searching_after b b1 s); try done; by rw D3|done|done|]. right. exists new. split_and!; [done|done| |by left].
    unfold pending. rw Hd D1 D2. by rw app_nil_r.
  - destruct Hex as (D1 & D2 & D3 & D4).
    assert (1 <= rs_window s' /\ measure s' < measure s) as [M1 M2].
    { destruct D4 as [[D4 D5]|D4]; [split; [lia|by apply measure_advance]|]. apply grow_measure; try done. lia. }
    assert (searching b1 s') as Hs1 by by apply (searching_after b b1 s).
    destruct (IH b1 s' (found ++ new) (read + length (sub t from to)) Hs1 ltac:(lia)) as (b2 & s2 & r & -> & Hr2).
    eexists _, _, _. split; [done|]. apply (loop_more max_bytes limit b b1 s s' found new read _ _ _ _ Hr2); try done.
    unfold pending. by rw Hd D1 Hd.
  - destruct Hex as (D1 & D2 & D3 & D4). eexists _, _, _. split; [done|].
    split_and!; [apply (searching_after b b1 s); try done; by rw D4|done|done|]. right. exists new. split_and!; [done|done| |right; by left].
    unfold pending. by rw D1 Hd.
Qed.
End loop.
