(* ===== verification/BufferSearchTop.v ===== *)
(** * Searches of a buffer find its matches *)
From stdpp Require Import base numbers list option strings.
From Stdlib Require Import ssreflect Strings.Byte NArith ZArith.
From S2P Require Import Prelude TextSpec Utf8 StringBuffer PieceTree BufferFormat TextBuffer TextBufferInv TextBufferLoad TextBufferLoadInv LineDiff BufferSearch BufferSearchInv BufferSearchLoop.

(** The lines of a whole text are those of its positions. *)
Lemma lines_at_position t k :
  k <= length t -> lines_at t 0 1 k = (S (line_of t k), k - (position_of t k).2).
Proof.
  intros Hk. pose proof (count_breaks_spec (sub t 0 k) 0 1 0 ltac:(lia)) as H. unfold lines_at.
  destruct (count_breaks (sub t 0 k) 0 1 0) as [line start]. destruct H as (-> & _ & H2 & H3).
  assert (sub t 0 k = take k t) as Es by (unfold sub; by rw drop_0 Nat.sub_0_r). rw Es length_take in H2, H3. rw Es.
  unfold position_of. cbn [snd]. fold (line_of t k). f_equal.
  assert (nth_line_start t (line_of t k) = Some start) as ->; [|cbn; lia].
  destruct H3 as [[-> H3]|(H3 & H4 & b & H5 & H6)].
  - unfold line_of. by rw H3; destruct t.
  - rw !Nat.sub_0_r in H4, H5. rw lookup_take_lt in H5; [lia|].
    pose proof (nth_line_start_after_nl t (start - 1) b H5 H6) as Hn. replace (S (start - 1)) with start in Hn by lia.
    assert (line_of t k = S (line_of t (start - 1))) as ->; [|done].
    pose proof (line_of_S t (start - 1)) as Hs. replace (S (start - 1)) with start in Hs by lia. rw H5 in Hs. cbn in Hs. rw H6 in Hs.
    unfold line_of in Hs |- *. rw -{1}(take_drop start (take k t)) count_newlines_app H4 take_take Nat.min_l; lia.
Qed.

Section top.
Context {regex : Type} (find_at : regex -> list byte -> nat -> option (nat * nat)).
Context {B E : Type} (text_of : B -> list byte) (ok : B -> Prop) {fails : E -> Prop} `{!TextSource B E} `{!TextSourceLaws B E text_of ok fails}.
Context (usize_max load_chunk_size : nat).
Local Abbreviation search_step := (search_step find_at usize_max).
Local Abbreviation searching := (searching text_of ok).

(** ** No step finds more than it is asked for *)
Lemma scan_window_limit re w end_ limit fuel : forall s found at_ s' found' exit,
  scan_window find_at usize_max fuel re w end_ limit s found at_ = Ok (s', found', exit) -> length found < limit -> length found' <= limit.
Proof.
  induction fuel as [|fuel IH]; intros s found at_ s' found' exit; cbn [scan_window]; (destruct (w_to w <? at_); [intros [= <- <- <-]; lia|]); [done|].
  destruct (usub at_ (w_from w)) as [rel|]; [|done]. cbn [mbind res_bind]. destruct (_ <? rel); [done|].
  destruct (find_at re (w_bytes w) rel) as [[ms me]|]; [|intros [= <- <- <-]; lia]. cbv zeta.
  destruct (_ || _); [intros [= <- <- <-]; lia|]. destruct (_ && _).
  { destruct (count_lines _ _ _ _); [|done]. intros [= <- <- <-]. lia. }
  destruct (_ && _); [apply IH|]. destruct (match_at _ _ _ _ _) as [[s1 m]|]; [|done]. cbn [mbind res_bind].
  destruct (count_lines _ _ _ _) as [s2|]; [|done]. cbn [mbind res_bind]. destruct (Nat.leb_spec limit (length (found ++ [m]))) as [Hl|Hl].
  - intros [= <- <- <-]. rw length_app. cbn. lia.
  - intros H _. by apply (IH _ _ _ _ _ _ H).
Qed.

Lemma step_loop_limit re max_bytes limit fuel : forall len end_ b s found read b' s' found',
  step_loop find_at usize_max fuel re max_bytes limit len end_ b s found read = Ok (b', s', inr found') -> length found <= limit -> length found' <= limit.
Proof.
  induction fuel as [|fuel IH]; intros len end_ b s found read b' s' found'; cbn [step_loop];
    destruct (negb (rs_done s) && (length found <? limit) && within max_bytes read) eqn:Hgo; cbn [negb]; try (by intros [= <- <- <-]).
  cbv zeta. destruct (_ || _); [by intros [= <- <- <-]|]. destruct (window_range _ _ _) as [from to].
  apply andb_true_iff in Hgo as [[_ Hlt%Nat.ltb_lt]%andb_true_iff _].
  destruct (usub to from); [|done]. cbn [mbind res_bind]. destruct (src_read b from _) as [[b1 [e|bytes]]|]; [done| |done]. cbn [mbind res_bind].
  destruct (scan_window _ _ _ _ _ _ _ _ _ _) as [[[s1 found1] exit]|] eqn:Hscan; [|done]. cbn [mbind res_bind].
  pose proof (scan_window_limit _ _ _ _ _ _ _ _ _ _ _ Hscan Hlt) as H1.
  destruct exit; try (intros [= <- <- <-]; done); try (intros H _; by apply (IH _ _ _ _ _ _ _ _ _ H)).
  destruct (_ <=? _); [by intros [= <- <- <-]|]. destruct (_ <=? rs_pos s); [intros H _; by apply (IH _ _ _ _ _ _ _ _ _ H)|].
  destruct (count_lines _ _ _ _) as [s2|]; [|done]. cbn [mbind res_bind]. intros H _. by apply (IH _ _ _ _ _ _ _ _ _ H).
Qed.

(** ** A step *)
Lemma search_step_ok re overlap (Hre : windowed_engine find_at re overlap) t origin first stop to_end max_bytes limit b s :
  searching overlap t origin first stop to_end b s -> length t <= usize_max -> src_version b = rs_version s ->
  exists b' s' r, search_step re max_bytes limit b s = Ok (b', s', r)
    /\ loop_result (fails := fails) find_at text_of ok re overlap t origin first stop to_end max_bytes limit b s [] 0 b' s' r
    /\ forall found, r = inr found -> length found <= limit.
Proof.
  intros Hs Hlen Hv. unfold BufferSearch.search_step. rw bool_decide_eq_true_2 //.
  pose proof (se_stop _ _ _ _ _ _ _ _ _ _ Hs) as Hstop. pose proof (se_range _ _ _ _ _ _ _ _ _ _ Hs) as Hr.
  pose proof (se_ok _ _ _ _ _ _ _ _ _ _ Hs) as Hok. pose proof (se_text _ _ _ _ _ _ _ _ _ _ Hs) as Ht.
  assert (src_len b = length t) as -> by (rw -Ht; by apply (law_len (E := E))). rw Hstop Nat.min_l //.
  destruct (step_loop_ok find_at text_of ok usize_max re overlap Hre t origin first stop to_end max_bytes limit (step_fuel stop) ltac:(lia) b s [] 0 Hs)
    as (b' & s' & r & Est & Hres).
  { unfold measure, step_fuel. assert ((S stop - rs_pos s) * S stop <= S stop * S stop) by (apply Nat.mul_le_mono_r; lia). lia. }
  exists b', s', r. rw Est. split_and!; [done|done|]. intros found ->. by apply (step_loop_limit _ _ _ _ _ _ _ _ _ _ _ _ _ Est), Nat.le_0_l.
Qed.

(** ** The matches of a range *)
Definition range_matches (re : regex) (t : list byte) (range_start range_end : nat) : list (nat * nat) :=
  let stop := Nat.min range_end (length t) in
  if stop <? range_start then [] else matches_from find_at re t stop (stop =? length t) range_start None.

Lemma search_new_ok query t range_start range_end b first :
  ok b -> text_of b = t -> 1 <= load_chunk_size ->
  let s := search_new load_chunk_size query range_start range_end b in
  let stop := Nat.min range_end (length t) in
  rs_version s = src_version b /\ rs_lines s = None
  /\ pending find_at (sq_regex query) t stop (stop =? length t) s = range_matches (sq_regex query) t range_start range_end
  /\ forall origin, searching (sq_overlap query) t origin first stop (stop =? length t) b s.
Proof.
  intros Hok Ht Hsize s stop. assert (src_len b = length t) as Hlen by (rw -Ht; by apply (law_len (E := E))).
  unfold s, search_new. rw Hlen. fold stop. split_and!; [done|done| |].
  - unfold pending, range_matches, remaining. cbn [rs_done rs_pos last_end]. fold stop.
    destruct (Nat.ltb_spec stop range_start); [done|]. by rw Nat.min_l.
  - intros origin. split; try done; cbn; lia.
Qed.

Lemma with_window_ok overlap t origin first stop to_end b s window :
  searching overlap t origin first stop to_end b s -> searching overlap t origin first stop to_end b (with_window s window).
Proof. intros [S1 S2 S3 S4 S5 S6 S7 S8 S9 S10]. split; try done; cbn; lia. Qed.

(** A search of a range reads the buffer in windows of any size and finds exactly the
    matches that an engine fit for windows finds one after the other in the whole text, up to
    the limit, or fails because a read of the file failed. *)
Lemma windowed_search_general query range_start range_end limit window b :
  ok b -> length (text_of b) <= usize_max -> 1 <= load_chunk_size ->
  windowed_engine find_at (sq_regex query) (sq_overlap query) ->
  exists b' r, find_regex_matches_in_windows find_at usize_max load_chunk_size query range_start range_end limit window b = Ok (b', r)
    /\ ok b' /\ text_of b' = text_of b
    /\ ((exists e, r = inl (ReadFailed e) /\ fails e)
        \/ r = inr (take limit (range_matches (sq_regex query) (text_of b) range_start range_end))).
Proof.
  intros Hok Hlen Hsize Hre. set (t := text_of b) in *. unfold find_regex_matches_in_windows, search_run.
  destruct (search_new_ok query t range_start range_end b 0 Hok eq_refl Hsize) as (Hv & _ & Hp & Hs).
  set (s0 := search_new load_chunk_size query range_start range_end b) in *. specialize (Hs 0). apply (with_window_ok _ _ _ _ _ _ _ _ window) in Hs.
  destruct (search_step_ok _ _ Hre t 0 0 _ _ None limit b (with_window s0 window) Hs Hlen (eq_sym Hv)) as (b' & s' & r & -> & Hres & Hlim).
  cbn [mbind res_bind]. destruct Hres as (Hs' & _ & _ & Hr).
  eexists _, _. split; [done|]. split_and!; [apply Hs'|apply Hs'|]. destruct Hr as [(e & -> & He)|(new & -> & _ & Hpend & Hend)]; [left; by exists e|right].
  f_equal. rw -Hp. change (pending find_at (sq_regex query) t _ _ s0) with (pending find_at (sq_regex query) t (Nat.min range_end (length t)) (Nat.min range_end (length t) =? length t) (with_window s0 window)).
  rw Hpend. specialize (Hlim new eq_refl). assert (length (spans new) = length new) as Hsp by apply length_fmap.
  destruct Hend as [Hd|[Hl|[? _]]]; [|cbn [app] in Hl|done].
  - assert (pending find_at (sq_regex query) t (Nat.min range_end (length t)) (Nat.min range_end (length t) =? length t) s' = []) as ->.
    { unfold pending. by rw Hd. }
    rw app_nil_r take_ge //. lia.
  - rw take_app_le; [lia|]. rw take_ge //. lia.
Qed.

(** ** A search in time slices *)
Definition bs_bounds (t : list byte) (bs : BufferSearch (regex := regex)) : nat * nat := default (0, length t) (bs_range bs).
Definition bs_stop (t : list byte) (bs : BufferSearch (regex := regex)) : nat := Nat.min (bs_bounds t bs).2 (length t).
Definition bs_origin (t : list byte) (bs : BufferSearch (regex := regex)) : nat := Nat.min (bs_bounds t bs).1 (bs_stop t bs).
Definition bs_matches (t : list byte) (bs : BufferSearch (regex := regex)) : list (nat * nat) :=
  range_matches (sq_regex (bs_query bs)) t (bs_bounds t bs).1 (bs_bounds t bs).2.

(** A search that is of the buffer as it is: what it has found and what it has still to find
    are the matches of its range. *)
Record bs_ok (b : B) (bs : BufferSearch (regex := regex)) : Prop := {
  bk_search : searching (sq_overlap (bs_query bs)) (text_of b) (bs_origin (text_of b) bs) 1 (bs_stop (text_of b) bs)
    (bs_stop (text_of b) bs =? length (text_of b)) b (bs_search bs);
  bk_version : rs_version (bs_search bs) = src_version b;
  bk_found : spans (bs_found bs)
    ++ pending find_at (sq_regex (bs_query bs)) (text_of b) (bs_stop (text_of b) bs) (bs_stop (text_of b) bs =? length (text_of b)) (bs_search bs)
    = bs_matches (text_of b) bs;
  bk_limit : length (bs_found bs) <= bs_limit bs;
  bk_lines : bs_lines bs = true -> rs_lines (bs_search bs) <> None
    /\ Forall (located (text_of b) (bs_origin (text_of b) bs) 1) (bs_found bs);
}.

Lemma bs_ok_done b bs : bs_ok b bs -> bs_is_done bs = true -> spans (bs_found bs) = take (bs_limit bs) (bs_matches (text_of b) bs).
Proof.
  intros [H1 H2 H3 H4 H5] Hd. rw -H3. assert (length (spans (bs_found bs)) = length (bs_found bs)) as Hl by apply length_fmap.
  unfold bs_is_done in Hd. apply orb_true_iff in Hd as [Hd|Hd%Nat.leb_le].
  - unfold pending. rw Hd app_nil_r take_ge //. lia.
  - rw take_app_le; [lia|]. rw take_ge //. lia.
Qed.

Lemma buffer_search_ok b bs :
  ok b -> 1 <= load_chunk_size ->
  bs_ok b (set_search bs (buffer_search load_chunk_size (bs_query bs) (bs_range bs) (bs_lines bs) b) []).
Proof.
  intros Hok Hsize. set (t := text_of b). assert (src_len b = length t) as Hlen by by apply (law_len (E := E)).
  destruct (search_new_ok (bs_query bs) t (bs_bounds t bs).1 (bs_bounds t bs).2 b 1 Hok eq_refl Hsize) as (Hv & Hl & Hp & Hs).
  assert (exists s, s = search_new load_chunk_size (bs_query bs) (bs_bounds t bs).1 (bs_bounds t bs).2 b
    /\ buffer_search load_chunk_size (bs_query bs) (bs_range bs) (bs_lines bs) b = (if bs_lines bs then with_lines s 1 else s)
    /\ rs_pos s = bs_origin t bs) as (s & Es & -> & Hpos).
  { eexists. split; [done|]. unfold buffer_search. rw Hlen. fold (bs_bounds t bs). destruct (bs_bounds t bs) as [a c] eqn:Eb.
    split; [done|]. unfold bs_origin, bs_stop. rw Eb. cbn. by rw Hlen. }
  rw -Es in Hv, Hl, Hp, Hs. specialize (Hs (bs_origin t bs)). assert (bs_origin t bs <= length t) as Hol by (unfold bs_origin, bs_stop; lia).
  destruct (bs_lines bs) eqn:El.
  - destruct Hs as [S1 S2 S3 S4 S5 S6 S7 S8 S9 S10]. split; cbn [set_search bs_search bs_found bs_limit bs_lines spans fmap list_fmap app length]; try done; [|lia].
    split; try done. intros l. cbn [with_lines set_lines rs_lines rs_pos]. intros [= <-]. cbn [counted_to ln_line ln_start].
    split; [|lia]. split_and!; cbn [counted_to ln_line ln_start]; [by rw Hpos|fold t; lia|].
    rw Hpos. unfold lines_at, sub. by rw Nat.sub_diag.
  - split; cbn [set_search bs_search bs_found bs_limit bs_lines spans fmap list_fmap app length]; try done; [lia|]. intros H. change (bs_lines bs = true) in H. congruence.
Qed.

Lemma slice_loop_ok slices : forall b bs,
  bs_ok b bs -> length (text_of b) <= usize_max -> 1 <= load_chunk_size ->
  windowed_engine find_at (sq_regex (bs_query bs)) (sq_overlap (bs_query bs)) ->
  exists b' bs' r, slice_loop find_at usize_max load_chunk_size slices b bs = Ok (b', bs', r) /\ text_of b' = text_of b /\ ok b'
    /\ ((exists e, r = inl (ReadFailed e) /\ fails e) \/
        r = inr tt /\ bs_ok b' bs' /\ bs_query bs' = bs_query bs /\ bs_range bs' = bs_range bs /\ bs_limit bs' = bs_limit bs /\ bs_lines bs' = bs_lines bs
        /\ (bs_is_done bs' = true \/ measure (bs_stop (text_of b) bs) (bs_search bs') + slices <= measure (bs_stop (text_of b) bs) (bs_search bs))).
Proof.
  induction slices as [|slices IH]; intros b bs Hbs Hlen Hsize Hre; cbn [slice_loop]; destruct (bs_is_done bs) eqn:Hd;
    try (eexists _, _, _; split; [done|]; split_and!; [done|apply Hbs|right; split_and!; try done; (by left) || (right; lia)]; fail).
  pose proof (bk_limit _ _ Hbs) as Hlim. rw usub_Ok //. cbn [mbind res_bind].
  destruct (search_step_ok _ _ Hre _ _ _ _ _ (Some load_chunk_size) (bs_limit bs - length (bs_found bs)) b (bs_search bs) (bk_search _ _ Hbs) Hlen
    (eq_sym (bk_version _ _ Hbs))) as (b1 & s1 & r & -> & (Hs1 & Hsame & Hv1 & Hr) & Hmost). cbn [mbind res_bind].
  pose proof (se_text _ _ _ _ _ _ _ _ _ _ Hs1) as Ht1. pose proof (se_ok _ _ _ _ _ _ _ _ _ _ Hs1) as Hok1.
  destruct Hr as [(e & -> & He)|(new & -> & Hloc & Hpend & Hend)]; [eexists _, _, _; split; [done|]; split_and!; [done|done|left; by exists e]|].
  specialize (Hmost new eq_refl). cbn [app] in Hend |- *. set (bs1 := set_search bs s1 (bs_found bs ++ new)).
  assert (bs_ok b1 bs1) as Hbs1.
  { split; rw ?Ht1; [done|by rw Hv1 -(bk_version _ _ Hbs); apply Hsame| | |].
    - change (bs_matches (text_of b) bs1) with (bs_matches (text_of b) bs). rw -(bk_found _ _ Hbs) Hpend app_assoc. unfold spans.
      cbn [bs_found set_search bs1]. by rw fmap_app.
    - cbn [bs_found bs_limit set_search bs1]. rw length_app. lia.
    - intros Hlines. destruct (bk_lines _ _ Hbs Hlines) as [L1 L2]. split; [intros Hn; by apply L1, Hsame|].
      apply Forall_app. split; [done|by apply Hloc]. }
  destruct (bs_is_done bs1) eqn:Hd1.
  - eexists b1, bs1, (inr tt). split; [destruct slices; cbn [slice_loop]; by rw Hd1|]. split_and!; [done|done|]. right. split_and!; try done. by left.
  - destruct (IH b1 bs1 Hbs1) as (b2 & bs2 & r & Er & Ht2 & Hok2 & Hr2); [by rw Ht1|done|done|].
    exists b2, bs2, r. split; [done|]. split_and!; [by rw Ht2|done|]. destruct Hr2 as [|(-> & H1 & H2 & H3 & H4 & H5 & H6)]; [by left|right].
    split_and!; try done. destruct H6 as [|H6]; [by left|right]. rw Ht1 in H6. change (bs_stop (text_of b) bs1) with (bs_stop (text_of b) bs) in H6.
    unfold bs_is_done in Hd1. apply orb_false_iff in Hd1 as [D1 D2%Nat.leb_gt]. cbn [bs1 set_search bs_search bs_found bs_limit] in *.
    rw length_app in D2. destruct Hend as [?|[?|(_ & _ & [Hm|Hw])]]; [congruence|lia|lia|]. cbn in Hw. by destruct load_chunk_size; [lia|].
Qed.

(** Positions count lines and columns from 1. *)
Definition placed (t : list byte) (m : SearchMatch) : Prop :=
  match_line m = S (position_of t (byte_offset m)).1 /\ match_column m = S (position_of t (byte_offset m)).2.

Lemma bs_placed b bs : bs_ok b bs -> bs_lines bs = true -> bs_range bs = None -> Forall (placed (text_of b)) (bs_found bs).
Proof.
  intros Hbs Hl Hr. destruct (bk_lines _ _ Hbs Hl) as [_ H]. assert (bs_origin (text_of b) bs = 0) as Ho.
  { unfold bs_origin, bs_bounds. by rw Hr. }
  rw Ho in H. eapply list.Forall_impl; [exact H|]. intros m [M1 M2 (from & to & M3 & _ & M4 & M5 & _)].
  assert (byte_offset m <= length (text_of b)) as Hm by lia. rw (lines_at_position _ _ Hm) /= in M1, M2.
  assert ((position_of (text_of b) (byte_offset m)).2 <= byte_offset m) as Hc by (unfold position_of; cbn; lia).
  split; [done|]. rw M2. cbn in Hc |- *. lia.
Qed.

Lemma slice_run slices b bs bs0 :
  bs_ok b bs0 -> length (text_of b) <= usize_max -> 1 <= load_chunk_size ->
  windowed_engine find_at (sq_regex (bs_query bs)) (sq_overlap (bs_query bs)) ->
  bs_query bs0 = bs_query bs -> bs_range bs0 = bs_range bs -> bs_limit bs0 = bs_limit bs -> bs_lines bs0 = bs_lines bs ->
  exists b' bs' r, slice_loop find_at usize_max load_chunk_size slices b bs0 = Ok (b', bs', r) /\ text_of b' = text_of b
    /\ ((exists e, r = inl (ReadFailed e) /\ fails e) \/ r = inr tt /\ bs_ok b' bs'
      /\ ((length (text_of b) + 2) * (length (text_of b) + 2) <= slices -> bs_is_done bs' = true)
      /\ (bs_is_done bs' = true -> spans (bs_found bs') = take (bs_limit bs) (bs_matches (text_of b) bs)
           /\ (bs_lines bs = true -> bs_range bs = None -> Forall (placed (text_of b)) (bs_found bs')))).
Proof.
  intros Hbs Hlen Hsize Hre Q1 Q2 Q3 Q4. rw -Q1 in Hre.
  destruct (slice_loop_ok slices b bs0 Hbs Hlen Hsize Hre) as (b' & bs' & r & -> & Ht & Hok' & Hr). exists b', bs', r. split_and!; [done|done|].
  destruct Hr as [|(-> & Hbs' & H1 & H2 & H3 & H4 & H5)]; [by left|right]. split_and!; [done|done| |].
  - intros Hs. destruct H5 as [|H5]; [done|]. exfalso. set (stop := bs_stop (text_of b) bs0) in *.
    assert (stop <= length (text_of b)) as Hst by (unfold stop, bs_stop; lia). unfold measure in H5.
    assert ((S stop - rs_pos (bs_search bs0)) * S stop <= S (length (text_of b)) * S (length (text_of b))) as Hx by (apply Nat.mul_le_mono; lia).
    revert H5 Hx. generalize ((S stop - rs_pos (bs_search bs0)) * S stop), ((S stop - rs_pos (bs_search bs')) * S stop). intros X Y H5 Hx. nia.
  - intros Hd. pose proof (bs_ok_done _ _ Hbs' Hd) as Hf. rw Ht in Hf. unfold bs_matches, bs_bounds in Hf |- *. rw H1 H2 H3 Q1 Q2 Q3 in Hf. split; [done|].
    intros L1 L2. rw -Ht. apply bs_placed; [done|by rw H4 Q4|by rw H2 Q2].
Qed.

(** A search in time slices is always of the buffer as it is, for an engine fit for windows. *)
Lemma buffer_search_general slices b bs :
  ok b -> length (text_of b) <= usize_max -> 1 <= load_chunk_size ->
  windowed_engine find_at (sq_regex (bs_query bs)) (sq_overlap (bs_query bs)) ->
  (src_version b = rs_version (bs_search bs) -> bs_ok b bs) ->
  exists b' bs' r, buffer_search_run find_at usize_max load_chunk_size slices b bs = Ok (b', bs', r) /\ text_of b' = text_of b
    /\ ((exists e, r = inl (ReadFailed e) /\ fails e)
        \/ r = inl EditedDuringSearch /\ src_version b <> rs_version (bs_search bs) /\ bs_range bs <> None
        \/ r = inr tt /\ bs_ok b' bs'
           /\ ((length (text_of b) + 2) * (length (text_of b) + 2) <= slices -> bs_is_done bs' = true)
           /\ (bs_is_done bs' = true ->
               spans (bs_found bs') = take (bs_limit bs) (bs_matches (text_of b) bs)
               /\ (bs_lines bs = true -> bs_range bs = None -> Forall (placed (text_of b)) (bs_found bs')))).
Proof.
  intros Hok Hlen Hsize Hre Hcur. unfold buffer_search_run.
  destruct (bool_decide_reflect (src_version b = rs_version (bs_search bs))) as [Hv|Hv].
  - destruct (slice_run slices b bs bs (Hcur Hv) Hlen Hsize Hre) as (b' & bs' & r & -> & H1 & H2); try done. exists b', bs', r. split_and!; [done|done|]. tauto.
  - destruct (bs_range bs) as [rg|] eqn:Er; [exists b, bs, (inl EditedDuringSearch); split_and!; [done|done|]; right; left; by split_and!|].
    rw -Er. destruct (slice_run slices b bs _ (buffer_search_ok b bs Hok Hsize) Hlen Hsize Hre) as (b' & bs' & r & -> & H1 & H2); try done. exists b', bs', r. split_and!; [done|done|]. tauto.
Qed.
End top.

(** ** Plain text, and the text buffer as what is searched

    The engine of a plain-text query and why a search in windows is exact for it; the text
    buffer as a [TextSource]; searches on concrete texts, and where a search in windows is not
    what its documentation says. *)
(** ** The engine of a plain text *)
Fixpoint literal_scan (pat rest : list byte) (pos : nat) : option (nat * nat) :=
  if decide (take (length pat) rest = pat) then Some (pos, pos + length pat)
  else match rest with [] => None | _ :: rest => literal_scan pat rest (S pos) end.

Definition literal_find (pat t : list byte) (at_ : nat) : option (nat * nat) :=
  if length t <? at_ then None else literal_scan pat (drop at_ t) at_.

Lemma literal_scan_spec pat rest : forall pos,
  match literal_scan pat rest pos with
  | Some (s, e) => pos <= s /\ s - pos <= length rest /\ take (length pat) (drop (s - pos) rest) = pat /\ e = s + length pat
      /\ forall q, pos <= q -> q < s -> take (length pat) (drop (q - pos) rest) <> pat
  | None => forall q, pos <= q -> q - pos <= length rest -> take (length pat) (drop (q - pos) rest) <> pat
  end.
Proof.
  induction rest as [|x rest IH]; intros pos; cbn [literal_scan].
  - case_decide as Hd; [|intros q _ Hq; by rw drop_nil]. rw Nat.sub_diag. split_and!; [done|cbn; lia|done|done|intros; lia].
  - case_decide as Hd; [rw Nat.sub_diag; split_and!; [done|cbn; lia|done|done|intros; lia]|].
    specialize (IH (S pos)). destruct (literal_scan pat rest (S pos)) as [[s e]|].
    + destruct IH as (H1 & H2 & H3 & H4 & H5). replace (s - pos) with (S (s - S pos)) by lia. cbn [drop length].
      split_and!; [lia|lia|done|done|]. intros q Hq Hlt. destruct (Nat.eq_dec q pos) as [->|]; [by rw Nat.sub_diag|].
      replace (q - pos) with (S (q - S pos)) by lia. cbn [drop]. apply H5; lia.
    + intros q Hq Hlt. destruct (Nat.eq_dec q pos) as [->|]; [by rw Nat.sub_diag|].
      replace (q - pos) with (S (q - S pos)) in Hlt |- * by lia. cbn [drop length] in Hlt |- *. apply IH; lia.
Qed.

Lemma literal_hit pat t s e :
  hit literal_find pat t s e <-> s <= length t /\ take (length pat) (drop s t) = pat /\ e = s + length pat.
Proof.
  unfold hit, literal_find. destruct (Nat.ltb_spec (length t) s) as [Hlt|Hle]; [split; [done|lia]|].
  pose proof (literal_scan_spec pat (drop s t) s) as H. split.
  - intros E. rw E Nat.sub_diag in H. destruct H as (_ & _ & H & -> & _). done.
  - intros (_ & H1 & ->). destruct (literal_scan pat (drop s t) s) as [[s' e']|].
    + destruct H as (H2 & H3 & H4 & -> & H5). destruct (Nat.eq_dec s s') as [->|]; [done|].
      destruct (H5 s); [done|lia|]. by rw Nat.sub_diag.
    + destruct (H s); [done|lia|]. by rw Nat.sub_diag.
Qed.

Lemma literal_leftmost pat : leftmost_engine literal_find pat.
Proof.
  split.
  - intros t at_ s e Hf. assert (at_ <= length t) as Hat.
    { unfold literal_find in Hf. destruct (Nat.ltb_spec (length t) at_); [done|lia]. }
    pose proof (literal_scan_spec pat (drop at_ t) at_) as H. unfold literal_find in Hf. rw (proj2 (Nat.ltb_ge _ _) Hat) in Hf. rw Hf in H.
    destruct H as (H1 & H2 & H3 & -> & H5). rw drop_drop in H3. replace (at_ + (s - at_)) with s in H3 by lia. rw length_drop in H2.
    assert (s + length pat <= length t) as Hle. { apply (f_equal length) in H3. rw length_take length_drop in H3. lia. }
    split_and!; [done|lia|done|apply literal_hit; split_and!; [lia|done|done]|].
    intros q f Hq Hlt (_ & Hh & _)%literal_hit. apply (H5 q Hq Hlt). rw drop_drop. by replace (at_ + (q - at_)) with q by lia.
  - intros t at_ Hf q f Hq (Hl & Hh & _)%literal_hit. unfold literal_find in Hf. rw (proj2 (Nat.ltb_ge _ _)) in Hf; [lia|].
    pose proof (literal_scan_spec pat (drop at_ t) at_) as H. rw Hf in H. apply (H q Hq); [rw length_drop; lia|].
    rw drop_drop. by replace (at_ + (q - at_)) with q by lia.
Qed.

(** In a part of a text, plain text is where it is in the text. *)
Lemma literal_sub pat t a b s e :
  a <= s -> s + length pat <= b -> b <= length t ->
  hit literal_find pat (sub t a b) (s - a) (e - a) <-> take (length pat) (drop s t) = pat /\ e - a = s - a + length pat.
Proof.
  intros H1 H2 H3. rw literal_hit length_sub; [lia|done|].
  assert (take (length pat) (drop (s - a) (sub t a b)) = take (length pat) (drop s t)) as ->.
  { unfold sub. rw skipn_firstn_comm drop_drop take_take. f_equal; [lia|f_equal; lia]. }
  intuition lia.
Qed.

(** A search in windows is exact for plain text. *)
Lemma literal_windowed pat overlap : length pat <= overlap -> windowed_engine literal_find pat overlap.
Proof.
  intros Hlen. split; [apply literal_leftmost| | | |].
  - intros t a b s e H1 H2 H3 H4 _ _. rw (literal_hit pat t s e). split.
    + intros Hh. pose proof (proj1 (literal_hit _ _ _ _) Hh) as (B1 & B2 & B3). rw length_sub in B1; [lia|lia|].
      assert (s + length pat <= b) as Hb by lia. apply (literal_sub pat t a b s e) in Hh as [B4 B5]; [|lia..]. split_and!; [lia|done|lia].
    + intros (B1 & B2 & ->). apply (literal_sub pat t a b s); [done|lia|done|]. split; [done|lia].
  - intros t s e (_ & _ & ->)%literal_hit. lia.
  - intros t a b q f s e H1 _ H3 H4 (B1 & B2 & ->)%literal_hit Hh. pose proof (proj1 (literal_hit _ _ _ _) Hh) as (C1 & C2 & C3).
    assert (s - a + length pat <= b - a) as Hb.
    { apply (f_equal length) in C2. unfold sub in C2. rw length_take !length_drop length_take length_drop in C2. unfold sub in C1. rw length_take length_drop in C1. lia. }
    apply (literal_sub pat t a b q); [done|lia|done|]. split; [done|lia].
  - intros t a b s e q f H1 H2 H3 (B1 & B2 & B3)%literal_hit (C1 & C2 & ->)%literal_hit. lia.
Qed.

Lemma length_encode_all cs : length (encode_all cs) <= length cs * 4.
Proof. induction cs as [|c cs IH]; [done|]. rw encode_all_cons length_app. pose proof (length_encode_utf8 c). cbn [length]. lia. Qed.

(** The engine a plain query is compiled to needs no more than to find the query's text: the
    windows of its search reach back far enough. *)
Lemma plain_query_windowed {regex build_error} (find_at : regex -> list byte -> nat -> option (nat * nat)) escape
    (build : list N -> bool -> bool -> build_error + regex) q query :
  query_new escape build q false false true = inr query ->
  (forall t at_, find_at (sq_regex query) t at_ = literal_find (encode_all q) t at_) ->
  windowed_engine find_at (sq_regex query) (sq_overlap query).
Proof.
  intros Hq Hf. assert (sq_overlap query = length q * 4) as ->.
  { unfold query_new in Hq. cbn [andb negb] in Hq. destruct (build _ _ _); [done|]. by injection Hq as <-. }
  destruct (literal_windowed (encode_all q) _ (length_encode_all q)) as [[L1 L2] W1 W2 W3 W4].
  assert (forall t s e, hit find_at (sq_regex query) t s e <-> hit literal_find (encode_all q) t s e) as Hh by (intros; unfold hit; by rw Hf).
  split; [split| | | |]; intros *; rw ?Hf; setoid_rewrite Hh; eauto.
Qed.

(** ** Plain-text queries *)

(** The occurrences of [pat] that start in the [n] positions from [at_] on, none before [free]:
    from left to right and not overlapping. *)
Fixpoint occurrences (pat t : list byte) (n at_ free : nat) : list (nat * nat) :=
  match n with
  | 0 => []
  | S n =>
      if decide (free <= at_ /\ take (length pat) (drop at_ t) = pat)
      then (at_, length pat) :: occurrences pat t n (S at_) (at_ + length pat)
      else occurrences pat t n (S at_) free
  end.

(** Those that lie in a range of the text. *)
Definition occurrences_in (pat t : list byte) (range_start range_end : nat) : list (nat * nat) :=
  occurrences pat t (S (Nat.min range_end (length t)) - length pat - range_start) range_start range_start.

Lemma occurrences_skip pat t k : forall n at_, occurrences pat t n at_ (at_ + k) = occurrences pat t (n - k) (at_ + k) (at_ + k).
Proof.
  induction k as [|k IH]; intros n at_; [by rw Nat.add_0_r Nat.sub_0_r|]. destruct n as [|n]; [done|]. cbn [occurrences].
  rw decide_False; [lia|]. rw -Nat.add_succ_comm. by rw IH.
Qed.

Lemma occurrences_free pat t n : forall at_ free, free <= at_ -> occurrences pat t n at_ free = occurrences pat t n at_ at_.
Proof.
  induction n as [|n IH]; intros at_ free Hf; [done|]. cbn [occurrences].
  destruct (decide (take (length pat) (drop at_ t) = pat)) as [Hd|Hd].
  - by rw !decide_True.
  - rw !decide_False; [by intros [_ ?]..|]. rw (IH (S at_) free); [lia|]. rw (IH (S at_) at_) //. lia.
Qed.

Lemma literal_matches pat t stop : pat <> [] -> stop <= length t ->
  forall n at_ last, n = S stop - length pat - at_ ->
  matches_from literal_find pat t stop (stop =? length t) at_ last = occurrences pat t n at_ at_.
Proof.
  intros Hne Hstop. assert (0 < length pat) as Hpos by (destruct pat; [done|cbn; lia]).
  induction n as [n IH] using lt_wf_ind. intros at_ last Hn. destruct n as [|n].
  - apply matches_from_none; [apply literal_leftmost|]. intros q f Hq (H1 & H2 & ->)%literal_hit.
    unfold outside. rw (proj2 (Nat.ltb_lt stop (q + length pat))) ?orb_true_r //. lia.
  - cbn [occurrences]. case_decide as Hd.
    + destruct Hd as [_ Hd]. rw (matches_from_step literal_find pat); [apply literal_leftmost|lia|].
      assert (literal_find pat t at_ = Some (at_, at_ + length pat)) as -> by (apply literal_hit; split_and!; [lia|done|done]).
      assert (outside stop (stop =? length t) at_ (at_ + length pat) = false) as ->.
      { unfold outside. rw (proj2 (Nat.ltb_ge _ _)); [lia|]. rw (proj2 (Nat.ltb_ge _ _)); [lia|]. rw (proj2 (Nat.eqb_neq at_ stop)) //. lia. }
      rw (proj2 (Nat.eqb_neq at_ (at_ + length pat))); [lia|]. cbn [andb]. f_equal; [f_equal; lia|].
      destruct (length pat) as [|k] eqn:Ek; [lia|]. rw -Nat.add_succ_comm occurrences_skip. apply IH; lia.
    + rw (matches_from_skip literal_find pat t stop _ (literal_leftmost pat) at_ (S at_)); [lia| |].
      { intros s e H1 H2 (_ & H3 & _)%literal_hit. assert (s = at_) as -> by lia. by destruct Hd. }
      rw (IH n); [lia..|]. symmetry. apply occurrences_free. lia.
Qed.

Lemma find_iter_ext {R R'} (f : R -> list byte -> nat -> option (nat * nat)) re (f' : R' -> list byte -> nat -> option (nat * nat)) re' t stop to_end fuel :
  (forall t at_, f re t at_ = f' re' t at_) ->
  forall at_ last, find_iter f re t stop to_end fuel at_ last = find_iter f' re' t stop to_end fuel at_ last.
Proof.
  intros Hf. induction fuel as [|fuel IH]; intros at_ last; [done|]. cbn [find_iter]. rw Hf. case_match; [done|].
  destruct (f' re' t at_) as [[s e]|]; [|done]. case_match; [done|]. case_match; [apply IH|]. f_equal. apply IH.
Qed.

Section plain.
Context {regex build_error : Type} (find_at : regex -> list byte -> nat -> option (nat * nat)).
Context (escape : list N -> list N) (build : list N -> bool -> bool -> build_error + regex).

(** What the regex crate documents of [escape]: the escaped text, compiled without flags, is
    matched where that text is, the leftmost place at or after the offset first. *)
Definition escape_is_literal : Prop :=
  forall q re, build (escape q) false false = inr re -> forall t at_, find_at re t at_ = literal_find (encode_all q) t at_.

Context {B E : Type} (text_of : B -> list byte) (ok : B -> Prop) {fails : E -> Prop} `{!TextSource B E} `{!TextSourceLaws B E text_of ok fails}.
Context (usize_max load_chunk_size : nat).

Lemma plain_query q query :
  escape_is_literal -> query_new escape build q false false true = inr query -> q <> [] ->
  windowed_engine find_at (sq_regex query) (sq_overlap query)
  /\ forall t a b, range_matches find_at (sq_regex query) t a b = occurrences_in (encode_all q) t a b.
Proof.
  intros Hlit Hq Hne. assert (forall t at_, find_at (sq_regex query) t at_ = literal_find (encode_all q) t at_) as Hf.
  { apply Hlit. unfold query_new in Hq. cbn [andb negb] in Hq. destruct (build _ _ _); [done|]. by injection Hq as <-. }
  split; [by apply (plain_query_windowed find_at escape build q)|]. intros t a b. unfold range_matches, occurrences_in, matches_from. cbv zeta.
  rw (find_iter_ext find_at (sq_regex query) literal_find (encode_all q)) //. set (stop := Nat.min b (length t)).
  destruct (Nat.ltb_spec stop a) as [Hlt|Hle]; [by replace (S stop - _ - a) with 0 by lia|].
  apply literal_matches; [|unfold stop; lia|done]. destruct q as [|c q]; [done|]. rw encode_all_cons. intros H%app_nil.
  pose proof (length_encode_utf8 c) as Hl. destruct H as [H _]. rw H in Hl. cbn in Hl. lia.
Qed.


End plain.

(** ** Replacement templates *)

(** A text as a template that stands for itself. *)
Definition escaped_char (c : N) : list N :=
  if (c =? 92)%N then [92; 92]%N else if (c =? 10)%N then [92; 110]%N else if (c =? 9)%N then [92; 116]%N else if (c =? 13)%N then [92; 114]%N else [c].
Definition escaped (t : list N) : list N := concat (escaped_char <$> t).

Lemma interpret_escaped t : interpret_escapes (escaped t) = t.
Proof.
  unfold escaped. induction t as [|c t IH]; [done|]. cbn [fmap list_fmap concat]. unfold escaped_char at 1.
  destruct (N.eqb_spec c 92) as [->|Hc]; [cbn; by rw IH|]. destruct (N.eqb_spec c 10) as [->|_]; [cbn; by rw IH|].
  destruct (N.eqb_spec c 9) as [->|_]; [cbn; by rw IH|]. destruct (N.eqb_spec c 13) as [->|_]; [cbn; by rw IH|].
  cbn [app interpret_escapes]. rw (proj2 (N.eqb_neq _ _) Hc). cbn [negb]. by rw IH.
Qed.

(** Templates without [$] need no normalising. *)
Lemma normalize_plain t : (36 ∉ t)%N -> normalize_replacement t = t.
Proof.
  unfold normalize_replacement. induction t as [|c t IH]; [done|]. intros [Hc Ht]%not_elem_of_cons. cbn [normalize_chars andb app].
  destruct (N.eqb_spec c 36) as [->|_]; [done|]. cbn [andb]. by rw IH.
Qed.

(** ** The text buffer as what is searched *)
Section buffer.
Context (files : string -> list byte) {io_error : Type}.
Context (fs_read_range : string -> nat -> nat -> io_error + list byte).
Context (count_line_feeds_in_range : string -> nat -> nat -> io_error + nat).
Context (load_chunk_size chunk_alignment : nat).

(** Loading is no edit. *)
Lemma load_buffer_version tb id missing tb' r : load_buffer fs_read_range tb id missing = Ok (tb', r) -> version tb' = version tb.
Proof.
  unfold load_buffer. destruct (tb_buffers tb !! id) as [b|]; [|by intros [= <- _]].
  destruct (load fs_read_range b) as [[e|b']|]; cbn [mbind res_bind]; [by intros [= <- _]..|done].
Qed.

Lemma after_chunk_load_version tb id start n new_id tb' :
  after_chunk_load count_line_feeds_in_range tb id start n new_id = Ok tb' -> version tb' = version tb.
Proof.
  unfold after_chunk_load. destruct (line_feeds_scanned (file_kind tb)); cbn [mbind res_bind]; [|by intros [= <-]].
  destruct (fix_line_feeds count_line_feeds_in_range tb (piece_tree tb)) as [t|]; cbn [mbind res_bind]; [by intros [= <-]|done].
Qed.

Lemma chunk_split_and_load_version tb view cur tb' r :
  chunk_split_and_load fs_read_range count_line_feeds_in_range load_chunk_size chunk_alignment tb view cur = Ok (tb', r) -> version tb' = version tb.
Proof.
  unfold chunk_split_and_load. destruct (negb _).
  - destruct (load_buffer _ _ _ _) as [[tb1 r1]|] eqn:E; cbn [mbind res_bind]; [|done]. intros [= <- _]. by apply load_buffer_version in E.
  - destruct (chunk_range _ _ _ _) as [start n]. destruct (if decide _ then _ else _) as [t1|]; cbn [mbind res_bind]; [|done].
    destruct (if decide _ then _ else _) as [t2|]; cbn [mbind res_bind]; [|done].
    destruct (tb_buffers (set_tree tb t2) !! _) as [buf|]; [|by intros [= <- _]].
    destruct (create_chunk_buffer _ _ _ _) as [chunk|]; [|by intros [= <- _]].
    destruct (load_buffer _ _ _ _) as [[tb1 [e|u]]|] eqn:E; cbn [mbind res_bind]; [| |done]; apply load_buffer_version in E; cbn in E; [by intros [= <- _]|].
    destruct (after_chunk_load _ _ _ _ _ _) as [tb2|] eqn:E2; cbn [mbind res_bind]; [|done]. intros [= <- _]. by rw (after_chunk_load_version _ _ _ _ _ _ E2).
Qed.

Lemma read_views_version vs : forall tb cur end_ result progress tb' r,
  read_views fs_read_range count_line_feeds_in_range load_chunk_size chunk_alignment tb vs cur end_ result progress = Ok (tb', r) ->
  version tb' = version tb.
Proof.
  induction vs as [|v vs IH]; intros tb cur end_ result progress tb' r; cbn [read_views]; [by intros [= <- _]|].
  set (step := if needs_loading _ _ then _ else _). destruct step as [[tb1 r1]|] eqn:E; cbn [mbind res_bind]; [|done].
  assert (version tb1 = version tb) as Hv.
  { subst step. destruct (needs_loading _ _); [by apply chunk_split_and_load_version in E|]. by injection E as <-. }
  destruct r1 as [e|[]]; [by intros [= <- _]..|]. case_decide; [|intros H1; by rw (IH _ _ _ _ _ _ _ H1)].
  destruct (tb_buffers tb1 !! _) as [buf|]; [|by intros [= <- _]]. destruct (get_data buf) as [data|]; [|by intros [= <- _]].
  case_decide; [by intros [= <- _]|]. destruct (slice _ _ _) as [part|]; cbn [mbind res_bind]; [|done]. intros H1. by rw (IH _ _ _ _ _ _ _ H1).
Qed.

Lemma read_loop_version fuel : forall tb cur end_ result tb' r,
  read_loop fs_read_range count_line_feeds_in_range load_chunk_size chunk_alignment fuel tb cur end_ result = Ok (tb', r) -> version tb' = version tb.
Proof.
  induction fuel as [|fuel IH]; intros tb cur end_ result tb' r; cbn [read_loop]; case_decide; try done; try by intros [= <- _].
  destruct (read_views _ _ _ _ _ _ _ _ _ _) as [[tb1 r1]|] eqn:E; cbn [mbind res_bind]; [|done]. apply read_views_version in E. rw -E.
  destruct r1 as [e|[[[restarted cur'] result'] progress]]; [by intros [= <- _]|]. destruct (_ && _); [by intros [= <- _]|]. apply IH.
Qed.

Lemma get_text_range_mut_version tb off n tb' r :
  get_text_range_mut fs_read_range count_line_feeds_in_range load_chunk_size chunk_alignment tb off n = Ok (tb', r) -> version tb' = version tb.
Proof. unfold get_text_range_mut. case_decide; [by intros [= <- _]|]. apply read_loop_version. Qed.

(** [TextBuffer], as a search reads it. *)
Definition text_buffer_source : TextSource TextBuffer (LoadError io_error) := {|
  src_version := version;
  src_len := tb_total_bytes;
  src_read := get_text_range_mut fs_read_range count_line_feeds_in_range load_chunk_size chunk_alignment;
|}.

Hypothesis Hread : forall path off n d, fs_read_range path off n = inr d -> d = take n (drop off (files path)) /\ length d = n.
Hypothesis Hcount : forall path off n c, count_line_feeds_in_range path off n = inr c -> c = count_newlines (take n (drop off (files path))).
Hypothesis Hsize : 0 < load_chunk_size.
Hypothesis Halign : 0 < chunk_alignment.
Hypothesis Hdiv : Nat.divide chunk_alignment load_chunk_size.

Definition searchable (tb : TextBuffer) : Prop := tb_inv files tb /\ loadable load_chunk_size chunk_alignment tb.

(** What makes a read fail. *)
Definition refused (e : LoadError io_error) : Prop := exists err, e = LoadFailed err /\ read_failed files fs_read_range err.

(** The text buffer keeps the promises a search relies on. *)
Lemma text_buffer_laws : @TextSourceLaws TextBuffer _ text_buffer_source (tb_text files) searchable refused.
Proof.
  split.
  - intros tb [H1 _]. by apply tb_total_bytes_text.
  - intros tb off n [H1 H2]. cbn [text_buffer_source src_read src_version].
    destruct (get_text_range_mut_ok files fs_read_range count_line_feeds_in_range load_chunk_size chunk_alignment Hread Hcount Hsize Halign Hdiv tb off n H1 H2)
      as (tb' & r & E & I1 & I2 & I3 & Hr).
    exists tb', r. split_and!; [done|done|done|by apply get_text_range_mut_version in E|]. destruct Hr as [(e & -> & He)| ->]; [left; exists (LoadFailed e); split; [done|by exists e]|by right].
Qed.
End buffer.

(** ** Searching a file loaded on demand

    The twelve bytes [0123456789ab], loaded four at a time, searched in windows of two. *)
#[local] Instance digits_source : TextSource TextBuffer (LoadError unit) := text_buffer_source digits_read_some digits_count 4 2.
#[local] Instance digits_laws : TextSourceLaws TextBuffer (LoadError unit) (tb_text (fun _ => digits)) (searchable (fun _ => digits) 4 2) (refused (fun _ => digits) digits_read_some) :=
  text_buffer_laws (fun _ => digits) digits_read_some digits_count 4 2 digits_read_ok digits_count_ok ltac:(lia) ltac:(lia) (ex_intro _ 2 eq_refl).

(** The query [78], compiled to its bytes. *)
Definition seven_eight : SearchQuery := mkSearchQuery [x37; x38] 8.
Definition build_literal (pattern : list N) (case_insensitive multi_line : bool) : unit + list byte := inr (encode_all pattern).

Lemma build_literal_ok : escape_is_literal literal_find (fun q => q) build_literal.
Proof. intros q re [= <-] t at_. reflexivity. Qed.

Lemma digits_searchable : searchable (fun _ => digits) 4 2 digits_buffer /\ tb_text (fun _ => digits) digits_buffer = digits.
Proof.
  destruct (open_unloaded_ok (fun _ => digits) 4 2 ltac:(lia) ltac:(lia) EmptyString LF Utf8 false) as (Hinv & Hld & Htx); [done|].
  done.
Qed.

Lemma digits_never_refused e : ~ refused (fun _ => digits) digits_read_some e.
Proof. intros (err & _ & H). exact (digits_never_fail err H). Qed.



(** ** Where a search in windows and one of the text differ

    Alternatives, the first that matches preferred, on a text that is read whole. *)
Definition first_alternative (alts : list (list byte)) (rest : list byte) : option nat :=
  length <$> head (filter (fun alt => take (length alt) rest = alt) alts).

Fixpoint alternatives_scan (alts : list (list byte)) (rest : list byte) (pos : nat) : option (nat * nat) :=
  match first_alternative alts rest with
  | Some n => Some (pos, pos + n)
  | None => match rest with [] => None | _ :: rest => alternatives_scan alts rest (S pos) end
  end.

Definition alternatives_find (alts : list (list byte)) (t : list byte) (at_ : nat) : option (nat * nat) :=
  if length t <? at_ then None else alternatives_scan alts (drop at_ t) at_.

#[local] Instance text_source : TextSource (list byte) unit := {|
  src_version _ := 0%Z; src_len := length; src_read t off n := Ok (t, inr (take n (drop off t))) |}.

(** [abcdefghij|c] in [xabcdefghijx], four bytes at a time, each window reaching back over the
    longest match: at the end of the first window the long match cannot be seen yet and the
    short one inside it counts. *)
Definition long_or_short : list (list byte) := [take 10 (drop 1 [x78; x61; x62; x63; x64; x65; x66; x67; x68; x69; x6a]); [x63]].
Definition long_text : list byte := [x78; x61; x62; x63; x64; x65; x66; x67; x68; x69; x6a; x78].

Lemma windows_hide_a_match :
  find_regex_matches_in_windows alternatives_find 100 4 (mkSearchQuery long_or_short 10) 0 12 10 4 long_text = Ok (long_text, inr [(3, 1)])
  /\ range_matches alternatives_find long_or_short long_text 0 12 = [(1, 10)].
Proof. split; vm_compute; reflexivity. Qed.
