(* ===== verification/TextBufferNav.v ===== *)
(** * Text buffer: positions for language servers and character boundaries

    Models the part of crates/fresh-editor-core/src/model/buffer/mod.rs that converts between
    byte offsets and the positions of the language server protocol, which count UTF-16 units,
    and that steps between the characters of a UTF-8 text.  The theorems are about texts whose
    characters are known: the encoding of a list of scalar values. *)
From stdpp Require Import base numbers list option strings.
From Stdlib Require Import ssreflect Strings.Byte NArith ZArith.
From S2P Require Import Prelude TextSpec Utf8 LineDiff StringBuffer PieceTree PieceTreeInv PieceTreeEdit PieceTreeQuery PieceTreeLines.
From S2P Require Import BufferFormat TextBuffer TextBufferInv TextBufferLoad TextBufferLoadInv LineDiffText TextEditInv.

(** ** Positions *)
Definition position_to_line_col (tb : TextBuffer) (byte_pos : nat) : res (nat * nat) :=
  pos ← tb_offset_to_position tb byte_pos;
  Ok (default (byte_pos / 80, 0) pos).

(** The length of a line, from its range. *)
Definition line_range_len (tb : TextBuffer) (start : nat) (end_ : option nat) : nat :=
  match end_ with Some end_offset => end_offset - start | None => tb_total_bytes tb - start end.

Definition line_col_to_position (tb : TextBuffer) (line character : nat) : res nat :=
  range ← line_range (piece_tree tb) line (tb_buffers tb);
  Ok (match range with
      | Some (start, end_) => start + Nat.min character (line_range_len tb start end_)
      | None => tb_total_bytes tb
      end).

Definition position_to_lsp_position (tb : TextBuffer) (byte_pos : nat) : res (nat * nat) :=
  pos ← tb_offset_to_position tb byte_pos;
  let '(line, column_bytes) := default (byte_pos / 80, 0) pos in
  let line_start := byte_pos - column_bytes in
  let prefix := slice_bytes tb line_start byte_pos in
  Ok (line, length (from_utf8_lossy prefix ≫= encode_utf16)).

(** The loop over the characters of the line. *)
Fixpoint utf16_walk (chars : list N) (utf16_offset utf16_count byte_offset : nat) : nat :=
  match chars with
  | [] => byte_offset
  | ch :: chars =>
      if utf16_offset <=? utf16_count then byte_offset
      else utf16_walk chars utf16_offset (utf16_count + length (encode_utf16 ch)) (byte_offset + length (encode_utf8 ch))
  end.

Definition lsp_position_to_byte (tb : TextBuffer) (line utf16_offset : nat) : res nat :=
  range ← line_range (piece_tree tb) line (tb_buffers tb);
  Ok (match range with
      | None => tb_total_bytes tb
      | Some (line_start, end_) =>
          let line_len := line_range_len tb line_start end_ in
          if 0 <? line_len then
            match get_text_range tb line_start line_len with
            | None => line_start
            | Some line_bytes => line_start + utf16_walk (from_utf8_lossy line_bytes) utf16_offset 0 0
            end
          else line_start
      end).

(** ** Character boundaries *)

(** The last index below [count] that starts a character. *)
Fixpoint last_char_start (bytes : list byte) (count : nat) : option nat :=
  match count with
  | 0 => None
  | S i => if is_continuation (bytes !! i) then last_char_start bytes i else Some i
  end.

Definition prev_char_boundary (tb : TextBuffer) (pos : nat) : nat :=
  if pos =? 0 then 0 else
  let start := pos - 4 in
  match get_text_range tb start (pos - start) with
  | None => pos
  | Some bytes => match last_char_start bytes (length bytes) with Some i => start + i | None => pos - 1 end
  end.

(** The first index from [from] on that starts a character. *)
Fixpoint first_char_start (bytes : list byte) (from : nat) : option nat :=
  match bytes with
  | [] => None
  | b :: bytes => if is_continuation (Some b) then first_char_start bytes (S from) else Some from
  end.

Definition next_char_boundary (tb : TextBuffer) (pos : nat) : nat :=
  let len := tb_total_bytes tb in
  if len <=? pos then len else
  let end_ := Nat.min (pos + 5) len in
  match get_text_range tb pos (end_ - pos) with
  | None => pos
  | Some bytes => match first_char_start (drop 1 bytes) 1 with Some i => pos + i | None => end_ end
  end.

Definition snap_to_char_boundary (tb : TextBuffer) (pos : nat) : res nat :=
  let len := tb_total_bytes tb in
  if (pos =? 0) || (len <=? pos) then Ok (Nat.min pos len) else
  match get_text_range tb pos 1 with
  | None => Ok pos
  | Some [] => Panic
  | Some (b :: _) => Ok (if negb (is_continuation (Some b)) then pos else prev_char_boundary tb pos)
  end.

Section loading.
Context {io_error : Type}.
Context (fs_read_range : string -> nat -> nat -> io_error + list byte).
Context (count_line_feeds_in_range : string -> nat -> nat -> io_error + nat).
Context (load_chunk_size chunk_alignment : nat).

Definition char_boundary_at_or_after (tb : TextBuffer) (pos : nat) : res (TextBuffer * nat) :=
  let len := tb_total_bytes tb in
  if (pos =? 0) || (len <=? pos) then Ok (tb, Nat.min pos len) else
  '(tb, r) ← get_text_range_mut fs_read_range count_line_feeds_in_range load_chunk_size chunk_alignment tb pos (Nat.min 4 (len - pos));
  Ok (tb, match r with
          | inl _ => pos
          | inr bytes => pos + default (length bytes) (first_char_start bytes 0)
          end).
End loading.

(** ** Lines of characters *)

(** The characters behind the last newline. *)
Fixpoint last_line (cs : list N) : list N :=
  match cs with
  | [] => []
  | c :: cs => if bool_decide (10%N ∈ c :: cs) then last_line cs else c :: cs
  end.

(** The characters up to the first newline, with it. *)
Fixpoint rest_of_line (cs : list N) : list N :=
  match cs with
  | [] => []
  | c :: cs => if bool_decide (c = 10%N) then [c] else c :: rest_of_line cs
  end.

Definition newlines (cs : list N) : nat := length (filter (fun c => c = 10%N) cs).
Definition utf16_len (cs : list N) : nat := length (cs ≫= encode_utf16).
Abbreviation scalars := (Forall (fun c => is_scalar c = true)).

Lemma last_line_split cs :
  exists pre, cs = pre ++ last_line cs /\ (10%N ∉ last_line cs) /\ (pre = [] \/ exists pre', pre = pre' ++ [10%N]).
Proof.
  induction cs as [|c cs (pre & E & Hn & Hp)]; [exists []; split_and!; [done|apply not_elem_of_nil|by left]|]. cbn [last_line].
  case_bool_decide as Hin; [|exists []; split_and!; [done|done|by left]].
  exists (c :: pre). split_and!; [cbn; by f_equal|done|]. destruct Hp as [->|[pre' ->]]; [|right; by exists (c :: pre')].
  right. exists []. cbn [app] in E |- *. rw -E in Hn. f_equal. apply elem_of_cons in Hin as [Hin|Hin]; [by symmetry|done].
Qed.

Lemma rest_of_line_none cs : (10%N ∉ cs) -> rest_of_line cs = cs.
Proof.
  induction cs as [|c cs IH]; [done|]. intros [H1 H2]%not_elem_of_cons. cbn [rest_of_line]. rw bool_decide_eq_false_2; [congruence|]. by rw IH.
Qed.

Lemma rest_of_line_split u v : (10%N ∉ u) -> rest_of_line (u ++ 10%N :: v) = u ++ [10%N].
Proof.
  induction u as [|c u IH]; [done|]. intros [H1 H2]%not_elem_of_cons. cbn [app rest_of_line]. rw bool_decide_eq_false_2; [congruence|]. by rw IH.
Qed.

Lemma rest_of_line_prefix cs : rest_of_line cs `prefix_of` cs.
Proof.
  induction cs as [|c cs IH]; [done|]. cbn [rest_of_line]. case_bool_decide; [exists cs; done|by apply prefix_cons].
Qed.

Lemma count_newlines_encoded cs : scalars cs -> count_newlines (encode_all cs) = newlines cs.
Proof.
  unfold newlines. induction 1 as [|c cs Hc _ IH]; [done|]. rw encode_all_cons count_newlines_app IH filter_cons.
  case_decide as Hd; [by subst|]. assert (count_newlines (encode_utf8 c) = 0) as ->; [|done].
  pose proof (encode_no_newline c Hc Hd) as Hf. unfold count_newlines. induction Hf as [|b bs Hb _ IHb]; [done|]. cbn [List.filter]. by rw Hb.
Qed.

Lemma newlines_app cs ds : newlines (cs ++ ds) = newlines cs + newlines ds.
Proof. unfold newlines. by rw filter_app length_app. Qed.

Lemma newlines_none cs : (10%N ∉ cs) -> newlines cs = 0.
Proof.
  unfold newlines. induction cs as [|c cs IH]; [done|]. intros [H1 H2]%not_elem_of_cons. rw filter_cons decide_False; [congruence|]. by apply IH.
Qed.

(** Behind a newline, a line starts. *)
Lemma line_starts_after_newline t u : (t = [] \/ exists t', t = t' ++ [x0a]) -> nth_line_start (t ++ u) (count_newlines t) = Some (length t).
Proof.
  intros [->|[t' ->]]; [by destruct u|]. rw nth_line_start_app_l //.
  assert ((t' ++ [x0a]) !! length t' = Some x0a) as Hl by by apply list_lookup_middle.
  pose proof (nth_line_start_after_nl _ _ _ Hl eq_refl) as H. unfold line_of in H. rw take_app_length in H.
  rw count_newlines_app length_app /=. rw Nat.add_1_r Nat.add_1_r. exact H.
Qed.

Lemma utf16_unit c : 1 <= length (encode_utf16 c).
Proof. unfold encode_utf16. case_match; cbn; lia. Qed.

Lemma utf16_walk_ok cs rest : forall count bytes,
  utf16_walk (cs ++ rest) (count + utf16_len cs) count bytes = bytes + length (encode_all cs).
Proof.
  unfold utf16_len. induction cs as [|c cs IH]; intros count bytes; cbn [app].
  - cbn. rw !Nat.add_0_r. destruct rest as [|c rest]; [done|]. cbn [utf16_walk]. by rw Nat.leb_refl.
  - cbn [utf16_walk]. pose proof (utf16_unit c). cbn [mbind list_bind]. rw length_app. rw (proj2 (Nat.leb_gt _ _)); [lia|].
    rw Nat.add_assoc IH encode_all_cons length_app. lia.
Qed.

(** ** Scanning for the start of a character *)
Lemma first_char_start_cont m rest : forall from,
  Forall (fun b => is_continuation (Some b) = true) m -> first_char_start (m ++ rest) from = first_char_start rest (from + length m).
Proof.
  induction m as [|b m IH]; intros from Hm; [cbn; by rw Nat.add_0_r|]. apply Forall_cons_1 in Hm as [Hb Hm].
  cbn [app first_char_start length]. rw Hb IH //. f_equal. lia.
Qed.

Lemma first_char_start_here rest from : starts_char rest -> rest <> [] -> first_char_start rest from = Some from.
Proof. destruct rest as [|b rest]; [done|]. cbn. by intros ->. Qed.

Lemma last_char_start_at bytes i count :
  i < count -> is_continuation (bytes !! i) = false -> (forall j, i < j -> j < count -> is_continuation (bytes !! j) = true) ->
  last_char_start bytes count = Some i.
Proof.
  induction count as [|count IH]; intros Hi Hb Hj; [lia|]. cbn [last_char_start]. destruct (Nat.eq_dec i count) as [->|]; [by rw Hb|].
  rw Hj; [lia|lia|]. apply IH; [lia|done|]. intros j H1 H2. apply Hj; lia.
Qed.

Lemma rest_of_char c k : is_scalar c = true -> Forall (fun b => is_continuation (Some b) = true) (drop (S k) (encode_utf8 c)).
Proof. intros Hc. apply Forall_lookup. intros i b. rw lookup_drop. apply char_continues; [done|lia]. Qed.

(** A character and the bytes of the text around it. *)
Section character.
Context (cs1 cs2 : list N) (c : N).
Hypothesis Hs : scalars (cs1 ++ c :: cs2).
Local Abbreviation p := (length (encode_all cs1)).
Local Abbreviation n := (length (encode_utf8 c)).
Local Abbreviation t := (encode_all (cs1 ++ c :: cs2)).

Lemma here_scalar : is_scalar c = true /\ scalars cs2.
Proof. apply Forall_app in Hs as [_ H]. by apply Forall_cons_1 in H. Qed.

Lemma length_here : length t = p + n + length (encode_all cs2).
Proof. rw encode_all_app encode_all_cons !length_app. lia. Qed.

Lemma drop_here k : k <= n -> drop (p + k) t = drop k (encode_utf8 c) ++ encode_all cs2.
Proof. intros Hk. rw encode_all_app -drop_drop drop_app_length encode_all_cons drop_app_le //. Qed.

Lemma lookup_here k : k < n -> t !! (p + k) = encode_utf8 c !! k.
Proof. intros Hk. rw encode_all_app lookup_app_r; [lia|]. rw encode_all_cons lookup_app_l; [lia|]. f_equal. lia. Qed.

(** From inside a character, the next one is behind it. *)
Lemma next_start w k :
  k < n -> 5 <= w ->
  first_char_start (drop 1 (take w (drop (p + k) t))) 1 = if decide (cs2 = []) then None else Some (n - k).
Proof.
  intros Hk Hw. destruct here_scalar as [Hc Hs2]. pose proof (length_encode_utf8 c) as Hn. rw drop_here; [lia|].
  rw skipn_firstn_comm drop_app_le; [rw length_drop; lia|]. rw drop_drop Nat.add_1_r.
  rw take_app_ge; [rw length_drop; lia|]. rw first_char_start_cont; [by apply rest_of_char|]. rw length_drop.
  case_decide as Hd; [subst; cbn; by rw take_nil|]. rw first_char_start_here; [| |f_equal; lia].
  - pose proof (valid_starts _ (ex_intro _ cs2 (conj Hs2 eq_refl))) as H. destruct (encode_all cs2); [by rw take_nil|].
    destruct (w - 1 - (n - S k)) eqn:Ew; [lia|]. done.
  - destruct cs2 as [|d ds]; [done|]. pose proof (length_encode_utf8 d). rw encode_all_cons. intros E. apply (f_equal length) in E.
    rw length_take length_app in E. cbn in E. lia.
Qed.

(** Back from behind a part of a character, the last start is its own. *)
Lemma prev_start k :
  0 < k <= n ->
  let start := p + k - 4 in
  last_char_start (take (p + k - start) (drop start t)) (length (take (p + k - start) (drop start t))) = Some (p - start).
Proof.
  intros Hk start. destruct here_scalar as [Hc _]. pose proof (length_encode_utf8 c) as Hn. pose proof length_here as Hl.
  rw length_take length_drop. assert (forall j, j < p + k - start -> take (p + k - start) (drop start t) !! j = t !! (start + j)) as Hlook.
  { intros j Hj. by rw lookup_take_lt // lookup_drop. }
  apply last_char_start_at; [lia| |].
  - rw Hlook; [lia|]. replace (start + (p - start)) with (p + 0) by lia. rw lookup_here; [lia|]. pose proof (char_starts c Hc) as H.
    destruct (encode_utf8 c); [cbn in *; lia|done].
  - intros j H1 H2. rw Hlook; [lia|]. replace (start + j) with (p + (start + j - p)) by lia. rw lookup_here; [lia|].
    destruct (lookup_lt_is_Some_2 (encode_utf8 c) (start + j - p)) as [b Eb]; [lia|]. rw Eb. apply (char_continues c _ b Hc) in Eb; [done|lia].
Qed.
End character.

Section text.
Context (files : string -> list byte) (tb : TextBuffer).
Hypothesis Hinv : tb_inv files tb.
Local Abbreviation text := (tb_text files tb).

Section loaded.
Hypothesis Hloaded : Forall (leaf_loaded (tb_buffers tb)) (node_leaves (root (piece_tree tb))).

Lemma get_text_range_loaded off n : get_text_range tb off n = Some (take n (drop off text)).
Proof. apply (read_range_ok (content_in files (tb_buffers tb))); [apply content_in_agree|apply Hinv|done]. Qed.

(** On a UTF-8 text in memory, from anywhere in a character the next boundary is behind
    it and the previous one, from behind any part of it, is its start; an offset inside it
    snaps to its start. *)
Theorem char_boundaries cs1 c cs2 k :
  scalars (cs1 ++ c :: cs2) -> text = encode_all (cs1 ++ c :: cs2) -> k < length (encode_utf8 c) ->
  next_char_boundary tb (length (encode_all cs1) + k) = length (encode_all cs1) + length (encode_utf8 c)
  /\ prev_char_boundary tb (length (encode_all cs1) + S k) = length (encode_all cs1)
  /\ snap_to_char_boundary tb (length (encode_all cs1) + k) = Ok (length (encode_all cs1)).
Proof.
  intros Hs Ht Hk. pose proof (length_here cs1 cs2 c) as Hl. pose proof (length_encode_utf8 c) as Hn. destruct (here_scalar cs1 cs2 c Hs) as [Hc _].
  assert (tb_total_bytes tb = length (encode_all (cs1 ++ c :: cs2))) as Htot by by rw (tb_total_bytes_text files tb Hinv) Ht.
  assert (forall j, 0 < j -> j <= length (encode_utf8 c) -> prev_char_boundary tb (length (encode_all cs1) + j) = length (encode_all cs1)) as Hprev.
  { intros j H1 H2. unfold prev_char_boundary. destruct (Nat.eqb_spec (length (encode_all cs1) + j) 0); [lia|].
    rw get_text_range_loaded Ht prev_start //. lia. }
  split_and!; [|apply Hprev; lia|].
  - unfold next_char_boundary. rw Htot. destruct (Nat.leb_spec (length (encode_all (cs1 ++ c :: cs2))) (length (encode_all cs1) + k)); [lia|].
    rw get_text_range_loaded Ht. set (w := Nat.min _ _ - _). destruct (Nat.le_gt_cases 5 w) as [Hw|Hw].
    + rw next_start //. case_decide as Hd; [|lia]. subst cs2. cbn [encode_all mbind list_bind length] in Hl. lia.
    + assert (forall l : list byte, length l <= w -> take w l = take 5 l) as Hcut by (intros l H1; rw !take_ge //; lia).
      rw Hcut; [rw length_drop; lia|]. rw next_start //. case_decide as Hd; [|lia]. subst cs2. cbn in Hl. lia.
  - unfold snap_to_char_boundary. rw Htot. destruct (Nat.leb_spec (length (encode_all (cs1 ++ c :: cs2))) (length (encode_all cs1) + k)); [lia|].
    rw orb_false_r. destruct (Nat.eqb_spec (length (encode_all cs1) + k) 0) as [Hz|_]; [f_equal; lia|].
    rw get_text_range_loaded Ht. rw drop_here; [lia|]. destruct (drop k (encode_utf8 c)) as [|b bs] eqn:Eb.
    { apply (f_equal length) in Eb. rw length_drop in Eb. cbn in Eb. lia. }
    cbn [app take]. assert (encode_utf8 c !! k = Some b) as Hb by (rw -(Nat.add_0_r k) -lookup_drop Eb //).
    destruct k as [|k]; [|rw (char_continues c _ b Hc _ Hb); [lia|]; cbn [negb]; f_equal; apply Hprev; lia].
    pose proof (char_starts c Hc) as H0. destruct (encode_utf8 c) as [|b' bs']; [done|]. injection Hb as ->. cbn in H0 |- *. rw H0. cbn. f_equal. lia.
Qed.
End loaded.

Hypothesis Hix : Forall (leaf_indexed (tb_buffers tb)) (node_leaves (root (piece_tree tb))).

Lemma indexed_loaded : Forall (leaf_loaded (tb_buffers tb)) (node_leaves (root (piece_tree tb))).
Proof. eapply Forall_impl; [exact Hix|]. intros l (_ & b & d & ls & Hb & Hd & _). unfold leaf_loaded. rw Hb. by exists d. Qed.

(** The line of a character, and what of it comes before the character. *)
Lemma text_position cs1 cs2 :
  scalars (cs1 ++ cs2) -> text = encode_all (cs1 ++ cs2) ->
  exists pre, cs1 = pre ++ last_line cs1
    /\ nth_line_start text (newlines cs1) = Some (length (encode_all pre))
    /\ tb_offset_to_position tb (length (encode_all cs1)) = Ok (Some (newlines cs1, length (encode_all (last_line cs1)))).
Proof.
  intros Hs Ht. destruct (last_line_split cs1) as (pre & E & Hn & Hp). exists pre. split; [done|].
  assert (scalars cs1) as Hs1 by by apply Forall_app in Hs as [? _].
  assert (newlines cs1 = newlines pre) as Hnl by (rw {1}E newlines_app (newlines_none (last_line cs1)); [done|lia]).
  assert (scalars pre) as Hpre by (rw E in Hs1; by apply Forall_app in Hs1 as [? _]).
  assert (nth_line_start text (newlines cs1) = Some (length (encode_all pre))) as Hst.
  { rw Ht {1}E -app_assoc encode_all_app Hnl -(count_newlines_encoded pre) //. apply line_starts_after_newline.
    destruct Hp as [->|[pre' ->]]; [by left|right]. exists (encode_all pre'). by rw encode_all_app. }
  split; [done|]. unfold tb_offset_to_position.
  rw (offset_to_position_ok (content_in files (tb_buffers tb)) (tb_buffers tb)); [apply content_in_agree|apply Hinv|exact Hix|].
  change (PieceTreeInv.text _ _) with text. assert (length (encode_all cs1) <= length text) as Hle by (rw Ht encode_all_app length_app; lia).
  rw (tb_total_bytes_text files tb Hinv : total_bytes (piece_tree tb) = length text) Nat.min_l //.
  assert (line_of text (length (encode_all cs1)) = newlines cs1) as Hln.
  { unfold line_of. rw Ht encode_all_app take_app_length. by apply count_newlines_encoded. }
  unfold position_of. rw Hln Hst. cbn [default from_option id]. do 3 f_equal. rw {1}E encode_all_app length_app. lia.
Qed.

(** The line of a character, to its end. *)
Lemma text_line cs1 cs2 pre :
  scalars (cs1 ++ cs2) -> text = encode_all (cs1 ++ cs2) -> cs1 = pre ++ last_line cs1 ->
  nth_line_start text (newlines cs1) = Some (length (encode_all pre)) ->
  exists end_, line_range (piece_tree tb) (newlines cs1) (tb_buffers tb) = Ok (Some (length (encode_all pre), end_))
    /\ line_range_len tb (length (encode_all pre)) end_ = length (encode_all (last_line cs1 ++ rest_of_line cs2)).
Proof.
  intros Hs Ht E Hst. rw (line_range_correct (content_in files (tb_buffers tb))); [apply content_in_agree|apply Hinv|exact Hix|].
  change (PieceTreeInv.text _ _) with text. rw Hst. cbn [fmap option_fmap option_map].
  destruct (decide (10%N ∈ cs2)) as [Hin|Hout].
  - apply list_elem_of_split_l in Hin as (u & v & -> & Hu). exists (Some (length (encode_all (cs1 ++ u ++ [10%N])))).
    rw rest_of_line_split //. split.
    + do 3 f_equal. assert (scalars (cs1 ++ u ++ [10%N])) as Hs'.
      { rw !Forall_app in Hs. destruct Hs as (H1 & H2 & H3). rw !Forall_app. split_and!; [done|done|by repeat constructor]. }
      rw Ht. replace (cs1 ++ u ++ 10%N :: v) with ((cs1 ++ u ++ [10%N]) ++ v) by by rw -!app_assoc.
      rw encode_all_app. replace (newlines cs1 + 1) with (count_newlines (encode_all (cs1 ++ u ++ [10%N]))).
      2: { rw count_newlines_encoded // !newlines_app (newlines_none u) //. }
      apply line_starts_after_newline. right. exists (encode_all (cs1 ++ u)). by rw app_assoc encode_all_app.
    + cbn [line_range_len]. rw {1}E -app_assoc encode_all_app length_app. lia.
  - exists None. rw rest_of_line_none //. split.
    + do 3 f_equal. apply eq_None_not_Some. rw nth_line_start_is_Some Ht count_newlines_encoded // newlines_app (newlines_none cs2) //. lia.
    + cbn [line_range_len]. rw (tb_total_bytes_text files tb Hinv) Ht {1}E -app_assoc encode_all_app length_app. lia.
Qed.

(** C23: on a UTF-8 text whose pieces are loaded and indexed, the position that a language
    server gets for a character is its line and the UTF-16 units of the line before it, and
    that position is converted back to the offset of the character. *)
Theorem lsp_position_roundtrip cs1 cs2 :
  scalars (cs1 ++ cs2) -> text = encode_all (cs1 ++ cs2) ->
  position_to_lsp_position tb (length (encode_all cs1)) = Ok (newlines cs1, utf16_len (last_line cs1))
  /\ lsp_position_to_byte tb (newlines cs1) (utf16_len (last_line cs1)) = Ok (length (encode_all cs1)).
Proof.
  intros Hs Ht. destruct (text_position cs1 cs2 Hs Ht) as (pre & E & Hst & Hpos).
  assert (scalars (last_line cs1 ++ cs2)) as Hll by (rw E -app_assoc in Hs; by apply Forall_app in Hs as [_ ?]).
  assert (length (encode_all cs1) = length (encode_all pre) + length (encode_all (last_line cs1))) as Hlen by by rw {1}E encode_all_app length_app.
  assert (drop (length (encode_all pre)) text = encode_all (last_line cs1 ++ cs2)) as Hd.
  { rw Ht {1}E -app_assoc encode_all_app. apply drop_app_length. }
  split.
  - unfold position_to_lsp_position. rw Hpos. cbn [mbind res_bind default from_option id]. do 2 f_equal. unfold slice_bytes.
    rw (get_text_range_loaded indexed_loaded). cbn [default from_option id].
    replace (length (encode_all cs1) - length (encode_all (last_line cs1))) with (length (encode_all pre)) by lia.
    replace (length (encode_all cs1) - length (encode_all pre)) with (length (encode_all (last_line cs1))) by lia.
    rw Hd encode_all_app take_app_length. unfold utf16_len. do 2 f_equal. apply from_utf8_encoded. by apply Forall_app in Hll as [? _].
  - destruct (text_line cs1 cs2 pre Hs Ht E Hst) as (end_ & Hr & Hl). destruct (rest_of_line_prefix cs2) as [k Hk].
    set (rest := rest_of_line cs2) in *. unfold lsp_position_to_byte.
    rw Hr. cbn [mbind res_bind]. rw Hl. f_equal. rw Hlen. destruct (Nat.ltb_spec 0 (length (encode_all (last_line cs1 ++ rest)))) as [_|Hz].
    + assert (encode_all (last_line cs1 ++ cs2) = encode_all (last_line cs1 ++ rest) ++ encode_all k) as Hsplit by by rw -encode_all_app -app_assoc -Hk.
      rw (get_text_range_loaded indexed_loaded) Hd Hsplit take_app_length.
      destruct (from_utf8_encoded (last_line cs1 ++ rest)) as [_ ->]; [rw Hk app_assoc in Hll; by apply Forall_app in Hll as [? _]|].
      f_equal. exact (utf16_walk_ok (last_line cs1) rest 0 0).
    + rw encode_all_app length_app in Hz. lia.
Qed.
End text.

(** Going forward to a boundary, with loading: from inside a character to its end. *)
Section forward.
Context (files : string -> list byte) {io_error : Type}.
Context (fs_read_range : string -> nat -> nat -> io_error + list byte).
Context (count_line_feeds_in_range : string -> nat -> nat -> io_error + nat).
Context (load_chunk_size chunk_alignment : nat).
Hypothesis Hread : forall path off n d, fs_read_range path off n = inr d -> d = take n (drop off (files path)) /\ length d = n.
Hypothesis Hcount : forall path off n c, count_line_feeds_in_range path off n = inr c -> c = count_newlines (take n (drop off (files path))).
Hypothesis Hsize : 0 < load_chunk_size.
Hypothesis Halign : 0 < chunk_alignment.
Hypothesis Hdiv : Nat.divide chunk_alignment load_chunk_size.

Lemma char_boundary_at_or_after_ok tb cs1 c cs2 k :
  tb_inv files tb -> loadable load_chunk_size chunk_alignment tb ->
  scalars (cs1 ++ c :: cs2) -> tb_text files tb = encode_all (cs1 ++ c :: cs2) -> k < length (encode_utf8 c) ->
  exists tb' r, char_boundary_at_or_after fs_read_range count_line_feeds_in_range load_chunk_size chunk_alignment tb (length (encode_all cs1) + k) = Ok (tb', r)
    /\ tb_inv files tb' /\ tb_text files tb' = tb_text files tb
    /\ ((exists err, read_failed files fs_read_range err)
        \/ r = length (encode_all cs1) + if k =? 0 then 0 else length (encode_utf8 c)).
Proof.
  intros Hinv Hld Hs Ht Hk. pose proof (length_here cs1 cs2 c) as Hl. pose proof (length_encode_utf8 c) as Hn. destruct (here_scalar cs1 cs2 c Hs) as [Hc Hs2].
  unfold char_boundary_at_or_after. rw (tb_total_bytes_text files tb Hinv) Ht. set (p := length (encode_all cs1)) in *.
  rw (proj2 (Nat.leb_gt _ _)); [lia|]. rw orb_false_r. destruct (Nat.eqb_spec (p + k) 0) as [Hz|Hz].
  { exists tb, (Nat.min (p + k) (length (encode_all (cs1 ++ c :: cs2)))). split_and!; try done. right. destruct (Nat.eqb_spec k 0); lia. }
  destruct (get_text_range_mut_ok files fs_read_range count_line_feeds_in_range load_chunk_size chunk_alignment Hread Hcount Hsize Halign Hdiv tb (p + k)
    (Nat.min 4 (length (encode_all (cs1 ++ c :: cs2)) - (p + k))) Hinv Hld) as (tb' & r & -> & I1 & I2 & _ & Hr).
  cbn [mbind res_bind]. destruct Hr as [(err & -> & He)| ->]; [eexists _, _; split; [done|]; split_and!; [done|by rw I2|left; by exists err]|].
  eexists _, _. split; [done|]. split_and!; [done|by rw I2|right]. rw Ht. unfold p. rw drop_here; [lia|]. fold p.
  set (w := Nat.min 4 _). rw take_app_ge; [rw length_drop; lia|]. rw length_drop. rw length_app length_drop. rw length_take.
  destruct (Nat.eqb_spec k 0) as [->|Hk0].
  - rw drop_0. rw first_char_start_here; [|destruct (encode_utf8 c); [cbn in *; lia|done]|cbn; lia].
    pose proof (char_starts c Hc). destruct (encode_utf8 c); [cbn in *; lia|done].
  - destruct k as [|k]; [done|]. rw first_char_start_cont; [by apply rest_of_char|]. rw length_drop.
    pose proof (valid_starts _ (ex_intro _ cs2 (conj Hs2 eq_refl))) as H. destruct (encode_all cs2) as [|b bs] eqn:Eb; [rw take_nil; cbn [first_char_start default from_option id length]; lia|].
    cbn [length] in Hl. destruct (w - (length (encode_utf8 c) - S k)) as [|m] eqn:Ew; [lia|]. rw first_char_start_here //. cbn [default from_option id]. lia.
Qed.
End forward.

(** ** An example: [é], a newline, an emoji and [x] *)
Definition sample_chars : list N := [233; 10; 128512; 120]%N.
Definition sample_buffer : TextBuffer := from_utf8_detected (encode_all sample_chars) Utf8 false.

Lemma sample_buffer_ok : tb_inv (fun _ => []) sample_buffer /\ tb_text (fun _ => []) sample_buffer = encode_all sample_chars
  /\ Forall (leaf_indexed (tb_buffers sample_buffer)) (node_leaves (root (piece_tree sample_buffer))).
Proof.
  destruct (from_utf8_detected_ok (fun _ => []) (encode_all sample_chars) Utf8 false) as [H1 H2].
  split; [exact H1|]. split; [exact H2|]. apply leaf_indexed_b_sound. by vm_compute.
Qed.

Lemma lsp_position_roundtrip_witness :
  position_to_lsp_position sample_buffer 7 = Ok (1, 2) /\ lsp_position_to_byte sample_buffer 1 2 = Ok 7.
Proof.
  destruct sample_buffer_ok as (H1 & H2 & H3).
  exact (lsp_position_roundtrip (fun _ => []) sample_buffer H1 H3 [233; 10; 128512]%N [120%N] ltac:(repeat constructor) H2).
Defined.

Lemma char_boundaries_witness :
  next_char_boundary sample_buffer 5 = 7 /\ prev_char_boundary sample_buffer 6 = 3 /\ snap_to_char_boundary sample_buffer 5 = Ok 3.
Proof.
  destruct sample_buffer_ok as (H1 & H2 & H3).
  exact (char_boundaries (fun _ => []) sample_buffer H1 (indexed_loaded sample_buffer H3) [233; 10]%N 128512%N [120%N] 2 ltac:(repeat constructor) H2
    ltac:(apply Nat.ltb_lt; reflexivity)).
Defined.
