(* ===== verification/TextBufferLineScan.v ===== *)
(** * Text buffer: where lines start, within a bound

    Models the bounded searches for line starts of
    crates/fresh-editor-core/src/model/buffer/mod.rs, which walk the pieces, step over pieces
    that are known to hold no line feed, load what they reach and record the counts they
    learn.  [index_piece_line_feeds], [next_line_start_within], [prev_line_start_within],
    [advance_lines_within] and [known_newline_free], with what they find in the flat text. *)
From stdpp Require Import base numbers list option strings.
From Stdlib Require Import ssreflect Strings.Byte NArith ZArith.
From S2P Require Import Prelude TextSpec StringBuffer PieceTree PieceTreeInv PieceTreeEdit PieceTreeQuery PieceTreeMeta.
From S2P Require Import BufferFormat TextBuffer TextBufferInv TextBufferLoad TextBufferLoadInv BufferSearch BufferSearchInv.

(** What a pass over the pieces gives: the answer, or where it got to and whether that is
    any further. *)
Inductive line_pass := Answer (line_start : option nat) | Walked (pos : nat) (advanced : bool).

Section scan.
Context {io_error : Type}.
Context (fs_read_range : string -> nat -> nat -> io_error + list byte).
Context (count_line_feeds_in_range : string -> nat -> nat -> io_error + nat).
Context (load_chunk_size chunk_alignment : nat).

Definition index_piece_line_feeds (tb : TextBuffer) (view : PieceView) : res (TextBuffer * option nat) :=
  match pv_line_feed_cnt view with
  | Some known => Ok (tb, Some known)
  | None =>
      if (pv_bytes view =? 0) || (load_chunk_size <? pv_bytes view) then Ok (tb, None) else
      let lo := pv_buffer_offset view in
      let hi := lo + pv_bytes view in
      match tb_buffers tb !! buffer_id (pv_location view) ≫= get_data with
      | None => Ok (tb, None)
      | Some data =>
          if length data <? hi then Ok (tb, None) else
          part ← slice data lo hi;
          let count := count_newlines part in
          Ok (set_tree tb (set_leaf_line_feeds_at (piece_tree tb) (pv_doc_offset view) (pv_bytes view) count).1, Some count)
      end
  end.

(** The loading at a view, as every reader does it. *)
Definition load_view (tb : TextBuffer) (view : PieceView) (at_ : nat) : res (TextBuffer * (LoadError io_error + bool)) :=
  if needs_loading tb (buffer_id (pv_location view))
  then chunk_split_and_load fs_read_range count_line_feeds_in_range load_chunk_size chunk_alignment tb view at_
  else Ok (tb, inr false).

(** The bytes of a view between two offsets of the document, when they can be read. *)
Definition view_bytes (tb : TextBuffer) (view : PieceView) (scan_start scan_end : nat) : res (option (list byte)) :=
  match tb_buffers tb !! buffer_id (pv_location view) ≫= get_data with
  | None => Ok None
  | Some data =>
      let lo := pv_buffer_offset view + (scan_start - pv_doc_offset view) in
      let hi := pv_buffer_offset view + (scan_end - pv_doc_offset view) in
      if length data <? hi then Ok None else part ← slice data lo hi; Ok (Some part)
  end.

(** ** Forward *)
Fixpoint next_views (tb : TextBuffer) (vs : list PieceView) (pos end_ : nat) (advanced : bool) : res (TextBuffer * line_pass) :=
  match vs with
  | [] => Ok (tb, Walked pos advanced)
  | view :: vs =>
      let piece_start := pv_doc_offset view in
      let piece_end := piece_start + pv_bytes view in
      let step_over (tb : TextBuffer) :=
        if pos <? piece_end then next_views tb vs piece_end end_ true else next_views tb vs pos end_ advanced in
      if bool_decide (pv_line_feed_cnt view = Some 0) then step_over tb else
      '(tb, r) ← load_view tb view pos;
      match r with
      | inl _ => Ok (tb, Answer None)
      | inr true => Ok (tb, Walked pos true)
      | inr false =>
          '(tb, known) ← index_piece_line_feeds tb view;
          if bool_decide (known = Some 0) then step_over tb else
          let scan_start := Nat.max pos piece_start in
          let scan_end := Nat.min end_ piece_end in
          if scan_end <=? scan_start then next_views tb vs pos end_ advanced else
          bytes ← view_bytes tb view scan_start scan_end;
          match bytes with
          | None => next_views tb vs pos end_ advanced
          | Some part =>
              match find_newline part with
              | Some i => Ok (tb, Answer (Some (scan_start + i + 1)))
              | None => next_views tb vs scan_end end_ true
              end
          end
      end
  end.

Fixpoint next_loop (fuel : nat) (tb : TextBuffer) (pos end_ : nat) : res (TextBuffer * option nat) :=
  if end_ <=? pos then Ok (tb, None) else
  match fuel with
  | 0 => Panic
  | S fuel =>
      '(tb, r) ← next_views tb (iter_pieces_in_range (piece_tree tb) pos end_) pos end_ false;
      match r with
      | Answer line_start => Ok (tb, line_start)
      | Walked pos advanced => if advanced then next_loop fuel tb pos end_ else Ok (tb, None)
      end
  end.

Definition next_line_start_within (tb : TextBuffer) (from cap : nat) : res (TextBuffer * option nat) :=
  let total := tb_total_bytes tb in
  if (total <=? from) || (cap =? 0) then Ok (tb, None) else
  let end_ := Nat.min (from + cap) total in
  next_loop (2 * (end_ - from)) tb from end_.

(** ** Backward *)
Fixpoint prev_views (tb : TextBuffer) (vs : list PieceView) (pos floor : nat) (advanced : bool) : res (TextBuffer * line_pass) :=
  match vs with
  | [] => Ok (tb, Walked pos advanced)
  | view :: vs =>
      let piece_start := pv_doc_offset view in
      let step_over (tb : TextBuffer) :=
        if piece_start <? pos then prev_views tb vs (Nat.max piece_start floor) floor true else prev_views tb vs pos floor advanced in
      if bool_decide (pv_line_feed_cnt view = Some 0) then step_over tb else
      '(tb, r) ← load_view tb view (Nat.max piece_start floor);
      match r with
      | inl _ => Ok (tb, Answer None)
      | inr true => Ok (tb, Walked pos true)
      | inr false =>
          '(tb, known) ← index_piece_line_feeds tb view;
          if bool_decide (known = Some 0) then step_over tb else
          let scan_start := Nat.max floor piece_start in
          let scan_end := Nat.min pos (piece_start + pv_bytes view) in
          if scan_end <=? scan_start then prev_views tb vs pos floor advanced else
          bytes ← view_bytes tb view scan_start scan_end;
          match bytes with
          | None => prev_views tb vs pos floor advanced
          | Some part =>
              match rposition is_nl part with
              | Some i => Ok (tb, Answer (Some (scan_start + i + 1)))
              | None => prev_views tb vs scan_start floor true
              end
          end
      end
  end.

Fixpoint prev_loop (fuel : nat) (tb : TextBuffer) (pos floor : nat) : res (TextBuffer * option nat) :=
  let reached := Ok (tb, if floor =? 0 then Some 0 else None) in
  if pos <=? floor then reached else
  match fuel with
  | 0 => Panic
  | S fuel =>
      '(tb, r) ← prev_views tb (rev (iter_pieces_in_range (piece_tree tb) floor pos)) pos floor false;
      match r with
      | Answer line_start => Ok (tb, line_start)
      | Walked pos advanced =>
          if advanced then prev_loop fuel tb pos floor else Ok (tb, if floor =? 0 then Some 0 else None)
      end
  end.

Definition prev_line_start_within (tb : TextBuffer) (from cap : nat) : res (TextBuffer * option nat) :=
  let from := Nat.min from (tb_total_bytes tb) in
  if from =? 0 then Ok (tb, Some 0) else
  let floor := from - cap in
  prev_loop (S (from - floor)) tb from floor.

(** ** Several lines *)
Fixpoint advance_loop (lines : nat) (tb : TextBuffer) (total pos budget : nat) : res (TextBuffer * nat) :=
  match lines with
  | 0 => Ok (tb, pos)
  | S lines =>
      if budget =? 0 then Ok (tb, pos) else
      '(tb, next) ← next_line_start_within tb pos budget;
      match next with
      | Some next => distance ← usub next pos; advance_loop lines tb total next (budget - distance)
      | None => Ok (tb, Nat.min (pos + budget) total)
      end
  end.

Definition advance_lines_within (tb : TextBuffer) (from lines total_cap : nat) : res (TextBuffer * nat) :=
  let total := tb_total_bytes tb in
  advance_loop lines tb total (Nat.min from total) total_cap.
End scan.

Definition known_newline_free (tb : TextBuffer) (start end_ : nat) : bool :=
  (start <? end_) && range_line_feed_free (piece_tree tb) start end_.

(** ** The searches in the flat text *)

(** The start of the line behind the first newline of a range. *)
Definition next_start (t : list byte) (from end_ : nat) : option nat := (fun i => from + i + 1) <$> find_newline (sub t from end_).

(** The start of the line behind the last newline of a range. *)
Definition prev_start (t : list byte) (floor pos : nat) : option nat := (fun i => floor + i + 1) <$> rposition is_nl (sub t floor pos).

Lemma find_newline_app a b : find_newline (a ++ b) = match find_newline a with Some i => Some i | None => Nat.add (length a) <$> find_newline b end.
Proof.
  induction a as [|x a IH]; cbn [app find_newline length]; [by destruct (find_newline b)|]. destruct (is_nl x); [done|]. rw IH.
  destruct (find_newline a); [done|]. by destruct (find_newline b).
Qed.

Lemma find_newline_None l : find_newline l = None <-> count_newlines l = 0.
Proof.
  induction l as [|b l IH]; [done|]. rw count_newlines_cons. cbn [find_newline]. destruct (is_nl b); [split; [done|lia]|]. rw fmap_None. exact IH.
Qed.

Lemma rposition_app {A} (f : A -> bool) a b :
  rposition f (a ++ b) = match rposition f b with Some i => Some (length a + i) | None => rposition f a end.
Proof.
  induction a as [|x a IH]; cbn [app rposition length]; [by destruct (rposition f b)|]. rw IH. by destruct (rposition f b).
Qed.

Lemma rposition_None l : rposition is_nl l = None <-> count_newlines l = 0.
Proof.
  induction l as [|b l IH]; [done|]. rw count_newlines_cons. cbn [rposition]. destruct (rposition is_nl l); [split; [done|]|destruct (is_nl b); [split; [done|lia]|]].
  - destruct IH as [_ IH]. intros H. assert (count_newlines l = 0) as H0 by lia. by apply IH in H0.
  - split; [intros _; by rw (proj1 IH eq_refl)|done].
Qed.

Lemma next_start_split t a b c : a <= b -> b <= c -> c <= length t ->
  next_start t a c = match next_start t a b with Some n => Some n | None => next_start t b c end.
Proof.
  intros H1 H2 H3. unfold next_start. rw -(sub_app t a b c) // find_newline_app length_sub; [lia|lia|].
  destruct (find_newline (sub t a b)); [done|]. destruct (find_newline (sub t b c)); [|done]. cbn. f_equal. lia.
Qed.

Lemma prev_start_split t a b c : a <= b -> b <= c -> c <= length t ->
  prev_start t a c = match prev_start t b c with Some n => Some n | None => prev_start t a b end.
Proof.
  intros H1 H2 H3. unfold prev_start. rw -(sub_app t a b c) // rposition_app length_sub; [lia|lia|].
  destruct (rposition is_nl (sub t b c)); [|done]. cbn. f_equal. lia.
Qed.

Lemma next_start_none t a b : count_newlines (sub t a b) = 0 -> next_start t a b = None.
Proof. unfold next_start. by intros ->%find_newline_None. Qed.

Lemma prev_start_none t a b : count_newlines (sub t a b) = 0 -> prev_start t a b = None.
Proof. unfold prev_start. by intros ->%rposition_None. Qed.

Lemma count_sub_le t a b c d : c <= a -> b <= d -> count_newlines (sub t c d) = 0 -> count_newlines (sub t a b) = 0.
Proof.
  intros H1 H2 H3. destruct (Nat.le_gt_cases b a) as [|Hlt]; [unfold sub; by replace (b - a) with 0 by lia|].
  rw -(sub_app t c a d) in H3; [lia|lia|]. rw -(sub_app t a b d) in H3; [lia|lia|]. rw !count_newlines_app in H3. lia.
Qed.

Lemma next_start_over t p q e : p <= q -> e <= length t -> count_newlines (sub t p q) = 0 -> next_start t p e = next_start t q e.
Proof.
  intros H1 H2 H3. destruct (Nat.le_gt_cases q e) as [Hle|Hgt].
  - rw (next_start_split t p q e) //. by rw next_start_none.
  - assert (count_newlines (sub t p e) = 0 /\ count_newlines (sub t q e) = 0) as [E1 E2]; [|by rw !next_start_none].
    split; [by apply (count_sub_le t p e p q); [|lia|]|]. unfold sub. by replace (e - q) with 0 by lia.
Qed.

Lemma prev_start_over t f p q : f <= p -> p <= q -> q <= length t -> count_newlines (sub t p q) = 0 -> prev_start t f q = prev_start t f p.
Proof. intros H1 H2 H3 H4. rw (prev_start_split t f p q) //. by rw prev_start_none. Qed.

Lemma filter_fewer {A} (g h : A -> bool) l :
  (forall x, In x l -> h x = true -> g x = true) -> (exists x, In x l /\ g x = true /\ h x = false) ->
  length (List.filter h l) < length (List.filter g l).
Proof.
  assert (forall l, (forall x, In x l -> h x = true -> g x = true) -> length (List.filter h l) <= length (List.filter g l)) as Hle.
  { clear l. induction l as [|x l IH]; intros H; [done|]. cbn [List.filter]. pose proof (H x (or_introl eq_refl)) as Hx. specialize (IH (fun y Hy => H y (or_intror Hy))).
    destruct (h x); [rw Hx //|destruct (g x)]; cbn [length]; lia. }
  induction l as [|x l IH]; intros H (y & Hy & Hg & Hh); [done|]. cbn [List.filter]. specialize (Hle l (fun z Hz => H z (or_intror Hz))).
  destruct Hy as [->|Hy]; [rw Hg Hh; cbn [length]; lia|]. pose proof (H x (or_introl eq_refl)) as Hx.
  specialize (IH (fun z Hz => H z (or_intror Hz)) (ex_intro _ y (conj Hy (conj Hg Hh)))).
  destruct (h x); [rw Hx //|destruct (g x)]; cbn [length]; lia.
Qed.

(** ** Pieces *)

(** Whether the piece at an offset is loaded, and how much of a range is not. *)
Definition loaded_b (tb : TextBuffer) (q : nat) : bool :=
  default false (is_loaded <$> (s ← shape_at (shapes (piece_tree tb)) q; tb_buffers tb !! buffer_id s.1.1)).

Lemma loaded_b_spec tb q : loaded_b tb q = true <-> loaded_at tb q.
Proof.
  unfold loaded_b, loaded_at. destruct (shape_at _ q) as [s|]; cbn [mbind option_bind]; [|split; [done|by intros (s & b & [=] & _)]].
  destruct (tb_buffers tb !! buffer_id s.1.1) as [b|] eqn:Eb; cbn; split; try done; [intros; by exists s, b| |].
  - intros (s' & b' & [= <-] & E & Hl). rw Eb in E. by injection E as <-.
  - intros (s' & b' & [= <-] & E & Hl). congruence.
Qed.

Definition unloaded_in (tb : TextBuffer) (f cur : nat) : nat := length (List.filter (fun q => negb (loaded_b tb q)) (seq f (cur - f))).

Lemma unloaded_in_le tb f cur : unloaded_in tb f cur <= cur - f.
Proof. unfold unloaded_in. rw -{2}(length_seq (cur - f) f). apply List.filter_length_le. Qed.

Lemma unloaded_in_less tb tb' f cur cur' :
  (forall q, loaded_at tb q -> loaded_at tb' q) -> cur' <= cur -> (exists q, f <= q /\ q < cur' /\ loaded_at tb' q /\ ~ loaded_at tb q) ->
  unloaded_in tb' f cur' < unloaded_in tb f cur.
Proof.
  intros Hk Hle (q & H1 & H2 & H3 & H4). unfold unloaded_in.
  assert (length (List.filter (fun q => negb (loaded_b tb' q)) (seq f (cur' - f))) < length (List.filter (fun q => negb (loaded_b tb q)) (seq f (cur' - f)))) as Hlt.
  { apply filter_fewer.
    - intros x _. rw !negb_true_iff -!not_true_iff_false !loaded_b_spec. intros Hx Ht. by apply Hx, Hk.
    - exists q. split; [apply in_seq; lia|]. rw negb_true_iff -not_true_iff_false negb_false_iff !loaded_b_spec. done. }
  replace (cur - f) with ((cur' - f) + (cur - cur')) by lia. rw seq_app List.filter_app length_app. lia.
Qed.

Section proofs.
Context (files : string -> list byte) {io_error : Type}.
Context (fs_read_range : string -> nat -> nat -> io_error + list byte).
Context (count_line_feeds_in_range : string -> nat -> nat -> io_error + nat).
Context (load_chunk_size chunk_alignment : nat).
Hypothesis Hread : forall path off n d, fs_read_range path off n = inr d -> d = take n (drop off (files path)) /\ length d = n.
Hypothesis Hcount : forall path off n c, count_line_feeds_in_range path off n = inr c -> c = count_newlines (take n (drop off (files path))).
Hypothesis Hsize : 0 < load_chunk_size.
Hypothesis Halign : 0 < chunk_alignment.
Hypothesis Hdiv : Nat.divide chunk_alignment load_chunk_size.
Local Abbreviation tb_inv := (tb_inv files).
Local Abbreviation tb_text := (tb_text files).
Local Abbreviation loadable := (loadable load_chunk_size chunk_alignment).
Local Abbreviation view_of l d := (mkPieceView (l_location l) (l_offset l) (l_bytes l) d (l_line_feed_cnt l)).

(** A count of the tree is that of the text. *)
Lemma counted_piece tb pre l ls k :
  tb_inv tb -> node_leaves (root (piece_tree tb)) = pre ++ l :: ls -> l_line_feed_cnt l = Some k ->
  k = count_newlines (sub (tb_text tb) (length (cells_of pre)) (length (cells_of pre) + l_bytes l)).
Proof.
  intros Hinv Hls Hk. pose proof (tree_inv_counted _ _ _ (proj1 Hinv)) as Hc. rw Hls in Hc. apply Forall_app in Hc as [_ Hc].
  apply Forall_cons_1 in Hc as [Hc _]. rw (Hc k Hk). f_equal. unfold TextBufferInv.tb_text, text, doc, node_cells, sub. rw Hls.
  change (cell_byte ?c <$> cells_of ?x) with (text_of c x). rw text_of_app text_of_cons.
  rw -(length_text_of (content_in files (tb_buffers tb))) drop_app_length.
  replace (length (text_of (content_in files (tb_buffers tb)) pre) + l_bytes l - length (text_of (content_in files (tb_buffers tb)) pre)) with (l_bytes l) by lia.
  rw take_app_length' //. unfold leaf_text. by rw length_fmap length_leaf_cells.
Qed.

(** A piece of positive length is found by its place. *)
Lemma leaves_split_same ls1 ls2 (l k : LeafData) rs1 rs2 :
  ls1 ++ l :: rs1 = ls2 ++ k :: rs2 -> length (cells_of ls1) = length (cells_of ls2) -> 0 < l_bytes l -> 0 < l_bytes k ->
  ls1 = ls2 /\ l = k /\ rs1 = rs2.
Proof.
  revert ls2. induction ls1 as [|x ls1 IH]; intros [|y ls2]; cbn [app].
  - intros [= -> ->]. done.
  - intros [= -> ->]. rw cells_of_cons length_app length_leaf_cells. unfold cells_of at 1. cbn. lia.
  - intros [= -> <-]. rw cells_of_cons length_app length_leaf_cells. unfold cells_of at 2. cbn. lia.
  - intros [= -> E]. rw !cells_of_cons !length_app. intros Hl H1 H2. destruct (IH ls2 E) as (-> & -> & ->); [lia|done..|done].
Qed.

(** Recording a count changes no more than that. *)
Lemma index_ok tb pre l ls data :
  tb_inv tb -> loadable tb -> node_leaves (root (piece_tree tb)) = pre ++ l :: ls ->
  tb_buffers tb !! buffer_id (l_location l) ≫= get_data = Some data ->
  let d := length (cells_of pre) in
  exists tb' l' known, index_piece_line_feeds load_chunk_size tb (view_of l d) = Ok (tb', known)
    /\ tb_inv tb' /\ loadable tb' /\ tb_text tb' = tb_text tb /\ tb_buffers tb' = tb_buffers tb
    /\ node_leaves (root (piece_tree tb')) = pre ++ l' :: ls /\ shape_of l' = shape_of l
    /\ (l_bytes l = 0 -> tb' = tb)
    /\ forall k, known = Some k -> k = count_newlines (sub (tb_text tb) d (d + l_bytes l)).
Proof.
  intros Hinv Hld Hls Hdata d. unfold index_piece_line_feeds. cbn [pv_line_feed_cnt pv_bytes pv_buffer_offset pv_location pv_doc_offset].
  destruct (l_line_feed_cnt l) as [k|] eqn:Hk.
  { exists tb, l, (Some k). split_and!; try done. intros k' [= <-]. by apply (counted_piece tb pre l ls). }
  destruct (Nat.eqb_spec (l_bytes l) 0) as [Hz|Hz]; [exists tb, l, None; by split_and!|].
  destruct (Nat.ltb_spec load_chunk_size (l_bytes l)); [exists tb, l, None; by split_and!|]. cbn [orb]. rw Hdata.
  apply bind_Some in Hdata as (b & Hb & Hd).
  destruct (piece_text files load_chunk_size chunk_alignment Hsize Halign tb pre l ls b data 0 (l_bytes l) Hinv Hls Hb Hd) as [Hle Htx]; [lia|]. rw !Nat.add_0_r in Htx.
  rw (proj2 (Nat.ltb_ge _ _) Hle) slice_Ok; [lia|lia|]. cbn [mbind res_bind].
  replace (l_offset l + l_bytes l - l_offset l) with (l_bytes l) by lia. rw -Htx. fold d.
  set (c := count_newlines (take (l_bytes l) (drop d (tb_text tb)))).
  pose proof (set_leaf_line_feeds_at_keeps _ _ (piece_tree tb) d (l_bytes l) c (proj1 Hinv) eq_refl) as Hkeep.
  unfold set_leaf_line_feeds_at in *. pose proof (proj1 Hinv) as [[Hwf Ht] _].
  assert (d < total_bytes (piece_tree tb)) as Hdt.
  { rw Ht. unfold doc, node_cells. rw Hls cells_of_app cells_of_cons !length_app length_leaf_cells. unfold d. lia. }
  rw decide_False in Hkeep; [lia|]. rw decide_False; [lia|].
  pose proof (set_leaf_lf_at_ok (root (piece_tree tb)) d (l_bytes l) c Hwf) as Hset.
  destruct (set_leaf_lf_at _ _ _ _) as [n' found]. cbn [fst].
  assert (c = count_newlines (sub (tb_text tb) d (d + l_bytes l))) as Hc by (unfold c, sub; do 3 f_equal; lia).
  destruct Hset as [(ls1 & k & ls2 & E & E1 & E2 & E3 & -> & E4 & E5 & _)|(-> & -> & Hno)]; [unfold doc in Ht; lia|done| |].
  - destruct Hkeep as (Hi' & Hdoc & _).
    assert (ls1 = pre /\ k = l /\ ls2 = ls) as (-> & -> & ->).
    { apply (leaves_split_same ls1 pre k l ls2 ls); [by rw -E -Hls|done|lia|lia]. }
    exists (set_tree tb (mkTree n' (total_bytes (piece_tree tb)))), (mkLeaf (l_location l) (l_offset l) (l_bytes l) (Some c)), (Some c).
    split; [done|]. split_and!; [by apply set_tree_ok| | |done|done|done|done|by intros k [= <-]].
    + unfold TextBufferLoadInv.loadable, shapes in *. cbn [set_tree piece_tree tb_buffers root]. rw E4. rw Hls in Hld.
      rw fmap_app fmap_cons in Hld. rw fmap_app fmap_cons. exact Hld.
    + unfold TextBufferInv.tb_text, text. cbn [set_tree piece_tree tb_buffers]. by rw Hdoc.
  - exists (set_tree tb (piece_tree tb)), l, (Some c). split; [done|]. split_and!; try done. by intros k [= <-].
Qed.

(** ** A piece that is looked into *)
Definition kept (tb tb' : TextBuffer) : Prop := forall q, loaded_at tb q -> loaded_at tb' q.

Lemma kept_same tb tb' : shapes (piece_tree tb') = shapes (piece_tree tb) -> tb_buffers tb' = tb_buffers tb -> kept tb tb'.
Proof. intros E1 E2 q. unfold loaded_at. by rw E1 E2. Qed.

Lemma needs_loading_bytes tb pre l post : loadable tb -> node_leaves (root (piece_tree tb)) = pre ++ l :: post ->
  needs_loading tb (buffer_id (l_location l)) = true -> 0 < l_bytes l.
Proof.
  intros Hld Hls. unfold TextBufferLoadInv.loadable, shapes in Hld. rw Hls fmap_app fmap_cons in Hld. apply Forall_app in Hld as [_ Hld].
  apply Forall_cons_1 in Hld as [(b & Hb & H) _]. cbn in Hb, H. unfold needs_loading. rw Hb. intros Hl%negb_true_iff. by apply H.
Qed.

(** The text under a loaded piece, as the scans read it. *)
Lemma view_bytes_ok tb pre l ls k data a b :
  tb_inv tb -> node_leaves (root (piece_tree tb)) = pre ++ l :: ls -> shape_of l = shape_of k ->
  tb_buffers tb !! buffer_id (l_location k) ≫= get_data = Some data ->
  let d := length (cells_of pre) in
  d <= a -> a <= b -> b <= d + l_bytes k -> view_bytes tb (view_of k d) a b = Ok (Some (sub (tb_text tb) a b)).
Proof.
  intros Hinv Hls Hsh Hdata d Ha Hab Hb. unfold view_bytes. cbn [pv_location pv_buffer_offset pv_doc_offset]. rw Hdata.
  apply bind_Some in Hdata as (buf & Hbuf & Hd). unfold shape_of in Hsh. injection Hsh as E1 E2 E3. rw -E1 in Hbuf. rw -E2 -E3 in Hb |- *.
  destruct (piece_text files load_chunk_size chunk_alignment Hsize Halign tb pre l ls buf data (a - d) (b - a) Hinv Hls Hbuf Hd) as [Hle Htx]; [lia|].
  rw (proj2 (Nat.ltb_ge _ _)); [lia|]. rw slice_Ok; [lia|lia|]. cbn [mbind res_bind]. do 2 f_equal. unfold sub.
  fold d in Htx. replace (d + (a - d)) with a in Htx by lia. rw Htx. f_equal. lia.
Qed.

(** What a scan does with a piece that it has to look into: the load fails, or it cuts the
    piece and the walk starts over, or the piece can be read and its count is recorded. *)
Lemma visit_ok tb pre l ls at_ :
  tb_inv tb -> loadable tb -> node_leaves (root (piece_tree tb)) = pre ++ l :: ls ->
  let d := length (cells_of pre) in
  (0 < l_bytes l -> d <= at_ /\ at_ < d + l_bytes l) ->
  exists tb1 r, load_view fs_read_range count_line_feeds_in_range load_chunk_size chunk_alignment tb (view_of l d) at_ = Ok (tb1, r)
  /\ tb_inv tb1 /\ tb_text tb1 = tb_text tb /\ loadable tb1
  /\ ((exists err, r = inl (LoadFailed err) /\ read_failed files fs_read_range err)
      \/ r = inr true /\ 0 < l_bytes l /\ loaded_at tb1 at_ /\ ~ loaded_at tb at_ /\ kept tb tb1
      \/ r = inr false /\ exists tb2 l' known, index_piece_line_feeds load_chunk_size tb1 (view_of l d) = Ok (tb2, known)
         /\ tb_inv tb2 /\ loadable tb2 /\ tb_text tb2 = tb_text tb /\ kept tb tb2 /\ (l_bytes l = 0 -> tb2 = tb)
         /\ node_leaves (root (piece_tree tb2)) = pre ++ l' :: ls /\ shape_of l' = shape_of l
         /\ (known = Some 0 -> count_newlines (sub (tb_text tb) d (d + l_bytes l)) = 0)
         /\ forall a b, d <= a -> a <= b -> b <= d + l_bytes l -> view_bytes tb2 (view_of l d) a b = Ok (Some (sub (tb_text tb) a b))).
Proof.
  intros Hinv Hld Hls d Hat. pose proof (needs_loading_bytes tb pre l ls Hld Hls) as Hnb. unfold load_view. cbn [pv_location].
  destruct (load_view_ok files fs_read_range count_line_feeds_in_range load_chunk_size chunk_alignment Hread Hcount Hsize Halign Hdiv tb pre l ls at_ Hinv Hld Hls)
    as (tb1 & r & Er & I1 & I2 & I3 & Hr); [fold d; lia|]. fold d in Er. exists tb1, r. split; [exact Er|]. split_and!; [done..|].
  destruct Hr as [?|[(-> & L1 & L2 & Lk)|(-> & L1 & Lk & L2 & buf & data & L3 & L4)]]; [by left|right; left|right; right].
  - split_and!; try done. destruct (needs_loading tb (buffer_id (l_location l))); [by apply Hnb|done].
  - split; [done|]. assert (tb_buffers tb1 !! buffer_id (l_location l) ≫= get_data = Some data) as Hdata by by rw L3. rw -L1 in Hls.
    destruct (index_ok tb1 pre l ls data I1 I3 Hls Hdata) as (tb2 & l' & known & Ei & J1 & J2 & J3 & J4 & J5 & J6 & J7 & J8). rw I2 in J3, J8.
    exists tb2, l', known. split_and!; try done.
    + intros q Hq. apply Lk in Hq. revert Hq. apply kept_same; [|done]. unfold shapes. rw J5 Hls !fmap_app !fmap_cons. by rw J6.
    + intros Hz. by rw J7 // L2.
    + intros Hk. by rw -(J8 0 Hk).
    + intros a b H1 H2 H3. rw (view_bytes_ok tb2 pre l' ls l data a b J1 J5 J6) //; [by rw J4|by rw J3].
Qed.

(** ** A pass forward *)
Local Abbreviation next_views := (next_views fs_read_range count_line_feeds_in_range load_chunk_size chunk_alignment).

Definition next_pass (tb tb' : TextBuffer) (cur stop e : nat) (adv : bool) (r : line_pass) : Prop :=
  tb_inv tb' /\ tb_text tb' = tb_text tb /\ loadable tb'
  /\ ((exists err, read_failed files fs_read_range err /\ r = Answer None)
      \/ (exists n, r = Answer (Some n) /\ next_start (tb_text tb) cur e = Some n)
      \/ exists cur' adv', r = Walked cur' adv' /\ cur <= cur' /\ next_start (tb_text tb) cur e = next_start (tb_text tb) cur' e
         /\ (adv' = true /\ loaded_at tb' cur' /\ (loaded_at tb cur -> cur < cur')
             \/ stop <= cur' /\ (adv = true \/ cur < cur' -> adv' = true))).

Lemma next_pass_from tb tb1 tb' cur cur1 stop e adv adv1 r :
  tb_text tb1 = tb_text tb -> cur <= cur1 -> next_start (tb_text tb) cur e = next_start (tb_text tb) cur1 e ->
  (cur = cur1 -> tb1 = tb /\ adv1 = adv) -> (cur < cur1 -> adv1 = true) ->
  next_pass tb1 tb' cur1 stop e adv1 r -> next_pass tb tb' cur stop e adv r.
Proof.
  intros Htx Hle Hnext Hsame Hadv (H1 & H2 & H3 & Hr). rw Htx in H2, Hr. split_and!; [done..|].
  destruct Hr as [?|[(n & -> & Hn)|(cur' & adv' & -> & Hc & Hn & Hr)]]; [by left|right; left|right; right].
  - exists n. by rw Hnext.
  - exists cur', adv'. split_and!; [done|lia|by rw Hnext|]. destruct (Nat.eq_dec cur cur1) as [E|Hne].
    + destruct (Hsame E) as [-> ->]. by subst.
    + specialize (Hadv ltac:(lia)). destruct Hr as [(R1 & R2 & _)|[R1 R2]]; [left|right; split; [done|intros _; apply R2; by left]].
      split_and!; [done|done|lia].
Qed.

(** A pass over the pieces [ls], from where they start. *)
Definition passes (s e : nat) (ls : list LeafData) : Prop := forall tb pre p adv,
  s < e -> e <= length (tb_text tb) -> tb_inv tb -> loadable tb -> node_leaves (root (piece_tree tb)) = pre ++ ls ->
  let d := length (cells_of pre) in
  s <= p -> Nat.min e p = Nat.min e (Nat.max s d) ->
  exists tb' r, next_views tb (List.filter (overlaps s e) (views ls d)) p e adv = Ok (tb', r)
  /\ next_pass tb tb' p (Nat.min e (Nat.max s (d + length (cells_of ls)))) e adv r.

(** Going on with the pieces behind one that has been dealt with. *)
Lemma goes_on s e ls l pre tb tb1 l' p p1 adv adv1 :
  passes s e ls -> s < e -> e <= length (tb_text tb) -> s <= p ->
  tb_inv tb1 -> loadable tb1 -> tb_text tb1 = tb_text tb -> node_leaves (root (piece_tree tb1)) = pre ++ l' :: ls ->
  let d := length (cells_of pre) in
  shape_of l' = shape_of l -> p <= p1 -> Nat.min e p1 = Nat.min e (Nat.max s (d + l_bytes l)) -> count_newlines (sub (tb_text tb) p p1) = 0 ->
  (p = p1 -> tb1 = tb /\ adv1 = adv) -> (p < p1 -> adv1 = true) ->
  exists tb' r, next_views tb1 (List.filter (overlaps s e) (views ls (d + l_bytes l))) p1 e adv1 = Ok (tb', r)
  /\ next_pass tb tb' p (Nat.min e (Nat.max s (d + l_bytes l + length (cells_of ls)))) e adv r.
Proof.
  intros IH Hse He Hsp I1 I2 I3 I4 d Hsh Hp1 Hmin Hfree Hsame Hadv. rw (cons_middle l') app_assoc in I4.
  assert (length (cells_of (pre ++ [l'])) = d + l_bytes l) as Hd1.
  { unfold shape_of in Hsh. injection Hsh as _ _ <-. rw cells_of_app cells_of_cons !length_app length_leaf_cells. unfold d, cells_of at 2. cbn. lia. }
  destruct (IH tb1 (pre ++ [l']) p1 adv1 Hse ltac:(by rw I3) I1 I2 I4 ltac:(lia)) as (tb' & r & E & Hpass); [by rw Hd1|]. rw Hd1 in E, Hpass.
  exists tb', r. split; [done|]. apply (next_pass_from tb tb1 tb' p p1 _ e adv adv1 r); try done. by apply next_start_over.
Qed.

Lemma passes_cons s e ls l : passes s e ls -> passes s e (l :: ls).
Proof.
  intros IH tb pre p adv Hse He Hinv Hld Hls d Hsp Hp.
  assert (d + length (cells_of (l :: ls)) = d + l_bytes l + length (cells_of ls)) as Hstop by (rw cells_of_cons length_app length_leaf_cells; lia).
  rw Hstop. cbn [views List.filter]. set (view := view_of l d).
  pose proof (fun tb1 l' p1 adv1 => goes_on s e ls l pre tb tb1 l' p p1 adv adv1 IH Hse He Hsp) as Hgo. fold d in Hgo.
  set (stop := Nat.min e _) in Hgo |- *. assert (count_newlines (sub (tb_text tb) p p) = 0) as Hnil by (unfold sub; by rw Nat.sub_diag).
  destruct (overlaps s e view) eqn:Ho.
  2: { apply andb_false_iff in Ho. rw !bool_decide_eq_false in Ho. cbn in Ho. apply (Hgo tb l p adv); try done; lia. }
  apply andb_true_iff in Ho as [H1%bool_decide_eq_true H2%bool_decide_eq_true]. cbn in H1, H2. assert (p = Nat.max s d) as Hpd by lia.
  cbn [TextBufferLineScan.next_views]. cbn [pv_line_feed_cnt pv_doc_offset pv_bytes view].
  assert (forall tb1 l', tb_inv tb1 -> loadable tb1 -> tb_text tb1 = tb_text tb -> node_leaves (root (piece_tree tb1)) = pre ++ l' :: ls ->
    shape_of l' = shape_of l -> (l_bytes l = 0 -> tb1 = tb) -> count_newlines (sub (tb_text tb) d (d + l_bytes l)) = 0 ->
    exists tb' r, (if p <? d + l_bytes l then next_views tb1 (List.filter (overlaps s e) (views ls (d + l_bytes l))) (d + l_bytes l) e true
      else next_views tb1 (List.filter (overlaps s e) (views ls (d + l_bytes l))) p e adv) = Ok (tb', r) /\ next_pass tb tb' p stop e adv r) as Hover.
  { intros tb1 l' I1 I2 I3 I4 Hsh Hz Hfree. destruct (Nat.ltb_spec p (d + l_bytes l)) as [Hlt|Hge].
    - apply (Hgo tb1 l'); try done; [lia|lia| |lia]. by apply (count_sub_le _ _ _ d (d + l_bytes l)); [lia|lia|].
    - apply (Hgo tb1 l'); try done; [lia|intros _; split; [apply Hz; lia|done]|lia]. }
  case_bool_decide as Hk0; [apply (Hover tb l); try done; symmetry; by apply (counted_piece tb pre l ls)|].
  destruct (visit_ok tb pre l ls p Hinv Hld Hls) as (tb1 & r & Er & I1 & I2 & I3 & Hr); [fold d; lia|].
  fold d view in Er, Hr. rw Er. cbn [mbind res_bind].
  destruct Hr as [(err & -> & Hf)|[(-> & _ & L1 & L2 & _)|(-> & tb2 & l' & known & -> & J1 & J2 & J3 & _ & J4 & J5 & J6 & J7 & J8)]].
  { eexists _, _. split; [done|]. split_and!; [done..|]. left. by exists err. }
  { eexists _, _. split; [done|]. split_and!; [done..|]. right. right. exists p, true. split_and!; [done|done|done|]. left. split_and!; done. }
  cbn [mbind res_bind]. case_bool_decide as Hk; [apply (Hover tb2 l'); try done; by apply J7|].
  rw (_ : Nat.max p d = p); [lia|]. destruct (Nat.leb_spec (Nat.min e (d + l_bytes l)) p) as [Hz|Hlt].
  { apply (Hgo tb2 l'); try done; [lia|intros _; split; [apply J4; lia|done]|lia]. }
  rw J8; [lia|lia|lia|]. cbn [mbind res_bind].
  pose proof (next_start_split (tb_text tb) p (Nat.min e (d + l_bytes l)) e ltac:(lia) ltac:(lia) He) as Hsplit. unfold next_start at 2 in Hsplit.
  destruct (find_newline (sub (tb_text tb) p (Nat.min e (d + l_bytes l)))) as [i|] eqn:Hfind; cbn [fmap option_fmap option_map] in Hsplit.
  - eexists _, _. split; [done|]. split_and!; [done..|]. right. left. by exists (p + i + 1).
  - apply (Hgo tb2 l'); try done; [lia|lia|by apply find_newline_None|lia].
Qed.

Lemma passes_all s e ls : passes s e ls.
Proof.
  induction ls as [|l ls IH]; [|by apply passes_cons]. intros tb pre p adv Hse He Hinv Hld Hls d Hsp Hp.
  eexists _, _. split; [done|]. split_and!; [done..|]. right. right. exists p, adv. split_and!; [done|done|done|]. right.
  change (length (cells_of [])) with 0. split; [lia|]. intros [->|?]; [done|lia].
Qed.

(** Every two passes advance: a pass that only loads leaves its piece loaded. *)
Lemma next_loop_ok e fuel : forall tb cur,
  tb_inv tb -> loadable tb -> e <= length (tb_text tb) ->
  2 * (e - cur) <= fuel \/ loaded_at tb cur /\ 2 * (e - cur) <= S fuel ->
  exists tb' r, next_loop fs_read_range count_line_feeds_in_range load_chunk_size chunk_alignment fuel tb cur e = Ok (tb', r)
  /\ tb_inv tb' /\ tb_text tb' = tb_text tb /\ loadable tb'
  /\ ((exists err, read_failed files fs_read_range err /\ r = None) \/ r = next_start (tb_text tb) cur e).
Proof.
  induction fuel as [|fuel IH]; intros tb cur Hinv Hld He Hfuel; cbn [next_loop]; destruct (Nat.leb_spec e cur) as [Hle|Hlt]; try lia.
  1, 2: eexists _, _; split; [done|]; split_and!; [done..|]; right; rw next_start_none //; unfold sub; by replace (e - cur) with 0 by lia.
  pose proof (proj1 Hinv) as [[Hwf Htot] _]. rw iter_pieces_eq //.
  destruct (passes_all cur e (node_leaves (root (piece_tree tb))) tb [] cur false) as (tb1 & r & Er & I1 & I2 & I3 & Hr); try done; [change (length (cells_of [])) with 0; lia|].
  change (length (cells_of [])) with 0 in Er, Hr. rw Er. cbn [mbind res_bind].
  assert (length (cells_of (node_leaves (root (piece_tree tb)))) = length (tb_text tb)) as Hlen.
  { unfold TextBufferInv.tb_text, text, doc, node_cells. by rw length_fmap. }
  rw Hlen in Hr. destruct Hr as [(err & Hf & ->)|[(n & -> & Hn)|(cur' & adv' & -> & Hc & Hn & Hr)]].
  { eexists _, _. split; [done|]. split_and!; [done..|]. left. by exists err. }
  { eexists _, _. split; [done|]. split_and!; [done..|]. by right. }
  assert (adv' = true) as -> by (destruct Hr as [(-> & _)|[Hs ->]]; [done|done|right; lia]).
  destruct (IH tb1 cur' I1 I3 ltac:(by rw I2)) as (tb2 & r & -> & J1 & J2 & J3 & Hr2).
  { destruct Hr as [(_ & Hat & Hp)|[Hs _]]; [|left; lia]. destruct (Nat.eq_dec cur cur') as [<-|]; [right; split; [done|]|left; lia].
    destruct Hfuel as [?|[Hc' _]]; [lia|]. specialize (Hp Hc'). lia. }
  exists tb2, r. split; [done|]. split_and!; [done|by rw J2|done|]. rw I2 -Hn in Hr2. exact Hr2.
Qed.

Lemma next_line_start_ok tb from cap :
  tb_inv tb -> loadable tb ->
  exists tb' r, next_line_start_within fs_read_range count_line_feeds_in_range load_chunk_size chunk_alignment tb from cap = Ok (tb', r)
  /\ tb_inv tb' /\ tb_text tb' = tb_text tb /\ loadable tb'
  /\ ((exists err, read_failed files fs_read_range err /\ r = None)
      \/ r = next_start (tb_text tb) from (Nat.min (from + cap) (length (tb_text tb)))).
Proof.
  intros Hinv Hld. unfold next_line_start_within. rw (tb_total_bytes_text files tb Hinv).
  destruct (Nat.leb_spec (length (tb_text tb)) from) as [Hge|Hlt]; cbn [orb].
  { exists tb, None. split_and!; try done. right. rw next_start_none //. unfold sub. rw drop_ge //. by rw take_nil. }
  destruct (Nat.eqb_spec cap 0) as [->|Hcap].
  { exists tb, None. split_and!; try done. right. rw next_start_none //. unfold sub. replace (_ - from) with 0 by lia. done. }
  apply next_loop_ok; [done|done|lia|left; lia].
Qed.

(** ** A pass backward *)
Local Abbreviation prev_views := (prev_views fs_read_range count_line_feeds_in_range load_chunk_size chunk_alignment).

Definition prev_pass (tb tb' : TextBuffer) (cur f : nat) (adv : bool) (r : line_pass) : Prop :=
  tb_inv tb' /\ tb_text tb' = tb_text tb /\ loadable tb'
  /\ ((exists err, read_failed files fs_read_range err /\ r = Answer None)
      \/ (exists n, r = Answer (Some n) /\ prev_start (tb_text tb) f cur = Some n)
      \/ kept tb tb' /\ exists cur' adv', r = Walked cur' adv' /\ f <= cur' /\ cur' <= cur /\ prev_start (tb_text tb) f cur = prev_start (tb_text tb) f cur'
         /\ (adv' = true /\ (exists q, f <= q /\ q < cur' /\ loaded_at tb' q /\ ~ loaded_at tb q)
             \/ cur' = f /\ (adv = true \/ cur' < cur -> adv' = true))).

Lemma prev_pass_from tb tb1 tb' cur cur1 f adv adv1 r :
  tb_text tb1 = tb_text tb -> kept tb tb1 -> cur1 <= cur -> prev_start (tb_text tb) f cur = prev_start (tb_text tb) f cur1 ->
  (cur1 = cur -> adv1 = adv) -> (cur1 < cur -> adv1 = true) ->
  prev_pass tb1 tb' cur1 f adv1 r -> prev_pass tb tb' cur f adv r.
Proof.
  intros Htx Hk Hle Hprev Hsame Hadv (H1 & H2 & H3 & Hr). rw Htx in H2, Hr. split_and!; [done..|].
  destruct Hr as [?|[(n & -> & Hn)|(Hk1 & cur' & adv' & -> & Hf & Hc & Hn & Hr)]]; [by left|right; left|right; right].
  - exists n. by rw Hprev.
  - split; [intros q Hq; by apply Hk1, Hk|]. exists cur', adv'. split_and!; [done|done|lia|by rw Hprev|].
    destruct Hr as [(R1 & q & R2 & R3 & R4 & R5)|[R1 R2]]; [left|right; split; [done|]].
    + split; [done|]. exists q. split_and!; [done..|]. intros Hq. by apply R5, Hk.
    + intros Ha. apply R2. destruct (Nat.eq_dec cur1 cur) as [E|]; [|left; apply Hadv; lia]. rw (Hsame E). destruct Ha; [by left|right; lia].
Qed.

(** A pass over the pieces [ls], backward from where they end. *)
Definition passes_back (f e : nat) (ls : list LeafData) : Prop := forall tb post p adv,
  f < e -> e <= length (tb_text tb) -> tb_inv tb -> loadable tb -> node_leaves (root (piece_tree tb)) = ls ++ post ->
  f <= p -> p <= e -> p = Nat.max f (Nat.min e (length (cells_of ls))) ->
  exists tb' r, prev_views tb (rev (List.filter (overlaps f e) (views ls 0))) p f adv = Ok (tb', r) /\ prev_pass tb tb' p f adv r.

(** Going on with the pieces before one that has been dealt with. *)
Lemma back_goes_on f e ls l post tb tb1 l' p p1 adv adv1 :
  passes_back f e ls -> f < e -> e <= length (tb_text tb) -> p <= e ->
  tb_inv tb1 -> loadable tb1 -> tb_text tb1 = tb_text tb -> kept tb tb1 -> node_leaves (root (piece_tree tb1)) = ls ++ l' :: post ->
  shape_of l' = shape_of l -> p1 = Nat.max f (Nat.min e (length (cells_of ls))) -> p1 <= p -> count_newlines (sub (tb_text tb) p1 p) = 0 ->
  (p1 = p -> adv1 = adv) -> (p1 < p -> adv1 = true) ->
  exists tb' r, prev_views tb1 (rev (List.filter (overlaps f e) (views ls 0))) p1 f adv1 = Ok (tb', r) /\ prev_pass tb tb' p f adv r.
Proof.
  intros IH Hfe He Hpe I1 I2 I3 Hk I4 Hsh Hp1 Hle Hfree Hsame Hadv.
  destruct (IH tb1 (l' :: post) p1 adv1 Hfe ltac:(by rw I3) I1 I2 I4 ltac:(lia) ltac:(lia) Hp1) as (tb' & r & E & Hpass).
  exists tb', r. split; [done|]. apply (prev_pass_from tb tb1 tb' p p1 f adv adv1 r); try done. apply prev_start_over; try done; lia.
Qed.

Lemma passes_back_snoc f e ls l : passes_back f e ls -> passes_back f e (ls ++ [l]).
Proof.
  intros IH tb post p adv Hfe He Hinv Hld Hls Hfp Hpe Hp. set (d := length (cells_of ls)).
  assert (length (cells_of (ls ++ [l])) = d + l_bytes l) as HD.
  { rw cells_of_app cells_of_cons !length_app length_leaf_cells. unfold d, cells_of at 2. cbn. lia. }
  rw HD in Hp. rw views_app List.filter_app rev_app_distr. cbn [Nat.add]. fold d. cbn [views List.filter]. set (view := view_of l d).
  rw -app_assoc in Hls. cbn [app] in Hls.
  pose proof (fun tb1 l' p1 adv1 => back_goes_on f e ls l post tb tb1 l' p p1 adv adv1 IH Hfe He Hpe) as Hgo. fold d in Hgo.
  assert (count_newlines (sub (tb_text tb) p p) = 0) as Hnil by (unfold sub; by rw Nat.sub_diag).
  destruct (overlaps f e view) eqn:Ho; cbn [rev app].
  2: { apply andb_false_iff in Ho. rw !bool_decide_eq_false in Ho. cbn in Ho. apply (Hgo tb l p adv); try done; lia. }
  apply andb_true_iff in Ho as [H1%bool_decide_eq_true H2%bool_decide_eq_true]. cbn in H1, H2. assert (p = Nat.min e (d + l_bytes l)) as Hpd by lia.
  cbn [TextBufferLineScan.prev_views]. cbn [pv_line_feed_cnt pv_doc_offset pv_bytes view].
  assert (forall tb1 l', tb_inv tb1 -> loadable tb1 -> tb_text tb1 = tb_text tb -> kept tb tb1 -> node_leaves (root (piece_tree tb1)) = ls ++ l' :: post ->
    shape_of l' = shape_of l -> count_newlines (sub (tb_text tb) d (d + l_bytes l)) = 0 ->
    exists tb' r, (if d <? p then prev_views tb1 (rev (List.filter (overlaps f e) (views ls 0))) (Nat.max d f) f true
      else prev_views tb1 (rev (List.filter (overlaps f e) (views ls 0))) p f adv) = Ok (tb', r) /\ prev_pass tb tb' p f adv r) as Hover.
  { intros tb1 l' I1 I2 I3 I4 I5 Hsh Hfree. destruct (Nat.ltb_spec d p) as [Hlt|Hge].
    - apply (Hgo tb1 l'); try done; [lia|lia| |lia]. by apply (count_sub_le _ _ _ d (d + l_bytes l)); [lia|lia|].
    - apply (Hgo tb1 l'); try done; lia. }
  case_bool_decide as Hk0.
  { apply (Hover tb l); try done. symmetry. by apply (counted_piece tb ls l post). }
  destruct (visit_ok tb ls l post (Nat.max d f) Hinv Hld Hls) as (tb1 & r & Er & I1 & I2 & I3 & Hr); [fold d; lia|].
  fold d view in Er, Hr. rw Er. cbn [mbind res_bind].
  destruct Hr as [(err & -> & Hf)|[(-> & Hpos & L1 & L2 & Lk)|(-> & tb2 & l' & known & -> & J1 & J2 & J3 & Hkept & _ & J5 & J6 & J7 & J8)]].
  { eexists _, _. split; [done|]. split_and!; [done..|]. left. by exists err. }
  { eexists _, _. split; [done|]. split_and!; [done..|]. right. right. split; [exact Lk|]. exists p, true.
    split_and!; [done|done|done|done|]. left. split; [done|]. exists (Nat.max d f). split_and!; [lia|lia|done|done]. }
  cbn [mbind res_bind]. case_bool_decide as Hk; [apply (Hover tb2 l'); try done; by apply J7|].
  rw (_ : Nat.max f d = Nat.max d f); [lia|]. rw (_ : Nat.min p (d + l_bytes l) = p); [lia|]. destruct (Nat.leb_spec p (Nat.max d f)) as [Hz|Hlt].
  { apply (Hgo tb2 l'); try done; lia. }
  rw J8; [lia|lia|lia|]. cbn [mbind res_bind].
  pose proof (prev_start_split (tb_text tb) f (Nat.max d f) p ltac:(lia) ltac:(lia) ltac:(lia)) as Hsplit. unfold prev_start at 2 in Hsplit.
  destruct (rposition is_nl (sub (tb_text tb) (Nat.max d f) p)) as [i|] eqn:Hfind; cbn [fmap option_fmap option_map] in Hsplit.
  - eexists _, _. split; [done|]. split_and!; [done..|]. right. left. by exists (Nat.max d f + i + 1).
  - apply (Hgo tb2 l'); try done; [lia|lia|by apply rposition_None|lia].
Qed.

Lemma passes_back_all f e ls : passes_back f e ls.
Proof.
  induction ls as [|l ls IH] using rev_ind; [|by apply passes_back_snoc]. intros tb post p adv Hfe He Hinv Hld Hls Hfp Hpe Hp.
  change (length (cells_of [])) with 0 in Hp. eexists _, _. split; [done|]. split_and!; [done..|]. right. right. split; [by intros q|].
  exists p, adv. split_and!; [done|done|done|done|]. right. split; [lia|]. intros [->|?]; [done|lia].
Qed.

(** Every pass that does not reach the floor has loaded something. *)
Lemma prev_loop_ok f fuel : forall tb cur,
  tb_inv tb -> loadable tb -> f <= cur -> cur <= length (tb_text tb) -> unloaded_in tb f cur < fuel \/ cur = f ->
  exists tb' r, prev_loop fs_read_range count_line_feeds_in_range load_chunk_size chunk_alignment fuel tb cur f = Ok (tb', r)
  /\ tb_inv tb' /\ tb_text tb' = tb_text tb /\ loadable tb'
  /\ ((exists err, read_failed files fs_read_range err /\ r = None)
      \/ r = match prev_start (tb_text tb) f cur with Some n => Some n | None => if f =? 0 then Some 0 else None end).
Proof.
  assert (forall t, prev_start t f f = None) as Hff by (intros t; apply prev_start_none; unfold sub; by rw Nat.sub_diag).
  induction fuel as [|fuel IH]; intros tb cur Hinv Hld Hf Hcur Hfuel; cbn [prev_loop]; destruct (Nat.leb_spec cur f) as [Hle|Hlt]; try lia.
  1, 2: eexists _, _; split; [done|]; split_and!; [done..|]; right; assert (cur = f) as -> by lia; by rw Hff.
  pose proof (proj1 Hinv) as [[Hwf Htot] _]. rw iter_pieces_eq //.
  assert (length (cells_of (node_leaves (root (piece_tree tb)))) = length (tb_text tb)) as Hlen.
  { unfold TextBufferInv.tb_text, text, doc, node_cells. by rw length_fmap. }
  destruct (passes_back_all f cur (node_leaves (root (piece_tree tb))) tb [] cur false) as (tb1 & r & Er & I1 & I2 & I3 & Hr); try done; [by rw app_nil_r|lia|].
  rw Er. cbn [mbind res_bind]. destruct Hr as [(err & He & ->)|[(n & -> & Hn)|(Hk & cur' & adv' & -> & H1 & H2 & Hn & Hr)]].
  { eexists _, _. split; [done|]. split_and!; [done..|]. left. by exists err. }
  { eexists _, _. split; [done|]. split_and!; [done..|]. right. by rw Hn. }
  assert (adv' = true) as -> by (destruct Hr as [(-> & _)|[Hs ->]]; [done|done|right; lia]).
  destruct (IH tb1 cur' I1 I3 H1 ltac:(rw I2; lia)) as (tb2 & r & -> & J1 & J2 & J3 & Hr2).
  { destruct Hr as [(_ & Hq)|[-> _]]; [left|by right]. pose proof (unloaded_in_less tb tb1 f cur cur' Hk H2 Hq). lia. }
  exists tb2, r. split; [done|]. split_and!; [done|by rw J2|done|]. rw I2 -Hn in Hr2. exact Hr2.
Qed.

Lemma prev_line_start_ok tb from cap :
  tb_inv tb -> loadable tb ->
  let start := Nat.min from (length (tb_text tb)) in
  exists tb' r, prev_line_start_within fs_read_range count_line_feeds_in_range load_chunk_size chunk_alignment tb from cap = Ok (tb', r)
  /\ tb_inv tb' /\ tb_text tb' = tb_text tb /\ loadable tb'
  /\ ((exists err, read_failed files fs_read_range err /\ r = None)
      \/ r = match prev_start (tb_text tb) (start - cap) start with Some n => Some n | None => if start - cap =? 0 then Some 0 else None end).
Proof.
  intros Hinv Hld start. unfold prev_line_start_within. rw (tb_total_bytes_text files tb Hinv). fold start.
  destruct (Nat.eqb_spec start 0) as [Hz|Hz].
  { exists tb, (Some 0). split_and!; try done. right. rw Hz. cbn. rw prev_start_none //. }
  apply prev_loop_ok; [done|done|lia|lia|left]. pose proof (unloaded_in_le tb (start - cap) start). lia.
Qed.

(** ** Several lines *)

(** Where the start of the [lines]-th line behind [pos] is, when it is at most [budget]
    bytes away, and how far one has looked otherwise. *)
Fixpoint nth_next_start (t : list byte) (lines pos budget : nat) : nat :=
  match lines with
  | 0 => pos
  | S lines =>
      match next_start t pos (Nat.min (pos + budget) (length t)) with
      | Some next => nth_next_start t lines next (budget - (next - pos))
      | None => Nat.min (pos + budget) (length t)
      end
  end.

Lemma next_start_bounds t a b n : next_start t a b = Some n -> a < n /\ n <= b.
Proof.
  unfold next_start. intros (i & Hi & ->)%fmap_Some. pose proof (find_newline_spec (sub t a b)) as H. rw Hi in H. destruct H as [H _].
  unfold sub in H. rw length_take in H. lia.
Qed.

Lemma nth_next_start_0 t lines pos : pos <= length t -> nth_next_start t lines pos 0 = pos.
Proof.
  intros Hp. destruct lines as [|lines]; [done|]. cbn [nth_next_start]. rw Nat.add_0_r Nat.min_l // next_start_none //. unfold sub. by rw Nat.sub_diag.
Qed.

Lemma advance_loop_ok lines : forall tb pos budget,
  tb_inv tb -> loadable tb -> pos <= length (tb_text tb) ->
  exists tb' r, advance_loop fs_read_range count_line_feeds_in_range load_chunk_size chunk_alignment lines tb (length (tb_text tb)) pos budget = Ok (tb', r)
  /\ tb_inv tb' /\ tb_text tb' = tb_text tb /\ loadable tb' /\ r <= length (tb_text tb)
  /\ ((exists err, read_failed files fs_read_range err) \/ r = nth_next_start (tb_text tb) lines pos budget).
Proof.
  induction lines as [|lines IH]; intros tb pos budget Hinv Hld Hpos; cbn [advance_loop]; [exists tb, pos; split_and!; try done; by right|].
  destruct (Nat.eqb_spec budget 0) as [->|Hb]; [exists tb, pos; split_and!; try done; right; by rw nth_next_start_0|].
  destruct (next_line_start_ok tb pos budget Hinv Hld) as (tb1 & r & -> & I1 & I2 & I3 & Hr). cbn [mbind res_bind nth_next_start].
  destruct Hr as [(err & He & ->)| ->]; [exists tb1, (Nat.min (pos + budget) (length (tb_text tb))); split_and!; try done; [lia|left; by exists err]|].
  destruct (next_start (tb_text tb) pos _) as [n|] eqn:En; [|exists tb1, (Nat.min (pos + budget) (length (tb_text tb))); split_and!; try done; [lia|by right]].
  pose proof (next_start_bounds _ _ _ _ En) as Hn. rw usub_Ok; [lia|]. cbn [mbind res_bind]. rw -I2.
  destruct (IH tb1 n (budget - (n - pos)) I1 I3) as (tb2 & r & -> & J1 & J2 & J3 & J4 & Hr); [rw I2; lia|].
  exists tb2, r. split; [done|]. split_and!; [done|by rw J2|done|done|]. by rw I2 in Hr |- *.
Qed.

Lemma advance_lines_ok tb from lines total_cap :
  tb_inv tb -> loadable tb ->
  exists tb' r, advance_lines_within fs_read_range count_line_feeds_in_range load_chunk_size chunk_alignment tb from lines total_cap = Ok (tb', r)
  /\ tb_inv tb' /\ tb_text tb' = tb_text tb /\ loadable tb' /\ r <= length (tb_text tb)
  /\ ((exists err, read_failed files fs_read_range err)
      \/ r = nth_next_start (tb_text tb) lines (Nat.min from (length (tb_text tb))) total_cap).
Proof. intros Hinv Hld. unfold advance_lines_within. rw (tb_total_bytes_text files tb Hinv). apply advance_loop_ok; [done|done|lia]. Qed.

(** What is known to hold no line feed holds none. *)
Lemma known_newline_free_ok tb start end_ :
  tb_inv tb -> known_newline_free tb start end_ = true -> count_newlines (sub (tb_text tb) start end_) = 0.
Proof.
  intros Hinv [_ Hf]%andb_true_iff. exact (range_line_feed_free_sound (content_in files (tb_buffers tb)) (tb_buffers tb) (piece_tree tb) start end_ (proj1 Hinv) Hf).
Qed.

(** C26: the bounded searches for line starts.  When every piece that is not loaded is
    non-empty and either at most one load chunk long or starts at an aligned offset of its
    buffer ([loadable], as in a freshly opened file), the searches end without a panic and
    leave the text alone, and the pieces loadable, whatever of it has to be loaded.  Unless
    the file system refuses bytes that a file has,
    the search forward finds the start of the line behind the first newline within its bound
    and nothing otherwise; the search backward finds the start of the line it starts from, if
    it is within its bound; walking several lines ends at the start of the last of them, or
    where its bytes ran out. *)
Theorem line_starts_found tb from cap lines :
  tb_inv tb -> loadable tb ->
  let t := tb_text tb in
  let start := Nat.min from (length t) in
  (exists tb' r, next_line_start_within fs_read_range count_line_feeds_in_range load_chunk_size chunk_alignment tb from cap = Ok (tb', r)
    /\ tb_inv tb' /\ tb_text tb' = t /\ loadable tb'
    /\ ((exists err, read_failed files fs_read_range err /\ r = None) \/ r = next_start t from (Nat.min (from + cap) (length t))))
  /\ (exists tb' r, prev_line_start_within fs_read_range count_line_feeds_in_range load_chunk_size chunk_alignment tb from cap = Ok (tb', r)
    /\ tb_inv tb' /\ tb_text tb' = t /\ loadable tb'
    /\ ((exists err, read_failed files fs_read_range err /\ r = None)
        \/ r = match prev_start t (start - cap) start with Some n => Some n | None => if start - cap =? 0 then Some 0 else None end))
  /\ (exists tb' r, advance_lines_within fs_read_range count_line_feeds_in_range load_chunk_size chunk_alignment tb from lines cap = Ok (tb', r)
    /\ tb_inv tb' /\ tb_text tb' = t /\ loadable tb' /\ r <= length t
    /\ ((exists err, read_failed files fs_read_range err) \/ r = nth_next_start t lines start cap)).
Proof. intros Hinv Hld. split_and!; [by apply next_line_start_ok|by apply prev_line_start_ok|by apply advance_lines_ok]. Qed.
End proofs.

(** ** An example: three short lines, loaded four bytes at a time *)
Definition three_lines : list byte := [x61; x62; x0a; x63; x64; x65; x66; x67; x68; x0a; x69; x6a].
Definition lines_read (path : string) (off n : nat) : unit + list byte :=
  if decide (n <= length (drop off three_lines)) then inr (take n (drop off three_lines)) else inl tt.
Definition lines_count (path : string) (off n : nat) : unit + nat := inr (count_newlines (take n (drop off three_lines))).
Definition lines_buffer : TextBuffer := open_unloaded EmptyString 12 LF Utf8 false.

Lemma lines_read_ok path off n d : lines_read path off n = inr d -> d = take n (drop off three_lines) /\ length d = n.
Proof. unfold lines_read. case_decide; [|done]. intros [= <-]. split; [done|]. rw length_take. lia. Qed.

Lemma lines_never_fail e : ~ read_failed (fun _ => three_lines) lines_read e.
Proof. intros (path & off & n & Hn & Hr). unfold lines_read in Hr. by rw decide_True in Hr. Qed.

Lemma line_starts_found_witness :
  (exists tb' r, next_line_start_within lines_read lines_count 4 2 lines_buffer 3 9 = Ok (tb', r) /\ r = Some 10)
  /\ (exists tb' r, prev_line_start_within lines_read lines_count 4 2 lines_buffer 3 9 = Ok (tb', r) /\ r = Some 3)
  /\ (exists tb' r, advance_lines_within lines_read lines_count 4 2 lines_buffer 3 2 9 = Ok (tb', r) /\ r = 12).
Proof.
  destruct (open_unloaded_ok (fun _ => three_lines) 4 2 ltac:(lia) ltac:(lia) EmptyString LF Utf8 false) as (Hinv & Hld & Htx); [discriminate|].
  destruct (line_starts_found (fun _ => three_lines) lines_read lines_count 4 2 lines_read_ok (fun path off n c H => eq_sym (f_equal (fun x => match x with inr c => c | inl _ => 0 end) H))
    ltac:(lia) ltac:(lia) (ex_intro _ 2 eq_refl) lines_buffer 3 9 2 Hinv Hld) as ((t1 & r1 & E1 & _ & _ & _ & H1) & (t2 & r2 & E2 & _ & _ & _ & H2) & (t3 & r3 & E3 & _ & _ & _ & _ & H3)).
  split; [|split].
  - exists t1, r1. split; [exact E1|]. destruct H1 as [(e & He & _)|H1]; [destruct (lines_never_fail e He)|]. rw H1 Htx. reflexivity.
  - exists t2, r2. split; [exact E2|]. destruct H2 as [(e & He & _)|H2]; [destruct (lines_never_fail e He)|]. rw H2 Htx. reflexivity.
  - exists t3, r3. split; [exact E3|]. destruct H3 as [(e & He)|H3]; [destruct (lines_never_fail e He)|]. rw H3 Htx. reflexivity.
Defined.
