(* ===== verification/VirtualSpace.v ===== *)
(** * Columns of a line, and virtual space

    Models crates/fresh-editor-core/src/primitives/display_width.rs (columns of a line in
    display widths) and crates/fresh-editor-core/src/model/virtual_space.rs (cursors beyond the
    end of a line), with the accessors of lines of buffer/mod.rs that they use.

    [width] stands for the widths of the unicode-width crate, [str_width] for the width it
    gives a string and [graphemes] for the clusters of unicode-segmentation.  A [str] is the
    list of its bytes. *)
From stdpp Require Import base numbers list option strings.
From Stdlib Require Import ssreflect Strings.Byte NArith ZArith.
From S2P Require Import Prelude TextSpec Utf8 LineDiff StringBuffer PieceTree PieceTreeInv PieceTreeEdit PieceTreeQuery PieceTreeLines.
From S2P Require Import BufferFormat TextBuffer TextBufferInv PathEncode Cursor TextEditInv TextBufferNav.

(** ** Lines of the buffer *)
Definition get_line_number (tb : TextBuffer) (byte_offset : nat) : res nat :=
  pos ← tb_offset_to_position tb byte_offset;
  match pos with
  | Some (line, _) => Ok line
  | None => if decide (estimated_line_length (config tb) = 0) then Panic else Ok (byte_offset / estimated_line_length (config tb))
  end.

Definition line_start_offset (tb : TextBuffer) (line : nat) : res (option nat) :=
  range ← line_range (piece_tree tb) line (tb_buffers tb);
  Ok (match range with Some (start, _) => Some start | None => None end).

Definition get_line (tb : TextBuffer) (line : nat) : res (option (list byte)) :=
  range ← line_range (piece_tree tb) line (tb_buffers tb);
  Ok (match range with
      | None => None
      | Some (start, end_) => get_text_range tb start (line_range_len tb start end_)
      end).

Inductive VirtualSpaceMode := VsOff | VsBlock | VsOn.
#[export] Instance VirtualSpaceMode_eq_dec : EqDecision VirtualSpaceMode.
Proof. solve_decision. Defined.

Definition cursor_beyond_eol (mode : VirtualSpaceMode) : bool := bool_decide (mode = VsOn).

Section columns.
Context (width : N -> option nat) (str_width : list byte -> nat) (graphemes : list byte -> list (list byte)).

(** ** Columns *)
Definition char_width (c : N) : nat := default 0 (width c).
Definition chars_width (cs : list N) : nat := list_sum (char_width <$> cs).

Definition visual_column_at_byte (s : list byte) (byte_offset : nat) : res nat :=
  let end_ := Nat.min byte_offset (length s) in
  if negb (is_char_boundary s end_) then Panic else Ok (chars_width (from_utf8_lossy (take end_ s))).

Fixpoint column_loop (chars : list N) (visual_col current_col byte_idx : nat) : nat :=
  match chars with
  | [] => byte_idx
  | ch :: chars =>
      if visual_col <=? current_col then byte_idx
      else column_loop chars visual_col (current_col + char_width ch) (byte_idx + length (encode_utf8 ch))
  end.

Definition byte_offset_at_visual_column (s : list byte) (visual_col : nat) : nat := column_loop (from_utf8_lossy s) visual_col 0 0.

Fixpoint cluster_loop (clusters : list (list byte)) (visual_col col byte_idx : nat) : nat :=
  match clusters with
  | [] => byte_idx
  | cluster :: clusters =>
      let w := str_width cluster in
      if visual_col <? col + w then byte_idx
      else cluster_loop clusters visual_col (col + w) (byte_idx + length cluster)
  end.

Definition grapheme_byte_at_visual_column (s : list byte) (visual_col : nat) : nat := cluster_loop (graphemes s) visual_col 0 0.

Definition visual_column_of (tb : TextBuffer) (offset : nat) : res (option nat) :=
  line ← get_line_number tb offset;
  start ← line_start_offset tb line;
  match start with
  | None => Ok None
  | Some line_start =>
      content ← get_line tb line;
      Ok (match content with
          | None => None
          | Some content => Some (chars_width (from_utf8_lossy (take (Nat.min (offset - line_start) (length content)) content)))
          end)
  end.

(** ** Virtual space *)

(** [trim_end_matches(['\r', '\n'])] *)
Fixpoint trim_breaks (chars : list N) : list N :=
  match chars with
  | [] => []
  | c :: chars =>
      match trim_breaks chars with
      | [] => if (c =? 13)%N || (c =? 10)%N then [] else [c]
      | rest => c :: rest
      end
  end.

Definition line_width_at_content_end (tb : TextBuffer) (position : nat) : res (option nat) :=
  line ← get_line_number tb position;
  start ← line_start_offset tb line;
  match start with
  | None => Ok None
  | Some line_start =>
      content ← get_line tb line;
      let text := from_utf8_lossy (default [] content) in
      let content_len := length (encode_all (trim_breaks text)) in
      if negb (position =? line_start + content_len) then Ok None else
      column ← visual_column_at_byte (encode_all text) content_len;
      Ok (Some column)
  end.

Definition cursor_virtual_columns (mode : VirtualSpaceMode) (tb : TextBuffer) (cursor : Cursor) : res nat :=
  if negb (cursor_beyond_eol mode) then Ok 0 else
  if bool_decide (is_Some (anchor cursor)) || bool_decide (selection_mode cursor = Block) then Ok 0 else
  match sticky_column cursor with
  | None => Ok 0
  | Some sticky =>
      w ← line_width_at_content_end tb (position cursor);
      Ok (match w with None => 0 | Some w => sticky - w end)
  end.

Definition cursor_virtual_lines (mode : VirtualSpaceMode) (tb : TextBuffer) (cursor : Cursor) : nat :=
  if negb (cursor_beyond_eol mode) || bool_decide (is_Some (anchor cursor)) || bool_decide (selection_mode cursor = Block)
     || negb (position cursor =? tb_total_bytes tb)
  then 0 else virtual_lines_below cursor.

Definition spaces (n : nat) : list N := replicate n 32%N.

Definition virtual_gap_text (mode : VirtualSpaceMode) (tb : TextBuffer) (cursor : Cursor) (line_ending : list N) : res (list N) :=
  let vlines := cursor_virtual_lines mode tb cursor in
  if 0 <? vlines then
    let cols := default 0 (sticky_column cursor) in
    Ok (concat (replicate vlines line_ending) ++ spaces cols)
  else
    cols ← cursor_virtual_columns mode tb cursor;
    Ok (spaces cols).
End columns.

(** ** Lines of characters *)
Lemma last_line_app_free a b : (10%N ∉ b) -> last_line (a ++ b) = last_line a ++ b.
Proof.
  intros Hb. induction a as [|c a IH]; cbn [app last_line].
  - destruct b as [|c b]; [done|]. cbn [last_line]. by rw bool_decide_eq_false_2.
  - destruct (decide (10%N ∈ c :: a)) as [Hin|Hout].
    + rw !bool_decide_eq_true_2 //. rw app_comm_cons elem_of_app. by left.
    + rw !bool_decide_eq_false_2 //. rw app_comm_cons elem_of_app. tauto.
Qed.

Lemma last_line_newline a : last_line (a ++ [10%N]) = [].
Proof.
  induction a as [|c a IH]; [done|]. cbn [app last_line]. rw bool_decide_eq_true_2 //. right. apply elem_of_app. right. constructor.
Qed.

Definition is_break (c : N) : Prop := c = 13%N \/ c = 10%N.

Lemma is_break_spec c : ((c =? 13)%N || (c =? 10)%N) = true <-> is_break c.
Proof. rw orb_true_iff !N.eqb_eq. done. Qed.

Lemma trim_breaks_split cs : exists k, cs = trim_breaks cs ++ k /\ Forall is_break k.
Proof.
  induction cs as [|c cs (k & E & Hk)]; [by exists []|]. cbn [trim_breaks]. destruct (trim_breaks cs) as [|x r] eqn:Et; [|exists k; split; [cbn; by f_equal|done]].
  destruct ((c =? 13)%N || (c =? 10)%N) eqn:Ec; [|exists k; split; [cbn in E |- *; by f_equal|done]].
  exists (c :: k). cbn [app] in E |- *. split; [by f_equal|]. constructor; [by apply is_break_spec|done].
Qed.

Lemma trim_breaks_app a k : Forall is_break k -> trim_breaks (a ++ k) = trim_breaks a.
Proof.
  intros Hk. induction a as [|c a IH]; cbn [app trim_breaks]; [|by rw IH].
  induction Hk as [|c k Hc _ IH]; [done|]. cbn [trim_breaks]. rw IH. by rw (proj2 (is_break_spec c) Hc).
Qed.

Lemma trim_breaks_none a c : ~ is_break c -> trim_breaks (a ++ [c]) = a ++ [c].
Proof.
  intros Hc. induction a as [|x a IH]; cbn [app trim_breaks].
  - destruct ((c =? 13)%N || (c =? 10)%N) eqn:Ec; [|done]. by apply is_break_spec in Ec.
  - rw IH. by destruct a.
Qed.

(** Two beginnings of a text with the same number of bytes are the same. *)
Lemma prefix_same_bytes a b X : a `prefix_of` X -> b `prefix_of` X -> length (encode_all a) = length (encode_all b) -> a = b.
Proof.
  assert (forall a k, length (encode_all a) = length (encode_all (a ++ k)) -> k = []) as Hnil.
  { intros a' [|c k]; [done|]. rw encode_all_app length_app encode_all_cons length_app. pose proof (length_encode_utf8 c). lia. }
  intros Ha Hb Hl. destruct (prefix_weak_total a b X Ha Hb) as [[k ->]|[k ->]].
  - by rw (Hnil a k Hl) app_nil_r.
  - by rw (Hnil b k (eq_sym Hl)) app_nil_r.
Qed.

Section proofs.
Context (width : N -> option nat).
Local Abbreviation chars_width := (chars_width width).

Lemma chars_width_app a b : chars_width (a ++ b) = chars_width a + chars_width b.
Proof. unfold VirtualSpace.chars_width. by rw fmap_app list_sum_app. Qed.

Lemma column_at a b : scalars (a ++ b) -> visual_column_at_byte width (encode_all (a ++ b)) (length (encode_all a)) = Ok (chars_width a).
Proof.
  intros [Ha Hb]%Forall_app. unfold visual_column_at_byte. rw encode_all_app. rw Nat.min_l; [rw length_app; lia|].
  rw boundary_app; [apply valid_starts; by exists b|]. cbn [negb]. rw take_app_length. by rw (proj2 (from_utf8_encoded a Ha)).
Qed.

(** The column of an offset counts whole characters, and going to a column stops at the first
    character that starts there or later. *)
Lemma column_loop_ok cs : forall col current byte,
  exists a b, cs = a ++ b /\ column_loop width cs col current byte = byte + length (encode_all a)
    /\ (b = [] \/ col <= current + chars_width a) /\ forall a' c a'', a = a' ++ c :: a'' -> current + chars_width a' < col.
Proof.
  induction cs as [|c cs IH]; intros col current byte; cbn [column_loop].
  - exists [], []. split_and!; [done|cbn; lia|by left|]. intros a' c a'' H. by destruct a'.
  - destruct (Nat.leb_spec col current) as [Hle|Hlt].
    + exists [], (c :: cs). split_and!; [done|cbn; lia|right; cbn; lia|]. intros a' c' a'' H. by destruct a'.
    + destruct (IH col (current + char_width width c) (byte + length (encode_utf8 c))) as (a & b & -> & E & H1 & H2).
      assert (forall l, chars_width (c :: l) = char_width width c + chars_width l) as Hc by done.
      exists (c :: a), b. split_and!; [done|rw E encode_all_cons length_app; lia|destruct H1; [by left|right; rw Hc; lia]|].
      intros [|c' a'] d a''; [intros _; cbn; lia|]. intros [= <- E']. rw Hc. specialize (H2 _ _ _ E'). lia.
Qed.

Section text.
Context (files : string -> list byte) (tb : TextBuffer).
Hypothesis Hinv : tb_inv files tb.
Hypothesis Hix : Forall (leaf_indexed (tb_buffers tb)) (node_leaves (root (piece_tree tb))).
Local Abbreviation text := (tb_text files tb).

(** The line of a character. *)
Lemma line_access cs1 cs2 :
  scalars (cs1 ++ cs2) -> text = encode_all (cs1 ++ cs2) ->
  exists start, length (encode_all cs1) = start + length (encode_all (last_line cs1))
    /\ get_line_number tb (length (encode_all cs1)) = Ok (newlines cs1)
    /\ line_start_offset tb (newlines cs1) = Ok (Some start)
    /\ get_line tb (newlines cs1) = Ok (Some (encode_all (last_line cs1 ++ rest_of_line cs2))).
Proof.
  intros Hs Ht. destruct (text_position files tb Hinv Hix cs1 cs2 Hs Ht) as (pre & E & Hst & Hpos).
  destruct (text_line files tb Hinv Hix cs1 cs2 pre Hs Ht E Hst) as (end_ & Hr & Hl). exists (length (encode_all pre)). split_and!.
  - by rw {1}E encode_all_app length_app.
  - unfold get_line_number. by rw Hpos.
  - unfold line_start_offset. by rw Hr.
  - unfold get_line. rw Hr. cbn [mbind res_bind]. rw Hl. f_equal.
    rw (get_text_range_loaded files tb Hinv (indexed_loaded tb Hix)) Ht. f_equal. destruct (rest_of_line_prefix cs2) as [k Hk].
    assert (encode_all (cs1 ++ cs2) = encode_all pre ++ encode_all (last_line cs1 ++ rest_of_line cs2) ++ encode_all k) as ->.
    { rw -!encode_all_app. f_equal. rw {1}E {1}Hk -!app_assoc. done. }
    by rw drop_app_length take_app_length.
Qed.

Lemma width_at cs1 cs2 :
  scalars (cs1 ++ cs2) -> text = encode_all (cs1 ++ cs2) ->
  line_width_at_content_end width tb (length (encode_all cs1))
  = Ok (if decide (trim_breaks (last_line cs1 ++ rest_of_line cs2) = last_line cs1) then Some (chars_width (last_line cs1)) else None).
Proof.
  intros Hs Ht. destruct (line_access cs1 cs2 Hs Ht) as (start & Hp & H1 & H2 & H3). unfold line_width_at_content_end.
  rw H1. cbn [mbind res_bind]. rw H2. cbn [mbind res_bind]. rw H3. cbn [mbind res_bind default from_option id].
  assert (scalars (last_line cs1 ++ rest_of_line cs2)) as Hl.
  { apply Forall_app in Hs as [Hs1 Hs2]. apply Forall_app. split.
    - destruct (last_line_split cs1) as (pre & E & _). rw E in Hs1. by apply Forall_app in Hs1 as [_ ?].
    - destruct (rest_of_line_prefix cs2) as [k Hk]. rw Hk in Hs2. by apply Forall_app in Hs2 as [? _]. }
  rw (proj2 (from_utf8_encoded _ Hl)). set (X := last_line cs1 ++ rest_of_line cs2) in *.
  destruct (Nat.eqb_spec (length (encode_all cs1)) (start + length (encode_all (trim_breaks X)))) as [E|E]; cbn [negb].
  - assert (trim_breaks X = last_line cs1) as Hx.
    { destruct (trim_breaks_split X) as (k & Hk & _). apply (prefix_same_bytes _ _ X); [by exists k|by exists (rest_of_line cs2)|lia]. }
    rw Hx decide_True //. unfold X. rw column_at //.
  - rw decide_False //. intros Hx. rw Hx in E. lia.
Qed.
End text.

(** ** Editing in virtual space *)
Lemma spaces_free n : 10%N ∉ spaces n.
Proof. unfold spaces. intros H%elem_of_replicate. by destruct H as [? _]. Qed.

Lemma spaces_scalars n : scalars (spaces n).
Proof. unfold spaces. by apply Forall_replicate. Qed.

Lemma spaces_width n : width 32%N = Some 1 -> chars_width (spaces n) = n.
Proof.
  intros Hw. unfold spaces, VirtualSpace.chars_width. induction n as [|n IH]; [done|]. cbn [replicate fmap list_fmap].
  change (list_sum (?x :: ?l)) with (x + list_sum l). rw IH. unfold char_width. by rw Hw.
Qed.

Lemma trim_spaces a n k : 0 < n -> Forall is_break k -> trim_breaks (a ++ spaces n ++ k) = a ++ spaces n.
Proof.
  intros Hn Hk. rw app_assoc trim_breaks_app //. destruct n as [|n]; [lia|]. unfold spaces. rw replicate_S_end app_assoc trim_breaks_none //.
  by intros [?|?].
Qed.

Lemma breaks_end v le : 0 < v -> exists a, concat (replicate v (le ++ [10%N])) = a ++ [10%N].
Proof.
  intros Hv. destruct v as [|v]; [lia|]. rw replicate_S_end List.concat_app. cbn. exists (concat (replicate v (le ++ [10%N])) ++ le). by rw app_nil_r app_assoc.
Qed.

(** The cursor behind what was inserted. *)
Definition moved (c : Cursor) (by_ : nat) : Cursor :=
  mkCursor (position c + by_) (anchor c) (sticky_column c) (selection_mode c) (block_anchor c) (deselect_on_move c) 0.

(** Which text is inserted: line breaks and the whole column at the end of the text, or the
    columns that the line falls short of, at the end of its content. *)
Lemma gap_cases files mode tb cursor line_ending cs1 cs2 :
  tb_inv files tb -> Forall (leaf_indexed (tb_buffers tb)) (node_leaves (root (piece_tree tb))) ->
  scalars (cs1 ++ cs2) -> tb_text files tb = encode_all (cs1 ++ cs2) -> position cursor = length (encode_all cs1) ->
  exists gap, virtual_gap_text width mode tb cursor line_ending = Ok gap
  /\ (gap = []
      \/ (exists v, 0 < v /\ cs2 = [] /\ gap = concat (replicate v line_ending) ++ spaces (default 0 (sticky_column cursor)))
      \/ exists sticky, sticky_column cursor = Some sticky /\ chars_width (last_line cs1) < sticky
         /\ trim_breaks (last_line cs1 ++ rest_of_line cs2) = last_line cs1 /\ gap = spaces (sticky - chars_width (last_line cs1))).
Proof.
  intros Hinv Hix Hs Ht Hp. unfold virtual_gap_text. destruct (Nat.ltb_spec 0 (cursor_virtual_lines mode tb cursor)) as [Hv|_].
  - eexists. split; [done|]. right. left. eexists. split_and!; [exact Hv| |done]. unfold cursor_virtual_lines in Hv. destruct (_ || negb _) eqn:E; [lia|].
    apply orb_false_iff in E as [_ E%negb_false_iff%Nat.eqb_eq]. rw Hp (tb_total_bytes_text files tb Hinv) Ht in E.
    assert (cs1 = cs1 ++ cs2) as H by (apply (prefix_same_bytes _ _ (cs1 ++ cs2)); [by exists cs2|done|done]).
    apply (f_equal length) in H. rw length_app in H. by destruct cs2; [|cbn in H; lia].
  - unfold cursor_virtual_columns. destruct (cursor_beyond_eol mode); cbn [negb]; [|exists []; split; [done|by left]].
    destruct (_ || _); [exists []; split; [done|by left]|]. destruct (sticky_column cursor) as [sticky|]; [|exists []; split; [done|by left]].
    rw Hp (width_at files tb Hinv Hix cs1 cs2 Hs Ht). cbn [mbind res_bind]. case_decide as Ht1; [|exists []; split; [done|by left]].
    eexists. split; [done|]. destruct (Nat.le_gt_cases sticky (chars_width (last_line cs1))) as [Hle|Hlt].
    + left. by replace (sticky - chars_width (last_line cs1)) with 0 by lia.
    + right. right. by exists sticky.
Qed.

(** C36: an edit in virtual space makes the cursor's virtual position real.  In a UTF-8 text
    that is loaded and indexed, with the cursor between characters, the gap text is
    computed without a panic; when it is not empty, then in the text with the gap inserted at
    the cursor the cursor behind the gap is at the end of its line's content, the width of
    that content is the cursor's column, and the cursor is not virtual any more. *)
Theorem virtual_gap_materializes files mode tb cursor line_ending cs1 cs2 :
  width 32%N = Some 1 -> (exists le, line_ending = le ++ [10%N]) -> scalars line_ending ->
  tb_inv files tb -> Forall (leaf_indexed (tb_buffers tb)) (node_leaves (root (piece_tree tb))) ->
  scalars (cs1 ++ cs2) -> tb_text files tb = encode_all (cs1 ++ cs2) -> position cursor = length (encode_all cs1) ->
  exists gap, virtual_gap_text width mode tb cursor line_ending = Ok gap
  /\ forall tb', gap <> [] -> tb_inv files tb' -> Forall (leaf_indexed (tb_buffers tb')) (node_leaves (root (piece_tree tb'))) ->
     tb_text files tb' = splice (tb_text files tb) (position cursor) 0 (encode_all gap) ->
     let cursor' := moved cursor (length (encode_all gap)) in
     line_width_at_content_end width tb' (position cursor') = Ok (Some (default 0 (sticky_column cursor)))
     /\ virtual_gap_text width mode tb' cursor' line_ending = Ok [].
Proof.
  intros Hw [le ->] Hle Hinv Hix Hs Ht Hp. destruct (gap_cases files mode tb cursor (le ++ [10%N]) cs1 cs2 Hinv Hix Hs Ht Hp) as (gap & Hg & Hcase).
  exists gap. split; [done|]. intros tb' Hne Hinv' Hix' Ht' cursor'. pose proof Hs as [Hs1 Hs2]%Forall_app.
  assert (scalars gap) as Hsg.
  { destruct Hcase as [->|[(v & _ & _ & ->)|(sticky & _ & _ & _ & ->)]]; [done| |apply spaces_scalars]. apply Forall_app. split; [|apply spaces_scalars].
    apply Forall_concat. by apply Forall_replicate. }
  assert (tb_text files tb' = encode_all ((cs1 ++ gap) ++ cs2)) as Htx.
  { rw Ht' Ht Hp. unfold splice. rw Nat.add_0_r !encode_all_app take_app_length drop_app_length. by rw -app_assoc. }
  assert (scalars ((cs1 ++ gap) ++ cs2)) as Hsc by (rw !Forall_app; done).
  assert (position cursor' = length (encode_all (cs1 ++ gap))) as Hp' by (cbn; rw Hp encode_all_app length_app; done).
  assert (line_width_at_content_end width tb' (position cursor') = Ok (Some (default 0 (sticky_column cursor)))) as Hwidth.
  { rw Hp' (width_at files tb' Hinv' Hix' (cs1 ++ gap) cs2 Hsc Htx). destruct Hcase as [->|[(v & Hv & -> & Eg)|(sticky & Es & Hlt & Htr & ->)]]; [done| |].
    - destruct (breaks_end v le Hv) as [a Ea]. rw Eg Ea !app_assoc last_line_app_free; [apply spaces_free|]. rw last_line_newline. cbn [app rest_of_line].
      rw app_nil_r spaces_width // decide_True //. set (n := default 0 _). destruct n as [|n]; [done|].
      pose proof (trim_spaces [] (S n) [] ltac:(lia) (Forall_nil_2 _)) as H. by rw app_nil_r in H.
    - rw last_line_app_free; [apply spaces_free|]. destruct (trim_breaks_split (last_line cs1 ++ rest_of_line cs2)) as (k & Hk & Hb). rw Htr in Hk.
      apply app_inv_head in Hk. rw -Hk in Hb. rw -app_assoc trim_spaces //; [lia|]. rw decide_True // chars_width_app spaces_width // Es. cbn. do 2 f_equal. lia. }
  split; [exact Hwidth|]. unfold virtual_gap_text. assert (cursor_virtual_lines mode tb' cursor' = 0) as -> by (unfold cursor_virtual_lines; by destruct (_ || _)).
  cbn [Nat.ltb Nat.leb]. unfold cursor_virtual_columns. destruct (negb (cursor_beyond_eol mode)); [done|]. destruct (_ || _); [done|].
  cbn [sticky_column cursor' moved]. destruct (sticky_column cursor) as [sticky|]; [|done]. cbn [position cursor' moved] in Hwidth |- *. rw Hwidth.
  cbn [mbind res_bind default from_option id]. by rw Nat.sub_diag.
Qed.
End proofs.

(** ** An example: typing three columns behind [ab] *)
Definition ascii_width (c : N) : option nat := if (c <? 32)%N then None else Some 1.
Definition short_lines : TextBuffer := from_utf8_detected [x61; x62; x0a; x63] Utf8 false.
Definition padded_lines : TextBuffer := from_utf8_detected [x61; x62; x20; x20; x20; x0a; x63] Utf8 false.
Definition far_cursor : Cursor := mkCursor 2 None (Some 5) Normal None false 0.

Lemma virtual_gap_materializes_witness :
  virtual_gap_text ascii_width VsOn short_lines far_cursor [10%N] = Ok (spaces 3)
  /\ line_width_at_content_end ascii_width padded_lines 5 = Ok (Some 5)
  /\ virtual_gap_text ascii_width VsOn padded_lines (moved far_cursor 3) [10%N] = Ok [].
Proof.
  destruct (from_utf8_detected_ok (fun _ => []) [x61; x62; x0a; x63] Utf8 false) as [H1 H2].
  destruct (from_utf8_detected_ok (fun _ => []) [x61; x62; x20; x20; x20; x0a; x63] Utf8 false) as [H3 H4].
  destruct (virtual_gap_materializes ascii_width (fun _ => []) VsOn short_lines far_cursor [10%N] [97; 98]%N [10; 99]%N eq_refl (ex_intro _ [] eq_refl)
    ltac:(repeat constructor) H1 ltac:(apply leaf_indexed_b_sound; vm_compute; reflexivity) ltac:(repeat constructor) H2 eq_refl) as (gap & Hg & Hm).
  assert (virtual_gap_text ascii_width VsOn short_lines far_cursor [10%N] = Ok (spaces 3)) as Hgap by (vm_compute; reflexivity).
  rw Hgap in Hg. injection Hg as <-. split; [exact Hgap|].
  apply (Hm padded_lines); [discriminate|exact H3|apply leaf_indexed_b_sound; vm_compute; reflexivity|]. rw H4.
  rw H2. vm_compute. reflexivity.
Defined.
