(* ===== verification/FileUri.v ===== *)
(** * Paths and file URIs

    Models crates/fresh-core/src/file_uri.rs as it is built for Unix: the [file://] URI of a
    path, and the path of a URI.  A path and a string are the list of their bytes; a path is
    what its components are, as [Path::components] gives them.

    The URI of an absolute path exists when its segments are UTF-8, has only characters that a
    URI path may have, and leads back to the path. *)
From stdpp Require Import base numbers list option.
From Stdlib Require Import ssreflect Strings.Byte NArith.
From S2P Require Import Prelude TextSpec Utf8 LineDiff PathEncode TextEditInv.

Definition SLASH : byte := x2f.

(** ** [std::path] on Unix *)
Inductive Component := RootDir | CurDir | ParentDir | NormalSeg (segment : list byte).

Fixpoint split_slash (path : list byte) : list (list byte) :=
  match path with
  | [] => [[]]
  | b :: path =>
      if decide (b = SLASH) then [] :: split_slash path
      else match split_slash path with s :: ss => (b :: s) :: ss | [] => [[b]] end
  end.

(** Empty segments and [.] are dropped. *)
Definition part (segment : list byte) : list Component :=
  if decide (segment = [] \/ segment = [x2e]) then []
  else if decide (segment = [x2e; x2e]) then [ParentDir] else [NormalSeg segment].

Definition is_absolute (path : list byte) : bool := bool_decide (head path = Some SLASH).

(** A leading [.] of a relative path is kept. *)
Definition components (path : list byte) : list Component :=
  if is_absolute path then RootDir :: (split_slash (drop 1 path) ≫= part)
  else match split_slash path with
       | s :: ss => (if decide (s = [x2e]) then [CurDir] else part s) ++ (ss ≫= part)
       | [] => []
       end.

(** ** To a URI *)
Definition is_path_char (b : byte) : bool :=
  let c := code b in
  in_range 65 90 c || in_range 97 122 c || in_range 48 57 c
  || bool_decide (b ∈ [x2d; x2e; x5f; x7e; x21; x24; x26; x27; x28; x29; x2a; x2b; x2c; x3b; x3d; x3a; x40]).

Definition write_percent_encoded (b : byte) : list byte := [x25; hex_upper (code b / 16); hex_upper (code b mod 16)].

Definition percent_encode_segment (segment : list byte) : list byte :=
  segment ≫= fun b => if is_path_char b then [b] else write_percent_encoded b.

Definition FILE_SCHEME : list byte := [x66; x69; x6c; x65; x3a; x2f; x2f].

(** The loop over the components. *)
Fixpoint push_components (uri : list byte) (cs : list Component) : option (list byte) :=
  match cs with
  | [] => Some uri
  | RootDir :: cs => push_components (uri ++ [SLASH]) cs
  | NormalSeg seg :: cs =>
      match from_utf8 seg with
      | None => push_components (uri ++ percent_encode_segment seg ++ [SLASH]) cs
      | Some _ => None
      end
  | CurDir :: cs => push_components (uri ++ [x2e; SLASH]) cs
  | ParentDir :: cs => push_components (uri ++ [x2e; x2e; SLASH]) cs
  end.

Definition path_to_file_uri (path : list byte) : option (list byte) :=
  if negb (is_absolute path) then None else
  uri ← push_components FILE_SCHEME (components path);
  Some (if decide (length FILE_SCHEME + 1 < length uri /\ list.last uri = Some SLASH) then take (length uri - 1) uri else uri).

(** ** To a path *)
Definition from_hex (b : byte) : option N :=
  let c := code b in
  if in_range 48 57 c then Some (c - 48)%N
  else if in_range 65 70 c then Some (c - 65 + 10)%N
  else if in_range 97 102 c then Some (c - 97 + 10)%N else None.

Fixpoint decode_bytes (bytes : list byte) : list byte :=
  match bytes with
  | [] => []
  | b :: rest =>
      if decide (b = x25) then
        match rest with
        | h :: l :: rest' =>
            match from_hex h, from_hex l with
            | Some hi, Some lo => byte_of (hi * 16 + lo) :: decode_bytes rest'
            | _, _ => b :: decode_bytes rest
            end
        | _ => b :: decode_bytes rest
        end
      else b :: decode_bytes rest
  end.

Definition percent_decode (input : list byte) : list byte :=
  let out := decode_bytes input in
  match from_utf8 out with None => out | Some _ => encode_all (from_utf8_lossy out) end.

Definition strip_prefix (prefix s : list byte) : option (list byte) :=
  if decide (take (length prefix) s = prefix) then Some (drop (length prefix) s) else None.

Definition LOCALHOST : list byte := [x6c; x6f; x63; x61; x6c; x68; x6f; x73; x74].

Definition file_uri_to_path (uri : list byte) : option (list byte) :=
  path_str ← (match strip_prefix (FILE_SCHEME ++ [SLASH]) uri with
              | Some rest => Some rest
              | None => strip_prefix (FILE_SCHEME ++ LOCALHOST ++ [SLASH]) uri
              end);
  Some (SLASH :: percent_decode path_str).

(** ** Percent encoding *)
Definition uri_char (b : byte) : Prop := is_path_char b = true \/ b = x25 \/ b = SLASH.

Lemma strip_prefix_app p s : strip_prefix p (p ++ s) = Some s.
Proof. unfold strip_prefix. by rw take_app_length decide_True // drop_app_length. Qed.

Lemma hex_upper_ok d : (d < 16)%N -> from_hex (hex_upper d) = Some d /\ is_path_char (hex_upper d) = true.
Proof.
  intros Hd. assert (In d (N.of_nat <$> seq 0 16)) as Hin.
  { apply list_elem_of_In, list_elem_of_fmap. exists (N.to_nat d). split; [lia|]. apply elem_of_seq. lia. }
  cbn in Hin. repeat (destruct Hin as [<-|Hin]; [done|]). done.
Qed.

Lemma decode_percent h l hi lo rest : from_hex h = Some hi -> from_hex l = Some lo -> decode_bytes (x25 :: h :: l :: rest) = byte_of (hi * 16 + lo) :: decode_bytes rest.
Proof.
  intros H1 H2. change (decode_bytes (x25 :: h :: l :: rest)) with (match from_hex h, from_hex l with
    | Some hi, Some lo => byte_of (hi * 16 + lo) :: decode_bytes rest | _, _ => x25 :: decode_bytes (h :: l :: rest) end). by rw H1 H2.
Qed.

Lemma encoded_char b rest :
  decode_bytes ((if is_path_char b then [b] else write_percent_encoded b) ++ rest) = b :: decode_bytes rest
  /\ Forall uri_char (if is_path_char b then [b] else write_percent_encoded b).
Proof.
  destruct (is_path_char b) eqn:Hb.
  - split; [|constructor; [by left|done]]. cbn [app decode_bytes]. rw decide_False //. by intros ->.
  - pose proof (code_lt b). destruct (hex_upper_ok (code b / 16)) as [H1 H2]; [apply N.Div0.div_lt_upper_bound; lia|].
    destruct (hex_upper_ok (code b mod 16)) as [H3 H4]; [by apply N.mod_lt|]. unfold write_percent_encoded.
    split; [|repeat apply Forall_cons_2; [right; by left|by left|by left|done]]. cbn [app]. rw (decode_percent _ _ _ _ _ H1 H3). f_equal.
    apply byte_of_eq. pose proof (N.div_mod (code b) 16). lia.
Qed.

Lemma encoded_segment seg rest : decode_bytes (percent_encode_segment seg ++ rest) = seg ++ decode_bytes rest /\ Forall uri_char (percent_encode_segment seg).
Proof.
  unfold percent_encode_segment. induction seg as [|b seg [IH1 IH2]]; [done|]. cbn [mbind list_bind]. destruct (encoded_char b ((seg ≫= fun b => if is_path_char b then [b] else write_percent_encoded b) ++ rest)) as [H1 H2].
  rw -app_assoc H1. split; [cbn; by f_equal|]. by apply Forall_app.
Qed.

(** ** Components as segments *)

(** What of a path a component is. *)
Definition seg_of (c : Component) : list byte := match c with NormalSeg s => s | ParentDir => [x2e; x2e] | CurDir => [x2e] | RootDir => [] end.

(** Components below the root. *)
Definition plain (c : Component) : Prop :=
  match c with NormalSeg s => (SLASH ∉ s) /\ s <> [] /\ s <> [x2e] /\ s <> [x2e; x2e] | ParentDir => True | _ => False end.

Definition utf8_component (c : Component) : Prop := valid_text (seg_of c).

Lemma split_slash_plain path : Forall (fun s => (SLASH ∉ s)) (split_slash path).
Proof.
  induction path as [|b path IH]; cbn [split_slash]; [constructor; [apply not_elem_of_nil|done]|]. case_decide as Hb; [constructor; [apply not_elem_of_nil|done]|].
  destruct IH as [|s ss Hs IH]; (apply Forall_cons_2; [|done]); apply not_elem_of_cons; (split; [congruence|]); [apply not_elem_of_nil|done].
Qed.

Lemma part_plain s : (SLASH ∉ s) -> Forall plain (part s).
Proof.
  intros Hs. unfold part. case_decide as H1; [done|]. case_decide as H2; (constructor; [|done]); cbn; [done|]. split_and!; try done; intros ->; apply H1; tauto.
Qed.

Lemma parts_plain ss : Forall (fun s => (SLASH ∉ s)) ss -> Forall plain (ss ≫= part).
Proof. induction 1 as [|s ss Hs _ IH]; [done|]. cbn [mbind list_bind]. apply Forall_app. split; [by apply part_plain|done]. Qed.

Lemma part_seg c : plain c -> part (seg_of c) = [c].
Proof.
  destruct c as [| | |s]; cbn [plain seg_of]; try done. intros (_ & H1 & H2 & H3). unfold part. rw decide_False; [by intros [?|?]|]. by rw decide_False.
Qed.

Lemma seg_no_slash c : plain c -> (SLASH ∉ seg_of c).
Proof.
  destruct c as [| | |s]; cbn [plain seg_of]; try done; [|by intros [? _]]. intros _ H. repeat (apply elem_of_cons in H as [H|H]; [done|]). by apply not_elem_of_nil in H.
Qed.

(** Segments with slashes between them. *)
Fixpoint join (segs : list (list byte)) : list byte :=
  match segs with [] => [] | [s] => s | s :: ss => s ++ SLASH :: join ss end.

Lemma split_slash_seg s rest : (SLASH ∉ s) -> split_slash (s ++ SLASH :: rest) = s :: split_slash rest.
Proof.
  induction s as [|b s IH]; [done|]. intros [Hb Hs]%not_elem_of_cons. cbn [app split_slash]. rw decide_False; [congruence|]. by rw IH.
Qed.

Lemma split_slash_last s : (SLASH ∉ s) -> split_slash s = [s].
Proof.
  induction s as [|b s IH]; [done|]. intros [Hb Hs]%not_elem_of_cons. cbn [split_slash]. rw decide_False; [congruence|]. by rw IH.
Qed.

Lemma split_join segs : segs <> [] -> Forall (fun s => (SLASH ∉ s)) segs -> split_slash (join segs) = segs.
Proof.
  induction segs as [|s [|s' segs] IH]; [done| |]; intros _ H; apply Forall_cons_1 in H as [Hs H]; [by apply split_slash_last|].
  change (join (s :: s' :: segs)) with (s ++ SLASH :: join (s' :: segs)). rw split_slash_seg //. by rw IH.
Qed.

(** A path of given components. *)
Lemma components_join cs : Forall plain cs -> components (SLASH :: join (seg_of <$> cs)) = RootDir :: cs.
Proof.
  intros Hcs. unfold components, is_absolute. rw bool_decide_eq_true_2 //. cbn [drop]. f_equal. destruct cs as [|c cs]; [done|].
  rw split_join; [done| |].
  - apply Forall_fmap. eapply Forall_impl; [|exact Hcs]. intros x. apply seg_no_slash.
  - induction Hcs as [|x xs Hx _ IH]; [done|]. cbn [fmap list_fmap mbind list_bind]. rw part_seg //. cbn. f_equal. exact IH.
Qed.

(** ** The URI of components *)
Definition uri_seg (c : Component) : list byte := match c with NormalSeg s => percent_encode_segment s | _ => seg_of c end.

Lemma push_components_ok cs : forall uri, Forall plain cs -> Forall utf8_component cs ->
  push_components uri cs = Some (uri ++ concat ((fun c => uri_seg c ++ [SLASH]) <$> cs)).
Proof.
  induction cs as [|c cs IH]; intros uri Hp Hu; [cbn; by rw app_nil_r|]. apply Forall_cons_1 in Hp as [Hc Hp]. apply Forall_cons_1 in Hu as [Hv Hu].
  cbn [push_components fmap list_fmap concat]. destruct c as [| | |s]; try done; [rw IH //; cbn; by rw -app_assoc|].
  destruct Hv as (chars & Hs & Hv). cbn in Hv. rw Hv (proj1 (from_utf8_encoded chars Hs)) IH //. cbn [uri_seg seg_of]. by rw -!app_assoc.
Qed.

Lemma uri_seg_ok c rest : plain c -> decode_bytes (uri_seg c ++ rest) = seg_of c ++ decode_bytes rest /\ Forall uri_char (uri_seg c).
Proof.
  destruct c as [| | |s]; try done; [intros _; split; [done|]; repeat apply Forall_cons_2; try done; by left|]. intros _. apply encoded_segment.
Qed.

(** Without the last slash. *)
Lemma drop_last_slash c cs uri :
  let all := uri ++ concat ((fun c => uri_seg c ++ [SLASH]) <$> c :: cs) in
  list.last all = Some SLASH /\ take (length all - 1) all = uri ++ join (uri_seg <$> c :: cs).
Proof.
  cbv zeta. assert (concat ((fun c => uri_seg c ++ [SLASH]) <$> c :: cs) = join (uri_seg <$> c :: cs) ++ [SLASH]) as ->.
  { revert c. induction cs as [|d cs IH]; intros c; [cbn; by rw app_nil_r|]. change (join (uri_seg <$> c :: d :: cs)) with (uri_seg c ++ SLASH :: join (uri_seg <$> d :: cs)).
    cbn [fmap list_fmap concat] in IH |- *. rw (IH d). by rw -!app_assoc. }
  rw app_assoc last_snoc. split; [done|]. rw length_app. cbn [length]. rw Nat.add_sub take_app_length //.
Qed.

Lemma decode_join cs : Forall plain cs -> decode_bytes (join (uri_seg <$> cs)) = join (seg_of <$> cs) /\ Forall uri_char (join (uri_seg <$> cs)).
Proof.
  induction cs as [|c [|d cs] IH]; [done| |]; intros H; apply Forall_cons_1 in H as [Hc H].
  - cbn [fmap list_fmap join]. destruct (uri_seg_ok c [] Hc) as [H1 H2]. rw !app_nil_r in H1. by rw H1.
  - change (join (uri_seg <$> c :: d :: cs)) with (uri_seg c ++ SLASH :: join (uri_seg <$> d :: cs)). change (join (seg_of <$> c :: d :: cs)) with (seg_of c ++ SLASH :: join (seg_of <$> d :: cs)).
    destruct (uri_seg_ok c (SLASH :: join (uri_seg <$> d :: cs)) Hc) as [H1 H2]. destruct (IH H) as [H3 H4]. rw H1. split.
    + f_equal. change (decode_bytes (SLASH :: ?x)) with (SLASH :: decode_bytes x). by rw H3.
    + apply Forall_app. split; [done|]. constructor; [right; by right|done].
Qed.

Lemma join_utf8 cs : Forall utf8_component cs -> from_utf8 (join (seg_of <$> cs)) = None.
Proof.
  intros H. assert (valid_text (join (seg_of <$> cs))) as (chars & Hs & ->); [|by apply from_utf8_encoded].
  induction cs as [|c [|d cs] IH]; [by exists []| |]; apply Forall_cons_1 in H as [Hc H]; [done|].
  change (join (seg_of <$> c :: d :: cs)) with (seg_of c ++ [SLASH] ++ join (seg_of <$> d :: cs)). apply valid_app; [done|]. apply valid_app; [|by apply IH].
  exists [47%N]. split; [by repeat constructor|done].
Qed.

(** C37: an absolute path whose components are UTF-8 has a URI, its characters are those a URI
    path may have (or percent signs and slashes), and the URI leads back to a path with the
    same components. *)
Theorem file_uri_roundtrip path :
  is_absolute path = true -> Forall utf8_component (components path) ->
  exists rest back, path_to_file_uri path = Some (FILE_SCHEME ++ rest) /\ Forall uri_char rest
    /\ file_uri_to_path (FILE_SCHEME ++ rest) = Some back /\ components back = components path.
Proof.
  intros Habs Hu. assert (exists cs, components path = RootDir :: cs /\ Forall plain cs) as (cs & Ecs & Hp).
  { unfold components. rw Habs. eexists. split; [done|]. apply parts_plain, split_slash_plain. }
  rw Ecs in Hu |- *. apply Forall_cons_1 in Hu as [_ Hu]. destruct (decode_join cs Hp) as [Hd Hc].
  exists (SLASH :: join (uri_seg <$> cs)), (SLASH :: join (seg_of <$> cs)). split_and!.
  - unfold path_to_file_uri. rw Habs Ecs. cbn [negb push_components]. rw push_components_ok //. cbn [mbind option_bind]. f_equal.
    destruct cs as [|c cs]; [done|]. destruct (drop_last_slash c cs (FILE_SCHEME ++ [SLASH])) as [H1 H2].
    rw H1 H2. rw decide_True; [|by rw -app_assoc]. split; [|done]. rw length_app. cbn [fmap list_fmap concat].
    assert (length (FILE_SCHEME ++ [SLASH]) = length FILE_SCHEME + 1) as -> by done. rw length_app (length_app (uri_seg c)). cbn [length]. lia.
  - constructor; [right; by right|done].
  - unfold file_uri_to_path. change (FILE_SCHEME ++ SLASH :: join (uri_seg <$> cs)) with ((FILE_SCHEME ++ [SLASH]) ++ join (uri_seg <$> cs)).
    rw strip_prefix_app. cbn [mbind option_bind]. unfold percent_decode. by rw Hd join_utf8.
  - by apply components_join.
Qed.

(** The path [/a b/../é]. *)
Definition sample_path : list byte := [x2f; x61; x20; x62; x2f; x2f; x2e; x2e; x2f; x2e; x2f; xc3; xa9; x2f].

Lemma file_uri_roundtrip_witness :
  exists rest back, path_to_file_uri sample_path = Some (FILE_SCHEME ++ rest) /\ Forall uri_char rest
    /\ file_uri_to_path (FILE_SCHEME ++ rest) = Some back /\ components back = [RootDir; NormalSeg [x61; x20; x62]; ParentDir; NormalSeg [xc3; xa9]].
Proof.
  apply (file_uri_roundtrip sample_path eq_refl).
  repeat apply Forall_cons_2; [exists []; by split|exists [97; 32; 98]%N; split; [by repeat constructor|reflexivity]|exists [46; 46]%N; split; [by repeat constructor|reflexivity]
    |exists [233]%N; split; [by repeat constructor|reflexivity]|apply Forall_nil_2].
Defined.
