(* ===== verification/Snippet.v ===== *)
(** * Snippets

    Models crates/fresh-editor-core/src/primitives/snippet.rs, the expansion of the snippets of
    language servers.  A string is the list of its characters; offsets count the bytes of their
    encoding.

    The expansion of a snippet always ends, and gives a cursor between characters of the text.
    Escaped text expands to itself, and a template to the texts of its parts, with the cursor
    at its last final tabstop. *)
From stdpp Require Import base numbers list option.
From Stdlib Require Import ssreflect Strings.Byte NArith.
From S2P Require Import Prelude TextSpec Utf8.

Local Open Scope N_scope.

Record ExpandedSnippet := mkExpanded { es_text : list N; cursor_offset : nat }.

Definition is_digit (c : N) : bool := in_range 48 57 c.
Definition BACKSLASH : N := 92.
Definition DOLLAR : N := 36.
Definition OPEN : N := 123.
Definition CLOSE : N := 125.
Definition BAR : N := 124.

(** Characters that a backslash escapes, outside braces and inside. *)
Definition escapes (c : N) : bool := (c =? DOLLAR) || (c =? BACKSLASH) || (c =? CLOSE).
Definition brace_escapes (c : N) : bool := escapes c || (c =? BAR).

(** The digits at the start, and the rest. *)
Fixpoint take_digits (chars : list N) : list N * list N :=
  match chars with
  | [] => ([], [])
  | c :: rest => if is_digit c then let '(num, rest) := take_digits rest in (c :: num, rest) else ([], chars)
  end.

(** The content of a placeholder up to its closing brace, and the rest. *)
Fixpoint collect_braces (chars : list N) (depth : nat) (content : list N) : list N * list N :=
  match chars with
  | [] => (content, [])
  | c :: rest =>
      if c =? OPEN then collect_braces rest (S depth) (content ++ [c])
      else if c =? CLOSE then
        match depth with
        | S (S depth) => collect_braces rest (S depth) (content ++ [c])
        | _ => (content, rest)
        end
      else if c =? BACKSLASH then
        match rest with
        | next :: rest' =>
            if brace_escapes next then collect_braces rest' depth (content ++ [next])
            else collect_braces rest depth (content ++ [c])
        | [] => (content ++ [c], [])
        end
      else collect_braces rest depth (content ++ [c])
  end.

(** [parse::<u32>()] of digits. *)
Definition parse_u32 (num : list N) : option N :=
  match num with
  | [] => None
  | _ => let n := foldl (fun n d => n * 10 + (d - 48)) 0 num in if n <? 2 ^ 32 then Some n else None
  end.

Fixpoint trim_bars (chars : list N) : list N :=
  match chars with
  | [] => []
  | c :: chars => match trim_bars chars with [] => if c =? BAR then [] else [c] | rest => c :: rest end
  end.

(** [split(',').next()] *)
Fixpoint first_choice (chars : list N) : list N :=
  match chars with [] => [] | c :: chars => if c =? 44 then [] else c :: first_choice chars end.

(** [parse_placeholder_content], given the expansion of a default text. *)
Definition parse_placeholder_content (expand : list N -> res ExpandedSnippet) (content : list N) : res (option N * list N) :=
  let '(num_str, rest) := take_digits content in
  let tabstop := parse_u32 num_str in
  match rest with
  | c :: rest =>
      if c =? 58 then expanded ← expand rest; Ok (tabstop, es_text expanded)
      else if c =? BAR then Ok (tabstop, first_choice (trim_bars rest))
      else Ok (tabstop, [])
  | [] => Ok (tabstop, [])
  end.

Fixpoint expand_loop (fuel : nat) (chars result : list N) (cursor : option nat) : res ExpandedSnippet :=
  match chars with
  | [] => Ok (mkExpanded result (default (length (encode_all result)) cursor))
  | c :: rest =>
      match fuel with
      | O => Panic
      | S fuel =>
          if c =? BACKSLASH then
            match rest with
            | next :: rest' =>
                if escapes next then expand_loop fuel rest' (result ++ [next]) cursor
                else expand_loop fuel rest (result ++ [c]) cursor
            | [] => expand_loop fuel rest (result ++ [c]) cursor
            end
          else if c =? DOLLAR then
            match rest with
            | next :: rest' =>
                if next =? OPEN then
                  let '(content, rest) := collect_braces rest' 1 [] in
                  '(tabstop, expanded) ← parse_placeholder_content (fun text => expand_loop fuel text [] None) content;
                  let cursor := if bool_decide (tabstop = Some 0) then Some (length (encode_all result)) else cursor in
                  expand_loop fuel rest (result ++ expanded) cursor
                else if is_digit next then
                  let '(num, rest) := take_digits rest in
                  let cursor := if bool_decide (num = [48]) then Some (length (encode_all result)) else cursor in
                  expand_loop fuel rest result cursor
                else expand_loop fuel rest (result ++ [c]) cursor
            | [] => expand_loop fuel rest (result ++ [c]) cursor
            end
          else expand_loop fuel rest (result ++ [c]) cursor
      end
  end.

Definition expand_snippet (snippet : list N) : res ExpandedSnippet := expand_loop (length snippet) snippet [] None.

Fixpoint is_snippet (text : list N) : bool :=
  match text with
  | [] => false
  | c :: rest =>
      if c =? BACKSLASH then match rest with _ :: rest => is_snippet rest | [] => false end
      else if c =? DOLLAR then
        match rest with
        | next :: _ => ((next =? OPEN) || is_digit next) || is_snippet rest
        | [] => is_snippet rest
        end
      else is_snippet rest
  end.
Local Close Scope N_scope.

(** ** The expansion ends *)
Lemma take_digits_split chars : chars = (take_digits chars).1 ++ (take_digits chars).2.
Proof. induction chars as [|c chars IH]; [done|]. cbn [take_digits]. destruct (is_digit c); [|done]. destruct (take_digits chars). cbn in *. by f_equal. Qed.

Lemma collect_braces_len chars : forall depth content,
  length (collect_braces chars depth content).1 + length (collect_braces chars depth content).2 <= length content + length chars.
Proof.
  induction chars as [chars IH] using (induction_ltof1 _ (@length N)). unfold ltof in IH. intros depth content. destruct chars as [|c rest]; [cbn; lia|].
  assert (forall rest' depth' content', length rest' <= length rest -> length content' + length rest' <= length content + S (length rest) ->
    length (collect_braces rest' depth' content').1 + length (collect_braces rest' depth' content').2 <= length content + S (length rest)) as Hgo.
  { intros rest' depth' content' H1 H2. specialize (IH rest' ltac:(cbn; lia) depth' content'). lia. }
  assert (forall x, length (content ++ [x]) = length content + 1) as Hx by (intros; by rw length_app).
  cbn [collect_braces length]. destruct (c =? OPEN)%N; [apply Hgo; rw ?Hx; lia|]. destruct (c =? CLOSE)%N; [destruct depth as [|[|depth]]; cbn; try lia; apply Hgo; rw ?Hx; lia|].
  destruct (c =? BACKSLASH)%N; [|apply Hgo; rw ?Hx; lia]. destruct rest as [|next rest']; [cbn; rw Hx; lia|].
  destruct (brace_escapes next); apply Hgo; rw ?Hx; cbn; lia.
Qed.

Lemma parse_content_cases f content :
  (exists tabstop text, parse_placeholder_content f content = Ok (tabstop, text) /\ forall g, parse_placeholder_content g content = Ok (tabstop, text))
  \/ exists tabstop rest, length rest <= length content
     /\ forall g, parse_placeholder_content g content = (expanded ← g rest; Ok (tabstop, es_text expanded)).
Proof.
  unfold parse_placeholder_content. pose proof (take_digits_split content) as Hs. destruct (take_digits content) as [num rest]. cbn in Hs.
  destruct rest as [|c rest]; [left; by eexists _, _|]. destruct (c =? 58)%N; [right|left; destruct (c =? BAR)%N; by eexists _, _].
  eexists _, rest. split; [|done]. rw Hs length_app. cbn. lia.
Qed.

(** A cursor that is between two characters of the text. *)
Definition cursor_in (text : list N) (k : nat) : Prop := exists a b, text = a ++ b /\ k = length (encode_all a).
Definition cursor_ok (text : list N) (cursor : option nat) : Prop := forall k, cursor = Some k -> cursor_in text k.

Lemma cursor_ok_app text more cursor : cursor_ok text cursor -> cursor_ok (text ++ more) cursor.
Proof. intros H k E. destruct (H k E) as (a & b & -> & ->). exists a, (b ++ more). split; [by rw app_assoc|done]. Qed.

Lemma cursor_ok_here text : cursor_ok text (Some (length (encode_all text))).
Proof. intros k [= <-]. exists text, []. split; [by rw app_nil_r|done]. Qed.

Definition expands (chars result : list N) (cursor : option nat) : Prop :=
  exists r, cursor_in (es_text r) (cursor_offset r) /\ forall fuel, length chars <= fuel -> expand_loop fuel chars result cursor = Ok r.

(** One step of the loop: with enough fuel, it only depends on what it does with the rest. *)
Lemma expands_all n : forall chars result cursor, length chars <= n -> cursor_ok result cursor -> expands chars result cursor.
Proof.
  induction n as [|n IH]; intros chars result cursor Hn Hc; (destruct chars as [|c rest]; [|cbn in Hn; try lia]).
  1, 2: eexists; split; [|intros fuel _; by destruct fuel]; cbn; destruct cursor as [k|]; [by apply Hc|exists result, []; by rw app_nil_r].
  assert (forall rest' result' cursor', length rest' <= length rest -> cursor_ok result' cursor' ->
    exists r, cursor_in (es_text r) (cursor_offset r) /\ forall fuel, length rest <= fuel -> expand_loop fuel rest' result' cursor' = Ok r) as Hgo.
  { intros rest' result' cursor' H1 H2. destruct (IH rest' result' cursor' ltac:(lia) H2) as (r & R1 & R2). exists r. split; [done|]. intros fuel Hf. apply R2. lia. }
  enough (exists r, cursor_in (es_text r) (cursor_offset r) /\ forall fuel, length rest <= fuel -> expand_loop (S fuel) (c :: rest) result cursor = Ok r) as (r & R1 & R2).
  { exists r. split; [done|]. intros [|fuel] Hf; cbn in Hf; [lia|]. apply R2. lia. }
  cbn [expand_loop]. assert (forall more, cursor_ok (result ++ more) cursor) as Happ by (intros; by apply cursor_ok_app).
  destruct (c =? BACKSLASH)%N; [destruct rest as [|next rest']; [by apply Hgo|destruct (escapes next); apply Hgo; cbn; try done; lia]|].
  destruct (c =? DOLLAR)%N; [|by apply Hgo]. destruct rest as [|next rest']; [by apply Hgo|].
  destruct (next =? OPEN)%N.
  - pose proof (collect_braces_len rest' 1 []) as Hlen. destruct (collect_braces rest' 1 []) as [content rest]. cbn in Hlen.
    destruct (parse_content_cases (fun _ => Panic) content) as [(tabstop & text & _ & Hp)|(tabstop & text & Ht & Hp)].
    + destruct (Hgo rest (result ++ text) (if bool_decide (tabstop = Some 0%N) then Some (length (encode_all result)) else cursor)) as (r & R1 & R2); [cbn; lia| |].
      { case_bool_decide; [apply cursor_ok_app, cursor_ok_here|done]. }
      exists r. split; [done|]. intros fuel Hf. rw Hp. cbn [mbind res_bind]. by apply R2.
    + destruct (Hgo text [] None) as (r0 & _ & E0); [cbn; lia|done|].
      destruct (Hgo rest (result ++ es_text r0) (if bool_decide (tabstop = Some 0%N) then Some (length (encode_all result)) else cursor)) as (r & R1 & R2); [cbn; lia| |].
      { case_bool_decide; [apply cursor_ok_app, cursor_ok_here|done]. }
      exists r. split; [done|]. intros fuel Hf. rw Hp E0 //. cbn [mbind res_bind]. by apply R2.
  - destruct (is_digit next); [|by apply Hgo]. pose proof (take_digits_split (next :: rest')) as Hs. destruct (take_digits (next :: rest')) as [num rest]. cbn in Hs.
    destruct (Hgo rest result (if bool_decide (num = [48%N]) then Some (length (encode_all result)) else cursor)) as (r & R1 & R2).
    { change (S (length rest')) with (length (next :: rest')). rw Hs length_app. lia. }
    { case_bool_decide; [apply cursor_ok_here|done]. }
    by exists r.
Qed.

(** What the loop does, whatever the fuel. *)
Lemma expand_loop_Some chars fuel result cursor : length chars <= fuel -> cursor_ok result cursor ->
  expand_loop fuel chars result cursor = expand_loop (length chars) chars result cursor.
Proof. intros Hf Hc. destruct (expands_all (length chars) chars result cursor) as (r & _ & E); [done|done|]. by rw !E. Qed.

(** ** Templates *)

(** The parts of a snippet: text, a tabstop, a tabstop with a default text, choices. *)
Inductive part := PText (t : list N) | PStop (num : list N) | PDefault (num d : list N) | PChoice (num first others : list N).

Definition escaped_char (c : N) : list N := if escapes c then [BACKSLASH; c] else [c].

Definition print_part (p : part) : list N :=
  match p with
  | PText t => t ≫= escaped_char
  | PStop num => [DOLLAR; OPEN] ++ num ++ [CLOSE]
  | PDefault num d => [DOLLAR; OPEN] ++ num ++ 58%N :: d ++ [CLOSE]
  | PChoice num first others => [DOLLAR; OPEN] ++ num ++ BAR :: first ++ 44%N :: others ++ [BAR; CLOSE]
  end.

Definition part_text (p : part) : list N :=
  match p with PText t => t | PStop _ => [] | PDefault _ d => d | PChoice _ first _ => first end.

Definition part_final (p : part) : bool :=
  match p with PText _ => false | PStop num | PDefault num _ | PChoice num _ _ => bool_decide (parse_u32 num = Some 0%N) end.

Definition clean (c : N) : Prop := c <> OPEN /\ c <> CLOSE /\ c <> BACKSLASH /\ c <> DOLLAR.
Definition part_ok (p : part) : Prop :=
  match p with
  | PText _ => True
  | PStop num => Forall (fun c => is_digit c = true) num
  | PDefault num d => Forall (fun c => is_digit c = true) num /\ Forall clean d
  | PChoice num first others => Forall (fun c => is_digit c = true) num /\ Forall (fun c => clean c /\ c <> 44%N) first /\ Forall clean others
  end.

(** The text of a template, and the place of its last final tabstop. *)
Definition template_text (ps : list part) : list N := ps ≫= part_text.
Fixpoint template_cursor (ps : list part) (before : nat) (cursor : option nat) : option nat :=
  match ps with
  | [] => cursor
  | p :: ps => template_cursor ps (before + length (encode_all (part_text p))) (if part_final p then Some before else cursor)
  end.

Lemma is_digit_clean c : is_digit c = true -> clean c /\ c <> 58%N /\ c <> BAR.
Proof. unfold is_digit. intros H%in_range_spec. unfold clean, OPEN, CLOSE, BACKSLASH, DOLLAR, BAR. lia. Qed.

Lemma take_digits_app num rest : Forall (fun c => is_digit c = true) num -> (forall c r, rest = c :: r -> is_digit c = false) -> take_digits (num ++ rest) = (num, rest).
Proof.
  intros Hn Hr. induction Hn as [|c num Hc _ IH]; cbn [app take_digits]; [|by rw Hc IH]. destruct rest as [|c r]; [done|]. cbn. by rw (Hr c r eq_refl).
Qed.

Lemma collect_clean d rest : forall content, Forall clean d -> collect_braces (d ++ CLOSE :: rest) 1 content = (content ++ d, rest).
Proof.
  induction d as [|c d IH]; intros content Hd; [cbn; by rw app_nil_r|]. apply Forall_cons_1 in Hd as [(H1 & H2 & H3 & _) Hd]. cbn [app collect_braces].
  rw (proj2 (N.eqb_neq _ _) H1) (proj2 (N.eqb_neq _ _) H2) (proj2 (N.eqb_neq _ _) H3) IH //. by rw -app_assoc.
Qed.

Lemma expand_text t rest : forall fuel result cursor, cursor_ok result cursor -> length ((t ≫= escaped_char) ++ rest) <= fuel ->
  expand_loop fuel ((t ≫= escaped_char) ++ rest) result cursor = expand_loop (length rest) rest (result ++ t) cursor.
Proof.
  induction t as [|c t IH]; intros fuel result cursor Hc Hf; [rw app_nil_r; by apply expand_loop_Some|].
  cbn [mbind list_bind] in Hf |- *. rw -app_assoc in Hf |- *. assert (cursor_ok (result ++ [c]) cursor) as Hc' by by apply cursor_ok_app.
  replace (result ++ c :: t) with ((result ++ [c]) ++ t) by by rw -app_assoc. rw length_app in Hf.
  unfold escaped_char in *. destruct (escapes c) eqn:Ec; cbn [length app] in Hf |- *; (destruct fuel as [|fuel]; [lia|]).
  - cbn [expand_loop]. rw Ec. apply IH; [done|lia].
  - unfold escapes in Ec. apply orb_false_iff in Ec as [[E1 E2]%orb_false_iff _]. cbn [expand_loop]. rw E1 E2. apply IH; [done|lia].
Qed.

Lemma escaped_clean d : Forall clean d -> d ≫= escaped_char = d.
Proof.
  induction 1 as [|c d (H1 & H2 & H3 & H4) _ IH]; [done|]. cbn [mbind list_bind]. unfold escaped_char at 1, escapes.
  rw (proj2 (N.eqb_neq _ _) H2) (proj2 (N.eqb_neq _ _) H3) (proj2 (N.eqb_neq _ _) H4). cbn. by f_equal.
Qed.

(** The content of a placeholder and the text it expands to. *)
Lemma parse_content_ok p fuel :
  part_ok p -> length (print_part p) <= S (S fuel) ->
  match p with
  | PText _ => True
  | PStop num | PDefault num _ | PChoice num _ _ =>
      exists content, print_part p = [DOLLAR; OPEN] ++ content ++ [CLOSE] /\ Forall clean content
        /\ parse_placeholder_content (fun text => expand_loop fuel text [] None) content = Ok (parse_u32 num, part_text p)
  end.
Proof.
  assert (forall num, Forall (fun c => is_digit c = true) num -> Forall clean num) as Hdig.
  { intros num H. eapply Forall_impl; [|exact H]. intros c Hc. by apply is_digit_clean. }
  destruct p as [t|num|num d|num first others]; cbn [part_ok]; [done|intros Hn _|intros [Hn Hd] Hf|intros (Hn & H1 & H2) _].
  - exists num. split_and!; [done|by apply Hdig|]. unfold parse_placeholder_content. rw -{1}(app_nil_r num) take_digits_app //.
  - exists (num ++ 58%N :: d). split_and!; [cbn; by rw -app_assoc|apply Forall_app; split; [by apply Hdig|constructor; [done|done]]|].
    unfold parse_placeholder_content. rw take_digits_app //; [by intros c r [= <- <-]|]. cbn [N.eqb Pos.eqb].
    assert (expand_loop fuel d [] None = Ok (mkExpanded d (length (encode_all d)))) as ->; [|done].
    pose proof (expand_text d [] fuel [] None) as H. rw app_nil_r escaped_clean // in H. apply H; [done|].
    cbn [print_part app length] in Hf. rw length_app /= length_app /= in Hf. lia.
  - exists (num ++ BAR :: first ++ 44%N :: others ++ [BAR]). split_and!.
    + cbn. by rw -!app_assoc /= -!app_assoc /= -app_assoc.
    + apply Forall_app. split; [by apply Hdig|]. constructor; [done|]. apply Forall_app. split; [eapply Forall_impl; [|exact H1]; by intros c [? _]|].
      constructor; [done|]. apply Forall_app. split; [done|]. by constructor.
    + unfold parse_placeholder_content. rw take_digits_app //; [by intros c r [= <- <-]|]. cbn [N.eqb Pos.eqb BAR]. do 2 f_equal. cbn [part_text].
      assert (exists more, trim_bars (first ++ 44%N :: others ++ [BAR]) = first ++ 44%N :: more) as [more ->].
      { clear H1. induction first as [|c first [more IH]]; cbn [app trim_bars].
        - destruct (trim_bars (others ++ [BAR])); [exists []; done|by eexists].
        - rw IH. exists more. by destruct first. }
      induction H1 as [|c first [_ Hc] _ IH]; [done|]. cbn [app first_choice]. rw (proj2 (N.eqb_neq _ _) Hc). by f_equal.
Qed.

Lemma expand_part p rest fuel result cursor :
  part_ok p -> cursor_ok result cursor -> length (print_part p ++ rest) <= fuel ->
  expand_loop fuel (print_part p ++ rest) result cursor
  = expand_loop (length rest) rest (result ++ part_text p) (if part_final p then Some (length (encode_all result)) else cursor).
Proof.
  intros Hp Hc Hf. destruct p as [t| | |]; [by apply expand_text|..].
  all: match goal with |- context [print_part ?q] => set (p := q) in * end;
    destruct fuel as [|fuel]; [cbn in Hf; lia|]; rw length_app in Hf; destruct (parse_content_ok p fuel Hp ltac:(lia)) as (content & E & Hclean & Hparse);
    rw E in Hf |- *; rw -!app_assoc in Hf |- *; cbn [app expand_loop N.eqb Pos.eqb DOLLAR BACKSLASH OPEN]; rw collect_clean // Hparse; cbn [mbind res_bind part_final p];
    apply expand_loop_Some; [cbn [app length] in Hf; rw ?length_app /= in Hf; lia|];
    case_bool_decide; [apply cursor_ok_app, cursor_ok_here|by apply cursor_ok_app].
Qed.

Lemma expand_template ps : forall fuel result cursor,
  Forall part_ok ps -> cursor_ok result cursor -> length (ps ≫= print_part) <= fuel ->
  expand_loop fuel (ps ≫= print_part) result cursor
  = Ok (mkExpanded (result ++ template_text ps)
      (default (length (encode_all (result ++ template_text ps))) (template_cursor ps (length (encode_all result)) cursor))).
Proof.
  induction ps as [|p ps IH]; intros fuel result cursor Hps Hc Hf; [cbn; rw app_nil_r; by destruct fuel|]. apply Forall_cons_1 in Hps as [Hp Hps].
  cbn [mbind list_bind] in Hf |- *. rw expand_part //. rw IH //.
  - destruct (part_final p); [apply cursor_ok_app, cursor_ok_here|by apply cursor_ok_app].
  - cbn [template_cursor]. unfold template_text. cbn [mbind list_bind].
    assert (length (encode_all (result ++ part_text p)) = length (encode_all result) + length (encode_all (part_text p))) as -> by by rw encode_all_app length_app.
    by rw (app_assoc result).
Qed.

(** C35: a snippet is expanded without a panic, to a text with a cursor between two of its
    characters; a snippet that prints a template expands to the texts of its parts (a text as
    it is, a default, the first of the choices, nothing for a tabstop), with the cursor at the
    last final tabstop or else at the end. *)
Theorem expand_snippet_correct snippet ps :
  (exists r, expand_snippet snippet = Ok r /\ cursor_in (es_text r) (cursor_offset r))
  /\ (Forall part_ok ps -> snippet = ps ≫= print_part ->
      expand_snippet snippet = Ok (mkExpanded (template_text ps) (default (length (encode_all (template_text ps))) (template_cursor ps 0 None)))).
Proof.
  split.
  - destruct (expands_all (length snippet) snippet [] None) as (r & R1 & R2); [done|done|]. exists r. split; [|done]. by apply R2.
  - intros Hps ->. unfold expand_snippet. by rw expand_template.
Qed.

(** Text in which every character that has to be is escaped is no snippet. *)
Lemma escaped_is_no_snippet t : is_snippet (t ≫= escaped_char) = false.
Proof.
  induction t as [|c t IH]; [done|]. cbn [mbind list_bind]. unfold escaped_char at 1. destruct (escapes c) eqn:Ec; [done|].
  unfold escapes in Ec. apply orb_false_iff in Ec as [[E1 E2]%orb_false_iff _]. cbn [app is_snippet]. by rw E1 E2.
Qed.

(** [f(${1:a b}, \$x)$0] *)
Definition sample_template : list part := [PText [102; 40]%N; PDefault [49%N] [97; 32; 98]%N; PText [44; 32; 36; 120; 41]%N; PStop [48%N]].

Lemma expand_snippet_correct_witness :
  expand_snippet (sample_template ≫= print_part) = Ok (mkExpanded [102; 40; 97; 32; 98; 44; 32; 36; 120; 41]%N 10).
Proof.
  apply (proj2 (expand_snippet_correct (sample_template ≫= print_part) sample_template)); [|reflexivity].
  repeat apply Forall_cons_2; try exact I; [split; repeat apply Forall_cons_2; try apply Forall_nil_2; (reflexivity || (unfold clean; repeat split; discriminate))
    |reflexivity|apply Forall_nil_2|apply Forall_nil_2].
Defined.

(** In the default text of a placeholder an escape is taken off twice: [${1:\$2}] stands for
    the text [$2], and expands to nothing. *)
Lemma default_unescaped_twice :
  expand_snippet [36; 123; 49; 58; 92; 36; 50; 125]%N = Ok (mkExpanded [] 0) /\ expand_snippet [92; 36; 50]%N = Ok (mkExpanded [36; 50]%N 2).
Proof. by split. Qed.
