(* ===== verification/SplitTree.v ===== *)
(** * The tree of panes

    Models the tree of crates/fresh-editor/src/view/split.rs: [SplitNode] with its searches and
    traversals, and the rule that divides a rectangle between the two children of a node
    ([clamp_first_to_min], [split_rect_ext]).

    The newtypes [SplitId], [LeafId] and [ContainerId] of fresh-core/src/lib.rs are their
    number.  A [u16] is a [Z]; an [f32] is a number of binary32, with the operations of the
    standard's specification.  [find_mut], which returns a mutable reference, is the tree
    after the caller has written through that reference. *)
From stdpp Require Import base numbers list option strings.
From Stdlib Require Import ssreflect Lia ZArith Floats.SpecFloat.
From S2P Require Import Prelude Event.

Abbreviation SplitId := nat.
Abbreviation LeafId := nat.
Abbreviation ContainerId := nat.
Abbreviation BufferId := nat.

(** ** Binary32 numbers *)
Abbreviation f32 := spec_float.
Definition f32_add : f32 -> f32 -> f32 := SFadd 24 128.
Definition f32_mul : f32 -> f32 -> f32 := SFmul 24 128.
Definition f32_div : f32 -> f32 -> f32 := SFdiv 24 128.
Definition f32_of (z : Z) : f32 := binary_normalize 24 128 z 0 false.

(** [x.clamp(0.0, 1.0)]: a NaN stays a NaN. *)
Definition f32_clamp_unit (x : f32) : f32 :=
  let zero := f32_of 0 in let one := f32_of 1 in
  let x := if SFltb x zero then zero else x in
  if SFltb one x then one else x.

(** [x.round() as u16]: halves go away from zero, and the cast saturates. *)
Definition f32_round_u16 (x : f32) : Z :=
  match x with
  | S754_infinity false => 65535
  | S754_finite false m e =>
      Z.min 65535 (if (0 <=? e)%Z then Z.pos m * 2 ^ e else (Z.pos m + 2 ^ (- e - 1)) / 2 ^ (- e))
  | _ => 0
  end%Z.

(** ** The tree *)
Inductive SplitRole : Type := UtilityDock.
#[export] Instance SplitRole_eq_dec : EqDecision SplitRole.
Proof. solve_decision. Defined.

Inductive SplitNode : Type :=
| Leaf (buffer_id : BufferId) (split_id : LeafId) (role : option SplitRole)
| Split (direction : SplitDirection) (first second : SplitNode) (ratio : f32) (split_id : ContainerId)
    (fixed_first fixed_second : option Z)
| Grouped (split_id : LeafId) (name : string) (layout : SplitNode) (active_inner_leaf : LeafId).

Definition leaf (buffer_id : BufferId) (split_id : SplitId) : SplitNode := Leaf buffer_id split_id None.

Definition split (direction : SplitDirection) (first second : SplitNode) (ratio : f32) (split_id : SplitId) : SplitNode :=
  Split direction first second (f32_clamp_unit ratio) split_id None None.

Definition role (n : SplitNode) : option SplitRole :=
  match n with Leaf _ _ r => r | _ => None end.

Definition set_role (new_role : option SplitRole) (n : SplitNode) : SplitNode :=
  match n with Leaf b i _ => Leaf b i new_role | _ => n end.

Definition id (n : SplitNode) : SplitId :=
  match n with
  | Leaf _ split_id _ => split_id
  | Split _ _ _ _ split_id _ _ => split_id
  | Grouped split_id _ _ _ => split_id
  end.

Definition buffer_id (n : SplitNode) : option BufferId :=
  match n with Leaf b _ _ => Some b | _ => None end.

Fixpoint find (n : SplitNode) (target_id : SplitId) : option SplitNode :=
  if decide (id n = target_id) then Some n
  else match n with
       | Leaf _ _ _ => None
       | Split _ first second _ _ _ _ =>
           match find first target_id with
           | Some m => Some m
           | None => find second target_id
           end
       | Grouped _ _ layout _ => find layout target_id
       end.

(** The tree after [write] has replaced the node [find_mut] points at; [None] when it finds
    none. *)
Fixpoint find_mut (write : SplitNode -> SplitNode) (n : SplitNode) (target_id : SplitId) : option SplitNode :=
  if decide (id n = target_id) then Some (write n)
  else match n with
       | Leaf _ _ _ => None
       | Split d first second r i ff fs =>
           match find_mut write first target_id with
           | Some first => Some (Split d first second r i ff fs)
           | None =>
               match find_mut write second target_id with
               | Some second => Some (Split d first second r i ff fs)
               | None => None
               end
           end
       | Grouped i name layout a =>
           match find_mut write layout target_id with
           | Some layout => Some (Grouped i name layout a)
           | None => None
           end
       end.

Fixpoint parent_container_of (n : SplitNode) (target_id : SplitId) : option ContainerId :=
  match n with
  | Leaf _ _ _ => None
  | Split _ first second _ split_id _ _ =>
      if decide (id first = target_id \/ id second = target_id) then Some split_id
      else match parent_container_of first target_id with
           | Some c => Some c
           | None => parent_container_of second target_id
           end
  | Grouped _ _ layout _ => parent_container_of layout target_id
  end.

Fixpoint visible_leaves (n : SplitNode) : list (LeafId * BufferId) :=
  match n with
  | Leaf b i _ => [(i, b)]
  | Split _ first second _ _ _ _ => visible_leaves first ++ visible_leaves second
  | Grouped _ _ layout _ => visible_leaves layout
  end.

Fixpoint all_split_ids (n : SplitNode) : list SplitId :=
  id n :: match n with
          | Leaf _ _ _ => []
          | Split _ first second _ _ _ _ => all_split_ids first ++ all_split_ids second
          | Grouped _ _ layout _ => all_split_ids layout
          end.

Fixpoint leaf_split_ids (n : SplitNode) : list LeafId :=
  match n with
  | Leaf _ i _ => [i]
  | Split _ first second _ _ _ _ => leaf_split_ids first ++ leaf_split_ids second
  | Grouped _ _ layout _ => leaf_split_ids layout
  end.

Fixpoint count_leaves (n : SplitNode) : nat :=
  match n with
  | Leaf _ _ _ => 1
  | Split _ first second _ _ _ _ => count_leaves first + count_leaves second
  | Grouped _ _ layout _ => count_leaves layout
  end.

(** ** Dividing a rectangle *)
Record Rect : Type := mkRect { x : Z; y : Z; width : Z; height : Z }.

Definition MIN_PANE_WIDTH : Z := 10.
Definition MIN_PANE_HEIGHT : Z := 3.

(** [u16::saturating_sub], [u16::saturating_mul] and a checked sum of [u16]s. *)
Definition sat_sub (a b : Z) : Z := Z.max 0 (a - b).
Definition sat_mul (a b : Z) : Z := Z.min 65535 (a * b).
Definition u16 (z : Z) : res Z := if decide (0 <= z < 65536)%Z then Ok z else Panic.

Definition clamp_first_to_min (first total min : Z) : Z :=
  if (total <? sat_mul min 2)%Z then (total / 2)%Z
  else Z.min (total - min) (Z.max min first).

Definition split_rect_ext (rect : Rect) (direction : SplitDirection) (ratio : f32) (fixed_first fixed_second : option Z) : res (Rect * Rect) :=
  match direction with
  | Horizontal =>
      let total_height := sat_sub (height rect) 1 in
      let first_height :=
        match fixed_first, fixed_second with
        | Some f, _ => Z.min f total_height
        | None, Some s => sat_sub total_height (Z.min s total_height)
        | None, None =>
            let raw := f32_round_u16 (f32_mul (f32_of total_height) ratio) in
            clamp_first_to_min raw total_height MIN_PANE_HEIGHT
        end in
      let second_height := sat_sub total_height first_height in
      y1 ← u16 (y rect + first_height);
      y2 ← u16 (y1 + 1);
      Ok (mkRect (x rect) (y rect) (width rect) first_height, mkRect (x rect) y2 (width rect) second_height)
  | Vertical =>
      let total_width := sat_sub (width rect) 1 in
      let first_width :=
        match fixed_first, fixed_second with
        | Some f, _ => Z.min f total_width
        | None, Some s => sat_sub total_width (Z.min s total_width)
        | None, None =>
            let raw := f32_round_u16 (f32_mul (f32_of total_width) ratio) in
            clamp_first_to_min raw total_width MIN_PANE_WIDTH
        end in
      let second_width := sat_sub total_width first_width in
      x1 ← u16 (x rect + first_width);
      x2 ← u16 (x1 + 1);
      Ok (mkRect (x rect) (y rect) first_width (height rect), mkRect x2 (y rect) second_width (height rect))
  end.

(** *** The rule tiles the rectangle *)
Definition in_rect (r : Rect) (c : Z * Z) : bool :=
  ((x r <=? c.1) && (c.1 <? x r + width r) && (y r <=? c.2) && (c.2 <? y r + height r))%Z.

(** A rectangle whose corner past the end is still a [u16]. *)
Definition rect_fits (r : Rect) : bool :=
  ((0 <=? x r) && (0 <=? y r) && (0 <=? width r) && (0 <=? height r)
   && (x r + width r <=? 65535) && (y r + height r <=? 65535))%Z.

(** The size along the axis a direction divides, and the least size of a pane there. *)
Definition extent (d : SplitDirection) (r : Rect) : Z :=
  match d with Horizontal => height r | Vertical => width r end.
Definition min_pane (d : SplitDirection) : Z :=
  match d with Horizontal => MIN_PANE_HEIGHT | Vertical => MIN_PANE_WIDTH end.

(** The line between the two parts. *)
Definition separator (d : SplitDirection) (r first : Rect) : Rect :=
  match d with
  | Horizontal => mkRect (x r) (y r + height first) (width r) 1
  | Vertical => mkRect (x r + width first) (y r) 1 (height r)
  end.

Lemma f32_round_u16_nonneg f : (0 <= f32_round_u16 f)%Z.
Proof.
  destruct f as [|[]| |[] m e]; cbn; try lia. apply Z.min_glb; [lia|].
  destruct (Z.leb_spec 0 e); [apply Z.mul_nonneg_nonneg; [lia | by apply Z.pow_nonneg]|].
  apply Z.div_pos; [|apply Z.pow_pos_nonneg; lia]. pose proof (Z.pow_nonneg 2 (- e - 1) ltac:(lia)). lia.
Qed.

Lemma u16_Ok z : (0 <= z < 65536)%Z -> u16 z = Ok z.
Proof. intros. unfold u16. by rw decide_True. Qed.

Lemma clamp_first_range first total m :
  (0 <= total <= 65535)%Z -> (0 <= m <= 32767)%Z ->
  let c := clamp_first_to_min first total m in
  (0 <= c <= total)%Z
  /\ ((2 * m <= total)%Z -> (m <= c)%Z /\ (m <= total - c)%Z)
  /\ ((total < 2 * m)%Z -> (0 <= total - c - c <= 1)%Z).
Proof.
  intros Ht Hm. unfold clamp_first_to_min, sat_mul. cbn zeta.
  pose proof (Z.div_mod total 2 ltac:(lia)). pose proof (Z.mod_pos_bound total 2 ltac:(lia)).
  destruct (Z.ltb_spec total (Z.min 65535 (m * 2))); lia.
Qed.

(** The size of the first part, for either direction. *)
Lemma first_size_ok total m ratio (ff fs : option Z) :
  (0 <= total <= 65535)%Z -> (0 <= m <= 32767)%Z ->
  from_option (fun f => (0 <= f)%Z) True ff -> from_option (fun s => (0 <= s)%Z) True fs ->
  let c := match ff, fs with
           | Some f, _ => Z.min f total
           | None, Some s => sat_sub total (Z.min s total)
           | None, None => clamp_first_to_min (f32_round_u16 (f32_mul (f32_of total) ratio)) total m
           end in
  (0 <= c <= total)%Z
  /\ match ff, fs with
     | Some f, _ => c = Z.min f total
     | None, Some s => (total - c = Z.min s total)%Z
     | None, None => (2 * m <= total -> m <= c /\ m <= total - c)%Z /\ (total < 2 * m -> 0 <= total - c - c <= 1)%Z
     end.
Proof.
  intros Ht Hm Hf Hs. destruct ff as [f|]; [|destruct fs as [s|]]; cbn in *; unfold sat_sub; [lia..|].
  by apply clamp_first_range.
Qed.

Lemma beside_tiles lo n first cz :
  (0 <= first)%Z -> (first <= n)%Z ->
  let inside a len := ((a <=? cz) && (cz <? a + len))%Z in
  Nat.b2n (inside lo first) + Nat.b2n (inside (lo + first)%Z 1%Z) + Nat.b2n (inside (lo + first + 1)%Z (n - first)%Z)
  = Nat.b2n (inside lo (n + 1)%Z).
Proof.
  intros H1 H2. cbv beta zeta.
  repeat match goal with
  | |- context [Z.leb ?a ?b] => destruct (Z.leb_spec a b)
  | |- context [Z.ltb ?a ?b] => destruct (Z.ltb_spec a b)
  end; cbn; lia.
Qed.

(** C20: dividing a pane tiles it.  For a rectangle whose far corner is still a [u16], of at
    least one cell along the axis of the split, and whatever the ratio (a NaN or an infinity included) and the fixed sizes are, the
    rule does not overflow; every cell of the rectangle lies in exactly one of the first
    part, the separating line and the second part, and no other cell lies in any of them.
    A fixed size is honoured as far as there is room, the first child's before the second's;
    with no fixed size, both parts have the minimum of the direction whenever the rectangle
    has room for two, and otherwise differ by at most one cell. *)
Theorem split_rect_tiles r d ratio ff fs :
  rect_fits r = true -> (1 <= extent d r)%Z ->
  from_option (fun f => (0 <= f)%Z) True ff -> from_option (fun s => (0 <= s)%Z) True fs ->
  exists a b, split_rect_ext r d ratio ff fs = Ok (a, b)
  /\ (forall c, Nat.b2n (in_rect a c) + Nat.b2n (in_rect (separator d r a) c) + Nat.b2n (in_rect b c)
                = Nat.b2n (in_rect r c))
  /\ match ff, fs with
     | Some f, _ => extent d a = Z.min f (extent d r - 1)
     | None, Some s => extent d b = Z.min s (extent d r - 1)
     | None, None =>
         (2 * min_pane d + 1 <= extent d r -> min_pane d <= extent d a /\ min_pane d <= extent d b)%Z
         /\ (extent d r < 2 * min_pane d + 1 -> 0 <= extent d b - extent d a <= 1)%Z
     end.
Proof.
  destruct r as [rx ry w h]. unfold rect_fits, in_rect. cbn [x y width height fst snd].
  intros (((((?&?)%andb_prop&?)%andb_prop&?)%andb_prop&?)%andb_prop&?)%andb_prop He Hf Hs.
  assert (Hbox : (0 <= rx /\ 0 <= ry /\ 0 <= w /\ 0 <= h /\ rx + w <= 65535 /\ ry + h <= 65535)%Z) by lia.
  destruct d; cbn [split_rect_ext extent min_pane separator x y width height fst snd] in *.
  - assert (Ht : sat_sub h 1 = (h - 1)%Z) by (unfold sat_sub; lia). rw Ht.
    destruct (first_size_ok (h - 1)%Z MIN_PANE_HEIGHT ratio ff fs) as [Hc Hk]; [lia | unfold MIN_PANE_HEIGHT, MIN_PANE_WIDTH; lia | done | done |].
    set (c := match ff with Some _ => _ | None => _ end) in *.
    rw (u16_Ok (ry + c)); [lia|]. cbn [mbind res_bind]. rw (u16_Ok (ry + c + 1)); [lia|]. do 2 eexists. split; [done|]. cbn [x y width height fst snd].
    assert (Ht2 : sat_sub (h - 1) c = (h - 1 - c)%Z) by (unfold sat_sub; lia). rw Ht2. split.
    + intros [cx cy]. cbn. pose proof (beside_tiles ry (h - 1) c cy ltac:(lia) ltac:(lia)) as Hd.
      cbn zeta in Hd. replace (h - 1 + 1)%Z with h in Hd by lia.
      by destruct ((rx <=? cx) && (cx <? rx + w))%Z.
    + destruct ff; [lia|]. destruct fs; [lia|]. split; intros; destruct Hk as [Hk1 Hk2]; [apply Hk1|apply Hk2]; lia.
  - assert (Ht : sat_sub w 1 = (w - 1)%Z) by (unfold sat_sub; lia). rw Ht.
    destruct (first_size_ok (w - 1)%Z MIN_PANE_WIDTH ratio ff fs) as [Hc Hk]; [lia | unfold MIN_PANE_HEIGHT, MIN_PANE_WIDTH; lia | done | done |].
    set (c := match ff with Some _ => _ | None => _ end) in *.
    rw (u16_Ok (rx + c)); [lia|]. cbn [mbind res_bind]. rw (u16_Ok (rx + c + 1)); [lia|]. do 2 eexists. split; [done|]. cbn [x y width height fst snd].
    assert (Ht2 : sat_sub (w - 1) c = (w - 1 - c)%Z) by (unfold sat_sub; lia). rw Ht2. split.
    + intros [cx cy]. cbn. pose proof (beside_tiles rx (w - 1) c cx ltac:(lia) ltac:(lia)) as Hd.
      cbn zeta in Hd. replace (w - 1 + 1)%Z with w in Hd by lia.
      destruct ((ry <=? cy) && (cy <? ry + h))%Z eqn:Hy;
        rw -!andb_assoc Hy; cbn; rw ?andb_true_r ?andb_false_r; try done.
    + destruct ff; [lia|]. destruct fs; [lia|]. split; intros; destruct Hk as [Hk1 Hk2]; [apply Hk1|apply Hk2]; lia.
Qed.

(** A pane of 80 by 24 cells divided at 0.99 keeps ten columns for the second part. *)
Lemma split_rect_tiles_witness :
  let r := mkRect 0 0 80 24 in let ratio := f32_div (f32_of 99) (f32_of 100) in
  exists a b, split_rect_ext r Vertical ratio None None = Ok (a, b)
  /\ a = mkRect 0 0 69 24 /\ b = mkRect 70 0 10 24
  /\ forall c, Nat.b2n (in_rect a c) + Nat.b2n (in_rect (separator Vertical r a) c) + Nat.b2n (in_rect b c) = Nat.b2n (in_rect r c).
Proof.
  intros r ratio.
  destruct (split_rect_tiles r Vertical ratio None None) as (a & b & E & Ht & _);
    [reflexivity | cbn; lia | exact I | exact I |].
  exists a, b. split; [exact E|]. vm_compute in E. injection E as <- <-. repeat split; exact Ht.
Defined.

(** ** Searches and traversals *)

(** A pane as the tree shows it. *)
Definition Pane : Type := LeafId * BufferId * option SplitRole.
Definition pane_id (p : Pane) : LeafId := p.1.1.
Definition pane_buffer (p : Pane) : BufferId := p.1.2.
Definition pane_role (p : Pane) : option SplitRole := p.2.
Arguments pane_id !p /.
Arguments pane_buffer !p /.
Arguments pane_role !p /.

(** The panes of a tree in its order. *)
Fixpoint panes_of (n : SplitNode) : list Pane :=
  match n with
  | Leaf b i r => [(i, b, r)]
  | Split _ first second _ _ _ _ => panes_of first ++ panes_of second
  | Grouped _ _ layout _ => panes_of layout
  end.

(** The identifiers of the nodes that are not leaves. *)
Fixpoint containers (n : SplitNode) : list SplitId :=
  match n with
  | Leaf _ _ _ => []
  | Split _ first second _ i _ _ => i :: containers first ++ containers second
  | Grouped i _ layout _ => i :: containers layout
  end.

(** A tree without groups, such as the tree of a manager. *)
Fixpoint ungrouped (n : SplitNode) : bool :=
  match n with
  | Leaf _ _ _ => true
  | Split _ first second _ _ _ _ => ungrouped first && ungrouped second
  | Grouped _ _ _ _ => false
  end.

Lemma visible_leaves_panes n : visible_leaves n = (fun p => (pane_id p, pane_buffer p)) <$> panes_of n.
Proof. induction n; cbn; [done | by rw fmap_app IHn1 IHn2 | done]. Qed.

Lemma leaf_split_ids_panes n : leaf_split_ids n = pane_id <$> panes_of n.
Proof. induction n; cbn; [done | by rw fmap_app IHn1 IHn2 | done]. Qed.

Lemma count_leaves_panes n : count_leaves n = length (panes_of n).
Proof. induction n; cbn; [done | by rw length_app IHn1 IHn2 | done]. Qed.

Lemma panes_of_not_nil n : panes_of n <> [].
Proof. induction n; cbn; [done | by destruct (panes_of n1) | done]. Qed.

(** Every identifier is that of a pane or of a container. *)
Lemma all_split_ids_perm n : all_split_ids n ≡ₚ containers n ++ (pane_id <$> panes_of n).
Proof.
  induction n as [| d a IHa b IHb r i ff fs | i nm l IHl al]; cbn; [done | |by rw IHl].
  rw IHa IHb fmap_app. solve_Permutation.
Qed.

Lemma id_in_ids n : id n ∈ all_split_ids n.
Proof. destruct n; cbn; left. Qed.

Lemma pane_in_ids n p : p ∈ panes_of n -> pane_id p ∈ all_split_ids n.
Proof. intros. rw all_split_ids_perm. apply elem_of_app; right. by apply list_elem_of_fmap_2. Qed.

Lemma find_None n t : find n t = None <-> t ∉ all_split_ids n.
Proof.
  induction n as [b i r | d a IHa b IHb r i ff fs | i nm l IHl al]; cbn [find all_split_ids id].
  all: rw not_elem_of_cons; case_decide as Hd; [split; [done | intros [? _]; congruence]|].
  - split; [|done]. intros _. split; [congruence | apply not_elem_of_nil].
  - rw not_elem_of_app -IHa -IHb. destruct (find a t); [by split; [|intros (_ & ? & _)]|].
    split; [by intros ?; repeat split; auto | by intros (_ & _ & ?)].
  - rw -IHl. split; [by intros ?; split; auto | by intros (_ & ?)].
Qed.

Lemma find_id n t m : find n t = Some m -> id m = t.
Proof.
  revert m. induction n as [b i r | d a IHa b IHb r i ff fs | i nm l IHl al]; cbn; intros m; case_decide; subst; intros H';
    simplify_eq; eauto. destruct (find a t) eqn:E; simplify_eq; eauto.
Qed.

(** In a tree with distinct identifiers a search for a pane finds that pane. *)
Lemma find_pane n t b r :
  NoDup (all_split_ids n) -> (t, b, r) ∈ panes_of n -> find n t = Some (Leaf b t r).
Proof.
  induction n as [b' i r' | d a IHa c IHc r' i ff fs | i nm l IHl al]; cbn; intros Hnd Hin.
  - apply list_elem_of_singleton in Hin. simplify_eq. by rw decide_True.
  - apply NoDup_cons in Hnd as [Hi (Ha & Hd & Hc)%NoDup_app]. rw not_elem_of_app in Hi. destruct Hi as [Hia Hic].
    apply elem_of_app in Hin as [Hin|Hin]; pose proof (pane_in_ids _ _ Hin) as Hid; cbn in Hid.
    + rw decide_False; [congruence|]. by rw IHa.
    + rw decide_False; [congruence|].
      assert (find a t = None) as ->; [|by apply IHc]. apply find_None. intros Hx. by apply (Hd t).
  - apply NoDup_cons in Hnd as [Hi Hl]. pose proof (pane_in_ids _ _ Hin) as Hid; cbn in Hid.
    rw decide_False; [congruence|]. by apply IHl.
Qed.

(** A search that finds no leaf finds a container. *)
Lemma find_not_leaf n t m :
  find n t = Some m -> buffer_id m = None -> t ∈ containers n.
Proof.
  revert m. induction n as [b i r | d a IHa c IHc r' i ff fs | i nm l IHl al]; cbn; intros m H' Hb;
    case_decide; simplify_eq/=; rw ?elem_of_cons ?elem_of_app; eauto.
  destruct (find a t) eqn:E; simplify_eq; eauto.
Qed.

Lemma find_leaf_pane n t b i r : find n t = Some (Leaf b i r) -> (i, b, r) ∈ panes_of n /\ i = t.
Proof.
  induction n as [b' i' r' | d a IHa c IHc r' i' ff fs | i' nm l IHl al]; cbn; intros H';
    case_decide; simplify_eq/=; [split; [left|done] | |by apply IHl].
  destruct (find a t) eqn:E; simplify_eq; [destruct IHa | destruct IHc]; try done; split; try done; apply elem_of_app; tauto.
Qed.

(** ** Rewriting a tree *)

(** The panes with those of identifier [t] replaced by [ps]. *)
Definition subst_pane (t : LeafId) (ps l : list Pane) : list Pane :=
  p ← l; if decide (pane_id p = t) then ps else [p].

Lemma subst_pane_fresh t ps l : (t ∉ pane_id <$> l) -> subst_pane t ps l = l.
Proof.
  intros H. induction l as [|p l IH]; [done|]. cbn in H. apply not_elem_of_cons in H as [? ?].
  unfold subst_pane in *. cbn. rw decide_False; [congruence|]. by rw IH.
Qed.

Lemma subst_pane_app t ps l k : subst_pane t ps (l ++ k) = subst_pane t ps l ++ subst_pane t ps k.
Proof. apply bind_app. Qed.

Lemma fresh_panes n t : (t ∉ all_split_ids n) -> t ∉ pane_id <$> panes_of n.
Proof. intros H Hin. apply H. rw all_split_ids_perm. apply elem_of_app; by right. Qed.

Lemma find_mut_None w n t : (t ∉ all_split_ids n) -> find_mut w n t = None.
Proof.
  induction n as [b i r | d a IHa b IHb r i ff fs | i nm l IHl al]; cbn [find_mut all_split_ids id].
  all: rw not_elem_of_cons; intros [Hi Hn]; rw decide_False; [congruence|].
  - done.
  - apply not_elem_of_app in Hn as [Ha Hb]. by rw IHa // IHb.
  - by rw IHl.
Qed.

Lemma find_mut_Some w n t : is_Some (find n t) -> is_Some (find_mut w n t).
Proof.
  induction n as [b i r | d a IHa b IHb r i ff fs | i nm l IHl al]; cbn [find_mut find]; case_decide; try by eexists.
  - by intros [].
  - destruct (find a t) as [k|]; intros H'.
    + destruct (IHa (mk_is_Some _ _ eq_refl)) as [a' ->]. by eexists.
    + destruct (find_mut w a t); [by eexists|]. destruct (IHb H') as [b' ->]. by eexists.
  - intros H'. destruct (IHl H') as [l' ->]. by eexists.
Qed.

(** Writing through [find_mut] at a pane replaces that pane and nothing else. *)
Lemma find_mut_pane w n t b r :
  NoDup (all_split_ids n) -> (t, b, r) ∈ panes_of n ->
  exists n', find_mut w n t = Some n'
  /\ panes_of n' = subst_pane t (panes_of (w (Leaf b t r))) (panes_of n)
  /\ containers n' ≡ₚ containers n ++ containers (w (Leaf b t r))
  /\ (ungrouped n = true -> ungrouped (w (Leaf b t r)) = true -> ungrouped n' = true).
Proof.
  induction n as [b' i r' | d a IHa c IHc r' i ff fs | i nm l IHl al]; cbn [find_mut all_split_ids panes_of containers ungrouped id]; intros Hnd Hin.
  - apply list_elem_of_singleton in Hin. simplify_eq. rw decide_True; [done|]. eexists. split; [done|].
    unfold subst_pane. cbn. rw decide_True; [done|]. by rw app_nil_r.
  - apply NoDup_cons in Hnd as [Hi (Ha & Hd & Hc)%NoDup_app]. rw not_elem_of_app in Hi. destruct Hi as [Hia Hic].
    apply elem_of_app in Hin as [Hin|Hin]; pose proof (pane_in_ids _ _ Hin) as Hid; cbn in Hid.
    + rw decide_False; [congruence|]. destruct (IHa Ha Hin) as (a' & -> & Hp & Hk & Hu).
      eexists. split; [done|]. cbn [panes_of containers ungrouped]. split_and!.
      * rw Hp subst_pane_app (subst_pane_fresh _ _ (panes_of c)); [|done]. apply fresh_panes. by apply Hd.
      * rw Hk. solve_Permutation.
      * intros [? ?]%andb_prop ?. apply andb_true_intro; auto.
    + rw decide_False; [congruence|]. assert (t ∉ all_split_ids a) by (intros ?; by apply (Hd t)).
      rw find_mut_None; [done|]. destruct (IHc Hc Hin) as (c' & -> & Hp & Hk & Hu).
      eexists. split; [done|]. cbn [panes_of containers ungrouped]. split_and!.
      * rw Hp subst_pane_app (subst_pane_fresh _ _ (panes_of a)); [|done]. by apply fresh_panes.
      * rw Hk. solve_Permutation.
      * intros [? ?]%andb_prop ?. apply andb_true_intro; auto.
  - apply NoDup_cons in Hnd as [Hi Hl]. pose proof (pane_in_ids _ _ Hin) as Hid; cbn in Hid.
    rw decide_False; [congruence|]. destruct (IHl Hl Hin) as (l' & -> & Hp & Hk & Hu).
    eexists. split; [done|]. cbn [panes_of containers ungrouped]. split_and!; [done | by rw Hk | done].
Qed.
