(* ===== verification/SplitManager.v ===== *)
(** * The manager of the panes

    Models [SplitManager] of crates/fresh-editor/src/view/split.rs: the tree of panes, which
    of them has the keyboard, which one is maximized, the labels of panes and the order in
    which they were focused.

    A [Result<_, String>] is a sum whose left side names the message.  A branch the source
    marks [unreachable!] is [Panic]. *)
From stdpp Require Import base numbers list option strings gmap.
From Stdlib Require Import ssreflect Lia ZArith Floats.SpecFloat.
From S2P Require Import Prelude Event SplitTree.

Inductive split_error : Type :=
| SplitNotFound (id : SplitId)
| CannotCloseLast
| CannotCloseOnly
| TargetNotFound
| CannotMaximizeOnly
| AlreadyMaximized
| NoneMaximized
| MaximizeNotFound.
#[export] Instance split_error_eq_dec : EqDecision split_error.
Proof. solve_decision. Defined.

Record SplitManager : Type := mkManager {
  root : SplitNode;
  active_split : LeafId;
  next_split_id : nat;
  maximized_split : option SplitId;
  labels : gmap SplitId string;
  focus_history : list LeafId;
}.

(** Assignments to one field. *)
Definition with_root (r : SplitNode) (m : SplitManager) : SplitManager :=
  mkManager r (active_split m) (next_split_id m) (maximized_split m) (labels m) (focus_history m).
Definition with_active (a : LeafId) (m : SplitManager) : SplitManager :=
  mkManager (root m) a (next_split_id m) (maximized_split m) (labels m) (focus_history m).
Definition with_maximized (x : option SplitId) (m : SplitManager) : SplitManager :=
  mkManager (root m) (active_split m) (next_split_id m) x (labels m) (focus_history m).
Definition with_labels (l : gmap SplitId string) (m : SplitManager) : SplitManager :=
  mkManager (root m) (active_split m) (next_split_id m) (maximized_split m) l (focus_history m).
Definition with_focus_history (h : list LeafId) (m : SplitManager) : SplitManager :=
  mkManager (root m) (active_split m) (next_split_id m) (maximized_split m) (labels m) h.

Definition FOCUS_HISTORY_CAP : nat := 50.

Definition new (buffer_id : BufferId) : SplitManager :=
  let split_id := 0 in
  mkManager (leaf buffer_id split_id) split_id 1 None ∅ [split_id].

Definition allocate_split_id (m : SplitManager) : SplitId * SplitManager :=
  (next_split_id m, mkManager (root m) (active_split m) (S (next_split_id m)) (maximized_split m) (labels m) (focus_history m)).

(** ** The focused pane *)

(** Promote an entry to the end of a list of bounded length, dropping the oldest entry when
    it overflows. *)
Definition push_recent {A} `{EqDecision A} (cap : nat) (x : A) (h : list A) : list A :=
  let h := filter (fun y => y <> x) h ++ [x] in
  if decide (cap < length h) then tail h else h.

Definition set_active_split (split_id : LeafId) (m : SplitManager) : bool * SplitManager :=
  match find (root m) split_id with
  | Some _ => (true, with_focus_history (push_recent FOCUS_HISTORY_CAP split_id (focus_history m)) (with_active split_id m))
  | None => (false, m)
  end.

Definition leaf_role (m : SplitManager) (split_id : LeafId) : option SplitRole :=
  node ← find (root m) split_id; role node.

Definition last_focused_where (predicate : LeafId -> bool) (m : SplitManager) : option LeafId :=
  head (filter (fun leaf => is_Some (find (root m) leaf) /\ predicate leaf = true) (reverse (focus_history m))).

Definition active_buffer_id (m : SplitManager) : option BufferId :=
  node ← find (root m) (active_split m); buffer_id node.

Definition get_buffer_id (m : SplitManager) (split_id : SplitId) : option BufferId :=
  node ← find (root m) split_id; buffer_id node.

(** ** The buffers of panes *)
Definition set_leaf_buffer (new_buffer_id : BufferId) (n : SplitNode) : SplitNode :=
  match n with Leaf _ i r => Leaf new_buffer_id i r | _ => n end.

(** Write through [find_mut]; the tree is unchanged when there is no such node. *)
Definition update_node (write : SplitNode -> SplitNode) (target_id : SplitId) (m : SplitManager) : SplitManager :=
  match find_mut write (root m) target_id with
  | Some r => with_root r m
  | None => m
  end.

Definition set_active_buffer_id (new_buffer_id : BufferId) (m : SplitManager) : bool * SplitManager :=
  match find (root m) (active_split m) with
  | Some (Leaf _ _ _) => (true, update_node (set_leaf_buffer new_buffer_id) (active_split m) m)
  | _ => (false, m)
  end.

Definition set_split_buffer (leaf_id : LeafId) (new_buffer_id : BufferId) (m : SplitManager) : res SplitManager :=
  match find (root m) leaf_id with
  | Some (Leaf _ _ _) => Ok (update_node (set_leaf_buffer new_buffer_id) leaf_id m)
  | Some (Split _ _ _ _ _ _ _) => Panic
  | Some (Grouped _ _ _ _) => Panic
  | None => Panic
  end.

(** ** Splitting *)
Definition replace_split_with_split (target_id : SplitId) (direction : SplitDirection) (new_buffer_id : BufferId)
    (ratio : f32) (before : bool) (m : SplitManager) : (split_error + LeafId) * SplitManager :=
  let '(temp_id, m) := allocate_split_id m in
  let '(new_split_id, m) := allocate_split_id m in
  let '(new_leaf_id, m) := allocate_split_id m in
  if decide (id (root m) = target_id) then
    let old_root := root m in
    let new_leaf := leaf new_buffer_id new_leaf_id in
    let '(first, second) := if before then (new_leaf, old_root) else (old_root, new_leaf) in
    (inr new_leaf_id, with_root (split direction first second ratio new_split_id) m)
  else
    let write old_node :=
      let new_leaf := leaf new_buffer_id new_leaf_id in
      let '(first, second) := if before then (new_leaf, old_node) else (old_node, new_leaf) in
      split direction first second ratio new_split_id in
    match find_mut write (root m) target_id with
    | Some r => (inr new_leaf_id, with_root r m)
    | None => (inl (SplitNotFound target_id), m)
    end.

(** The new pane takes the keyboard. *)
Definition focus_new (r : (split_error + LeafId) * SplitManager) : (split_error + LeafId) * SplitManager :=
  match r with
  | (inr new_split_id, m) => (inr new_split_id, with_active new_split_id m)
  | (inl e, m) => (inl e, m)
  end.

Definition split_active_positioned (direction : SplitDirection) (new_buffer_id : BufferId) (ratio : f32) (before : bool)
    (m : SplitManager) : (split_error + LeafId) * SplitManager :=
  focus_new (replace_split_with_split (active_split m) direction new_buffer_id ratio before m).

Definition split_active (direction : SplitDirection) (new_buffer_id : BufferId) (ratio : f32)
    (m : SplitManager) : (split_error + LeafId) * SplitManager :=
  split_active_positioned direction new_buffer_id ratio false m.

Definition split_root_positioned (direction : SplitDirection) (new_buffer_id : BufferId) (ratio : f32) (before : bool)
    (m : SplitManager) : (split_error + LeafId) * SplitManager :=
  focus_new (replace_split_with_split (id (root m)) direction new_buffer_id ratio before m).

(** ** Roles *)
Definition set_leaf_role (split_id : LeafId) (new_role : option SplitRole) (m : SplitManager) : SplitManager :=
  update_node (set_role new_role) split_id m.

Fixpoint find_role_in (node : SplitNode) (target : SplitRole) : option LeafId :=
  match node with
  | Leaf _ split_id (Some r) => if decide (r = target) then Some split_id else None
  | Leaf _ _ None => None
  | Split _ first second _ _ _ _ =>
      match find_role_in first target with
      | Some i => Some i
      | None => find_role_in second target
      end
  | Grouped _ _ layout _ => find_role_in layout target
  end.

Definition find_leaf_by_role (m : SplitManager) (target : SplitRole) : option LeafId := find_role_in (root m) target.

Definition clear_role (target : SplitRole) (m : SplitManager) : option LeafId * SplitManager :=
  match find_leaf_by_role m target with
  | Some leaf => (Some leaf, set_leaf_role leaf None m)
  | None => (None, m)
  end.

Definition clear_root_leaf_role (m : SplitManager) : bool * SplitManager :=
  match root m with
  | Leaf b i (Some _) => (true, with_root (Leaf b i None) m)
  | _ => (false, m)
  end.

(** ** Closing *)
Fixpoint remove_child_static (node : SplitNode) (target_id : SplitId) : split_error + SplitNode :=
  match node with
  | Leaf _ _ _ => inl TargetNotFound
  | Grouped i name layout a =>
      match remove_child_static layout target_id with
      | inr layout => inr (Grouped i name layout a)
      | inl e => inl e
      end
  | Split d first second r i ff fs =>
      if decide (id first = target_id) then inr second
      else if decide (id second = target_id) then inr first
      else match remove_child_static first target_id with
           | inr first => inr (Split d first second r i ff fs)
           | inl _ =>
               match remove_child_static second target_id with
               | inr second => inr (Split d first second r i ff fs)
               | inl e => inl e
               end
           end
  end.

Definition remove_split_node (target_id : SplitId) (m : SplitManager) : (split_error + unit) * SplitManager :=
  let recurse :=
    match remove_child_static (root m) target_id with
    | inr r => (inr tt, with_root r m)
    | inl e => (inl e, m)
    end in
  if decide (id (root m) = target_id) then
    match root m with
    | Split _ first _ _ _ _ _ => (inr tt, with_root first m)
    | _ => recurse
    end
  else recurse.

Definition close_split (split_id : LeafId) (m : SplitManager) : (split_error + unit) * SplitManager :=
  if decide (count_leaves (root m) <= 1) then (inl CannotCloseLast, m)
  else if decide (id (root m) = split_id /\ is_Some (buffer_id (root m))) then (inl CannotCloseOnly, m)
  else
    let m := if decide (maximized_split m = Some split_id) then with_maximized None m else m in
    let removed_ids :=
      match find (root m) split_id with
      | Some node => all_split_ids node
      | None => []
      end in
    let '(result, m) := remove_split_node split_id m in
    match result with
    | inr _ =>
        let m := with_labels (foldl (fun l i => delete i l) (labels m) removed_ids) m in
        let m :=
          if decide (active_split m = split_id) then
            match head (leaf_split_ids (root m)) with
            | Some first_leaf => with_active first_leaf m
            | None => m
            end
          else m in
        (result, (clear_root_leaf_role m).2)
    | inl _ => (result, m)
    end.

(** ** Ratios *)
Definition set_node_ratio (f : f32 -> f32) (n : SplitNode) : SplitNode :=
  match n with Split d a b r i ff fs => Split d a b (f r) i ff fs | _ => n end.

Definition adjust_ratio (container_id : ContainerId) (delta : f32) (m : SplitManager) : res SplitManager :=
  match find (root m) container_id with
  | Some (Split _ _ _ _ _ _ _) =>
      Ok (update_node (set_node_ratio (fun ratio => f32_clamp_unit (f32_add ratio delta))) container_id m)
  | Some (Leaf _ _ _) => Panic
  | Some (Grouped _ _ _ _) => Panic
  | None => Panic
  end.

Definition get_ratio (m : SplitManager) (split_id : SplitId) : option f32 :=
  match find (root m) split_id with
  | Some (Split _ _ _ r _ _ _) => Some r
  | _ => None
  end.

Definition set_ratio (container_id : ContainerId) (new_ratio : f32) (m : SplitManager) : bool * SplitManager :=
  match find (root m) container_id with
  | Some (Split _ _ _ _ _ _ _) =>
      (true, update_node (set_node_ratio (fun _ => f32_clamp_unit new_ratio)) container_id m)
  | _ => (false, m)
  end.

Fixpoint distribute_node_evenly (node : SplitNode) : nat * SplitNode :=
  match node with
  | Leaf _ _ _ => (1, node)
  | Grouped i name layout a =>
      let '(n, layout) := distribute_node_evenly layout in
      (n, Grouped i name layout a)
  | Split d first second _ i ff fs =>
      let '(first_leaves, first) := distribute_node_evenly first in
      let '(second_leaves, second) := distribute_node_evenly second in
      let total_leaves := first_leaves + second_leaves in
      let ratio := f32_clamp_unit (f32_div (f32_of (Z.of_nat first_leaves)) (f32_of (Z.of_nat total_leaves))) in
      (total_leaves, Split d first second ratio i ff fs)
  end.

Definition distribute_splits_evenly (m : SplitManager) : SplitManager :=
  with_root (distribute_node_evenly (root m)).2 m.

(** ** Moving between panes *)
Definition manager_parent_container_of (m : SplitManager) (leaf_id : LeafId) : option ContainerId :=
  parent_container_of (root m) leaf_id.

Definition manager_visible_leaves (m : SplitManager) : list (LeafId * BufferId) :=
  match maximized_split m with
  | Some maximized_id =>
      match find (root m) maximized_id with
      | Some (Leaf b i _) => [(i, b)]
      | _ => visible_leaves (root m)
      end
  | None => visible_leaves (root m)
  end.

Definition next_split (m : SplitManager) : res SplitManager :=
  let m := with_maximized None m in
  let leaf_ids := leaf_split_ids (root m) in
  match list_find (fun i => i = active_split m) leaf_ids with
  | Some (pos, _) =>
      if decide (length leaf_ids = 0) then Panic
      else match leaf_ids !! ((pos + 1) mod length leaf_ids) with
           | Some i => Ok (with_active i m)
           | None => Panic
           end
  | None => Ok m
  end.

Definition prev_split (m : SplitManager) : res SplitManager :=
  let m := with_maximized None m in
  let leaf_ids := leaf_split_ids (root m) in
  match list_find (fun i => i = active_split m) leaf_ids with
  | Some (pos, _) =>
      prev_pos ← usub (if decide (pos = 0) then length leaf_ids else pos) 1;
      match leaf_ids !! prev_pos with
      | Some i => Ok (with_active i m)
      | None => Panic
      end
  | None => Ok m
  end.

Definition splits_for_buffer (m : SplitManager) (target_buffer_id : BufferId) : list LeafId :=
  (filter (fun p => p.2 = target_buffer_id) (visible_leaves (root m))).*1.

Definition buffer_for_split (m : SplitManager) (target_split_id : LeafId) : option BufferId :=
  snd <$> head (filter (fun p => p.1 = target_split_id) (visible_leaves (root m))).

(** ** Maximizing *)
Definition maximize_split (m : SplitManager) : (split_error + unit) * SplitManager :=
  if decide (count_leaves (root m) <= 1) then (inl CannotMaximizeOnly, m)
  else match maximized_split m with
       | Some _ => (inl AlreadyMaximized, m)
       | None => (inr tt, with_maximized (Some (active_split m)) m)
       end.

Definition unmaximize_split (m : SplitManager) : (split_error + unit) * SplitManager :=
  match maximized_split m with
  | None => (inl NoneMaximized, m)
  | Some _ => (inr tt, with_maximized None m)
  end.

Definition is_maximized (m : SplitManager) : bool := bool_decide (is_Some (maximized_split m)).

(** [result?; Ok(b)]. *)
Definition then_ok (b : bool) (r : (split_error + unit) * SplitManager) : (split_error + bool) * SplitManager :=
  match r with
  | (inr _, m) => (inr b, m)
  | (inl e, m) => (inl e, m)
  end.

Definition toggle_maximize (m : SplitManager) : (split_error + bool) * SplitManager :=
  if is_maximized m then then_ok false (unmaximize_split m) else then_ok true (maximize_split m).

Definition toggle_maximize_for (target : LeafId) (m : SplitManager) : (split_error + bool) * SplitManager :=
  if is_maximized m then then_ok false (unmaximize_split m)
  else if decide (count_leaves (root m) <= 1) then (inl CannotMaximizeOnly, m)
  else match find (root m) target with
       | None => (inl MaximizeNotFound, m)
       | Some _ => (inr true, with_maximized (Some target) m)
       end.

(** ** Labels *)
Definition set_label (split_id : LeafId) (label : string) (m : SplitManager) : SplitManager :=
  with_labels (<[split_id := label]> (labels m)) m.

Definition clear_label (split_id : SplitId) (m : SplitManager) : SplitManager :=
  with_labels (delete split_id (labels m)) m.

Definition get_label (m : SplitManager) (split_id : SplitId) : option string := labels m !! split_id.

Definition find_split_by_label (m : SplitManager) (label : string) : option LeafId :=
  head (filter (fun i => labels m !! i = Some label) (leaf_split_ids (root m))).

Definition find_unlabeled_leaf (m : SplitManager) : option LeafId :=
  head (filter (fun i => labels m !! i = None) (leaf_split_ids (root m))).

(** ** Recently used entries *)
Lemma push_recent_ok {A} `{EqDecision A} cap (x : A) h :
  1 <= cap -> NoDup h -> length h <= cap -> NoDup (push_recent cap x h) /\ length (push_recent cap x h) <= cap.
Proof.
  intros Hcap Hnd Hlen. unfold push_recent.
  assert (Hk : NoDup (filter (fun y => y <> x) h ++ [x])).
  { apply NoDup_app. split_and!; [by apply NoDup_filter | | apply NoDup_singleton].
    intros y [Hy _]%list_elem_of_filter ->%list_elem_of_singleton. done. }
  pose proof (length_filter (fun y => y <> x) h) as Hf.
  case_decide as Hd; [|split; [done|lia]].
  destruct (filter _ h ++ [x]) as [|z k] eqn:E; [by cbn in Hd; lia|]. cbn. split; [by apply NoDup_cons in Hk as [_ ?]|].
  assert (length (z :: k) = length (filter (fun y => y <> x) h) + 1) as Hl by (by rw -E length_app). cbn in Hl. lia.
Qed.

(** Every entry once, at its first position. *)
Fixpoint distinct {A} `{EqDecision A} (l : list A) : list A :=
  match l with
  | [] => []
  | x :: l => x :: filter (fun y => y <> x) (distinct l)
  end.

Lemma filter_take_distinct {A} `{EqDecision A} (x : A) n l :
  NoDup l -> take n (filter (fun y => y <> x) (take (S n) l)) = take n (filter (fun y => y <> x) l).
Proof.
  revert n. induction l as [|y l IH]; intros n Hnd; [done|]. apply NoDup_cons in Hnd as [Hy Hnd]. cbn [take].
  destruct (decide (y = x)) as [->|Hne].
  - rw !(filter_cons_False _ x); [tauto..|].
    assert (Hf : forall k : list A, (x ∉ k) -> filter (fun y => y <> x) k = k).
    { induction k as [|z k IHk]; [done|]. intros [? ?]%not_elem_of_cons. rw filter_cons_True; [congruence|]. by rw IHk. }
    assert (Hn : x ∉ take n l) by (intros (i & Hin & _)%elem_of_take; by apply Hy, (list_elem_of_lookup_2 _ i)).
    rw (Hf _ Hn) (Hf _ Hy). by rw take_take Nat.min_id.
  - rw !filter_cons_True //. destruct n as [|n]; [done|]. cbn [take]. f_equal. by apply IH.
Qed.

Lemma distinct_nodup {A} `{EqDecision A} (l : list A) : NoDup (distinct l).
Proof.
  induction l as [|x l IH]; cbn; [apply NoDup_nil_2|]. apply NoDup_cons. split; [|by apply NoDup_filter].
  intros [? _]%list_elem_of_filter. done.
Qed.

(** The focus history holds the last entries focused, each once: what a log of everything
    ever focused gives when it is read from its end. *)
Lemma push_recent_log {A} `{EqDecision A} cap (log : list A) :
  foldr (push_recent (S cap)) [] log = reverse (take (S cap) (distinct log)).
Proof.
  induction log as [|x log IH]; [done|]. cbn [foldr distinct]. rw IH. unfold push_recent.
  set (d := distinct log). assert (Hnd : NoDup d) by apply distinct_nodup.
  assert (Hf : filter (fun y => y <> x) (reverse (take (S cap) d)) = reverse (filter (fun y => y <> x) (take (S cap) d))).
  { generalize (take (S cap) d) as k. induction k as [|z k IHk]; [done|]. rw reverse_cons filter_app IHk !filter_cons filter_nil.
    case_decide; [by rw reverse_cons | by rw app_nil_r]. }
  rw Hf -reverse_cons. cbn [take]. rw -(filter_take_distinct x cap d Hnd).
  set (k := filter (fun y => y <> x) (take (S cap) d)). assert (Hk : length k <= S cap).
  { unfold k. etransitivity; [apply length_filter|]. rw length_take. lia. }
  rw length_reverse. cbn [length]. case_decide as Hl.
  - assert (Hlk : length k = S cap) by lia. destruct k as [|z k' _] using rev_ind; [done|]. rw length_app in Hlk. cbn in Hlk.
    rw app_comm_cons reverse_snoc. cbn [tail]. rw take_app_le; [lia|]. rw take_ge; [lia|done].
  - by rw take_ge; [lia|].
Qed.
