(* ===== verification/SplitPanes.v ===== *)
(** * The manager keeps a list of panes

    The contract of [SplitManager]: what it shows is a list of panes in the order of the
    screen, one of them focused and possibly one of them maximized; the tree of splits is how
    the list is laid out.  [spec_step] says what every operation does to that list, and
    [split_manager_refines] that the tree does the same.  The focus history is bounded by
    the invariant ([mi_recent]) but not part of the list: only some of the operations that
    move the focus record it ([split_focus_not_recorded]). *)
From stdpp Require Import base numbers list option strings gmap.
From Stdlib Require Import ssreflect Lia ZArith Floats.SpecFloat.
From S2P Require Import Prelude Event SplitTree SplitManager.

(** ** Operations and their answers *)
Inductive split_op : Type :=
| OpAllocate
| OpSetActive (split_id : LeafId)
| OpSetActiveBuffer (new_buffer_id : BufferId)
| OpSetSplitBuffer (leaf_id : LeafId) (new_buffer_id : BufferId)
| OpSplitActive (direction : SplitDirection) (new_buffer_id : BufferId) (ratio : f32) (before : bool)
| OpSplitRoot (direction : SplitDirection) (new_buffer_id : BufferId) (ratio : f32) (before : bool)
| OpClose (split_id : LeafId)
| OpAdjustRatio (container_id : ContainerId) (delta : f32)
| OpSetRatio (container_id : ContainerId) (new_ratio : f32)
| OpDistribute
| OpNext
| OpPrev
| OpMaximize
| OpUnmaximize
| OpToggleMaximize
| OpToggleMaximizeFor (target : LeafId)
| OpSetLabel (split_id : LeafId) (label : string)
| OpClearLabel (split_id : SplitId)
| OpSetLeafRole (split_id : LeafId) (new_role : option SplitRole)
| OpClearRole (target : SplitRole)
| OpClearRootLeafRole.

Inductive outcome : Type :=
| Done
| Answer (b : bool)
| Issued (i : SplitId)
| Cleared (i : option LeafId)
| Failed (e : split_error).

Definition out_unit (r : (split_error + unit) * SplitManager) : SplitManager * outcome :=
  match r with (inr _, m) => (m, Done) | (inl e, m) => (m, Failed e) end.
Definition out_bool (r : (split_error + bool) * SplitManager) : SplitManager * outcome :=
  match r with (inr b, m) => (m, Answer b) | (inl e, m) => (m, Failed e) end.
Definition out_leaf (r : (split_error + LeafId) * SplitManager) : SplitManager * outcome :=
  match r with (inr i, m) => (m, Issued i) | (inl e, m) => (m, Failed e) end.

(** An operation of the manager.  The answer of [set_ratio] depends on the tree, which the
    list of panes does not show: see [set_ratio_answer]. *)
Definition step (m : SplitManager) (op : split_op) : res (SplitManager * outcome) :=
  match op with
  | OpAllocate => let '(i, m) := allocate_split_id m in Ok (m, Issued i)
  | OpSetActive i => let '(b, m) := set_active_split i m in Ok (m, Answer b)
  | OpSetActiveBuffer b => let '(r, m) := set_active_buffer_id b m in Ok (m, Answer r)
  | OpSetSplitBuffer i b => m ← set_split_buffer i b m; Ok (m, Done)
  | OpSplitActive d b r before => Ok (out_leaf (split_active_positioned d b r before m))
  | OpSplitRoot d b r before => Ok (out_leaf (split_root_positioned d b r before m))
  | OpClose i => Ok (out_unit (close_split i m))
  | OpAdjustRatio c delta => m ← adjust_ratio c delta m; Ok (m, Done)
  | OpSetRatio c r => Ok ((set_ratio c r m).2, Done)
  | OpDistribute => Ok (distribute_splits_evenly m, Done)
  | OpNext => m ← next_split m; Ok (m, Done)
  | OpPrev => m ← prev_split m; Ok (m, Done)
  | OpMaximize => Ok (out_unit (maximize_split m))
  | OpUnmaximize => Ok (out_unit (unmaximize_split m))
  | OpToggleMaximize => Ok (out_bool (toggle_maximize m))
  | OpToggleMaximizeFor i => Ok (out_bool (toggle_maximize_for i m))
  | OpSetLabel i s => Ok (set_label i s m, Done)
  | OpClearLabel i => Ok (clear_label i m, Done)
  | OpSetLeafRole i r => Ok (set_leaf_role i r m, Done)
  | OpClearRole t => let '(i, m) := clear_role t m in Ok (m, Cleared i)
  | OpClearRootLeafRole => let '(b, m) := clear_root_leaf_role m in Ok (m, Answer b)
  end.

(** ** The contract *)
Record Panes : Type := mkPanes {
  panes : list Pane;
  focused : LeafId;
  next_id : nat;
  zoomed : option LeafId;
  tags : gmap SplitId string;
}.

Definition abs (m : SplitManager) : Panes :=
  mkPanes (panes_of (root m)) (active_split m) (next_split_id m) (maximized_split m) (labels m).

Definition pane_ids (p : Panes) : list LeafId := pane_id <$> panes p.

Definition on_pane (t : LeafId) (f : Pane -> Pane) (l : list Pane) : list Pane :=
  (fun q => if decide (pane_id q = t) then f q else q) <$> l.

(** A new pane beside the pane [t]. *)
Definition beside (t : LeafId) (before : bool) (new : Pane) (l : list Pane) : list Pane :=
  q ← l; if decide (pane_id q = t) then (if before then [new; q] else [q; new]) else [q].

(** The entry after [a], the first one after the last. *)
Fixpoint succ_in (first a : LeafId) (l : list LeafId) : LeafId :=
  match l with
  | [] => a
  | i :: l => if decide (i = a) then default first (head l) else succ_in first a l
  end.
Definition cyclic_next (a : LeafId) (l : list LeafId) : LeafId := succ_in (default a (head l)) a l.

(** A pane alone on the screen has no role. *)
Definition lone_without_role (l : list Pane) : list Pane :=
  match l with
  | [(i, b, _)] => [(i, b, None)]
  | _ => l
  end.

Definition spec_unzoom (p : Panes) : Panes := mkPanes (panes p) (focused p) (next_id p) None (tags p).

Definition spec_zoom (t : LeafId) (p : Panes) : Panes :=
  mkPanes (panes p) (focused p) (next_id p) (Some t) (tags p).

Definition spec_refocus (t : LeafId) (p : Panes) : Panes := mkPanes (panes p) t (next_id p) (zoomed p) (tags p).

Definition spec_panes (l : list Pane) (p : Panes) : Panes := mkPanes l (focused p) (next_id p) (zoomed p) (tags p).

Definition spec_add (l : list Pane) (p : Panes) : Panes * outcome :=
  (mkPanes l (S (S (next_id p))) (S (S (S (next_id p)))) (zoomed p) (tags p), Issued (S (S (next_id p)))).

Definition spec_close (t : LeafId) (p : Panes) : Panes * outcome :=
  if decide (length (panes p) <= 1) then (p, Failed CannotCloseLast)
  else if decide (t ∈ pane_ids p) then
    let rest := filter (fun q => pane_id q <> t) (panes p) in
    (mkPanes (lone_without_role rest)
       (if decide (focused p = t) then default t (head (pane_id <$> rest)) else focused p)
       (next_id p)
       (if decide (zoomed p = Some t) then None else zoomed p)
       (delete t (tags p)), Done)
  else (p, Failed TargetNotFound).

Definition spec_zoom_on (t : LeafId) (p : Panes) (ok : outcome) : Panes * outcome :=
  if decide (length (panes p) <= 1) then (p, Failed CannotMaximizeOnly)
  else match zoomed p with
       | Some _ => (p, Failed AlreadyMaximized)
       | None => if decide (t ∈ pane_ids p) then (spec_zoom t p, ok) else (p, Failed MaximizeNotFound)
       end.

Definition spec_step (p : Panes) (op : split_op) : Panes * outcome :=
  match op with
  | OpAllocate => (mkPanes (panes p) (focused p) (S (next_id p)) (zoomed p) (tags p), Issued (next_id p))
  | OpSetActive t =>
      if decide (t ∈ pane_ids p)
      then (spec_refocus t p, Answer true)
      else (p, Answer false)
  | OpSetActiveBuffer b => (spec_panes (on_pane (focused p) (fun q => (pane_id q, b, pane_role q)) (panes p)) p, Answer true)
  | OpSetSplitBuffer t b => (spec_panes (on_pane t (fun q => (pane_id q, b, pane_role q)) (panes p)) p, Done)
  | OpSplitActive _ b _ before => spec_add (beside (focused p) before (S (S (next_id p)), b, None) (panes p)) p
  | OpSplitRoot _ b _ before =>
      let new := (S (S (next_id p)), b, None) in
      spec_add (if before then new :: panes p else panes p ++ [new]) p
  | OpClose t => spec_close t p
  | OpAdjustRatio _ _ | OpSetRatio _ _ | OpDistribute => (p, Done)
  | OpNext => (spec_refocus (cyclic_next (focused p) (pane_ids p)) (spec_unzoom p), Done)
  | OpPrev => (spec_refocus (cyclic_next (focused p) (reverse (pane_ids p))) (spec_unzoom p), Done)
  | OpMaximize => spec_zoom_on (focused p) p Done
  | OpUnmaximize => match zoomed p with None => (p, Failed NoneMaximized) | Some _ => (spec_unzoom p, Done) end
  | OpToggleMaximize =>
      match zoomed p with Some _ => (spec_unzoom p, Answer false) | None => spec_zoom_on (focused p) p (Answer true) end
  | OpToggleMaximizeFor t =>
      match zoomed p with Some _ => (spec_unzoom p, Answer false) | None => spec_zoom_on t p (Answer true) end
  | OpSetLabel t s => (mkPanes (panes p) (focused p) (next_id p) (zoomed p) (<[t := s]> (tags p)), Done)
  | OpClearLabel t => (mkPanes (panes p) (focused p) (next_id p) (zoomed p) (delete t (tags p)), Done)
  | OpSetLeafRole t r => (spec_panes (on_pane t (fun q => (pane_id q, pane_buffer q, r)) (panes p)) p, Done)
  | OpClearRole r =>
      match head (filter (fun q => pane_role q = Some r) (panes p)) with
      | Some q => (spec_panes (on_pane (pane_id q) (fun q => (pane_id q, pane_buffer q, None)) (panes p)) p, Cleared (Some (pane_id q)))
      | None => (p, Cleared None)
      end
  | OpClearRootLeafRole =>
      match panes p with
      | [(_, _, Some _)] => (spec_panes (lone_without_role (panes p)) p, Answer true)
      | _ => (p, Answer false)
      end
  end.

(** ** Runs *)
Fixpoint run (m : SplitManager) (ops : list split_op) : res (SplitManager * list outcome) :=
  match ops with
  | [] => Ok (m, [])
  | op :: ops => s ← step m op; r ← run s.1 ops; Ok (r.1, s.2 :: r.2)
  end.

Fixpoint spec_run (p : Panes) (ops : list split_op) : Panes * list outcome :=
  match ops with
  | [] => (p, [])
  | op :: ops => let s := spec_step p op in let r := spec_run s.1 ops in (r.1, s.2 :: r.2)
  end.

Definition issued_by (o : outcome) : list SplitId := match o with Issued i => [i] | _ => [] end.

(** What the newtypes of identifiers promise of a call: a [LeafId] is one the manager handed
    out; the target of [set_split_buffer] is a pane of the tree and that of [adjust_ratio] a
    container of it. *)
Definition op_ok (issued : list SplitId) (m : SplitManager) (op : split_op) : bool :=
  match op with
  | OpSetActive t | OpClose t | OpToggleMaximizeFor t => bool_decide (t ∈ issued)
  | OpSetSplitBuffer t _ => bool_decide (t ∈ leaf_split_ids (root m))
  | OpAdjustRatio c _ => bool_decide (c ∈ containers (root m))
  | _ => true
  end.

Fixpoint legal (issued : list SplitId) (m : SplitManager) (ops : list split_op) : bool :=
  match ops with
  | [] => true
  | op :: ops =>
      op_ok issued m op
      && match step m op with
         | Ok (m, o) => legal (issued_by o ++ issued) m ops
         | Panic => true
         end
  end.

(** ** The invariant *)
Record manager_inv (m : SplitManager) : Prop := {
  mi_nodup : NoDup (all_split_ids (root m));
  mi_below : Forall (fun i => i < next_split_id m) (all_split_ids (root m));
  mi_plain : ungrouped (root m) = true;
  mi_active : active_split m ∈ leaf_split_ids (root m);
  mi_zoom : from_option (fun i => i ∈ leaf_split_ids (root m)) True (maximized_split m);
  mi_recent : NoDup (focus_history m) /\ length (focus_history m) <= FOCUS_HISTORY_CAP;
}.

(** What a step may do to the identifiers: containers are old or fresh, and what is handed
    out is fresh and never a container. *)
Definition grows (m m' : SplitManager) (o : outcome) : Prop :=
  next_split_id m <= next_split_id m'
  /\ (forall c, c ∈ containers (root m') -> c ∈ containers (root m) \/ next_split_id m <= c)
  /\ (forall i, i ∈ issued_by o -> next_split_id m <= i < next_split_id m' /\ (i ∉ containers (root m'))).

(** A step that does what the contract says and keeps the invariant. *)
Definition refines (m : SplitManager) (op : split_op) : Prop :=
  exists m' o, step m op = Ok (m', o) /\ spec_step (abs m) op = (abs m', o) /\ manager_inv m' /\ grows m m' o.

(** ** Panes of a tree *)
Lemma bind_at (g : Pane -> list Pane) t b r l :
  NoDup (pane_id <$> l) -> (t, b, r) ∈ l ->
  (q ← l; if decide (pane_id q = t) then g q else [q]) = subst_pane t (g (t, b, r)) l.
Proof.
  intros Hnd Hin. unfold subst_pane. assert (Hg : forall q, q ∈ l -> pane_id q = t -> q = (t, b, r)).
  { intros q Hq Hi. destruct (list_elem_of_lookup_1 _ _ Hq) as [i Ei]. destruct (list_elem_of_lookup_1 _ _ Hin) as [j Ej].
    assert (i = j) as <-; [|rw Ei in Ej; by injection Ej]. eapply (NoDup_lookup (pane_id <$> l)); [done | |].
    - rw list_lookup_fmap Ei. cbn. by rw Hi.
    - by rw list_lookup_fmap Ej. }
  clear Hnd Hin. induction l as [|q l IH]; [done|]. cbn [mbind list_bind]. rw IH; [intros; apply Hg; [by right|done]|].
  f_equal. case_decide as Hi; [|done]. f_equal. apply Hg; [left|done].
Qed.

Lemma on_pane_bind t f l : on_pane t f l = (q ← l; if decide (pane_id q = t) then [f q] else [q]).
Proof. induction l as [|q l IH]; [done|]. cbn. rw -IH. by case_decide. Qed.

Lemma on_pane_ids t f l : (forall q, pane_id (f q) = pane_id q) -> pane_id <$> on_pane t f l = pane_id <$> l.
Proof.
  intros Hf. unfold on_pane. rw -list_fmap_compose. apply list_fmap_ext. intros _ q _. cbn. by case_decide.
Qed.

Lemma on_pane_fresh t f l : (t ∉ pane_id <$> l) -> on_pane t f l = l.
Proof.
  intros H. rw on_pane_bind. rw -{2}(subst_pane_fresh t [] l H). unfold subst_pane.
  induction l as [|q l IH]; [done|]. cbn in *. apply not_elem_of_cons in H as [? ?].
  rw !decide_False; [congruence..|]. by rw IH.
Qed.

Lemma ids_perm_eq n n' :
  pane_id <$> panes_of n' = pane_id <$> panes_of n -> containers n' ≡ₚ containers n -> all_split_ids n' ≡ₚ all_split_ids n.
Proof. intros Hp Hc. by rw !all_split_ids_perm Hp Hc. Qed.

Lemma pane_ids_nodup n : NoDup (all_split_ids n) -> NoDup (pane_id <$> panes_of n).
Proof. rw all_split_ids_perm. by intros (_ & _ & ?)%NoDup_app. Qed.

Lemma pane_not_container n t : NoDup (all_split_ids n) -> t ∈ leaf_split_ids n -> t ∉ containers n.
Proof. rw all_split_ids_perm leaf_split_ids_panes. intros (_ & Hd & _)%NoDup_app Ht Hc. by apply (Hd t). Qed.

Lemma leaf_pane n t : t ∈ leaf_split_ids n -> exists b r, (t, b, r) ∈ panes_of n.
Proof. rw leaf_split_ids_panes. intros ([[i b] r] & -> & H)%list_elem_of_fmap_1. by exists b, r. Qed.

Lemma find_Some_ids n t : is_Some (find n t) <-> t ∈ all_split_ids n.
Proof. rw -not_eq_None_Some find_None. split; [|auto]. intros H. by apply dec_stable. Qed.

(** An identifier that is not a container's is searched for among the panes. *)
Lemma in_ids_pane n t : (t ∉ containers n) -> t ∈ all_split_ids n <-> t ∈ pane_id <$> panes_of n.
Proof. intros Hc. rw all_split_ids_perm elem_of_app. tauto. Qed.

Lemma find_is_pane n t : (t ∉ containers n) -> is_Some (find n t) <-> t ∈ pane_id <$> panes_of n.
Proof. intros. by rw find_Some_ids in_ids_pane. Qed.

Lemma lone_leaf n i b r : ungrouped n = true -> panes_of n = [(i, b, r)] -> n = Leaf b i r.
Proof.
  destruct n as [b' i' r' | d x y r' i' ff fs | ? ? ? ?]; cbn; [by intros _ [= -> -> ->] | | done]. intros _ H.
  pose proof (panes_of_not_nil x). pose proof (panes_of_not_nil y).
  destruct (panes_of x) as [|p [|? ?]]; [done | | done]. by destruct (panes_of y).
Qed.

(** ** Steps that leave the tree alone *)
Lemma grows_same m m' o :
  next_split_id m' = next_split_id m -> (forall c, c ∈ containers (root m') -> c ∈ containers (root m)) -> issued_by o = [] -> grows m m' o.
Proof. intros E Hc Ho. unfold grows. rw E. split_and!; [done | intros c H; left; by apply Hc | by rw Ho; intros ? ?%not_elem_of_nil]. Qed.

(** ** Steps that rewrite one node *)

(** A write that keeps the panes and containers of the node it finds, such as a new ratio,
    keeps those of the tree. *)
Lemma find_mut_keeps w n t n' :
  (forall k, find n t = Some k -> panes_of (w k) = panes_of k /\ containers (w k) = containers k /\ ungrouped (w k) = ungrouped k) ->
  find_mut w n t = Some n' ->
  panes_of n' = panes_of n /\ containers n' = containers n /\ ungrouped n' = ungrouped n.
Proof.
  revert n'. induction n as [b i r | d a IHa c IHc r i ff fs | i nm l IHl al]; intros n'; cbn [find find_mut];
    case_decide; intros Hw; try (intros [= <-]; by apply Hw).
  - destruct (find a t) as [k|] eqn:Ea.
    + destruct (find_mut_Some w a t (mk_is_Some _ _ Ea)) as [a' Em]. rw Em in IHa. rw Em. intros [= <-].
      cbn [panes_of containers ungrouped]. by destruct (IHa a' Hw eq_refl) as (-> & -> & ->).
    + rw find_mut_None; [by apply find_None|]. destruct (find_mut w c t) as [c'|]; [|done]. intros [= <-].
      cbn [panes_of containers ungrouped]. by destruct (IHc c' Hw eq_refl) as (-> & -> & ->).
  - destruct (find_mut w l t) as [l'|]; [|done]. intros [= <-]. cbn [panes_of containers ungrouped].
    by destruct (IHl l' Hw eq_refl) as (-> & -> & _).
Qed.

(** A tree with the same panes and containers. *)
Lemma same_skeleton m r' :
  manager_inv m -> panes_of r' = panes_of (root m) -> containers r' = containers (root m) ->
  ungrouped r' = ungrouped (root m) ->
  abs (with_root r' m) = abs m /\ manager_inv (with_root r' m) /\ grows m (with_root r' m) Done.
Proof.
  intros [] Hp Hc Hu. assert (Hids : all_split_ids r' ≡ₚ all_split_ids (root m)) by (apply ids_perm_eq; [by rw Hp | by rw Hc]).
  assert (Hl : leaf_split_ids r' = leaf_split_ids (root m)) by (by rw !leaf_split_ids_panes Hp).
  split_and!; [unfold abs; cbn; by rw Hp | constructor; cbn; rw ?Hids ?Hl ?Hu // | apply grows_same; [done | cbn; by rw Hc | done]].
Qed.

Lemma update_node_keeps m w t :
  (forall k, find (root m) t = Some k -> panes_of (w k) = panes_of k /\ containers (w k) = containers k /\ ungrouped (w k) = ungrouped k) ->
  manager_inv m -> let m' := update_node w t m in abs m' = abs m /\ manager_inv m' /\ grows m m' Done.
Proof.
  intros Hw Hi. unfold update_node. cbn zeta. destruct (find_mut w (root m) t) as [r'|] eqn:E.
  - destruct (find_mut_keeps _ _ _ _ Hw E) as (? & ? & ?). by apply same_skeleton.
  - split_and!; [done | done | by apply grows_same].
Qed.

Lemma set_node_ratio_keeps f k :
  panes_of (set_node_ratio f k) = panes_of k /\ containers (set_node_ratio f k) = containers k
  /\ ungrouped (set_node_ratio f k) = ungrouped k.
Proof. by destruct k. Qed.

Lemma distribute_keeps n :
  let r := distribute_node_evenly n in
  r.1 = count_leaves n /\ panes_of r.2 = panes_of n /\ containers r.2 = containers n /\ ungrouped r.2 = ungrouped n.
Proof.
  induction n as [b i r | d a IHa c IHc r i ff fs | i nm l IHl al]; cbn; [done | |].
  - destruct (distribute_node_evenly a), (distribute_node_evenly c); cbn in *.
    destruct IHa as (-> & -> & -> & ->), IHc as (-> & -> & -> & ->). done.
  - destruct (distribute_node_evenly l); cbn in *. by destruct IHl as (-> & -> & -> & _).
Qed.

(** A write to one pane. *)
Lemma update_pane m t w f :
  manager_inv m -> t ∈ leaf_split_ids (root m) ->
  (forall b r, w (Leaf b t r) = let q := f (t, b, r) in Leaf (pane_buffer q) (pane_id q) (pane_role q)) ->
  (forall q, pane_id (f q) = pane_id q) ->
  let m' := update_node w t m in
  abs m' = spec_panes (on_pane t f (panes_of (root m))) (abs m) /\ manager_inv m' /\ grows m m' Done.
Proof.
  intros [] Ht Hw Hf. destruct (leaf_pane _ _ Ht) as (b & r & Hin). cbn zeta. unfold update_node.
  destruct (find_mut_pane w (root m) t b r) as (n' & -> & Hp & Hc & Hu); [done..|].
  rw Hw in Hp, Hc, Hu. cbn [panes_of containers ungrouped] in Hp, Hc, Hu. rw app_nil_r in Hc.
  assert (Hp' : panes_of n' = on_pane t f (panes_of (root m))).
  { rw Hp on_pane_bind (bind_at (fun q => [f q]) t b r) //; [by apply pane_ids_nodup|]. by destruct (f (t, b, r)) as [[? ?] ?]. }
  assert (Hids : all_split_ids n' ≡ₚ all_split_ids (root m)) by (apply ids_perm_eq; [rw Hp'; by apply on_pane_ids | done]).
  assert (Hl : leaf_split_ids n' = leaf_split_ids (root m)) by (rw !leaf_split_ids_panes Hp'; by apply on_pane_ids).
  split_and!.
  - unfold abs, spec_panes. cbn. by rw Hp'.
  - constructor; cbn; rw ?Hids ?Hl //. by apply Hu.
  - apply grows_same; [done | cbn; intros c; by rw Hc | done].
Qed.

(** ** Splitting *)

(** The manager with the tree [r'] and its new pane focused. *)
Definition grown (m : SplitManager) (r' : SplitNode) : SplitManager :=
  mkManager r' (S (S (next_split_id m))) (S (S (S (next_split_id m)))) (maximized_split m) (labels m) (focus_history m).

Lemma grown_ok m r' b :
  manager_inv m ->
  panes_of r' ≡ₚ (S (S (next_split_id m)), b, None) :: panes_of (root m) ->
  containers r' ≡ₚ (S (next_split_id m)) :: containers (root m) ->
  ungrouped r' = true ->
  spec_add (panes_of r') (abs m) = (abs (grown m r'), Issued (S (S (next_split_id m))))
  /\ manager_inv (grown m r') /\ grows m (grown m r') (Issued (S (S (next_split_id m)))).
Proof.
  intros [] Hp Hc Hu. set (n := next_split_id m) in *.
  assert (Hids : all_split_ids r' ≡ₚ (S n) :: (S (S n)) :: all_split_ids (root m)).
  { rw !all_split_ids_perm Hp Hc. cbn. solve_Permutation. }
  assert (Hl : forall i, i ∈ leaf_split_ids r' <-> i = S (S n) \/ i ∈ leaf_split_ids (root m)).
  { intros i. rw !leaf_split_ids_panes Hp. cbn. by rw elem_of_cons. }
  pose proof (proj1 (Forall_forall _ _) mi_below0) as Hbelow; cbn beta in Hbelow. split_and!; [done | constructor; cbn | ].
  - rw Hids. apply NoDup_cons. split; [|apply NoDup_cons; split; [|done]].
    + rw elem_of_cons. intros [?|?%Hbelow]; lia.
    + intros ?%Hbelow. lia.
  - rw Hids. apply Forall_cons. split; [lia|]. apply Forall_cons. split; [lia|]. apply Forall_forall. intros i ?%Hbelow. lia.
  - done.
  - apply Hl. by left.
  - destruct (maximized_split m) as [z|]; [|done]. cbn in *. apply Hl. by right.
  - done.
  - unfold grows, grown. cbn [next_split_id root]. split_and!; [lia | |].
    + intros c. rw Hc elem_of_cons. intros [->|?]; [right; lia | by left].
    + intros i ->%list_elem_of_singleton. fold n. split; [lia|]. rw Hc elem_of_cons. intros [?|Hin]; [lia|].
      assert (S (S n) < n); [|lia]. apply Hbelow. rw all_split_ids_perm. apply elem_of_app. by left.
Qed.

Lemma subst_pane_perm t ps q l :
  NoDup (pane_id <$> l) -> q ∈ l -> pane_id q = t -> subst_pane t ps l ++ [q] ≡ₚ ps ++ l.
Proof.
  intros Hnd Hin <-. induction l as [|p l IH]; [by apply not_elem_of_nil in Hin|].
  cbn in Hnd. apply NoDup_cons in Hnd as [Hp Hnd]. unfold subst_pane. cbn [mbind list_bind]. fold (subst_pane (pane_id q) ps l).
  apply elem_of_cons in Hin as [<-|Hin].
  - rw decide_True; [done|]. rw subst_pane_fresh; [done|]. solve_Permutation.
  - rw decide_False. { intros E. apply Hp. rw E. by apply list_elem_of_fmap_2. }
    rw -app_assoc IH; [done|done|]. solve_Permutation.
Qed.

Lemma beside_perm t before q new l :
  NoDup (pane_id <$> l) -> q ∈ l -> pane_id q = t -> beside t before new l ≡ₚ new :: l.
Proof.
  intros Hnd Hin Ht. destruct q as [[i b] r]. cbn in Ht. subst i.
  unfold beside. rw (bind_at (fun q => if before then [new; q] else [q; new]) t b r) //.
  apply (Permutation_app_inv_r [(t, b, r)]).
  rw (subst_pane_perm t _ (t, b, r)) //. destruct before; cbn; solve_Permutation.
Qed.

Lemma split_active_refines m d b ratio before : manager_inv m -> refines m (OpSplitActive d b ratio before).
Proof.
  intros Hi. pose proof Hi as []. destruct (leaf_pane _ _ mi_active0) as (b0 & r0 & Hin).
  set (n := next_split_id m). set (new_pane := (S (S n), b, None) : Pane).
  pose proof (pane_ids_nodup _ mi_nodup0) as Hnd.
  pose proof (beside_perm (active_split m) before _ new_pane _ Hnd Hin eq_refl) as Hperm.
  assert (exists r', split_active_positioned d b ratio before m = (inr (S (S n)), grown m r')
    /\ panes_of r' = beside (active_split m) before new_pane (panes_of (root m))
    /\ containers r' ≡ₚ (S n) :: containers (root m) /\ ungrouped r' = true) as (r' & E & Hp & Hc & Hu).
  { unfold split_active_positioned, replace_split_with_split. cbn [allocate_split_id next_split_id root].
    case_decide as Hroot.
    - pose proof (find_pane _ _ _ _ mi_nodup0 Hin) as Hf. assert (root m = Leaf b0 (active_split m) r0) as Er.
      { destruct (root m); cbn in Hf, Hroot; (rw decide_True in Hf; [done|]); congruence. }
      rw Er. exists (if before then split d (leaf b (S (S n))) (Leaf b0 (active_split m) r0) ratio (S n)
                   else split d (Leaf b0 (active_split m) r0) (leaf b (S (S n))) ratio (S n)).
      unfold grown, beside, n. cbn. rw decide_True; [done|].
      destruct before; cbn; split_and!; done.
    - match goal with |- context [find_mut ?w _ _] => destruct (find_mut_pane w (root m) (active_split m) b0 r0) as (n' & -> & Hp & Hc & Hu) end;
        [done..|].
      exists n'. split; [done|]. split_and!.
      + rw Hp. unfold beside. rw (bind_at (fun q => if before then [new_pane; q] else [q; new_pane]) (active_split m) b0 r0) //.
        by destruct before.
      + rw Hc. destruct before; cbn; solve_Permutation.
      + apply Hu; [done|]. by destruct before. }
  exists (grown m r'), (Issued (S (S n))). cbn [step spec_step]. rw E. split; [done|].
  destruct (grown_ok m r' b) as (Hs & ? & ?); [done | by rw Hp | done | done |]. rw Hp in Hs. done.
Qed.

Lemma split_root_refines m d b ratio before : manager_inv m -> refines m (OpSplitRoot d b ratio before).
Proof.
  intros Hi. pose proof Hi as []. set (n := next_split_id m).
  set (r' := let '(first, second) := if before then (leaf b (S (S n)), root m) else (root m, leaf b (S (S n))) in
             split d first second ratio (S n)).
  assert (E : split_root_positioned d b ratio before m = (inr (S (S n)), grown m r')).
  { unfold split_root_positioned, replace_split_with_split. cbn [allocate_split_id next_split_id root].
    rw decide_True; [done|]. unfold r'. by destruct before. }
  exists (grown m r'), (Issued (S (S n))). cbn [step spec_step]. rw E. split; [done|].
  destruct (grown_ok m r' b) as (Hs & ? & ?); [done | | | |].
  - unfold r'. destruct before; cbn; [done|]. fold n. solve_Permutation.
  - unfold r'. destruct before; cbn; [done|]. by rw app_nil_r.
  - unfold r'. destruct before; cbn; by rw mi_plain0.
  - split; [|done]. rw -Hs. f_equal. unfold r'. by destruct before.
Qed.

(** ** Closing *)
Lemma remove_None n t : (t ∉ all_split_ids n) -> remove_child_static n t = inl TargetNotFound.
Proof.
  induction n as [b i r | d a IHa c IHc r i ff fs | i nm l IHl al]; cbn [remove_child_static all_split_ids]; intros Hn; [done | |].
  - apply not_elem_of_cons in Hn as [_ [Ha Hc]%not_elem_of_app].
    rw decide_False; [intros E; apply Ha; rw -E; apply id_in_ids|].
    rw decide_False; [intros E; apply Hc; rw -E; apply id_in_ids|]. by rw IHa // IHc.
  - apply not_elem_of_cons in Hn as [_ Hl]. by rw IHl.
Qed.

Lemma filter_fresh t (l : list Pane) : (t ∉ pane_id <$> l) -> filter (fun q => pane_id q <> t) l = l.
Proof.
  intros H. induction l as [|p l IH]; [done|]. cbn in H. apply not_elem_of_cons in H as [? ?].
  rw filter_cons_True; [congruence|]. by rw IH.
Qed.

(** A subtree named by a pane is that pane. *)
Lemma pane_subtree n t : NoDup (all_split_ids n) -> t ∈ leaf_split_ids n -> id n = t -> exists b r, n = Leaf b t r.
Proof.
  intros Hnd Ht Hi. destruct n as [b i r | d a c r i ff fs | i nm l al]; cbn in Hi; subst; [by eexists _, _ | |];
    apply pane_not_container in Ht; try done; exfalso; apply Ht; cbn; left.
Qed.

(** Removing a pane from a tree of several takes out that pane and a container. *)
Lemma remove_pane n t :
  NoDup (all_split_ids n) -> ungrouped n = true -> t ∈ leaf_split_ids n -> id n <> t ->
  exists n', remove_child_static n t = inr n'
  /\ panes_of n' = filter (fun q => pane_id q <> t) (panes_of n)
  /\ containers n' ⊆+ containers n /\ ungrouped n' = true.
Proof.
  induction n as [b i r | d a IHa c IHc r i ff fs | i nm l IHl al]; cbn [remove_child_static all_split_ids ungrouped leaf_split_ids id panes_of containers];
    intros Hnd Hu Ht Hi; [apply list_elem_of_singleton in Ht; congruence | |done].
  apply NoDup_cons in Hnd as [_ (Ha & Hd & Hc)%NoDup_app]. apply andb_prop in Hu as [Hua Huc].
  rw filter_app. apply elem_of_app in Ht as [Ht|Ht].
  - pose proof Ht as Hin. rw leaf_split_ids_panes in Hin.
    assert (Hta : t ∈ all_split_ids a) by (rw all_split_ids_perm; apply elem_of_app; by right).
    rw (filter_fresh t (panes_of c)); [by apply fresh_panes, Hd|].
    destruct (decide (id a = t)) as [E|E].
    + destruct (pane_subtree a t) as (b & r0 & ->); [done..|]. exists c. cbn [panes_of containers ungrouped id] in *. rw filter_cons_False; [by intros ?|]. rw filter_nil. cbn [app].
      split_and!; [done | done | by apply submseteq_cons | done].
    + rw decide_False. { intros E'. apply (Hd t); [done|]. rw -E'. apply id_in_ids. }
      destruct (IHa Ha Hua Ht E) as (a' & -> & Hp & Hk & Hu). eexists. split; [done|]. cbn [panes_of containers ungrouped].
      rw Hp Hu Huc. split_and!; [done | by apply submseteq_skip, submseteq_app | done].
  - pose proof Ht as Hin. rw leaf_split_ids_panes in Hin.
    assert (Htc : t ∈ all_split_ids c) by (rw all_split_ids_perm; apply elem_of_app; by right).
    assert (Hta : t ∉ all_split_ids a) by (intros ?; by apply (Hd t)).
    rw (filter_fresh t (panes_of a)); [by apply fresh_panes|].
    rw decide_False; [intros E; apply Hta; rw -E; apply id_in_ids|].
    destruct (decide (id c = t)) as [E|E].
    + destruct (pane_subtree c t) as (b & r0 & ->); [done..|]. exists a. cbn [panes_of containers ungrouped id] in *. rw filter_cons_False; [by intros ?|]. rw filter_nil.
      rw !app_nil_r. split_and!; [done | done | by apply submseteq_cons | done].
    + rw remove_None; [done|]. destruct (IHc Hc Huc Ht E) as (c' & -> & Hp & Hk & Hu). eexists. split; [done|]. cbn [panes_of containers ungrouped].
      rw Hp Hu Hua. split_and!; [done | by apply submseteq_skip, submseteq_app | done].
Qed.

(** Taking the role off a lone pane. *)
Lemma clear_root_ok m :
  manager_inv m -> let m' := (clear_root_leaf_role m).2 in
  abs m' = spec_panes (lone_without_role (panes_of (root m))) (abs m) /\ manager_inv m' /\ grows m m' Done.
Proof.
  intros Hi. cbn zeta. unfold clear_root_leaf_role. pose proof Hi as [].
  destruct (root m) as [b i [r|] | d x y r i ff fs | ? ? ? ?] eqn:Er; [| | |done]; cbn [snd panes_of lone_without_role].
  - split_and!; [done | constructor; done | by apply grows_same; [|rw Er|]].
  - split_and!; [unfold abs, spec_panes; cbn; by rw Er | done | by apply grows_same].
  - split_and!; [| done | by apply grows_same]. unfold abs, spec_panes. cbn. rw Er. cbn. f_equal.
    pose proof (panes_of_not_nil x). pose proof (panes_of_not_nil y).
    destruct (panes_of x) as [|[[? ?] ?] [|? ?]]; [done | | by cbn]. by destruct (panes_of y).
Qed.

(** The manager once the pane [t] is out of its tree [r']. *)
Definition closed (m : SplitManager) (t : LeafId) (r' : SplitNode) : SplitManager :=
  mkManager r' (if decide (active_split m = t) then default t (head (leaf_split_ids r')) else active_split m) (next_split_id m)
    (if decide (maximized_split m = Some t) then None else maximized_split m) (delete t (labels m)) (focus_history m).

Lemma closed_ok m t r' :
  manager_inv m -> panes_of r' = filter (fun q => pane_id q <> t) (panes_of (root m)) ->
  containers r' ⊆+ containers (root m) -> ungrouped r' = true ->
  manager_inv (closed m t r') /\ grows m (closed m t r') Done.
Proof.
  intros [] Hp Hc Hu.
  assert (Hids : all_split_ids r' ⊆+ all_split_ids (root m)).
  { rw !all_split_ids_perm Hp. apply submseteq_app; [done|]. apply sublist_submseteq, fmap_sublist, sublist_filter. }
  assert (Hl : forall i, i ∈ leaf_split_ids (root m) -> i <> t -> i ∈ leaf_split_ids r').
  { intros i. rw !leaf_split_ids_panes Hp. intros (q & -> & Hq)%list_elem_of_fmap_1 Hne. apply list_elem_of_fmap_2.
    by apply list_elem_of_filter. }
  apply submseteq_Permutation in Hids as [gone Hids]. rw Hids in mi_nodup0, mi_below0.
  split; [constructor; cbn|].
  - by apply NoDup_app in mi_nodup0 as [? _].
  - by apply Forall_app in mi_below0 as [? _].
  - done.
  - case_decide as E; [|by apply Hl]. rw leaf_split_ids_panes. pose proof (panes_of_not_nil r').
    destruct (panes_of r'); [done|]. left.
  - case_decide as E; [done|]. destruct (maximized_split m) as [z|]; [|done]. cbn in *. apply Hl; [done|congruence].
  - done.
  - apply grows_same; [done | cbn; intros c Hx; by apply (elem_of_submseteq _ _ _ Hx Hc) | done].
Qed.

Lemma close_refines m t : manager_inv m -> (t ∉ containers (root m)) -> refines m (OpClose t).
Proof.
  intros Hi Ht. pose proof Hi as []. unfold refines. cbn [step spec_step]. unfold spec_close, close_split.
  cbn [panes abs]. rw -count_leaves_panes.
  destruct (decide (count_leaves (root m) <= 1)) as [Hone|Hmany].
  { exists m, (Failed CannotCloseLast). split_and!; [done | done | done | by apply grows_same]. }
  assert (Hroot : id (root m) ∈ containers (root m)) by (destruct (root m); cbn in *; [lia | left | left]).
  rw decide_False. { destruct (root m); cbn in *; [lia | | ]; by intros [_ [? ?]]. }
  assert (Hne : id (root m) <> t) by congruence.
  unfold pane_ids, remove_split_node. cbn [panes abs]. destruct (decide (t ∈ pane_id <$> panes_of (root m))) as [Hin|Hin].
  - rw -leaf_split_ids_panes in Hin. destruct (remove_pane (root m) t) as (r' & Hr & Hp & Hc & Hu); [done..|].
    destruct (closed_ok m t r') as [Hk Hg]; [done..|]. destruct (clear_root_ok _ Hk) as (Ha & Hk' & _ & Hg' & _).
    exists (clear_root_leaf_role (closed m t r')).2, Done. split_and!.
    + destruct (leaf_pane _ _ Hin) as (b & r & Hb). pose proof (find_pane _ _ _ _ mi_nodup0 Hb) as Hf. f_equal.
      unfold closed. destruct (decide (maximized_split m = Some t));
        cbn [root with_maximized with_root with_labels active_split labels]; rw Hf (decide_False _ _ Hne) Hr;
        cbn [root with_maximized with_root with_labels active_split labels all_split_ids id foldl].
      all: destruct (decide (active_split m = t)) as [E|E]; [destruct (head (leaf_split_ids r'))|]; unfold with_labels, with_root, with_maximized, with_active; cbn; rw ?E; done.
    + rw Ha. unfold spec_panes, abs, closed. cbn. by rw leaf_split_ids_panes Hp.
    + done.
    + destruct Hg as (? & Hg & _). split_and!; [| |by intros ? ?%not_elem_of_nil].
      * unfold clear_root_leaf_role. cbn. case_match; [case_match|..]; done.
      * intros c Hx. destruct (Hg' c Hx) as [?|?]; [by apply Hg | by right].
  - assert (Hn : t ∉ all_split_ids (root m)) by (rw in_ids_pane //).
    assert (Hz : maximized_split m <> Some t) by (intros E; rw E in mi_zoom0; cbn in mi_zoom0; by rw leaf_split_ids_panes in mi_zoom0).
    rw (decide_False _ _ Hz) (decide_False _ _ Hne) (proj2 (find_None _ _) Hn) (remove_None _ _ Hn).
    exists m, (Failed TargetNotFound). split_and!; [done | done | done | by apply grows_same].
Qed.

(** ** Moving the focus *)

(** The entry after position [pos] of a list without repetitions. *)
Lemma succ_in_at first a l pos :
  l !! pos = Some a -> (forall j, j < pos -> l !! j <> Some a) ->
  succ_in first a l = default first (l !! S pos).
Proof.
  revert l. induction pos as [|pos IH]; intros [|x l]; cbn; intros Ha Hb; try done.
  - injection Ha as ->. rw decide_True; [done|]. by destruct l.
  - rw decide_False; [intros ->; by apply (Hb 0 ltac:(lia))|]. apply IH; [done|]. intros j Hj. apply (Hb (S j)). lia.
Qed.

Lemma cyclic_next_at a l pos :
  NoDup l -> l !! pos = Some a -> Some (cyclic_next a l) = l !! ((pos + 1) mod length l).
Proof.
  intros Hnd Ha. pose proof (lookup_lt_Some _ _ _ Ha) as Hlt. unfold cyclic_next.
  rw (succ_in_at _ a l pos) //. { intros j Hj Hx. pose proof (NoDup_lookup l j pos a Hnd Hx Ha). lia. }
  destruct (decide (S pos = length l)) as [E|E].
  - rw Nat.add_1_r E Nat.Div0.mod_same. rw -E (lookup_ge_None_2 l (S pos)); [lia|]. cbn. destruct l; [done|]. done.
  - rw Nat.add_1_r Nat.mod_small; [lia|]. destruct (l !! S pos) eqn:Es; [done|]. apply lookup_ge_None_1 in Es. lia.
Qed.

(** The entry before [a] is the one after it in the reverse order. *)
Lemma cyclic_prev_at a l pos :
  NoDup l -> l !! pos = Some a ->
  Some (cyclic_next a (reverse l)) = l !! ((if decide (pos = 0) then length l else pos) - 1).
Proof.
  intros Hnd Ha. pose proof (lookup_lt_Some _ _ _ Ha) as Hlt.
  rw (cyclic_next_at a (reverse l) (length l - S pos)); [by rw reverse_Permutation | rw reverse_lookup; [lia|]; replace (length l - S (length l - S pos)) with pos by lia; done |].
  rw length_reverse. case_decide as E.
  - subst pos. replace (length l - 1 + 1) with (length l) by lia. by rw Nat.Div0.mod_same reverse_lookup; [lia|].
  - rw Nat.mod_small; [lia|]. rw reverse_lookup; [lia|]. f_equal. lia.
Qed.

Lemma list_find_active (a : nat) l : a ∈ l -> exists pos, list_find (fun i => i = a) l = Some (pos, a) /\ l !! pos = Some a.
Proof.
  intros Ha. destruct (list_find_elem_of (fun i => i = a) l a Ha eq_refl) as [[pos x] E].
  exists pos. apply list_find_Some in E as Hx. destruct Hx as (Hl & -> & _). done.
Qed.

(** Focusing another pane of the same tree, with every pane shown. *)
Lemma refocus_ok m a :
  manager_inv m -> a ∈ leaf_split_ids (root m) ->
  manager_inv (with_active a (with_maximized None m)) /\ grows m (with_active a (with_maximized None m)) Done.
Proof. intros [] Ha. split; [by constructor | by apply grows_same]. Qed.

Lemma next_refines m : manager_inv m -> refines m OpNext.
Proof.
  intros Hi. pose proof Hi as []. unfold refines. cbn [step spec_step]. unfold next_split, pane_ids.
  cbn [root with_maximized active_split abs panes focused]. rw -leaf_split_ids_panes.
  destruct (list_find_active _ _ mi_active0) as (pos & -> & Hpos).
  rw decide_False. { pose proof (lookup_lt_Some _ _ _ Hpos). lia. }
  pose proof (pane_ids_nodup _ mi_nodup0) as Hnd. rw -leaf_split_ids_panes in Hnd.
  pose proof (cyclic_next_at _ _ _ Hnd Hpos) as E. rw -E. cbn [mbind res_bind].
  eexists _, Done. split; [done|]. split; [done|]. apply refocus_ok; [done|].
  symmetry in E. by apply list_elem_of_lookup_2 in E.
Qed.

Lemma prev_refines m : manager_inv m -> refines m OpPrev.
Proof.
  intros Hi. pose proof Hi as []. unfold refines. cbn [step spec_step]. unfold prev_split, pane_ids.
  cbn [root with_maximized active_split abs panes focused]. rw -leaf_split_ids_panes.
  destruct (list_find_active _ _ mi_active0) as (pos & -> & Hpos). pose proof (lookup_lt_Some _ _ _ Hpos) as Hlt.
  rw usub_Ok; [case_decide; lia|]. cbn [mbind res_bind].
  pose proof (pane_ids_nodup _ mi_nodup0) as Hnd. rw -leaf_split_ids_panes in Hnd.
  pose proof (cyclic_prev_at _ _ _ Hnd Hpos) as E. rw -E. cbn [mbind res_bind].
  eexists _, Done. split; [done|]. split; [done|]. apply refocus_ok; [done|].
  symmetry in E. by apply list_elem_of_lookup_2 in E.
Qed.

(** ** The other operations *)
Lemma find_ungrouped n t k : find n t = Some k -> ungrouped n = true -> ungrouped k = true.
Proof.
  revert k. induction n as [b i r | d a IHa c IHc r i ff fs | i nm l IHl al]; intros k; cbn [find ungrouped]; case_decide; intros E Hu; simplify_eq; try done.
  apply andb_prop in Hu as [? ?]. destruct (find a t); simplify_eq; eauto.
Qed.

Lemma find_container n c :
  NoDup (all_split_ids n) -> ungrouped n = true -> c ∈ containers n ->
  exists d x y r i ff fs, find n c = Some (Split d x y r i ff fs).
Proof.
  intros Hnd Hu Hc. assert (is_Some (find n c)) as [k E].
  { apply find_Some_ids. rw all_split_ids_perm. apply elem_of_app. by left. }
  destruct k as [b i r | d x y r i ff fs | ? ? ? ?].
  - apply find_leaf_pane in E as [Hin ->]. exfalso. apply (pane_not_container n c); [done | | done].
    rw leaf_split_ids_panes. by apply (list_elem_of_fmap_2 pane_id _ (c, b, r)).
  - by exists d, x, y, r, i, ff, fs.
  - by apply find_ungrouped in E.
Qed.


Lemma find_role_panes n target :
  find_role_in n target = pane_id <$> head (filter (fun q => pane_role q = Some target) (panes_of n)).
Proof.
  induction n as [b i [r|] | d a IHa c IHc r i ff fs | i nm l IHl al]; cbn [find_role_in panes_of].
  - destruct (decide (r = target)) as [->|E]; [by rw filter_cons_True|]. rw filter_cons_False; [cbn; congruence|done].
  - by rw filter_cons_False.
  - rw filter_app IHa IHc. by destruct (filter _ (panes_of a)).
  - done.
Qed.

Lemma set_leaf_role_refines m t r : manager_inv m -> refines m (OpSetLeafRole t r).
Proof.
  intros Hi. unfold refines. cbn [step spec_step panes abs]. unfold set_leaf_role.
  exists (update_node (set_role r) t m), Done. split; [done|].
  destruct (decide (t ∈ leaf_split_ids (root m))) as [Hin|Hn].
  - destruct (update_pane m t (set_role r) (fun q => (pane_id q, pane_buffer q, r))) as (-> & ? & ?); done.
  - rw on_pane_fresh; [by rw -leaf_split_ids_panes|].
    destruct (update_node_keeps m (set_role r) t) as (-> & ? & ?); [|done|done].
    intros k Hk. destruct k as [b i r0 | |]; [|done..]. exfalso. apply find_leaf_pane in Hk as [Hk ->]. apply Hn.
    rw leaf_split_ids_panes. by apply (list_elem_of_fmap_2 pane_id _ (t, b, r0)).
Qed.

Lemma clear_role_refines m target : manager_inv m -> refines m (OpClearRole target).
Proof.
  intros Hi. unfold refines. cbn [step spec_step panes abs]. unfold clear_role, find_leaf_by_role. rw find_role_panes.
  destruct (head (filter _ (panes_of (root m)))) as [q|] eqn:E; cbn [fmap option_fmap option_map].
  - destruct (set_leaf_role_refines m (pane_id q) None Hi) as (m' & o & Es & Ea & Hk & Hg). cbn in Es. injection Es as <- <-.
    eexists _, _. split; [done|]. split; [|done]. f_equal. exact (f_equal fst Ea).
  - eexists _, _. split; [done|]. split; [done|]. split; [done | by apply grows_same].
Qed.

Lemma set_buffer_refines m t b :
  manager_inv m -> t ∈ leaf_split_ids (root m) ->
  exists k, find (root m) t = Some k /\ is_Some (buffer_id k)
  /\ let m' := update_node (set_leaf_buffer b) t m in
     abs m' = spec_panes (on_pane t (fun q => (pane_id q, b, pane_role q)) (panes_of (root m))) (abs m)
     /\ manager_inv m' /\ grows m m' Done.
Proof.
  intros Hi Ht. destruct (leaf_pane _ _ Ht) as (b0 & r & Hin). exists (Leaf b0 t r). split_and!.
  - apply find_pane; [by destruct Hi | done].
  - by eexists.
  - by apply (update_pane m t (set_leaf_buffer b) (fun q => (pane_id q, b, pane_role q))).
Qed.

(** ** Every operation *)
Definition issued_ok (issued : list SplitId) (m : SplitManager) : Prop :=
  forall i, i ∈ issued -> i < next_split_id m /\ (i ∉ containers (root m)).

Lemma zoom_refines m t m' o :
  manager_inv m -> t ∈ leaf_split_ids (root m) -> m' = with_maximized (Some t) m -> issued_by o = [] ->
  spec_zoom t (abs m) = abs m' /\ manager_inv m' /\ grows m m' o.
Proof. intros [] Ht -> Ho. split_and!; [done | by constructor | by apply grows_same]. Qed.

Lemma unzoom_refines m o :
  manager_inv m -> issued_by o = [] ->
  spec_unzoom (abs m) = abs (with_maximized None m) /\ manager_inv (with_maximized None m) /\ grows m (with_maximized None m) o.
Proof. intros [] Ho. split_and!; [done | by constructor | by apply grows_same]. Qed.

Lemma unchanged_refines m o : manager_inv m -> issued_by o = [] -> manager_inv m /\ grows m m o.
Proof. intros. split; [done | by apply grows_same]. Qed.

Lemma allocate_refines m : manager_inv m -> refines m OpAllocate.
Proof.
  intros []. eexists _, _. split; [done|]. split; [done|]. split.
  - constructor; try done. cbn. apply Forall_forall. intros i Hx. pose proof (proj1 (Forall_forall _ _) mi_below0 i Hx) as H. cbn in H. lia.
  - split_and!; cbn; [lia | by left |]. intros i ->%list_elem_of_singleton. split; [lia|]. intros Hin.
    pose proof (proj1 (Forall_forall _ _) mi_below0 (next_split_id m)) as Hx. cbn in Hx. apply (Nat.lt_irrefl (next_split_id m)), Hx.
    rw all_split_ids_perm. apply elem_of_app. by left.
Qed.

Lemma set_active_refines m t : manager_inv m -> (t ∉ containers (root m)) -> refines m (OpSetActive t).
Proof.
  intros Hi Ht. unfold refines. cbn [step spec_step]. unfold set_active_split, pane_ids. cbn [panes abs].
  pose proof (find_is_pane _ _ Ht) as Hp. destruct (find (root m) t) as [k|] eqn:E.
  - rw decide_True; [apply Hp; by eexists|]. eexists _, _. split; [done|]. split; [done|]. pose proof Hi as []. split; [|by apply grows_same].
    constructor; try done; cbn; [rw leaf_split_ids_panes; apply Hp; by eexists|]. destruct mi_recent0. apply push_recent_ok; [unfold FOCUS_HISTORY_CAP; lia | done..].
  - rw decide_False; [intros Hx; apply Hp in Hx; by destruct Hx|]. eexists _, _. split; [done|]. split; [done|]. by apply unchanged_refines.
Qed.

Lemma maximize_refines m t o :
  manager_inv m -> (t ∉ containers (root m)) -> issued_by o = [] -> maximized_split m = None ->
  exists m' o', spec_zoom_on t (abs m) o = (abs m', o') /\ manager_inv m' /\ grows m m' o'
  /\ (m', o') = (if decide (count_leaves (root m) <= 1) then (m, Failed CannotMaximizeOnly)
                 else match find (root m) t with None => (m, Failed MaximizeNotFound) | Some _ => (with_maximized (Some t) m, o) end).
Proof.
  intros Hi Ht Ho Hz. unfold spec_zoom_on, pane_ids. cbn [panes zoomed abs]. rw Hz -count_leaves_panes. case_decide.
  - exists m, (Failed CannotMaximizeOnly). split; [done|]. split; [done|]. split; [by apply grows_same | done].
  - pose proof (find_is_pane _ _ Ht) as Hp. destruct (find (root m) t) as [k|] eqn:E.
    + rw decide_True; [apply Hp; by eexists|]. exists (with_maximized (Some t) m), o.
      destruct (zoom_refines m t _ o Hi ltac:(rw leaf_split_ids_panes; apply Hp; by eexists) eq_refl Ho) as (-> & ? & ?). done.
    + rw decide_False; [intros Hx; apply Hp in Hx; by destruct Hx|]. exists m, (Failed MaximizeNotFound).
      split; [done|]. split; [done|]. split; [by apply grows_same | done].
Qed.

Lemma active_not_container m : manager_inv m -> active_split m ∉ containers (root m).
Proof. intros []. by apply pane_not_container. Qed.

Lemma active_found m : manager_inv m -> is_Some (find (root m) (active_split m)).
Proof. intros Hi. apply find_is_pane; [by apply active_not_container|]. rw -leaf_split_ids_panes. by destruct Hi. Qed.

Lemma ratio_step m c f :
  manager_inv m -> let m' := update_node (set_node_ratio f) c m in abs m' = abs m /\ manager_inv m' /\ grows m m' Done.
Proof. intros Hi. apply update_node_keeps; [|done]. intros k _. apply set_node_ratio_keeps. Qed.

Lemma maximize_split_refines m : manager_inv m -> refines m OpMaximize.
Proof.
  intros Hi. unfold refines. cbn [step spec_step focused abs]. unfold maximize_split.
  destruct (maximized_split m) as [z|] eqn:Hz.
  - unfold spec_zoom_on. cbn [panes zoomed abs]. rw Hz -count_leaves_panes.
    case_decide; eexists _, _; (split; [done|]); (split; [done|]); by apply unchanged_refines.
  - destruct (maximize_refines m (active_split m) Done) as (m' & o & Es & Hm & Hg & E); [done | by apply active_not_container | done..|].
    destruct (active_found m Hi) as [k Ek]. rw Ek in E.
    exists m', o. split_and!; [|done..]. rw E. by case_decide.
Qed.

(** [toggle_maximize] and [toggle_maximize_for]. *)
Lemma toggle_refines m t (r : (split_error + bool) * SplitManager) :
  manager_inv m -> (t ∉ containers (root m)) ->
  r = (if is_maximized m then then_ok false (unmaximize_split m)
       else if decide (count_leaves (root m) <= 1) then (inl CannotMaximizeOnly, m)
       else match find (root m) t with None => (inl MaximizeNotFound, m) | Some _ => (inr true, with_maximized (Some t) m) end) ->
  exists m' o, Ok (out_bool r) = Ok (m', o)
  /\ match zoomed (abs m) with Some _ => (spec_unzoom (abs m), Answer false) | None => spec_zoom_on t (abs m) (Answer true) end = (abs m', o)
  /\ manager_inv m' /\ grows m m' o.
Proof.
  intros Hi Ht ->. unfold is_maximized, unmaximize_split. cbn [zoomed abs]. destruct (maximized_split m) as [z|] eqn:Hz.
  - rw bool_decide_eq_true_2; [by eexists|]. destruct (unzoom_refines m (Answer false) Hi eq_refl) as (E & ? & ?).
    eexists _, _. split; [done|]. split; [|done]. by rw -E.
  - rw bool_decide_eq_false_2; [by intros [? ?]|].
    destruct (maximize_refines m t (Answer true)) as (m' & o & Es & Hm & Hg & E); [done..|].
   
    exists m', o. split_and!; [|done..]. rw E. case_decide; [done|]. by destruct (find (root m) t).
Qed.

Lemma clear_root_refines m : manager_inv m -> refines m OpClearRootLeafRole.
Proof.
  intros Hi. unfold refines. cbn [step spec_step panes abs]. destruct (clear_root_ok m Hi) as (Ha & Hm & Hn & Hg & _).
  pose proof Hi as []. unfold clear_root_leaf_role in *.
  destruct (root m) as [b i [r|] | d x y r i ff fs | ? ? ? ?] eqn:Er; [| | |done]; cbn [panes_of].
  - eexists _, _. split; [done|]. cbn [snd] in Ha, Hm. split; [by rw Ha|]. split; [done|]. by apply grows_same; [|rw Er|].
  - eexists _, _. split; [done|]. split; [done|]. by apply unchanged_refines.
  - eexists _, _. split; [done|]. split; [|by apply unchanged_refines].
    pose proof (panes_of_not_nil x). pose proof (panes_of_not_nil y).
    destruct (panes_of x) as [|[[? ?] [?|]] [|? ?]]; try done. by destruct (panes_of y).
Qed.

(** Every operation whose identifiers are of their kind does not panic, does what the contract
    says and keeps the invariant. *)
Lemma step_refines m issued op :
  manager_inv m -> issued_ok issued m -> op_ok issued m op = true -> refines m op.
Proof.
  intros Hi Hs Hok. destruct op; cbn [op_ok] in Hok.
  - by apply allocate_refines.
  - apply bool_decide_eq_true_1 in Hok. by apply set_active_refines, Hs.
  - unfold refines. cbn [step spec_step]. unfold set_active_buffer_id.
    destruct (set_buffer_refines m (active_split m) new_buffer_id) as (k & E & [? Hk] & Ha & Hm & Hg); [done | by destruct Hi|].
    rw E. destruct k; [|done..]. eexists _, _. split; [done|]. split; [by rw Ha | by split].
  - apply bool_decide_eq_true_1 in Hok. unfold refines. cbn [step spec_step]. unfold set_split_buffer.
    destruct (set_buffer_refines m leaf_id new_buffer_id) as (k & E & [? Hk] & Ha & Hm & Hg); [done..|].
    rw E. destruct k; [|done..]. eexists _, _. split; [done|]. split; [by rw Ha | by split].
  - by apply split_active_refines.
  - by apply split_root_refines.
  - apply bool_decide_eq_true_1 in Hok. by apply close_refines, Hs.
  - apply bool_decide_eq_true_1 in Hok. unfold refines. cbn [step spec_step]. unfold adjust_ratio.
    pose proof Hi as []. destruct (find_container _ _ mi_nodup0 mi_plain0 Hok) as (? & ? & ? & ? & ? & ? & ? & ->).
    destruct (ratio_step m container_id (fun ratio => f32_clamp_unit (f32_add ratio delta)) Hi) as (Ha & Hm & Hg).
    eexists _, _. split; [done|]. split; [by rw Ha | by split].
  - unfold refines. cbn [step spec_step]. unfold set_ratio.
    destruct (ratio_step m container_id (fun _ => f32_clamp_unit new_ratio) Hi) as (Ha & Hm & Hg).
    destruct (find (root m) container_id) as [[]|]; eexists _, _; (split; [done|]); cbn [snd]; rw ?Ha; (split; [done|]);
      by apply unchanged_refines || split.
  - unfold refines. cbn [step spec_step]. unfold distribute_splits_evenly.
    destruct (distribute_keeps (root m)) as (_ & Hp & Hc & Hu). destruct (same_skeleton m _ Hi Hp Hc Hu) as (Ha & Hm & Hg).
    eexists _, _. split; [done|]. split; [by rw Ha | by split].
  - by apply next_refines.
  - by apply prev_refines.
  - by apply maximize_split_refines.
  - unfold refines. cbn [step spec_step zoomed abs]. unfold unmaximize_split. destruct (maximized_split m) eqn:Hz.
    + destruct (unzoom_refines m Done Hi eq_refl) as (E & ? & ?). eexists _, _. split; [done|]. split; [|done]. by rw -E /abs Hz.
    + eexists _, _. split; [done|]. split; [by rw /abs Hz|]. by apply unchanged_refines.
  - apply (toggle_refines m (active_split m)); [done | by apply active_not_container|].
    unfold toggle_maximize, maximize_split, is_maximized. destruct (active_found m Hi) as [k ->].
    destruct (maximized_split m); [done|]. cbn. by case_decide.
  - apply bool_decide_eq_true_1 in Hok. apply (toggle_refines m target); [done | by apply Hs | done].
  - eexists _, _. split; [done|]. split; [done|]. pose proof Hi as []. split; [by constructor | by apply grows_same].
  - eexists _, _. split; [done|]. split; [done|]. pose proof Hi as []. split; [by constructor | by apply grows_same].
  - by apply set_leaf_role_refines.
  - by apply clear_role_refines.
  - by apply clear_root_refines.
Qed.

(** ** Queries *)
Definition spec_visible (p : Panes) : list (LeafId * BufferId) :=
  (fun q => (pane_id q, pane_buffer q))
  <$> match zoomed p with
      | Some z => filter (fun q => pane_id q = z) (panes p)
      | None => panes p
      end.

Definition spec_buffer (t : LeafId) (p : Panes) : option BufferId :=
  pane_buffer <$> head (filter (fun q => pane_id q = t) (panes p)).

Lemma filter_pane t b r (l : list Pane) :
  NoDup (pane_id <$> l) -> (t, b, r) ∈ l -> filter (fun q => pane_id q = t) l = [(t, b, r)].
Proof.
  intros Hnd Hin. induction l as [|p l IH]; [by apply not_elem_of_nil in Hin|]. cbn in Hnd. apply NoDup_cons in Hnd as [Hp Hnd].
  apply elem_of_cons in Hin as [<-|Hin].
  - rw filter_cons_True; [done|]. f_equal. destruct (filter _ l) as [|q k] eqn:E; [done|]. exfalso. apply Hp.
    assert (q ∈ filter (fun q => pane_id q = t) l) as [Hq ?]%list_elem_of_filter by (rw E; left).
    change (t ∈ pane_id <$> l). rw -Hq. by apply (list_elem_of_fmap_2 pane_id _ q).
  - rw filter_cons_False; [|by apply IH]. intros E. apply Hp. rw E. by apply (list_elem_of_fmap_2 pane_id _ (t, b, r)).
Qed.

Lemma get_buffer_panes m t :
  manager_inv m -> t ∈ leaf_split_ids (root m) -> is_Some (get_buffer_id m t) /\ get_buffer_id m t = spec_buffer t (abs m).
Proof.
  intros Hi Ht. destruct (leaf_pane _ _ Ht) as (b & r & Hin). pose proof Hi as [].
  unfold get_buffer_id, spec_buffer. cbn [panes abs].
  rw (find_pane _ _ _ _ mi_nodup0 Hin) (filter_pane _ _ _ _ (pane_ids_nodup _ mi_nodup0) Hin). split; [by eexists | done].
Qed.

Lemma visible_panes m : manager_inv m -> manager_visible_leaves m = spec_visible (abs m).
Proof.
  intros Hi. pose proof Hi as []. unfold manager_visible_leaves, spec_visible. cbn [panes zoomed abs]. rw visible_leaves_panes.
  destruct (maximized_split m) as [z|]; [|done]. cbn in mi_zoom0. destruct (leaf_pane _ _ mi_zoom0) as (b & r & Hin).
  by rw (find_pane _ _ _ _ mi_nodup0 Hin) (filter_pane _ _ _ _ (pane_ids_nodup _ mi_nodup0) Hin).
Qed.

Lemma splits_for_buffer_panes m b :
  splits_for_buffer m b = pane_id <$> filter (fun q => pane_buffer q = b) (panes_of (root m)).
Proof.
  unfold splits_for_buffer. rw visible_leaves_panes. induction (panes_of (root m)) as [|q l IH]; [done|]. cbn [fmap list_fmap].
  rw !filter_cons. cbn [snd]. case_decide; cbn [fmap list_fmap]; by rw -IH.
Qed.

(** The answer of [set_ratio] is whether the identifier is that of a split. *)
Lemma set_ratio_answer m c r : manager_inv m -> (set_ratio c r m).1 = true <-> c ∈ containers (root m).
Proof.
  intros []. unfold set_ratio. split.
  - destruct (find (root m) c) as [k|] eqn:E; [|done]. destruct k; [done | | done]. intros _. by apply (find_not_leaf _ _ _ E).
  - intros Hc. by destruct (find_container _ _ mi_nodup0 mi_plain0 Hc) as (? & ? & ? & ? & ? & ? & ? & ->).
Qed.

(** ** Runs *)
Lemma new_inv b : manager_inv (new b).
Proof.
  constructor; cbn; try done; [apply NoDup_singleton | by apply Forall_singleton; lia | left |].
  split; [apply NoDup_singleton | unfold FOCUS_HISTORY_CAP; lia].
Qed.

Lemma run_refines ops m issued :
  manager_inv m -> issued_ok issued m -> legal issued m ops = true ->
  exists m' outs, run m ops = Ok (m', outs) /\ spec_run (abs m) ops = (abs m', outs) /\ manager_inv m'.
Proof.
  revert m issued. induction ops as [|op ops IH]; intros m issued Hi Hs Hl; [by exists m, []|].
  cbn [legal] in Hl. apply andb_prop in Hl as [Hok Hl].
  destruct (step_refines m issued op Hi Hs Hok) as (m1 & o & E & Ea & Hi1 & Hn & Hc & Hnew). rw E in Hl.
  assert (Hs1 : issued_ok (issued_by o ++ issued) m1).
  { intros i [Hx|Hx]%elem_of_app; [destruct (Hnew i Hx); split; [lia|done]|]. destruct (Hs i Hx). split; [lia|].
    intros [?|?]%Hc; [done|lia]. }
  destruct (IH m1 _ Hi1 Hs1 Hl) as (m' & outs & Er & Es & Hi'). exists m', (o :: outs).
  cbn [run spec_run]. rw E. cbn [mbind res_bind fst snd]. rw Er Ea. cbn [mbind res_bind fst snd]. by rw Es.
Qed.

(** C19: the tree of splits implements a list of panes.  Start a manager with one buffer and run
    any sequence of its operations whose pane identifiers were handed out by it (with
    [set_split_buffer] called on a pane that is there and [adjust_ratio] on a container that
    is): no operation panics, each gives the answer of the list ([spec_step]: a split puts the
    new pane beside the focused one or at an end and focuses it, a close takes one pane out and
    focuses the first one left if it had the focus, the focus moves cyclically, ...), errors
    included, and the panes, the focused and the maximized one and the labels are those of the
    list.  At the end identifiers are distinct, the focused pane is a pane of the tree with a
    buffer, a maximized pane is a pane of the tree, what is visible is the maximized pane or
    every pane, and the focus history holds at most 50 panes, each once.  Which panes the
    history holds is not part of the contract, nor is that the focused pane is visible while
    another one is maximized. *)
Theorem split_manager_refines b ops :
  legal [0] (new b) ops = true ->
  exists m outs, run (new b) ops = Ok (m, outs)
  /\ spec_run (mkPanes [(0, b, None)] 0 1 None ∅) ops = (abs m, outs)
  /\ manager_inv m
  /\ manager_visible_leaves m = spec_visible (abs m)
  /\ is_Some (active_buffer_id m) /\ active_buffer_id m = spec_buffer (active_split m) (abs m).
Proof.
  intros Hl. destruct (run_refines ops (new b) [0]) as (m & outs & Er & Es & Hi); [apply new_inv | | done |].
  { intros i ->%list_elem_of_singleton. split; [cbn; lia | apply not_elem_of_nil]. }
  exists m, outs. split_and!; [done | done | done | by apply visible_panes |..]; by apply (get_buffer_panes m (active_split m)); [|destruct Hi].
Qed.

Lemma split_manager_refines_witness :
  let half := f32_div (f32_of 1) (f32_of 2) in
  let ops := [OpSplitActive Vertical 7 half false; OpSplitRoot Horizontal 8 half true; OpPrev; OpMaximize;
              OpSetActive 6; OpClose 3; OpClose 3; OpAdjustRatio 5 half; OpToggleMaximize; OpClose 6; OpClose 0] in
  legal [0] (new 1) ops = true
  /\ exists m outs, run (new 1) ops = Ok (m, outs)
     /\ outs = [Issued 3; Issued 6; Done; Done; Answer true; Done; Failed TargetNotFound; Done; Answer true; Done; Failed CannotCloseLast]
     /\ panes (abs m) = [(0, 1, None)] /\ manager_inv m.
Proof.
  intros half ops. split; [vm_compute; reflexivity|].
  destruct (split_manager_refines 1 ops) as (m & outs & E & _ & Hi & _); [vm_compute; reflexivity|].
  exists m, outs. split; [exact E|]. vm_compute in E. injection E as <- <-. split; [reflexivity|]. split; [reflexivity | exact Hi].
Defined.

(** ** Two remarks *)

(** Splitting while a pane is maximized focuses a pane that is not shown. *)
Lemma split_while_maximized_hides_focus :
  exists m, run (new 0) [OpSplitActive Vertical 1 (f32_of 0) false; OpMaximize; OpSplitActive Vertical 2 (f32_of 0) false]
            = Ok (m, [Issued 3; Done; Issued 6])
  /\ active_split m = 6 /\ manager_visible_leaves m = [(3, 1)].
Proof. eexists. split; [vm_compute; reflexivity|]. split; reflexivity. Qed.

(** A pane that took the focus by a split is not in the focus history. *)
Lemma split_focus_not_recorded :
  exists m, run (new 0) [OpSplitActive Vertical 1 (f32_of 0) false] = Ok (m, [Issued 3])
  /\ active_split m = 3 /\ last_focused_where (fun _ => true) m = Some 0.
Proof. eexists. split; [vm_compute; reflexivity|]. split; reflexivity. Qed.
