(* ===== verification/SplitView.v ===== *)
(** * The tabs of a pane

    Models [Shown] and [SplitViewState] of crates/fresh-editor/src/view/split.rs: which tab a
    pane shows, the view states it keeps for its buffers, its tab bar and the order in which
    its tabs were focused.

    The operations store and return view states of buffers and look at nothing of them but
    the size of their viewport; [V] is the type of these states, [view_new] makes one of a
    size and [view_size] gives the size of one.  The accessors that return a mutable reference
    take what the caller does through it ([write]). *)
From stdpp Require Import base numbers list option gmap.
From Stdlib Require Import ssreflect Lia.
From S2P Require Import Prelude SplitTree SplitManager.

Inductive TabTarget : Type :=
| TabBuffer (b : BufferId)
| TabGroup (l : LeafId).
#[export] Instance TabTarget_eq_dec : EqDecision TabTarget.
Proof. solve_decision. Defined.

Definition as_buffer (t : TabTarget) : option BufferId :=
  match t with TabBuffer b => Some b | TabGroup _ => None end.

Inductive Shown : Type :=
| ShownBuffer (b : BufferId)
| ShownGroup (group panel : LeafId) (behind : BufferId).

Definition shown_tab (s : Shown) : BufferId := match s with ShownBuffer b => b | ShownGroup _ _ b => b end.
Definition shown_on_screen (s : Shown) : option BufferId := match s with ShownBuffer b => Some b | ShownGroup _ _ _ => None end.
Definition shown_target (s : Shown) : TabTarget := match s with ShownBuffer b => TabBuffer b | ShownGroup g _ _ => TabGroup g end.

Section view.
Context {V : Type} (view_new : Z -> Z -> V) (view_size : V -> Z * Z).

Record SplitViewState : Type := mkView {
  shown : Shown;
  keyed_states : gmap BufferId V;
  open_buffers : list TabTarget;
  tab_history : list TabTarget;
  sync_group : option Z;
  composite_view : option BufferId;
  suppress_chrome : bool;
  hide_tilde : bool;
}.

Definition with_shown (s : Shown) (v : SplitViewState) : SplitViewState :=
  mkView s (keyed_states v) (open_buffers v) (tab_history v) (sync_group v) (composite_view v) (suppress_chrome v) (hide_tilde v).
Definition with_states (k : gmap BufferId V) (v : SplitViewState) : SplitViewState :=
  mkView (shown v) k (open_buffers v) (tab_history v) (sync_group v) (composite_view v) (suppress_chrome v) (hide_tilde v).
Definition with_open (o : list TabTarget) (v : SplitViewState) : SplitViewState :=
  mkView (shown v) (keyed_states v) o (tab_history v) (sync_group v) (composite_view v) (suppress_chrome v) (hide_tilde v).
Definition with_history (h : list TabTarget) (v : SplitViewState) : SplitViewState :=
  mkView (shown v) (keyed_states v) (open_buffers v) h (sync_group v) (composite_view v) (suppress_chrome v) (hide_tilde v).

Definition with_buffer (width height : Z) (buffer_id : BufferId) : SplitViewState :=
  mkView (ShownBuffer buffer_id) {[ buffer_id := view_new width height ]} [TabBuffer buffer_id] [] None None false false.

(** ** What is shown *)
Definition shown_buffer (v : SplitViewState) : option BufferId := shown_on_screen (shown v).
Definition buffer_tab (v : SplitViewState) : BufferId := shown_tab (shown v).
Definition shown_group (v : SplitViewState) : option (LeafId * LeafId) :=
  match shown v with ShownGroup group panel _ => Some (group, panel) | ShownBuffer _ => None end.
Definition shown_group_tab (v : SplitViewState) : option LeafId := fst <$> shown_group v.
Definition shown_state (v : SplitViewState) : option V := b ← shown_buffer v; keyed_states v !! b.
Definition active_target (v : SplitViewState) : TabTarget := shown_target (shown v).

Definition buffer_tab_state (v : SplitViewState) : res V :=
  match keyed_states v !! buffer_tab v with Some s => Ok s | None => Panic end.

Definition shown_state_mut (write : V -> V) (v : SplitViewState) : SplitViewState :=
  match shown_buffer v with
  | Some b => with_states (alter write b (keyed_states v)) v
  | None => v
  end.

Definition buffer_tab_state_mut (write : V -> V) (v : SplitViewState) : res SplitViewState :=
  s ← buffer_tab_state v;
  Ok (with_states (<[buffer_tab v := write s]> (keyed_states v)) v).

(** ** View states *)
Definition buffer_state_mut (buffer_id : BufferId) (write : V -> V) (v : SplitViewState) : SplitViewState :=
  with_states (alter write buffer_id (keyed_states v)) v.

Definition buffer_states_mut (write : BufferId -> V -> V) (v : SplitViewState) : SplitViewState :=
  with_states (map_imap (fun b s => Some (write b s)) (keyed_states v)) v.

Definition has_buffer_state (buffer_id : BufferId) (v : SplitViewState) : bool :=
  bool_decide (is_Some (keyed_states v !! buffer_id)).

Definition insert_buffer_state (buffer_id : BufferId) (state : V) (v : SplitViewState) : SplitViewState :=
  with_states (<[buffer_id := state]> (keyed_states v)) v.

Definition take_buffer_state (buffer_id : BufferId) (v : SplitViewState) : option V * SplitViewState :=
  if decide (buffer_id = buffer_tab v) then (None, v)
  else (keyed_states v !! buffer_id, with_states (delete buffer_id (keyed_states v)) v).

Definition retain_buffer_states (keep : BufferId -> bool) (v : SplitViewState) : SplitViewState :=
  let tab := buffer_tab v in
  with_states (filter (fun e => e.1 = tab \/ keep e.1 = true) (keyed_states v)) v.

Definition ensure_buffer_state (buffer_id : BufferId) (write : V -> V) (v : SplitViewState) : res SplitViewState :=
  tab ← buffer_tab_state v;
  let '(width, height) := view_size tab in
  let state := default (view_new width height) (keyed_states v !! buffer_id) in
  Ok (with_states (<[buffer_id := write state]> (keyed_states v)) v).

(** ** Changing what is shown *)
Definition set_buffer_tab (new_buffer_id : BufferId) (v : SplitViewState) : res SplitViewState :=
  if decide (new_buffer_id = buffer_tab v) then Ok v
  else
    v ← ensure_buffer_state new_buffer_id (fun s => s) v;
    Ok (with_shown (match shown v with
                    | ShownBuffer _ => ShownBuffer new_buffer_id
                    | ShownGroup group panel _ => ShownGroup group panel new_buffer_id
                    end) v).

Definition show_buffer (buffer_id : BufferId) (v : SplitViewState) : res SplitViewState :=
  v ← set_buffer_tab buffer_id v;
  Ok (with_shown (ShownBuffer buffer_id) v).

Definition show_group (group panel : LeafId) (v : SplitViewState) : SplitViewState :=
  with_shown (ShownGroup group panel (buffer_tab v)) v.

Definition focus_group_panel (panel : LeafId) (v : SplitViewState) : SplitViewState :=
  match shown v with
  | ShownGroup group _ behind => with_shown (ShownGroup group panel behind) v
  | ShownBuffer _ => v
  end.

Definition leave_group (group : LeafId) (v : SplitViewState) : SplitViewState :=
  match shown v with
  | ShownGroup g _ behind => if decide (g = group) then with_shown (ShownBuffer behind) v else v
  | ShownBuffer _ => v
  end.

(** ** The tab bar *)
Definition has_buffer (buffer_id : BufferId) (v : SplitViewState) : bool := bool_decide (TabBuffer buffer_id ∈ open_buffers v).
Definition has_group (leaf_id : LeafId) (v : SplitViewState) : bool := bool_decide (TabGroup leaf_id ∈ open_buffers v).

Definition add_buffer (buffer_id : BufferId) (v : SplitViewState) : SplitViewState :=
  if negb (has_buffer buffer_id v) then with_open (open_buffers v ++ [TabBuffer buffer_id]) v else v.

Definition add_group (leaf_id : LeafId) (v : SplitViewState) : SplitViewState :=
  if negb (has_group leaf_id v) then with_open (open_buffers v ++ [TabGroup leaf_id]) v else v.

Definition remove_from_history (buffer_id : BufferId) (v : SplitViewState) : SplitViewState :=
  with_history (filter (fun t => t <> TabBuffer buffer_id) (tab_history v)) v.

Definition remove_group_from_history (leaf_id : LeafId) (v : SplitViewState) : SplitViewState :=
  with_history (filter (fun t => t <> TabGroup leaf_id) (tab_history v)) v.

Definition remove_buffer (buffer_id : BufferId) (v : SplitViewState) : SplitViewState :=
  let v := with_open (filter (fun t => t <> TabBuffer buffer_id) (open_buffers v)) v in
  let v := remove_from_history buffer_id v in
  (take_buffer_state buffer_id v).2.

Definition remove_group (leaf_id : LeafId) (v : SplitViewState) : SplitViewState :=
  let v := with_open (filter (fun t => t <> TabGroup leaf_id) (open_buffers v)) v in
  leave_group leaf_id v.

Definition buffer_tab_ids (v : SplitViewState) : list BufferId := omap as_buffer (open_buffers v).

Definition push_focus (target : TabTarget) (v : SplitViewState) : SplitViewState :=
  with_history (push_recent 50 target (tab_history v)) v.

Definition previous_tab (v : SplitViewState) : option TabTarget := last (tab_history v).

(** ** Joins with the tree *)
Definition pane_groups (m : SplitManager) (view_states : gmap LeafId SplitViewState) (grouped_subtrees : gmap LeafId SplitNode) : gmap LeafId SplitNode :=
  foldl (fun groups leaf => <[leaf.1 := leaf.2]> groups) ∅
    (omap (fun p => v ← view_states !! p.1; group ← shown_group_tab v; node ← grouped_subtrees !! group; Some (p.1, node))
       (manager_visible_leaves m)).

Definition get_splits_in_group (m : SplitManager) (group_id : Z) (view_states : gmap LeafId SplitViewState) : list LeafId :=
  filter (fun i => (v ← view_states !! i; sync_group v) = Some group_id) (leaf_split_ids (root m)).

(** ** Operations *)
Inductive view_op : Type :=
| VSetTab (b : BufferId)
| VShowBuffer (b : BufferId)
| VShowGroup (group panel : LeafId)
| VFocusPanel (panel : LeafId)
| VLeaveGroup (group : LeafId)
| VWriteTab (write : V -> V)
| VWriteShown (write : V -> V)
| VWrite (b : BufferId) (write : V -> V)
| VWriteAll (write : BufferId -> V -> V)
| VInsert (b : BufferId) (s : V)
| VTake (b : BufferId)
| VRetain (keep : BufferId -> bool)
| VEnsure (b : BufferId) (write : V -> V)
| VAddBuffer (b : BufferId)
| VRemoveBuffer (b : BufferId)
| VAddGroup (l : LeafId)
| VRemoveGroup (l : LeafId)
| VPushFocus (t : TabTarget)
| VForgetBuffer (b : BufferId)
| VForgetGroup (l : LeafId).

Definition view_step (v : SplitViewState) (op : view_op) : res SplitViewState :=
  match op with
  | VSetTab b => set_buffer_tab b v
  | VShowBuffer b => show_buffer b v
  | VShowGroup g p => Ok (show_group g p v)
  | VFocusPanel p => Ok (focus_group_panel p v)
  | VLeaveGroup g => Ok (leave_group g v)
  | VWriteTab f => buffer_tab_state_mut f v
  | VWriteShown f => Ok (shown_state_mut f v)
  | VWrite b f => Ok (buffer_state_mut b f v)
  | VWriteAll f => Ok (buffer_states_mut f v)
  | VInsert b s => Ok (insert_buffer_state b s v)
  | VTake b => Ok (take_buffer_state b v).2
  | VRetain keep => Ok (retain_buffer_states keep v)
  | VEnsure b f => ensure_buffer_state b f v
  | VAddBuffer b => Ok (add_buffer b v)
  | VRemoveBuffer b => Ok (remove_buffer b v)
  | VAddGroup l => Ok (add_group l v)
  | VRemoveGroup l => Ok (remove_group l v)
  | VPushFocus t => Ok (push_focus t v)
  | VForgetBuffer b => Ok (remove_from_history b v)
  | VForgetGroup l => Ok (remove_group_from_history l v)
  end.

Fixpoint view_run (v : SplitViewState) (ops : list view_op) : res SplitViewState :=
  match ops with
  | [] => Ok v
  | op :: ops => v ← view_step v op; view_run v ops
  end.

(** ** What the pane shows

    What the operations promise of the tab that is shown: the buffer tab is the last one
    asked for, and a group covers it from [show_group] until that group is left or a buffer
    is shown. *)
Definition spec_shown (s : Shown) (op : view_op) : Shown :=
  match op, s with
  | VSetTab b, ShownBuffer _ => ShownBuffer b
  | VSetTab b, ShownGroup g p _ => ShownGroup g p b
  | VShowBuffer b, _ => ShownBuffer b
  | VShowGroup g p, _ => ShownGroup g p (shown_tab s)
  | VFocusPanel p, ShownGroup g _ b => ShownGroup g p b
  | (VLeaveGroup l | VRemoveGroup l), ShownGroup g _ b => if decide (g = l) then ShownBuffer b else s
  | _, _ => s
  end.

Record view_inv (v : SplitViewState) : Prop := {
  vi_tab : is_Some (keyed_states v !! buffer_tab v);
  vi_open : NoDup (open_buffers v);
  vi_history : NoDup (tab_history v) /\ length (tab_history v) <= 50;
}.

Lemma tab_state_ok v : view_inv v -> exists s, keyed_states v !! buffer_tab v = Some s /\ buffer_tab_state v = Ok s.
Proof. intros [[s E] _ _]. exists s. unfold buffer_tab_state. by rw E. Qed.

(** A state with at least the entries the tab needs. *)
Lemma with_states_inv v k : view_inv v -> is_Some (k !! buffer_tab v) -> view_inv (with_states k v).
Proof. intros [] Hk. by constructor. Qed.

Lemma filter_nodup_le {A} (P : A -> Prop) `{forall x, Decision (P x)} (l : list A) n :
  NoDup l /\ length l <= n -> NoDup (filter P l) /\ length (filter P l) <= n.
Proof. intros [? ?]. split; [by apply NoDup_filter|]. pose proof (length_filter P l). lia. Qed.

Lemma ensure_ok v b f : view_inv v -> exists k, ensure_buffer_state b f v = Ok (with_states k v)
  /\ is_Some (k !! b) /\ is_Some (k !! buffer_tab v).
Proof.
  intros Hi. destruct (tab_state_ok v Hi) as (s & Es & E). unfold ensure_buffer_state. rw E. cbn [mbind res_bind].
  destruct (view_size s) as [w h]. eexists. split; [done|]. split; [by rw lookup_insert_eq|].
  destruct (decide (b = buffer_tab v)) as [->|]; [by rw lookup_insert_eq | rw lookup_insert_ne //; by eexists].
Qed.

Lemma set_tab_ok v b :
  view_inv v -> exists v', set_buffer_tab b v = Ok v' /\ view_inv v' /\ shown v' = spec_shown (shown v) (VSetTab b) /\ buffer_tab v' = b.
Proof.
  intros Hi. unfold set_buffer_tab. destruct (decide (b = buffer_tab v)) as [->|Hne].
  - exists v. split; [done|]. split; [done|]. unfold buffer_tab. by destruct (shown v).
  - destruct (ensure_ok v b (fun s => s) Hi) as (k & -> & Hb & _). cbn [mbind res_bind]. eexists. split; [done|]. destruct Hi.
    split; [constructor; try done; unfold buffer_tab; cbn | split]; unfold buffer_tab; cbn; by destruct (shown v).
Qed.

Lemma leave_group_ok v l : view_inv v -> view_inv (leave_group l v) /\ shown (leave_group l v) = spec_shown (shown v) (VLeaveGroup l).
Proof.
  intros Hi. unfold leave_group. cbn [spec_shown]. destruct (shown v) as [b|g p b] eqn:E; [done|]. case_decide; [|done].
  split; [|done]. destruct Hi. constructor; try done. unfold buffer_tab in *. by rw E in vi_tab0.
Qed.

Lemma take_state_ok v b : view_inv v -> view_inv (take_buffer_state b v).2 /\ shown (take_buffer_state b v).2 = shown v.
Proof.
  intros Hi. unfold take_buffer_state. case_decide; [done|]. split; [|done]. apply with_states_inv; [done|]. cbn.
  rw lookup_delete_ne //. by destruct Hi.
Qed.

Lemma push_tab_inv v t : view_inv v -> (t ∉ open_buffers v) -> view_inv (with_open (open_buffers v ++ [t]) v).
Proof.
  intros [] Ht. constructor; try done. cbn. apply NoDup_app. split_and!; [done | by intros x Hx ->%list_elem_of_singleton | apply NoDup_singleton].
Qed.

Lemma view_step_ok v op : view_inv v -> exists v', view_step v op = Ok v' /\ view_inv v' /\ shown v' = spec_shown (shown v) op.
Proof.
  intros Hi. pose proof Hi as [Htab Hopen Hhist]. destruct op; cbn [view_step].
  - destruct (set_tab_ok v b Hi) as (v' & ? & ? & ? & _). by exists v'.
  - destruct (set_tab_ok v b Hi) as (v' & E & [] & _ & Hb). unfold show_buffer. rw E. cbn [mbind res_bind]. eexists. split; [done|].
    split; [|done]. constructor; try done. unfold buffer_tab in *. cbn. by rw -Hb.
  - eexists. split; [done|]. split; [by constructor | done].
  - eexists. split; [done|]. unfold focus_group_panel. cbn [spec_shown]. destruct (shown v) as [|g p b] eqn:E; [done|].
    split; [|done]. constructor; try done. unfold buffer_tab in *. by rw E in Htab.
  - eexists. split; [done|]. by apply leave_group_ok.
  - destruct (tab_state_ok v Hi) as (s & Es & E). unfold buffer_tab_state_mut. rw E. eexists. split; [done|].
    split; [|done]. apply with_states_inv; [done|]. by rw lookup_insert_eq.
  - eexists. split; [done|]. unfold shown_state_mut. destruct (shown_buffer v) as [b|]; [|done]. split; [|done].
    apply with_states_inv; [done|]. by rw lookup_alter_is_Some.
  - eexists. split; [done|]. split; [|done]. apply with_states_inv; [done|]. by rw lookup_alter_is_Some.
  - eexists. split; [done|]. split; [|done]. apply with_states_inv; [done|]. rw map_lookup_imap. destruct Htab as [s ->]. by eexists.
  - eexists. split; [done|]. split; [|done]. apply with_states_inv; [done|]. by apply lookup_insert_is_Some'; right.
  - eexists. split; [done|]. by apply take_state_ok.
  - eexists. split; [done|]. split; [|done]. apply with_states_inv; [done|]. destruct Htab as [s Es]. exists s.
    apply map_lookup_filter_Some. split; [done | by left].
  - destruct (ensure_ok v b write Hi) as (k & -> & _ & Hk). eexists. split; [done|]. split; [by apply with_states_inv | done].
  - eexists. split; [done|]. unfold add_buffer, has_buffer. case_bool_decide; [done|]. split; [by apply push_tab_inv | done].
  - eexists. split; [done|]. unfold remove_buffer.
    match goal with |- context [take_buffer_state b ?w] => apply (take_state_ok w b) end.
    constructor; cbn; [done | by apply NoDup_filter | by apply filter_nodup_le].
  - eexists. split; [done|]. unfold add_group, has_group. case_bool_decide; [done|]. split; [by apply push_tab_inv | done].
  - eexists. split; [done|]. unfold remove_group.
    match goal with |- context [leave_group l ?w] => apply (leave_group_ok w l) end. constructor; cbn; [done | by apply NoDup_filter | done].
  - eexists. split; [done|]. split; [|done]. destruct Hhist. constructor; try done. cbn. by apply push_recent_ok; [lia|..].
  - eexists. split; [done|]. split; [|done]. constructor; cbn; [done..|]. by apply filter_nodup_le.
  - eexists. split; [done|]. split; [|done]. constructor; cbn; [done..|]. by apply filter_nodup_le.
Qed.

Lemma with_buffer_inv width height b : view_inv (with_buffer width height b).
Proof.
  constructor; cbn; [unfold buffer_tab; cbn; by rw lookup_singleton_eq | apply NoDup_singleton |]. split; [apply NoDup_nil_2 | lia].
Qed.

Lemma view_run_ok v ops : view_inv v -> exists v', view_run v ops = Ok v' /\ view_inv v' /\ shown v' = foldl spec_shown (shown v) ops.
Proof.
  revert v. induction ops as [|op ops IH]; intros v Hi; [by exists v|]. destruct (view_step_ok v op Hi) as (v1 & E & Hi1 & Es).
  destruct (IH v1 Hi1) as (v' & E' & Hi' & Es'). exists v'. cbn. rw E. split; [done|]. split; [done|]. by rw Es' Es.
Qed.

(** C38: A pane always has a view state for its buffer tab.  Whatever sequence of its
    operations a pane goes through, with whatever buffers, groups and writes to view states,
    none of them panics (the [expect] on the buffer tab's state never fires); at the end the
    buffer tab has a view state, no tab is in the tab bar twice, and the focus history has at
    most fifty entries, all distinct.  The pane shows what was asked for last: the buffer tab
    follows the calls that set it, and a group covers it until it is left or removed. *)
Theorem pane_view_safe width height b ops :
  exists v, view_run (with_buffer width height b) ops = Ok v
  /\ view_inv v /\ shown v = foldl spec_shown (ShownBuffer b) ops.
Proof. apply view_run_ok, with_buffer_inv. Qed.
End view.
