(* ===== verification/ScrollSync.v ===== *)
(** * Panes that scroll together

    Models crates/fresh-editor/src/view/scroll_sync.rs: the anchors between the lines of two
    panes and the map through them, the row at which two panes of one buffer are lined up,
    and the groups of panes.

    Line numbers are [nat]s, of which [usize_max] is the largest; rows are [u32]s, as [Z]s.
    The layout of rows ([map_row], which reads the wrap index) is the argument [map] of
    [synced_top], as in the source. *)
From Stdlib Require Import Sorted.
From stdpp Require Import base numbers list option sorting.
From Stdlib Require Import ssreflect Lia ZArith.
From S2P Require Import Prelude SplitTree.

(** ** Anchors *)
Record SyncAnchor : Type := mkAnchor { left_line : nat; right_line : nat }.

Record RowSyncState : Type := mkRowSync { rs_active : SplitId; active_top : Z; other_top : Z }.

Record ScrollSyncGroup : Type := mkGroup {
  group_id : Z;
  left_split : SplitId;
  right_split : SplitId;
  scroll_line : nat;
  anchors : list SyncAnchor;
  row_sync : option RowSyncState;
}.

Section sync.
Context (usize_max : nat).

Definition group_new (id : Z) (left_split right_split : SplitId) : ScrollSyncGroup :=
  mkGroup id left_split right_split 0 [mkAnchor 0 0] None.

Definition group_set_anchors (a : list SyncAnchor) (g : ScrollSyncGroup) : ScrollSyncGroup :=
  mkGroup (group_id g) (left_split g) (right_split g) (scroll_line g)
    (match a with [] => [mkAnchor 0 0] | _ => a end) (row_sync g).

Definition contains_split (g : ScrollSyncGroup) (split_id : SplitId) : bool :=
  bool_decide (left_split g = split_id) || bool_decide (right_split g = split_id).

Definition is_left_split (g : ScrollSyncGroup) (split_id : SplitId) : bool := bool_decide (left_split g = split_id).

(** [iter().rfind(p)] and [iter().find(p)]. *)
Definition map_through_anchors (l : list SyncAnchor) (line : nat) (sides : SyncAnchor -> nat * nat) : nat :=
  let '(from, to) := default (0, 0) (list.last (filter (fun a => a.1 <= line) (sides <$> l))) in
  let mapped := Nat.min usize_max (to + (line - from)) in
  match head (filter (fun a => line < a.1) (sides <$> l)) with
  | Some (_, next) => Nat.min mapped (Nat.max next to)
  | None => mapped
  end.

Definition by_left (a : SyncAnchor) : nat * nat := (left_line a, right_line a).
Definition by_right (a : SyncAnchor) : nat * nat := (right_line a, left_line a).

Definition left_to_right_line (g : ScrollSyncGroup) (line : nat) : nat := map_through_anchors (anchors g) line by_left.
Definition right_to_left_line (g : ScrollSyncGroup) (line : nat) : nat := map_through_anchors (anchors g) line by_right.

Definition set_scroll_line (line : nat) (g : ScrollSyncGroup) : ScrollSyncGroup :=
  mkGroup (group_id g) (left_split g) (right_split g) line (anchors g) (row_sync g).

Definition group_apply_scroll_delta (split_id : SplitId) (delta_lines : Z) (g : ScrollSyncGroup) : bool * ScrollSyncGroup :=
  if negb (contains_split g split_id) then (false, g)
  else
    let new_scroll :=
      if decide (0 <= delta_lines)%Z then Nat.min usize_max (scroll_line g + Z.to_nat delta_lines)
      else scroll_line g - Z.abs_nat delta_lines in
    (true, set_scroll_line new_scroll g).

(** ** Groups *)
Definition ScrollSyncManager : Type := list ScrollSyncGroup.

Definition create_group_with_id (id : Z) (left_split right_split : SplitId) (m : ScrollSyncManager) : bool * ScrollSyncManager :=
  if decide (Exists (fun g => group_id g = id) m) then (false, m)
  else (true, m ++ [group_new id left_split right_split]).

Fixpoint remove_first (id : Z) (m : ScrollSyncManager) : ScrollSyncManager :=
  match m with
  | [] => []
  | g :: m => if decide (group_id g = id) then m else g :: remove_first id m
  end.

Definition remove_sync_group (id : Z) (m : ScrollSyncManager) : bool * ScrollSyncManager :=
  if decide (Exists (fun g => group_id g = id) m) then (true, remove_first id m) else (false, m).

Definition retain_live_groups (is_live : SplitId -> bool) (m : ScrollSyncManager) : ScrollSyncManager :=
  filter (fun g => is_live (left_split g) && is_live (right_split g) = true) m.

(** The groups after [write] through the first group that satisfies [p]. *)
Fixpoint write_first (p : ScrollSyncGroup -> bool) (write : ScrollSyncGroup -> ScrollSyncGroup) (m : ScrollSyncManager) : ScrollSyncManager :=
  match m with
  | [] => []
  | g :: m => if p g then write g :: m else g :: write_first p write m
  end.

Definition get_group_mut (id : Z) (write : ScrollSyncGroup -> ScrollSyncGroup) (m : ScrollSyncManager) : ScrollSyncManager :=
  write_first (fun g => bool_decide (group_id g = id)) write m.

Definition find_group_for_split (split_id : SplitId) (m : ScrollSyncManager) : option ScrollSyncGroup :=
  head (filter (fun g => contains_split g split_id = true) m).

Definition find_group_for_split_mut (split_id : SplitId) (write : ScrollSyncGroup -> ScrollSyncGroup) (m : ScrollSyncManager) : ScrollSyncManager :=
  write_first (fun g => contains_split g split_id) write m.

Definition is_split_synced (split_id : SplitId) (m : ScrollSyncManager) : bool :=
  bool_decide (Exists (fun g => contains_split g split_id = true) m).

Definition apply_scroll_delta (split_id : SplitId) (delta_lines : Z) (m : ScrollSyncManager) : bool * ScrollSyncManager :=
  match find_group_for_split split_id m with
  | Some _ => (true, find_group_for_split_mut split_id (fun g => (group_apply_scroll_delta split_id delta_lines g).2) m)
  | None => (false, m)
  end.

Definition set_anchors (id : Z) (a : list SyncAnchor) (m : ScrollSyncManager) : ScrollSyncManager :=
  get_group_mut id (group_set_anchors a) m.

(** ** Rows of two panes of one buffer *)
Definition focus_row (top max_top height : Z) : Z :=
  let last := sat_sub height 1 in
  if decide (max_top = 0)%Z then 0%Z
  else if decide (max_top < last)%Z then (Z.min top max_top * last / max_top)%Z
  else
    let half := (last / 2)%Z in
    let to_end := sat_sub max_top top in
    if decide (top < half)%Z then top
    else if decide (to_end < last - half)%Z then (last - to_end)%Z
    else half.

(** A checked sum of [u32]s. *)
Definition u32 (z : Z) : res Z := if decide (0 <= z < 4294967296)%Z then Ok z else Panic.

Definition synced_top (top max_top height other_max_top : Z) (map : Z -> Z) : res Z :=
  if decide (top = 0)%Z then Ok 0%Z
  else if decide (max_top <= top)%Z then Ok other_max_top
  else
    let focus := focus_row top max_top height in
    row ← u32 (top + focus);
    Ok (Z.min (sat_sub (map row) focus) other_max_top).

(** The loop of [inverse_synced_top]; [curve] is the closure, which does not panic. *)
Fixpoint inverse_loop (fuel : nat) (other_top : Z) (curve : Z -> Z) (lo hi : Z) : res Z :=
  if decide (lo < hi)%Z then
    match fuel with
    | 0 => Panic
    | S fuel =>
        let mid := (lo + (hi - lo + 1) / 2)%Z in
        if decide (curve mid <= other_top)%Z then inverse_loop fuel other_top curve mid hi
        else inverse_loop fuel other_top curve lo (mid - 1)
    end
  else Ok lo.

(** A binary search of [u32]s halves its range at every step. *)
Definition inverse_synced_top (other_top max_top : Z) (curve : Z -> Z) : res Z :=
  inverse_loop 33 other_top curve 0 max_top.

(** ** The map through anchors *)

(** Anchors in order on both sides. *)
Definition in_order (l : list (nat * nat)) : Prop :=
  StronglySorted (fun a b => a.1 <= b.1 /\ a.2 <= b.2) l /\ Forall (fun a => a.2 <= usize_max) l.

(** Anchors strictly in order on both sides. *)
Definition strictly_in_order (l : list (nat * nat)) : Prop :=
  StronglySorted (fun a b => a.1 < b.1 /\ a.2 < b.2) l /\ Forall (fun a => a.2 <= usize_max) l.

Lemma filter_keeps_all {A} (P : A -> Prop) `{forall x, Decision (P x)} (l : list A) : Forall P l -> filter P l = l.
Proof. induction 1 as [|x l Hx Hl IH]; [done|]. rw filter_cons_True //. by rw IH. Qed.

Lemma filter_keeps_none {A} (P : A -> Prop) `{forall x, Decision (P x)} (l : list A) : Forall (fun x => ~ P x) l -> filter P l = [].
Proof. induction 1 as [|x l Hx Hl IH]; [done|]. by rw filter_cons_False. Qed.

(** Where a line falls: the anchors at or above it, and those below. *)
Lemma anchors_split l line :
  StronglySorted (fun a b : nat * nat => a.1 <= b.1 /\ a.2 <= b.2) l ->
  exists pre post, l = pre ++ post /\ Forall (fun a => a.1 <= line) pre /\ Forall (fun a => line < a.1) post.
Proof.
  induction l as [|x l IH]; intros Hs; [by exists [], []|]. apply StronglySorted_inv in Hs as [Hs Hx].
  destruct (decide (x.1 <= line)) as [Hle|Hgt].
  - destruct (IH Hs) as (pre & post & -> & Hp & Hq). exists (x :: pre), post.
    split; [done|]. split; [by apply Forall_cons_2 | done].
  - exists [], (x :: l). split; [done|]. split; [apply Forall_nil_2|]. apply Forall_cons_2; [lia|].
    eapply list.Forall_impl; [exact Hx|]. cbn. lia.
Qed.

(** The map, by where the line falls. *)
Lemma map_at pre post line (sides : SyncAnchor -> nat * nat) l :
  sides <$> l = pre ++ post -> Forall (fun a => a.1 <= line) pre -> Forall (fun a => line < a.1) post ->
  map_through_anchors l line sides =
  let '(from, to) := default (0, 0) (list.last pre) in
  let mapped := Nat.min usize_max (to + (line - from)) in
  match head post with Some (_, next) => Nat.min mapped (Nat.max next to) | None => mapped end.
Proof.
  intros E Hp Hq. unfold map_through_anchors. rw E !list.filter_app.
  rw (filter_keeps_all (fun a => a.1 <= line) pre) // (filter_keeps_none (fun a => a.1 <= line) post).
  { eapply list.Forall_impl; [exact Hq|]. cbn. lia. }
  rw (filter_keeps_none (fun a => line < a.1) pre). { eapply list.Forall_impl; [exact Hp|]. cbn. lia. }
  by rw (filter_keeps_all (fun a => line < a.1) post) // app_nil_r.
Qed.

(** The anchor a line is mapped from, and the one behind it. *)
Lemma map_bounds l line (sides : SyncAnchor -> nat * nat) :
  in_order (sides <$> l) ->
  exists pre post, sides <$> l = pre ++ post /\ Forall (fun a => a.1 <= line) pre /\ Forall (fun a => line < a.1) post
  /\ let to := (default (0, 0) (list.last pre)).2 in
     to <= map_through_anchors l line sides
     /\ from_option (fun a => map_through_anchors l line sides <= a.2) True (head post).
Proof.
  intros [Hs Hm]. destruct (anchors_split _ line Hs) as (pre & post & E & Hp & Hq). exists pre, post. split_and!; [done..|].
  cbn zeta. rw (map_at pre post line sides l E Hp Hq). rw E in Hs, Hm. apply Forall_app in Hm as [Hm _].
  assert (Hto : (default (0, 0) (list.last pre)).2 <= usize_max
    /\ from_option (fun a => (default (0, 0) (list.last pre)).2 <= a.2) True (head post)).
  { destruct (list.last pre) as [a|] eqn:El; cbn.
    - apply last_Some in El as [pre' ->]. apply Forall_app in Hm as [_ Hm]. apply list.Forall_cons in Hm as [Hm _]. split; [done|].
      destruct post as [|b post]; [done|]. cbn.
      by destruct (StronglySorted_app_1_elem_of _ _ _ a b Hs) as [_ ?]; [apply elem_of_app; right; left | left |].
    - split; [lia|]. destruct (head post); cbn; [lia|done]. }
  destruct (default (0, 0) (list.last pre)) as [from to]. cbn [snd] in *. destruct Hto as [Ht1 Ht2].
  destruct (head post) as [[x next]|]; cbn in *; lia.
Qed.

Lemma strictly_in_order_weaken l : strictly_in_order l -> in_order l.
Proof.
  intros [Hs Hm]. split; [|done]. clear Hm. induction Hs as [|x l Hs IH Hx]; constructor; [done|].
  eapply list.Forall_impl; [exact Hx|]. cbn. lia.
Qed.

Lemma map_monotone l (sides : SyncAnchor -> nat * nat) i j :
  in_order (sides <$> l) -> i <= j -> map_through_anchors l i sides <= map_through_anchors l j sides.
Proof.
  intros Ho Hij. destruct (map_bounds l i sides Ho) as (pre & post & E & Hp & Hq & _ & Hup).
  destruct (map_bounds l j sides Ho) as (pre' & post' & E' & Hp' & Hq' & Hlow & _). cbn zeta in *.
  destruct (decide (length pre' <= length pre)) as [Hle|Hgt].
  - assert (pre' = pre /\ post' = post) as [-> ->].
    { rw E in E'. apply app_eq_inv in E' as [(k & -> & ->)|(k & -> & ->)].
      - destruct k as [|a k]; [by rw app_nil_r|]. apply Forall_app in Hp as [_ [Ha _]%list.Forall_cons].
        cbn in Hq'. apply list.Forall_cons in Hq' as [Hb _]. lia.
      - destruct k as [|a k]; [by rw app_nil_r|]. rw length_app in Hle. cbn in Hle. lia. }
    rw (map_at pre post i sides l E Hp Hq) (map_at pre post j sides l E Hp' Hq').
    destruct (default (0, 0) (list.last pre)) as [from to]. destruct (head post) as [[? ?]|]; cbn; lia.
  - rw E in E'. apply app_eq_inv in E' as [(k & -> & ->)|(k & -> & ->)]; [rw length_app in Hgt; lia|].
    destruct k as [|a k]; [rw app_nil_r in Hgt; lia|]. cbn in Hup. etransitivity; [exact Hup|]. etransitivity; [|exact Hlow].
    destruct Ho as [Hs _]. rw E in Hs. apply StronglySorted_app_1_r in Hs. cbn in Hs. apply StronglySorted_inv in Hs as [_ Hs].
    rw last_app_cons. destruct (list.last (a :: k)) as [z|] eqn:El; [|by apply last_None in El]. cbn.
    apply last_Some_elem_of in El. apply elem_of_cons in El as [ ->|El]; [done|].
    apply Forall_app in Hs as [Hs _]. by apply (proj1 (list.Forall_forall _ _) Hs).
Qed.

(** Between two anchors, and behind the last. *)
Lemma map_between pre i r i' r' post line (sides : SyncAnchor -> nat * nat) l :
  sides <$> l = pre ++ (i, r) :: (i', r') :: post -> in_order (sides <$> l) -> i <= line < i' ->
  map_through_anchors l line sides = Nat.min (r + (line - i)) r'.
Proof.
  intros E [Hs Hm] Hl. rw E in Hs, Hm. rw (map_at (pre ++ [(i, r)]) ((i', r') :: post) line sides l).
  - by rw E -app_assoc.
  - apply Forall_forall. intros x Hx. apply elem_of_app in Hx as [Hx| ->%list_elem_of_singleton]; [|cbn; lia].
    destruct (StronglySorted_app_1_elem_of _ _ _ x (i, r) Hs Hx) as [? _]; [left|]. cbn in *. lia.
  - apply StronglySorted_app_1_r in Hs. apply StronglySorted_inv in Hs as [Hs _]. apply StronglySorted_inv in Hs as [_ Hs].
    apply Forall_cons_2; [cbn; lia|]. eapply list.Forall_impl; [exact Hs|]. cbn. lia.
  - rw last_snoc. cbn. apply Forall_app in Hm as [_ Hm]. apply list.Forall_cons in Hm as [H1 Hm]. apply list.Forall_cons in Hm as [H2 _].
    cbn in H1, H2. apply StronglySorted_app_1_r in Hs. apply StronglySorted_inv in Hs as [_ Hs]. apply list.Forall_cons in Hs as [[? ?] _].
    cbn in *. lia.
Qed.

Lemma map_behind pre i r line (sides : SyncAnchor -> nat * nat) l :
  sides <$> l = pre ++ [(i, r)] -> in_order (sides <$> l) -> i <= line ->
  map_through_anchors l line sides = Nat.min usize_max (r + (line - i)).
Proof.
  intros E [Hs Hm] Hl. rw E in Hs, Hm. rw (map_at (pre ++ [(i, r)]) [] line sides l).
  - by rw E app_nil_r.
  - apply Forall_forall. intros x Hx. apply elem_of_app in Hx as [Hx| ->%list_elem_of_singleton]; [|cbn; lia].
    destruct (StronglySorted_app_1_elem_of _ _ _ x (i, r) Hs Hx) as [? _]; [left|]. cbn in *. lia.
  - apply Forall_nil_2.
  - by rw last_snoc.
Qed.

(** ** Lines of the two panes *)
Lemma swap_in_order l :
  StronglySorted (fun a b => a.1 < b.1 /\ a.2 < b.2) (by_left <$> l) -> StronglySorted (fun a b => a.1 < b.1 /\ a.2 < b.2) (by_right <$> l).
Proof.
  induction l as [|a l IH]; cbn; intros Hs; [constructor|]. apply StronglySorted_inv in Hs as [Hs Ha]. constructor; [by apply IH|].
  apply Forall_fmap in Ha. apply Forall_fmap. eapply list.Forall_impl; [exact Ha|]. cbn. lia.
Qed.

Lemma cut_at (sides : SyncAnchor -> nat * nat) l k a : l !! k = Some a -> sides <$> l = (sides <$> take k l) ++ sides a :: (sides <$> drop (S k) l).
Proof. intros E. by rw -{1}(take_drop_middle l k a E) fmap_app. Qed.

Lemma cut_at_two (sides : SyncAnchor -> nat * nat) l k a b :
  l !! k = Some a -> l !! S k = Some b -> sides <$> l = (sides <$> take k l) ++ sides a :: sides b :: (sides <$> drop (S (S k)) l).
Proof.
  intros Ea Eb. rw (cut_at sides l k a Ea). do 2 f_equal. by rw -{1}(take_drop_middle (drop (S k) l) 0 b); [rw lookup_drop Nat.add_0_r|rw drop_drop Nat.add_1_r].
Qed.

(** Anchors are exact. *)
Lemma map_anchor (sides : SyncAnchor -> nat * nat) l k b :
  strictly_in_order (sides <$> l) -> l !! k = Some b -> map_through_anchors l (sides b).1 sides = (sides b).2.
Proof.
  intros Ho Eb. pose proof (strictly_in_order_weaken _ Ho) as Hw. destruct Ho as [Hs Hm].
  pose proof (cut_at sides l k b Eb) as E. destruct (sides b) as [i r] eqn:Es. cbn.
  rw E in Hs, Hm. apply StronglySorted_app_1_r in Hs. apply StronglySorted_inv in Hs as [_ Hs].
  apply Forall_app in Hm as [_ [Hm _]%list.Forall_cons]. cbn in Hm.
  destruct (l !! S k) as [c|] eqn:Ec.
  - pose proof (cut_at_two sides l k b c Eb Ec) as E2. rw E in E2. apply app_inv_head in E2. rw Es in E2. injection E2 as E2.
    destruct (sides c) as [i' r'] eqn:Ecs. rw E2 in Hs. apply list.Forall_cons in Hs as [[H1 H2] _]. cbn in H1, H2.
    rw (map_between (sides <$> take k l) i r i' r' (sides <$> drop (S (S k)) l) i sides l); [by rw E E2 | done | lia | lia].
  - rw (map_behind (sides <$> take k l) i r i sides l); [|done|done|lia].
    apply lookup_ge_None in Ec. rw E drop_ge //.
Qed.

(** C40: scrolling two panes through anchors keeps them together.  For a group whose anchors
    strictly ascend on both sides, at line numbers of the machine, a line further down in one
    pane is mapped to a line no further up in the other, in both directions.  Between two
    anchors lines go with each other one for one from the upper anchor, and the other pane
    holds at the lower anchor's line once it is reached; mapping back gives the line itself,
    or the lower anchor's line where the other pane held.  Behind the last anchor lines go
    with each other and map back, as far as the line numbers reach. *)
Theorem anchors_keep_together g :
  StronglySorted (fun a b => a.1 < b.1 /\ a.2 < b.2) (by_left <$> anchors g) ->
  Forall (fun a => left_line a <= usize_max /\ right_line a <= usize_max) (anchors g) ->
  (forall i j, i <= j -> left_to_right_line g i <= left_to_right_line g j /\ right_to_left_line g i <= right_to_left_line g j)
  /\ (forall k a b line, anchors g !! k = Some a -> anchors g !! S k = Some b -> left_line a <= line < left_line b ->
       left_to_right_line g line = Nat.min (right_line a + (line - left_line a)) (right_line b)
       /\ right_to_left_line g (left_to_right_line g line)
          = if decide (line - left_line a < right_line b - right_line a) then line else left_line b)
  /\ (forall a line, list.last (anchors g) = Some a -> left_line a <= line <= usize_max -> right_line a + (line - left_line a) <= usize_max ->
       left_to_right_line g line = right_line a + (line - left_line a)
       /\ right_to_left_line g (left_to_right_line g line) = line).
Proof.
  intros Hs Hm. pose proof (swap_in_order _ Hs) as Hs'.
  assert (Hsl : strictly_in_order (by_left <$> anchors g)).
  { split; [done|]. apply Forall_fmap. eapply list.Forall_impl; [exact Hm|]. cbn. lia. }
  assert (Hsr : strictly_in_order (by_right <$> anchors g)).
  { split; [done|]. apply Forall_fmap. eapply list.Forall_impl; [exact Hm|]. cbn. lia. }
  pose proof (strictly_in_order_weaken _ Hsl) as Hl. pose proof (strictly_in_order_weaken _ Hsr) as Hr.
  unfold left_to_right_line, right_to_left_line. split_and!.
  - intros i j Hij. split; by apply map_monotone.
  - intros k a b line Ea Eb Hline.
    pose proof (map_between _ _ _ _ _ _ line by_left _ (cut_at_two by_left _ k a b Ea Eb) Hl Hline) as E. rw E. split; [done|].
    case_decide as Hd.
    + rw Nat.min_l; [lia|]. rw (map_between _ _ _ _ _ _ _ by_right _ (cut_at_two by_right _ k a b Ea Eb) Hr); cbn; lia.
    + rw Nat.min_r; [lia|]. by apply (map_anchor by_right _ (S k) b).
  - intros a line El Hline Hmax. pose proof El as Ek. rw last_lookup in Ek. pose proof (cut_at by_left _ _ a Ek) as Ec.
    pose proof (cut_at by_right _ _ a Ek) as Ec'. rw drop_ge in Ec, Ec'; [destruct (anchors g); cbn; [done|lia]..|].
    pose proof (map_behind _ _ _ line by_left _ Ec Hl ltac:(lia)) as E. rw E Nat.min_r; [lia|]. split; [done|].
    rw (map_behind _ _ _ _ by_right _ Ec' Hr); lia.
Qed.

(** ** The aligned row *)
Lemma focus_row_range top max_top height :
  (0 <= top)%Z -> (0 <= max_top)%Z -> (0 <= focus_row top max_top height <= sat_sub height 1)%Z.
Proof.
  intros Ht Hm. unfold focus_row. set (last := sat_sub height 1). assert (0 <= last)%Z by (unfold last, sat_sub; lia).
  case_decide; [lia|]. case_decide.
  - split; [apply Z.div_pos; [apply Z.mul_nonneg_nonneg|]; lia|].
    apply Z.div_le_upper_bound; [lia|]. apply Z.mul_le_mono_nonneg_r; lia.
  - pose proof (Z.div_mod last 2 ltac:(lia)). pose proof (Z.mod_pos_bound last 2 ltac:(lia)).
    case_decide; [lia|]. case_decide; unfold sat_sub in *; lia.
Qed.

Lemma focus_row_monotone t t' max_top height :
  (0 <= t <= t')%Z -> (0 <= max_top)%Z -> (focus_row t max_top height <= focus_row t' max_top height)%Z.
Proof.
  intros Ht Hm. unfold focus_row. set (last := sat_sub height 1). assert (0 <= last)%Z by (unfold last, sat_sub; lia).
  case_decide; [lia|]. case_decide.
  - apply Z.div_le_mono; [lia|]. apply Z.mul_le_mono_nonneg_r; lia.
  - pose proof (Z.div_mod last 2 ltac:(lia)). pose proof (Z.mod_pos_bound last 2 ltac:(lia)). unfold sat_sub.
    repeat case_decide; lia.
Qed.

(** The row slides from the first row of the window to its last. *)
Lemma focus_row_ends max_top height :
  (0 < max_top)%Z -> (1 <= height)%Z -> focus_row 0 max_top height = 0%Z /\ focus_row max_top max_top height = (height - 1)%Z.
Proof.
  intros Hm Hh. unfold focus_row. replace (sat_sub height 1) with (height - 1)%Z by (unfold sat_sub; lia).
  pose proof (Z.div_mod (height - 1) 2 ltac:(lia)). pose proof (Z.mod_pos_bound (height - 1) 2 ltac:(lia)). unfold sat_sub.
  rw !(decide_False (P := max_top = 0%Z)); [lia..|]. destruct (decide (max_top < height - 1)%Z).
  - rw Z.min_l; [lia|]. rw Z.min_id Z.mul_0_l Z.div_0_l; [lia|]. split; [done|]. rw Z.mul_comm Z.div_mul; lia.
  - repeat case_decide; lia.
Qed.

(** ** The curve and its inverse *)
Section curve.
Context (max_top height other_max_top : Z) (map : Z -> Z).
Context (Hmax : (0 <= max_top)%Z) (Hroom : (max_top + sat_sub height 1 < 4294967296)%Z) (Hother : (0 <= other_max_top)%Z).

(** The partner's top, as a number. *)
Definition curve_at (top : Z) : Z := match synced_top top max_top height other_max_top map with Ok z => z | Panic => 0%Z end.

(** The partner is never scrolled out of its range, the ends go with the ends, and in
    between the focus row shows the same text in both panes unless the partner is at an
    end. *)
Lemma synced_top_ok top :
  (0 <= top)%Z -> exists z, synced_top top max_top height other_max_top map = Ok z
  /\ (0 <= z <= other_max_top)%Z
  /\ (top = 0 -> z = 0)%Z /\ (0 < top -> max_top <= top -> z = other_max_top)%Z
  /\ (0 < top < max_top -> let focus := focus_row top max_top height in
      focus <= map (top + focus) <= other_max_top + focus -> z + focus = map (top + focus))%Z.
Proof.
  intros Ht. pose proof (focus_row_range top max_top height Ht Hmax) as Hf. unfold synced_top.
  destruct (decide (top = 0)%Z) as [->|]; [exists 0%Z; repeat split; lia|].
  destruct (decide (max_top <= top)%Z); [exists other_max_top; repeat split; lia|].
  unfold u32. rw decide_True; [lia|]. cbn [mbind res_bind]. eexists. split; [done|]. unfold sat_sub. repeat split; lia.
Qed.

(** The curve is monotonic when the partner is taller row by row. *)
Lemma curve_monotone t t' :
  (forall i j, 0 <= i < j -> map i + (j - i) <= map j)%Z ->
  (0 <= t <= t')%Z -> (curve_at t <= curve_at t')%Z.
Proof.
  intros Hmap Ht. unfold curve_at.
  destruct (synced_top_ok t) as (z & E & Hz & H0 & H1 & _); [lia|]. destruct (synced_top_ok t') as (z' & E' & Hz' & _ & H1' & _); [lia|].
  rw E E'. destruct (decide (t = 0)%Z) as [->|]; [rw H0; lia|]. destruct (decide (max_top <= t')%Z); [rw H1'; lia|].
  clear H0 H1 H1' Hz Hz'. unfold synced_top in E, E'. rw !(decide_False (P := _ = 0%Z)) in E, E'; [lia..|].
  rw decide_False in E; [lia|]. rw decide_False in E'; [lia|].
  pose proof (focus_row_range t max_top height ltac:(lia) Hmax). pose proof (focus_row_range t' max_top height ltac:(lia) Hmax).
  pose proof (focus_row_monotone t t' max_top height Ht Hmax) as Hf.
  unfold u32 in E, E'. rw decide_True in E; [lia|]. rw decide_True in E'; [lia|]. cbn in E, E'. injection E as <-. injection E' as <-.
  destruct (decide (t = t')) as [->|]; [lia|].
  pose proof (Hmap (t + focus_row t max_top height) (t' + focus_row t' max_top height) ltac:(lia))%Z. unfold sat_sub. lia.
Qed.

Lemma inverse_loop_ok (f : Z -> Z) other_top fuel lo hi :
  (forall t t', lo <= t <= t' -> f t <= f t')%Z -> (lo <= hi)%Z -> (hi - lo < 2 ^ Z.of_nat fuel)%Z -> (f lo <= other_top)%Z ->
  exists r, inverse_loop fuel other_top f lo hi = Ok r
  /\ (lo <= r <= hi)%Z /\ (f r <= other_top)%Z /\ (forall t, r < t <= hi -> other_top < f t)%Z.
Proof.
  revert lo hi. induction fuel as [|fuel IH]; intros lo hi Hf Hle Hfuel Hlo; cbn [inverse_loop]; case_decide as Hd.
  - cbn in Hfuel. lia.
  - exists lo. repeat split; lia.
  - pose proof (Z.div_mod (hi - lo + 1) 2 ltac:(lia)). pose proof (Z.mod_pos_bound (hi - lo + 1) 2 ltac:(lia)).
    assert (Hp : (2 ^ Z.of_nat (S fuel) = 2 * 2 ^ Z.of_nat fuel)%Z) by (rw Nat2Z.inj_succ Z.pow_succ_r; lia).
    set (mid := (lo + (hi - lo + 1) / 2)%Z) in *. case_decide as Hc.
    + destruct (IH mid hi) as (r & E & Hr & Hfr & Hmax'); [intros; apply Hf; lia | lia | lia | done |].
      exists r. split_and!; [done | lia | lia | done | done].
    + destruct (IH lo (mid - 1)%Z) as (r & E & Hr & Hfr & Hmax'); [done | lia | lia | done |].
      exists r. split_and!; [done | lia | lia | done |]. intros t Ht. destruct (decide (t <= mid - 1)%Z); [apply Hmax'; lia|].
      pose proof (Hf mid t ltac:(lia)). lia.
  - exists lo. repeat split; lia.
Qed.

(** The two panes stay on one curve.  When each row of the driving pane takes at least as many
    rows in its partner, scrolling the partner finds the last top of the driver whose partner
    is at or above that place; from where the driver put the partner it is a top that puts
    the partner there again, no further up than the driver was. *)
Theorem row_sync_one_curve other_top :
  (forall i j, 0 <= i < j -> map i + (j - i) <= map j)%Z -> (0 <= other_top)%Z ->
  exists r, inverse_synced_top other_top max_top curve_at = Ok r
  /\ (0 <= r <= max_top)%Z /\ (curve_at r <= other_top)%Z /\ (forall t, r < t <= max_top -> other_top < curve_at t)%Z
  /\ (forall t, 0 <= t <= max_top -> curve_at t = other_top -> t <= r /\ curve_at r = other_top)%Z.
Proof.
  intros Hmap Ho. destruct (inverse_loop_ok curve_at other_top 33 0 max_top) as (r & E & Hr & Hfr & Hlast).
  - intros. by apply curve_monotone.
  - done.
  - unfold sat_sub in Hroom. change (2 ^ Z.of_nat 33)%Z with 8589934592%Z. lia.
  - unfold curve_at, synced_top. by destruct (decide (0 = 0)%Z).
  - exists r. split_and!; [done | lia | lia | done | done |]. intros t Ht Et.
    assert (t <= r)%Z by (destruct (decide (t <= r)%Z); [done|]; pose proof (Hlast t ltac:(lia)); lia).
    split; [done|]. pose proof (curve_monotone t r Hmap ltac:(lia)). lia.
Qed.
End curve.

(** ** Groups *)

(** Group identifiers are distinct and every group has an anchor. *)
Definition groups_ok (m : ScrollSyncManager) : Prop :=
  NoDup (group_id <$> m) /\ Forall (fun g => anchors g <> []) m.

Lemma write_first_ok p w m :
  (forall g, group_id (w g) = group_id g) -> (forall g, anchors g <> [] -> anchors (w g) <> []) -> groups_ok m -> groups_ok (write_first p w m).
Proof.
  intros Hi Ha [Hn Hf]. assert (E : group_id <$> write_first p w m = group_id <$> m).
  { clear Hn Hf. induction m as [|g m IH]; [done|]. cbn. destruct (p g); cbn; [by rw Hi | by rw IH]. }
  split; [by rw E|]. clear Hn E. induction Hf as [|g m Hg Hf IH]; cbn; [apply Forall_nil_2|].
  destruct (p g); apply Forall_cons_2; auto.
Qed.

Lemma groups_sublist m m' : m' `sublist_of` m -> groups_ok m -> groups_ok m'.
Proof.
  intros Hs [Hn Hf]. split; [|clear Hn; induction Hs; [done|..]; inversion Hf; subst; [apply list.Forall_cons_2|]; auto].
  apply (sublist_NoDup _ (group_id <$> m)); [done|]. clear -Hs. induction Hs; cbn; [done | by apply sublist_skip | by apply sublist_cons].
Qed.

(** Every operation keeps the groups in order: identifiers stay distinct, so that the first
    group of an identifier is the only one, and no group is without an anchor. *)
Lemma groups_kept m id l r a split_id delta is_live :
  groups_ok m ->
  groups_ok (create_group_with_id id l r m).2 /\ groups_ok (remove_sync_group id m).2
  /\ groups_ok (retain_live_groups is_live m) /\ groups_ok (set_anchors id a m)
  /\ groups_ok (apply_scroll_delta split_id delta m).2.
Proof.
  intros Hm. split_and!.
  - unfold create_group_with_id. case_decide as Hd; [done|]. destruct Hm as [Hn Hf]. split.
    + cbn. rw fmap_app. apply NoDup_app. split_and!; [done | | apply NoDup_singleton].
      intros i (g & -> & Hg)%list_elem_of_fmap_1 Hi%list_elem_of_singleton. apply Hd, Exists_exists. by exists g.
    + cbn. apply Forall_app. split; [done|]. by apply Forall_singleton.
  - unfold remove_sync_group. case_decide; [|done]. apply (groups_sublist m); [|done]. cbn. clear.
    induction m as [|g m IH]; [done|]. cbn. case_decide; [by constructor | by apply sublist_skip].
  - apply (groups_sublist m); [apply sublist_filter | done].
  - by apply write_first_ok; [| |done]; [|intros g; cbn; by destruct a].
  - unfold apply_scroll_delta. case_match; [|done]. apply write_first_ok; [| |done]; intros g; unfold group_apply_scroll_delta; by case_match.
Qed.
End sync.

(** Two hunks: a change of five lines for two, and one of none for four. *)
Lemma anchors_keep_together_witness :
  let g := group_set_anchors [mkAnchor 0 0; mkAnchor 10 10; mkAnchor 15 12; mkAnchor 20 17; mkAnchor 21 22] (group_new 1 1 2) in
  left_to_right_line 1000 g 13 = 12 /\ right_to_left_line 1000 g 12 = 15 /\ left_to_right_line 1000 g 30 = 31
  /\ right_to_left_line 1000 g (left_to_right_line 1000 g 30) = 30
  /\ forall i j, i <= j -> left_to_right_line 1000 g i <= left_to_right_line 1000 g j.
Proof.
  intros g. destruct (anchors_keep_together 1000 g) as (Hm & Hb & Hl).
  { repeat (apply SSorted_cons || apply SSorted_nil || apply list.Forall_cons_2 || apply list.Forall_nil_2 || (cbn; lia)). }
  { cbn. repeat (apply list.Forall_cons_2; [cbn; lia|]). apply list.Forall_nil_2. }
  split; [exact (proj1 (Hb 1 (mkAnchor 10 10) (mkAnchor 15 12) 13 eq_refl eq_refl ltac:(cbn; lia)))|].
  split; [exact (proj2 (Hb 1 (mkAnchor 10 10) (mkAnchor 15 12) 13 eq_refl eq_refl ltac:(cbn; lia)))|].
  split; [exact (proj1 (Hl (mkAnchor 21 22) 30 eq_refl ltac:(cbn; lia) ltac:(cbn; lia)))|].
  split; [exact (proj2 (Hl (mkAnchor 21 22) 30 eq_refl ltac:(cbn; lia) ltac:(cbn; lia)))|].
  intros i j H. exact (proj1 (Hm i j H)).
Defined.

(** A pair whose partner shows a stretch of the text in fewer rows: the partner goes back
    while the driver goes on. *)
Lemma synced_top_goes_back :
  let map := fun row => Z.min row 5 in
  (forall i j, i <= j -> map i <= map j)%Z
  /\ synced_top 3 100 11 50 map = Ok 2%Z /\ synced_top 4 100 11 50 map = Ok 1%Z.
Proof. cbn zeta. split; [lia|]. split; reflexivity. Qed.
